(* ===== verification/_CoqProject ===== *)
-Q . S2P
Prelude.v
GoStrings.v
GoLib.v
Lineage.v
LineageSpec.v
LineageRegistry.v
ActorContext.v
PolicyTypes.v
PolicyDefaults.v
PolicyRegistry.v
Slots.v
Hostname.v
Rules.v
Engine.v
EngineSpec.v
PolicyValidate.v
PolicyWf.v
Ownership.v
OwnershipGate.v
Session.v
SessionSpec.v
Taint.v
Redaction.v
Ledger.v
LedgerSpec.v
InstructionAuthority.v
InstructionAuthoritySpec.v
InstructionAuth.v
Trajectory.v
GoPath.v
Capability.v
CapabilityEval.v
CapabilitySpec.v
CallArgs.v
Approval.v
Receipt.v
Proxy.v
ToolsCall.v
ToolsCallSpec.v
Durable.v
DurableSpec.v
Envelope.v
RelaySpec.v
Framing.v
KillSwitch.v
KillSwitchSpec.v
Kinetic.v
KineticSpec.v
ServerIdentity.v
Workflow.v
WorkflowSpec.v
WorkflowRepo.v
WorkflowRepoSpec.v
Linter.v
LinterSpec.v
Reload.v
ReloadSpec.v
ServerRelay.v
ServerRelaySpec.v
Brake.v
BrakeSpec.v
IncidentBundle.v
IncidentBundleSpec.v
CapReceipts.v
CapReceiptsSpec.v
Evaluators.v
SwarmBudget.v
ToolCorrelation.v
CompositionGraph.v
AuthState.v
ResourceIdentity.v
AuthorityContext.v
SelfEscalation.v
PrincipalDerivation.v
CausalAuthority.v
ControlPlane.v
HostTransitivity.v
AoepState.v
ContextProvenance.v
Boundary.v
