(* ===== verification/Prelude.v ===== *)
(** * mcp-visor: a policy proxy for MCP tool calls

    The program sits between an MCP client and an MCP server.  It decides on
    every [tools/call] message with a loaded policy and the state of the
    session, asks an operator where the policy says so, records the decision in
    a hash-chained ledger, and relays the call only when the decision allows it
    and its record is durable.  Around this core are the control files that stop
    a session, the reload of policies, the identity of the launched server, the
    sealing of incidents, a workflow tool for contributors, and a family of
    evaluators that each decide one kind of question about authority.  This
    library models all of these, from the files under [src/internal] and
    [src/cmd] that each file names at its top.

    ** Files

    Shared:
    - [Prelude], [GoStrings], [GoLib], [GoPath]: the result type of fallible
      code, loops with early return, tactics; Go's strings, unicode and path
      functions, byte by byte; 64-bit integers and their wrap-around, float64
      to int conversion, JSON values, and classes for what the code takes from
      Go's libraries.

    Deciding:
    - [Lineage] ([lineage/types.go], [validate.go], [registry.go] lookups),
      [LineageRegistry] (construction and cycle detection), [LineageSpec] (the
      chain-of-delegations specification it refines).
    - [ActorContext] ([actorcontext/context.go]).
    - [PolicyTypes], [PolicyDefaults], [PolicyRegistry], [PolicyValidate],
      [PolicyWf] (loading a policy; what a loaded policy satisfies), [Linter],
      [LinterSpec] ([policy/linter.go], [cmd/policy-lint]).
    - [Slots], [Hostname], [Rules] (argument slots, host names and the argument
      rules of [policy/engine.go]), [Engine] (the evaluation pipeline),
      [EngineSpec] (its abstract verdict).
    - [Ownership] ([ownership/*]), [OwnershipGate] (the proxy's gate with its
      signed receipts).
    - [InstructionAuthority], [InstructionAuthoritySpec]
      ([instructionauthority/*]), [InstructionAuth]
      ([proxy/instruction_authority_auth.go]).
    - [Capability], [CapabilityEval], [CapabilitySpec], [CapReceipts],
      [CapReceiptsSpec] ([capability/*]: what a chain of calls accumulates, the
      receipts of it and their strict reading).
    - [Trajectory] ([trajectory/advisor.go]), [Redaction]
      ([redaction/engine.go]), [CallArgs] (the arguments of a call as the proxy
      reads and rewrites them).

    The session and the proxy:
    - [Session], [SessionSpec], [Taint] ([proxy/session.go], [delegation.go],
      [session_taint.go]).
    - [Approval] ([approval/engine.go]: operators and their timeout), [Receipt]
      ([receipt/*]), [Durable], [DurableSpec] ([approval/durable.go]: requests
      and receipts on disk, torn writes, restarts).
    - [Ledger], [LedgerSpec] ([audit/logger.go]).
    - [Proxy], [ToolsCall], [ToolsCallSpec] ([proxy/tools_call.go]: the stages of
      a call, from the kill switch to the commit).
    - [Envelope], [Framing], [RelaySpec] ([mcp/*], [proxy/client_envelope.go]:
      which bytes may be a call, their canonical form, the relay to the
      server), [ServerRelay], [ServerRelaySpec] (the handshake and the relay to
      the client).
    - [KillSwitch], [KillSwitchSpec] ([killswitch/*]: signed commands, epochs, the
      control directory), [Kinetic], [KineticSpec]
      ([proxy/kinetic_stop.go], [kinetic_process_unix.go]: how a stop, a launch
      and encodings interleave).
    - [Reload], [ReloadSpec] ([policy/watcher.go] and the proxy's two-phase
      installation of a policy), [ServerIdentity] ([serveridentity/*]).

    Around it:
    - [Brake], [BrakeSpec] ([observability/brake.go]), [IncidentBundle],
      [IncidentBundleSpec] ([incidentbundle/*]), [Boundary] ([incidentbench]'s
      action boundary), [Workflow], [WorkflowSpec], [WorkflowRepo],
      [WorkflowRepoSpec] ([workflow/workflow.go]).
    - [Evaluators] (what the evaluators share), [SwarmBudget], [ToolCorrelation],
      [CompositionGraph], [AuthState], [ResourceIdentity], [AuthorityContext],
      [SelfEscalation], [PrincipalDerivation], [CausalAuthority],
      [ControlPlane], [HostTransitivity], [AoepState], [ContextProvenance] (the
      packages of those names).

    ** How the code is rendered

    A Go struct is a Record, one field per field (prefixed, since Rocq field
    names are global), without mutexes and pre-compiled caches.  A method that
    mutates its receiver returns the new value; where it runs under the
    receiver's mutex it is one step, and where the order of several threads
    matters the steps between them are those of a transition relation: in
    [Reload] with [runtimeMu] as a read-write lock and the watcher's lock, in
    [Kinetic] with [kineticIOMu] and writes that block for as long as nobody
    reads, in [KillSwitch] with the read and the rename of a state file apart,
    in [Durable] between file operations.  A function returning [error] gives
    [option string] (its message), one returning [(T, error)] gives [result] or
    [outcome].  A Go map that is only looked up is a [gmap]; one that is iterated
    is its list of entries in iteration order, and the theorems say when the
    order does not matter.  [int] and [int64] are [Z] with the wrap-around
    written where it can occur; strings are byte strings.  The clock is an
    argument, and so are the answers of operators and the outcomes of writes.
    The evaluators' [Decision] is without the fields that copy the input.

    The code's library calls are parameters: [GoUnicode] (simple case folding),
    [GoPatterns] and [GoReplace] (regexp), [GoTime] and [GoDuration] (RFC 3339,
    durations), [GoNetip] (addresses), [GoFmt] ([%q]), [GoArch] (float to int out
    of range), [GoMapOrder] (iteration), [GoFS] (a file system),
    [GoCrypto] (SHA-256), [GoHMAC], [AssertionCrypto] (Ed25519 and the claims
    encoding), and [encoding/json] on each type that is encoded or decoded
    ([GoJSON], [RawJSON], [EventJSON], [DecisionJSON], [GateJSON], [WireJSON],
    [ResponseJSON], [SnapshotJSON], [CapJSON], [ReceiptDecode], [DurableJSON],
    [ControlJSON], [BundleJSON], [TaskJSON], [RepoJSON]); the classes named [Laws]
    and [GoTimeInj] state what is relied on of them; [ServerIdentity.Host],
    [WorkflowRepo.Repo], [WorkflowRepo.Paths] and [LintLib] stand for the host,
    the repository and the linter's libraries.  Every theorem with hypotheses on
    them has a witness with concrete functions.

    ** What is proved

    - After the handshake a line reaches the server only if its first value asks
      for no call or if it is the canonical form of a call that passed every
      gate, was approved when a stage asked for it and is durably recorded; over
      lines of one value the calls stay within the session's limit; every call
      is accounted for, whatever fails.  What the client gets back is redacted
      and cut.  What the handshake lets through, the second value of a line, an
      answer file left behind and a message that cannot be rewritten are outside
      these theorems, and shown by examples.
    - The engine allows a call exactly when every stage allows it, deny
      dominating approval; lineage accepts exactly the chains of delegation from
      a human principal; ownership, instruction authority and its
      assertions, each accepted once; the delegation budget under every
      interleaving; what policies load, and what the strict lint reports.
    - A stop contains a session for good, and gets through in a bounded number of
      moves unless a client that does not read holds it up; a revoked epoch
      stays fenced unless a write under way had read a lower one.  Reloads are
      consistent, and no lock stops them or the calls; a server is attested only
      by the pin in force.
    - The ledger and the durable approvals under torn writes and restarts; tamper
      evidence of the ledger's tip, of bundles, identities and snapshots, down
      to a SHA-256 collision; the receipts of capability accounting as one chain.
    - Sealed bundles verify, episodes are exactly their grammar, and the strict
      readers of bundles and receipts accept exactly the canonical text.  The
      brake metrics count what their contract says.  A report says reviewed
      exactly when the repository holds the evidence for it now.
    - Each evaluator allows exactly what its rule says: sums over servers within
      a ceiling, flows within a mandate as a whole, grants not revoked, one
      execution per idempotency key, trust that never rises along a derivation,
      whatever the action claims.  The bench's boundary carries out each effect
      at most once.

    ** Bounds and fuel

    [Lineage.walk] and [LineageRegistry.visit] take fuel that their callers set
    above the depth the code allows (32 hops; the number of agents).
    [Ledger.read_chunks] has one unit per byte of the file,
    [Ownership.put_uvarint] more than the bits of the number.  The token
    scans of [KillSwitch] and [WorkflowRepo] have two units per token and one
    more, since each turn reads a token or closes a frame; the searches of
    [ContextProvenance] one more than there are fragments, which is more than
    any path without a repetition.  The theorems are about the callers and show
    that the fuel suffices.

    ** Not modelled

    The transports and sinks (HTTP, SIEM, webhook, dashboard, vault, tracing),
    the runtime counters, the commands' flag parsing, and the examples: they are
    I/O around the core, or calls of libraries.  YAML and JSON decoding, Go's
    regexp, Ed25519 and SHA-256 are parameters.  Of the incident bench, the
    recorder (its payloads hold struct values as [any]), the generated corpus
    and the report over floats are left out.  Reading a payload through a
    reference kept after [Append] is not modelled. *)
From stdpp Require Import base strings gmap list pretty.
From Stdlib Require Import ZArith Lia.

(** ** Scope and notations

    Go compares strings with [==]; every such comparison of the sources is
    written [s =s? t].  [s != t] is [s <>s? t]. *)
Declare Scope go_scope.
Delimit Scope go_scope with go.
Notation "s =s? t" := (String.eqb s t) (at level 70, no associativity) : go_scope.
Notation "s <>s? t" := (negb (String.eqb s t)) (at level 70, no associativity) : go_scope.
#[global] Open Scope go_scope.

(** A Go call that returns [(T, error)]: the error is its message. *)
Inductive result (A : Type) : Type :=
| Ok (a : A)
| Err (msg : string).
Arguments Ok {_} _.
Arguments Err {_} _.

(** A Go call that returns only [error]: [None] is [nil]. *)
Abbreviation error := (option string).

Definition result_bind {A B} (m : result A) (k : A -> result B) : result B :=
  match m with Ok a => k a | Err e => Err e end.
Notation "'let?' x ':=' m 'in' k" := (result_bind m (fun x => k))
  (at level 10, x name, m at level 100, k at level 200) : go_scope.

(** [if err := e; err != nil { return err }; k] *)
Definition err_then (e k : error) : error :=
  match e with Some m => Some m | None => k end.
Notation "e ';;?' k" := (err_then e k) (at level 60, right associativity) : go_scope.

(** [if b { return fmt.Errorf(msg) }] *)
Definition fail_if (b : bool) (msg : string) : error := if b then Some msg else None.

(** [for _, x := range l { if err := f(x); err != nil { return err } }] *)
Fixpoint each_err {A} (f : A -> error) (l : list A) : error :=
  match l with
  | [] => None
  | x :: l' => match f x with Some e => Some e | None => each_err f l' end
  end.

(** The same loop with the index [for i, x := range l]. *)
Fixpoint each_err_i {A} (f : nat -> A -> error) (i : nat) (l : list A) : error :=
  match l with
  | [] => None
  | x :: l' => match f i x with Some e => Some e | None => each_err_i f (S i) l' end
  end.

(** [for _, x := range l { if x == s { return true } }; return false] *)
Definition str_in (s : string) (l : list string) : bool := existsb (fun x => x =s? s) l.

(** A Go [map[string]T] in one iteration order: Go leaves the order of
    [range] over a map unspecified, so a map is a list of entries with
    distinct keys, and the theorems quantify over its permutations. *)
Fixpoint assoc {T} (k : string) (m : list (string * T)) : option T :=
  match m with
  | [] => None
  | (k', v) :: m' => if k' =s? k then Some v else assoc k m'
  end.

(** The condition that makes a list of entries a Go map. *)
Definition map_ok {T} (m : list (string * T)) : Prop := NoDup (m.*1).

(** [strconv.Itoa], and [%d] of [fmt.Sprintf]. *)
Definition Itoa (z : Z) : string := pretty z.

(** Record update: [with_field eta f x v] is [x] with field [f] set to [v];
    [eta] maps a record to the literal of its own fields. *)
Ltac with_field eta f x v :=
  let t := eval red in (eta x) in
  let t := eval pattern (f x) in t in
  lazymatch t with ?h _ => let r := eval cbv beta in (h v) in exact r end.

(** ** Automation

    [bools] turns the boolean tests of the code found in the context into
    propositions; the rewrite database [gobool] does the same in a goal. *)
Create Rewrite HintDb gobool.
Create Rewrite HintDb gorefl.

Lemma str_eqb_true s t : (s =s? t) = true <-> s = t.
Proof. apply String.eqb_eq. Qed.
Lemma str_eqb_false s t : (s =s? t) = false <-> s <> t.
Proof. apply String.eqb_neq. Qed.
Lemma str_neqb_true s t : (s <>s? t) = true <-> s <> t.
Proof. rewrite negb_true_iff. apply str_eqb_false. Qed.
Lemma str_neqb_false s t : (s <>s? t) = false <-> s = t.
Proof. rewrite negb_false_iff. apply str_eqb_true. Qed.
Lemma str_eqb_refl s : (s =s? s) = true.
Proof. apply String.eqb_refl. Qed.

Ltac bool_hyp :=
  match goal with
  | H : (_ =s? _) = true |- _ => apply str_eqb_true in H
  | H : (_ =s? _) = false |- _ => apply str_eqb_false in H
  | H : negb _ = true |- _ => apply negb_true_iff in H
  | H : negb _ = false |- _ => apply negb_false_iff in H
  | H : (_ && _) = true |- _ => apply andb_true_iff in H; destruct H
  | H : (_ || _) = false |- _ => apply orb_false_iff in H; destruct H
  | H : (_ =? _)%Z = true |- _ => apply Z.eqb_eq in H
  | H : (_ =? _)%Z = false |- _ => apply Z.eqb_neq in H
  | H : (_ <? _)%Z = true |- _ => apply Z.ltb_lt in H
  | H : (_ <? _)%Z = false |- _ => apply Z.ltb_ge in H
  | H : (_ <=? _)%Z = true |- _ => apply Z.leb_le in H
  | H : (_ <=? _)%Z = false |- _ => apply Z.leb_gt in H
  | H : (_ =? _)%nat = true |- _ => apply Nat.eqb_eq in H
  | H : (_ =? _)%nat = false |- _ => apply Nat.eqb_neq in H
  | H : (_ <? _)%nat = true |- _ => apply Nat.ltb_lt in H
  | H : (_ <? _)%nat = false |- _ => apply Nat.ltb_ge in H
  | H : (_ <=? _)%nat = true |- _ => apply Nat.leb_le in H
  | H : (_ <=? _)%nat = false |- _ => apply Nat.leb_gt in H
  | H : true = _ |- _ => symmetry in H
  | H : false = _ |- _ => symmetry in H
  end.
Ltac bools := repeat bool_hyp; simplify_eq.

#[export] Hint Rewrite str_eqb_true str_eqb_false str_neqb_true str_neqb_false
  andb_true_iff orb_false_iff orb_true_iff negb_true_iff negb_false_iff
  Z.eqb_eq Z.eqb_neq Z.ltb_lt Z.ltb_ge Z.leb_le Z.leb_gt : gobool.
#[export] Hint Rewrite str_eqb_refl : gorefl.

(** Split every [if]/[match] scrutinee of a hypothesis, keeping only the
    branches the hypothesis allows. *)
Ltac split_in H :=
  repeat match type of H with
  | context [match ?x with _ => _ end] =>
      let E := fresh "E" in destruct x eqn:E; simplify_eq/=; try discriminate
  end.

(** ** Generic lemmas *)

Lemma str_in_In s l : str_in s l = true <-> In s l.
Proof.
  unfold str_in. rewrite existsb_exists. split.
  - intros (x & Hx & E). bools. done.
  - intros Hs. exists s. split; [done|]. apply str_eqb_refl.
Qed.

Lemma str_in_false s l : str_in s l = false <-> ~ In s l.
Proof. rewrite <-str_in_In. destruct (str_in s l); naive_solver. Qed.

Lemma existsb_perm {A} (f : A -> bool) l l' :
  Permutation l l' -> existsb f l = existsb f l'.
Proof.
  induction 1; cbn; [done | by f_equal | | congruence].
  by destruct (f x), (f y).
Qed.

Lemma forallb_perm {A} (f : A -> bool) l l' :
  Permutation l l' -> forallb f l = forallb f l'.
Proof.
  induction 1; cbn; [done | by f_equal | | congruence].
  by destruct (f x), (f y).
Qed.

Lemma assoc_Some {T} k (v : T) m :
  map_ok m -> assoc k m = Some v <-> In (k, v) m.
Proof.
  unfold map_ok. induction m as [|[k' v'] m IH]; cbn; [naive_solver|].
  intros Hnd. inversion_clear Hnd as [|? ? Hni Hnd'].
  destruct (k' =s? k) eqn:E; bools.
  - split; [naive_solver|]. intros [|Hin]; [by simplify_eq|].
    exfalso. apply Hni. apply list_elem_of_In. by apply (in_map fst) in Hin.
  - rewrite IH by done. naive_solver.
Qed.

Lemma assoc_perm {T} k (m m' : list (string * T)) :
  map_ok m -> Permutation m m' -> assoc k m = assoc k m'.
Proof.
  intros Hm P. assert (map_ok m') as Hm'.
  { unfold map_ok. by rewrite <-P. }
  apply option_eq. intros v. rewrite !assoc_Some by done. split; by apply Permutation_in.
Qed.

Lemma map_ok_perm {T} (m m' : list (string * T)) :
  Permutation m m' -> map_ok m -> map_ok m'.
Proof. intros P. unfold map_ok. by rewrite P. Qed.

Lemma each_err_None {A} (f : A -> error) l :
  each_err f l = None <-> Forall (fun x => f x = None) l.
Proof.
  induction l as [|x l IH]; cbn; [by split; [constructor|]|].
  rewrite Forall_cons, <-IH. destruct (f x); naive_solver.
Qed.

Lemma each_err_i_None {A} (f : nat -> A -> error) i l :
  each_err_i f i l = None <-> forall j x, l !! j = Some x -> f (i + j)%nat x = None.
Proof.
  revert i. induction l as [|y l IH]; intros i; cbn; [naive_solver|].
  split.
  - destruct (f i y) eqn:E; [done|]. intros H [|j] x; cbn; intros Hj.
    + simplify_eq. by rewrite Nat.add_0_r.
    + rewrite Nat.add_succ_r. by apply (proj1 (IH (S i)) H).
  - intros H. rewrite (ltac:(by rewrite <-(H 0%nat y), Nat.add_0_r) : f i y = None).
    apply IH. intros j x Hj. rewrite Nat.add_succ_l, <-Nat.add_succ_r. by apply H.
Qed.

Lemma err_then_None (e k : error) : (e ;;? k) = None <-> e = None /\ k = None.
Proof. destruct e; cbn; naive_solver. Qed.

Lemma fail_if_None b msg : fail_if b msg = None <-> b = false.
Proof. destruct b; cbn; naive_solver. Qed.

Lemma NoDup_fmap_inj {A B} (f : A -> B) (l : list A) x y :
  NoDup (f <$> l) -> In x l -> In y l -> f x = f y -> x = y.
Proof.
  induction l as [|z l IH]; cbn; [done|]. intros Hnd. inversion_clear Hnd as [|? ? Hni Hnd'].
  assert (forall w, In w l -> f z <> f w) as Hz.
  { intros w Hw E. apply Hni. rewrite E. by apply list_elem_of_In, in_map. }
  intros [<-|Hx] [<-|Hy] E; auto; exfalso; by eapply Hz.
Qed.
(** Looking a key up among elements whose keys differ. *)
Lemma find_key {A} (key : A -> string) l k x : NoDup (key <$> l) ->
  List.find (fun x => key x =s? k) l = Some x <-> In x l /\ key x = k.
Proof.
  intros Hnd. split; [intros [? ?]%find_some; by bools|]. intros [Hin <-]. destruct (List.find _ l) as [y|] eqn:Ef.
  - apply find_some in Ef as [Hy E]. bools. f_equal. by eapply NoDup_fmap_inj.
  - pose proof (find_none _ _ Ef x Hin) as E. cbn in E. by rewrite str_eqb_refl in E.
Qed.
