(* ===== verification/GoStrings.v ===== *)
(** Go strings: byte sequences, with the operations of the packages
    [strings], [unicode/utf8] and [regexp.QuoteMeta] that the policy engine
    uses.  The byte-level operations are executable and exact.  Go's
    Unicode case tables ([unicode.SimpleFold], [unicode.ToLower]) are the
    class [GoUnicode]; [ascii_unicode] is the instance the witnesses use. *)
From stdpp Require Import base strings list.
From Stdlib Require Import ZArith Lia Ascii String.
From S2P Require Import Prelude.
#[local] Open Scope string_scope.
#[local] Open Scope Z_scope.

(** ** Bytes *)

Definition byteZ (c : ascii) : Z := Z.of_N (N_of_ascii c).
Definition Zbyte (z : Z) : ascii := ascii_of_N (Z.to_N z).

Definition in_range (lo hi : ascii) (c : ascii) : bool :=
  (byteZ lo <=? byteZ c) && (byteZ c <=? byteZ hi).
Definition is_upper : ascii -> bool := in_range "A" "Z".
Definition is_lower : ascii -> bool := in_range "a" "z".
Definition is_digit : ascii -> bool := in_range "0" "9".
Definition is_alnum (c : ascii) : bool := is_upper c || is_lower c || is_digit c.

Fixpoint all_bytes (p : ascii -> bool) (s : string) : bool :=
  match s with "" => true | String c s' => p c && all_bytes p s' end.
Fixpoint any_byte (p : ascii -> bool) (s : string) : bool :=
  match s with "" => false | String c s' => p c || any_byte p s' end.
Definition byte_in (cs : string) (c : ascii) : bool := any_byte (Ascii.eqb c) cs.

(** [strings.ContainsAny(s, chars)] for ASCII [chars]. *)
Definition ContainsAny (s chars : string) : bool := any_byte (byte_in chars) s.

(** The control bytes the sources write as escapes. *)
Definition NUL : ascii := Ascii.zero.
Definition TAB : ascii := ascii_of_nat 9.
Definition LF : ascii := ascii_of_nat 10.
Definition CR : ascii := ascii_of_nat 13.
Definition DQUOTE : ascii := ascii_of_nat 34.
Definition BACKSLASH : ascii := ascii_of_nat 92.

(** ** Substrings *)

Fixpoint HasPrefix (s p : string) {struct p} : bool :=
  match p, s with
  | "", _ => true
  | String a p', String b s' => Ascii.eqb a b && HasPrefix s' p'
  | String _ _, "" => false
  end.

(** [s[n:]] *)
Fixpoint drop_bytes (n : nat) (s : string) : string :=
  match n, s with
  | O, _ => s
  | S n', String _ s' => drop_bytes n' s'
  | S _, "" => ""
  end.

(** [i := strings.Index(s, sep)]: with [Some (u, v)], [u] is [s[:i]] and
    [v] is [s[i+len(sep):]]; [None] is [i < 0]. *)
Fixpoint cut (sep s : string) : option (string * string) :=
  if HasPrefix s sep then Some ("", drop_bytes (String.length sep) s)
  else match s with
       | "" => None
       | String c s' =>
           match cut sep s' with
           | Some (u, v) => Some (String c u, v)
           | None => None
           end
       end.
Definition Contains (s sep : string) : bool :=
  match cut sep s with Some _ => true | None => false end.

(** [i := strings.IndexAny(s, chars); i >= 0] then [s[:i]]: the bytes before
    the first one of [chars] (all of [s] when there is none). *)
Fixpoint take_until (p : ascii -> bool) (s : string) : string :=
  match s with
  | "" => ""
  | String c s' => if p c then "" else String c (take_until p s')
  end.

(** [i := strings.LastIndex(s, c)] for a one-byte [c]: [(s[:i], s[i+1:])]. *)
Fixpoint cut_last (c : ascii) (s : string) : option (string * string) :=
  match s with
  | "" => None
  | String d s' =>
      match cut_last c s' with
      | Some (u, v) => Some (String d u, v)
      | None => if Ascii.eqb c d then Some ("", s') else None
      end
  end.

(** [strings.TrimSuffix(s, suf)] for a one-byte suffix. *)
Fixpoint TrimSuffixByte (c : ascii) (s : string) : string :=
  match s with
  | "" => ""
  | String d "" => if Ascii.eqb c d then "" else s
  | String d s' => String d (TrimSuffixByte c s')
  end.

(** [s[len(s)-1] == c] for a nonempty [s]. *)
Fixpoint last_byte_is (c : ascii) (s : string) : bool :=
  match s with
  | "" => false
  | String d "" => Ascii.eqb c d
  | String _ s' => last_byte_is c s'
  end.

(** [strings.ReplaceAll(s, old, new)] for a nonempty [old]: left to right,
    non overlapping.  [skip] counts the bytes of a match still to drop. *)
Fixpoint replace_from (skip : nat) (old new s : string) : string :=
  match s with
  | "" => ""
  | String c s' =>
      match skip with
      | S k => replace_from k old new s'
      | O => if HasPrefix s old
             then new +:+ replace_from (pred (String.length old)) old new s'
             else String c (replace_from O old new s')
      end
  end.
Definition ReplaceAll (s old new : string) : string := replace_from O old new s.

(** [strings.SplitN(s, ":", 2)] when it yields two parts. *)
Definition split_colon (s : string) : option (string * string) := cut ":" s.

(** [regexp.QuoteMeta]. *)
Definition meta_bytes : string := String BACKSLASH ".+*?()|[]{}^$".
Fixpoint QuoteMeta (s : string) : string :=
  match s with
  | "" => ""
  | String c s' =>
      if byte_in meta_bytes c then String BACKSLASH (String c (QuoteMeta s'))
      else String c (QuoteMeta s')
  end.

(** ** UTF-8

    [decode s] is what [for _, r := range s] visits: each rune with the
    bytes it was read from.  An invalid byte is [RuneError], one byte wide. *)
Definition RuneError : Z := 65533.
Definition cont (lo hi : Z) (c : ascii) : bool := (lo <=? byteZ c) && (byteZ c <=? hi).
Definition low6 (c : ascii) : Z := Z.land (byteZ c) 63.

Fixpoint decode (s : string) : list (Z * string) :=
  match s with
  | "" => []
  | String c0 s1 =>
    let b := byteZ c0 in
    let one := String c0 "" in
    let bad (_ : unit) := (RuneError, one) :: decode s1 in
    if b <? 128 then (b, one) :: decode s1
    else match s1 with
    | "" => bad tt
    | String c1 s2 =>
      if (194 <=? b) && (b <=? 223) && cont 128 191 c1 then
        (Z.lor (Z.shiftl (Z.land b 31) 6) (low6 c1), String c0 (String c1 "")) :: decode s2
      else match s2 with
      | "" => bad tt
      | String c2 s3 =>
        if (224 <=? b) && (b <=? 239) &&
           cont (if b =? 224 then 160 else 128) (if b =? 237 then 159 else 191) c1 &&
           cont 128 191 c2 then
          (Z.lor (Z.lor (Z.shiftl (Z.land b 15) 12) (Z.shiftl (low6 c1) 6)) (low6 c2),
           String c0 (String c1 (String c2 ""))) :: decode s3
        else match s3 with
        | "" => bad tt
        | String c3 s4 =>
          if (240 <=? b) && (b <=? 244) &&
             cont (if b =? 240 then 144 else 128) (if b =? 244 then 143 else 191) c1 &&
             cont 128 191 c2 && cont 128 191 c3 then
            (Z.lor (Z.lor (Z.shiftl (Z.land b 7) 18) (Z.shiftl (low6 c1) 12))
                   (Z.lor (Z.shiftl (low6 c2) 6) (low6 c3)),
             String c0 (String c1 (String c2 (String c3 "")))) :: decode s4
          else bad tt
        end
      end
    end
  end.
Definition runes (s : string) : list Z := (decode s).*1.

(** [utf8.EncodeRune] on a rune that [runes] can yield or a case table maps to. *)
Definition encode_rune (r : Z) : string :=
  if r <? 128 then String (Zbyte r) ""
  else if r <? 2048 then
    String (Zbyte (Z.lor 192 (Z.shiftr r 6))) (String (Zbyte (Z.lor 128 (Z.land r 63))) "")
  else if r <? 65536 then
    String (Zbyte (Z.lor 224 (Z.shiftr r 12)))
      (String (Zbyte (Z.lor 128 (Z.land (Z.shiftr r 6) 63)))
        (String (Zbyte (Z.lor 128 (Z.land r 63))) ""))
  else
    String (Zbyte (Z.lor 240 (Z.shiftr r 18)))
      (String (Zbyte (Z.lor 128 (Z.land (Z.shiftr r 12) 63)))
        (String (Zbyte (Z.lor 128 (Z.land (Z.shiftr r 6) 63)))
          (String (Zbyte (Z.lor 128 (Z.land r 63))) ""))).
Definition encode_runes (l : list Z) : string := foldr (fun r s => encode_rune r +:+ s) "" l.

(** ** Space

    [unicode.IsSpace] is the White_Space property: a short fixed list. *)
Definition is_space_rune (r : Z) : bool :=
  ((9 <=? r) && (r <=? 13)) || (r =? 32) || (r =? 133) || (r =? 160) || (r =? 5760) ||
  ((8192 <=? r) && (r <=? 8202)) || (r =? 8232) || (r =? 8233) || (r =? 8239) ||
  (r =? 8287) || (r =? 12288).

Fixpoint drop_space (l : list (Z * string)) : list (Z * string) :=
  match l with
  | [] => []
  | (r, bs) :: l' => if is_space_rune r then drop_space l' else l
  end.
Definition trim_decoded (l : list (Z * string)) : list (Z * string) :=
  rev (drop_space (rev (drop_space l))).
Definition bytes_of (l : list (Z * string)) : string := foldr (fun p s => p.2 +:+ s) "" l.

(** [strings.TrimSpace] *)
Definition TrimSpace (s : string) : string := bytes_of (trim_decoded (decode s)).

(** ** Case

    [simple_fold] picks one representative of each [unicode.SimpleFold]
    orbit and [to_lower] is [unicode.ToLower]: two data tables of the
    [unicode] package. *)
Class GoUnicode := {
  simple_fold : Z -> Z;
  to_lower : Z -> Z
}.

(** What the sources rely on: on ASCII both are the ASCII letter case. *)
Definition lower_ascii (r : Z) : Z := if (65 <=? r) && (r <=? 90) then r + 32 else r.
Class GoUnicodeLaws `{GoUnicode} := {
  simple_fold_ascii r : 0 <= r < 128 -> simple_fold r = lower_ascii r;
  to_lower_ascii r : 0 <= r < 128 -> to_lower r = lower_ascii r
}.

Fixpoint list_Zeqb (l l' : list Z) : bool :=
  match l, l' with
  | [], [] => true
  | x :: l1, y :: l2 => (x =? y) && list_Zeqb l1 l2
  | _, _ => false
  end.

Section case.
Context `{GoUnicode}.

(** [strings.EqualFold] *)
Definition EqualFold (s t : string) : bool :=
  list_Zeqb (simple_fold <$> runes s) (simple_fold <$> runes t).

(** [strings.ToLower] *)
Definition ToLower (s : string) : string := encode_runes (to_lower <$> runes s).
End case.

(** ASCII letters, and the two non-ASCII runes whose orbit holds an ASCII
    letter: the Kelvin sign and the long s. *)
Definition min_fold (r : Z) : Z :=
  if r =? 8490 then 107 else if r =? 383 then 115 else lower_ascii r.
Definition min_lower (r : Z) : Z :=
  if r =? 8490 then 107 else if r =? 304 then 105 else lower_ascii r.
Definition ascii_unicode : GoUnicode := {| simple_fold := min_fold; to_lower := min_lower |}.

Lemma ascii_unicode_laws : @GoUnicodeLaws ascii_unicode.
Proof.
  split; intros r Hr; cbn; unfold min_fold, min_lower;
    repeat (destruct (_ =? _) eqn:E; [apply Z.eqb_eq in E; lia | clear E]); reflexivity.
Qed.

(** ** Lemmas *)

Lemma list_Zeqb_eq l l' : list_Zeqb l l' = true <-> l = l'.
Proof.
  revert l'. induction l as [|x l IH]; intros [|y l']; cbn; try naive_solver.
  rewrite andb_true_iff, Z.eqb_eq, IH. naive_solver.
Qed.

Section case_lemmas.
Context `{GoUnicode}.

Lemma EqualFold_iff s t :
  EqualFold s t = true <-> simple_fold <$> runes s = simple_fold <$> runes t.
Proof. apply list_Zeqb_eq. Qed.

Lemma EqualFold_refl s : EqualFold s s = true.
Proof. by rewrite EqualFold_iff. Qed.

Lemma EqualFold_sym s t : EqualFold s t = EqualFold t s.
Proof. apply eq_true_iff_eq. rewrite !EqualFold_iff. done. Qed.

Lemma EqualFold_trans s t u :
  EqualFold s t = true -> EqualFold t u = true -> EqualFold s u = true.
Proof. rewrite !EqualFold_iff. congruence. Qed.
End case_lemmas.

Lemma append_assoc (s t u : string) : (s +:+ t) +:+ u = s +:+ (t +:+ u).
Proof.
  induction s as [|c s IH]; [reflexivity|].
  change (String c ((s +:+ t) +:+ u) = String c (s +:+ (t +:+ u))). by rewrite IH.
Qed.

Lemma str_length_app (s t : string) : String.length (s +:+ t) = (String.length s + String.length t)%nat.
Proof. induction s as [|c s IH]; [done|]. change (S (String.length (s +:+ t)) = S (String.length s + String.length t)). by rewrite IH. Qed.

Lemma append_nil_r (s : string) : s +:+ "" = s.
Proof. induction s as [|c s IH]; [done|]. change (String c (s +:+ "") = String c s). by rewrite IH. Qed.

Lemma all_bytes_app p s t : all_bytes p (s +:+ t) = all_bytes p s && all_bytes p t.
Proof. induction s as [|c s IH]; simpl; [done|]. rewrite IH. by rewrite andb_assoc. Qed.

Lemma any_byte_all p s : any_byte p s = negb (all_bytes (fun c => negb (p c)) s).
Proof.
  induction s as [|c s IH]; cbn; [done|]. rewrite IH. by destruct (p c).
Qed.

Lemma all_bytes_impl (p q : ascii -> bool) s :
  (forall c, p c = true -> q c = true) -> all_bytes p s = true -> all_bytes q s = true.
Proof. intros Hpq. induction s; cbn; [done|]. intros ?. bools. rewrite Hpq by done. auto. Qed.

Lemma HasPrefix_spec s p : HasPrefix s p = true <-> exists t, s = p +:+ t.
Proof.
  revert s. induction p as [|a p IH]; intros s; simpl; [split; [by exists s|done]|].
  destruct s as [|b s]; [by split; [|intros (? & ?)]|].
  rewrite andb_true_iff, Ascii.eqb_eq, IH. split.
  - intros [-> [t ->]]. by exists t.
  - intros [t [= -> ->]]. eauto.
Qed.

Lemma drop_bytes_app p t : drop_bytes (String.length p) (p +:+ t) = t.
Proof. induction p as [|a p IH]; cbn; [by destruct t|done]. Qed.

Lemma HasPrefix_drop s p : HasPrefix s p = true -> s = p +:+ drop_bytes (String.length p) s.
Proof. intros [t ->]%HasPrefix_spec. by rewrite drop_bytes_app. Qed.

Lemma cut_Some sep s u v : cut sep s = Some (u, v) -> s = u +:+ sep +:+ v.
Proof.
  revert u v. induction s as [|c s IH]; intros u v; cbn [cut];
    destruct (HasPrefix _ sep) eqn:Hp.
  - intros [= <- <-]. by apply HasPrefix_drop.
  - done.
  - intros [= <- <-]. by apply HasPrefix_drop.
  - destruct (cut sep s) as [[u' v']|]; [|done]. intros [= <- <-]. simpl. by rewrite (IH u' v').
Qed.

Lemma cut_last_Some c s u v : cut_last c s = Some (u, v) -> s = u +:+ String c v.
Proof.
  revert u v. induction s as [|d s IH]; intros u v; cbn; [done|].
  destruct (cut_last c s) as [[u' v']|]; [intros [= <- <-]; simpl; by rewrite (IH u' v')|].
  destruct (Ascii.eqb c d) eqn:E; [|done]. apply Ascii.eqb_eq in E as ->.
  by intros [= <- <-].
Qed.

Lemma cut_last_None c s : cut_last c s = None <-> any_byte (Ascii.eqb c) s = false.
Proof.
  induction s as [|d s IH]; simpl; [done|]. destruct (cut_last c s) as [[u v]|] eqn:E.
  - split; [done|]. intros Hn. apply orb_false_iff in Hn as [_ Hn]. by apply IH in Hn.
  - rewrite (proj1 IH eq_refl), orb_false_r. by destruct (Ascii.eqb c d).
Qed.

Lemma cut_last_app c u v :
  any_byte (Ascii.eqb c) v = false -> cut_last c (u +:+ String c v) = Some (u, v).
Proof.
  intros Hv. induction u as [|d u IH].
  - simpl. apply cut_last_None in Hv. rewrite Hv. by rewrite (proj2 (Ascii.eqb_eq c c)).
  - change (String d u +:+ String c v) with (String d (u +:+ String c v)). simpl. by rewrite IH.
Qed.

Lemma any_byte_app p s t : any_byte p (s +:+ t) = any_byte p s || any_byte p t.
Proof.
  rewrite !any_byte_all, all_bytes_app. by destruct (all_bytes _ s), (all_bytes _ t).
Qed.
