(* ===== verification/GoLib.v ===== *)
(** The rest of the Go standard library the sources use: decoded JSON
    values, [int(float64)], and, as classes, the calls whose definition is
    not in this repository ([regexp], [path/filepath], [time], [crypto],
    [%q]).  A function of the development that calls one of them takes it
    as a class argument; what it relies on is a law of the class. *)
From stdpp Require Import base strings list.
From Stdlib Require Import ZArith Lia Ascii String.
From S2P Require Import Prelude GoStrings.
#[local] Open Scope Z_scope.

(** ** Numbers *)

(** A [float64]: [Fin m e] is [m * 2^e]. *)
Inductive float64 := Fin (m e : Z) | Inf (neg : bool) | NaN.

Definition int64_ok (z : Z) : bool := (- 2^63 <=? z) && (z <=? 2^63 - 1).

(** Two's complement wrap-around of Go's 64-bit [int]. *)
Definition wrap64 (z : Z) : Z := (z + 2^63) mod 2^64 - 2^63.

(** [int(v)] truncates toward zero; when the result does not fit, the value
    is implementation-specific (the Go specification, "Conversions"). *)
Class GoArch := f64_out_of_range : float64 -> Z.
Definition amd64 : GoArch := fun _ => - 2^63.
Definition arm64 : GoArch := fun f =>
  match f with
  | Fin m _ => if m <? 0 then - 2^63 else 2^63 - 1
  | Inf neg => if neg then - 2^63 else 2^63 - 1
  | NaN => 0
  end.

Definition f64_trunc (m e : Z) : Z := if 0 <=? e then m * 2^e else Z.quot m (2^(-e)).
Definition int_of_float64 `{GoArch} (f : float64) : Z :=
  match f with
  | Fin m e => if int64_ok (f64_trunc m e) then f64_trunc m e else f64_out_of_range f
  | _ => f64_out_of_range f
  end.

(** ** [any]

    The dynamic types [encoding/json] stores in a [map[string]any], and the
    two integer types [getSizeArg] and [getRowsArg] also accept.  A map is
    its entries in one iteration order. *)
#[warnings="-register-all"]
Inductive any : Type :=
| ANil
| ABool (b : bool)
| AFloat64 (f : float64)
| AInt (z : Z)
| AInt64 (z : Z)
| AString (s : string)
| AArray (l : list any)
| AMap (m : list (string * any)).

(** A [map[string]any] that may be [nil]. *)
Abbreviation args := (option (list (string * any))).
Definition entries (a : args) : list (string * any) := default [] a.

(** [json.Unmarshal(raw, &args)] into a [map[string]any]: [None] is an
    error, [Some None] the [nil] map of the JSON [null]. *)
Class GoJSON := json_object : string -> option args.

(** ** Patterns

    [regexp.MatchString]: [None] is a pattern that does not compile.
    [filepath.Match]: [None] is [ErrBadPattern]. *)
Class GoPatterns := {
  regexp_MatchString : string -> string -> option bool;
  filepath_Match : string -> string -> option bool
}.
Definition matched (m : option bool) : bool := default false m.

(** [regexp.Compile] and [ReplaceAllString] of a pattern that compiles. *)
Class GoReplace := {
  regexp_compiles : string -> bool;
  regexp_ReplaceAllString : string -> string -> string -> string
}.

(** ** Time

    A [time.Time] is its instant in nanoseconds.  The layouts and the zone
    database are the [time] package's. *)
Class GoTime := {
  parse_RFC3339 : string -> option Z;
  parse_RFC3339Nano : string -> option Z;
  format_RFC3339Nano : Z -> string;
  Location : Type;
  time_Local : Location;
  LoadLocation : string -> option Location;
  (** [strings.ToLower(t.In(loc).Weekday().String())] *)
  lower_weekday : Location -> Z -> string;
  (** [time.ParseInLocation("15:04", s, loc)]: hour and minute *)
  parse_HHMM : Location -> string -> option (Z * Z);
  (** [time.Date(t.Year(), t.Month(), t.Day(), h, m, 0, 0, loc)], [t] in [loc] *)
  date_at : Location -> Z -> Z -> Z -> Z
}.

(** ** Digests and quoting *)
Class GoCrypto := { sha256_hex : string -> string }.
Class GoFmt := fmt_q : string -> string.

(** ** Instances for witnesses *)

(** Quotes without escapes: [%q] on printable ASCII with no quote. *)
Definition plain_quote : GoFmt := fun s => String DQUOTE (s +:+ String DQUOTE "").

(** Times written as a decimal count of nanoseconds. *)
Fixpoint parse_digits (acc : Z) (s : string) : option Z :=
  match s with
  | "" => Some acc
  | String c s' => if is_digit c then parse_digits (acc * 10 + (byteZ c - 48)) s' else None
  end.
Definition decimal_time : GoTime := {|
  parse_RFC3339 := parse_digits 0;
  parse_RFC3339Nano := parse_digits 0;
  format_RFC3339Nano := Itoa;
  Location := unit;
  time_Local := tt;
  LoadLocation := fun _ => Some tt;
  lower_weekday := fun _ _ => "monday";
  parse_HHMM := fun _ s => (fun h => (h, 0)) <$> parse_digits 0 s;
  date_at := fun _ _ h m => h * 60 + m
|}.

(** Patterns with no metacharacters. *)
Definition literal_patterns : GoPatterns := {|
  regexp_MatchString := fun p s => Some (p =s? s);
  filepath_Match := fun p s => Some (p =s? s)
|}.

(** Every byte string unmarshals to the given arguments. *)
Definition const_json (a : args) : GoJSON := fun _ => Some a.

(** ** Lemmas *)

Lemma wrap64_id z : - 2^63 <= z < 2^63 -> wrap64 z = z.
Proof. intros Hz. unfold wrap64. rewrite Z.mod_small; lia. Qed.

Lemma wrap64_range z : - 2^63 <= wrap64 z < 2^63.
Proof.
  unfold wrap64. pose proof (Z.mod_pos_bound (z + 2^63) (2^64) ltac:(lia)). lia.
Qed.

Lemma int_of_float64_in_range `{GoArch} m e :
  int64_ok (f64_trunc m e) = true -> int_of_float64 (Fin m e) = f64_trunc m e.
Proof. intros E. cbn. by rewrite E. Qed.
