(* ===== verification/Lineage.v ===== *)
(** Agent-identity lineage: [internal/lineage].  [types.go] is the data,
    [registry.go] the indexed registry ([NewRegistry], [walkToRoot],
    [detectAgentCycles]) and [validate.go] the R1-R3 check [ValidateAt].

    The authority a call claims is justified by a chain of grants from a
    human principal to the calling agent; [delegation] states that chain
    independently of the loop that checks it. *)
From stdpp Require Import base strings gmap list.
From Stdlib Require Import ZArith Lia.
From S2P Require Import Prelude GoStrings GoLib.
#[local] Open Scope Z_scope.

(** ** Data: types.go *)

Record AgentIdentity := {
  ai_InstanceID : string;
  ai_ParentAgentID : string;
  ai_HumanPrincipalID : string;
  ai_CreatedAt : string;
  ai_Expiry : string
}.

Record AuthorityGrant := {
  ag_GrantID : string;
  ag_Issuer : string;
  ag_SubjectAgentID : string;
  ag_ParentGrantID : string;
  ag_Capabilities : list string;
  ag_ResourceScope : list string;
  ag_IssuedAt : string;
  ag_Expiry : string
}.

Record Trajectory := {
  tr_TrajectoryID : string;
  tr_ActorAgentID : string;
  tr_GrantID : string;
  tr_Capability : string;
  tr_Server : string;
  tr_Tool : string;
  tr_ResourceScope : list string;
  tr_Effect : string;
  tr_PriorStateHash : string
}.

Record Envelope := {
  env_ActorAgentID : string;
  env_GrantID : string;
  env_Capability : string;
  env_Resource : string;
  env_Effect : string;
  env_PriorStateHash : string;
  env_TrajectoryID : string;
  env_Server : string;
  env_Tool : string
}.

Record Evidence := {
  ev_ActorAgentID : string;
  ev_ParentAgentID : string;
  ev_HumanPrincipalID : string;
  ev_GrantID : string;
  ev_GrantChain : list string;
  ev_Capability : string;
  ev_Resource : string;
  ev_Effect : string;
  ev_TrajectoryID : string;
  ev_PriorStateHash : string;
  ev_Rule : string
}.

Record Registry := {
  reg_agents : gmap string AgentIdentity;
  reg_grants : gmap string AuthorityGrant;
  reg_trajectories : gmap string Trajectory
}.

Record Decision := { ld_Allow : bool; ld_Reason : string }.

Definition ReasonUnregisteredPrincipal := "lineage:unregistered-principal".
Definition ReasonDelegationCeiling := "lineage:delegation-ceiling-violation".
Definition ReasonTrajectoryMismatch := "lineage:trajectory-mismatch".

Definition maxGrantDepth : nat := 32.

(** ** registry.go: lookups and helpers *)

Definition Agent (r : Registry) (id : string) : option AgentIdentity := reg_agents r !! id.
Definition Grant (r : Registry) (id : string) : option AuthorityGrant := reg_grants r !! id.
Definition Trajectory_of (r : Registry) (id : string) : option Trajectory :=
  reg_trajectories r !! id.

(** The loop of [walkToRoot]: [n] iterations left of [maxGrantDepth]. *)
Fixpoint walk (r : Registry) (grantID : string) (n : nat) (cur : string)
    (seen : list string) (leafToRoot : list AuthorityGrant) : result (list AuthorityGrant) :=
  let exceeded := Err ("lineage: grant " +:+ grantID +:+ ": parent_grant_id chain exceeded depth") in
  match n with
  | O => exceeded
  | S n' =>
      if cur =s? "" then exceeded
      else if str_in cur seen then
        Err ("lineage: grant " +:+ grantID +:+ ": cycle in parent_grant_id chain")
      else match Grant r cur with
      | None => Err ("lineage: grant " +:+ grantID +:+ ": missing ancestor " +:+ cur)
      | Some g =>
          let leafToRoot := leafToRoot ++ [g] in
          if ag_ParentGrantID g =s? "" then Ok (rev leafToRoot)
          else walk r grantID n' (ag_ParentGrantID g) (cur :: seen) leafToRoot
      end
  end.
Definition walkToRoot (r : Registry) (grantID : string) : result (list AuthorityGrant) :=
  walk r grantID maxGrantDepth grantID [] [].

Definition exactSubset (need have : list string) : bool :=
  match need with
  | [] => false
  | _ =>
      let set := filter (fun h => h <> "") have in
      forallb (fun n => (n <>s? "") && str_in n set) need
  end.

Definition containsExact (have : list string) (need : string) : bool :=
  if need =s? "" then false else str_in need have.

Definition coveredByChain (chain : list AuthorityGrant) (cap : string)
    (resources : list string) : bool :=
  if (cap =s? "") || (length resources =? 0)%nat then false
  else forallb (fun g => containsExact (ag_Capabilities g) cap &&
                 forallb (containsExact (ag_ResourceScope g)) resources) chain.

Section lineage.
Context `{GoTime, GoFmt}.

Definition parseTime (s : string) : result Z :=
  if TrimSpace s =s? "" then Err "empty time"
  else match parse_RFC3339 s with
  | Some t => Ok t
  | None => match parse_RFC3339Nano s with
            | Some t => Ok t
            | None => Err ("unparseable time " +:+ fmt_q s)
            end
  end.

Definition validInterval (start expiry : string) : error :=
  match parseTime start with
  | Err m => Some m
  | Ok s => match parseTime expiry with
            | Err m => Some m
            | Ok e => fail_if (negb (s <? e)) "start >= expiry"
            end
  end.

Definition inInterval (start expiry : string) (now : Z) : bool :=
  match parseTime start, parseTime expiry with
  | Ok s, Ok e => negb (now <? s) && (now <? e)
  | _, _ => false
  end.

(** ** validate.go *)

Definition stringField (m : list (string * any)) (key : string) : string :=
  match assoc key m with Some (AString s) => s | _ => "" end.

Definition EnvelopeFromArgs (actor server tool : string) (a : args) : Envelope :=
  let env m := {|
    env_ActorAgentID := actor; env_Server := server; env_Tool := tool;
    env_GrantID := stringField m "grant_id";
    env_Capability := stringField m "capability";
    env_Resource := stringField m "resource";
    env_Effect := stringField m "effect";
    env_PriorStateHash := stringField m "prior_state_hash";
    env_TrajectoryID := stringField m "trajectory_id" |} in
  match a with
  | None => env []
  | Some m => match assoc "_lineage" m with
              | Some (AMap l) => env l
              | _ => env []
              end
  end.

Definition ev_of_env (env : Envelope) : Evidence := {|
  ev_ActorAgentID := env_ActorAgentID env; ev_ParentAgentID := ""; ev_HumanPrincipalID := "";
  ev_GrantID := env_GrantID env; ev_GrantChain := []; ev_Capability := env_Capability env;
  ev_Resource := env_Resource env; ev_Effect := env_Effect env;
  ev_TrajectoryID := env_TrajectoryID env; ev_PriorStateHash := env_PriorStateHash env;
  ev_Rule := "" |}.

Definition with_rule (ev : Evidence) (rule : string) : Evidence := {|
  ev_ActorAgentID := ev_ActorAgentID ev; ev_ParentAgentID := ev_ParentAgentID ev;
  ev_HumanPrincipalID := ev_HumanPrincipalID ev; ev_GrantID := ev_GrantID ev;
  ev_GrantChain := ev_GrantChain ev; ev_Capability := ev_Capability ev;
  ev_Resource := ev_Resource ev; ev_Effect := ev_Effect ev;
  ev_TrajectoryID := ev_TrajectoryID ev; ev_PriorStateHash := ev_PriorStateHash ev;
  ev_Rule := rule |}.

Definition with_actor (ev : Evidence) (a : AgentIdentity) : Evidence := {|
  ev_ActorAgentID := ev_ActorAgentID ev; ev_ParentAgentID := ai_ParentAgentID a;
  ev_HumanPrincipalID := ai_HumanPrincipalID a; ev_GrantID := ev_GrantID ev;
  ev_GrantChain := ev_GrantChain ev; ev_Capability := ev_Capability ev;
  ev_Resource := ev_Resource ev; ev_Effect := ev_Effect ev;
  ev_TrajectoryID := ev_TrajectoryID ev; ev_PriorStateHash := ev_PriorStateHash ev;
  ev_Rule := ev_Rule ev |}.

Definition with_chain (ev : Evidence) (ids : list string) : Evidence := {|
  ev_ActorAgentID := ev_ActorAgentID ev; ev_ParentAgentID := ev_ParentAgentID ev;
  ev_HumanPrincipalID := ev_HumanPrincipalID ev; ev_GrantID := ev_GrantID ev;
  ev_GrantChain := ids; ev_Capability := ev_Capability ev;
  ev_Resource := ev_Resource ev; ev_Effect := ev_Effect ev;
  ev_TrajectoryID := ev_TrajectoryID ev; ev_PriorStateHash := ev_PriorStateHash ev;
  ev_Rule := ev_Rule ev |}.

Definition deny (ev : Evidence) (reason : string) : Decision * Evidence :=
  ({| ld_Allow := false; ld_Reason := reason |}, with_rule ev reason).
Definition ceiling (ev : Evidence) : Decision * Evidence := deny ev ReasonDelegationCeiling.
Definition mismatch (ev : Evidence) : Decision * Evidence := deny ev ReasonTrajectoryMismatch.

(** An agent that is registered, live and under [human]. *)
Definition live_agent (r : Registry) (now : Z) (human id : string) : option AgentIdentity :=
  match Agent r id with
  | Some a =>
      if inInterval (ai_CreatedAt a) (ai_Expiry a) now && (ai_HumanPrincipalID a =s? human)
      then Some a else None
  | None => None
  end.

(** One iteration of the chain loop of [ValidateAt] on [g]: [prev] is
    [chain[i-1]], [None] for [i == 0].  [false] is [return ceiling(ev)]. *)
Definition check_hop (r : Registry) (env : Envelope) (human : string) (now : Z)
    (prev : option AuthorityGrant) (g : AuthorityGrant) : bool :=
  inInterval (ag_IssuedAt g) (ag_Expiry g) now &&
  match live_agent r now human (ag_SubjectAgentID g) with
  | None => false
  | Some subject =>
      match prev with
      | None =>
          (ag_ParentGrantID g =s? "") && (ag_Issuer g =s? human) &&
          negb (bool_decide (is_Some (Agent r (ag_Issuer g)))) &&
          (ai_ParentAgentID subject =s? "")
      | Some parent =>
          (ag_Issuer g =s? ag_SubjectAgentID parent) &&
          exactSubset (ag_Capabilities g) (ag_Capabilities parent) &&
          exactSubset (ag_ResourceScope g) (ag_ResourceScope parent) &&
          bool_decide (is_Some (live_agent r now human (ag_Issuer g))) &&
          (ai_ParentAgentID subject =s? ag_Issuer g)
      end
  end &&
  containsExact (ag_Capabilities g) (env_Capability env) &&
  containsExact (ag_ResourceScope g) (env_Resource env).

Fixpoint check_chain (r : Registry) (env : Envelope) (human : string) (now : Z)
    (prev : option AuthorityGrant) (chain : list AuthorityGrant) : bool :=
  match chain with
  | [] => true
  | g :: rest => check_hop r env human now prev g && check_chain r env human now (Some g) rest
  end.

Definition trajectory_matches (tr : Trajectory) (env : Envelope) : bool :=
  (tr_ActorAgentID tr =s? env_ActorAgentID env) &&
  (tr_GrantID tr =s? env_GrantID env) &&
  (tr_Capability tr =s? env_Capability env) &&
  (tr_Server tr =s? env_Server env) &&
  (tr_Tool tr =s? env_Tool env) &&
  (tr_Effect tr =s? env_Effect env) &&
  (tr_PriorStateHash tr =s? env_PriorStateHash env) &&
  containsExact (tr_ResourceScope tr) (env_Resource env).

(** R3, with the grant chain already in the evidence. *)
Definition validate_trajectory (env : Envelope) (r : Registry) (ev : Evidence) :
    Decision * Evidence :=
  if env_TrajectoryID env =s? "" then mismatch ev
  else match Trajectory_of r (env_TrajectoryID env) with
  | None => mismatch ev
  | Some tr =>
      if trajectory_matches tr env
      then ({| ld_Allow := true; ld_Reason := "" |}, with_rule ev "lineage_require")
      else mismatch ev
  end.

(** R1, R2, R3 in order; the first failure denies. *)
Definition ValidateAt (env : Envelope) (reg : option Registry) (now : Z) : Decision * Evidence :=
  let ev := ev_of_env env in
  match reg with
  | None => deny ev ReasonUnregisteredPrincipal
  | Some r =>
    match Agent r (env_ActorAgentID env) with
    | None => deny ev ReasonUnregisteredPrincipal
    | Some actor =>
      if negb (inInterval (ai_CreatedAt actor) (ai_Expiry actor) now)
      then deny ev ReasonUnregisteredPrincipal
      else
        let ev := with_actor ev actor in
        match Grant r (env_GrantID env) with
        | None => ceiling ev
        | Some grant =>
          if negb (inInterval (ag_IssuedAt grant) (ag_Expiry grant) now) ||
             (ag_SubjectAgentID grant <>s? env_ActorAgentID env)
          then ceiling ev
          else match walkToRoot r (env_GrantID env) with
          | Err _ => ceiling ev
          | Ok chain =>
            if (length chain =? 0)%nat then ceiling ev
            else if check_chain r env (ai_HumanPrincipalID actor) now None chain
            then validate_trajectory env r (with_chain ev (ag_GrantID <$> chain))
            else ceiling ev
          end
        end
    end
  end.
End lineage.
