(* ===== verification/LineageSpec.v ===== *)
(** What a lineage decision means, stated without the loops of
    [validate.go]: a call is authorized when a chain of registered grants
    leads from its human principal to the calling agent, each grant within
    the one above it.  [ValidateAt] is proved to decide exactly this. *)
From stdpp Require Import base strings gmap list.
From Stdlib Require Import ZArith Lia.
From S2P Require Import Prelude GoStrings GoLib Lineage.
#[local] Open Scope Z_scope.

(** ** Membership helpers *)

Lemma containsExact_iff have need :
  containsExact have need = true <-> need <> "" /\ In need have.
Proof.
  unfold containsExact. destruct (need =s? "") eqn:E; bools.
  - naive_solver.
  - rewrite str_in_In. naive_solver.
Qed.

Lemma exactSubset_iff need have :
  exactSubset need have = true <->
  need <> [] /\ forall c, In c need -> c <> "" /\ In c have.
Proof.
  unfold exactSubset. destruct need as [|n need]; [naive_solver|].
  rewrite forallb_forall. split.
  - intros Hall. split; [done|]. intros c Hc. specialize (Hall c Hc). bools.
    rewrite str_in_In, <-list_elem_of_In, list_elem_of_filter in *.
    rewrite list_elem_of_In in *. naive_solver.
  - intros [_ Hall] c Hc. destruct (Hall c Hc) as [Hne Hin].
    rewrite andb_true_iff, str_neqb_true, str_in_In, <-list_elem_of_In, list_elem_of_filter.
    rewrite list_elem_of_In. done.
Qed.

(** ** The specification *)

Section spec.
Context `{GoTime, GoFmt}.
Variable r : Registry.
Variable env : Envelope.
Variable human : string.
Variable now : Z.

(** What every grant of the chain must satisfy: it is live, its subject is
    a live agent of the same human, and it carries the claimed capability
    and resource. *)
Record hop_ok (g : AuthorityGrant) (subject : AgentIdentity) : Prop := {
  hop_live : inInterval (ag_IssuedAt g) (ag_Expiry g) now = true;
  hop_subject : Agent r (ag_SubjectAgentID g) = Some subject;
  hop_subject_live : inInterval (ai_CreatedAt subject) (ai_Expiry subject) now = true;
  hop_subject_human : ai_HumanPrincipalID subject = human;
  hop_capability : env_Capability env <> "" /\ In (env_Capability env) (ag_Capabilities g);
  hop_resource : env_Resource env <> "" /\ In (env_Resource env) (ag_ResourceScope g)
}.

(** [delegation g chain]: [chain] runs from a grant issued by the human
    down to [g]. *)
Inductive delegation : AuthorityGrant -> list AuthorityGrant -> Prop :=
| delegation_root g subject :
    hop_ok g subject ->
    ag_ParentGrantID g = "" -> ag_Issuer g = human ->
    Agent r (ag_Issuer g) = None -> ai_ParentAgentID subject = "" ->
    delegation g [g]
| delegation_step parent chain g subject issuer :
    delegation parent chain ->
    hop_ok g subject ->
    ag_ParentGrantID g <> "" -> Grant r (ag_ParentGrantID g) = Some parent ->
    ag_Issuer g = ag_SubjectAgentID parent ->
    exactSubset (ag_Capabilities g) (ag_Capabilities parent) = true ->
    exactSubset (ag_ResourceScope g) (ag_ResourceScope parent) = true ->
    live_agent r now human (ag_Issuer g) = Some issuer ->
    ai_ParentAgentID subject = ag_Issuer g ->
    delegation g (chain ++ [g]).
End spec.

(** A registry indexed by the identifiers of its entries. *)
Definition grants_indexed (r : Registry) : Prop :=
  forall id g, Grant r id = Some g -> ag_GrantID g = id /\ id <> "".

(** What an allow means. *)
Definition authorized `{GoTime, GoFmt} (r : Registry) (env : Envelope) (now : Z)
    (actor : AgentIdentity) (chain : list AuthorityGrant) : Prop :=
  Agent r (env_ActorAgentID env) = Some actor /\
  inInterval (ai_CreatedAt actor) (ai_Expiry actor) now = true /\
  (exists grant, Grant r (env_GrantID env) = Some grant /\
     ag_SubjectAgentID grant = env_ActorAgentID env /\
     delegation r env (ai_HumanPrincipalID actor) now grant chain) /\
  (length chain <= maxGrantDepth)%nat /\
  (exists tr, env_TrajectoryID env <> "" /\
     Trajectory_of r (env_TrajectoryID env) = Some tr /\ trajectory_matches tr env = true).

(** ** The walk to the root *)

(** [path r cur l]: following [ParentGrantID] from [cur] visits the grants
    [l], leaf first, and ends at a root grant. *)
Inductive path (r : Registry) : string -> list AuthorityGrant -> Prop :=
| path_root cur g : cur <> "" -> Grant r cur = Some g -> ag_ParentGrantID g = "" ->
    path r cur [g]
| path_up cur g l : cur <> "" -> Grant r cur = Some g -> ag_ParentGrantID g <> "" ->
    path r (ag_ParentGrantID g) l -> path r cur (g :: l).

Lemma path_det r cur l l' : path r cur l -> path r cur l' -> l = l'.
Proof.
  intros Hp. revert l'. induction Hp as [cur g ? Hg Hroot|cur g l ? Hg Hne _ IH];
    intros l' Hp'; inversion Hp' as [? g' ? Hg'|? g' ? ? Hg' ? Hup]; simplify_eq; try done.
  f_equal. by apply IH.
Qed.

(** The identifiers a path goes through: one path per identifier, of
    strictly decreasing length, so none repeats. *)
Inductive visits (r : Registry) : string -> string -> list AuthorityGrant -> Prop :=
| visits_here cur l : path r cur l -> visits r cur cur l
| visits_up cur g id l : Grant r cur = Some g -> ag_ParentGrantID g <> "" -> cur <> "" ->
    visits r (ag_ParentGrantID g) id l -> visits r cur id l.

Lemma visits_path r cur id l : visits r cur id l -> path r id l.
Proof. by induction 1. Qed.

Lemma path_visits_shorter r cur g l id l' :
  path r cur (g :: l) -> ag_ParentGrantID g <> "" -> visits r (ag_ParentGrantID g) id l' ->
  (length l' <= length l)%nat.
Proof.
  intros Hp Hne Hv. inversion Hp as [|? ? ? ? Hg _ Hup]; simplify_eq.
  clear Hp Hg Hne. revert Hup. remember (ag_ParentGrantID g) as c eqn:Ec. clear Ec.
  revert l. induction Hv as [c l' Hl'|c g' id l' Hg' Hne' Hc Hv IH]; intros l Hup.
  - by rewrite (path_det r c l l').
  - inversion Hup as [? ? ? ? Hz|? ? l0 ? ? ? Hup']; simplify_eq.
    cbn. specialize (IH _ Hup'). lia.
Qed.

Lemma path_fresh r cur g l id l' :
  path r cur (g :: l) -> ag_ParentGrantID g <> "" -> visits r (ag_ParentGrantID g) id l' ->
  cur <> id.
Proof.
  intros Hp Hne Hv ->. pose proof (path_visits_shorter _ _ _ _ _ _ Hp Hne Hv) as Hlen.
  apply visits_path in Hv. rewrite (path_det _ _ _ _ Hv Hp) in Hlen. cbn in Hlen. lia.
Qed.

Lemma walk_complete r gid n cur seen acc l :
  path r cur l -> (length l <= n)%nat ->
  (forall id l', visits r cur id l' -> ~ In id seen) ->
  walk r gid n cur seen acc = Ok (rev (acc ++ l)).
Proof.
  intros Hp. revert n seen acc. induction Hp as [cur g Hc Hg Hroot|cur g l Hc Hg Hne Hp IH];
    intros [|n] seen acc Hn Hfresh; cbn in Hn |- *; try lia.
  all: rewrite (proj2 (str_eqb_false cur "") Hc), Hg.
  all: rewrite (proj2 (str_in_false cur seen))
    by (eapply Hfresh, visits_here; eauto using path).
  - by rewrite Hroot, str_eqb_refl.
  - rewrite (proj2 (str_eqb_false _ "") Hne).
    rewrite (IH n), <-app_assoc; [done|lia|].
    intros id l' Hv [<-|Hin].
    + by eapply path_fresh; [apply path_up; [exact Hc|exact Hg|exact Hne|exact Hp]|exact Hne|exact Hv|].
    + eapply Hfresh; [|done]. by eapply visits_up.
Qed.

Lemma walk_sound r gid n cur seen acc chain :
  walk r gid n cur seen acc = Ok chain ->
  exists l, path r cur l /\ (length l <= n)%nat /\ chain = rev (acc ++ l).
Proof.
  revert cur seen acc. induction n as [|n IH]; intros cur seen acc; cbn; [done|].
  destruct (cur =s? "") eqn:E; [done|]. destruct (str_in cur seen); [done|]. bools.
  destruct (Grant r cur) as [g|] eqn:Hg; [|done].
  destruct (ag_ParentGrantID g =s? "") eqn:Hroot; bools.
  - intros [= <-]. exists [g]. cbn. split_and!; [by apply path_root|lia|done].
  - intros (l & Hl & Hn & ->)%IH. exists (g :: l).
    rewrite <-app_assoc. cbn. split_and!; [by apply path_up|lia|done].
Qed.

Lemma walkToRoot_iff r id chain :
  walkToRoot r id = Ok chain <->
  exists l, path r id l /\ (length l <= maxGrantDepth)%nat /\ chain = rev l.
Proof.
  unfold walkToRoot. split.
  - intros (l & ? & ? & ->)%walk_sound. eauto.
  - intros (l & Hp & Hn & ->). apply (walk_complete r id maxGrantDepth id [] []); [done..|]. by intros ? ? _ [].
Qed.

(** ** The chain loop *)

Section chain.
Context `{GoTime, GoFmt}.
Variable r : Registry.
Variable env : Envelope.
Variable human : string.
Variable now : Z.

Lemma live_agent_Some id a :
  live_agent r now human id = Some a <->
  Agent r id = Some a /\ inInterval (ai_CreatedAt a) (ai_Expiry a) now = true /\
  ai_HumanPrincipalID a = human.
Proof.
  unfold live_agent. destruct (Agent r id) as [a'|]; [|by split; [|intros (? & ?)]].
  destruct (inInterval (ai_CreatedAt a') _ _ && _) eqn:E; split.
  - intros [= ->]. bools. done.
  - intros ([= ->] & _ & _). done.
  - done.
  - intros ([= ->] & Hi & Hh). rewrite Hi, Hh, str_eqb_refl in E. done.
Qed.

(** The conditions of an iteration that do not depend on the previous grant. *)
Lemma check_hop_common prev g :
  check_hop r env human now prev g = true ->
  exists subject, live_agent r now human (ag_SubjectAgentID g) = Some subject /\
    hop_ok r env human now g subject.
Proof.
  unfold check_hop. intros Hc. bools.
  destruct (live_agent r now human (ag_SubjectAgentID g)) as [a|] eqn:Ha; [|done].
  exists a. split; [done|]. apply live_agent_Some in Ha as (? & ? & ?).
  by split; try apply containsExact_iff.
Qed.

Lemma check_hop_root g :
  check_hop r env human now None g = true <->
  exists subject, hop_ok r env human now g subject /\
    ag_ParentGrantID g = "" /\ ag_Issuer g = human /\ Agent r (ag_Issuer g) = None /\
    ai_ParentAgentID subject = "".
Proof.
  split.
  - intros Hc. destruct (check_hop_common _ _ Hc) as (a & Ha & Hok). exists a.
    unfold check_hop in Hc. rewrite Ha in Hc. bools.
    match goal with H : bool_decide _ = false |- _ => apply bool_decide_eq_false in H end.
    split_and!; try done. by apply eq_None_not_Some.
  - intros (a & [? Hs ? ? ? ?] & Hp & Hi & Hn & Ha). unfold check_hop.
    rewrite (proj2 (live_agent_Some (ag_SubjectAgentID g) a)) by done.
    rewrite !(proj2 (containsExact_iff _ _)), Hn by done.
    rewrite Hp, Hi, Ha, !str_eqb_refl, bool_decide_eq_false_2 by (by intros []).
    repeat (apply andb_true_iff; split); done.
Qed.

Lemma check_hop_step parent g :
  check_hop r env human now (Some parent) g = true <->
  exists subject issuer, hop_ok r env human now g subject /\
    ag_Issuer g = ag_SubjectAgentID parent /\
    exactSubset (ag_Capabilities g) (ag_Capabilities parent) = true /\
    exactSubset (ag_ResourceScope g) (ag_ResourceScope parent) = true /\
    live_agent r now human (ag_Issuer g) = Some issuer /\
    ai_ParentAgentID subject = ag_Issuer g.
Proof.
  split.
  - intros Hc. destruct (check_hop_common _ _ Hc) as (a & Ha & Hok).
    unfold check_hop in Hc. rewrite Ha in Hc. bools.
    match goal with H : bool_decide _ = true |- _ => apply bool_decide_eq_true in H as [i Hi] end.
    by exists a, i.
  - intros (a & i & [? Hs ? ? ? ?] & Hiss & ? & ? & Hi & Ha). unfold check_hop.
    rewrite (proj2 (live_agent_Some (ag_SubjectAgentID g) a)) by done.
    rewrite !(proj2 (containsExact_iff _ _)), Hi by done.
    rewrite bool_decide_eq_true_2 by eauto. rewrite Ha, Hiss, !str_eqb_refl.
    repeat (apply andb_true_iff; split); done.
Qed.

Lemma check_chain_snoc prev l g :
  check_chain r env human now prev (l ++ [g]) =
  check_chain r env human now prev l &&
  check_hop r env human now (match last l with Some p => Some p | None => prev end) g.
Proof.
  revert prev. induction l as [|x l IH]; intros prev; cbn [check_chain app].
  - by rewrite andb_true_r.
  - rewrite IH, andb_assoc, last_cons. by destruct (last l).
Qed.

Lemma delegation_last g chain : delegation r env human now g chain -> last chain = Some g.
Proof. destruct 1; [done|]. by rewrite last_snoc. Qed.
End chain.

(** ** Walk plus loop = delegation *)

Section refine.
Context `{GoTime, GoFmt}.
Variable r : Registry.
Variable env : Envelope.
Variable human : string.
Variable now : Z.
Hypothesis Hidx : grants_indexed r.

Lemma path_head id l : path r id l -> exists g l', l = g :: l' /\ Grant r id = Some g.
Proof. destruct 1; eauto. Qed.

Lemma path_delegation id l g l' :
  path r id l -> l = g :: l' ->
  check_chain r env human now None (rev l) = true -> delegation r env human now g (rev l).
Proof.
  intros Hp. revert g l'. induction Hp as [id g0 Hid Hg Hroot|id g0 l Hid Hg Hne Hp IH];
    intros g l' [= <- <-]; cbn [rev app].
  - cbn [check_chain]. rewrite andb_true_r. intros (a & Hok & Hpar & Hiss & Hag & Hap)%check_hop_root.
    by apply delegation_root with a.
  - destruct (path_head _ _ Hp) as (p & l0 & El & Hgp). intros Hc.
    rewrite check_chain_snoc in Hc. apply andb_true_iff in Hc as [Hc Hh].
    specialize (IH p l0 El Hc).
    rewrite (delegation_last _ _ _ _ _ _ IH) in Hh.
    apply check_hop_step in Hh as (a & i & Hok & ? & ? & ? & ? & ?).
    by apply delegation_step with p a i.
Qed.

Lemma delegation_path g chain :
  delegation r env human now g chain -> Grant r (ag_GrantID g) = Some g ->
  path r (ag_GrantID g) (rev chain) /\ check_chain r env human now None chain = true.
Proof.
  induction 1 as [g a Hok Hp Hi Hag Hap|p chain g a i Hd IH Hok Hne Hg Hiss Hc Hs Hi Hap];
    intros Hgg; destruct (Hidx _ _ Hgg) as [_ Hid].
  - split; [by apply path_root|]. cbn [check_chain]. rewrite andb_true_r.
    apply check_hop_root. by exists a.
  - destruct (Hidx _ _ Hg) as [Hpid _]. rewrite Hpid in IH. destruct (IH Hg) as [Hpath Hcc].
    rewrite rev_app_distr. split; [by apply path_up|].
    rewrite check_chain_snoc, Hcc, (delegation_last _ _ _ _ _ _ Hd).
    apply check_hop_step. by exists a, i.
Qed.

(** The walk to the root followed by the chain loop accepts exactly the
    delegation chains no longer than the depth bound. *)
Lemma walk_check_iff id chain grant :
  Grant r id = Some grant ->
  (walkToRoot r id = Ok chain /\ check_chain r env human now None chain = true) <->
  (delegation r env human now grant chain /\ (length chain <= maxGrantDepth)%nat).
Proof.
  intros Hg. destruct (Hidx _ _ Hg) as [Hid _]. split.
  - intros [(l & Hp & Hn & ->)%walkToRoot_iff Hc]. rewrite length_rev. split; [|done].
    destruct (path_head _ _ Hp) as (g & l' & El & Hg'). simplify_eq.
    by apply (path_delegation (ag_GrantID grant) _ _ l').
  - intros [Hd Hn]. rewrite <-Hid in Hg |- *. destruct (delegation_path _ _ Hd Hg) as [Hp Hc].
    split; [|done]. apply walkToRoot_iff. exists (rev chain).
    rewrite rev_involutive, length_rev. done.
Qed.

Lemma delegation_nonempty g chain : delegation r env human now g chain -> chain <> [].
Proof. destruct 1; [done|]. by destruct chain. Qed.

(** Along a chain the authority only shrinks: what a grant carries is
    carried by every grant above it. *)
Lemma delegation_attenuates g chain h :
  delegation r env human now g chain -> In h chain ->
  (forall c, In c (ag_Capabilities g) -> In c (ag_Capabilities h)) /\
  (forall s, In s (ag_ResourceScope g) -> In s (ag_ResourceScope h)).
Proof.
  induction 1 as [g|p chain g a i Hd IH _ _ _ _ Hc Hs _ _]; cbn.
  - intros [<-|[]]. done.
  - intros [Hin|[<-|[]]]%in_app_or; [|done].
    apply exactSubset_iff in Hc as [_ Hc], Hs as [_ Hs]. destruct (IH Hin) as [IHc IHs].
    split; intros x Hx; [by apply IHc, Hc|by apply IHs, Hs].
Qed.
End refine.

(** ** [ValidateAt] *)

Section validate.
Context `{GoTime, GoFmt}.
Variable r : Registry.
Hypothesis Hidx : grants_indexed r.

(** R3 alone. *)
Lemma validate_trajectory_allow env ev :
  (validate_trajectory env r ev).1.(ld_Allow) = true <->
  exists tr, env_TrajectoryID env <> "" /\
    Trajectory_of r (env_TrajectoryID env) = Some tr /\ trajectory_matches tr env = true.
Proof.
  unfold validate_trajectory. destruct (env_TrajectoryID env =s? "") eqn:E; bools.
  { rewrite E. split; [done|]. by intros (? & ? & _). }
  destruct (Trajectory_of r _) as [tr|] eqn:Ht; [|split; [done|]; by intros (? & _ & ? & _)].
  destruct (trajectory_matches tr env) eqn:Em; split; try done.
  - intros _. by exists tr.
  - intros (tr' & _ & [= <-] & Hm). congruence.
Qed.

Lemma validate_trajectory_chain env ev :
  ev_GrantChain (validate_trajectory env r ev).2 = ev_GrantChain ev.
Proof. unfold validate_trajectory. by repeat case_match. Qed.

Lemma delegation_subject env human now g chain :
  delegation r env human now g chain ->
  inInterval (ag_IssuedAt g) (ag_Expiry g) now = true.
Proof. by destruct 1 as [? ? []|? ? ? ? ? ? []]. Qed.

(** The decision of [ValidateAt] on a registered live actor. *)
Lemma ValidateAt_actor env now actor :
  Agent r (env_ActorAgentID env) = Some actor ->
  inInterval (ai_CreatedAt actor) (ai_Expiry actor) now = true ->
  forall chain,
  ((exists grant, Grant r (env_GrantID env) = Some grant /\
      ag_SubjectAgentID grant = env_ActorAgentID env /\
      delegation r env (ai_HumanPrincipalID actor) now grant chain) /\
   (length chain <= maxGrantDepth)%nat) ->
  ValidateAt env (Some r) now =
    validate_trajectory env r (with_chain (with_actor (ev_of_env env) actor) (ag_GrantID <$> chain)).
Proof.
  intros Ha Hi chain [(grant & Hg & Hs & Hd) Hn].
  destruct (proj2 (walk_check_iff r env _ now Hidx _ chain grant Hg) (conj Hd Hn)) as [Hw Hc].
  unfold ValidateAt. rewrite Ha, Hi, Hg, (delegation_subject _ _ _ _ _ Hd), Hs, str_eqb_refl.
  cbn [negb orb]. rewrite Hw, Hc. by destruct chain; [apply delegation_nonempty in Hd|].
Qed.
End validate.

Lemma ValidateAt_chain `{GoTime, GoFmt} (r : Registry) (env : Envelope) (now : Z) :
  grants_indexed r ->
  (ValidateAt env (Some r) now).1.(ld_Allow) = true <->
  exists actor chain, authorized r env now actor chain.
Proof.
  intros Hidx. split.
  - intros Hv. unfold ValidateAt in Hv.
    destruct (Agent r (env_ActorAgentID env)) as [actor|] eqn:Ha; [|done].
    destruct (inInterval (ai_CreatedAt actor) _ now) eqn:Hi; [|done].
    destruct (Grant r (env_GrantID env)) as [grant|] eqn:Hg; [|done].
    cbn [negb] in Hv. destruct (_ || _) eqn:Ho in Hv; [done|]. bools.
    destruct (walkToRoot r (env_GrantID env)) as [chain|] eqn:Hw; [|done].
    destruct (length chain =? 0)%nat; [done|].
    destruct (check_chain _ _ _ _ _ chain) eqn:Hc; [|done].
    destruct (proj1 (walk_check_iff r env (ai_HumanPrincipalID actor) now Hidx _ chain _ Hg)) as [Hd Hn];
      [done|].
    apply validate_trajectory_allow in Hv. exists actor, chain.
    split_and!; eauto.
  - intros (actor & chain & Ha & Hi & Hg & Hn & Ht).
    rewrite (ValidateAt_actor r Hidx env now actor Ha Hi chain) by done.
    by apply validate_trajectory_allow.
Qed.

(** C18.  [ValidateAt] allows a call exactly when the claim is authorized: the
    actor is a registered live agent; a chain of at most [maxGrantDepth]
    registered grants, all live at [now], leads from the actor's human
    principal to the actor, each grant issued by the subject of the one
    above it and within its capabilities and scope, every one of them
    carrying the claimed capability and resource; and the pinned trajectory
    matches the claim. *)
Theorem ValidateAt_allow_iff `{GoTime, GoFmt} (r : Registry) (env : Envelope) (now : Z) :
  grants_indexed r ->
  (ValidateAt env (Some r) now).1.(ld_Allow) = true <->
  exists actor chain, authorized r env now actor chain.
Proof. apply ValidateAt_chain. Qed.

(** No escalation: whatever chain of delegations an allowed call
    rests on, it starts at a registered grant that a human principal - not a
    registered agent - issued, that human is the actor's, and that root
    grant itself carries the claimed capability and resource.  The evidence
    names exactly the grants of the chain. *)
Theorem ValidateAt_no_escalation `{GoTime, GoFmt} (r : Registry) (env : Envelope) (now : Z)
    (d : Decision) (ev : Evidence) :
  grants_indexed r -> ValidateAt env (Some r) now = (d, ev) -> ld_Allow d = true ->
  exists actor root chain,
    Agent r (env_ActorAgentID env) = Some actor /\
    ev_GrantChain ev = ag_GrantID <$> root :: chain /\
    ag_ParentGrantID root = "" /\
    ag_Issuer root = ai_HumanPrincipalID actor /\ Agent r (ag_Issuer root) = None /\
    In (env_Capability env) (ag_Capabilities root) /\
    In (env_Resource env) (ag_ResourceScope root).
Proof.
  intros Hidx Hv Hal.
  assert (exists actor chain, authorized r env now actor chain) as (actor & l & Ha & Hi & Hg & Hn & _).
  { apply ValidateAt_chain; [done|]. by rewrite Hv. }
  pose proof (ValidateAt_actor r Hidx env now actor Ha Hi l (conj Hg Hn)) as Hev.
  apply (f_equal (fun x => ev_GrantChain x.2)) in Hev.
  rewrite validate_trajectory_chain, Hv in Hev. cbn in Hev.
  destruct Hg as (grant & _ & _ & Hd). exists actor. rewrite Hev. clear Hev Hv.
  assert (exists root chain, l = root :: chain /\ ag_ParentGrantID root = "" /\
    ag_Issuer root = ai_HumanPrincipalID actor /\ Agent r (ag_Issuer root) = None /\
    In (env_Capability env) (ag_Capabilities root) /\
    In (env_Resource env) (ag_ResourceScope root)) as (root & chain & -> & ?);
    [|exists root, chain; naive_solver].
  clear Hn. induction Hd as [g a Hok ? ? ? ?|p chain g a i Hd IH _ _ _ _ _ _ _ _].
  - destruct Hok as [_ _ _ _ [_ ?] [_ ?]]. by exists g, [].
  - destruct IH as (root & rest & -> & ?). by exists root, (rest ++ [g]).
Qed.

(** ** A concrete registry *)

Module Witness.
#[local] Existing Instance decimal_time.
#[local] Existing Instance plain_quote.

Definition boss : AgentIdentity := {| ai_InstanceID := "planner"; ai_ParentAgentID := "";
  ai_HumanPrincipalID := "alice"; ai_CreatedAt := "10"; ai_Expiry := "90" |}.
Definition child : AgentIdentity := {| ai_InstanceID := "worker"; ai_ParentAgentID := "planner";
  ai_HumanPrincipalID := "alice"; ai_CreatedAt := "10"; ai_Expiry := "90" |}.
Definition g_root : AuthorityGrant := {| ag_GrantID := "g1"; ag_Issuer := "alice";
  ag_SubjectAgentID := "planner"; ag_ParentGrantID := ""; ag_Capabilities := ["read"; "send"];
  ag_ResourceScope := ["docs"]; ag_IssuedAt := "10"; ag_Expiry := "80" |}.
Definition g_leaf : AuthorityGrant := {| ag_GrantID := "g2"; ag_Issuer := "planner";
  ag_SubjectAgentID := "worker"; ag_ParentGrantID := "g1"; ag_Capabilities := ["read"];
  ag_ResourceScope := ["docs"]; ag_IssuedAt := "10"; ag_Expiry := "70" |}.
Definition traj : Trajectory := {| tr_TrajectoryID := "t1"; tr_ActorAgentID := "worker";
  tr_GrantID := "g2"; tr_Capability := "read"; tr_Server := "fs"; tr_Tool := "file_read";
  tr_ResourceScope := ["docs"]; tr_Effect := "READ"; tr_PriorStateHash := "h0" |}.
Definition reg : Registry := {|
  reg_agents := {["planner" := boss; "worker" := child]};
  reg_grants := {["g1" := g_root; "g2" := g_leaf]};
  reg_trajectories := {["t1" := traj]} |}.
Definition claim (cap : string) : Envelope := {| env_ActorAgentID := "worker"; env_GrantID := "g2";
  env_Capability := cap; env_Resource := "docs"; env_Effect := "READ";
  env_PriorStateHash := "h0"; env_TrajectoryID := "t1"; env_Server := "fs";
  env_Tool := "file_read" |}.

Lemma reg_indexed : grants_indexed reg.
Proof.
  intros id g. unfold Grant, reg, reg_grants. rewrite lookup_insert.
  case_decide as E1; [intros [= <-]; by subst|].
  intros [<- <-]%lookup_singleton_Some. done.
Qed.
End Witness.

Lemma ValidateAt_allow_iff_witness :
  (ValidateAt (H := decimal_time) (H0 := plain_quote) (Witness.claim "read") (Some Witness.reg) 20).1.(ld_Allow) = true /\
  exists actor chain,
    @authorized decimal_time plain_quote Witness.reg (Witness.claim "read") 20 actor chain.
Proof.
  split; [vm_compute; reflexivity|].
  apply (@ValidateAt_allow_iff decimal_time plain_quote Witness.reg (Witness.claim "read") 20
    Witness.reg_indexed).
  vm_compute. reflexivity.
Defined.

(** The delegated agent cannot claim what the root grant has but its own
    grant does not. *)
Example ValidateAt_denies_above_ceiling :
  ValidateAt (H := decimal_time) (H0 := plain_quote) (Witness.claim "send") (Some Witness.reg) 20 =
  ceiling (with_actor (ev_of_env (Witness.claim "send")) Witness.child).
Proof. vm_compute. reflexivity. Qed.

Lemma ValidateAt_no_escalation_witness :
  exists actor root chain,
    Agent Witness.reg "worker" = Some actor /\
    ["g1"; "g2"] = ag_GrantID <$> root :: chain /\
    ag_ParentGrantID root = "" /\
    ag_Issuer root = ai_HumanPrincipalID actor /\ Agent Witness.reg (ag_Issuer root) = None /\
    In "read" (ag_Capabilities root) /\ In "docs" (ag_ResourceScope root).
Proof.
  set (out := @ValidateAt decimal_time plain_quote (Witness.claim "read") (Some Witness.reg) 20).
  apply (@ValidateAt_no_escalation decimal_time plain_quote Witness.reg (Witness.claim "read") 20
    out.1 (with_rule (with_chain (with_actor (ev_of_env (Witness.claim "read")) Witness.child)
                        ["g1"; "g2"]) "lineage_require") Witness.reg_indexed);
    vm_compute; reflexivity.
Defined.
