(* ===== verification/LineageRegistry.v ===== *)
(** [NewRegistry] and [detectAgentCycles] of [internal/lineage/registry.go]:
    the checks that make a lineage registry well formed, and the proof that
    a registry that loads is one on which [ValidateAt] can rely.

    Go ranges over its maps in an unspecified order; [range] is one order.
    Only which of several violations is reported can depend on it. *)
From stdpp Require Import base strings gmap list.
From Stdlib Require Import ZArith Lia.
From S2P Require Import Prelude GoStrings GoLib Lineage LineageSpec.
#[local] Open Scope Z_scope.

Definition range {V} (m : gmap string V) : list (string * V) := map_to_list m.

Definition zeroAgent : AgentIdentity := {| ai_InstanceID := ""; ai_ParentAgentID := "";
  ai_HumanPrincipalID := ""; ai_CreatedAt := ""; ai_Expiry := "" |}.

(** ** detectAgentCycles *)

Inductive color := white | gray | black.
#[export] Instance color_eq_dec : EqDecision color.
Proof. solve_decision. Defined.

Abbreviation colors := (gmap string color).
Definition color_of (c : colors) (id : string) : color := default white (c !! id).

Section cycles.
Variable agents : gmap string AgentIdentity.

Definition parent_of (id : string) : string :=
  ai_ParentAgentID (default zeroAgent (agents !! id)).

(** The closure [visit].  [None] is out of fuel, which [visit_total] excludes. *)
Fixpoint visit (fuel : nat) (id : string) (c : colors) : option (result colors) :=
  match fuel with
  | O => None
  | S fuel =>
    match color_of c id with
    | gray => Some (Err ("lineage: agent " +:+ id +:+ ": cycle in parent_agent_id graph"))
    | black => Some (Ok c)
    | white =>
        let c := <[id := gray]> c in
        if parent_of id <>s? "" then
          match visit fuel (parent_of id) c with
          | Some (Ok c') => Some (Ok (<[id := black]> c'))
          | r => r
          end
        else Some (Ok (<[id := black]> c))
    end
  end.

Definition visit_fuel : nat := S (S (size agents)).

Fixpoint visit_all (ids : list string) (c : colors) : option (result colors) :=
  match ids with
  | [] => Some (Ok c)
  | id :: ids =>
      match visit visit_fuel id c with
      | Some (Ok c') => visit_all ids c'
      | r => r
      end
  end.

Definition detectAgentCycles : option error :=
  match visit_all (range agents).*1 ∅ with
  | Some (Ok _) => Some None
  | Some (Err e) => Some (Some e)
  | None => None
  end.
End cycles.

(** ** NewRegistry *)

Section registry.
Context `{GoTime, GoFmt}.

Definition agent_entry (i : nat) (a : AgentIdentity) (agents : gmap string AgentIdentity) : error :=
  fail_if (TrimSpace (ai_InstanceID a) =s? "")
    ("lineage: agent at index " +:+ Itoa (Z.of_nat i) +:+ ": instance_id is required") ;;?
  fail_if (bool_decide (is_Some (agents !! ai_InstanceID a)))
    ("lineage: duplicate agent instance_id " +:+ ai_InstanceID a) ;;?
  fail_if (TrimSpace (ai_HumanPrincipalID a) =s? "")
    ("lineage: agent " +:+ ai_InstanceID a +:+ ": human_principal_id is required") ;;?
  option_map (fun e => "lineage: agent " +:+ ai_InstanceID a +:+ ": " +:+ e)
    (validInterval (ai_CreatedAt a) (ai_Expiry a)) ;;?
  fail_if (ai_ParentAgentID a =s? ai_InstanceID a)
    ("lineage: agent " +:+ ai_InstanceID a +:+ ": self-parenting agent").

Fixpoint index_agents (i : nat) (l : list AgentIdentity) (agents : gmap string AgentIdentity)
    (humans : gset string) : result (gmap string AgentIdentity * gset string) :=
  match l with
  | [] => Ok (agents, humans)
  | a :: l =>
      match agent_entry i a agents with
      | Some e => Err e
      | None => index_agents (S i) l (<[ai_InstanceID a := a]> agents)
                  ({[ai_HumanPrincipalID a]} ∪ humans)
      end
  end.

Definition agent_parent_ok (agents : gmap string AgentIdentity) (e : string * AgentIdentity) : error :=
  let '(id, a) := e in
  fail_if ((ai_ParentAgentID a <>s? "") && negb (bool_decide (is_Some (agents !! ai_ParentAgentID a))))
    ("lineage: agent " +:+ id +:+ ": parent_agent_id " +:+ ai_ParentAgentID a +:+ " is not registered").

Definition grant_entry (i : nat) (g : AuthorityGrant) (agents : gmap string AgentIdentity)
    (grants : gmap string AuthorityGrant) : error :=
  let err m := "lineage: grant " +:+ ag_GrantID g +:+ ": " +:+ m in
  fail_if (TrimSpace (ag_GrantID g) =s? "")
    ("lineage: grant at index " +:+ Itoa (Z.of_nat i) +:+ ": grant_id is required") ;;?
  fail_if (bool_decide (is_Some (grants !! ag_GrantID g)))
    ("lineage: duplicate grant_id " +:+ ag_GrantID g) ;;?
  fail_if (TrimSpace (ag_Issuer g) =s? "") (err "issuer is required") ;;?
  fail_if (TrimSpace (ag_SubjectAgentID g) =s? "") (err "subject_agent_id is required") ;;?
  fail_if (negb (bool_decide (is_Some (agents !! ag_SubjectAgentID g))))
    (err ("subject_agent_id " +:+ ag_SubjectAgentID g +:+ " is not registered")) ;;?
  fail_if (length (ag_Capabilities g) =? 0)%nat (err "capabilities is required") ;;?
  fail_if (length (ag_ResourceScope g) =? 0)%nat (err "resource_scope is required") ;;?
  each_err (fun c => fail_if (TrimSpace c =s? "") (err "empty capability")) (ag_Capabilities g) ;;?
  each_err (fun s => fail_if (TrimSpace s =s? "") (err "empty resource_scope")) (ag_ResourceScope g) ;;?
  option_map (fun e => err e) (validInterval (ag_IssuedAt g) (ag_Expiry g)) ;;?
  fail_if (ag_ParentGrantID g =s? ag_GrantID g) (err "self-parenting grant").

Fixpoint index_grants (i : nat) (l : list AuthorityGrant) (agents : gmap string AgentIdentity)
    (grants : gmap string AuthorityGrant) : result (gmap string AuthorityGrant) :=
  match l with
  | [] => Ok grants
  | g :: l =>
      match grant_entry i g agents grants with
      | Some e => Err e
      | None => index_grants (S i) l agents (<[ag_GrantID g := g]> grants)
      end
  end.

Definition grant_parent_ok (agents : gmap string AgentIdentity) (humans : gset string)
    (grants : gmap string AuthorityGrant) (e : string * AuthorityGrant) : error :=
  let '(id, g) := e in
  let err m := "lineage: grant " +:+ id +:+ ": " +:+ m in
  if ag_ParentGrantID g =s? "" then
    fail_if (bool_decide (is_Some (agents !! ag_Issuer g)))
      (err "root grant issuer must be the human principal, not an agent") ;;?
    fail_if (negb (bool_decide (ag_Issuer g ∈ humans)))
      (err ("root issuer " +:+ ag_Issuer g +:+ " is not a registered human principal")) ;;?
    fail_if (ai_ParentAgentID (default zeroAgent (agents !! ag_SubjectAgentID g)) <>s? "")
      (err ("root grant subject " +:+ ag_SubjectAgentID g +:+ " is not a root agent"))
  else match grants !! ag_ParentGrantID g with
  | None => Some (err ("parent_grant_id " +:+ ag_ParentGrantID g +:+ " is not registered"))
  | Some parent =>
      fail_if (negb (bool_decide (is_Some (agents !! ag_Issuer g))))
        (err ("issuer " +:+ ag_Issuer g +:+ " is not a registered agent")) ;;?
      fail_if (ag_Issuer g <>s? ag_SubjectAgentID parent)
        (err ("issuer " +:+ ag_Issuer g +:+ " is not the parent grant subject"))
  end.

Definition err_of {A} (m : result A) : error := match m with Ok _ => None | Err e => Some e end.

Definition trajectory_entry (i : nat) (tr : Trajectory) (r : Registry) : error :=
  let err m := "lineage: trajectory " +:+ tr_TrajectoryID tr +:+ ": " +:+ m in
  let empty s := TrimSpace s =s? "" in
  fail_if (empty (tr_TrajectoryID tr))
    ("lineage: trajectory at index " +:+ Itoa (Z.of_nat i) +:+ ": trajectory_id is required") ;;?
  fail_if (bool_decide (is_Some (reg_trajectories r !! tr_TrajectoryID tr)))
    ("lineage: duplicate trajectory_id " +:+ tr_TrajectoryID tr) ;;?
  fail_if (negb (bool_decide (is_Some (reg_agents r !! tr_ActorAgentID tr))))
    (err ("actor_agent_id " +:+ tr_ActorAgentID tr +:+ " is not registered")) ;;?
  match reg_grants r !! tr_GrantID tr with
  | None => Some (err ("grant_id " +:+ tr_GrantID tr +:+ " is not registered"))
  | Some grant =>
      fail_if (ag_SubjectAgentID grant <>s? tr_ActorAgentID tr) (err "grant subject is not actor") ;;?
      fail_if (empty (tr_Capability tr) || empty (tr_Server tr) || empty (tr_Tool tr))
        (err "capability, server, and tool are required") ;;?
      fail_if (length (tr_ResourceScope tr) =? 0)%nat (err "resource_scope is required") ;;?
      fail_if (empty (tr_Effect tr) || empty (tr_PriorStateHash tr))
        (err "effect and prior_state_hash are required") ;;?
      match walkToRoot r (tr_GrantID tr) with
      | Err e => Some e
      | Ok chain =>
          fail_if (negb (coveredByChain chain (tr_Capability tr) (tr_ResourceScope tr)))
            (err "capability or resource not covered by grant chain")
      end
  end.

Fixpoint index_trajectories (i : nat) (l : list Trajectory) (r : Registry) : result Registry :=
  match l with
  | [] => Ok r
  | tr :: l =>
      match trajectory_entry i tr r with
      | Some e => Err e
      | None => index_trajectories (S i) l
                  {| reg_agents := reg_agents r; reg_grants := reg_grants r;
                     reg_trajectories := <[tr_TrajectoryID tr := tr]> (reg_trajectories r) |}
      end
  end.

Definition NewRegistry (agents : list AgentIdentity) (grants : list AuthorityGrant)
    (trajectories : list Trajectory) : option (result Registry) :=
  match index_agents 0 agents ∅ ∅ with
  | Err e => Some (Err e)
  | Ok (am, humans) =>
    match each_err (agent_parent_ok am) (range am) with
    | Some e => Some (Err e)
    | None =>
      match detectAgentCycles am with
      | None => None
      | Some (Some e) => Some (Err e)
      | Some None =>
        match index_grants 0 grants am ∅ with
        | Err e => Some (Err e)
        | Ok gm =>
          let r := {| reg_agents := am; reg_grants := gm; reg_trajectories := ∅ |} in
          match each_err (grant_parent_ok am humans gm) (range gm) ;;?
                each_err (fun e => err_of (walkToRoot r e.1)) (range gm) with
          | Some e => Some (Err e)
          | None => Some (index_trajectories 0 trajectories r)
          end
        end
      end
    end
  end.
End registry.

(** ** Cycle detection is correct *)

Section cycles_correct.
Variable agents : gmap string AgentIdentity.
Abbreviation parent := (parent_of agents).

(** The parent chain of [id] ends at an agent with no parent. *)
Inductive rooted : string -> Prop :=
| rooted_here id : parent id = "" -> rooted id
| rooted_up id : parent id <> "" -> rooted (parent id) -> rooted id.

Definition up (x y : string) : Prop := parent x <> "" /\ y = parent x.

Lemma rooted_acyclic x : rooted x -> ~ tc up x x.
Proof.
  induction 1 as [x Hp|x Hp Hr IH]; intros Ht.
  - inversion Ht as [? ? [? _]|? ? ? [? _]]; by simplify_eq.
  - assert (tc up (parent x) (parent x)) as Hc; [|by apply IH].
    inversion Ht as [? ? [_ E]|? y ? [_ ->] Hy]; simplify_eq.
    + apply tc_once. split; congruence.
    + eapply tc_r; [exact Hy|]. by split.
Qed.

Lemma parent_registered x : parent x <> "" -> is_Some (agents !! x).
Proof. unfold parent_of. destruct (agents !! x); [eauto|done]. Qed.

Lemma color_of_insert c x y k :
  color_of (<[x := k]> c) y = if decide (x = y) then k else color_of c y.
Proof. unfold color_of. rewrite lookup_insert. by case_decide. Qed.

Record visited (c c' : colors) (id : string) : Prop := {
  v_rooted x : color_of c' x = black -> rooted x;
  v_done : color_of c' id = black;
  v_keeps x : color_of c x = black -> color_of c' x = black;
  v_gray x : color_of c' x = gray <-> color_of c x = gray
}.

Lemma visit_sound fuel id c c' :
  (forall x, color_of c x = black -> rooted x) ->
  visit agents fuel id c = Some (Ok c') -> visited c c' id.
Proof.
  revert id c c'. induction fuel as [|fuel IH]; intros id c c' Hb; cbn; [done|].
  destruct (color_of c id) eqn:Ec; [|done|intros [= <-]; by split].
  set (c1 := <[id := gray]> c).
  assert (forall x, color_of c1 x = black -> color_of c x = black /\ x <> id) as Hb1.
  { intros x. unfold c1. rewrite color_of_insert. case_decide; [done|]. auto. }
  destruct (parent id <>s? "") eqn:Ep; bools.
  - destruct (visit agents fuel (parent id) c1) as [[c2|]|] eqn:Ev; [|done..].
    intros [= <-]. destruct (IH _ _ _ (fun x Hx => Hb x (proj1 (Hb1 x Hx))) Ev) as [Hr Hd Hk Hg].
    split; intros *; rewrite ?color_of_insert; [| |intros Hx|].
    + case_decide as E; [intros _; subst; by apply rooted_up, Hr|apply Hr].
    + by case_decide.
    + case_decide as E; [done|]. apply Hk. unfold c1. rewrite color_of_insert. by case_decide.
    + case_decide as E; [subst; by rewrite Ec|]. rewrite Hg. unfold c1. rewrite color_of_insert.
      by case_decide.
  - intros [= <-]. split; intros *; rewrite ?color_of_insert; unfold c1; rewrite ?color_of_insert;
      repeat case_decide; subst; try done; try (by rewrite Ec); try (intros _; by apply rooted_here);
      try (intros Hx; by rewrite Ec in Hx); auto.
Qed.

Lemma visit_cycle fuel id c e :
  (forall g, color_of c g = gray -> tc up g id) ->
  visit agents fuel id c = Some (Err e) -> exists x, tc up x x.
Proof.
  revert id c e. induction fuel as [|fuel IH]; intros id c e Hg; cbn; [done|].
  destruct (color_of c id) eqn:Ec; [|intros _; exists id; by apply Hg|done].
  destruct (parent id <>s? "") eqn:Ep; [|done]. bools.
  destruct (visit agents fuel _ _) as [[c2|e2]|] eqn:Ev; [done| |done]. intros _. clear e.
  refine (IH _ _ e2 _ Ev). intros g. rewrite color_of_insert. case_decide as E.
  - intros _. subst. by apply tc_once.
  - intros Hgr%Hg. by eapply tc_r.
Qed.

(** Agents the search has not reached. *)
Definition fresh (c : colors) : gset string :=
  filter (fun id => color_of c id = white) (dom agents).

Lemma visit_total fuel id c : (size (fresh c) < fuel)%nat -> visit agents fuel id c <> None.
Proof.
  revert id c. induction fuel as [|fuel IH]; intros id c Hs; cbn; [lia|].
  destruct (color_of c id) eqn:Ec; [|done..].
  destruct (parent id <>s? "") eqn:Ep; [|done]. bools.
  assert (size (fresh (<[id := gray]> c)) < size (fresh c))%nat as Hlt.
  { apply subset_size. split.
    - intros x. unfold fresh. rewrite !elem_of_filter, color_of_insert. by case_decide; [intros []|].
    - intros Hsub. specialize (Hsub id). unfold fresh in Hsub.
      rewrite !elem_of_filter, color_of_insert, decide_True in Hsub by done.
      destruct Hsub; [|done]. split; [done|]. apply elem_of_dom. by apply parent_registered. }
  specialize (IH (parent id) (<[id := gray]> c) ltac:(lia)).
  destruct (visit agents fuel _ _) as [[]|]; done.
Qed.

Lemma visit_fuel_enough id c : visit agents (visit_fuel agents) id c <> None.
Proof.
  apply visit_total. unfold visit_fuel.
  assert (size (fresh c) <= size (dom agents))%nat as Hle.
  { apply subseteq_size. intros x. unfold fresh. rewrite elem_of_filter. by intros []. }
  rewrite size_dom in Hle. lia.
Qed.

Lemma visit_all_correct ids c :
  (forall x, color_of c x = black -> rooted x) -> (forall x, color_of c x <> gray) ->
  match visit_all agents ids c with
  | None => False
  | Some (Ok _) => forall id, In id ids -> rooted id
  | Some (Err _) => exists x, tc up x x
  end.
Proof.
  revert c. induction ids as [|id ids IH]; intros c Hb Hg; cbn [visit_all]; [done|].
  pose proof (visit_fuel_enough id c) as Hf.
  destruct (visit agents _ id c) as [[c'|e]|] eqn:Ev; [| |done].
  - destruct (visit_sound _ _ _ _ Hb Ev) as [Hr Hd Hk Hgr].
    specialize (IH c' Hr (fun x Hx => Hg x (proj1 (Hgr x) Hx))).
    destruct (visit_all agents ids c') as [[]|]; [|done..].
    intros x [<-|Hx]; [by apply Hr|by apply IH].
  - eapply visit_cycle; [|exact Ev]. intros g Hgg. by destruct (Hg g).
Qed.
End cycles_correct.

Lemma detectAgentCycles_acyclic (agents : gmap string AgentIdentity) :
  detectAgentCycles agents <> None /\
  (detectAgentCycles agents = Some None <->
   forall id a, agents !! id = Some a -> rooted agents id).
Proof.
  unfold detectAgentCycles.
  pose proof (visit_all_correct agents (range agents).*1 ∅) as Hc.
  assert (forall x, color_of ∅ x = white) as Hw.
  { intros x. unfold color_of. by rewrite lookup_empty. }
  specialize (Hc ltac:(intros x; by rewrite Hw) ltac:(intros x; by rewrite Hw)).
  assert (forall id a, agents !! id = Some a -> In id (range agents).*1) as Hin.
  { intros id a Ha. apply list_elem_of_In, list_elem_of_fmap. exists (id, a).
    split; [done|]. by apply elem_of_map_to_list. }
  destruct (visit_all _ _ _) as [[c|e]|]; [| |done]; split; try done; split; try done.
  - intros _ id a Ha. by eapply Hc, Hin.
  - intros Hr. destruct Hc as [x Hx]. exfalso.
    assert (exists y, up agents x y) as (y & Hy & _) by (inversion Hx; eauto).
    destruct (parent_registered _ _ Hy) as [a Ha].
    by apply (rooted_acyclic _ _ (Hr _ _ Ha)).
Qed.

(** C19.  [detectAgentCycles] terminates on every map of agents and reports an
    error exactly when some registered agent's chain of parents does not end
    at an agent without a parent. *)
Theorem detectAgentCycles_correct (agents : gmap string AgentIdentity) :
  detectAgentCycles agents <> None /\
  (detectAgentCycles agents = Some None <->
   forall id a, agents !! id = Some a -> rooted agents id).
Proof. apply detectAgentCycles_acyclic. Qed.

(** ** A registry that loads is well formed *)

Section wf.
Context `{GoTime, GoFmt}.

Record agent_wf (agents : gmap string AgentIdentity) (id : string) (a : AgentIdentity) : Prop := {
  aw_id : ai_InstanceID a = id;
  aw_interval : validInterval (ai_CreatedAt a) (ai_Expiry a) = None;
  aw_parent : ai_ParentAgentID a <> "" -> is_Some (agents !! ai_ParentAgentID a);
  aw_rooted : rooted agents id
}.

Record grant_wf (r : Registry) (id : string) (g : AuthorityGrant) : Prop := {
  gw_id : ag_GrantID g = id;
  gw_nonempty : id <> "";
  gw_interval : validInterval (ag_IssuedAt g) (ag_Expiry g) = None;
  gw_subject : is_Some (Agent r (ag_SubjectAgentID g));
  gw_chain : exists chain, walkToRoot r id = Ok chain;
  gw_root : ag_ParentGrantID g = "" ->
    Agent r (ag_Issuer g) = None /\
    (exists aid a, Agent r aid = Some a /\ ai_HumanPrincipalID a = ag_Issuer g) /\
    (forall a, Agent r (ag_SubjectAgentID g) = Some a -> ai_ParentAgentID a = "");
  gw_child : ag_ParentGrantID g <> "" -> exists p,
    Grant r (ag_ParentGrantID g) = Some p /\ ag_Issuer g = ag_SubjectAgentID p /\
    is_Some (Agent r (ag_Issuer g))
}.

Record trajectory_wf (r : Registry) (id : string) (tr : Trajectory) : Prop := {
  tw_id : tr_TrajectoryID tr = id;
  tw_grant : exists g, Grant r (tr_GrantID tr) = Some g /\ ag_SubjectAgentID g = tr_ActorAgentID tr;
  tw_covered : exists chain, walkToRoot r (tr_GrantID tr) = Ok chain /\
    coveredByChain chain (tr_Capability tr) (tr_ResourceScope tr) = true
}.

Record registry_wf (r : Registry) : Prop := {
  rw_agents id a : Agent r id = Some a -> agent_wf (reg_agents r) id a;
  rw_grants id g : Grant r id = Some g -> grant_wf r id g;
  rw_trajectories id tr : Trajectory_of r id = Some tr -> trajectory_wf r id tr
}.

Lemma registry_wf_indexed r : registry_wf r -> grants_indexed r.
Proof. intros Hr id g Hg. by destruct (rw_grants _ Hr _ _ Hg). Qed.

(** The facts the entry checks leave behind. *)
Ltac entry H := repeat (apply err_then_None in H as [?E H]).

Lemma bool_decide_negb_false P `{base.Decision P} : negb (bool_decide P) = false -> P.
Proof. by intros ?%negb_false_iff%bool_decide_eq_true. Qed.

Definition agents_indexed (am : gmap string AgentIdentity) (hs : gset string) : Prop :=
  (forall id a, am !! id = Some a -> ai_InstanceID a = id /\
     validInterval (ai_CreatedAt a) (ai_Expiry a) = None) /\
  (forall h, h ∈ hs -> exists id a, am !! id = Some a /\ ai_HumanPrincipalID a = h).

Lemma index_agents_ok i l am hs am' hs' :
  agents_indexed am hs -> index_agents i l am hs = Ok (am', hs') -> agents_indexed am' hs'.
Proof.
  revert i am hs. induction l as [|a l IH]; intros i am hs [Ha Hh]; cbn [index_agents].
  { by intros [= <- <-]. }
  destruct (agent_entry i a am) eqn:Ee; [done|]. apply IH. unfold agent_entry in Ee. entry Ee.
  apply fail_if_None, bool_decide_eq_false in E0. split.
  - intros id a'. rewrite lookup_insert. case_decide; [intros [= <-]|by apply Ha].
    split; [done|]. by destruct (validInterval _ _).
  - intros h [->%elem_of_singleton|Hin]%elem_of_union.
    + exists (ai_InstanceID a), a. by rewrite lookup_insert_eq.
    + destruct (Hh _ Hin) as (id & a' & Hl & ?). exists id, a'.
      rewrite lookup_insert_ne; [done|]. intros <-. by apply E0.
Qed.

Definition grants_checked (am : gmap string AgentIdentity) (gm : gmap string AuthorityGrant) : Prop :=
  forall id g, gm !! id = Some g -> ag_GrantID g = id /\ id <> "" /\
    validInterval (ag_IssuedAt g) (ag_Expiry g) = None /\ is_Some (am !! ag_SubjectAgentID g).

Lemma index_grants_ok i l am gm gm' :
  grants_checked am gm -> index_grants i l am gm = Ok gm' -> grants_checked am gm'.
Proof.
  revert i gm. induction l as [|g l IH]; intros i gm Hg; cbn [index_grants].
  { by intros [= <-]. }
  destruct (grant_entry i g am gm) eqn:Ee; [done|]. apply IH. unfold grant_entry in Ee. entry Ee.
  intros id g'. rewrite lookup_insert. case_decide as Hid; [intros [= <-]|by apply Hg].
  split_and!; [done| |by destruct (validInterval _ _)|by apply fail_if_None, bool_decide_negb_false in E3].
  intros Hempty. apply fail_if_None in E. by rewrite Hid, Hempty in E.
Qed.

Lemma walk_same_grants r r' gid n cur seen acc :
  reg_grants r = reg_grants r' -> walk r gid n cur seen acc = walk r' gid n cur seen acc.
Proof.
  intros Hr. revert cur seen acc. induction n as [|n IH]; intros cur seen acc; cbn; [done|].
  unfold Grant. rewrite Hr. by repeat case_match.
Qed.

Lemma walkToRoot_same_grants r r' gid :
  reg_grants r = reg_grants r' -> walkToRoot r gid = walkToRoot r' gid.
Proof. apply walk_same_grants. Qed.

Definition trajectories_wf (r : Registry) : Prop :=
  forall id tr, Trajectory_of r id = Some tr -> trajectory_wf r id tr.

Lemma index_trajectories_ok i l r r' :
  trajectories_wf r -> index_trajectories i l r = Ok r' ->
  trajectories_wf r' /\ reg_agents r' = reg_agents r /\ reg_grants r' = reg_grants r.
Proof.
  revert i r. induction l as [|tr l IH]; intros i r Hr; cbn [index_trajectories].
  { by intros [= <-]. }
  destruct (trajectory_entry i tr r) eqn:Ee; [done|]. intros Hi. apply IH in Hi; [done|].
  set (r1 := Build_Registry _ _ _).
  assert (forall gid, walkToRoot r1 gid = walkToRoot r gid) as Hw.
  { intros gid. by apply walkToRoot_same_grants. }
  intros id tr'. unfold Trajectory_of, r1; cbn [reg_trajectories]. rewrite lookup_insert.
  case_decide as Hid.
  - intros [= <-]. unfold trajectory_entry in Ee. entry Ee.
    destruct (reg_grants r !! tr_GrantID tr) as [g|] eqn:Hg; [|done]. entry Ee.
    destruct (walkToRoot r (tr_GrantID tr)) as [chain|] eqn:Hc; [|done].
    apply fail_if_None, negb_false_iff in Ee. apply fail_if_None, str_neqb_false in E2.
    split; [done|by exists g|]. exists chain. by rewrite Hw.
  - intros Ht. destruct (Hr id tr' Ht) as [? Hg Hc]. split; [done|done|]. by rewrite Hw.
Qed.

Lemma each_err_map {V} (f : string * V -> error) (m : gmap string V) :
  each_err f (range m) = None <-> forall id v, m !! id = Some v -> f (id, v) = None.
Proof.
  rewrite each_err_None, Forall_forall. split.
  - intros Hf id v Hv. apply Hf. by apply elem_of_map_to_list.
  - intros Hf [id v] Hin. apply Hf. by apply elem_of_map_to_list.
Qed.

Lemma grants_wf am hs gm ts :
  agents_indexed am hs -> grants_checked am gm ->
  each_err (grant_parent_ok am hs gm) (range gm) = None ->
  each_err (fun e => err_of (walkToRoot (Build_Registry am gm ∅) e.1)) (range gm) = None ->
  forall id g, gm !! id = Some g -> grant_wf (Build_Registry am gm ts) id g.
Proof.
  intros [Ha Hh] Hg Hp Hw id g Hl.
  rewrite each_err_map in Hp, Hw. specialize (Hp _ _ Hl). specialize (Hw _ _ Hl).
  destruct (Hg _ _ Hl) as (? & ? & ? & ?). cbn [fst] in Hw. unfold grant_parent_ok in Hp.
  split; try done.
  - rewrite (walkToRoot_same_grants _ (Build_Registry am gm ts)) in Hw by done.
    destruct (walkToRoot _ id) as [chain|]; [|done]. by exists chain.
  - intros Hroot. rewrite Hroot, str_eqb_refl in Hp. entry Hp.
    apply fail_if_None, bool_decide_eq_false, eq_None_not_Some in E.
    apply fail_if_None, bool_decide_negb_false in E0.
    apply fail_if_None, str_neqb_false in Hp.
    split_and!; [done|by apply Hh|]. intros a Ha'. unfold Agent in Ha'; cbn in Ha'.
    by rewrite Ha' in Hp.
  - intros Hne. rewrite (proj2 (str_eqb_false _ "") Hne) in Hp.
    destruct (gm !! ag_ParentGrantID g) as [p|] eqn:Hpg; [|done]. entry Hp.
    apply fail_if_None, bool_decide_negb_false in E. apply fail_if_None, str_neqb_false in Hp.
    by exists p.
Qed.
End wf.

(** [NewRegistry] always returns, and a registry it returns is well
    formed: entries are indexed by their own identifiers; every agent's
    parents are registered and end at a root agent; every grant has a live
    interval order, a registered subject and a chain to a root grant that a
    registered human principal (not an agent) issued to a root agent, each
    child issued by its parent's subject; every trajectory is covered by its
    grant's whole chain. *)
Theorem NewRegistry_wf `{GoTime, GoFmt} (agents : list AgentIdentity)
    (grants : list AuthorityGrant) (trajectories : list Trajectory) :
  NewRegistry agents grants trajectories <> None /\
  forall r, NewRegistry agents grants trajectories = Some (Ok r) -> registry_wf r.
Proof.
  unfold NewRegistry.
  destruct (index_agents 0 agents ∅ ∅) as [[am hs]|] eqn:Ea; [|done].
  destruct (each_err (agent_parent_ok am) _) eqn:Ep; [done|].
  destruct (detectAgentCycles_acyclic am) as [Ht Hcyc].
  destruct (detectAgentCycles am) as [[e|]|]; [done| |done].
  destruct (index_grants 0 grants am ∅) as [gm|] eqn:Eg; [|done].
  destruct (err_then _ _) eqn:Ew; [done|]. split; [done|].
  intros r [= Hr]. apply err_then_None in Ew as [Eg1 Eg2].
  apply index_agents_ok in Ea; [|split; [by intros ? ?|by intros ? []%not_elem_of_empty]].
  apply index_grants_ok in Eg; [|by intros ? ?].
  apply index_trajectories_ok in Hr as (Ht' & Hra & Hrg); [|by intros ? ?].
  destruct r as [ra rg rt]; cbn in Hra, Hrg; subst ra rg. split; [| |done].
  - intros id a Hl. destruct Ea as [Ea _]. destruct (Ea id a Hl) as [? ?].
    rewrite each_err_map in Ep. specialize (Ep id a Hl). cbn in Ep. split; try done.
    + intros Hne. apply fail_if_None in Ep.
      rewrite (proj2 (str_neqb_true _ _) Hne) in Ep. by apply bool_decide_negb_false in Ep.
    + by apply (proj1 Hcyc eq_refl id a).
  - by eapply grants_wf.
Qed.

Lemma NewRegistry_wf_witness :
  exists r, @NewRegistry decimal_time plain_quote [Witness.boss; Witness.child]
      [Witness.g_root; Witness.g_leaf] [Witness.traj] = Some (Ok r) /\
    @registry_wf decimal_time plain_quote r.
Proof.
  exists Witness.reg.
  assert (@NewRegistry decimal_time plain_quote [Witness.boss; Witness.child]
      [Witness.g_root; Witness.g_leaf] [Witness.traj] = Some (Ok Witness.reg)) as E.
  { vm_compute. reflexivity. }
  split; [exact E|].
  exact (proj2 (@NewRegistry_wf decimal_time plain_quote _ _ _) _ E).
Defined.

(** A cycle of agents, a self-issued root grant and an uncovered
    trajectory are refused. *)
Example NewRegistry_refuses_cycle :
  @NewRegistry decimal_time plain_quote
    [{| ai_InstanceID := "a"; ai_ParentAgentID := "b"; ai_HumanPrincipalID := "h";
        ai_CreatedAt := "1"; ai_Expiry := "2" |};
     {| ai_InstanceID := "b"; ai_ParentAgentID := "a"; ai_HumanPrincipalID := "h";
        ai_CreatedAt := "1"; ai_Expiry := "2" |}] [] [] =
  Some (Err "lineage: agent a: cycle in parent_agent_id graph").
Proof. vm_compute. reflexivity. Qed.
