(* ===== verification/ActorContext.v ===== *)
(** The verified actor context: [internal/actorcontext/context.go].
    [SnapshotHash] binds every field of the context; [ValidateStructure] and
    [Check] are what the policy engine asks of it, [Seal] is what the
    identity plane does to produce it, and [StripArgumentIdentity] removes
    the argument names a caller could use to imitate it.

    The JSON text of the snapshot ([json.Marshal]) is the class
    [SnapshotJSON]; [SnapshotLaws] says that it and the digest are
    injective on the contexts compared. *)
From stdpp Require Import base strings gmap list pretty.
From Stdlib Require Import ZArith Lia.
From S2P Require Import Prelude GoStrings GoLib.
#[local] Open Scope Z_scope.

Definition VersionV1 := "1".
Definition VerificationSTSDpop := "sts+dpop".
Definition maxBytes : Z := 32768.

Record ActorRef := { ar_ID : string }.

(** [ExpiresAt.IsZero()] is [c_ExpiresAt = None]: the zero [time.Time]. *)
Record Context := {
  c_Version : string;
  c_PrincipalID : string;
  c_ActingAgent : string;
  c_WorkloadID : string;
  c_Transaction : string;
  c_ActorChain : list ActorRef;
  c_Scopes : list string;
  c_Issuer : string;
  c_Audience : string;
  c_TokenID : string;
  c_ExpiresAt : option Z;
  c_ProofKeyThumbprint : string;
  c_VerificationMethod : string;
  c_IdentitySnapshotHash : string
}.

Record snapshotBody := {
  sb_Version : string;
  sb_PrincipalID : string;
  sb_ActingAgent : string;
  sb_WorkloadID : string;
  sb_Transaction : string;
  sb_ActorChain : list ActorRef;
  sb_Scopes : list string;
  sb_Issuer : string;
  sb_Audience : string;
  sb_TokenID : string;
  sb_ExpiresAt : string;
  sb_ProofKeyThumbprint : string;
  sb_VerificationMethod : string
}.

(** [json.Marshal] of a [snapshotBody], and [Format(RFC3339Nano)] of an
    instant or of the zero time. *)
Class SnapshotJSON := {
  marshal_snapshot : snapshotBody -> option string;
  format_expiry : option Z -> string
}.

Section context.
Context `{GoCrypto, SnapshotJSON, GoFmt}.

Definition body_of (c : Context) : snapshotBody := {|
  sb_Version := c_Version c; sb_PrincipalID := c_PrincipalID c;
  sb_ActingAgent := c_ActingAgent c; sb_WorkloadID := c_WorkloadID c;
  sb_Transaction := c_Transaction c; sb_ActorChain := c_ActorChain c;
  sb_Scopes := c_Scopes c; sb_Issuer := c_Issuer c; sb_Audience := c_Audience c;
  sb_TokenID := c_TokenID c; sb_ExpiresAt := format_expiry (c_ExpiresAt c);
  sb_ProofKeyThumbprint := c_ProofKeyThumbprint c;
  sb_VerificationMethod := c_VerificationMethod c |}.

Definition SnapshotHash (c : Context) : result string :=
  match marshal_snapshot (body_of c) with
  | Some raw => Ok (sha256_hex raw)
  | None => Err "json: marshal error"
  end.

Definition first_id (l : list ActorRef) : string :=
  match l with a :: _ => ar_ID a | [] => "" end.
Definition last_id (l : list ActorRef) : string :=
  match last l with Some a => ar_ID a | None => "" end.

Definition ValidateStructure (c : Context) : error :=
  fail_if (c_Version c <>s? VersionV1)
    ("actorcontext: unsupported version " +:+ fmt_q (c_Version c)) ;;?
  fail_if (TrimSpace (c_PrincipalID c) =s? "") "actorcontext: missing principal_id" ;;?
  fail_if (TrimSpace (c_ActingAgent c) =s? "") "actorcontext: missing acting_agent" ;;?
  fail_if (TrimSpace (c_Transaction c) =s? "") "actorcontext: missing transaction" ;;?
  fail_if (bool_decide (c_ExpiresAt c = None)) "actorcontext: missing expires_at" ;;?
  fail_if (TrimSpace (c_VerificationMethod c) =s? "")
    "actorcontext: missing verification_method" ;;?
  fail_if (c_VerificationMethod c <>s? VerificationSTSDpop)
    ("actorcontext: unsupported verification_method " +:+ fmt_q (c_VerificationMethod c)) ;;?
  fail_if (length (c_ActorChain c) =? 0)%nat "actorcontext: empty actor_chain" ;;?
  fail_if (first_id (c_ActorChain c) <>s? c_PrincipalID c)
    "actorcontext: principal_id must equal actor_chain[0]" ;;?
  fail_if (last_id (c_ActorChain c) <>s? c_ActingAgent c)
    "actorcontext: acting_agent must equal actor_chain last hop" ;;?
  match SnapshotHash c with
  | Err e => Some e
  | Ok want => fail_if (c_IdentitySnapshotHash c <>s? want)
                 "actorcontext: identity_snapshot_hash mismatch"
  end.

Definition with_hash (c : Context) (h : string) : Context := {|
  c_Version := c_Version c; c_PrincipalID := c_PrincipalID c; c_ActingAgent := c_ActingAgent c;
  c_WorkloadID := c_WorkloadID c; c_Transaction := c_Transaction c;
  c_ActorChain := c_ActorChain c; c_Scopes := c_Scopes c; c_Issuer := c_Issuer c;
  c_Audience := c_Audience c; c_TokenID := c_TokenID c; c_ExpiresAt := c_ExpiresAt c;
  c_ProofKeyThumbprint := c_ProofKeyThumbprint c;
  c_VerificationMethod := c_VerificationMethod c; c_IdentitySnapshotHash := h |}.

(** [Seal] on a non-nil context: the context after the call, and its error.
    The hash is assigned before the structure is checked. *)
Definition Seal (c : Context) : Context * error :=
  match SnapshotHash c with
  | Err e => (c, Some e)
  | Ok h => let c := with_hash c h in (c, ValidateStructure c)
  end.

(** [clock] is [time.Now().UTC()], read when [now] is the zero time. *)
Definition Check (c : Context) (clock : Z) (now : option Z) : error :=
  ValidateStructure c ;;?
  fail_if (match c_ExpiresAt c with
           | Some e => negb (default clock now <? e)
           | None => true
           end) "actorcontext: expired".

Definition HasScope (c : Context) (scope : string) : bool := str_in scope (c_Scopes c).
End context.

(** [Decode], after [io.ReadAll] of the size-limited reader: [decoded] is
    what [DisallowUnknownFields] decoding of [raw] yields and [trailing] whether
    a second value or garbage follows it. *)
Section decode.
Context `{GoCrypto, SnapshotJSON, GoFmt}.

Definition Decode (size : Z) (decoded : result Context) (trailing : error) : result Context :=
  if maxBytes <? size
  then Err ("actorcontext: context exceeds " +:+ Itoa maxBytes +:+ " bytes")
  else match decoded with
  | Err e => Err ("actorcontext: " +:+ e)
  | Ok c => match trailing with
            | Some e => Err e
            | None => match ValidateStructure c with Some e => Err e | None => Ok c end
            end
  end.

(** [DecodeFD]: [None] is [(nil, nil)]; [read] is [Decode] of the file. *)
Definition DecodeFD (fd : Z) (read : result Context) : option (result Context) :=
  if fd <=? 0 then None
  else if fd <? 3
  then Some (Err ("actorcontext: fd " +:+ Itoa fd +:+ " overlaps stdin/stdout/stderr"))
  else Some read.
End decode.

Definition ArgumentIdentityKeys : list string :=
  ["_verified_actor"; "verified_actor"; "verified_actor_context"].

(** The arguments without the identity keys, and whether any was there. *)
Definition StripArgumentIdentity (a : args) : args * bool :=
  match a with
  | None => (None, false)
  | Some m =>
      let changed := existsb (fun e => str_in e.1 ArgumentIdentityKeys) m in
      let out := List.filter (fun e => negb (str_in e.1 ArgumentIdentityKeys)) m in
      if changed then (Some out, true) else (Some m, false)
  end.

(** ** Integrity *)

(** The digest of the encoded snapshot identifies the snapshot body: the
    encoding is injective, and no two of the encodings that occur collide. *)
Class SnapshotLaws `{GoCrypto, SnapshotJSON} := {
  marshal_total b : is_Some (marshal_snapshot b);
  marshal_inj b b' raw : marshal_snapshot b = Some raw -> marshal_snapshot b' = Some raw -> b = b';
  digest_no_collision b b' raw raw' : marshal_snapshot b = Some raw ->
    marshal_snapshot b' = Some raw' -> sha256_hex raw = sha256_hex raw' -> raw = raw'
}.

Section integrity.
Context `{GoCrypto, SnapshotJSON, GoFmt}.

Lemma ValidateStructure_hash c :
  ValidateStructure c = None -> SnapshotHash c = Ok (c_IdentitySnapshotHash c).
Proof.
  unfold ValidateStructure. intros Hv. repeat (apply err_then_None in Hv as [_ Hv]).
  destruct (SnapshotHash c) as [h|e]; [|done]. by apply fail_if_None, str_neqb_false in Hv as ->.
Qed.

Lemma SnapshotHash_with_hash c h : SnapshotHash (with_hash c h) = SnapshotHash c.
Proof. done. Qed.
End integrity.

(** Sealing then checking: [Seal] writes a hash under which the context
    it returns passes [Check] at every instant before its expiry, whenever
    [Seal] reports no error; and at or after the expiry [Check] fails. *)
Theorem Seal_then_Check `{GoCrypto, SnapshotJSON, GoFmt} (c c' : Context) (e clock now : Z) :
  Seal c = (c', None) -> c_ExpiresAt c = Some e ->
  Check c' clock (Some now) = (if now <? e then None else Some "actorcontext: expired").
Proof.
  unfold Seal, Check. destruct (SnapshotHash c) as [h|m]; [|done]. intros [= <- Hv] He.
  rewrite Hv. cbn. rewrite He. by destruct (now <? e).
Qed.

(** Tamper evidence: two contexts that both pass [Check] with the same
    [IdentitySnapshotHash] agree on every field the snapshot covers, so no
    scope, principal, agent, chain or expiry of a sealed context can be
    changed without changing its hash. *)
Theorem Check_binds_fields `{GoCrypto, SnapshotJSON, GoFmt} (c c' : Context)
    (clock clock' : Z) (now now' : option Z) :
  SnapshotLaws ->
  Check c clock now = None -> Check c' clock' now' = None ->
  c_IdentitySnapshotHash c = c_IdentitySnapshotHash c' -> body_of c = body_of c'.
Proof.
  intros HL [Hv _]%err_then_None [Hv' _]%err_then_None Heq.
  apply ValidateStructure_hash in Hv, Hv'. unfold SnapshotHash in Hv, Hv'.
  destruct (marshal_snapshot (body_of c)) as [raw|] eqn:E; [|done].
  destruct (marshal_snapshot (body_of c')) as [raw'|] eqn:E'; [|done].
  injection Hv as Hv. injection Hv' as Hv'.
  assert (raw = raw') as ->; [|by eapply marshal_inj].
  eapply digest_no_collision; [done..|]. congruence.
Qed.

Lemma strip_entries a :
  entries (StripArgumentIdentity a).1 =
  List.filter (fun e => negb (str_in e.1 ArgumentIdentityKeys)) (entries a).
Proof.
  destruct a as [m|]; cbn -[str_in]; [|done].
  destruct (existsb _ m) eqn:E; [done|]. cbn -[str_in]. symmetry.
  induction m as [|e m IH]; cbn -[str_in] in E |- *; [done|].
  apply orb_false_iff in E as [-> E]. cbn. by rewrite IH at 1.
Qed.

(** After [StripArgumentIdentity] no argument can pose as the verified
    actor, every other argument is kept with its value, and [changed] says
    exactly whether something was removed. *)
Theorem StripArgumentIdentity_spec (a : args) :
  let '(a', changed) := StripArgumentIdentity a in
  (forall k v, In (k, v) (entries a') <-> In (k, v) (entries a) /\ ~ In k ArgumentIdentityKeys) /\
  (changed = true <-> exists k v, In (k, v) (entries a) /\ In k ArgumentIdentityKeys) /\
  (changed = false -> a' = a).
Proof.
  pose proof (strip_entries a) as He. destruct (StripArgumentIdentity a) as [a' ch] eqn:Es.
  cbn [fst] in He. split_and!.
  - intros k v. rewrite He, filter_In, negb_true_iff, str_in_false. done.
  - destruct a as [m|]; cbn -[str_in] in Es; simplify_eq; [|by split; [|intros (? & ? & [] & _)]].
    destruct (existsb _ m) eqn:E; simplify_eq; split; try done.
    + intros _. apply existsb_exists in E as ([k v] & ? & ?%str_in_In). eauto.
    + intros (k & v & Hin & Hk%str_in_In). rewrite <-E. apply existsb_exists. by exists (k, v).
  - destruct a as [m|]; cbn -[str_in] in Es; simplify_eq; [|done]. destruct (existsb _ m); by simplify_eq.
Qed.

(** ** Witnesses *)

(** An injective encoding of snapshots, and the identity as digest. *)
Definition body_key (b : snapshotBody) :=
  (sb_Version b, sb_PrincipalID b, sb_ActingAgent b, sb_WorkloadID b, sb_Transaction b,
   ar_ID <$> sb_ActorChain b, sb_Scopes b,
   (sb_Issuer b, sb_Audience b, sb_TokenID b, sb_ExpiresAt b, sb_ProofKeyThumbprint b,
    sb_VerificationMethod b)).
Definition coded_snapshot : SnapshotJSON := {|
  marshal_snapshot b := Some (pretty (N.pos (encode (body_key b))));
  format_expiry e := match e with Some z => Itoa z | None => "0001-01-01T00:00:00Z" end |}.
Definition identity_digest : GoCrypto := {| sha256_hex s := s |}.

Lemma coded_snapshot_laws : @SnapshotLaws identity_digest coded_snapshot.
Proof.
  split.
  - intros b. by eexists.
  - intros b b' raw [= <-] [= E]. apply (inj pretty) in E. injection E as E.
    apply (inj encode) in E. destruct b, b'; unfold body_key in E; cbn in E.
    apply (inj2 pair) in E as [E ?]. simplify_eq.
    match goal with H : _ <$> _ = _ <$> _ |- _ => apply list_fmap_eq_inj in H; [|by intros [] [] [= ->]] end.
    by subst.
  - done.
Qed.

Definition sample : Context := {| c_Version := "1"; c_PrincipalID := "alice";
  c_ActingAgent := "worker"; c_WorkloadID := ""; c_Transaction := "txn-1";
  c_ActorChain := [{| ar_ID := "alice" |}; {| ar_ID := "worker" |}]; c_Scopes := ["read"];
  c_Issuer := ""; c_Audience := ""; c_TokenID := ""; c_ExpiresAt := Some 100;
  c_ProofKeyThumbprint := ""; c_VerificationMethod := "sts+dpop";
  c_IdentitySnapshotHash := "" |}.
Definition sealed : Context := (@Seal identity_digest coded_snapshot plain_quote sample).1.

Lemma Seal_then_Check_witness :
  @Check identity_digest coded_snapshot plain_quote sealed 0 (Some 50) = None.
Proof.
  exact (@Seal_then_Check identity_digest coded_snapshot plain_quote sample
    sealed 100 0 50 ltac:(vm_compute; reflexivity) eq_refl).
Defined.

Lemma Check_binds_fields_witness :
  @body_of coded_snapshot sealed = @body_of coded_snapshot (with_hash sample (c_IdentitySnapshotHash sealed)).
Proof.
  apply (@Check_binds_fields identity_digest coded_snapshot plain_quote sealed
    (with_hash sample (c_IdentitySnapshotHash sealed)) 0 0 (Some 50) (Some 60) coded_snapshot_laws);
    vm_compute; reflexivity.
Defined.

Lemma StripArgumentIdentity_example :
  StripArgumentIdentity (Some [("path", AString "x"); ("verified_actor", ANil)]) =
  (Some [("path", AString "x")], true).
Proof. vm_compute. reflexivity. Qed.
