(* ===== verification/PolicyTypes.v ===== *)
(** Policy data: [internal/policy/types.go] and the ownership block of
    [capability_ownership.go].  [Action] and [RiskLevel] are Go string types,
    so any string can occur in them; Go's [int] fields are [Z]. *)
From stdpp Require Import base strings gmap list.
From Stdlib Require Import ZArith.
From S2P Require Import Prelude Lineage.

Abbreviation Action := string (only parsing).
Definition ActionAllow : Action := "allow".
Definition ActionDeny : Action := "deny".
Definition ActionRequireApproval : Action := "require_approval".
Definition ActionRedactThenAllow : Action := "redact_then_allow".

Abbreviation RiskLevel := string (only parsing).
Definition RiskCritical : RiskLevel := "critical".
Definition RiskHigh : RiskLevel := "high".
Definition RiskMedium : RiskLevel := "medium".
Definition RiskLow : RiskLevel := "low".
Definition RiskUnknown : RiskLevel := "unknown".

Record ArgRule := {
  r_Type : string;
  r_Patterns : list string;
  r_Keywords : list string;
  r_Bytes : Z;
  r_Rows : Z;
  r_Count : Z;
  r_Domains : list string;
  r_Repos : list string;
  r_Days : list string;
  r_Start : string;
  r_End : string;
  r_Timezone : string
}.

Record ToolRule := {
  t_Name : string;
  t_Allowed : bool;
  t_Risk : RiskLevel;
  t_ApprovalRequired : bool;
  t_Delegates : bool;
  t_Rules : list ArgRule;
  t_RequiredScopes : list string
}.

Record ServerAttestation := {
  sa_Kind : string;
  sa_Digest : string;
  sa_EntryArgPositions : list Z
}.

Record Server := {
  s_Name : string;
  s_Transport : string;
  s_Allowed : bool;
  s_AllowedDestinations : list string;
  s_DeniedDestinations : list string;
  s_WorkspaceRoot : string;
  s_Attestation : option ServerAttestation;
  s_Tools : list ToolRule
}.

Record Settings := {
  st_MaxArgumentSizeBytes : Z;
  st_MaxOutputSizeBytes : Z;
  st_SessionMaxTools : Z;
  st_SessionTimeoutSecs : Z;
  st_ApprovalTimeoutSecs : Z;
  st_MaxSpawnDepth : Z;
  st_ChainWindowSize : Z;
  st_LogLevel : string;
  st_CapabilityEval : bool;
  st_InstructionAuthorityContinuity : bool;
  st_InstructionAuthorityKeys : list (string * string);
  st_RequireVerifiedActor : bool
}.

Record ChainMatch := { cm_Server : string; cm_ToolPattern : string }.

Record ChainRule := {
  cr_Name : string;
  cr_Description : string;
  cr_Sources : list ChainMatch;
  cr_Sinks : list ChainMatch;
  cr_Action : Action;
  cr_WithinCalls : Z
}.

Record TaintRule := {
  ta_Name : string;
  ta_Description : string;
  ta_SourceServers : list string;
  ta_SourceTools : list string;
  ta_SourcePatterns : list string
}.

Record EgressControlRule := {
  ec_Name : string;
  ec_Description : string;
  ec_WhenTainted : string;
  ec_SinkServers : list string;
  ec_SinkTools : list string;
  ec_Action : Action;
  ec_Reason : string
}.

Record Identity := {
  id_Name : string;
  id_Description : string;
  id_AllowedServers : list string;
  id_AllowedTools : list string
}.

Record TimeWindow := {
  tw_Start : string;
  tw_End : string;
  tw_Timezone : string;
  tw_Days : list string
}.

Record TimeRestriction := {
  tx_Name : string;
  tx_Description : string;
  tx_Servers : list string;
  tx_Tools : list string;
  tx_AllowedHours : list TimeWindow;
  tx_DeniedDays : list string;
  tx_OutsideAction : Action
}.

Record RedactionPattern := {
  rp_Name : string;
  rp_Regex : string;
  rp_Replacement : string
}.

Record RedactionConfig := {
  rc_Patterns : list RedactionPattern;
  rc_OutputRedaction : bool;
  rc_OutputPatterns : list RedactionPattern;
  rc_SensitiveFiles : list string
}.

(** capability_ownership.go *)
Record CapabilityDecl := {
  cd_Tool : string;
  cd_EffectClass : string;
  cd_ScopeArgument : string
}.

Record OwnedEndpoint := {
  oe_Server : string;
  oe_Owner : string;
  oe_Capabilities : list CapabilityDecl
}.

Record ResourceScope := { rs_Argument : string; rs_ExactValues : list string }.

Record DelegationGrant := {
  dg_ID : string;
  dg_Owner : string;
  dg_Delegate : string;
  dg_Server : string;
  dg_Tool : string;
  dg_EffectClass : string;
  dg_ResourceScope : option ResourceScope;
  dg_IssuedAt : string;
  dg_ExpiresAt : string
}.

Record CapabilityOwnership := {
  co_Endpoints : list OwnedEndpoint;
  co_Delegations : list DelegationGrant
}.

Record IdentitySection := {
  is_Version : Z;
  is_Agents : list AgentIdentity;
  is_Grants : list AuthorityGrant
}.

Record Policy := {
  p_Version : string;
  p_Description : string;
  p_DefaultAction : Action;
  p_Settings : Settings;
  p_Servers : list Server;
  p_ToolChains : list ChainRule;
  p_Taints : list TaintRule;
  p_EgressControls : list EgressControlRule;
  p_Identities : list Identity;
  p_TimeRestrictions : list TimeRestriction;
  p_Redaction : RedactionConfig;
  p_CapabilityOwnership : option CapabilityOwnership;
  p_Identity : option IdentitySection;
  p_Trajectories : list Trajectory
}.

(** [policy.Decision]; [Lineage] is a pointer. *)
Record Decision := {
  d_Action : Action;
  d_Reason : string;
  d_Lineage : option Evidence
}.
Definition decision (a : Action) (reason : string) : Decision :=
  {| d_Action := a; d_Reason := reason; d_Lineage := None |}.
(** The zero [Decision{}]. *)
Definition zeroDecision : Decision := decision "" "".
