(* ===== verification/PolicyDefaults.v ===== *)
(** Policy defaults: [DefaultPolicy], the default redaction patterns and
    [SetDefaults] of [internal/policy/loader.go]. *)
From stdpp Require Import base strings list.
From Stdlib Require Import ZArith Ascii.
From S2P Require Import Prelude GoStrings Lineage PolicyTypes.
#[local] Open Scope Z_scope.

Definition pattern (name regex replacement : string) : RedactionPattern :=
  {| rp_Name := name; rp_Regex := regex; rp_Replacement := replacement |}.

Definition DefaultRedactionPatterns : list RedactionPattern := [
  pattern "openai_api_key" "sk-[a-zA-Z0-9_-]{20,}" "[REDACTED: OpenAI API Key]";
  pattern "github_token" "ghp_[a-zA-Z0-9]{36}" "[REDACTED: GitHub Token]";
  pattern "slack_token" "xox[baprs]-[a-zA-Z0-9-]+" "[REDACTED: Slack Token]";
  pattern "aws_key" "AKIA[0-9A-Z]{16}" "[REDACTED: AWS Access Key]";
  pattern "jwt_token" "eyJ[a-zA-Z0-9_-]+\.eyJ[a-zA-Z0-9_-]+\.[a-zA-Z0-9_-]+" "[REDACTED: JWT]";
  pattern "private_key" "-----BEGIN (RSA|EC|DSA|OPENSSH) PRIVATE KEY-----" "[REDACTED: Private Key]";
  pattern "connection_string" "(mongodb|postgresql|mysql|redis|jdbc)://[^:]+:[^@]+@[^\s]+"
    "[REDACTED: Connection String]";
  pattern "internal_ip"
    "(10\.\d{1,3}\.\d{1,3}\.\d{1,3}|172\.(1[6-9]|2\d|3[01])\.\d{1,3}\.\d{1,3}|192\.168\.\d{1,3}\.\d{1,3})"
    "[REDACTED: Internal IP]"].

Definition DefaultOutputRedactionPatterns : list RedactionPattern := [
  pattern "secrets_in_output"
    ("(password|secret|token|key|credential)\s*[:=]\s*[" +:+ String DQUOTE "']?([^" +:+
     String DQUOTE "'\s]+)[" +:+ String DQUOTE "']?")
    "$1=[REDACTED]"].

Definition DefaultPolicy : Policy := {|
  p_Version := "1.0"; p_Description := ""; p_DefaultAction := ActionDeny;
  p_Settings := {|
    st_MaxArgumentSizeBytes := 1048576; st_MaxOutputSizeBytes := 10485760;
    st_SessionMaxTools := 100; st_SessionTimeoutSecs := 3600; st_ApprovalTimeoutSecs := 300;
    st_MaxSpawnDepth := 0; st_ChainWindowSize := 10; st_LogLevel := "info";
    st_CapabilityEval := false; st_InstructionAuthorityContinuity := false;
    st_InstructionAuthorityKeys := []; st_RequireVerifiedActor := false |};
  p_Servers := []; p_ToolChains := []; p_Taints := []; p_EgressControls := [];
  p_Identities := []; p_TimeRestrictions := [];
  p_Redaction := {|
    rc_Patterns := DefaultRedactionPatterns; rc_OutputRedaction := true;
    rc_OutputPatterns := DefaultOutputRedactionPatterns;
    rc_SensitiveFiles := ["**/.env"; "**/.env.*"; "**/credentials"; "**/secrets";
      "**/.aws/credentials"; "**/.ssh/**"; "**/.docker/config.json"; "**/kubeconfig";
      "**/.npmrc"; "**/*.pem"; "**/*.key"] |};
  p_CapabilityOwnership := None; p_Identity := None; p_Trajectories := [] |}.

Definition SetDefaults (p : Policy) : Policy :=
  let s := p_Settings p in
  let or_default z d := if z =? 0 then d else z in
  {| p_Version := p_Version p; p_Description := p_Description p;
     p_DefaultAction := if p_DefaultAction p =s? "" then ActionDeny else p_DefaultAction p;
     p_Settings := {|
       st_MaxArgumentSizeBytes := or_default (st_MaxArgumentSizeBytes s) 1048576;
       st_MaxOutputSizeBytes := or_default (st_MaxOutputSizeBytes s) 10485760;
       st_SessionMaxTools := or_default (st_SessionMaxTools s) 100;
       st_SessionTimeoutSecs := or_default (st_SessionTimeoutSecs s) 3600;
       st_ApprovalTimeoutSecs := or_default (st_ApprovalTimeoutSecs s) 300;
       st_MaxSpawnDepth := st_MaxSpawnDepth s;
       st_ChainWindowSize := or_default (st_ChainWindowSize s) 10;
       st_LogLevel := if st_LogLevel s =s? "" then "info" else st_LogLevel s;
       st_CapabilityEval := st_CapabilityEval s;
       st_InstructionAuthorityContinuity := st_InstructionAuthorityContinuity s;
       st_InstructionAuthorityKeys := st_InstructionAuthorityKeys s;
       st_RequireVerifiedActor := st_RequireVerifiedActor s |};
     p_Servers := p_Servers p; p_ToolChains := p_ToolChains p; p_Taints := p_Taints p;
     p_EgressControls := p_EgressControls p; p_Identities := p_Identities p;
     p_TimeRestrictions := p_TimeRestrictions p; p_Redaction := p_Redaction p;
     p_CapabilityOwnership := p_CapabilityOwnership p; p_Identity := p_Identity p;
     p_Trajectories := p_Trajectories p |}.
