(* ===== verification/PolicyRegistry.v ===== *)
(** The policy registry, [internal/policy/registry.go]: servers and tools
    indexed by name.  Tools share one Go map keyed by ["server:tool"]. *)
From stdpp Require Import base strings gmap list.
From Stdlib Require Import ZArith Lia Ascii.
From S2P Require Import Prelude GoStrings PolicyTypes.

Definition toolKey (server tool : string) : string := server +:+ ":" +:+ tool.

Record Registry := {
  g_policy : Policy;
  g_serverMap : gmap string Server;
  g_toolMap : gmap string ToolRule
}.

Definition add_tools (srv : Server) (m : gmap string ToolRule) : gmap string ToolRule :=
  fold_left (fun m t => <[toolKey (s_Name srv) (t_Name t) := t]> m) (s_Tools srv) m.

Definition NewRegistry (p : Policy) : Registry :=
  {| g_policy := p;
     g_serverMap := fold_left (fun m s => <[s_Name s := s]> m) (p_Servers p) ∅;
     g_toolMap := fold_left (fun m s => add_tools s m) (p_Servers p) ∅ |}.

Definition reg_Server (r : Registry) (name : string) : option Server := g_serverMap r !! name.
Definition reg_Tool (r : Registry) (server tool : string) : option ToolRule :=
  g_toolMap r !! toolKey server tool.

Definition IsServerAllowed (r : Registry) (server : string) : bool :=
  match reg_Server r server with
  | None => p_DefaultAction (g_policy r) =s? ActionAllow
  | Some srv => s_Allowed srv
  end.

Definition IsToolAllowed (r : Registry) (server tool : string) : bool * bool :=
  match reg_Tool r server tool with
  | None => (p_DefaultAction (g_policy r) =s? ActionAllow, false)
  | Some t => (t_Allowed t, true)
  end.

(** [FindTool]: the first entry of the map, in one iteration order, whose
    tool part is [tool]. *)
Fixpoint find_tool (tool : string) (l : list (string * ToolRule)) : option (string * ToolRule) :=
  match l with
  | [] => None
  | (key, t) :: l =>
      match split_colon key with
      | Some (srv, name) => if name =s? tool then Some (srv, t) else find_tool tool l
      | None => find_tool tool l
      end
  end.
Definition FindTool (r : Registry) (tool : string) : option (string * ToolRule) :=
  find_tool tool (map_to_list (g_toolMap r)).

(** ** Correctness of the index *)

(** Server names are free of colons: what makes ["server:tool"] a key. *)
Definition no_colon (s : string) : Prop := all_bytes (fun c => negb (Ascii.eqb c ":"%char)) s = true.

Lemma toolKey_inj s s' t t' :
  no_colon s -> no_colon s' -> toolKey s t = toolKey s' t' -> s = s' /\ t = t'.
Proof.
  unfold no_colon, toolKey. revert s'. induction s as [|c s IH]; intros [|c' s']; simpl.
  - intros _ _ E. split; [done|]. by injection E.
  - intros _ ? E. by bools.
  - intros ? _ E. by bools.
  - intros [_ Hs]%andb_true_iff [_ Hs']%andb_true_iff E. injection E as <- E.
    by destruct (IH s' Hs Hs' E) as [-> ->].
Qed.

Lemma lookup_fold_insert {A} (key : A -> string) (l : list A) (m : gmap string A) k :
  fold_left (fun m x => <[key x := x]> m) l m !! k =
  match List.find (fun x => key x =s? k) (rev l) with
  | Some x => Some x
  | None => m !! k
  end.
Proof.
  revert m. induction l as [|x l IH]; intros m; cbn [fold_left rev]; [done|].
  rewrite IH. clear IH.
  induction (rev l) as [|y l' IHl]; cbn.
  - destruct (key x =s? k) eqn:E; bools; [by rewrite lookup_insert_eq|by rewrite lookup_insert_ne].
  - destruct (key y =s? k); [done|]. exact IHl.
Qed.

(** The tool map is one fold over all (server, tool) pairs in order. *)
Definition tool_pairs (p : Policy) : list (string * ToolRule) :=
  flat_map (fun s => map (fun t => (s_Name s, t)) (s_Tools s)) (p_Servers p).

Lemma toolMap_pairs_from (ss : list Server) (m : gmap string ToolRule) :
  fold_left (fun m s => add_tools s m) ss m =
  fold_left (fun m e => <[toolKey e.1 (t_Name e.2) := e.2]> m)
    (flat_map (fun s => map (fun t => (s_Name s, t)) (s_Tools s)) ss) m.
Proof.
  revert m. induction ss as [|s ss IH]; intros m; cbn; [done|].
  rewrite fold_left_app, IH. f_equal. unfold add_tools. generalize (s_Tools s) as ts. clear IH.
  intros ts. revert m. induction ts as [|t ts IH]; intros m; cbn; [done|]. by rewrite IH.
Qed.

Lemma lookup_fold_pairs (l : list (string * ToolRule)) (m : gmap string ToolRule) k :
  fold_left (fun m e => <[toolKey e.1 (t_Name e.2) := e.2]> m) l m !! k =
  match List.find (fun e => toolKey e.1 (t_Name e.2) =s? k) (rev l) with
  | Some e => Some e.2
  | None => m !! k
  end.
Proof.
  revert m. induction l as [|x l IH]; intros m; cbn [fold_left rev]; [done|].
  rewrite IH. clear IH. induction (rev l) as [|y l' IHl]; cbn -[toolKey].
  - destruct (_ =s? k) eqn:E; bools; [by rewrite lookup_insert_eq|by rewrite lookup_insert_ne].
  - destruct (_ =s? k); [done|]. exact IHl.
Qed.

(** What [Policy.Validate] guarantees of names, plus colon-free servers. *)
Record names_ok (p : Policy) : Prop := {
  no_servers : NoDup (s_Name <$> p_Servers p);
  no_tools s : In s (p_Servers p) -> NoDup (t_Name <$> s_Tools s);
  no_colons s : In s (p_Servers p) -> no_colon (s_Name s)
}.

Lemma find_rev_unique {A} (f : A -> bool) (l : list A) x :
  In x l -> f x = true -> (forall y, In y l -> f y = true -> y = x) ->
  List.find f (rev l) = Some x.
Proof.
  intros Hin Hf Hu. destruct (List.find f (rev l)) as [y|] eqn:E.
  - apply find_some in E as [Hy Hfy]. apply in_rev in Hy. by rewrite (Hu y).
  - apply in_rev in Hin. pose proof (find_none f _ E x Hin). congruence.
Qed.

(** On a policy with unique names and colon-free server names the
    registry is faithful: [Server] and [Tool] return exactly what the policy
    declares under that server and tool, and nothing for other names. *)
Theorem NewRegistry_faithful (p : Policy) :
  names_ok p ->
  (forall name srv, reg_Server (NewRegistry p) name = Some srv <->
     In srv (p_Servers p) /\ s_Name srv = name) /\
  (forall server tool t, no_colon server ->
     reg_Tool (NewRegistry p) server tool = Some t <->
     exists srv, In srv (p_Servers p) /\ s_Name srv = server /\
       In t (s_Tools srv) /\ t_Name t = tool).
Proof.
  intros [Hs Ht Hc].
  assert (forall a b, In a (p_Servers p) -> In b (p_Servers p) -> s_Name a = s_Name b -> a = b) as Hus.
  { intros a b Ha Hb. by eapply NoDup_fmap_inj. }
  split.
  - intros name srv. unfold reg_Server, NewRegistry; cbn [g_serverMap].
    rewrite lookup_fold_insert, lookup_empty. split.
    + destruct (List.find _ _) as [x|] eqn:E; [|done]. intros [= ->].
      apply find_some in E as [Hin E]. bools. by apply in_rev in Hin.
    + intros [Hin Hn]. rewrite (find_rev_unique _ _ srv); [done|done| |].
      * by rewrite Hn, str_eqb_refl.
      * intros y Hy E. bools. by apply Hus.
  - intros server tool t Hsc. unfold reg_Tool, NewRegistry; cbn [g_toolMap].
    rewrite toolMap_pairs_from, lookup_fold_pairs, lookup_empty.
    assert (forall e, In e (tool_pairs p) <->
      exists srv, In srv (p_Servers p) /\ s_Name srv = e.1 /\ In e.2 (s_Tools srv)) as Hpairs.
    { intros [n t']. unfold tool_pairs. rewrite in_flat_map. split.
      - intros (srv & Hin & Hm). apply in_map_iff in Hm as (t'' & [= <- <-] & ?). eauto.
      - intros (srv & Hin & Hn & Ht'). cbn in *. exists srv. split; [done|].
        apply in_map_iff. exists t'. by subst. }
    split.
    + destruct (List.find _ _) as [[n t']|] eqn:E; [|done]. intros [= <-].
      apply find_some in E as [Hin E]. bools. apply in_rev in Hin.
      apply Hpairs in Hin as (srv & Hsrv & Hn & Ht'). cbn in *.
      apply toolKey_inj in E as [-> ->]; [eauto| |done]. subst. by apply Hc.
    + intros (srv & Hin & Hn & Htin & Htn).
      rewrite (find_rev_unique _ (tool_pairs p) (server, t)); [done| | |].
      * apply Hpairs. eauto.
      * cbn. by rewrite Htn, str_eqb_refl.
      * intros [n t'] Hp E. bools. apply Hpairs in Hp as (srv' & Hin' & Hn' & Ht'). cbn in *.
        apply toolKey_inj in E as [-> E]; [|subst; by apply Hc|done].
        assert (srv' = srv) as -> by (apply Hus; [done..|congruence]).
        f_equal. eapply NoDup_fmap_inj; [by apply (Ht srv)|done..|congruence].
Qed.

(** Without that restriction the key is ambiguous: a call to tool
    ["b:t"] of server [a] is resolved to the rules of tool [t] of the server
    named ["a:b"], whatever the policy says about [a]. *)
Theorem toolKey_ambiguous (p : Policy) (a b t : string) :
  reg_Tool (NewRegistry p) a (b +:+ ":" +:+ t) = reg_Tool (NewRegistry p) (a +:+ ":" +:+ b) t.
Proof.
  unfold reg_Tool. f_equal. unfold toolKey.
  by rewrite !append_assoc.
Qed.

Module RegistryWitness.
Definition no_settings : Settings := {| st_MaxArgumentSizeBytes := 0; st_MaxOutputSizeBytes := 0;
  st_SessionMaxTools := 0; st_SessionTimeoutSecs := 0; st_ApprovalTimeoutSecs := 0;
  st_MaxSpawnDepth := 0; st_ChainWindowSize := 0; st_LogLevel := "info";
  st_CapabilityEval := false; st_InstructionAuthorityContinuity := false;
  st_InstructionAuthorityKeys := []; st_RequireVerifiedActor := false |}.
Definition no_redaction : RedactionConfig := {| rc_Patterns := []; rc_OutputRedaction := false;
  rc_OutputPatterns := []; rc_SensitiveFiles := [] |}.
Definition tool (name : string) (rules : list ArgRule) : ToolRule := {| t_Name := name;
  t_Allowed := true; t_Risk := ""; t_ApprovalRequired := false; t_Delegates := false;
  t_Rules := rules; t_RequiredScopes := [] |}.
Definition server (name : string) (tools : list ToolRule) : Server := {| s_Name := name;
  s_Transport := "stdio"; s_Allowed := true; s_AllowedDestinations := [];
  s_DeniedDestinations := []; s_WorkspaceRoot := ""; s_Attestation := None; s_Tools := tools |}.
Definition policy (servers : list Server) : Policy := {| p_Version := "1.0"; p_Description := "";
  p_DefaultAction := "deny"; p_Settings := no_settings; p_Servers := servers;
  p_ToolChains := []; p_Taints := []; p_EgressControls := []; p_Identities := [];
  p_TimeRestrictions := []; p_Redaction := no_redaction; p_CapabilityOwnership := None;
  p_Identity := None; p_Trajectories := [] |}.
Definition two : Policy :=
  policy [server "fs" [tool "read" []; tool "write" []]; server "net" [tool "read" []]].

Lemma two_names : names_ok two.
Proof.
  split.
  - apply (bool_decide_unpack _). by vm_compute.
  - intros s [<-|[<-|[]]]; apply (bool_decide_unpack _); by vm_compute.
  - intros s [<-|[<-|[]]]; by vm_compute.
Qed.
End RegistryWitness.

Lemma NewRegistry_faithful_witness :
  exists srv, In srv (p_Servers RegistryWitness.two) /\ s_Name srv = "net" /\
    In (RegistryWitness.tool "read" []) (s_Tools srv) /\
    t_Name (RegistryWitness.tool "read" []) = "read".
Proof.
  apply (proj2 (NewRegistry_faithful RegistryWitness.two RegistryWitness.two_names));
    vm_compute; reflexivity.
Defined.
