(* ===== verification/Slots.v ===== *)
(** Argument slots of the policy engine, [internal/policy/engine.go]: the
    [collect*Slots] functions read every argument whose key is, up to case,
    one of a class of aliases, and fail closed on a present alias that is
    not usable.  The functions of the source repeat one loop; [collect] is
    that loop, and each collector is its instance. *)
From stdpp Require Import base strings gmap list.
From Stdlib Require Import ZArith Lia Ascii.
From S2P Require Import Prelude GoStrings GoLib.
#[local] Open Scope Z_scope.

(** ** Alias classes *)

Definition recipientSlotKeys : list string := ["recipient"; "to"; "email"; "cc"; "bcc"].
Definition ownerSlotKeys : list string :=
  ["owner"; "user_id"; "userid"; "resource_owner"; "account_id"; "principal"].
Definition pathSlotKeys : list string :=
  ["path"; "file"; "file_path"; "filepath"; "absolute_path"; "absolutepath"].
Definition effectPathSlotKeys : list string :=
  ["path"; "file"; "file_path"; "filepath"; "absolute_path"; "absolutepath"; "target"; "dir";
   "directory"].
Definition destinationSlotKeys : list string :=
  ["url"; "uri"; "host"; "hostname"; "endpoint"; "dest"; "dest_host"; "destination"; "domain"].
Definition workingDirectorySlotKeys : list string :=
  ["cwd"; "working_directory"; "working_dir"; "workingdir"; "workdir"; "chdir"].
Definition secretSlotKeys : list string :=
  ["api_key"; "apikey"; "access_key"; "secret"; "password"; "credential"; "private_key"; "token";
   "new_key"].
Definition applicationSlotKeys : list string :=
  ["application"; "app"; "application_name"; "app_name"; "applicationname"; "appname"; "name"].
Definition skillSlotKeys : list string :=
  ["skill"; "skill_id"; "skill_name"; "skillname"; "skill_key"; "skill_slug"].
Definition permissionBypassSlotKeys : list string :=
  ["skip_permissions"; "skip_permission"; "skippermissions"; "dangerously_skip_permissions";
   "dangerouslyskippermissions"; "bypass_permissions"; "bypasspermissions"].
Definition executableSlotKeys : list string :=
  ["command"; "cmd"; "exec"; "binary"; "executable"; "stdio_command"; "stdiocommand";
   "server_command"; "servercommand"].

(** [pathShellMetacharacters]: semicolon, bar, ampersand, backquote, dollar,
    parentheses, angle brackets, LF, CR, NUL, both quotes and the hash. *)
Definition pathShellMetacharacters : string :=
  ";|&`$()<>" +:+ String LF (String CR (String NUL (String "'" (String DQUOTE "#")))).

(** ** Hosts *)

Definition destinationBoringScheme (s : string) : bool :=
  match s with
  | "" => false
  | String c s' =>
      (is_upper c || is_lower c) &&
      all_bytes (fun c => is_alnum c || Ascii.eqb c "+" || Ascii.eqb c "-" || Ascii.eqb c ".") s'
  end.

Definition destinationPortDigits (s : string) : bool := (s <>s? "") && all_bytes is_digit s.

Definition first_byte_is (c : ascii) (s : string) : bool :=
  match s with String d _ => Ascii.eqb d c | "" => false end.

Definition host_byte (c : ascii) : bool := is_alnum c || Ascii.eqb c "-" || Ascii.eqb c ".".

Definition destinationBoringHost (s : string) : bool :=
  if (s =s? "") || first_byte_is "." s || first_byte_is "-" s || last_byte_is "-" s then false
  else if negb (all_bytes host_byte s) then false
  else negb (Contains s "..").

(** The authority bytes that make a URL unparseable for [destinationHostname]. *)
Definition authority_bad : string :=
  String "@" (String BACKSLASH (String "%" (String " " (String TAB (String CR (String LF
    (String NUL ("[]<>" +:+ String DQUOTE "'`")))))))).

(** [v] after the [scheme://] prefix is removed; [None] is the early
    [return "", false]. *)
Definition strip_scheme (v : string) : option string :=
  match cut "://" v with
  | None => Some v
  | Some (scheme, rest) =>
      if (scheme =s? "") || negb (destinationBoringScheme scheme) then None else Some rest
  end.

(** The host of an authority [host[:port]]. *)
Definition strip_port (v : string) : option string :=
  match cut_last ":" v with
  | None => Some v
  | Some (host, port) =>
      if Contains host ":" then None
      else if negb (destinationPortDigits port) then None else Some host
  end.

Definition destinationHostname (raw : string) : option string :=
  let v := TrimSpace raw in
  if v =s? "" then None
  else match strip_scheme v with
  | None => None
  | Some v =>
      let v := take_until (byte_in "/?#") v in
      if (v =s? "") || ContainsAny v authority_bad then None
      else match strip_port v with
      | None => None
      | Some v =>
          let v := TrimSuffixByte "." v in
          if negb (destinationBoringHost v) then None else Some v
      end
  end.

Definition pathContainsShellGrammar (path : string) : bool :=
  ContainsAny path pathShellMetacharacters.

(** ** Collectors *)

(** [for key, val := range args { if !isKey(key) { continue } ... }]: [read]
    is what the body does with a value, an early return of its reason, a
    value to append, or nothing to append. *)
Fixpoint collect (isKey : string -> bool) (read : any -> result (option string))
    (args : list (string * any)) : result (list string) :=
  match args with
  | [] => Ok []
  | (key, val) :: rest =>
      if negb (isKey key) then collect isKey read rest
      else match read val with
      | Err reason => Err reason
      | Ok None => collect isKey read rest
      | Ok (Some s) => let? values := collect isKey read rest in Ok (s :: values)
      end
  end.

(** [if len(values) == 0 { return nil, reason }] *)
Definition at_least_one (reason : string) (values : list string) : result (list string) :=
  match values with [] => Err reason | _ => Ok values end.

Section slots.
Context `{GoUnicode}.

(** [for _, alias := range aliases { if strings.EqualFold(key, alias) ... }] *)
Definition isSlotKey (aliases : list string) (key : string) : bool :=
  existsb (fun alias => EqualFold key alias) aliases.

Definition isDestinationSlotKey : string -> bool := isSlotKey destinationSlotKeys.
Definition isWorkingDirectorySlotKey : string -> bool := isSlotKey workingDirectorySlotKeys.
Definition isSecretSlotKey : string -> bool := isSlotKey secretSlotKeys.
Definition isApplicationSlotKey : string -> bool := isSlotKey applicationSlotKeys.
Definition isSkillSlotKey : string -> bool := isSlotKey skillSlotKeys.
Definition isPermissionBypassSlotKey : string -> bool := isSlotKey permissionBypassSlotKeys.
Definition isExecutableSlotKey : string -> bool := isSlotKey executableSlotKeys.
Definition isOwnerSlotKey : string -> bool := isSlotKey ownerSlotKeys.
Definition isRecipientSlotKey : string -> bool := isSlotKey recipientSlotKeys.
Definition isEffectPathSlotKey : string -> bool := isSlotKey effectPathSlotKeys.
Definition isPathSlotKey : string -> bool := isSlotKey pathSlotKeys.

(** [s, isString := val.(string); if !isString || strings.TrimSpace(s) == ""] *)
Definition read_nonblank (reason : string) (val : any) : result (option string) :=
  match val with
  | AString s => if TrimSpace s =s? "" then Err reason else Ok (Some s)
  | _ => Err reason
  end.

(** [s, isString := val.(string); if !isString || s == ""] *)
Definition read_nonempty (reason : string) (val : any) : result (option string) :=
  match val with
  | AString s => if s =s? "" then Err reason else Ok (Some s)
  | _ => Err reason
  end.

(** The string test, then [host, ok := destinationHostname(s)]. *)
Definition read_host (reason : string) (val : any) : result (option string) :=
  match val with
  | AString s =>
      match destinationHostname s with
      | Some host => Ok (Some host)
      | None => Err reason
      end
  | _ => Err reason
  end.

Definition permissionBypassExplicitlyOff (s : string) : bool :=
  let l := ToLower s in
  (l =s? "false") || (l =s? "0") || (l =s? "no") || (l =s? "off").

Definition permissionBypassWeakens (val : any) : result bool :=
  match val with
  | ABool v => Ok v
  | AString v =>
      let s := TrimSpace v in
      if s =s? "" then Err "permission bypass is required"
      else if permissionBypassExplicitlyOff s then Ok false else Ok true
  | _ => Err "permission bypass is required"
  end.

Definition read_bypass (val : any) : result (option string) :=
  let? weakens := permissionBypassWeakens val in
  Ok (if weakens then Some "bypass" else None).

Definition collectDestinationSlots (a : args) : result (list string) :=
  match a with
  | None => Err "destination is required"
  | Some args =>
      let? values := collect isDestinationSlotKey (read_host "destination is required") args in
      at_least_one "destination is required" values
  end.

Definition collectWorkingDirectorySlots (a : args) : result (list string) :=
  match a with
  | None => Err "working directory is required"
  | Some args =>
      let? values := collect isWorkingDirectorySlotKey
                       (read_nonblank "working directory is required") args in
      at_least_one "working directory is required" values
  end.

Definition collectPresentSecretSlots (a : args) : result (list string) :=
  match a with
  | None => Ok []
  | Some args => collect isSecretSlotKey (read_nonblank "credential is required") args
  end.

Definition collectApplicationSlots (a : args) : result (list string) :=
  match a with
  | None => Err "application is required"
  | Some args =>
      let? values := collect isApplicationSlotKey (read_nonblank "application is required") args in
      at_least_one "application is required" values
  end.

Definition collectSkillSlots (a : args) : result (list string) :=
  match a with
  | None => Err "skill is required"
  | Some args =>
      let? values := collect isSkillSlotKey (read_nonblank "skill is required") args in
      at_least_one "skill is required" values
  end.

Definition collectPresentPermissionBypassSlots (a : args) : result (list string) :=
  match a with
  | None => Ok []
  | Some args => collect isPermissionBypassSlotKey read_bypass args
  end.

Definition collectOptionalExecutableSlots (a : args) : result (list string) :=
  match a with
  | None => Ok []
  | Some args => collect isExecutableSlotKey (read_nonempty "executable is required") args
  end.

Definition collectOptionalActivationDestinationSlots (a : args) : result (list string) :=
  match a with
  | None => Ok []
  | Some args => collect isDestinationSlotKey (read_host "destination is required") args
  end.

Definition collectOwnerSlots (a : args) : result (list string) :=
  match a with
  | None => Err "resource owner is required"
  | Some args =>
      let? values := collect isOwnerSlotKey (read_nonblank "resource owner is required") args in
      at_least_one "resource owner is required" values
  end.

Definition collectEffectPathSlots (a : args) : result (list string) :=
  match a with
  | None => Err "effect path is required"
  | Some args =>
      let? values := collect isEffectPathSlotKey (read_nonblank "effect path is required") args in
      at_least_one "effect path is required" values
  end.

Definition collectPathSlots (a : args) : result (list string) :=
  match a with
  | None => Err "path is required"
  | Some args =>
      let? values := collect isPathSlotKey (read_nonblank "path is required") args in
      at_least_one "path is required" values
  end.

Definition collectRecipientSlots (a : args) : result (list string) :=
  match a with
  | None => Err "recipient is required"
  | Some args =>
      let? values := collect isRecipientSlotKey (read_nonblank "recipient is required") args in
      at_least_one "recipient is required" values
  end.

(** ** Allowlists *)

Definition recipientAllowlistConfigured (patterns : list string) : bool :=
  existsb (fun pattern => TrimSpace pattern <>s? "") patterns.

Definition recipientInAllowlist (patterns : list string) (recipient : string) : bool :=
  let got := TrimSpace recipient in
  if got =s? "" then false
  else existsb (fun pattern => EqualFold (TrimSpace pattern) got) patterns.

Definition executableInAllowlist (patterns : list string) (executable : string) : bool :=
  if executable =s? "" then false
  else existsb (fun pattern => pattern =s? executable) patterns.

(** ** Reading one argument by the first usable key *)

Fixpoint getStringArg (m : list (string * any)) (keys : list string) : option string :=
  match keys with
  | [] => None
  | key :: keys' =>
      match assoc key m with
      | Some (AString s) => Some s
      | _ => getStringArg m keys'
      end
  end.

(** The type switch of [getSizeArg] and [getRowsArg]; [int64] is Go's [int]
    on the 64-bit targets. *)
Definition int_of_any `{GoArch} (val : any) : option Z :=
  match val with
  | AFloat64 v => Some (int_of_float64 v)
  | AInt v => Some v
  | AInt64 v => Some v
  | _ => None
  end.

Fixpoint first_int_arg `{GoArch} (m : list (string * any)) (keys : list string) : Z :=
  match keys with
  | [] => 0
  | key :: keys' =>
      match assoc key m ≫= int_of_any with
      | Some n => n
      | None => first_int_arg m keys'
      end
  end.

Definition getSizeArg `{GoArch} (m : list (string * any)) : Z :=
  first_int_arg m ["size"; "content_length"; "file_size"].
Definition getRowsArg `{GoArch} (m : list (string * any)) : Z :=
  first_int_arg m ["limit"; "rows"; "count"; "max_results"].

(** ** Globs *)

Definition globToRegexString (pattern : string) : string :=
  let s := QuoteMeta pattern in
  let s := ReplaceAll s (String BACKSLASH ("*" +:+ String BACKSLASH "*")) ".*" in
  let s := ReplaceAll s (String BACKSLASH "*") "[^/]*" in
  "(?i)^" +:+ s +:+ "$".

Definition matchesGlob `{GoPatterns} (pattern value : string) : bool :=
  if Contains pattern "**" then matched (regexp_MatchString (globToRegexString pattern) value)
  else if matched (filepath_Match pattern value) then true
  else matched (filepath_Match (ToLower pattern) (ToLower value)).

Definition matchesAnyPattern `{GoPatterns} (patterns : list string) (value : string) : bool :=
  existsb (fun pattern => matchesGlob pattern value) patterns.
End slots.

(** ** Collectors as functions of the set of arguments

    Go visits a map in an unspecified order.  Two runs of a collector on the
    same map agree up to the order of the collected values. *)
Inductive result_perm : result (list string) -> result (list string) -> Prop :=
| perm_Ok l l' : Permutation l l' -> result_perm (Ok l) (Ok l')
| perm_Err e : result_perm (Err e) (Err e).

#[export] Instance result_perm_equiv : Equivalence result_perm.
Proof.
  split.
  - intros [l|e]; by constructor.
  - intros ?? [l l' P|e]; by constructor.
  - intros ??? [l l' P|e] Q; inversion Q; subst; constructor. by etrans.
Qed.

#[export] Instance at_least_one_perm reason :
  Proper (Permutation ==> result_perm) (at_least_one reason).
Proof.
  intros l l' P. destruct l as [|x l].
  - apply Permutation_nil in P as ->. constructor.
  - destruct l' as [|y l']; [by apply Permutation_sym, Permutation_nil in P|]. by constructor.
Qed.

Lemma result_perm_bind f r r' :
  Proper (Permutation ==> result_perm) f ->
  result_perm r r' -> result_perm (result_bind r f) (result_bind r' f).
Proof. intros Hf [l l' P|e]; cbn; [by apply Hf|constructor]. Qed.

(** A collector has one reason for every early return. *)
Definition one_reason (read : any -> result (option string)) (reason : string) : Prop :=
  forall v e, read v = Err e -> e = reason.

Create HintDb slots.
#[export] Hint Constants Opaque : slots.

Lemma collect_perm isKey read reason m m' :
  one_reason read reason -> Permutation m m' ->
  result_perm (collect isKey read m) (collect isKey read m').
Proof.
  intros Hr. induction 1 as [|[k v] l l' P IH|[k v] [k' v'] l|l1 l2 l3 ? IH1 ? IH2].
  - done.
  - cbn. destruct (isKey k); cbn; [|done].
    destruct (read v) as [[s|]|]; [|done|constructor].
    apply result_perm_bind; [|done]. intros ?? Q. constructor. by rewrite Q.
  - cbn. destruct (isKey k), (isKey k'); cbn; try reflexivity.
    destruct (read v) as [o|e] eqn:E, (read v') as [o'|e'] eqn:E'; cbn.
    + destruct o, o'; cbn; try reflexivity.
      destruct (collect isKey read l); cbn; constructor. constructor.
    + rewrite (Hr _ _ E'). destruct o; [cbn|]; reflexivity.
    + rewrite (Hr _ _ E). destruct o'; [cbn|]; reflexivity.
    + rewrite (Hr _ _ E), (Hr _ _ E'). reflexivity.
  - by etrans.
Qed.

(** What a successful run saw: every value under an alias was readable, and
    what was collected is what was read. *)
Lemma collect_all isKey read m (P : string -> Prop) :
  (exists l, collect isKey read m = Ok l /\ Forall P l) <->
  (forall k v, In (k, v) m -> isKey k = true ->
     exists o, read v = Ok o /\ forall s, o = Some s -> P s).
Proof.
  induction m as [|[k v] m IH]; cbn.
  { split; [intros _ ?? []|by exists []]. }
  assert ((isKey k = false \/ (exists o, read v = Ok o /\ forall s, o = Some s -> P s)) ->
    (forall k' v', (k, v) = (k', v') \/ In (k', v') m -> isKey k' = true ->
      exists o, read v' = Ok o /\ forall s, o = Some s -> P s) <->
    (forall k' v', In (k', v') m -> isKey k' = true ->
      exists o, read v' = Ok o /\ forall s, o = Some s -> P s)) as Hcons.
  { intros Hk. split; [eauto|]. intros Hall k' v' [[= <- <-]|Hin] Hk'; [|eauto].
    destruct Hk; [congruence|done]. }
  destruct (isKey k) eqn:Ek; cbn.
  - destruct (read v) as [[s|]|e] eqn:Ev.
    + split.
      * intros (l & E & HP). destruct (collect isKey read m) as [l'|] eqn:El; [|done].
        cbn in E. simplify_eq. apply Forall_cons in HP as [Hs HP].
        intros k' v' [[= <- <-]|Hin] Hk'; [exists (Some s); naive_solver|].
        eapply (proj1 IH); eauto.
      * intros Hall. destruct (Hall k v) as (o & Eo & Hs); [by left|done|]. rewrite Ev in Eo. simplify_eq.
        destruct (proj2 IH) as (l & El & HP); [eauto|]. exists (s :: l). rewrite El.
        split; [done|]. constructor; auto.
    + rewrite Hcons; [done|]. right. by exists None.
    + split; [by intros (? & ? & ?)|]. intros Hall.
      destruct (Hall k v) as (o & Eo & _); [by left|done|congruence].
  - rewrite Hcons; [done|by left].
Qed.

Lemma collect_nonempty isKey read m l :
  collect isKey read m = Ok l ->
  l <> [] <-> exists k v s, In (k, v) m /\ isKey k = true /\ read v = Ok (Some s).
Proof.
  revert l. induction m as [|[k v] m IH]; cbn; intros l.
  { intros [= <-]. split; [done|]. by intros (? & ? & ? & [] & _). }
  destruct (isKey k) eqn:Ek; cbn; [destruct (read v) as [[s|]|e] eqn:Ev|].
  - destruct (collect isKey read m); cbn; [|done]. intros [= <-].
    split; [|done]. intros _. exists k, v, s. auto.
  - intros E. rewrite (IH _ E). split; [naive_solver|].
    intros (k' & v' & s & [[= -> ->]|Hin] & Hk & Hr); [congruence|eauto 6].
  - done.
  - intros E. rewrite (IH _ E). split; [naive_solver|].
    intros (k' & v' & s & [[= -> ->]|Hin] & Hk & Hr); [congruence|eauto 6].
Qed.

Section slot_lemmas.
Context `{GoUnicode}.

Lemma one_reason_nonblank reason : one_reason (read_nonblank reason) reason.
Proof. intros []; cbn; try congruence. destruct (_ =? _)%string; congruence. Qed.
Lemma one_reason_nonempty reason : one_reason (read_nonempty reason) reason.
Proof. intros []; cbn; try congruence. destruct (_ =? _)%string; congruence. Qed.
Lemma one_reason_host reason : one_reason (read_host reason) reason.
Proof. intros []; cbn; try congruence. destruct (destinationHostname s); congruence. Qed.
Lemma one_reason_bypass : one_reason read_bypass "permission bypass is required".
Proof.
  unfold read_bypass. intros []; cbn; try congruence. destruct (_ =? _)%string; cbn; [congruence|].
  destruct (permissionBypassExplicitlyOff _); cbn; congruence.
Qed.
#[local] Hint Resolve one_reason_nonblank one_reason_nonempty one_reason_host
  one_reason_bypass : slots.

(** Every collector is [collect], alone or followed by [at_least_one]. *)
Ltac collector_perm :=
  intros ? ? ?; cbn;
  first [ apply result_perm_bind; [apply at_least_one_perm|]; eapply collect_perm
        | eapply collect_perm ]; [eauto with slots|done].

Lemma collectDestinationSlots_perm m m' : Permutation m m' ->
  result_perm (collectDestinationSlots (Some m)) (collectDestinationSlots (Some m')).
Proof. revert m m'. collector_perm. Qed.
Lemma collectWorkingDirectorySlots_perm m m' : Permutation m m' ->
  result_perm (collectWorkingDirectorySlots (Some m)) (collectWorkingDirectorySlots (Some m')).
Proof. revert m m'. collector_perm. Qed.
Lemma collectPresentSecretSlots_perm m m' : Permutation m m' ->
  result_perm (collectPresentSecretSlots (Some m)) (collectPresentSecretSlots (Some m')).
Proof. revert m m'. collector_perm. Qed.
Lemma collectApplicationSlots_perm m m' : Permutation m m' ->
  result_perm (collectApplicationSlots (Some m)) (collectApplicationSlots (Some m')).
Proof. revert m m'. collector_perm. Qed.
Lemma collectSkillSlots_perm m m' : Permutation m m' ->
  result_perm (collectSkillSlots (Some m)) (collectSkillSlots (Some m')).
Proof. revert m m'. collector_perm. Qed.
Lemma collectPresentPermissionBypassSlots_perm m m' : Permutation m m' ->
  result_perm (collectPresentPermissionBypassSlots (Some m))
    (collectPresentPermissionBypassSlots (Some m')).
Proof. revert m m'. collector_perm. Qed.
Lemma collectOptionalExecutableSlots_perm m m' : Permutation m m' ->
  result_perm (collectOptionalExecutableSlots (Some m)) (collectOptionalExecutableSlots (Some m')).
Proof. revert m m'. collector_perm. Qed.
Lemma collectOptionalActivationDestinationSlots_perm m m' : Permutation m m' ->
  result_perm (collectOptionalActivationDestinationSlots (Some m))
    (collectOptionalActivationDestinationSlots (Some m')).
Proof. revert m m'. collector_perm. Qed.
Lemma collectOwnerSlots_perm m m' : Permutation m m' ->
  result_perm (collectOwnerSlots (Some m)) (collectOwnerSlots (Some m')).
Proof. revert m m'. collector_perm. Qed.
Lemma collectEffectPathSlots_perm m m' : Permutation m m' ->
  result_perm (collectEffectPathSlots (Some m)) (collectEffectPathSlots (Some m')).
Proof. revert m m'. collector_perm. Qed.
Lemma collectPathSlots_perm m m' : Permutation m m' ->
  result_perm (collectPathSlots (Some m)) (collectPathSlots (Some m')).
Proof. revert m m'. collector_perm. Qed.
Lemma collectRecipientSlots_perm m m' : Permutation m m' ->
  result_perm (collectRecipientSlots (Some m)) (collectRecipientSlots (Some m')).
Proof. revert m m'. collector_perm. Qed.

Lemma getStringArg_perm m m' keys :
  map_ok m -> Permutation m m' -> getStringArg m keys = getStringArg m' keys.
Proof.
  intros Hm P. induction keys as [|k keys IH]; cbn; [done|]. by rewrite (assoc_perm k m m'), IH.
Qed.

Lemma first_int_arg_perm `{GoArch} m m' keys :
  map_ok m -> Permutation m m' -> first_int_arg m keys = first_int_arg m' keys.
Proof.
  intros Hm P. induction keys as [|k keys IH]; cbn; [done|]. by rewrite (assoc_perm k m m'), IH.
Qed.

(** A collector that needs at least one value, against a check of each. *)
Lemma collect_required isKey read reason m (P : string -> bool) :
  (forall v, read v <> Ok None) ->
  (exists l, (let? values := collect isKey read m in at_least_one reason values) = Ok l /\
     forallb P l = true) <->
  (exists k v, In (k, v) m /\ isKey k = true) /\
  (forall k v, In (k, v) m -> isKey k = true -> exists s, read v = Ok (Some s) /\ P s = true).
Proof.
  intros Hread.
  assert ((forall k v, In (k, v) m -> isKey k = true -> exists s, read v = Ok (Some s) /\ P s = true) <->
    exists l, collect isKey read m = Ok l /\ Forall (fun s => P s = true) l) as ->.
  { rewrite collect_all. split; intros Hall k v Hin Hk; destruct (Hall k v Hin Hk) as (o & E & Ho).
    - exists (Some o). naive_solver.
    - destruct o as [s|]; [|by apply Hread in E]. eauto. }
  split.
  - intros (l & E & HP). destruct (collect isKey read m) as [l'|] eqn:Ec; [|done]. cbn in E.
    assert (l' = l /\ l' <> []) as [-> Hl] by (destruct l'; naive_solver).
    split.
    + apply (collect_nonempty _ _ _ _ Ec) in Hl as (k & v & s & ?). naive_solver.
    + exists l. split; [done|]. apply Forall_forall. intros s Hs%list_elem_of_In.
      rewrite forallb_forall in HP. auto.
  - intros [(k & v & Hin & Hk) (l & E & HP)]. rewrite E. cbn. exists l.
    destruct (proj1 (collect_all isKey read m (fun s => P s = true)) ltac:(eauto) k v Hin Hk)
      as ([s|] & Ev & _); [|by apply Hread in Ev].
    assert (l <> []) as Hl by (apply (collect_nonempty _ _ _ _ E); eauto 6).
    split; [by destruct l|]. apply forallb_forall. rewrite Forall_forall in HP.
    intros x Hx. apply HP. by apply list_elem_of_In.
Qed.

Lemma read_nonblank_Some reason v s :
  read_nonblank reason v = Ok (Some s) <-> v = AString s /\ TrimSpace s <> "".
Proof.
  destruct v; cbn; try naive_solver. destruct (_ =? _)%string eqn:E; bools; naive_solver.
Qed.
Lemma read_nonempty_Some reason v s :
  read_nonempty reason v = Ok (Some s) <-> v = AString s /\ s <> "".
Proof.
  destruct v; cbn; try naive_solver. destruct (_ =? _)%string eqn:E; bools; naive_solver.
Qed.
Lemma read_host_Some reason v h :
  read_host reason v = Ok (Some h) <-> exists s, v = AString s /\ destinationHostname s = Some h.
Proof.
  destruct v; cbn; try naive_solver. destruct (destinationHostname s) eqn:E; naive_solver.
Qed.
Lemma read_nonblank_not_None reason v : read_nonblank reason v <> Ok None.
Proof. destruct v; cbn; try done. by destruct (_ =? _)%string. Qed.
Lemma read_nonempty_not_None reason v : read_nonempty reason v <> Ok None.
Proof. destruct v; cbn; try done. by destruct (_ =? _)%string. Qed.
Lemma read_host_not_None reason v : read_host reason v <> Ok None.
Proof. destruct v; cbn; try done. by destruct (destinationHostname s). Qed.
End slot_lemmas.
#[export] Hint Resolve collectDestinationSlots_perm collectWorkingDirectorySlots_perm
  collectPresentSecretSlots_perm collectApplicationSlots_perm collectSkillSlots_perm
  collectPresentPermissionBypassSlots_perm collectOptionalExecutableSlots_perm
  collectOptionalActivationDestinationSlots_perm collectOwnerSlots_perm
  collectEffectPathSlots_perm collectPathSlots_perm collectRecipientSlots_perm
  read_nonblank_not_None read_nonempty_not_None read_host_not_None : slots.
