(* ===== verification/Hostname.v ===== *)
(** The host a destination argument names: [destinationHostname] of
    [internal/policy/engine.go] against the grammar it accepts. *)
From stdpp Require Import base strings list.
From Stdlib Require Import ZArith Lia Ascii.
From S2P Require Import Prelude GoStrings GoLib Slots.

(** ** The grammar

    [scheme://host[.][:port][rest]], or the same without the scheme in a
    string without ["://"]; [rest] starts with [/], [?] or [#]. *)
Definition destination_of (v h : string) : Prop :=
  exists pre dot port rest,
    v = pre +:+ ((h +:+ dot +:+ port) +:+ rest) /\
    (pre = "" /\ Contains v "://" = false \/
     exists scheme, destinationBoringScheme scheme = true /\ pre = scheme +:+ "://") /\
    (dot = "." \/ dot = "" /\ last_byte_is "." h = false) /\
    (port = "" \/ exists ds, destinationPortDigits ds = true /\ port = String ":" ds) /\
    (rest = "" \/ exists c r, rest = String c r /\ byte_in "/?#" c = true) /\
    destinationBoringHost h = true.

(** ** Substring functions *)

Lemma take_until_split p s :
  exists rest, s = take_until p s +:+ rest /\
    all_bytes (fun c => negb (p c)) (take_until p s) = true /\
    (rest = "" \/ exists c r, rest = String c r /\ p c = true).
Proof.
  induction s as [|c s (rest & IH & Ha & Hr)]; simpl; [exists ""; auto|].
  destruct (p c) eqn:E.
  - exists (String c s). split; [done|]. split; [done|]. right. by exists c, s.
  - exists rest. split; [|simpl; by rewrite E, Ha].
    change (String c s = String c (take_until p s +:+ rest)). by rewrite <-IH.
Qed.

Lemma take_until_app p u rest :
  all_bytes (fun c => negb (p c)) u = true ->
  (rest = "" \/ exists c r, rest = String c r /\ p c = true) ->
  take_until p (u +:+ rest) = u.
Proof.
  intros Hu Hr. induction u as [|c u IH]; simpl in *.
  - destruct Hr as [->|(c & r & -> & Hc)]; [done|]. simpl. by rewrite Hc.
  - bools. rewrite H. by rewrite IH.
Qed.

Lemma cut_app_fresh a sep u v :
  any_byte (Ascii.eqb a) u = false ->
  cut (String a sep) (u +:+ String a sep +:+ v) = Some (u, v).
Proof.
  intros Hu. induction u as [|c u IH].
  - change ("" +:+ String a sep +:+ v) with (String a sep +:+ v).
    destruct (String a sep +:+ v) eqn:E; [done|]. cbn [cut]. rewrite <-E.
    rewrite (proj2 (HasPrefix_spec _ _)) by eauto. by rewrite drop_bytes_app.
  - change (String c u +:+ String a sep +:+ v) with (String c (u +:+ String a sep +:+ v)).
    simpl in Hu. apply orb_false_iff in Hu as [Hc Hu]. cbn [cut HasPrefix].
    rewrite Hc. cbn [andb]. by rewrite IH.
Qed.

Lemma TrimSuffixByte_app c u : TrimSuffixByte c (u +:+ String c "") = u.
Proof.
  induction u as [|d u IH]; simpl; [by rewrite (proj2 (Ascii.eqb_eq c c))|].
  change (String d u +:+ String c "") with (String d (u +:+ String c "")).
  destruct (u +:+ String c "") as [|e t] eqn:E; [by destruct u|].
  change (String d (TrimSuffixByte c (String e t)) = String d u). by rewrite IH.
Qed.

Lemma TrimSuffixByte_none c u : last_byte_is c u = false -> TrimSuffixByte c u = u.
Proof.
  induction u as [|d u IH]; simpl; [done|]. destruct u; [by intros ->|]. intros E. by rewrite IH.
Qed.

Lemma TrimSuffixByte_cases c u :
  u = TrimSuffixByte c u +:+ String c "" \/ u = TrimSuffixByte c u /\ last_byte_is c u = false.
Proof.
  induction u as [|d u IH]; [by right|]. destruct u as [|e u].
  - simpl. destruct (Ascii.eqb c d) eqn:E; [|by right]. apply Ascii.eqb_eq in E as ->. by left.
  - destruct IH as [IH|[IH Hl]]; [left|right].
    + change (String d (String e u) = String d (TrimSuffixByte c (String e u) +:+ String c "")).
      by rewrite <-IH.
    + change (String d (String e u) = String d (TrimSuffixByte c (String e u)) /\
        last_byte_is c (String e u) = false). by rewrite <-IH.
Qed.

Lemma cut_None_Contains sep s : cut sep s = None <-> Contains s sep = false.
Proof. unfold Contains. by destruct (cut sep s) as [[]|]. Qed.

Lemma all_any_disjoint (p q : ascii -> bool) s :
  (forall c, p c = true -> q c = false) -> all_bytes p s = true -> any_byte q s = false.
Proof.
  intros Hpq Hs. rewrite any_byte_all, (all_bytes_impl p); [done| |done].
  intros c Hc. by rewrite Hpq.
Qed.

Lemma Contains_one c s : Contains s (String c "") = any_byte (Ascii.eqb c) s.
Proof.
  apply eq_true_iff_eq. unfold Contains.
  destruct (cut (String c "") s) as [[u v]|] eqn:E.
  - apply cut_Some in E as ->. rewrite any_byte_app. simpl.
    by rewrite (proj2 (Ascii.eqb_eq c c)), orb_true_r.
  - split; [done|]. induction s as [|d s IH]; [done|]. cbn in *.
    destruct (Ascii.eqb c d); cbn in *; [done|].
    destruct (cut (String c "") s) as [[]|]; [done|auto].
Qed.

(** ** Byte classes, decided by enumeration *)

Definition all_ascii (p : ascii -> bool) : bool :=
  forallb (fun n => p (ascii_of_nat n)) (seq 0 256).
Lemma all_ascii_spec p : all_ascii p = true -> forall c, p c = true.
Proof.
  unfold all_ascii. rewrite forallb_forall. intros Hp c.
  rewrite <-(ascii_nat_embedding c). apply Hp. apply in_seq.
  pose proof (nat_ascii_bounded c). lia.
Qed.
Lemma class_impl (p q : ascii -> bool) :
  all_ascii (fun c => implb (p c) (q c)) = true -> forall c, p c = true -> q c = true.
Proof. intros Ha c Hp. pose proof (all_ascii_spec _ Ha c) as Hc. cbn in Hc. by rewrite Hp in Hc. Qed.

(** The bytes of an accepted authority. *)
Definition authority_byte (c : ascii) : bool := host_byte c || Ascii.eqb c ":".
Lemma authority_ok c : authority_byte c = true ->
  negb (byte_in "/?#" c) && negb (byte_in authority_bad c) = true.
Proof.
  revert c. apply (class_impl authority_byte
    (fun c => negb (byte_in "/?#" c) && negb (byte_in authority_bad c))). by vm_compute.
Qed.
Lemma host_authority c : host_byte c = true -> authority_byte c = true.
Proof. revert c. apply class_impl. by vm_compute. Qed.
Lemma digit_authority c : is_digit c = true -> authority_byte c = true.
Proof. revert c. apply class_impl. by vm_compute. Qed.

Lemma class_disjoint (p q : ascii -> bool) :
  all_ascii (fun c => implb (p c) (negb (q c))) = true -> forall c, p c = true -> q c = false.
Proof.
  intros Ha c Hp. pose proof (all_ascii_spec _ Ha c) as Hc. cbn in Hc. rewrite Hp in Hc.
  by apply negb_true_iff.
Qed.
Lemma host_no_colon c : host_byte c = true -> Ascii.eqb ":" c = false.
Proof. revert c. apply class_disjoint. by vm_compute. Qed.
Lemma digit_no_colon c : is_digit c = true -> Ascii.eqb ":" c = false.
Proof. revert c. apply class_disjoint. by vm_compute. Qed.

Lemma scheme_no_colon s : destinationBoringScheme s = true -> any_byte (Ascii.eqb ":") s = false.
Proof.
  destruct s as [|c s]; [done|]. cbn [destinationBoringScheme]. intros Hs.
  apply andb_true_iff in Hs as [Hc Hs]. cbn [any_byte]. apply orb_false_iff. split.
  - clear Hs. revert c Hc.
    apply (class_disjoint (fun c => is_upper c || is_lower c)). by vm_compute.
  - revert Hs. apply all_any_disjoint, class_disjoint. by vm_compute.
Qed.

Lemma boring_host_bytes h : destinationBoringHost h = true -> all_bytes host_byte h = true /\ h <> "".
Proof.
  unfold destinationBoringHost. destruct (_ || _) eqn:E; [done|].
  destruct (all_bytes host_byte h) eqn:Ha; [|done]. intros _. split; [done|].
  intros ->. done.
Qed.

(** ** Stages *)

Lemma strip_scheme_Some v v1 :
  strip_scheme v = Some v1 <->
  exists pre, v = pre +:+ v1 /\
    (pre = "" /\ Contains v "://" = false \/
     exists scheme, destinationBoringScheme scheme = true /\ pre = scheme +:+ "://").
Proof.
  unfold strip_scheme. split.
  - destruct (cut "://" v) as [[s r]|] eqn:E.
    + destruct (_ || _) eqn:Eb; [done|]. intros [= ->]. bools. apply cut_Some in E as ->.
      exists (s +:+ "://"). split; [by rewrite append_assoc|]. eauto.
    + intros [= ->]. apply cut_None_Contains in E. exists "". auto.
  - intros (pre & -> & [[-> Hn]|(s & Hs & ->)]).
    + apply cut_None_Contains in Hn. simpl in Hn. by rewrite Hn.
    + rewrite append_assoc. rewrite cut_app_fresh by by apply scheme_no_colon.
      rewrite Hs. cbn [negb]. by destruct s.
Qed.

Lemma strip_port_Some v h :
  strip_port v = Some h <->
  exists port, v = h +:+ port /\ any_byte (Ascii.eqb ":") h = false /\
    (port = "" \/ exists ds, destinationPortDigits ds = true /\ port = String ":" ds).
Proof.
  unfold strip_port. split.
  - destruct (cut_last ":" v) as [[u p]|] eqn:E.
    + destruct (Contains u ":") eqn:Ec; [done|]. destruct (destinationPortDigits p) eqn:Ep; [|done].
      intros [= <-]. apply cut_last_Some in E as ->. rewrite Contains_one in Ec.
      exists (String ":" p). split; [done|]. split; [done|]. right. by exists p.
    + intros [= <-]. apply cut_last_None in E. exists "". rewrite append_nil_r. auto.
  - intros (port & -> & Hh & [->|(ds & Hd & ->)]).
    + rewrite append_nil_r. apply cut_last_None in Hh. by rewrite Hh.
    + rewrite cut_last_app, Contains_one, Hh, Hd; [done|].
      unfold destinationPortDigits in Hd. apply andb_true_iff in Hd as [_ Hd].
      revert Hd. by apply all_any_disjoint, digit_no_colon.
Qed.

Lemma trim_dot h1 h :
  TrimSuffixByte "." h1 = h <-> exists dot, h1 = h +:+ dot /\
    (dot = "." \/ dot = "" /\ last_byte_is "." h = false).
Proof.
  split.
  - intros <-. destruct (TrimSuffixByte_cases "." h1) as [E|[E Hl]].
    + exists ".". auto.
    + exists "". rewrite append_nil_r, <-E. auto.
  - intros (dot & -> & [->|[-> Hl]]); [apply TrimSuffixByte_app|].
    rewrite append_nil_r. by apply TrimSuffixByte_none.
Qed.

Lemma authority_bytes h dot port :
  destinationBoringHost h = true -> (dot = "." \/ dot = "" /\ last_byte_is "." h = false) ->
  (port = "" \/ exists ds, destinationPortDigits ds = true /\ port = String ":" ds) ->
  all_bytes authority_byte (h +:+ dot +:+ port) = true.
Proof.
  intros [Hh _]%boring_host_bytes Hd Hp. rewrite !all_bytes_app.
  rewrite (all_bytes_impl _ _ _ host_authority Hh). cbn [andb]. apply andb_true_iff. split.
  - destruct Hd as [-> | [-> _]]; reflexivity.
  - destruct Hp as [->|(ds & Hds & ->)]; [done|].
    unfold destinationPortDigits in Hds. apply andb_true_iff in Hds as [_ Hds].
    cbn [all_bytes]. by rewrite (all_bytes_impl _ _ _ digit_authority Hds).
Qed.

Lemma TrimSuffix_dot h dot :
  (dot = "." \/ dot = "" /\ last_byte_is "." h = false) -> TrimSuffixByte "." (h +:+ dot) = h.
Proof. intros Hd. apply trim_dot. eauto. Qed.

(** [destinationHostname] accepts exactly the strings of the grammar
    and returns their host: no userinfo, bracket, percent sign, backslash or
    second scheme can make the host that is checked differ from the authority
    of the string. *)
Theorem destinationHostname_spec (raw h : string) :
  destinationHostname raw = Some h <-> destination_of (TrimSpace raw) h.
Proof.
  unfold destinationHostname, destination_of. generalize (TrimSpace raw) as v. intros v. split.
  - destruct (v =? "")%string; [done|].
    destruct (strip_scheme v) as [v1|] eqn:Es; [|done].
    destruct (take_until_split (byte_in "/?#") v1) as (rest & Ev1 & _ & Hrest).
    destruct (_ || _); [done|]. destruct (strip_port _) as [h1|] eqn:Ep; [|done].
    destruct (negb _) eqn:Eh; [done|]. intros [= Et]. apply negb_false_iff in Eh.
    apply strip_scheme_Some in Es as (pre & -> & Hpre).
    apply strip_port_Some in Ep as (port & Ea & _ & Hport).
    apply trim_dot in Et as (dot & -> & Hdot). rewrite Ea, (append_assoc h dot port) in Ev1. subst v1.
    rewrite TrimSuffix_dot in Eh by done. exists pre, dot, port, rest.
    split; [done|]. auto 6.
  - intros (pre & dot & port & rest & Ev & Hpre & Hdot & Hport & Hrest & Hh).
    pose proof (authority_bytes _ _ _ Hh Hdot Hport) as Ha.
    pose proof (boring_host_bytes _ Hh) as [Hb Hne].
    destruct (v =? "")%string eqn:E0.
    { bools. destruct pre; [|done]. by destruct h. }
    rewrite (proj2 (strip_scheme_Some v ((h +:+ dot +:+ port) +:+ rest))) by eauto.
    rewrite take_until_app; [|revert Ha; apply all_bytes_impl; intros c Hc|done].
    2: { by apply authority_ok, andb_true_iff in Hc as [? _]. }
    assert (ContainsAny (h +:+ dot +:+ port) authority_bad = false) as ->.
    { unfold ContainsAny. revert Ha. apply all_any_disjoint. intros c Hc.
      apply authority_ok, andb_true_iff in Hc as [_ ?]. by apply negb_true_iff. }
    destruct (h +:+ dot +:+ port =? "")%string eqn:E1; [bools; by destruct h|]. cbn [orb].
    rewrite (proj2 (strip_port_Some _ (h +:+ dot))).
    + rewrite (proj2 (trim_dot _ h)) by eauto. by rewrite Hh.
    + exists port. split; [by rewrite append_assoc|]. split; [|done].
      rewrite any_byte_app. apply orb_false_iff. split.
      * revert Hb. by apply all_any_disjoint, host_no_colon.
      * by destruct Hdot as [-> | [-> _]].
Qed.
