(* ===== verification/Rules.v ===== *)
(** Argument rules: [Engine.evaluateRule] of [internal/policy/engine.go].
    Each [case] of its [switch] is a definition that returns [Some d] for an
    early [return d] and [None] where control falls out of the switch, to
    the final [return Decision{ActionAllow, "rule passed"}].

    The theorems: a rule's verdict does not depend on Go's map iteration
    order, and each fail-closed allow rule admits exactly the argument maps
    whose every alias is inside the mandate. *)
From stdpp Require Import base strings gmap list.
From Stdlib Require Import ZArith Lia Ascii.
From S2P Require Import Prelude GoStrings GoLib Lineage PolicyTypes Slots.
#[local] Open Scope Z_scope.

Definition reasonCrossPrincipalEffect : string :=
  "cross-principal effect: argument class PRINCIPAL, effect class THIRD_PARTY, authority transition USER->OTHER".
Definition reasonPathToShellAmplification : string :=
  "path-to-shell amplification: argument class PATH, effect class SHELL, authority transition PATH->SHELL".
Definition reasonDestructivePathOutsideMandate : string :=
  "destructive path outside mandate: argument class PATH, effect class DESTRUCTIVE, authority transition MANDATE->COLLATERAL".
Definition reasonAuthorityExpandingDestination : string :=
  "authority-expanding destination: argument class URL, effect class NETWORK, authority transition MANDATE->EGRESS".
Definition reasonUntrustedExecutionEnvironment : string :=
  "untrusted execution environment: argument class PATH, effect class EXECUTION, authority transition MANDATE->ENVIRONMENT".
Definition reasonUntrustedCredentialCustody : string :=
  "untrusted credential custody: argument class SECRET, effect class CREDENTIAL, authority transition MANDATE->CUSTODY".
Definition reasonAuthorityExpandingApplication : string :=
  "authority-expanding application: argument class APPLICATION, effect class CONTROL_PLANE, authority transition MANDATE->CLUSTER".
Definition reasonUnauthorizedSkillPromotion : string :=
  "unauthorized skill promotion: argument class SKILL, effect class AUTHORITY, authority transition EXPERIENCE->SKILL".
Definition reasonPermissionBypassDelegation : string :=
  "permission-bypass delegation: argument class PERMISSION, effect class DELEGATION, authority transition PARENT->CHILD".
Definition reasonConfigActivationSpawn : string :=
  "unauthorized configuration activation: argument class EXECUTABLE, effect class PROCESS, authority transition CONFIG->SPAWN".
Definition reasonConfigActivationNetwork : string :=
  "unauthorized configuration activation: argument class URL, effect class NETWORK, authority transition CONFIG->EGRESS".

Definition denyWith (reason : string) : option Decision := Some (decision ActionDeny reason).

(** [for _, slot := range slots { if !ok(slot) { return deny(reason) } }] *)
Definition checkSlots (ok : string -> bool) (reason : string) (slots : list string)
    : option Decision :=
  if forallb ok slots then None else denyWith reason.

(** [if len(slots) > 0 { return deny(reason) }] *)
Definition denyIfAny (reason : string) (slots : list string) : option Decision :=
  if (0 <? length slots)%nat then denyWith reason else None.

(** [slots, reason := collect(args); if reason != "" { return deny(reason) }]
    and then the rest of the case. *)
Definition withSlots (slots : result (list string)) (k : list string -> option Decision)
    : option Decision :=
  match slots with Err reason => denyWith reason | Ok slots => k slots end.

(** [if v, ok := getStringArg(args, keys...); ok { ... }] *)
Definition withString (m : list (string * any)) (keys : list string)
    (k : string -> option Decision) : option Decision :=
  match getStringArg m keys with Some v => k v | None => None end.

(** [MatchesAnyDomainPattern] of validator.go. *)
Definition MatchesAnyDomainPattern (domains : list string) (url : string) : bool * string :=
  match List.find (fun domain => Contains url domain) domains with
  | Some domain => (true, domain)
  | None => (false, "")
  end.

Section rules.
Context `{GoUnicode} `{GoPatterns} `{GoArch}.

Definition MatchesAnyRepo (allowedRepos : list string) (repo : string) : bool :=
  existsb (fun r => EqualFold r repo) allowedRepos.

(** [matched, _ := regexp.MatchString("(?i)"+pattern, value)] *)
Definition matchesFold (value pattern : string) : bool :=
  matched (regexp_MatchString ("(?i)" +:+ pattern) value).

Definition rule_deny_path (rule : ArgRule) (a : args) : option Decision :=
  withString (entries a) ["path"; "file"; "file_path"] (fun path =>
    if matchesAnyPattern (r_Patterns rule) path then denyWith "path matches deny pattern"
    else None).

Definition rule_allow_path (rule : ArgRule) (a : args) : option Decision :=
  withString (entries a) ["path"; "file"; "file_path"] (fun path =>
    if negb (matchesAnyPattern (r_Patterns rule) path)
    then denyWith "path does not match any allow pattern" else None).

Definition rule_require_path_literal (rule : ArgRule) (a : args) : option Decision :=
  withSlots (collectPathSlots a)
    (checkSlots (fun slot => negb (pathContainsShellGrammar slot)) reasonPathToShellAmplification).

Definition rule_allow_path_slot (rule : ArgRule) (a : args) : option Decision :=
  if negb (recipientAllowlistConfigured (r_Patterns rule))
  then denyWith "path slot allowlist is empty"
  else withSlots (collectEffectPathSlots a)
    (checkSlots (matchesAnyPattern (r_Patterns rule)) reasonDestructivePathOutsideMandate).

Definition rule_allow_destination (rule : ArgRule) (a : args) : option Decision :=
  if negb (recipientAllowlistConfigured (r_Patterns rule))
  then denyWith "destination allowlist is empty"
  else withSlots (collectDestinationSlots a)
    (checkSlots (recipientInAllowlist (r_Patterns rule)) reasonAuthorityExpandingDestination).

Definition rule_allow_working_directory (rule : ArgRule) (a : args) : option Decision :=
  if negb (recipientAllowlistConfigured (r_Patterns rule))
  then denyWith "working directory allowlist is empty"
  else withSlots (collectWorkingDirectorySlots a)
    (checkSlots (matchesAnyPattern (r_Patterns rule)) reasonUntrustedExecutionEnvironment).

Definition rule_deny_secret (rule : ArgRule) (a : args) : option Decision :=
  withSlots (collectPresentSecretSlots a) (denyIfAny reasonUntrustedCredentialCustody).

Definition rule_allow_application (rule : ArgRule) (a : args) : option Decision :=
  if negb (recipientAllowlistConfigured (r_Patterns rule))
  then denyWith "application allowlist is empty"
  else withSlots (collectApplicationSlots a)
    (checkSlots (recipientInAllowlist (r_Patterns rule)) reasonAuthorityExpandingApplication).

Definition rule_allow_skill (rule : ArgRule) (a : args) : option Decision :=
  if negb (recipientAllowlistConfigured (r_Patterns rule))
  then denyWith "skill allowlist is empty"
  else withSlots (collectSkillSlots a)
    (checkSlots (recipientInAllowlist (r_Patterns rule)) reasonUnauthorizedSkillPromotion).

Definition rule_deny_permission_bypass (rule : ArgRule) (a : args) : option Decision :=
  withSlots (collectPresentPermissionBypassSlots a) (denyIfAny reasonPermissionBypassDelegation).

Definition rule_allow_activation (rule : ArgRule) (a : args) : option Decision :=
  if negb (recipientAllowlistConfigured (r_Patterns rule)) &&
     negb (recipientAllowlistConfigured (r_Domains rule))
  then denyWith "activation allowlist is empty"
  else withSlots (collectOptionalExecutableSlots a) (fun execs =>
    withSlots (collectOptionalActivationDestinationSlots a) (fun dests =>
      if (length execs =? 0)%nat && (length dests =? 0)%nat
      then denyWith "activation target is required"
      else match checkSlots (executableInAllowlist (r_Patterns rule))
                   reasonConfigActivationSpawn execs with
      | Some d => Some d
      | None =>
          checkSlots (recipientInAllowlist (r_Domains rule)) reasonConfigActivationNetwork dests
      end)).

Definition rule_deny_command_pattern (rule : ArgRule) (a : args) : option Decision :=
  withString (entries a) ["command"; "cmd"; "exec"] (fun cmd =>
    match List.find (matchesFold cmd) (r_Patterns rule) with
    | Some pattern => denyWith ("command matches deny pattern: " +:+ pattern)
    | None => None
    end).

Definition rule_allow_command_pattern (rule : ArgRule) (a : args) : option Decision :=
  withString (entries a) ["command"; "cmd"; "exec"] (fun cmd =>
    if negb (existsb (matchesFold cmd) (r_Patterns rule))
    then denyWith "command does not match any allow pattern" else None).

Definition rule_deny_command_keyword (rule : ArgRule) (a : args) : option Decision :=
  withString (entries a) ["command"; "cmd"; "exec"] (fun cmd =>
    let lower := ToLower cmd in
    match List.find (fun kw => Contains lower (ToLower kw)) (r_Keywords rule) with
    | Some kw => denyWith ("command contains denied keyword: " +:+ kw)
    | None => None
    end).

Definition rule_deny_query_pattern (rule : ArgRule) (a : args) : option Decision :=
  withString (entries a) ["query"; "sql"; "statement"] (fun query =>
    match List.find (matchesFold query) (r_Patterns rule) with
    | Some pattern => denyWith ("query matches deny pattern: " +:+ pattern)
    | None => None
    end).

Definition rule_allow_query_pattern (rule : ArgRule) (a : args) : option Decision :=
  withString (entries a) ["query"; "sql"; "statement"] (fun query =>
    if negb (existsb (matchesFold query) (r_Patterns rule))
    then denyWith "query does not match any allow pattern" else None).

Definition rule_recipient_domain (rule : ArgRule) (a : args) : option Decision :=
  withString (entries a) ["recipient"; "to"; "email"; "domain"] (fun domain =>
    let matched := (MatchesAnyDomainPattern (r_Domains rule) domain).1 in
    if (r_Type rule =s? "deny_recipient_domain") && matched
    then denyWith "recipient domain is denied"
    else if (r_Type rule =s? "allow_recipient_domain") && negb matched
    then denyWith "recipient domain is not in allowlist"
    else None).

Definition rule_allow_recipient (rule : ArgRule) (a : args) : option Decision :=
  if negb (recipientAllowlistConfigured (r_Patterns rule))
  then denyWith "recipient allowlist is empty"
  else withSlots (collectRecipientSlots a)
    (checkSlots (recipientInAllowlist (r_Patterns rule)) "recipient is not in allowlist").

Definition rule_allow_resource_owner (rule : ArgRule) (a : args) : option Decision :=
  if negb (recipientAllowlistConfigured (r_Patterns rule))
  then denyWith "resource owner allowlist is empty"
  else withSlots (collectOwnerSlots a)
    (checkSlots (recipientInAllowlist (r_Patterns rule)) reasonCrossPrincipalEffect).

Definition rule_allowed_repos (rule : ArgRule) (a : args) : option Decision :=
  withString (entries a) ["repo"; "repository"; "owner/repo"] (fun repo =>
    if negb (MatchesAnyRepo (r_Repos rule) repo)
    then denyWith ("repository '" +:+ repo +:+ "' is not in allowlist") else None).

Definition rule_max_file_size (rule : ArgRule) (a : args) : option Decision :=
  let size := getSizeArg (entries a) in
  if (0 <? size) && (0 <? r_Bytes rule) && (r_Bytes rule <? size)
  then denyWith ("file size " +:+ Itoa size +:+ " exceeds max " +:+ Itoa (r_Bytes rule) +:+ " bytes")
  else None.

Definition rule_max_result_rows (rule : ArgRule) (a : args) : option Decision :=
  let rows := getRowsArg (entries a) in
  if (0 <? rows) && (0 <? r_Rows rule) && (r_Rows rule <? rows)
  then denyWith ("rows " +:+ Itoa rows +:+ " exceeds max " +:+ Itoa (r_Rows rule))
  else None.

(** The [switch rule.Type]. *)
Definition rule_case (rule : ArgRule) (a : args) : option Decision :=
  let type := r_Type rule in
  if type =s? "deny_path" then rule_deny_path rule a
  else if type =s? "allow_path" then rule_allow_path rule a
  else if type =s? "require_path_literal" then rule_require_path_literal rule a
  else if type =s? "allow_path_slot" then rule_allow_path_slot rule a
  else if type =s? "allow_destination" then rule_allow_destination rule a
  else if type =s? "allow_working_directory" then rule_allow_working_directory rule a
  else if type =s? "deny_secret" then rule_deny_secret rule a
  else if type =s? "allow_application" then rule_allow_application rule a
  else if type =s? "allow_skill" then rule_allow_skill rule a
  else if type =s? "deny_permission_bypass" then rule_deny_permission_bypass rule a
  else if type =s? "allow_activation" then rule_allow_activation rule a
  else if type =s? "deny_command_pattern" then rule_deny_command_pattern rule a
  else if type =s? "allow_command_pattern" then rule_allow_command_pattern rule a
  else if type =s? "deny_command_keyword" then rule_deny_command_keyword rule a
  else if type =s? "deny_query_pattern" then rule_deny_query_pattern rule a
  else if type =s? "allow_query_pattern" then rule_allow_query_pattern rule a
  else if (type =s? "deny_recipient_domain") || (type =s? "allow_recipient_domain")
  then rule_recipient_domain rule a
  else if type =s? "allow_recipient" then rule_allow_recipient rule a
  else if type =s? "allow_resource_owner" then rule_allow_resource_owner rule a
  else if type =s? "allowed_repos" then rule_allowed_repos rule a
  else if type =s? "max_file_size" then rule_max_file_size rule a
  else if (type =s? "max_result_rows") || (type =s? "max_export_rows")
  then rule_max_result_rows rule a
  else if type =s? "require_approval_always"
  then Some (decision ActionRequireApproval "approval is required for this tool")
  else if type =s? "lineage_require" then Some (decision ActionAllow "lineage_require")
  else None.

Definition evaluateRule (rule : ArgRule) (a : args) (toolName : string) : Decision :=
  default (decision ActionAllow "rule passed") (rule_case rule a).
End rules.

(** ** Verdicts and map order *)

(** Unfold the definition of the case at hand. *)
Ltac head t := match t with ?f _ => head f | _ => t end.
Ltac unfold_head := match goal with |- ?l = _ => let f := head l in unfold f end.
Ltac unfold_denies := match goal with |- ?P ?l => let f := head l in unfold f end.
Ltac unfold_rule := match goal with |- ?l = _ <-> _ => let f := head l in unfold f end.


Section rule_lemmas.
Context `{GoUnicode} `{GoPatterns} `{GoArch}.

#[export] Instance checkSlots_perm ok reason :
  Proper (Permutation ==> eq) (checkSlots ok reason).
Proof. intros l l' P. unfold checkSlots. by rewrite (forallb_perm _ _ _ P). Qed.

#[export] Instance denyIfAny_perm reason : Proper (Permutation ==> eq) (denyIfAny reason).
Proof. intros l l' P. unfold denyIfAny. by rewrite P. Qed.

Lemma withSlots_perm k r r' :
  Proper (Permutation ==> eq) k -> result_perm r r' -> withSlots r k = withSlots r' k.
Proof. intros Hk [l l' P|e]; cbn; [by apply Hk|done]. Qed.

Lemma withString_perm m m' keys k :
  map_ok m -> Permutation m m' ->
  withString (entries (Some m)) keys k = withString (entries (Some m')) keys k.
Proof. intros Hm P. unfold withString. cbn. by rewrite (getStringArg_perm m m'). Qed.

#[local] Hint Resolve withSlots_perm withString_perm : slots.
#[local] Hint Extern 4 (Proper _ _) => solve [apply _] : slots.

Lemma rule_allow_activation_perm rule m m' :
  Permutation m m' -> rule_allow_activation rule (Some m) = rule_allow_activation rule (Some m').
Proof.
  intros P. unfold rule_allow_activation. destruct (_ && _); [done|].
  etrans; [|apply withSlots_perm; [|by apply collectOptionalExecutableSlots_perm]].
  - destruct (collectOptionalExecutableSlots (Some m)) as [l|]; cbn; [|done].
    apply withSlots_perm; [|by apply collectOptionalActivationDestinationSlots_perm].
    intros l1 l1' P'. rewrite P'. destruct (_ && _); [done|].
    destruct (checkSlots _ _ l); [done|]. by rewrite P'.
  - intros l l' P'. destruct (collectOptionalActivationDestinationSlots (Some m')); cbn; [|done].
    rewrite P'. destruct (_ && _); [done|]. by rewrite P'.
Qed.

Lemma rule_case_perm rule m m' :
  map_ok m -> Permutation m m' -> rule_case rule (Some m) = rule_case rule (Some m').
Proof.
  intros Hm P. unfold rule_case.
  repeat (destruct (_ =? _)%string; cbn [orb]);
  lazymatch goal with
  | |- rule_allow_activation _ _ = _ => by apply rule_allow_activation_perm
  | |- rule_max_file_size _ _ = _ =>
      unfold rule_max_file_size, getSizeArg; cbn [entries default from_option];
      by rewrite (first_int_arg_perm m m')
  | |- rule_max_result_rows _ _ = _ =>
      unfold rule_max_result_rows, getRowsArg; cbn [entries default from_option];
      by rewrite (first_int_arg_perm m m')
  | |- Some _ = _ => reflexivity
  | |- None = _ => reflexivity
  | _ => unfold_head; try (destruct (negb _); [reflexivity|]); eauto with slots nocore
  end.
Qed.
End rule_lemmas.

(** ** The verdicts a rule can give *)

Definition denies (o : option Decision) : Prop := forall d, o = Some d -> d_Action d = ActionDeny.

Section rule_verdicts.
Context `{GoUnicode} `{GoPatterns} `{GoArch}.

Lemma denies_None : denies None.
Proof. done. Qed.
Lemma denies_denyWith reason : denies (denyWith reason).
Proof. by intros d [= <-]. Qed.
Lemma denies_checkSlots ok reason l : denies (checkSlots ok reason l).
Proof. unfold checkSlots. destruct (forallb ok l); [done|apply denies_denyWith]. Qed.
Lemma denies_denyIfAny reason l : denies (denyIfAny reason l).
Proof. unfold denyIfAny. destruct (_ <? _)%nat; [apply denies_denyWith|done]. Qed.
Lemma denies_withSlots r k : (forall l, denies (k l)) -> denies (withSlots r k).
Proof. intros Hk. destruct r; [apply Hk|apply denies_denyWith]. Qed.
Lemma denies_withString m keys k : (forall s, denies (k s)) -> denies (withString m keys k).
Proof. intros Hk. unfold withString. destruct (getStringArg m keys); [apply Hk|done]. Qed.

Lemma denies_orelse o k :
  denies o -> denies k -> denies (match o with Some d => Some d | None => k end).
Proof. intros Ho Hk. destruct o; [done|apply Hk]. Qed.

Lemma rule_case_verdict rule a d :
  rule_case rule a = Some d ->
  d_Action d = ActionDeny \/
  d = decision ActionRequireApproval "approval is required for this tool" \/
  d = decision ActionAllow "lineage_require".
Proof.
  assert (denies (rule_case rule a) \/
    rule_case rule a = Some (decision ActionRequireApproval "approval is required for this tool") \/
    rule_case rule a = Some (decision ActionAllow "lineage_require")) as Hv.
  { unfold rule_case.
    repeat (destruct (_ =? _)%string; cbn [orb]); try (by auto); left;
      try unfold_denies;
      repeat first
        [ apply denies_None | apply denies_denyWith | apply denies_checkSlots
        | apply denies_denyIfAny | apply denies_orelse | apply denies_withSlots; intros ? | apply denies_withString; intros ?
        | match goal with |- denies (match ?x with _ => _ end) => destruct x end
        | match goal with |- denies (let _ := _ in _) => cbv zeta end ]. }
  intros E. destruct Hv as [Hd | [Hr | Hr]]; [left; auto | right; left | right; right]; congruence.
Qed.

Lemma default_rule_case rule a :
  default (decision ActionAllow "rule passed") (rule_case rule a) =
    decision ActionAllow "rule passed" <-> rule_case rule a = None.
Proof.
  destruct (rule_case rule a) as [d|] eqn:E; cbn; [|done]. split; [|done]. intros ->.
  by apply rule_case_verdict in E as [E|[E|E]].
Qed.
End rule_verdicts.

(** ** What a rule admits *)

(** The mandate a fail-closed allow rule declares: which keys name the
    effect's target, which allowlists can be configured, and which values are
    inside the mandate. *)
Section mandate.
Context `{GoUnicode} `{GoPatterns} `{GoArch}.

Definition nonblank (s : string) : bool := TrimSpace s <>s? "".

Definition mandate (type : string) : option (list string * (ArgRule -> string -> bool)) :=
  if type =s? "allow_path_slot" then
    Some (effectPathSlotKeys, fun rule s => nonblank s && matchesAnyPattern (r_Patterns rule) s)
  else if type =s? "allow_working_directory" then
    Some (workingDirectorySlotKeys, fun rule s => nonblank s && matchesAnyPattern (r_Patterns rule) s)
  else if type =s? "allow_destination" then
    Some (destinationSlotKeys, fun rule s =>
      match destinationHostname s with
      | Some host => recipientInAllowlist (r_Patterns rule) host
      | None => false
      end)
  else if type =s? "allow_application" then
    Some (applicationSlotKeys, fun rule s => nonblank s && recipientInAllowlist (r_Patterns rule) s)
  else if type =s? "allow_skill" then
    Some (skillSlotKeys, fun rule s => nonblank s && recipientInAllowlist (r_Patterns rule) s)
  else if type =s? "allow_recipient" then
    Some (recipientSlotKeys, fun rule s => nonblank s && recipientInAllowlist (r_Patterns rule) s)
  else if type =s? "allow_resource_owner" then
    Some (ownerSlotKeys, fun rule s => nonblank s && recipientInAllowlist (r_Patterns rule) s)
  else None.

(** An argument map every alias of which is a string inside the mandate, and
    which has at least one alias. *)
Definition inside_mandate (aliases : list string) (inside : string -> bool) (a : args) : Prop :=
  (exists k v, In (k, v) (entries a) /\ isSlotKey aliases k = true) /\
  (forall k v, In (k, v) (entries a) -> isSlotKey aliases k = true ->
     exists s, v = AString s /\ inside s = true).

Lemma checkSlots_None ok reason slots : checkSlots ok reason slots = None <-> forallb ok slots = true.
Proof. unfold checkSlots. by destruct (forallb ok slots). Qed.

(** The shape the seven rules share: collect, require one, check each. *)
Lemma slots_rule_None (collector : args -> result (list string)) aliases read reason ok msg inside a :
  (forall m, collector (Some m) =
     let? values := collect (isSlotKey aliases) read m in at_least_one reason values) ->
  collector None = Err reason ->
  (forall v, read v <> Ok None) ->
  (forall v, (exists s, read v = Ok (Some s) /\ ok s = true) <->
     (exists s, v = AString s /\ inside s = true)) ->
  withSlots (collector a) (checkSlots ok msg) = None <-> inside_mandate aliases inside a.
Proof.
  intros Hc Hn Hr Hi. unfold inside_mandate. destruct a as [m|].
  2: { rewrite Hn. cbn. split; [done|]. by intros [(? & ? & [] & _) _]. }
  cbn [entries default from_option].
  trans (exists l, collector (Some m) = Ok l /\ forallb ok l = true).
  { destruct (collector (Some m)) as [l|e]; cbn; [|split; naive_solver].
    rewrite checkSlots_None. naive_solver. }
  rewrite Hc, collect_required by done. unfold Datatypes.id.
  apply and_iff_compat_l. split; intros Hall k v Hin Hk; apply Hi; eauto.
Qed.

Lemma nonblank_inside reason ok v :
  (exists s, read_nonblank reason v = Ok (Some s) /\ ok s = true) <->
  (exists s, v = AString s /\ nonblank s && ok s = true).
Proof.
  setoid_rewrite read_nonblank_Some. unfold nonblank.
  setoid_rewrite andb_true_iff. setoid_rewrite str_neqb_true. naive_solver.
Qed.

Lemma host_inside reason ok v :
  (exists h, read_host reason v = Ok (Some h) /\ ok h = true) <->
  (exists s, v = AString s /\
     match destinationHostname s with Some h => ok h | None => false end = true).
Proof.
  setoid_rewrite read_host_Some. split.
  - intros (h & (s & -> & E) & Ho). exists s. by rewrite E.
  - intros (s & -> & Ho). destruct (destinationHostname s) eqn:E; naive_solver.
Qed.
End mandate.

Section rule_theorems.
Context `{GoUnicode} `{GoPatterns} `{GoArch}.

(** A rule's verdict, its reason included, does not depend on the order
    in which Go visits the argument map. *)
Theorem evaluateRule_map_order (rule : ArgRule) (m m' : list (string * any)) (toolName : string) :
  map_ok m -> Permutation m m' ->
  evaluateRule rule (Some m) toolName = evaluateRule rule (Some m') toolName.
Proof. intros Hm P. unfold evaluateRule. by rewrite (rule_case_perm rule m m'). Qed.

Ltac mandate_rule :=
  eapply slots_rule_None;
    [ reflexivity | reflexivity | auto with slots
    | intros v; first [ apply nonblank_inside | apply host_inside ] ].

(** Each fail-closed allow rule ([allow_path_slot],
    [allow_working_directory], [allow_destination], [allow_application],
    [allow_skill], [allow_recipient], [allow_resource_owner]) passes exactly
    when an allowlist is configured, at least one alias of the class is
    present, and under every present alias, whatever its case, the value is a
    string inside the allowlist.  No alias covers for another. *)
Theorem evaluateRule_mandate (rule : ArgRule) (a : args) (toolName : string)
    (aliases : list string) (inside : ArgRule -> string -> bool) :
  mandate (r_Type rule) = Some (aliases, inside) ->
  evaluateRule rule a toolName = decision ActionAllow "rule passed" <->
  recipientAllowlistConfigured (r_Patterns rule) = true /\ inside_mandate aliases (inside rule) a.
Proof.
  intros Hm. unfold evaluateRule. rewrite default_rule_case. unfold mandate in Hm.
  repeat (let E := fresh "E" in
    destruct (r_Type rule =? _)%string eqn:E in Hm;
    [ apply str_eqb_true in E; injection Hm as <- <-; unfold rule_case; rewrite E;
      cbn [String.eqb Ascii.eqb Bool.eqb orb];
      unfold_rule; destruct (recipientAllowlistConfigured (r_Patterns rule)); cbn [negb];
      [ etrans; [mandate_rule|naive_solver] | split; [done | by intros [? _]] ]
    | clear E ]).
  done.
Qed.

Lemma collect_empty isKey read m :
  (forall v, read v <> Ok None) ->
  collect isKey read m = Ok [] <-> forall k v, In (k, v) m -> isKey k = false.
Proof.
  intros Hr. split.
  - intros E k v Hin. destruct (isKey k) eqn:Ek; [|done]. exfalso.
    destruct (proj1 (collect_all isKey read m (fun _ => True)) ltac:(eauto) k v Hin Ek)
      as ([s|] & Ev & _); [|by apply Hr in Ev].
    by eapply (collect_nonempty _ _ _ _ E); eauto 6.
  - intros Hk. induction m as [|[k v] m IH]; cbn; [done|].
    rewrite (Hk k v) by (by left). cbn. apply IH. intros k' v' Hin. apply (Hk k' v'). by right.
Qed.

(** A value that declares a permission bypass explicitly off. *)
Definition bypass_off (v : any) : Prop :=
  v = ABool false \/
  exists s, v = AString s /\ TrimSpace s <> "" /\ permissionBypassExplicitlyOff (TrimSpace s) = true.

Lemma read_bypass_None v : read_bypass v = Ok None <-> bypass_off v.
Proof.
  split.
  - unfold read_bypass. destruct v as [|b| | | |s| |]; cbn; try done.
    { destruct b; [done|]. by left. }
    destruct (TrimSpace s =? _)%string eqn:E; cbn; [done|].
    destruct (permissionBypassExplicitlyOff _) eqn:E'; cbn; [|done]. intros _. right. bools. eauto.
  - intros [->|(s & -> & Hs & Ho)]; [done|]. unfold read_bypass. cbn.
    apply str_eqb_false in Hs. by rewrite Hs, Ho.
Qed.

Lemma collect_bypass_empty isKey m :
  collect isKey read_bypass m = Ok [] <->
  forall k v, In (k, v) m -> isKey k = true -> bypass_off v.
Proof.
  induction m as [|[k v] m IH]; cbn; [naive_solver|].
  trans ((isKey k = true -> bypass_off v) /\ collect isKey read_bypass m = Ok []).
  - destruct (isKey k); cbn; [|naive_solver]. rewrite <-read_bypass_None.
    destruct (read_bypass v) as [[s|]|e]; [|naive_solver|naive_solver].
    destruct (collect _ _ m); cbn; naive_solver.
  - rewrite IH. naive_solver.
Qed.

Lemma withSlots_denyIfAny r reason : withSlots r (denyIfAny reason) = None <-> r = Ok [].
Proof. destruct r as [[|x l]|e]; cbn; split; done. Qed.

(** [deny_secret] passes exactly when no secret alias is present at all
    (an empty or non-string secret is denied too), and
    [deny_permission_bypass] exactly when every present alias is explicitly
    off. *)
Theorem evaluateRule_deny_slots (rule : ArgRule) (a : args) (toolName : string) :
  (r_Type rule = "deny_secret" ->
   evaluateRule rule a toolName = decision ActionAllow "rule passed" <->
   forall k v, In (k, v) (entries a) -> isSecretSlotKey k = false) /\
  (r_Type rule = "deny_permission_bypass" ->
   evaluateRule rule a toolName = decision ActionAllow "rule passed" <->
   forall k v, In (k, v) (entries a) -> isPermissionBypassSlotKey k = true -> bypass_off v).
Proof.
  unfold evaluateRule. rewrite default_rule_case. unfold rule_case.
  split; intros E; rewrite E; cbn [String.eqb Ascii.eqb Bool.eqb orb]; unfold_rule;
    rewrite withSlots_denyIfAny; destruct a as [m|]; cbn; try naive_solver.
  - apply collect_empty. auto with slots.
  - apply collect_bypass_empty.
Qed.

(** A collector without a required value, against a check of each. *)
Lemma collect_optional isKey read m (P : string -> bool) :
  (forall v, read v <> Ok None) ->
  (exists l, collect isKey read m = Ok l /\ forallb P l = true) <->
  (forall k v, In (k, v) m -> isKey k = true -> exists s, read v = Ok (Some s) /\ P s = true).
Proof.
  intros Hr. trans (exists l, collect isKey read m = Ok l /\ Forall (fun s => P s = true) l).
  { setoid_rewrite Forall_forall. setoid_rewrite list_elem_of_In. by setoid_rewrite forallb_forall. }
  rewrite collect_all. split; intros Hall k v Hin Hk; destruct (Hall k v Hin Hk) as (o & E & Ho).
  - destruct o as [s|]; [|by apply Hr in E]. eauto.
  - exists (Some o). naive_solver.
Qed.

Lemma activation_None ce cd okE okD msgE msgD :
  withSlots ce (fun execs => withSlots cd (fun dests =>
    if (length execs =? 0)%nat && (length dests =? 0)%nat then denyWith "activation target is required"
    else match checkSlots okE msgE execs with Some d => Some d | None => checkSlots okD msgD dests end))
    = None <->
  exists es ds, ce = Ok es /\ cd = Ok ds /\ (es <> [] \/ ds <> []) /\
    forallb okE es = true /\ forallb okD ds = true.
Proof.
  destruct ce as [es|]; cbn; [|split; [done|by intros (? & ? & ? & _)]].
  destruct cd as [ds|]; cbn; [|split; [done|by intros (? & ? & _ & ? & _)]].
  unfold checkSlots. split.
  - intros E. exists es, ds. repeat split; destruct es, ds; cbn in *; try by auto;
      repeat (case_match; cbn in *; try done).
  - intros (? & ? & [= <-] & [= <-] & Hne & -> & ->).
    destruct es, ds; cbn; try done. naive_solver.
Qed.

Lemma exec_slot reason patterns v :
  (exists s, read_nonempty reason v = Ok (Some s) /\ executableInAllowlist patterns s = true) <->
  (exists s, v = AString s /\ s <> "" /\ In s patterns).
Proof.
  setoid_rewrite read_nonempty_Some. unfold executableInAllowlist.
  setoid_rewrite <-str_in_In. unfold str_in. split.
  - intros (s & [-> Hs] & Hi). exists s. apply str_eqb_false in Hs as Hs'. by rewrite Hs' in Hi.
  - intros (s & -> & Hs & Hi). exists s. apply str_eqb_false in Hs as Hs'. by rewrite Hs'.
Qed.

Lemma dest_slot reason domains v :
  (exists h, read_host reason v = Ok (Some h) /\ recipientInAllowlist domains h = true) <->
  (exists s h, v = AString s /\ destinationHostname s = Some h /\
     recipientInAllowlist domains h = true).
Proof. setoid_rewrite read_host_Some. naive_solver. Qed.

Lemma forall_two_classes (m : list (string * any)) (f g : string -> bool) (P Q : any -> Prop) :
  (forall k v, In (k, v) m -> (f k = true -> P v) /\ (g k = true -> Q v)) <->
  (forall k v, In (k, v) m -> f k = true -> P v) /\ (forall k v, In (k, v) m -> g k = true -> Q v).
Proof. naive_solver. Qed.

(** [allow_activation] passes exactly when an allowlist of either
    family is configured, some executable or URL alias is present, every
    executable is byte for byte one of [patterns], and every URL names a host
    of [domains]: a host mandate cannot authorize a spawn. *)
Theorem evaluateRule_activation (rule : ArgRule) (a : args) (toolName : string) :
  r_Type rule = "allow_activation" ->
  evaluateRule rule a toolName = decision ActionAllow "rule passed" <->
  recipientAllowlistConfigured (r_Patterns rule) || recipientAllowlistConfigured (r_Domains rule) = true /\
  (exists k v, In (k, v) (entries a) /\ isExecutableSlotKey k || isDestinationSlotKey k = true) /\
  (forall k v, In (k, v) (entries a) ->
    (isExecutableSlotKey k = true ->
       exists s, v = AString s /\ s <> "" /\ In s (r_Patterns rule)) /\
    (isDestinationSlotKey k = true ->
       exists s h, v = AString s /\ destinationHostname s = Some h /\
         recipientInAllowlist (r_Domains rule) h = true)).
Proof.
  intros Et. unfold evaluateRule. rewrite default_rule_case. unfold rule_case.
  rewrite Et; cbn [String.eqb Ascii.eqb Bool.eqb orb]. unfold rule_allow_activation.
  rewrite <-negb_orb. destruct (_ || _) eqn:Ec; cbn [negb]; [|naive_solver].
  rewrite activation_None. destruct a as [m|].
  2: { cbn. split; [|by intros (_ & (? & ? & [] & _) & _)].
       intros (es & ds & [= <-] & [= <-] & Hne & _). naive_solver. }
  cbn [entries default from_option]. unfold Datatypes.id. rewrite forall_two_classes.
  setoid_rewrite <-exec_slot. setoid_rewrite <-dest_slot.
  rewrite <-!collect_optional by auto with slots.
  split.
  - intros (es & ds & Ees & Eds & Hne & Hes & Hds). split; [done|].
    split; [|split; [exists es|exists ds]; done].
    destruct Hne as [Hne|Hne].
    + apply (collect_nonempty _ _ _ _ Ees) in Hne as (k & v & s & ? & Hk & _).
      exists k, v. split; [done|]. apply orb_true_iff. by left.
    + apply (collect_nonempty _ _ _ _ Eds) in Hne as (k & v & s & ? & Hk & _).
      exists k, v. split; [done|]. apply orb_true_iff. by right.
  - intros (_ & (k & v & Hin & Hk) & (es & Ees & Hes) & (ds & Eds & Hds)).
    exists es, ds. repeat split; [done..| |done|done].
    apply orb_true_iff in Hk as [Hk|Hk]; [left|right].
    + apply (collect_nonempty _ _ _ _ Ees).
      destruct (proj1 (collect_optional _ _ m (executableInAllowlist (r_Patterns rule))
        (read_nonempty_not_None _)) ltac:(eauto) k v Hin Hk) as (s & ? & _); eauto 6.
    + apply (collect_nonempty _ _ _ _ Eds).
      destruct (proj1 (collect_optional _ _ m (recipientInAllowlist (r_Domains rule))
        (read_host_not_None _)) ltac:(eauto) k v Hin Hk) as (s & ? & _); eauto 6.
Qed.

(** The size and row limits are exact on numbers whose truncation fits
    in an [int]: the call is denied exactly when the limit is set, the number
    is positive and above it. *)
Theorem evaluateRule_limits (rule : ArgRule) (m : list (string * any)) (toolName key : string) (f e : Z) :
  assoc key m = Some (AFloat64 (Fin f e)) -> int64_ok (f64_trunc f e) = true ->
  let n := f64_trunc f e in
  (r_Type rule = "max_file_size" -> key = "size" ->
   d_Action (evaluateRule rule (Some m) toolName) = ActionDeny <->
   0 < r_Bytes rule /\ r_Bytes rule < n) /\
  (r_Type rule = "max_result_rows" \/ r_Type rule = "max_export_rows" -> key = "limit" ->
   d_Action (evaluateRule rule (Some m) toolName) = ActionDeny <->
   0 < r_Rows rule /\ r_Rows rule < n).
Proof.
  intros Ha Hok n. subst n.
  assert (forall keys, first_int_arg m (key :: keys) = f64_trunc f e) as Hn.
  { intros keys. cbn [first_int_arg]. rewrite Ha. cbn. by rewrite Hok. }
  unfold evaluateRule, rule_case. split.
  - intros -> ->. cbn [String.eqb Ascii.eqb Bool.eqb orb].
    unfold rule_max_file_size, getSizeArg. cbn [entries default from_option]. unfold Datatypes.id.
    rewrite Hn. destruct (_ && _) eqn:E; cbn; bools; [split; [lia|done]|].
    split; [done|]. intros [H1' H2']. exfalso. revert E. rewrite !andb_false_iff, !Z.ltb_ge. lia.
  - intros Ht ->. assert (
      rule_max_result_rows rule (Some m) = rule_case rule (Some m)) as Hr.
    { unfold rule_case. by destruct Ht as [-> | ->]. }
    unfold rule_case in Hr. rewrite <-Hr. unfold rule_max_result_rows, getRowsArg.
    cbn [entries default from_option]. unfold Datatypes.id.
    rewrite Hn. destruct (_ && _) eqn:E; cbn; bools; [split; [lia|done]|].
    split; [done|]. intros [H1' H2']. exfalso. revert E. rewrite !andb_false_iff, !Z.ltb_ge. lia.
Qed.
End rule_theorems.

(** A number beyond the [int] range escapes the limits where the
    conversion yields the minimum integer, as on amd64: a file size of 2^63
    bytes passes every [max_file_size] rule. *)
Theorem max_file_size_overflow `{GoUnicode} `{GoPatterns} (rule : ArgRule) (toolName : string) :
  r_Type rule = "max_file_size" ->
  evaluateRule (H1 := amd64) rule (Some [("size", AFloat64 (Fin 1 63))]) toolName =
    decision ActionAllow "rule passed".
Proof. intros Et. unfold evaluateRule, rule_case. by rewrite Et. Qed.

Module RulesWitness.
Definition rule (type : string) (patterns domains : list string) (bytes : Z) : ArgRule := {|
  r_Type := type; r_Patterns := patterns; r_Keywords := []; r_Bytes := bytes; r_Rows := 0;
  r_Count := 0; r_Domains := domains; r_Repos := []; r_Days := []; r_Start := ""; r_End := "";
  r_Timezone := "" |}.
Definition mail : list (string * any) :=
  [("To", AString "ann@x.org"); ("cc", AString " Bob@x.org "); ("body", AString "hi")].
End RulesWitness.

Lemma evaluateRule_map_order_witness :
  evaluateRule (H := ascii_unicode) (H0 := literal_patterns) (H1 := amd64)
    (RulesWitness.rule "allow_recipient" ["ann@x.org"] [] 0)
    (Some [("to", AString "eve@x.org"); ("cc", ANil)]) "send" =
  evaluateRule (H := ascii_unicode) (H0 := literal_patterns) (H1 := amd64)
    (RulesWitness.rule "allow_recipient" ["ann@x.org"] [] 0)
    (Some [("cc", ANil); ("to", AString "eve@x.org")]) "send".
Proof.
  apply evaluateRule_map_order.
  - apply (bool_decide_unpack _). by vm_compute.
  - apply perm_swap.
Defined.

Lemma evaluateRule_mandate_witness :
  inside_mandate (H := ascii_unicode) recipientSlotKeys
    (fun s => nonblank s && recipientInAllowlist (H := ascii_unicode) ["ann@x.org"; "bob@x.org"] s)
    (Some RulesWitness.mail).
Proof.
  eapply (proj1 (evaluateRule_mandate (H := ascii_unicode) (H0 := literal_patterns) (H1 := amd64)
    (RulesWitness.rule "allow_recipient" ["ann@x.org"; "bob@x.org"] [] 0)
    (Some RulesWitness.mail) "send" _ _ eq_refl)).
  vm_compute. reflexivity.
Defined.

Lemma evaluateRule_deny_slots_witness :
  evaluateRule (H := ascii_unicode) (H0 := literal_patterns) (H1 := amd64)
    (RulesWitness.rule "deny_secret" [] [] 0) (Some [("note", AString "x")]) "t" =
  decision ActionAllow "rule passed".
Proof.
  apply (proj1 (evaluateRule_deny_slots (H := ascii_unicode) (H0 := literal_patterns) (H1 := amd64)
    (RulesWitness.rule "deny_secret" [] [] 0) (Some [("note", AString "x")]) "t") eq_refl).
  intros k v [[= <- <-]|[]]. vm_compute. reflexivity.
Defined.

Lemma evaluateRule_activation_witness :
  evaluateRule (H := ascii_unicode) (H0 := literal_patterns) (H1 := amd64)
    (RulesWitness.rule "allow_activation" ["/usr/bin/node"] ["mcp.internal"] 0)
    (Some [("command", AString "/usr/bin/node")]) "register" = decision ActionAllow "rule passed".
Proof.
  apply evaluateRule_activation; [reflexivity|]. split; [reflexivity|]. split.
  - exists "command", (AString "/usr/bin/node"). split; [by left|reflexivity].
  - intros k v [[= <- <-]|[]]. split.
    + intros _. exists "/usr/bin/node". split; [done|]. split; [done|]. by left.
    + intros E. vm_compute in E. discriminate.
Defined.

Lemma evaluateRule_limits_witness :
  d_Action (evaluateRule (H := ascii_unicode) (H0 := literal_patterns) (H1 := amd64)
    (RulesWitness.rule "max_file_size" [] [] 100) (Some [("size", AFloat64 (Fin 5 20))]) "write")
  = ActionDeny.
Proof.
  apply (proj1 (evaluateRule_limits (H := ascii_unicode) (H0 := literal_patterns) (H1 := amd64)
    (RulesWitness.rule "max_file_size" [] [] 100) [("size", AFloat64 (Fin 5 20))] "write" "size" 5 20
    eq_refl eq_refl) eq_refl eq_refl).
  split; reflexivity.
Defined.

Lemma max_file_size_overflow_witness :
  evaluateRule (H := ascii_unicode) (H0 := literal_patterns) (H1 := amd64)
    (RulesWitness.rule "max_file_size" [] [] 100) (Some [("size", AFloat64 (Fin 1 63))]) "write"
  = decision ActionAllow "rule passed".
Proof. apply max_file_size_overflow. reflexivity. Defined.
