(* ===== verification/Engine.v ===== *)
(** The policy engine: [internal/policy/engine.go] without the argument
    rules (Rules.v).  [Evaluate] and the stages it folds, the chain rules,
    risk inference, and reload.

    An [Engine] here has no watcher; [current] is then its own policy and
    registry.  Every [time.Now()] of the code is an argument. *)
From stdpp Require Import base strings gmap list.
From Stdlib Require Import ZArith Lia Ascii.
From S2P Require Import Prelude GoStrings GoLib Lineage LineageRegistry ActorContext.
From S2P Require Import PolicyTypes PolicyDefaults PolicyRegistry Slots Rules.
#[local] Open Scope Z_scope.

Record Engine := {
  e_policy : Policy;
  e_registry : PolicyRegistry.Registry;
  e_clientID : string;
  e_verified : option Context
}.

(** [mcp.ToolsCallRequest]: [Arguments] is the raw JSON, empty when absent. *)
Record ToolsCallRequest := { tc_Name : string; tc_Arguments : string }.

(** [hasLineageRequire], validator.go. *)
Definition hasLineageRequire (rules : list ArgRule) : bool :=
  existsb (fun rule => r_Type rule =s? "lineage_require") rules.

Definition extractArgs `{GoJSON} (raw : string) : args :=
  if raw =s? "" then None
  else match json_object raw with Some args => args | None => None end.

(** ** The fold *)

(** [mergeEvalDecision]: the new [*pending], and [Some d] for [stop]. *)
Definition mergeEvalDecision `{GoFmt} (pending next : Decision) : Decision * option Decision :=
  if d_Action next =s? ActionAllow then (pending, None)
  else if d_Action next =s? ActionDeny then (pending, Some next)
  else if d_Action next =s? ActionRequireApproval then
    (if d_Action pending <>s? ActionRequireApproval then next else pending, None)
  else
    let reason := TrimSpace (d_Reason next) in
    let reason := if reason =s? "" then "policy decision is not allow, deny, or require_approval"
                  else reason in
    (pending, Some (decision ActionDeny
       ("unsupported policy action " +:+ fmt_q (d_Action next) +:+ " (" +:+ reason +:+ ")"))).

(** [if d, stop := mergeEvalDecision(&pending, next); stop { return ret(d) }; k] *)
Definition stage `{GoFmt} (pending next : Decision) (ret : Decision -> Decision)
    (k : Decision -> Decision) : Decision :=
  match mergeEvalDecision pending next with
  | (_, Some d) => ret d
  | (pending, None) => k pending
  end.

(** The loop over [tool.Rules]. *)
Fixpoint stages `{GoFmt} (pending : Decision) (nexts : list Decision)
    (ret : Decision -> Decision) (k : Decision -> Decision) : Decision :=
  match nexts with
  | [] => k pending
  | next :: nexts => stage pending next ret (fun pending => stages pending nexts ret k)
  end.

(** [withLineage] *)
Definition withLineage (ev : option Evidence) (d : Decision) : Decision :=
  match ev, d_Lineage d with
  | Some _, None => {| d_Action := d_Action d; d_Reason := d_Reason d; d_Lineage := ev |}
  | _, _ => d
  end.

Section engine.
Context `{GoUnicode} `{GoPatterns} `{GoArch} `{GoTime} `{GoFmt} `{GoJSON} `{GoCrypto}
  `{SnapshotJSON}.

(** ** Verified actor *)

Definition sessionIdentityAt (e : Engine) (now : Z) : string :=
  match e_verified e with
  | Some c =>
      if TrimSpace (c_ActingAgent c) <>s? ""
      then match Check c now (Some now) with
           | None => c_ActingAgent c
           | Some _ => e_clientID e
           end
      else e_clientID e
  | None => e_clientID e
  end.

Definition missing_scope (c : Context) (scopes : list string) : option string :=
  List.find (fun scope => negb (HasScope c scope)) scopes.

Definition evaluateVerifiedActor (e : Engine) (tool : option ToolRule) (pol : Policy) (now : Z)
    : Decision :=
  let scopes := match tool with Some t => t_RequiredScopes t | None => [] end in
  let require := st_RequireVerifiedActor (p_Settings pol) || (0 <? length scopes)%nat in
  if negb require then decision ActionAllow "verified actor not required"
  else match e_verified e with
  | None => decision ActionDeny "verified actor context required"
  | Some c =>
      match Check c now (Some now) with
      | Some err => decision ActionDeny err
      | None =>
          match missing_scope c scopes with
          | Some scope => decision ActionDeny ("verified actor scope missing: " +:+ scope)
          | None => decision ActionAllow "verified actor context"
          end
      end
  end.

(** ** Lineage *)

Definition ceiling_evidence (actor : string) : Evidence := {|
  ev_ActorAgentID := actor; ev_ParentAgentID := ""; ev_HumanPrincipalID := ""; ev_GrantID := "";
  ev_GrantChain := []; ev_Capability := ""; ev_Resource := ""; ev_Effect := "";
  ev_TrajectoryID := ""; ev_PriorStateHash := ""; ev_Rule := ReasonDelegationCeiling |}.

Definition lineage_decision (a : Action) (reason : string) (ev : Evidence) : Decision :=
  {| d_Action := a; d_Reason := reason; d_Lineage := Some ev |}.

Definition EvaluateLineageAt (e : Engine) (serverName toolName : string) (a : args)
    (pol : option Policy) (now : Z) : Decision :=
  let actor := sessionIdentityAt e now in
  let ceiling := lineage_decision ActionDeny ReasonDelegationCeiling (ceiling_evidence actor) in
  match pol with
  | None => ceiling
  | Some pol =>
      match p_Identity pol with
      | None => decision ActionAllow "lineage not enabled"
      | Some id =>
          if negb (is_Version id =? 1) then decision ActionAllow "lineage not enabled"
          else match LineageRegistry.NewRegistry (is_Agents id) (is_Grants id) (p_Trajectories pol) with
          | Some (Ok reg) =>
              let env := EnvelopeFromArgs actor serverName toolName a in
              let '(d, ev) := ValidateAt env (Some reg) now in
              if ld_Allow d then lineage_decision ActionAllow "allowed by lineage" ev
              else lineage_decision ActionDeny (ld_Reason d) ev
          | _ => ceiling
          end
      end
  end.

(** ** Identities *)

Definition findIdentity (e : Engine) (pol : Policy) : option Identity :=
  List.find (fun i => id_Name i =s? e_clientID e) (p_Identities pol).

Definition evaluateIdentity (e : Engine) (serverName toolName : string) (pol : Policy) : Decision :=
  match findIdentity e pol with
  | None =>
      decision ActionDeny ("client '" +:+ e_clientID e +:+ "' has no matching identity in policy")
  | Some identity =>
      if negb (existsb (fun idSrv => idSrv =s? serverName) (id_AllowedServers identity)) then
        decision ActionDeny
          ("server '" +:+ serverName +:+ "' not allowed for identity '" +:+ id_Name identity +:+ "'")
      else
        let fqTool := serverName +:+ "/" +:+ toolName in
        if negb (existsb (fun idTool => idTool =s? fqTool) (id_AllowedTools identity)) then
          decision ActionDeny
            ("tool '" +:+ fqTool +:+ "' not allowed for identity '" +:+ id_Name identity +:+ "'")
        else decision ActionAllow "allowed by identity policy"
  end.

(** ** Time restrictions *)

Definition matchesServerOrTool (servers : list string) (serverName : string) : bool :=
  existsb (fun s => s =s? serverName) servers.

Definition toolGlobRegex (t : string) : string :=
  "(?i)^" +:+ ReplaceAll (QuoteMeta t) (String BACKSLASH "*") ".*" +:+ "$".

Definition matchesAnyTool (tools : list string) (toolName : string) : bool :=
  existsb (fun t => matched (regexp_MatchString (toolGlobRegex t) toolName)) tools.

(** One iteration of the [AllowedHours] loop. *)
Definition in_window (now : Z) (tw : TimeWindow) : bool :=
  let loc := if tw_Timezone tw <>s? ""
             then match LoadLocation (tw_Timezone tw) with Some l => l | None => time_Local end
             else time_Local in
  let currentDay := lower_weekday loc now in
  let dayOK := (length (tw_Days tw) =? 0)%nat ||
               existsb (fun d => ToLower d =s? currentDay) (tw_Days tw) in
  if negb dayOK then false
  else match parse_HHMM loc (tw_Start tw), parse_HHMM loc (tw_End tw) with
  | Some (sh, sm), Some (eh, em) =>
      (date_at loc now sh sm <? now) && (now <? date_at loc now eh em)
  | _, _ => false
  end.

(** One iteration of the restriction loop: [Some d] is an early return. *)
Definition time_restriction (serverName toolName : string) (now : Z) (tr : TimeRestriction)
    : option Decision :=
  if negb (matchesServerOrTool (tx_Servers tr) serverName) then None
  else if negb (matchesAnyTool (tx_Tools tr) toolName) then None
  else
    let currentDay := lower_weekday time_Local now in
    if existsb (fun d => ToLower d =s? currentDay) (tx_DeniedDays tr) then
      Some (decision (tx_OutsideAction tr)
        ("time restriction '" +:+ tx_Name tr +:+ "': current day " +:+ currentDay +:+ " is denied"))
    else if (0 <? length (tx_AllowedHours tr))%nat &&
            negb (existsb (in_window now) (tx_AllowedHours tr)) then
      Some (decision (tx_OutsideAction tr)
        ("time restriction '" +:+ tx_Name tr +:+ "': outside allowed hours"))
    else None.

Fixpoint first_return {A} (f : A -> option Decision) (l : list A) : option Decision :=
  match l with
  | [] => None
  | x :: l' => match f x with Some d => Some d | None => first_return f l' end
  end.

Definition evaluateTimeRestriction (serverName toolName : string) (pol : Policy) (now : Z)
    : Decision :=
  default (decision ActionAllow "within allowed time")
    (first_return (time_restriction serverName toolName now) (p_TimeRestrictions pol)).

(** ** Evaluate *)

(** The early returns on registration and the [allowed] flags. *)
Definition registration (pol : Policy) (srv : option Server) (tool : option ToolRule)
    (serverName toolName : string) : option Decision :=
  let default_deny := p_DefaultAction pol =s? ActionDeny in
  if bool_decide (srv = None) && default_deny then
    Some (decision ActionDeny ("server '" +:+ serverName +:+ "' is not registered"))
  else if bool_decide (tool = None) && default_deny then
    Some (decision ActionDeny
      ("tool '" +:+ toolName +:+ "' from server '" +:+ serverName +:+ "' is not registered"))
  else if match srv with Some s => negb (s_Allowed s) | None => false end then
    Some (decision ActionDeny ("server '" +:+ serverName +:+ "' is denied by policy"))
  else if match tool with Some t => negb (t_Allowed t) | None => false end then
    Some (decision ActionDeny ("tool '" +:+ toolName +:+ "' is explicitly denied"))
  else if bool_decide (tool = None) && bool_decide (srv = None) && default_deny then
    Some (decision ActionDeny "unknown tool/server; default-deny policy")
  else None.

(** The instants at which the three stages that need the time read it. *)
Record Clock := { at_actor : Z; at_lineage : Z; at_window : Z }.

Definition Evaluate (e : Engine) (clock : Clock) (serverName : string) (req : ToolsCallRequest)
    : Decision :=
  let pol := e_policy e in
  let tool := reg_Tool (e_registry e) serverName (tc_Name req) in
  let srv := reg_Server (e_registry e) serverName in
  match registration pol srv tool serverName (tc_Name req) with
  | Some d => d
  | None =>
    let a := extractArgs (tc_Arguments req) in
    let rules := match tool with Some t => t_Rules t | None => [] end in
    stage zeroDecision (evaluateVerifiedActor e tool pol (at_actor clock)) (fun d => d) (fun pending =>
    let lineageDecision :=
      if hasLineageRequire rules
      then Some (EvaluateLineageAt e serverName (tc_Name req) a (Some pol) (at_lineage clock))
      else None in
    let withLineage := withLineage (lineageDecision ≫= d_Lineage) in
    stages pending (option_list lineageDecision) (fun d => d) (fun pending =>
    stages pending ((fun rule => evaluateRule rule a (tc_Name req)) <$> rules) withLineage (fun pending =>
    stages pending
      (if (0 <? length (p_Identities pol))%nat && (e_clientID e <>s? "")
       then [evaluateIdentity e serverName (tc_Name req) pol] else []) withLineage (fun pending =>
    stages pending
      (if (0 <? length (p_TimeRestrictions pol))%nat
       then [evaluateTimeRestriction serverName (tc_Name req) pol (at_window clock)] else [])
      withLineage (fun pending =>
    stages pending
      (if match tool with Some t => t_ApprovalRequired t | None => false end
       then [decision ActionRequireApproval ("tool '" +:+ tc_Name req +:+ "' requires approval")]
       else []) withLineage (fun pending =>
    if d_Action pending =s? ActionRequireApproval then withLineage pending
    else withLineage (decision ActionAllow "allowed by policy")))))))
  end.

(** ** Chains *)

Definition chainRegex (pattern : string) : string := "(?i)^" +:+ pattern +:+ "$".

Definition matchesSource (m : ChainMatch) (previousCalls : list string) : bool :=
  existsb (fun call =>
    match split_colon call with
    | None => false
    | Some (server, tool) =>
        ((cm_Server m =s? "*") || (cm_Server m =s? server)) &&
        matched (regexp_MatchString (chainRegex (cm_ToolPattern m)) tool)
    end) previousCalls.

Definition matchesSink (m : ChainMatch) (serverName toolName : string) : bool :=
  ((cm_Server m =s? "*") || (cm_Server m =s? serverName)) &&
  matched (regexp_MatchString (chainRegex (cm_ToolPattern m)) toolName).

(** [previousCalls = previousCalls[len(previousCalls)-n:]] when
    [n > 0 && len(previousCalls) > n] *)
Definition truncate_calls (n : Z) (previousCalls : list string) : list string :=
  if (0 <? n) && (n <? Z.of_nat (length previousCalls))
  then drop (length previousCalls - Z.to_nat n) previousCalls else previousCalls.

Definition chain_fires (chain : ChainRule) (serverName toolName : string)
    (previousCalls : list string) : bool :=
  existsb (fun source => matchesSource source previousCalls &&
    existsb (fun sink => matchesSink sink serverName toolName) (cr_Sinks chain)) (cr_Sources chain).

Definition chain_decision (chain : ChainRule) : Decision :=
  decision (cr_Action chain)
    ("chain rule '" +:+ cr_Name chain +:+ "': tool sequence matches dangerous pattern").

(** The loop over the chains: [previousCalls] is assigned in the body, so a
    chain sees the history the chains before it have cut. *)
Fixpoint chain_loop (chains : list ChainRule) (serverName toolName : string)
    (previousCalls : list string) : Decision :=
  match chains with
  | [] => decision ActionAllow "no chain rule matched"
  | chain :: chains =>
      let previousCalls := truncate_calls (cr_WithinCalls chain) previousCalls in
      if chain_fires chain serverName toolName previousCalls then chain_decision chain
      else chain_loop chains serverName toolName previousCalls
  end.

Definition EvaluateChain (e : Engine) (serverName : string) (req : ToolsCallRequest)
    (previousCalls : list string) : Decision :=
  chain_loop (p_ToolChains (e_policy e)) serverName (tc_Name req) previousCalls.

(** ** Approval and risk *)

Definition EvaluateApproval (e : Engine) (serverName : string) (req : ToolsCallRequest) : bool :=
  match reg_Tool (e_registry e) serverName (tc_Name req) with
  | None => false
  | Some tool => t_ApprovalRequired tool
  end.

Definition criticalKeywords : list string :=
  ["delete"; "drop"; "iam"; "shell"; "exec"; "sudo"; "root"].
Definition highKeywords : list string :=
  ["write"; "send"; "post"; "create"; "modify"; "update"; "upload"; "database"; "query";
   "secret"; "credential"; "key"; "token"].
Definition mediumKeywords : list string :=
  ["read"; "fetch"; "get"; "search"; "download"; "ssh"; "connect"].

Definition inferRisk (toolName : string) : RiskLevel :=
  let name := ToLower toolName in
  if existsb (Contains name) criticalKeywords then RiskCritical
  else if existsb (Contains name) highKeywords then RiskHigh
  else if existsb (Contains name) mediumKeywords then RiskMedium
  else RiskLow.

Definition GetRiskLevel (e : Engine) (serverName toolName : string) : RiskLevel :=
  match reg_Tool (e_registry e) serverName toolName with
  | Some tool => if t_Risk tool <>s? "" then t_Risk tool else inferRisk toolName
  | None => inferRisk toolName
  end.
End engine.

(** ** Construction and reload *)

Definition NewEngine (p : option Policy) : Engine :=
  let p := default DefaultPolicy p in
  {| e_policy := p; e_registry := PolicyRegistry.NewRegistry p; e_clientID := ""; e_verified := None |}.

Definition SetClientID (e : Engine) (id : string) : Engine :=
  {| e_policy := e_policy e; e_registry := e_registry e; e_clientID := id; e_verified := e_verified e |}.

Definition SetVerifiedActor (e : Engine) (c : option Context) : Engine :=
  {| e_policy := e_policy e; e_registry := e_registry e; e_clientID := e_clientID e; e_verified := c |}.

(** [Reload] without a committer: [nil] is ignored, otherwise policy and
    registry are published together. *)
Definition Reload (e : Engine) (p : option Policy) : Engine :=
  match p with
  | None => e
  | Some p =>
      {| e_policy := p; e_registry := PolicyRegistry.NewRegistry p; e_clientID := e_clientID e;
         e_verified := e_verified e |}
  end.
