(* ===== verification/EngineSpec.v ===== *)
(** What the policy engine promises.  [verdict] is the abstract decision of
    a list of stages: a denial or an unsupported action anywhere denies, else
    a demand for approval anywhere requires it, else the call is allowed.
    [Evaluate] refines it; that the order of the rules of a tool cannot
    matter, and what an allowed call has passed, are consequences. *)
From stdpp Require Import base strings gmap list.
From Stdlib Require Import ZArith Lia Ascii Sorted.
From S2P Require Import Prelude GoStrings GoLib Lineage LineageRegistry ActorContext.
From S2P Require Import PolicyTypes PolicyRegistry Slots Rules Engine.
#[local] Open Scope Z_scope.

Definition approves (d : Decision) : bool := d_Action d =s? ActionRequireApproval.
Definition allows (d : Decision) : bool := d_Action d =s? ActionAllow.
Definition refuses (d : Decision) : bool := negb (allows d) && negb (approves d).

Definition verdict (l : list Decision) : Action :=
  if existsb refuses l then ActionDeny
  else if existsb approves l then ActionRequireApproval else ActionAllow.

(** ** The abstract decision *)

Lemma allows_spec d : allows d = true <-> d_Action d = ActionAllow.
Proof. apply str_eqb_true. Qed.

Lemma verdict_perm l l' : Permutation l l' -> verdict l = verdict l'.
Proof.
  intros P. unfold verdict. by rewrite (existsb_perm refuses _ _ P), (existsb_perm approves _ _ P).
Qed.

Lemma verdict_allow l : verdict l = ActionAllow <-> forallb allows l = true.
Proof.
  unfold verdict. induction l as [|d l IH]; cbn; [done|]. unfold refuses at 1.
  assert (approves d = true -> allows d = false) as Hex.
  { unfold approves, allows. intros E. bools. by rewrite E. }
  destruct (allows d) eqn:Ea, (approves d) eqn:Er; cbn; try (rewrite <-IH).
  - pose proof (Hex eq_refl). congruence.
  - done.
  - by destruct (existsb refuses l).
  - done.
Qed.

Lemma verdict_cases l :
  verdict l = ActionDeny \/ verdict l = ActionRequireApproval \/ verdict l = ActionAllow.
Proof. unfold verdict. destruct (existsb refuses l), (existsb approves l); auto. Qed.

(** ** The fold refines it *)

(** [*pending] after [mergeEvalDecision] has seen [l] without stopping. *)
Definition pending_after (pending : Decision) (l : list Decision) : Decision :=
  if approves pending then pending else default pending (List.find approves l).

Lemma pending_after_nil p : pending_after p [] = p.
Proof. unfold pending_after. by destruct (approves p). Qed.

Lemma pending_after_cons p d l :
  pending_after p (d :: l) =
  pending_after (if approves d then (if approves p then p else d) else p) l.
Proof.
  unfold pending_after. cbn. destruct (approves d) eqn:Ed, (approves p) eqn:Ep;
    rewrite ?Ep, ?Ed; cbn; by rewrite ?Ep, ?Ed.
Qed.

Lemma approves_pending_after p l :
  approves (pending_after p l) = approves p || existsb approves l.
Proof.
  unfold pending_after. destruct (approves p) eqn:Ep; [done|]. cbn.
  destruct (List.find approves l) as [d|] eqn:E; cbn.
  - apply find_some in E as [Hin Hd]. rewrite Hd. symmetry. apply existsb_exists. eauto.
  - rewrite Ep. symmetry. apply not_true_iff_false. rewrite existsb_exists.
    intros (d & Hin & Hd). pose proof (find_none _ _ E d Hin). congruence.
Qed.

Section fold.
Context `{GoFmt}.

Lemma merge_refuses p d :
  refuses d = true -> exists d', mergeEvalDecision p d = (p, Some d') /\ d_Action d' = ActionDeny.
Proof.
  unfold refuses, allows, approves, mergeEvalDecision. intros Hr.
  apply andb_true_iff in Hr as [Ha Hr]. apply negb_true_iff in Ha, Hr. rewrite Ha, Hr.
  destruct (d_Action d =? ActionDeny)%string eqn:E; bools; eauto.
Qed.

Lemma merge_continues p d :
  refuses d = false ->
  mergeEvalDecision p d = (if approves d then (if approves p then p else d) else p, None).
Proof.
  unfold refuses, allows, approves, mergeEvalDecision. intros Hr.
  destruct (d_Action d =? ActionAllow)%string eqn:Ea.
  { bools. by rewrite Ea. }
  cbn in Hr. apply negb_false_iff in Hr. rewrite Hr. bools. rewrite Hr. cbn.
  by destruct (d_Action p =? ActionRequireApproval)%string.
Qed.

Lemma stages_action p l ret k :
  (forall d, d_Action (ret d) = d_Action d) ->
  d_Action (stages p l ret k) =
  if existsb refuses l then ActionDeny else d_Action (k (pending_after p l)).
Proof.
  intros Hret. revert p. induction l as [|d l IH]; intros p; cbn; [by rewrite pending_after_nil|].
  unfold stage. destruct (refuses d) eqn:E; cbn.
  - destruct (merge_refuses p d E) as (d' & -> & Hd). by rewrite Hret.
  - rewrite merge_continues, IH by done. by rewrite pending_after_cons.
Qed.

(** The nest of [stages] that [Evaluate] is, each with its own [ret]. *)
Fixpoint nested (p : Decision) (ls : list ((Decision -> Decision) * list Decision))
    (k : Decision -> Decision) : Decision :=
  match ls with
  | [] => k p
  | (ret, l) :: ls => stages p l ret (fun p => nested p ls k)
  end.

Lemma nested_action p ls k :
  Forall (fun rl => forall d, d_Action (rl.1 d) = d_Action d) ls ->
  (forall p, d_Action (k p) = if approves p then ActionRequireApproval else ActionAllow) ->
  approves p = false ->
  d_Action (nested p ls k) = verdict (concat (ls.*2)).
Proof.
  intros Hls Hk Hp.
  assert (forall p, d_Action (nested p ls k) =
    if existsb refuses (concat (ls.*2)) then ActionDeny
    else if approves p || existsb approves (concat (ls.*2)) then ActionRequireApproval
    else ActionAllow) as ->; [|by rewrite Hp].
  clear p Hp. induction Hls as [|[ret l] ls Hret _ IH]; intros p; cbn.
  - by rewrite Hk, orb_false_r.
  - rewrite stages_action, IH by done. rewrite !existsb_app, approves_pending_after, orb_assoc.
    by destruct (existsb refuses l).
Qed.

Lemma stage_as_stages p d ret k : stage p d ret k = stages p [d] ret k.
Proof. done. Qed.

Lemma withLineage_action ev d : d_Action (withLineage ev d) = d_Action d.
Proof. unfold withLineage. by destruct ev, (d_Lineage d). Qed.
End fold.

Section evaluate.
Context `{GoUnicode} `{GoPatterns} `{GoArch} `{GoTime} `{GoFmt} `{GoJSON} `{GoCrypto}
  `{SnapshotJSON}.

Definition tool_of (e : Engine) (serverName : string) (req : ToolsCallRequest) : option ToolRule :=
  reg_Tool (e_registry e) serverName (tc_Name req).
Definition rules_of (e : Engine) (serverName : string) (req : ToolsCallRequest) : list ArgRule :=
  match tool_of e serverName req with Some t => t_Rules t | None => [] end.

(** The stages of a call, in the order [Evaluate] runs them. *)
Definition all_stages (e : Engine) (clock : Clock) (serverName : string) (req : ToolsCallRequest)
    : list Decision :=
  let pol := e_policy e in
  let tool := tool_of e serverName req in
  let a := extractArgs (tc_Arguments req) in
  [evaluateVerifiedActor e tool pol (at_actor clock)] ++
  (if hasLineageRequire (rules_of e serverName req)
   then [EvaluateLineageAt e serverName (tc_Name req) a (Some pol) (at_lineage clock)] else []) ++
  ((fun rule => evaluateRule rule a (tc_Name req)) <$> rules_of e serverName req) ++
  (if (0 <? length (p_Identities pol))%nat && (e_clientID e <>s? "")
   then [evaluateIdentity e serverName (tc_Name req) pol] else []) ++
  (if (0 <? length (p_TimeRestrictions pol))%nat
   then [evaluateTimeRestriction serverName (tc_Name req) pol (at_window clock)] else []) ++
  (if match tool with Some t => t_ApprovalRequired t | None => false end
   then [decision ActionRequireApproval ("tool '" +:+ tc_Name req +:+ "' requires approval")] else []).

Definition registered (e : Engine) (serverName : string) (req : ToolsCallRequest) : option Decision :=
  registration (e_policy e) (reg_Server (e_registry e) serverName) (tool_of e serverName req)
    serverName (tc_Name req).

Lemma approves_after_app p l1 l2 :
  approves (pending_after (pending_after p l1) l2) = approves p || existsb approves (l1 ++ l2).
Proof. by rewrite !approves_pending_after, existsb_app, orb_assoc. Qed.

Lemma Evaluate_folds (e : Engine) (clock : Clock) (serverName : string) (req : ToolsCallRequest) :
  match registered e serverName req with
  | Some d => Evaluate e clock serverName req = d /\ d_Action d = ActionDeny
  | None => d_Action (Evaluate e clock serverName req) =
              verdict (all_stages e clock serverName req)
  end.
Proof.
  unfold registered. destruct (registration _ _ _ _ _) as [d|] eqn:Er.
  { split; [unfold Evaluate; unfold tool_of in Er; by rewrite Er|].
    unfold registration in Er. by repeat (case_match; simplify_eq/=). }
  unfold Evaluate. unfold tool_of in Er. rewrite Er.
  fold (tool_of e serverName req). fold (rules_of e serverName req). unfold all_stages.
  set (a := extractArgs _).
  set (L := if hasLineageRequire _ then Some _ else None).
  set (w := withLineage (L ≫= d_Lineage)).
  etrans; [apply (nested_action zeroDecision
    [(fun d => d, [_]); (fun d => d, option_list L); (w, _); (w, _); (w, _); (w, _)]
    (fun p => if d_Action p =? ActionRequireApproval then w p
              else w (decision ActionAllow "allowed by policy"))%string)|].
  - repeat constructor; intros d; try done; apply withLineage_action.
  - intros p. unfold approves. destruct (_ =? _)%string eqn:E; subst w; rewrite withLineage_action;
      [by bools|done].
  - done.
  - cbn [concat fmap list_fmap snd]. subst L.
    destruct (hasLineageRequire _); cbn [option_list]; by rewrite app_nil_r.
Qed.

Lemma Evaluate_decides (e : Engine) (clock : Clock) (serverName : string) (req : ToolsCallRequest) :
  let a := d_Action (Evaluate e clock serverName req) in
  a = ActionDeny \/ a = ActionRequireApproval \/ a = ActionAllow.
Proof.
  cbn. pose proof (Evaluate_folds e clock serverName req) as Hf.
  destruct (registered e serverName req) as [d|]; [destruct Hf as [-> Hd]; by left|].
  rewrite Hf. apply verdict_cases.
Qed.

(** [Evaluate] refines the abstract decision: past the registration
    guards its action is the verdict of all the stages, whatever their
    order. *)
Theorem Evaluate_verdict (e : Engine) (clock : Clock) (serverName : string) (req : ToolsCallRequest) :
  match registered e serverName req with
  | Some d => Evaluate e clock serverName req = d /\ d_Action d = ActionDeny
  | None => d_Action (Evaluate e clock serverName req) =
              verdict (all_stages e clock serverName req)
  end.
Proof. apply Evaluate_folds. Qed.


(** ** What an allowed call has passed *)

(** Known where the default is deny, and not switched off. *)
Record registered_ok (e : Engine) (serverName : string) (req : ToolsCallRequest) : Prop := {
  ro_default : p_DefaultAction (e_policy e) = ActionDeny ->
    is_Some (reg_Server (e_registry e) serverName) /\ is_Some (tool_of e serverName req);
  ro_server srv : reg_Server (e_registry e) serverName = Some srv -> s_Allowed srv = true;
  ro_tool t : tool_of e serverName req = Some t -> t_Allowed t = true
}.

Definition scopes_of (tool : option ToolRule) : list string :=
  match tool with Some t => t_RequiredScopes t | None => [] end.

(** A verified context, where one is required, that is valid now and holds
    every scope. *)
Definition actor_ok (e : Engine) (tool : option ToolRule) (now : Z) : Prop :=
  st_RequireVerifiedActor (p_Settings (e_policy e)) = true \/ scopes_of tool <> [] ->
  exists c, e_verified e = Some c /\ Check c now (Some now) = None /\
    forall scope, In scope (scopes_of tool) -> HasScope c scope = true.

(** An identity for the client, where identities are declared, that lists the
    server and the tool by exact name. *)
Definition identity_ok (e : Engine) (serverName toolName : string) : Prop :=
  p_Identities (e_policy e) <> [] -> e_clientID e <> "" ->
  exists i, findIdentity e (e_policy e) = Some i /\ id_Name i = e_clientID e /\
    In serverName (id_AllowedServers i) /\ In (serverName +:+ "/" +:+ toolName) (id_AllowedTools i).

Lemma registration_None e serverName req :
  registered e serverName req = None <-> registered_ok e serverName req.
Proof.
  unfold registered, registration. split.
  - intros E. split.
    + intros Hd. rewrite Hd in E. cbn in E.
      destruct (reg_Server _ _), (tool_of e _ _); cbn in E; try done; eauto.
    + intros srv Es. rewrite Es in E. destruct (s_Allowed srv); [done|].
      by repeat (case_match; simplify_eq/=).
    + intros t Et. rewrite Et in E. destruct (t_Allowed t); [done|].
      by repeat (case_match; simplify_eq/=).
  - intros [Hd Hs Ht].
    destruct (p_DefaultAction (e_policy e) =? ActionDeny)%string eqn:E; bools.
    + destruct (Hd E) as [[srv Es] [t Et]]. rewrite Es, Et. cbn.
      by rewrite (Hs _ Es), (Ht _ Et).
    + rewrite !andb_false_r.
      destruct (reg_Server _ _) as [srv|]; [rewrite (Hs _ eq_refl)|];
        (destruct (tool_of e _ _) as [t|]; [rewrite (Ht _ eq_refl)|]); done.
Qed.

Lemma evaluateVerifiedActor_allow e tool now :
  allows (evaluateVerifiedActor e tool (e_policy e) now) = true <-> actor_ok e tool now.
Proof.
  unfold evaluateVerifiedActor, actor_ok. fold (scopes_of tool).
  destruct (st_RequireVerifiedActor _ || _) eqn:Er; cbn [negb].
  - assert (st_RequireVerifiedActor (p_Settings (e_policy e)) = true \/ scopes_of tool <> []) as Hr.
    { apply orb_true_iff in Er as [Er|Er]; [by left|right]. by destruct (scopes_of tool). }
    destruct (e_verified e) as [c|]; [|split; [done|]; intros H7; by destruct (H7 Hr) as (? & ? & _)].
    destruct (Check c now (Some now)) as [err|] eqn:Ec.
    { split; [done|]. intros H7. destruct (H7 Hr) as (? & [= <-] & ? & _). congruence. }
    unfold missing_scope. destruct (List.find _ _) as [scope|] eqn:Ef.
    + split; [done|]. intros H7. destruct (H7 Hr) as (? & [= <-] & _ & Hall).
      apply find_some in Ef as [Hin Hs]. rewrite Hall in Hs by done. done.
    + split; [|done]. intros _ _. exists c. split; [done|]. split; [done|]. intros scope Hin.
      pose proof (find_none _ _ Ef scope Hin) as Hs. by apply negb_false_iff in Hs.
  - split; [|done]. intros _ [Hr|Hr]; apply orb_false_iff in Er as [Er1 Er2]; [congruence|].
    by destruct (scopes_of tool).
Qed.

Lemma evaluateIdentity_allow e serverName toolName :
  (p_Identities (e_policy e) <> [] -> e_clientID e <> "" ->
   allows (evaluateIdentity e serverName toolName (e_policy e)) = true) <->
  identity_ok e serverName toolName.
Proof.
  unfold identity_ok, evaluateIdentity. unfold findIdentity.
  assert (forall s l, existsb (fun x => x =? s)%string l = str_in s l) as Hin by done.
  destruct (List.find _ _) as [i|] eqn:Ef.
  - apply find_some in Ef as [_ Hn]. bools. rewrite !Hin.
    split.
    + intros H7 Hi Hc. specialize (H7 Hi Hc). exists i. split; [done|]. split; [done|].
      rewrite <-!str_in_In. destruct (str_in serverName _); [|done].
      by destruct (str_in (serverName +:+ _) _).
    + intros H7 Hi Hc. destruct (H7 Hi Hc) as (? & [= <-] & _ & Hs & Ht).
      apply str_in_In in Hs, Ht. by rewrite Hs, Ht.
  - split; intros H7 Hi Hc; [by specialize (H7 Hi Hc)|]. by destruct (H7 Hi Hc) as (? & ? & _).
Qed.

Lemma stages_allow {A} (f : A -> Decision) rules d1 b2 d2 b4 d4 b5 d5 b6 d6 :
  forallb allows ([d1] ++ (if b2 : bool then [d2] else []) ++ (f <$> rules) ++
    (if b4 : bool then [d4] else []) ++ (if b5 : bool then [d5] else []) ++
    (if b6 : bool then [d6] else [])) = true <->
  allows d1 = true /\ (b2 = true -> d_Action d2 = ActionAllow) /\
  (forall r, In r rules -> d_Action (f r) = ActionAllow) /\
  (b4 = true -> allows d4 = true) /\ (b5 = true -> d_Action d5 = ActionAllow) /\
  (b6 = true -> d_Action d6 = ActionAllow).
Proof.
  assert (forall (b : bool) d, forallb allows (if b then [d] else []) = true <->
    (b = true -> allows d = true)) as Hif.
  { intros [] d; cbn [forallb]; rewrite ?andb_true_r; naive_solver. }
  assert (forallb allows (f <$> rules) = true <->
    (forall r, In r rules -> d_Action (f r) = ActionAllow)) as Hrules.
  { rewrite forallb_forall. split.
    - intros Hall r Hin. apply allows_spec, Hall. apply in_map_iff. by exists r.
    - intros Hall d Hd. apply in_map_iff in Hd as (r & <- & Hin). apply allows_spec. by apply Hall. }
  rewrite !forallb_app, !andb_true_iff, !Hif, Hrules, <-!allows_spec. cbn [forallb].
  by rewrite andb_true_r.
Qed.

Lemma length_pos {A} (l : list A) : (0 <? length l)%nat = true <-> l <> [].
Proof. destruct l; cbn; naive_solver. Qed.

Lemma approval_allow (tool : option ToolRule) d :
  d_Action d = ActionRequireApproval ->
  ((match tool with Some t => t_ApprovalRequired t | None => false end) = true ->
    d_Action d = ActionAllow) <-> (forall t, tool = Some t -> t_ApprovalRequired t = false).
Proof.
  intros Hd. destruct tool as [t|]; [|done]. destruct (t_ApprovalRequired t) eqn:Et.
  - split; intros Hx; [|specialize (Hx t eq_refl); congruence].
    specialize (Hx eq_refl). rewrite Hd in Hx. done.
  - split; [|done]. by intros _ ? [= <-].
Qed.

(** C17.  A call is allowed exactly when all of these hold: server and tool
    are registered where the default is deny, and not switched off; the
    verified actor the policy or the tool asks for is present, unexpired,
    untampered and holds every scope; a [lineage_require] tool passes the
    lineage check; every argument rule allows; the client's identity lists
    server and tool; the time restrictions allow; and the tool does not ask
    for approval. *)
Theorem Evaluate_allow_iff (e : Engine) (clock : Clock) (serverName : string)
    (req : ToolsCallRequest) :
  let tool := tool_of e serverName req in
  let a := extractArgs (tc_Arguments req) in
  d_Action (Evaluate e clock serverName req) = ActionAllow <->
  registered_ok e serverName req /\
  actor_ok e tool (at_actor clock) /\
  (hasLineageRequire (rules_of e serverName req) = true ->
     d_Action (EvaluateLineageAt e serverName (tc_Name req) a (Some (e_policy e)) (at_lineage clock))
       = ActionAllow) /\
  (forall rule, In rule (rules_of e serverName req) ->
     d_Action (evaluateRule rule a (tc_Name req)) = ActionAllow) /\
  identity_ok e serverName (tc_Name req) /\
  (p_TimeRestrictions (e_policy e) <> [] ->
     d_Action (evaluateTimeRestriction serverName (tc_Name req) (e_policy e) (at_window clock))
       = ActionAllow) /\
  (forall t, tool = Some t -> t_ApprovalRequired t = false).
Proof.
  intros tool a. rewrite <-registration_None, <-evaluateVerifiedActor_allow, <-evaluateIdentity_allow.
  pose proof (Evaluate_folds e clock serverName req) as Hv.
  destruct (registered e serverName req) as [d|].
  { destruct Hv as [-> Hd]. rewrite Hd. split; [done|]. by intros [? _]. }
  rewrite Hv, verdict_allow. unfold all_stages. rewrite stages_allow, andb_true_iff, !length_pos.
  rewrite str_neqb_true, approval_allow by done. fold tool a.
  generalize (d_Action (EvaluateLineageAt e serverName (tc_Name req) a (Some (e_policy e))
    (at_lineage clock))) (allows (evaluateVerifiedActor e tool (e_policy e) (at_actor clock)))
    (allows (evaluateIdentity e serverName (tc_Name req) (e_policy e))).
  intros A B C. tauto.
Qed.

(** ** Order *)

Definition with_rules (t : ToolRule) (rules : list ArgRule) : ToolRule := {|
  t_Name := t_Name t; t_Allowed := t_Allowed t; t_Risk := t_Risk t;
  t_ApprovalRequired := t_ApprovalRequired t; t_Delegates := t_Delegates t; t_Rules := rules;
  t_RequiredScopes := t_RequiredScopes t |}.

(** Two engines that differ at most in the order of the rules of one tool. *)
Record reordered (e e' : Engine) (serverName : string) (req : ToolsCallRequest) (t : ToolRule)
    (rules : list ArgRule) : Prop := {
  re_default : p_DefaultAction (e_policy e') = p_DefaultAction (e_policy e);
  re_settings : p_Settings (e_policy e') = p_Settings (e_policy e);
  re_identities : p_Identities (e_policy e') = p_Identities (e_policy e);
  re_windows : p_TimeRestrictions (e_policy e') = p_TimeRestrictions (e_policy e);
  re_lineage : p_Identity (e_policy e') = p_Identity (e_policy e);
  re_trajectories : p_Trajectories (e_policy e') = p_Trajectories (e_policy e);
  re_client : e_clientID e' = e_clientID e;
  re_verified : e_verified e' = e_verified e;
  re_server : s_Allowed <$> reg_Server (e_registry e') serverName =
    s_Allowed <$> reg_Server (e_registry e) serverName;
  re_tool : tool_of e serverName req = Some t;
  re_tool' : tool_of e' serverName req = Some (with_rules t rules);
  re_rules : Permutation (t_Rules t) rules
}.

Lemma EvaluateLineageAt_ext e e' serverName toolName a pol pol' now :
  e_clientID e' = e_clientID e -> e_verified e' = e_verified e ->
  p_Identity pol' = p_Identity pol -> p_Trajectories pol' = p_Trajectories pol ->
  EvaluateLineageAt e' serverName toolName a (Some pol') now =
  EvaluateLineageAt e serverName toolName a (Some pol) now.
Proof.
  intros Hc Hv Hi Ht. unfold EvaluateLineageAt, sessionIdentityAt. by rewrite Hc, Hv, Hi, Ht.
Qed.

Lemma registration_ext pol pol' srv srv' tool tool' serverName toolName :
  p_DefaultAction pol' = p_DefaultAction pol ->
  s_Allowed <$> srv' = s_Allowed <$> srv -> t_Allowed <$> tool' = t_Allowed <$> tool ->
  registration pol' srv' tool' serverName toolName = registration pol srv tool serverName toolName.
Proof.
  intros Hd Hs Ht. unfold registration. rewrite Hd.
  destruct srv, srv', tool, tool'; simplify_eq/=; by rewrite ?H6, ?H7, ?Hs, ?Ht.
Qed.

(** YAML order cannot skip a deny: permuting the rules of a tool never
    changes the action of a call. *)
Theorem Evaluate_rule_order (e e' : Engine) (clock : Clock) (serverName : string)
    (req : ToolsCallRequest) (t : ToolRule) (rules : list ArgRule) :
  reordered e e' serverName req t rules ->
  d_Action (Evaluate e' clock serverName req) = d_Action (Evaluate e clock serverName req).
Proof.
  intros [Hd Hset Hid Hw Hl Htr Hc Hv Hs Ht Ht' P].
  pose proof (Evaluate_folds e clock serverName req) as He.
  pose proof (Evaluate_folds e' clock serverName req) as He'.
  assert (registered e' serverName req = registered e serverName req) as Hr.
  { unfold registered. apply registration_ext; [done|done|]. by rewrite Ht, Ht'. }
  rewrite Hr in He'. destruct (registered e serverName req) as [d|].
  { by destruct He as [-> _], He' as [-> _]. }
  rewrite He, He'. apply verdict_perm. unfold all_stages.
  assert (hasLineageRequire rules = hasLineageRequire (t_Rules t)) as Hlr.
  { symmetry. by apply existsb_perm. }
  unfold rules_of. rewrite Ht, Ht', Hid, Hw, Hc.
  rewrite (EvaluateLineageAt_ext e e' _ _ _ (e_policy e) (e_policy e')) by done.
  cbn [with_rules t_Rules t_ApprovalRequired]. rewrite Hlr.
  apply Permutation_app; [|apply Permutation_app_head, Permutation_app].
  - unfold evaluateVerifiedActor. by rewrite Hv, Hset.
  - by rewrite P.
  - unfold evaluateIdentity, findIdentity, evaluateTimeRestriction. by rewrite Hc, Hid, Hw.
Qed.

(** ** Chains *)

(** The history a chain sees when its window was the first to cut. *)
Definition window (chain : ChainRule) (previousCalls : list string) : list string :=
  truncate_calls (cr_WithinCalls chain) previousCalls.

Lemma truncate_calls_wider a b l :
  a <= 0 \/ 0 < b <= a -> truncate_calls b (truncate_calls a l) = truncate_calls b l.
Proof.
  intros Hab. unfold truncate_calls. destruct ((0 <? a) && (a <? _)) eqn:Ea; [|done].
  bools. rewrite length_drop.
  destruct ((0 <? b) && (b <? Z.of_nat (length l))) eqn:Eb;
    destruct ((0 <? b) && (b <? Z.of_nat (length l - _))) eqn:Eb'; bools.
  - rewrite drop_drop. f_equal. lia.
  - f_equal. apply andb_false_iff in Eb'. rewrite !Z.ltb_ge in Eb'. lia.
  - apply andb_false_iff in Eb. rewrite !Z.ltb_ge in Eb. lia.
  - apply andb_false_iff in Eb. rewrite !Z.ltb_ge in Eb. lia.
Qed.

(** When no chain has a smaller window than a later one, the chain rules
    mean what they say: the decision is that of the first chain with a source
    among the calls of its own window and a sink for this call. *)
Theorem EvaluateChain_spec (e : Engine) (serverName : string) (req : ToolsCallRequest)
    (previousCalls : list string) :
  StronglySorted (fun c c' => cr_WithinCalls c <= 0 \/ 0 < cr_WithinCalls c' <= cr_WithinCalls c)
    (p_ToolChains (e_policy e)) ->
  EvaluateChain e serverName req previousCalls =
  match List.find (fun chain => chain_fires chain serverName (tc_Name req) (window chain previousCalls))
          (p_ToolChains (e_policy e)) with
  | Some chain => chain_decision chain
  | None => decision ActionAllow "no chain rule matched"
  end.
Proof.
  unfold EvaluateChain. intros Hs. revert previousCalls.
  induction Hs as [|c l Hs IH Hall]; intros prev; cbn [chain_loop List.find]; [done|].
  fold (window c prev). destruct (chain_fires c _ _ _); [done|]. rewrite IH.
  assert (forall c', In c' l -> window c' (window c prev) = window c' prev) as Hw.
  { intros c' Hin. apply truncate_calls_wider. rewrite Forall_forall in Hall.
    by apply Hall, list_elem_of_In. }
  assert (List.find (fun chain => chain_fires chain serverName (tc_Name req) (window chain (window c prev))) l
    = List.find (fun chain => chain_fires chain serverName (tc_Name req) (window chain prev)) l) as ->; [|done].
  clear IH Hs Hall. induction l as [|c' l IHl]; cbn; [done|].
  rewrite Hw by (by left). destruct (chain_fires c' _ _ _); [done|]. apply IHl.
  intros; apply Hw; by right.
Qed.
End evaluate.

(** ** Instances *)

Module EngineWitness.
(** Exact names anchored the way the chain rules and the tool globs are. *)
Definition anchored : GoPatterns := {|
  regexp_MatchString := fun p s => Some (p =s? "(?i)^" +:+ s +:+ "$");
  filepath_Match := fun p s => Some (p =s? s)
|}.
#[export] Existing Instances ascii_unicode anchored amd64 decimal_time plain_quote
  identity_digest coded_snapshot.
#[export] Instance no_json : GoJSON := const_json None.

Definition rule (type : string) : ArgRule := RulesWitness.rule type ["ann@x.org"] [] 0.
Definition mail_policy (rules : list ArgRule) : Policy :=
  RegistryWitness.policy [RegistryWitness.server "mail" [RegistryWitness.tool "send" rules]].
Definition engine (rules : list ArgRule) : Engine := NewEngine (Some (mail_policy rules)).
Definition call : ToolsCallRequest := {| tc_Name := "send"; tc_Arguments := "" |}.
Definition clock : Clock := {| at_actor := 0; at_lineage := 0; at_window := 0 |}.

Definition chain (name : string) (within : Z) : ChainRule := {|
  cr_Name := name; cr_Description := "";
  cr_Sources := [{| cm_Server := "fs"; cm_ToolPattern := "read" |}];
  cr_Sinks := [{| cm_Server := "*"; cm_ToolPattern := "send" |}];
  cr_Action := ActionDeny; cr_WithinCalls := within |}.
Definition unrelated (within : Z) : ChainRule := {|
  cr_Name := "unrelated"; cr_Description := "";
  cr_Sources := [{| cm_Server := "db"; cm_ToolPattern := "query" |}];
  cr_Sinks := [{| cm_Server := "*"; cm_ToolPattern := "export" |}];
  cr_Action := ActionDeny; cr_WithinCalls := within |}.

Definition with_chains (chains : list ChainRule) : Engine :=
  let p := mail_policy [] in
  NewEngine (Some {| p_Version := p_Version p; p_Description := p_Description p;
    p_DefaultAction := p_DefaultAction p; p_Settings := p_Settings p; p_Servers := p_Servers p;
    p_ToolChains := chains; p_Taints := []; p_EgressControls := []; p_Identities := [];
    p_TimeRestrictions := []; p_Redaction := p_Redaction p; p_CapabilityOwnership := None;
    p_Identity := None; p_Trajectories := [] |}).
End EngineWitness.

Section engine_witness.
Import EngineWitness.

(** The window of one chain rule cuts the history the later ones see: a
    chain that denies on its own is silenced by an unrelated chain, with a
    smaller window, declared before it. *)
Theorem EvaluateChain_window_leaks :
  let calls := ["fs:read"; "log:note"; "log:note"] in
  d_Action (EvaluateChain (with_chains [chain "exfil" 0]) "mail" call calls) = ActionDeny /\
  d_Action (EvaluateChain (with_chains [unrelated 2; chain "exfil" 0]) "mail" call calls) =
    ActionAllow.
Proof. split; vm_compute; reflexivity. Qed.

Lemma EvaluateChain_spec_witness :
  d_Action (EvaluateChain (with_chains [chain "exfil" 0; unrelated 2]) "mail" call
    ["fs:read"; "log:note"; "log:note"]) = ActionDeny.
Proof.
  rewrite (EvaluateChain_spec (with_chains [chain "exfil" 0; unrelated 2])).
  - vm_compute. reflexivity.
  - repeat constructor; cbn; lia.
Defined.

Lemma Evaluate_rule_order_witness :
  d_Action (Evaluate (engine [rule "allow_recipient"; rule "require_approval_always"]) clock "mail" call) =
  d_Action (Evaluate (engine [rule "require_approval_always"; rule "allow_recipient"]) clock "mail" call).
Proof.
  apply (Evaluate_rule_order
    (engine [rule "require_approval_always"; rule "allow_recipient"])
    (engine [rule "allow_recipient"; rule "require_approval_always"]) clock "mail" call
    (RegistryWitness.tool "send" [rule "require_approval_always"; rule "allow_recipient"])
    [rule "allow_recipient"; rule "require_approval_always"]).
  split; first [reflexivity | vm_compute; reflexivity | apply perm_swap].
Defined.
End engine_witness.
