(* ===== verification/PolicyValidate.v ===== *)
(** Policy validation: [Policy.Validate] and its helpers in
    [internal/policy/loader.go], [validateLineage] in [validator.go] and
    [CapabilityOwnership.Validate] in [capability_ownership.go].  The text
    that [time.Parse] adds to a malformed time is abbreviated.

    A [map[string]bool] used as a set of seen names is a [gset]. *)
From stdpp Require Import base strings gmap list.
From Stdlib Require Import ZArith Lia Ascii.
From S2P Require Import Prelude GoStrings GoLib Lineage LineageRegistry PolicyTypes Engine.
#[local] Open Scope Z_scope.

(** ** Fixed regular expressions, and base64 *)

Definition is_lower_hex (c : ascii) : bool := is_digit c || in_range "a" "f" c.

(** [^sha256:[0-9a-f]{64}$] *)
Definition serverAttestationDigestRe (s : string) : bool :=
  HasPrefix s "sha256:" && (String.length (drop_bytes 7 s) =? 64)%nat &&
  all_bytes is_lower_hex (drop_bytes 7 s).

(** [^[A-Za-z0-9][A-Za-z0-9._-]{0,63}$] *)
Definition is_key_id_byte (c : ascii) : bool :=
  is_alnum c || Ascii.eqb c "." || Ascii.eqb c "_" || Ascii.eqb c "-".
Definition instructionAuthorityKeyIDRe (s : string) : bool :=
  match s with
  | "" => false
  | String c s' => is_alnum c && all_bytes is_key_id_byte s' && (String.length s' <=? 63)%nat
  end.

(** [base64.RawURLEncoding]: six bits a byte, no padding.  Decoding skips CR
    and LF and ignores the bits left over in the last byte. *)
Definition b64_alphabet : string :=
  "ABCDEFGHIJKLMNOPQRSTUVWXYZabcdefghijklmnopqrstuvwxyz0123456789-_".
Definition b64_digit (z : Z) : ascii :=
  match String.get (Z.to_nat z) b64_alphabet with Some c => c | None => NUL end.
Fixpoint b64_index (alphabet : string) (c : ascii) : option Z :=
  match alphabet with
  | "" => None
  | String d rest => if Ascii.eqb c d then Some 0 else Z.succ <$> b64_index rest c
  end.

Fixpoint b64_encode (s : string) : string :=
  match s with
  | "" => ""
  | String a "" =>
      let n := Z.shiftl (byteZ a) 4 in
      String (b64_digit (Z.shiftr n 6)) (String (b64_digit (Z.land n 63)) "")
  | String a (String b "") =>
      let n := Z.shiftl (Z.lor (Z.shiftl (byteZ a) 8) (byteZ b)) 2 in
      String (b64_digit (Z.shiftr n 12))
        (String (b64_digit (Z.land (Z.shiftr n 6) 63)) (String (b64_digit (Z.land n 63)) ""))
  | String a (String b (String c rest)) =>
      let n := Z.lor (Z.shiftl (Z.lor (Z.shiftl (byteZ a) 8) (byteZ b)) 8) (byteZ c) in
      String (b64_digit (Z.shiftr n 18))
        (String (b64_digit (Z.land (Z.shiftr n 12) 63))
          (String (b64_digit (Z.land (Z.shiftr n 6) 63))
            (String (b64_digit (Z.land n 63)) (b64_encode rest))))
  end.

Fixpoint b64_values (s : string) : option (list Z) :=
  match s with
  | "" => Some []
  | String c s' =>
      if Ascii.eqb c CR || Ascii.eqb c LF then b64_values s'
      else match b64_index b64_alphabet c with
      | Some v => cons v <$> b64_values s'
      | None => None
      end
  end.

Fixpoint b64_bytes (l : list Z) : option string :=
  match l with
  | [] => Some ""
  | [_] => None
  | [a; b] => Some (String (Zbyte (Z.lor (Z.shiftl a 2) (Z.shiftr b 4))) "")
  | [a; b; c] =>
      Some (String (Zbyte (Z.lor (Z.shiftl a 2) (Z.shiftr b 4)))
        (String (Zbyte (Z.lor (Z.shiftl (Z.land b 15) 4) (Z.shiftr c 2))) ""))
  | a :: b :: c :: d :: rest =>
      match b64_bytes rest with
      | Some s =>
          Some (String (Zbyte (Z.lor (Z.shiftl a 2) (Z.shiftr b 4)))
            (String (Zbyte (Z.lor (Z.shiftl (Z.land b 15) 4) (Z.shiftr c 2)))
              (String (Zbyte (Z.lor (Z.shiftl (Z.land c 3) 6) d)) s)))
      | None => None
      end
  end.
Definition b64_decode (s : string) : option string :=
  match b64_values s with Some l => b64_bytes l | None => None end.

(** ** Servers *)

Definition validate_position (name : string) (pos : Z) (seen : gset Z) : error :=
  fail_if (pos <? 0)
    ("server " +:+ name +:+ ": attestation entry_arg_positions must be non-negative, got " +:+ Itoa pos) ;;?
  fail_if (bool_decide (pos ∈ seen))
    ("server " +:+ name +:+ ": duplicate attestation entry_arg_positions " +:+ Itoa pos).

(** A loop that checks each element against the names seen so far:
    [name x] is recorded after [check x seen] passes. *)
Fixpoint each_seen {A K} `{Countable K} (name : A -> K) (check : nat -> A -> gset K -> error)
    (i : nat) (l : list A) (seen : gset K) : error :=
  match l with
  | [] => None
  | x :: l' => check i x seen ;;? each_seen name check (S i) l' ({[name x]} ∪ seen)
  end.

Definition validate_attestation (srv : Server) : error :=
  match s_Attestation srv with
  | None => None
  | Some at_ =>
      fail_if (sa_Kind at_ <>s? "stdio_invocation_sha256_v1")
        ("server " +:+ s_Name srv +:+ ": unsupported attestation kind '" +:+ sa_Kind at_ +:+
         "' (supported: stdio_invocation_sha256_v1)") ;;?
      fail_if (negb (serverAttestationDigestRe (sa_Digest at_)))
        ("server " +:+ s_Name srv +:+ ": attestation digest must match sha256:<64 lowercase hex>") ;;?
      each_seen (fun pos => pos) (fun _ => validate_position (s_Name srv)) 0 (sa_EntryArgPositions at_) ∅
  end.

Definition valid_risk (risk : RiskLevel) : bool :=
  str_in risk [RiskCritical; RiskHigh; RiskMedium; RiskLow; RiskUnknown].

Definition validate_tool (srv : string) (j : nat) (tool : ToolRule) (seen : gset string) : error :=
  fail_if (t_Name tool =s? "")
    ("server " +:+ srv +:+ ", tool index " +:+ Itoa (Z.of_nat j) +:+ ": name is required") ;;?
  fail_if (bool_decide (t_Name tool ∈ seen))
    ("server " +:+ srv +:+ ": duplicate tool: " +:+ t_Name tool) ;;?
  fail_if ((t_Risk tool <>s? "") && negb (valid_risk (t_Risk tool)))
    ("server " +:+ srv +:+ ", tool " +:+ t_Name tool +:+ ": invalid risk level '" +:+ t_Risk tool +:+ "'").

Definition validate_server (i : nat) (srv : Server) (seen : gset string) : error :=
  fail_if (s_Name srv =s? "")
    ("server at index " +:+ Itoa (Z.of_nat i) +:+ ": name is required") ;;?
  fail_if (bool_decide (s_Name srv ∈ seen)) ("duplicate server: " +:+ s_Name srv) ;;?
  validate_attestation srv ;;?
  each_seen t_Name (validate_tool (s_Name srv)) 0 (s_Tools srv) ∅.

(** ** Chains, taints, egress controls *)

Definition validate_chain (i : nat) (chain : ChainRule) : error :=
  fail_if (cr_Name chain =s? "")
    ("chain rule at index " +:+ Itoa (Z.of_nat i) +:+ ": name is required") ;;?
  fail_if (length (cr_Sources chain) =? 0)%nat
    ("chain rule " +:+ cr_Name chain +:+ ": at least one source is required") ;;?
  fail_if (length (cr_Sinks chain) =? 0)%nat
    ("chain rule " +:+ cr_Name chain +:+ ": at least one sink is required").

Definition validate_taint (i : nat) (taint : TaintRule) : error :=
  fail_if (ta_Name taint =s? "")
    ("taint rule at index " +:+ Itoa (Z.of_nat i) +:+ ": name is required") ;;?
  fail_if (length (ta_SourceTools taint) =? 0)%nat
    ("taint rule " +:+ ta_Name taint +:+ ": at least one source tool is required").

Definition validate_egress (i : nat) (control : EgressControlRule) : error :=
  fail_if (ec_Name control =s? "")
    ("egress control at index " +:+ Itoa (Z.of_nat i) +:+ ": name is required") ;;?
  fail_if (ec_WhenTainted control =s? "")
    ("egress control " +:+ ec_Name control +:+ ": when_tainted is required") ;;?
  fail_if (length (ec_SinkTools control) =? 0)%nat
    ("egress control " +:+ ec_Name control +:+ ": at least one sink tool is required") ;;?
  fail_if ((ec_Action control <>s? ActionDeny) && (ec_Action control <>s? ActionRequireApproval))
    ("egress control " +:+ ec_Name control +:+ ": action must be 'deny' or 'require_approval', got '"
     +:+ ec_Action control +:+ "'").

(** ** Capability ownership *)

Section validate.
Context `{GoTime} `{GoFmt}.

Definition validate_cap (server : string) (cap : CapabilityDecl) (seenTools : gset string) : error :=
  fail_if (cd_Tool cap =s? "") ("capability_ownership endpoint " +:+ server +:+ ": tool is required") ;;?
  fail_if (cd_EffectClass cap =s? "")
    ("capability_ownership endpoint " +:+ server +:+ " tool " +:+ cd_Tool cap +:+ ": effect_class is required") ;;?
  fail_if (bool_decide (cd_Tool cap ∈ seenTools))
    ("capability_ownership endpoint " +:+ server +:+ ": duplicate tool " +:+ cd_Tool cap).

(** [seenTools] after the loop over the capabilities of an endpoint. *)
Definition declared_tools (ep : OwnedEndpoint) : gset string :=
  list_to_set (cd_Tool <$> oe_Capabilities ep).

Definition validate_endpoint (p : Policy) (i : nat) (ep : OwnedEndpoint) (seen : gset string) : error :=
  fail_if (oe_Server ep =s? "")
    ("capability_ownership endpoint at index " +:+ Itoa (Z.of_nat i) +:+ ": server is required") ;;?
  fail_if (oe_Owner ep =s? "")
    ("capability_ownership endpoint " +:+ oe_Server ep +:+ ": owner is required") ;;?
  fail_if (bool_decide (oe_Server ep ∈ seen))
    ("capability_ownership: duplicate endpoint " +:+ oe_Server ep) ;;?
  match List.find (fun s => s_Name s =s? oe_Server ep) (p_Servers p) with
  | None => Some ("capability_ownership endpoint " +:+ oe_Server ep +:+ ": unknown server")
  | Some srv =>
      each_seen cd_Tool (fun _ => validate_cap (oe_Server ep)) 0 (oe_Capabilities ep) ∅ ;;?
      each_err (fun tool =>
        fail_if (t_Allowed tool && bool_decide (t_Name tool ∉ declared_tools ep))
          ("capability_ownership endpoint " +:+ oe_Server ep +:+ ": allowed tool " +:+ t_Name tool +:+
           " lacks a capability declaration")) (s_Tools srv)
  end.

(** [decls[server][tool]], and the owner of [server]: the last endpoint of
    that name wins, as the assignments of the code do. *)
Definition decls (c : CapabilityOwnership) : gmap string (gmap string CapabilityDecl) :=
  foldl (fun m ep =>
    <[oe_Server ep := foldl (fun t cap => <[cd_Tool cap := cap]> t) ∅ (oe_Capabilities ep)]> m)
    ∅ (co_Endpoints c).
Definition endpoint_owner (c : CapabilityOwnership) (server : string) : string :=
  foldl (fun owner ep => if oe_Server ep =s? server then oe_Owner ep else owner) "" (co_Endpoints c).

Definition grant_err (g : DelegationGrant) (msg : string) : string :=
  "capability_ownership delegation " +:+ dg_ID g +:+ ": " +:+ msg.

Definition validate_scope (g : DelegationGrant) (decl : CapabilityDecl) : error :=
  if cd_ScopeArgument decl =s? "" then
    fail_if (bool_decide (is_Some (dg_ResourceScope g)))
      (grant_err g "tool declares no scope argument")
  else match dg_ResourceScope g with
  | None => Some (grant_err g ("missing resource_scope for scope argument " +:+ fmt_q (cd_ScopeArgument decl)))
  | Some rs =>
      fail_if (rs_Argument rs <>s? cd_ScopeArgument decl)
        (grant_err g ("scope argument " +:+ fmt_q (rs_Argument rs) +:+ " disagrees with declaration "
                      +:+ fmt_q (cd_ScopeArgument decl))) ;;?
      fail_if (length (rs_ExactValues rs) =? 0)%nat (grant_err g "exact_values is required")
  end.

Definition validate_times (g : DelegationGrant) : error :=
  match parse_RFC3339 (dg_IssuedAt g) with
  | None => Some (grant_err g "malformed issued_at: parsing time")
  | Some issued =>
      match parse_RFC3339 (dg_ExpiresAt g) with
      | None => Some (grant_err g "malformed expires_at: parsing time")
      | Some expires => fail_if (negb (issued <? expires)) (grant_err g "expires_at must be after issued_at")
      end
  end.

Definition validate_grant (c : CapabilityOwnership) (i : nat) (g : DelegationGrant)
    (seen : gset string) : error :=
  fail_if (dg_ID g =s? "")
    ("capability_ownership delegation at index " +:+ Itoa (Z.of_nat i) +:+ ": id is required") ;;?
  fail_if (bool_decide (dg_ID g ∈ seen)) ("capability_ownership: duplicate delegation id " +:+ dg_ID g) ;;?
  each_err (fun '(name, value) => fail_if (value =s? "") (grant_err g (name +:+ " is required")))
    [("owner", dg_Owner g); ("delegate", dg_Delegate g); ("server", dg_Server g);
     ("tool", dg_Tool g); ("effect_class", dg_EffectClass g)] ;;?
  match decls c !! dg_Server g with
  | None => Some (grant_err g ("unknown endpoint " +:+ dg_Server g))
  | Some epTools =>
      match epTools !! dg_Tool g with
      | None => Some (grant_err g ("undeclared tool " +:+ dg_Tool g +:+ " on " +:+ dg_Server g))
      | Some decl =>
          fail_if (dg_Owner g <>s? endpoint_owner c (dg_Server g))
            (grant_err g ("owner " +:+ fmt_q (dg_Owner g) +:+ " is not the endpoint owner "
                          +:+ fmt_q (endpoint_owner c (dg_Server g)))) ;;?
          fail_if (dg_EffectClass g <>s? cd_EffectClass decl)
            (grant_err g ("effect_class " +:+ fmt_q (dg_EffectClass g) +:+ " disagrees with declaration "
                          +:+ fmt_q (cd_EffectClass decl))) ;;?
          validate_scope g decl ;;? validate_times g
      end
  end.

(** [CapabilityOwnership.Validate]; a nil receiver is valid. *)
Definition validate_ownership (c : option CapabilityOwnership) (p : Policy) : error :=
  match c with
  | None => None
  | Some c =>
      each_seen oe_Server (validate_endpoint p) 0 (co_Endpoints c) ∅ ;;?
      each_seen dg_ID (validate_grant c) 0 (co_Delegations c) ∅
  end.

(** ** Keys, lineage, the whole policy *)

Definition validate_key (kv : string * string) : error :=
  let '(id, enc) := kv in
  fail_if (negb (instructionAuthorityKeyIDRe id))
    ("settings.instruction_authority_ed25519_public_keys: invalid key id " +:+ fmt_q id) ;;?
  fail_if (match b64_decode enc with
           | Some b => negb (String.length b =? 32)%nat || (b64_encode b <>s? enc)
           | None => true
           end)
    ("settings.instruction_authority_ed25519_public_keys[" +:+ fmt_q id +:+
     "]: must be canonical unpadded base64url for a 32-byte Ed25519 public key").

Definition validateInstructionAuthorityKeys (p : Policy) : error :=
  let keys := st_InstructionAuthorityKeys (p_Settings p) in
  fail_if (st_InstructionAuthorityContinuity (p_Settings p) && (length keys =? 0)%nat)
    "settings.instruction_authority_ed25519_public_keys: at least one key is required when instruction_authority_continuity is true" ;;?
  each_err validate_key keys.

Definition hasRequire (p : Policy) : bool :=
  existsb (fun srv => existsb (fun tool => hasLineageRequire (t_Rules tool)) (s_Tools srv)) (p_Servers p).

Definition validateLineage (p : Policy) : error :=
  match p_Identity p with
  | Some id =>
      if is_Version id =? 0 then
        fail_if (0 <? length (p_Trajectories p))%nat "lineage: trajectories require identity.version=1" ;;?
        fail_if (hasRequire p) "lineage: lineage_require requires identity.version=1"
      else
        fail_if (negb (is_Version id =? 1)) "lineage: identity.version must be 1" ;;?
        match LineageRegistry.NewRegistry (is_Agents id) (is_Grants id) (p_Trajectories p) with
        | Some (Ok _) => None
        | Some (Err e) => Some e
        | None => Some "lineage: registry"
        end
  | None =>
      fail_if (0 <? length (p_Trajectories p))%nat "lineage: trajectories require identity.version=1" ;;?
      fail_if (hasRequire p) "lineage: lineage_require requires identity.version=1"
  end.

Definition Validate (p : Policy) : error :=
  fail_if (p_Version p =s? "") "policy version is required" ;;?
  fail_if ((p_DefaultAction p <>s? ActionAllow) && (p_DefaultAction p <>s? ActionDeny))
    ("default_action must be 'allow' or 'deny', got '" +:+ p_DefaultAction p +:+ "'") ;;?
  each_seen s_Name validate_server 0 (p_Servers p) ∅ ;;?
  each_err_i validate_chain 0 (p_ToolChains p) ;;?
  each_err_i validate_taint 0 (p_Taints p) ;;?
  each_err_i validate_egress 0 (p_EgressControls p) ;;?
  validate_ownership (p_CapabilityOwnership p) p ;;?
  validateInstructionAuthorityKeys p ;;?
  validateLineage p.
End validate.
