(* ===== verification/PolicyWf.v ===== *)
(** What a policy that loads is: [Validate] accepts exactly the policies that
    [policy_wf] describes. *)
From stdpp Require Import base strings gmap list.
From Stdlib Require Import ZArith Lia Ascii.
From S2P Require Import Prelude GoStrings GoLib Lineage LineageRegistry PolicyTypes PolicyRegistry.
From S2P Require Import Engine PolicyValidate.
#[local] Open Scope Z_scope.

(** ** The specification *)

Record attestation_wf (at_ : ServerAttestation) : Prop := {
  aw_kind : sa_Kind at_ = "stdio_invocation_sha256_v1";
  aw_digest : serverAttestationDigestRe (sa_Digest at_) = true;
  aw_positions : Forall (fun pos => 0 <= pos) (sa_EntryArgPositions at_);
  aw_distinct : NoDup (sa_EntryArgPositions at_)
}.

Record tool_wf (t : ToolRule) : Prop := {
  tw_name : t_Name t <> "";
  tw_risk : t_Risk t <> "" -> In (t_Risk t) [RiskCritical; RiskHigh; RiskMedium; RiskLow; RiskUnknown]
}.

Record server_wf (s : Server) : Prop := {
  sw_name : s_Name s <> "";
  sw_attestation at_ : s_Attestation s = Some at_ -> attestation_wf at_;
  sw_tools : Forall tool_wf (s_Tools s);
  sw_tool_names : NoDup (t_Name <$> s_Tools s)
}.

Definition chain_wf (c : ChainRule) : Prop :=
  cr_Name c <> "" /\ cr_Sources c <> [] /\ cr_Sinks c <> [].
Definition taint_wf (t : TaintRule) : Prop := ta_Name t <> "" /\ ta_SourceTools t <> [].
Definition egress_wf (e : EgressControlRule) : Prop :=
  ec_Name e <> "" /\ ec_WhenTainted e <> "" /\ ec_SinkTools e <> [] /\
  (ec_Action e = ActionDeny \/ ec_Action e = ActionRequireApproval).

(** An endpoint of the ownership block names a server of the policy, and
    declares each of its allowed tools. *)
Record endpoint_wf (p : Policy) (ep : OwnedEndpoint) : Prop := {
  ew_server : oe_Server ep <> "";
  ew_owner : oe_Owner ep <> "";
  ew_caps : Forall (fun cap => cd_Tool cap <> "" /\ cd_EffectClass cap <> "") (oe_Capabilities ep);
  ew_distinct : NoDup (cd_Tool <$> oe_Capabilities ep);
  ew_complete : exists srv, List.find (fun s => s_Name s =s? oe_Server ep) (p_Servers p) = Some srv /\
    forall t, In t (s_Tools srv) -> t_Allowed t = true ->
      In (t_Name t) (cd_Tool <$> oe_Capabilities ep)
}.

(** A grant names a declared capability of an endpoint, its owner and its
    effect class, binds the declared scope argument if there is one, and has a
    nonempty lifetime. *)
Record delegation_wf `{GoTime} (c : CapabilityOwnership) (g : DelegationGrant) : Prop := {
  dw_id : dg_ID g <> "";
  dw_delegate : dg_Delegate g <> "";
  dw_nonempty : dg_Owner g <> "" /\ dg_Server g <> "" /\ dg_Tool g <> "" /\ dg_EffectClass g <> "";
  dw_decl : exists ep cap,
    In ep (co_Endpoints c) /\ oe_Server ep = dg_Server g /\ oe_Owner ep = dg_Owner g /\
    In cap (oe_Capabilities ep) /\ cd_Tool cap = dg_Tool g /\
    cd_EffectClass cap = dg_EffectClass g /\
    (cd_ScopeArgument cap = "" /\ dg_ResourceScope g = None \/
     cd_ScopeArgument cap <> "" /\ exists rs, dg_ResourceScope g = Some rs /\
       rs_Argument rs = cd_ScopeArgument cap /\ rs_ExactValues rs <> []);
  dw_lifetime : exists i x, parse_RFC3339 (dg_IssuedAt g) = Some i /\
    parse_RFC3339 (dg_ExpiresAt g) = Some x /\ i < x
}.

Record ownership_wf `{GoTime} (p : Policy) (c : CapabilityOwnership) : Prop := {
  ow_endpoints : Forall (endpoint_wf p) (co_Endpoints c);
  ow_servers : NoDup (oe_Server <$> co_Endpoints c);
  ow_grants : Forall (delegation_wf c) (co_Delegations c);
  ow_ids : NoDup (dg_ID <$> co_Delegations c)
}.

Definition key_wf (kv : string * string) : Prop :=
  instructionAuthorityKeyIDRe kv.1 = true /\
  exists b, b64_decode kv.2 = Some b /\ String.length b = 32%nat /\ b64_encode b = kv.2.

Definition lineage_wf `{GoTime} `{GoFmt} (p : Policy) : Prop :=
  match p_Identity p with
  | Some id =>
      is_Version id = 0 /\ p_Trajectories p = [] /\ hasRequire p = false \/
      is_Version id = 1 /\ exists r,
        LineageRegistry.NewRegistry (is_Agents id) (is_Grants id) (p_Trajectories p) = Some (Ok r)
  | None => p_Trajectories p = [] /\ hasRequire p = false
  end.

Record policy_wf `{GoTime} `{GoFmt} (p : Policy) : Prop := {
  pw_version : p_Version p <> "";
  pw_default : p_DefaultAction p = ActionAllow \/ p_DefaultAction p = ActionDeny;
  pw_servers : Forall server_wf (p_Servers p);
  pw_names : NoDup (s_Name <$> p_Servers p);
  pw_chains : Forall chain_wf (p_ToolChains p);
  pw_taints : Forall taint_wf (p_Taints p);
  pw_egress : Forall egress_wf (p_EgressControls p);
  pw_ownership c : p_CapabilityOwnership p = Some c -> ownership_wf p c;
  pw_keys : Forall key_wf (st_InstructionAuthorityKeys (p_Settings p));
  pw_continuity : st_InstructionAuthorityContinuity (p_Settings p) = true ->
    st_InstructionAuthorityKeys (p_Settings p) <> [];
  pw_lineage : lineage_wf p
}.

(** ** Loops *)

Lemma each_seen_None {A K} `{Countable K} (name : A -> K) check (P : A -> Prop) l i seen :
  (forall i x seen, check i x seen = None <-> P x /\ name x ∉ seen) ->
  each_seen name check i l seen = None <->
  Forall P l /\ NoDup (name <$> l) /\ Forall (fun x => name x ∉ seen) l.
Proof.
  intros Hc. revert i seen. induction l as [|x l IH]; intros i seen; cbn.
  { split; [|done]. repeat split; constructor. }
  rewrite err_then_None, Hc, IH, !Forall_cons, NoDup_cons.
  assert ((Forall (fun y => name y ∉ ({[name x]} ∪ seen)) l) <->
    ((name x ∉ (name <$> l))) /\ (Forall (fun y => name y ∉ seen) l)) as ->; [|tauto].
  rewrite list_elem_of_fmap, !Forall_forall. split.
  - intros Hall. split; [|set_solver]. intros (y & E & Hy). specialize (Hall y Hy). set_solver.
  - intros [Hn Hall] y Hy. specialize (Hall y Hy). apply not_elem_of_union. split; [|done].
    intros E. apply elem_of_singleton in E. apply Hn. by exists y.
Qed.

Lemma each_seen_empty {A K} `{Countable K} (name : A -> K) check (P : A -> Prop) l i :
  (forall i x seen, check i x seen = None <-> P x /\ name x ∉ seen) ->
  each_seen name check i l ∅ = None <-> Forall P l /\ NoDup (name <$> l).
Proof.
  intros Hc. rewrite (each_seen_None name check P) by done.
  assert (Forall (fun x => name x ∉ (∅ : gset K)) l) by (apply Forall_true; set_solver). tauto.
Qed.

Lemma each_err_i_all {A} (f : nat -> A -> error) (P : A -> Prop) l i :
  (forall i x, f i x = None <-> P x) -> each_err_i f i l = None <-> Forall P l.
Proof.
  intros Hf. revert i. induction l as [|x l IH]; intros i; cbn; [by split; [constructor|]|].
  rewrite Forall_cons, <-(Hf i x), <-(IH (S i)). destruct (f i x); naive_solver.
Qed.

Lemma each_err_all {A} (f : A -> error) (P : A -> Prop) l :
  (forall x, In x l -> f x = None <-> P x) -> each_err f l = None <-> Forall P l.
Proof.
  intros Hf. rewrite each_err_None, !Forall_forall.
  split; intros Hall x Hx; apply (Hf x); auto; by apply list_elem_of_In.
Qed.

Lemma length_zero {A} (l : list A) : (length l =? 0)%nat = false <-> l <> [].
Proof. by destruct l. Qed.

Lemma length_pos_false {A} (l : list A) : (0 <? length l)%nat = false <-> l = [].
Proof. by destruct l. Qed.

(** Turn the code's checks into propositions. *)
Ltac checks :=
  (repeat (rewrite err_then_None || rewrite fail_if_None));
  rewrite ?str_eqb_false, ?str_neqb_false, ?negb_false_iff, ?bool_decide_eq_false, ?length_zero,
    ?length_pos_false, ?Z.ltb_ge.

(** ** Servers *)

Lemma validate_attestation_None s :
  validate_attestation s = None <-> forall at_, s_Attestation s = Some at_ -> attestation_wf at_.
Proof.
  unfold validate_attestation. destruct (s_Attestation s) as [a|]; [|naive_solver]. checks.
  rewrite (each_seen_empty _ _ (fun pos => 0 <= pos)), list_fmap_id.
  - split; [intros (? & ? & ? & ?) ? [= <-]; by split|]. intros Hw. destruct (Hw a eq_refl). auto.
  - intros _ x seen. unfold validate_position. checks. tauto.
Qed.

Lemma validate_tool_None srv j t seen :
  validate_tool srv j t seen = None <-> tool_wf t /\ t_Name t ∉ seen.
Proof.
  unfold validate_tool. checks. rewrite andb_false_iff, str_neqb_false, negb_false_iff.
  unfold valid_risk. rewrite str_in_In. split.
  - intros (? & ? & Hr). split; [|done]. split; [done|]. intros ?. by destruct Hr.
  - intros [[? Hr] ?]. split; [done|]. split; [done|].
    destruct (decide (t_Risk t = "")); [by left|right; auto].
Qed.

Lemma validate_server_None i s seen :
  validate_server i s seen = None <-> server_wf s /\ s_Name s ∉ seen.
Proof.
  unfold validate_server. checks. rewrite validate_attestation_None.
  rewrite (each_seen_empty _ _ tool_wf) by apply validate_tool_None.
  split; [intros (? & ? & ? & ? & ?); by split|]. by intros [[] ?].
Qed.

(** ** Ownership *)

(** With distinct keys, folding insertions is lookup in the list. *)
Lemma lookup_foldl_insert {A V} (key : A -> string) (val : A -> V) l (m : gmap string V) k :
  NoDup (key <$> l) ->
  foldl (fun m x => <[key x := val x]> m) m l !! k =
  match List.find (fun x => key x =? k)%string l with Some x => Some (val x) | None => m !! k end.
Proof.
  revert m. induction l as [|x l IH]; intros m Hnd; cbn; [done|].
  inversion_clear Hnd as [|? ? Hni Hnd']. rewrite IH by done.
  destruct (key x =? k)%string eqn:E; bools.
  - destruct (List.find _ l) as [y|] eqn:Ef; [|by rewrite lookup_insert_eq].
    apply find_some in Ef as [Hin Ey]. bools. exfalso. apply Hni. rewrite <-Ey.
    by apply list_elem_of_In, in_map.
  - destruct (List.find _ l); [done|]. by rewrite lookup_insert_ne.
Qed.


Lemma decls_lookup c server tool cap :
  NoDup (oe_Server <$> co_Endpoints c) ->
  Forall (fun ep => NoDup (cd_Tool <$> oe_Capabilities ep)) (co_Endpoints c) ->
  (exists ts, decls c !! server = Some ts /\ ts !! tool = Some cap) <->
  (exists ep, In ep (co_Endpoints c) /\ oe_Server ep = server /\
     In cap (oe_Capabilities ep) /\ cd_Tool cap = tool).
Proof.
  intros Hs Ht. unfold decls. setoid_rewrite lookup_foldl_insert; [|done].
  rewrite Forall_forall in Ht.
  split.
  - intros (ts & E & Hts). destruct (List.find _ _) as [ep|] eqn:Ef; [|by rewrite lookup_empty in E].
    injection E as <-. apply find_key in Ef as [Hin <-]; [|done].
    rewrite (lookup_foldl_insert cd_Tool (fun cap => cap)) in Hts
      by (apply Ht; by apply list_elem_of_In).
    destruct (List.find _ (oe_Capabilities ep)) as [cap'|] eqn:Ef; [|by rewrite lookup_empty in Hts].
    injection Hts as ->. apply find_key in Ef; [|apply Ht; by apply list_elem_of_In]. naive_solver.
  - intros (ep & Hin & <- & Hcap & <-).
    rewrite (proj2 (find_key oe_Server _ _ ep Hs)) by done. eexists. split; [done|].
    rewrite (lookup_foldl_insert cd_Tool (fun cap => cap)) by (apply Ht; by apply list_elem_of_In).
    rewrite (proj2 (find_key cd_Tool _ _ cap ltac:(apply Ht; by apply list_elem_of_In))) by done.
    done.
Qed.

Lemma endpoint_owner_eq c ep :
  NoDup (oe_Server <$> co_Endpoints c) -> In ep (co_Endpoints c) ->
  endpoint_owner c (oe_Server ep) = oe_Owner ep.
Proof.
  unfold endpoint_owner. generalize "" as d. induction (co_Endpoints c) as [|e l IH]; intros d Hnd; [done|].
  inversion_clear Hnd as [|? ? Hni Hnd']. intros [->|Hin]; cbn.
  - rewrite str_eqb_refl. clear IH. generalize (oe_Owner ep) as o.
    induction l as [|e l IHl]; intros o; cbn; [done|].
    destruct (oe_Server e =? oe_Server ep)%string eqn:E; bools.
    + exfalso. apply Hni. rewrite <-E. cbn. apply list_elem_of_here.
    + apply IHl; [|by inversion Hnd']. intros Hx. apply Hni. cbn. by apply list_elem_of_further.
  - by apply IH.
Qed.

Section wf.
Context `{GoTime} `{GoFmt}.

Lemma validate_endpoint_None p i ep seen :
  validate_endpoint p i ep seen = None <-> endpoint_wf p ep /\ oe_Server ep ∉ seen.
Proof.
  unfold validate_endpoint. checks.
  assert (forall srv, (each_seen cd_Tool (fun _ => validate_cap (oe_Server ep)) 0 (oe_Capabilities ep) ∅ ;;?
      each_err (fun tool => fail_if (t_Allowed tool && bool_decide (t_Name tool ∉ declared_tools ep))
          ("capability_ownership endpoint " +:+ oe_Server ep +:+ ": allowed tool " +:+ t_Name tool +:+
           " lacks a capability declaration")) (s_Tools srv)) = None <->
    (Forall (fun cap => cd_Tool cap <> "" /\ cd_EffectClass cap <> "") (oe_Capabilities ep) /\
     NoDup (cd_Tool <$> oe_Capabilities ep)) /\
    (forall t, In t (s_Tools srv) -> t_Allowed t = true -> In (t_Name t) (cd_Tool <$> oe_Capabilities ep)))
    as Hrest.
  { intros srv. rewrite err_then_None.
    rewrite (each_seen_empty _ _ (fun cap => cd_Tool cap <> "" /\ cd_EffectClass cap <> "")).
    2: { intros _ cap sn. unfold validate_cap. checks. tauto. }
    rewrite each_err_None, (Forall_forall _ (s_Tools srv)). apply and_iff_compat_l.
    split; intros Hall t Ht.
    - intros Ha. specialize (Hall t). rewrite list_elem_of_In, fail_if_None, Ha in Hall.
      specialize (Hall Ht). cbn in Hall. rewrite bool_decide_eq_false in Hall.
      unfold declared_tools in Hall. rewrite elem_of_list_to_set in Hall.
      apply dec_stable in Hall. by apply list_elem_of_In.
    - rewrite fail_if_None. destruct (t_Allowed t) eqn:Ha; [|done]. cbn.
      rewrite bool_decide_eq_false. unfold declared_tools. rewrite elem_of_list_to_set.
      intros Hn. apply Hn, list_elem_of_In, Hall; [by apply list_elem_of_In|done]. }
  destruct (List.find _ (p_Servers p)) as [srv|] eqn:Ef.
  - rewrite Hrest. split.
    + intros (? & ? & ? & [? ?] & ?). split; [|done]. split; try done. by exists srv.
    + intros [[? ? ? ? (srv' & Es & ?)] ?]. rewrite Ef in Es. injection Es as <-. by split_and!.
  - split; [by intros (_ & _ & _ & ?)|]. intros [[_ _ _ _ (srv & Es & _)] _]. congruence.
Qed.

Definition scope_wf (g : DelegationGrant) (cap : CapabilityDecl) : Prop :=
  cd_ScopeArgument cap = "" /\ dg_ResourceScope g = None \/
  cd_ScopeArgument cap <> "" /\ exists rs, dg_ResourceScope g = Some rs /\
    rs_Argument rs = cd_ScopeArgument cap /\ rs_ExactValues rs <> [].

Definition times_wf (g : DelegationGrant) : Prop :=
  exists i x, parse_RFC3339 (dg_IssuedAt g) = Some i /\ parse_RFC3339 (dg_ExpiresAt g) = Some x /\ i < x.

Lemma validate_scope_None g cap : validate_scope g cap = None <-> scope_wf g cap.
Proof.
  unfold validate_scope, scope_wf. destruct (cd_ScopeArgument cap =? "")%string eqn:E; bools.
  - checks. destruct (dg_ResourceScope g); [|naive_solver]. split; [|naive_solver].
    intros Hn. exfalso. apply Hn. eauto.
  - destruct (dg_ResourceScope g) as [rs|]; [|split; [done|]; intros [[]|(? & ? & ? & ?)]; done].
    checks. naive_solver.
Qed.

Lemma validate_times_None g : validate_times g = None <-> times_wf g.
Proof.
  unfold validate_times, times_wf.
  destruct (parse_RFC3339 (dg_IssuedAt g)) as [i|]; [|split; [done|]; by intros (? & ? & ? & _)].
  destruct (parse_RFC3339 (dg_ExpiresAt g)) as [x|]; [|split; [done|]; by intros (? & ? & _ & ? & _)].
  rewrite fail_if_None, negb_false_iff, Z.ltb_lt. naive_solver.
Qed.

Lemma validate_grant_None c i g seen :
  NoDup (oe_Server <$> co_Endpoints c) ->
  Forall (fun ep => NoDup (cd_Tool <$> oe_Capabilities ep)) (co_Endpoints c) ->
  validate_grant c i g seen = None <-> delegation_wf c g /\ dg_ID g ∉ seen.
Proof.
  intros Hs Ht. unfold validate_grant. checks.
  assert (forall (P : Prop), (exists ts cap, decls c !! dg_Server g = Some ts /\ ts !! dg_Tool g = Some cap /\
      dg_Owner g = endpoint_owner c (dg_Server g) /\ dg_EffectClass g = cd_EffectClass cap /\
      scope_wf g cap) <->
    exists ep cap, In ep (co_Endpoints c) /\ oe_Server ep = dg_Server g /\ oe_Owner ep = dg_Owner g /\
      In cap (oe_Capabilities ep) /\ cd_Tool cap = dg_Tool g /\
      cd_EffectClass cap = dg_EffectClass g /\ scope_wf g cap) as Hdecl.
  { intros _. split.
    - intros (ts & cap & E1 & E2 & Ho & He & Hsc).
      destruct (proj1 (decls_lookup c (dg_Server g) (dg_Tool g) cap Hs Ht)) as (ep & Hin & Hn & Hc & Htn); [eauto|].
      exists ep, cap. rewrite <-Hn, endpoint_owner_eq in Ho by done. naive_solver.
    - intros (ep & cap & Hin & Hn & Ho & Hc & Htn & He & Hsc).
      destruct (proj2 (decls_lookup c (dg_Server g) (dg_Tool g) cap Hs Ht)) as (ts & E1 & E2); [eauto 6|].
      exists ts, cap. rewrite <-Hn, endpoint_owner_eq by done. rewrite Hn. naive_solver. }
  specialize (Hdecl True).
  assert ((match decls c !! dg_Server g with
    | None => Some (grant_err g ("unknown endpoint " +:+ dg_Server g))
    | Some epTools =>
      match epTools !! dg_Tool g with
      | None => Some (grant_err g ("undeclared tool " +:+ dg_Tool g +:+ " on " +:+ dg_Server g))
      | Some decl =>
          fail_if (dg_Owner g <>s? endpoint_owner c (dg_Server g))
            (grant_err g ("owner " +:+ fmt_q (dg_Owner g) +:+ " is not the endpoint owner "
                          +:+ fmt_q (endpoint_owner c (dg_Server g)))) ;;?
          fail_if (dg_EffectClass g <>s? cd_EffectClass decl)
            (grant_err g ("effect_class " +:+ fmt_q (dg_EffectClass g) +:+ " disagrees with declaration "
                          +:+ fmt_q (cd_EffectClass decl))) ;;?
          validate_scope g decl ;;? validate_times g
      end
    end = None <-> (exists ts cap, decls c !! dg_Server g = Some ts /\ ts !! dg_Tool g = Some cap /\
      dg_Owner g = endpoint_owner c (dg_Server g) /\ dg_EffectClass g = cd_EffectClass cap /\
      scope_wf g cap) /\ times_wf g)) as ->.
  { destruct (decls c !! dg_Server g) as [ts|]; [|split; [done|]; by intros [(? & ? & ? & _) _]].
    destruct (ts !! dg_Tool g) as [cap|] eqn:Ec;
      [|split; [done|]; intros [(? & ? & [= <-] & ? & _) _]; congruence].
    checks. rewrite validate_scope_None, validate_times_None. split.
    - intros (? & ? & ? & ?). split; [|done]. by exists ts, cap.
    - intros [(? & ? & [= <-] & E & ? & ? & ?) ?]. rewrite Ec in E. by simplify_eq. }
  rewrite Hdecl. rewrite (each_err_all _ (fun nv => nv.2 <> "")).
  2: { intros [n v] _. cbn. rewrite fail_if_None. apply str_eqb_false. }
  rewrite !Forall_cons. cbn [snd]. split.
  - intros (? & ? & (? & ? & ? & ? & ? & _) & ? & ?). split; [|done]. by split.
  - intros [[? ? (? & ? & ? & ?) ? ?] ?]. split_and!; done.
Qed.

Lemma validate_ownership_None co p :
  validate_ownership co p = None <-> forall c, co = Some c -> ownership_wf p c.
Proof.
  destruct co as [c|]; cbn; [|naive_solver]. rewrite err_then_None.
  rewrite (each_seen_empty _ _ (endpoint_wf p)) by apply validate_endpoint_None.
  split.
  - intros [[He Hn] Hg] ? [= <-]. rewrite (each_seen_empty _ _ (delegation_wf c)) in Hg.
    + destruct Hg as [? ?]. by split.
    + intros. apply validate_grant_None; [done|]. eapply Forall_impl; [exact He|]. by intros ? [].
  - intros Hw. destruct (Hw c eq_refl) as [He Hn Hg Hi]. split; [done|].
    apply (each_seen_empty _ _ (delegation_wf c)); [|done].
    intros. apply validate_grant_None; [done|]. eapply Forall_impl; [exact He|]. by intros ? [].
Qed.

(** ** Keys and lineage *)

Lemma validate_key_None kv : validate_key kv = None <-> key_wf kv.
Proof.
  destruct kv as [id enc]. unfold validate_key, key_wf. cbn [fst snd]. checks.
  apply and_iff_compat_l. destruct (b64_decode enc) as [b|]; [|split; [done|]; by intros (? & ? & _)].
  rewrite orb_false_iff, negb_false_iff, str_neqb_false, Nat.eqb_eq. naive_solver.
Qed.

Lemma validateLineage_None p : validateLineage p = None <-> lineage_wf p.
Proof.
  unfold validateLineage, lineage_wf. destruct (p_Identity p) as [id|].
  2: { checks. done. }
  destruct (is_Version id =? 0) eqn:E0; bools.
  - checks. split; [naive_solver|]. intros [(_ & ? & ?)|[? _]]; [done|lia].
  - checks. rewrite Z.eqb_eq. split.
    + intros [E Hr]. right. split; [done|]. destruct (LineageRegistry.NewRegistry _ _ _) as [[r|]|]; eauto; done.
    + intros [[? _]|[E [r ->]]]; done.
Qed.

Lemma Validate_None (p : Policy) : Validate p = None <-> policy_wf p.
Proof.
  unfold Validate. checks.
  rewrite (each_seen_empty _ _ server_wf) by apply validate_server_None.
  rewrite (each_err_i_all _ chain_wf), (each_err_i_all _ taint_wf), (each_err_i_all _ egress_wf).
  - rewrite validate_ownership_None, validateLineage_None.
    unfold validateInstructionAuthorityKeys. checks.
    rewrite (each_err_all _ key_wf) by (intros; apply validate_key_None).
    rewrite !andb_false_iff, !str_neqb_false, length_zero.
    split.
    + intros (? & ? & [? ?] & ? & ? & ? & ? & [Hc ?] & ?). split; try done.
      intros Hct. destruct Hc; [congruence|done].
    + intros [? ? ? ? ? ? ? ? ? Hc ?]. split_and!; try done.
      destruct (st_InstructionAuthorityContinuity _); [right; auto|by left].
  - intros i x. unfold validate_egress, egress_wf. checks.
    rewrite andb_false_iff, !str_neqb_false. done.
  - intros i x. unfold validate_taint, taint_wf. checks. done.
  - intros i x. unfold validate_chain, chain_wf. checks. done.
Qed.

(** [Validate] accepts exactly the well-formed policies. *)
Theorem Validate_iff (p : Policy) : Validate p = None <-> policy_wf p.
Proof. apply Validate_None. Qed.
End wf.

(** The names of a policy that loads are those the registry can index, as
    soon as no server name holds the separator of its key. *)
Lemma Validate_names `{GoTime} `{GoFmt} (p : Policy) :
  Validate p = None -> (forall s, In s (p_Servers p) -> no_colon (s_Name s)) -> names_ok p.
Proof.
  intros Hv Hc. apply Validate_None in Hv as [_ _ Hs Hn _ _ _ _ _ _ _]. split; [done| |done].
  intros s Hin. rewrite Forall_forall in Hs. by apply Hs, list_elem_of_In.
Qed.

Example DefaultPolicy_loads `{GoTime} `{GoFmt} : Validate PolicyDefaults.DefaultPolicy = None.
Proof. reflexivity. Qed.

Example key_of_32_zero_bytes `{GoTime} `{GoFmt} :
  validate_key ("k1", "AAAAAAAAAAAAAAAAAAAAAAAAAAAAAAAAAAAAAAAAAAA") = None.
Proof. reflexivity. Qed.

Example key_with_loose_bits `{GoTime} `{GoFmt} :
  validate_key ("k1", "AAAAAAAAAAAAAAAAAAAAAAAAAAAAAAAAAAAAAAAAAAB") <> None.
Proof. discriminate. Qed.
