(* ===== verification/Ownership.v ===== *)
(** Capability ownership proofs: [internal/ownership/model.go] and
    [verifier.go].  A requester holds a capability as its owner, or through
    exactly one live grant that agrees with it on every axis.

    [CanonicalGrantSHA] is the digest of [encodeGrant], which is the sequence
    of bytes the code writes to the hash. *)
From stdpp Require Import base strings gmap list pretty.
From Stdlib Require Import ZArith Lia Ascii.
From S2P Require Import Prelude GoStrings GoLib.
#[local] Open Scope Z_scope.

Definition VerdictValidDirect : string := "VALID_DIRECT".
Definition VerdictValidDelegated : string := "VALID_DELEGATED".
Definition VerdictInvalid : string := "INVALID".

Definition ReasonMissing : string := "missing".
Definition ReasonExpired : string := "expired".
Definition ReasonAmbiguous : string := "ambiguous".
Definition ReasonMismatch : string := "mismatch".
Definition ReasonNotCovered : string := "not_covered".

Record Capability := {
  k_Server : string;
  k_Owner : string;
  k_Tool : string;
  k_EffectClass : string;
  k_ScopeArgument : string
}.

Record Grant := {
  gr_ID : string;
  gr_Owner : string;
  gr_Delegate : string;
  gr_Server : string;
  gr_Tool : string;
  gr_EffectClass : string;
  gr_ScopeArgument : string;
  gr_ExactValues : list string;
  gr_IssuedAt : Z;
  gr_ExpiresAt : Z
}.

Record Request := {
  rq_Requester : string;
  rq_Server : string;
  rq_Tool : string;
  rq_EffectClass : string;
  rq_ScopeValue : string;
  rq_HasScope : bool
}.

(** The two grant times are meaningful when [pf_HasGrant]. *)
Record Proof_ := {
  pf_Verdict : string;
  pf_Reason : string;
  pf_Requester : string;
  pf_Server : string;
  pf_Tool : string;
  pf_Owner : string;
  pf_EffectClass : string;
  pf_DelegationID : string;
  pf_DelegationSHA : string;
  pf_Grant : option (Z * Z);
  pf_EvaluatedAt : Z
}.

(** ** The grant digest *)

(** [binary.PutUvarint]: seven bits a byte, low bits first, the top bit set
    on all bytes but the last.  [fuel] bounds the number of bytes. *)
Fixpoint put_uvarint (fuel : nat) (x : N) : string :=
  match fuel with
  | O => ""
  | S fuel' =>
      if (x <? 128)%N then String (ascii_of_N x) ""
      else String (ascii_of_N (N.lor (N.land x 127) 128)) (put_uvarint fuel' (N.shiftr x 7))
  end.
Definition PutUvarint (x : N) : string := put_uvarint (S (N.to_nat (N.size x))) x.

Definition writeField (s : string) : string := PutUvarint (N.of_nat (String.length s)) +:+ s.
Definition writeFields (l : list string) : string := foldr (fun s rest => writeField s +:+ rest) "" l.

Section ownership.
Context `{GoTime} `{GoCrypto}.

Definition encodeGrant (g : Grant) : string :=
  writeFields [gr_ID g; gr_Owner g; gr_Delegate g; gr_Server g; gr_Tool g; gr_EffectClass g;
    gr_ScopeArgument g; format_RFC3339Nano (gr_IssuedAt g); format_RFC3339Nano (gr_ExpiresAt g)] +:+
  writeField (Itoa (Z.of_nat (length (gr_ExactValues g)))) +:+
  writeFields (gr_ExactValues g).

Definition CanonicalGrantSHA (g : Grant) : string := sha256_hex (encodeGrant g).

(** ** The registry *)

Record Registry := {
  ow_capabilities : gmap string Capability;
  ow_owners : gmap string string;
  ow_grants : list Grant
}.

Definition capKey (server tool : string) : string := server +:+ String NUL tool.

Definition register_cap (c : Capability) (r : Registry) : result Registry :=
  let k := capKey (k_Server c) (k_Tool c) in
  match ow_capabilities r !! k with
  | Some _ => Err ("duplicate capability " +:+ k_Server c +:+ "/" +:+ k_Tool c)
  | None =>
      if match ow_owners r !! k_Server c with Some prev => prev <>s? k_Owner c | None => false end
      then Err ("conflicting owners for " +:+ k_Server c)
      else Ok {| ow_capabilities := <[k := c]> (ow_capabilities r);
                 ow_owners := <[k_Server c := k_Owner c]> (ow_owners r);
                 ow_grants := ow_grants r |}
  end.

Fixpoint register_caps (caps : list Capability) (r : Registry) : result Registry :=
  match caps with
  | [] => Ok r
  | c :: caps => let? r := register_cap c r in register_caps caps r
  end.

Definition NewRegistry (caps : list Capability) : result Registry :=
  register_caps caps {| ow_capabilities := ∅; ow_owners := ∅; ow_grants := [] |}.

Definition RegisterOwner (r : Registry) (server owner : string) : result Registry :=
  if match ow_owners r !! server with Some prev => prev <>s? owner | None => false end
  then Err ("conflicting owners for " +:+ server)
  else Ok {| ow_capabilities := ow_capabilities r; ow_owners := <[server := owner]> (ow_owners r);
             ow_grants := ow_grants r |}.

Definition AddGrant (r : Registry) (g : Grant) : Registry :=
  {| ow_capabilities := ow_capabilities r; ow_owners := ow_owners r; ow_grants := ow_grants r ++ [g] |}.

Definition find_capability (r : Registry) (server tool : string) : option Capability :=
  ow_capabilities r !! capKey server tool.
Definition EndpointOwner (r : Registry) (server : string) : option string := ow_owners r !! server.

(** ** Evaluation *)

(** The scope test both loops share. *)
Definition scope_matches (cap : Capability) (req : Request) (g : Grant) : bool :=
  (gr_ScopeArgument g =s? k_ScopeArgument cap) && rq_HasScope req &&
  existsb (fun v => v =s? rq_ScopeValue req) (gr_ExactValues g).

Definition out_of_time (g : Grant) (now : Z) : bool :=
  (now <? gr_IssuedAt g) || negb (now <? gr_ExpiresAt g).

(** One iteration of [matchingGrants]: whether [g] is appended. *)
Definition grant_matches (cap : Capability) (req : Request) (now : Z) (g : Grant) : bool :=
  if gr_Owner g <>s? k_Owner cap then false
  else if gr_Delegate g <>s? rq_Requester req then false
  else if (gr_Server g <>s? rq_Server req) || (gr_Tool g <>s? rq_Tool req) then false
  else if gr_EffectClass g <>s? k_EffectClass cap then false
  else if negb (if k_ScopeArgument cap =s? "" then gr_ScopeArgument g =s? ""
                else scope_matches cap req g) then false
  else if out_of_time g now then false
  else true.

Definition matchingGrants (r : Registry) (cap : Capability) (req : Request) (now : Z) : list Grant :=
  List.filter (grant_matches cap req now) (ow_grants r).

(** One iteration of [hasTimeOnlyMismatch]: whether it returns true. *)
Definition time_only_mismatch (cap : Capability) (req : Request) (now : Z) (g : Grant) : bool :=
  if (gr_Owner g <>s? k_Owner cap) || (gr_Delegate g <>s? rq_Requester req) then false
  else if (gr_Server g <>s? rq_Server req) || (gr_Tool g <>s? rq_Tool req) ||
          (gr_EffectClass g <>s? k_EffectClass cap) then false
  else if (k_ScopeArgument cap <>s? "") && negb (scope_matches cap req g) then false
  else out_of_time g now.

Definition hasTimeOnlyMismatch (r : Registry) (cap : Capability) (req : Request) (now : Z) : bool :=
  existsb (time_only_mismatch cap req now) (ow_grants r).

Definition base_proof (req : Request) (owner : string) (now : Z) : Proof_ := {|
  pf_Verdict := ""; pf_Reason := ""; pf_Requester := rq_Requester req; pf_Server := rq_Server req;
  pf_Tool := rq_Tool req; pf_Owner := owner; pf_EffectClass := rq_EffectClass req;
  pf_DelegationID := ""; pf_DelegationSHA := ""; pf_Grant := None; pf_EvaluatedAt := now |}.

Definition with_verdict (base : Proof_) (verdict reason : string) : Proof_ := {|
  pf_Verdict := verdict; pf_Reason := reason; pf_Requester := pf_Requester base;
  pf_Server := pf_Server base; pf_Tool := pf_Tool base; pf_Owner := pf_Owner base;
  pf_EffectClass := pf_EffectClass base; pf_DelegationID := pf_DelegationID base;
  pf_DelegationSHA := pf_DelegationSHA base; pf_Grant := pf_Grant base;
  pf_EvaluatedAt := pf_EvaluatedAt base |}.

Definition invalid (base : Proof_) (reason : string) : Proof_ := with_verdict base VerdictInvalid reason.

Definition delegated (base : Proof_) (g : Grant) : Proof_ := {|
  pf_Verdict := VerdictValidDelegated; pf_Reason := pf_Reason base;
  pf_Requester := pf_Requester base; pf_Server := pf_Server base; pf_Tool := pf_Tool base;
  pf_Owner := pf_Owner base; pf_EffectClass := pf_EffectClass base;
  pf_DelegationID := gr_ID g; pf_DelegationSHA := CanonicalGrantSHA g;
  pf_Grant := Some (gr_IssuedAt g, gr_ExpiresAt g); pf_EvaluatedAt := pf_EvaluatedAt base |}.

Definition Evaluate (r : Registry) (req : Request) (now : Z) : Proof_ :=
  match find_capability r (rq_Server req) (rq_Tool req) with
  | None => invalid (base_proof req "" now) ReasonNotCovered
  | Some cap =>
      let base := base_proof req (k_Owner cap) now in
      if (k_EffectClass cap <>s? "") && (rq_EffectClass req <>s? "") &&
         (rq_EffectClass req <>s? k_EffectClass cap) then invalid base ReasonMismatch
      else if rq_Requester req =s? k_Owner cap then with_verdict base VerdictValidDirect ""
      else match matchingGrants r cap req now with
      | [] =>
          if hasTimeOnlyMismatch r cap req now then invalid base ReasonExpired
          else invalid base ReasonMissing
      | [g] => delegated base g
      | _ => invalid base ReasonAmbiguous
      end
  end.
End ownership.

(** ** What a valid proof means *)

(** [g] agrees with the capability and the request on every axis and is live. *)
Record authorizes (cap : Capability) (req : Request) (now : Z) (g : Grant) : Prop := {
  au_owner : gr_Owner g = k_Owner cap;
  au_delegate : gr_Delegate g = rq_Requester req;
  au_endpoint : gr_Server g = rq_Server req /\ gr_Tool g = rq_Tool req;
  au_effect : gr_EffectClass g = k_EffectClass cap;
  au_scope : gr_ScopeArgument g = k_ScopeArgument cap /\
    (k_ScopeArgument cap <> "" -> rq_HasScope req = true /\ In (rq_ScopeValue req) (gr_ExactValues g));
  au_live : gr_IssuedAt g <= now < gr_ExpiresAt g
}.

Lemma out_of_time_false g now : out_of_time g now = false <-> gr_IssuedAt g <= now < gr_ExpiresAt g.
Proof. unfold out_of_time. rewrite orb_false_iff, negb_false_iff, Z.ltb_ge, Z.ltb_lt. done. Qed.

Lemma scope_matches_true cap req g :
  scope_matches cap req g = true <->
  gr_ScopeArgument g = k_ScopeArgument cap /\ rq_HasScope req = true /\
  In (rq_ScopeValue req) (gr_ExactValues g).
Proof.
  unfold scope_matches. fold (str_in (rq_ScopeValue req) (gr_ExactValues g)).
  rewrite !andb_true_iff, str_eqb_true, str_in_In. tauto.
Qed.

Lemma grant_matches_iff cap req now g :
  grant_matches cap req now g = true <-> authorizes cap req now g.
Proof.
  unfold grant_matches. split.
  - destruct (gr_Owner g =? _)%string eqn:E1; [|done]. destruct (gr_Delegate g =? _)%string eqn:E2; [|done].
    destruct (gr_Server g =? _)%string eqn:E3; [|done]. destruct (gr_Tool g =? _)%string eqn:E4; [|done].
    destruct (gr_EffectClass g =? _)%string eqn:E5; [|done]. cbn.
    destruct (negb _) eqn:E6; [done|]. destruct (out_of_time g now) eqn:E7; [done|]. intros _.
    apply negb_false_iff in E6. apply out_of_time_false in E7. bools. split; try done.
    destruct (k_ScopeArgument cap =? "")%string eqn:E; bools.
    + split; congruence.
    + apply scope_matches_true in E6. tauto.
  - intros [-> -> [-> ->] -> [Hs Hsc] Hl%out_of_time_false]. rewrite !str_eqb_refl, Hl. cbn.
    destruct (k_ScopeArgument cap =? "")%string eqn:E; bools; [by rewrite Hs, E|].
    by rewrite (proj2 (scope_matches_true cap req g)) by tauto.
Qed.

(** [authorizes] holds of exactly one of the grants, and that one is [g]. *)
Definition sole_grant (P : Grant -> Prop) (grants : list Grant) (g : Grant) : Prop :=
  exists l1 l2, grants = l1 ++ g :: l2 /\ P g /\ Forall (fun g' => ~ P g') l1 /\
    Forall (fun g' => ~ P g') l2.

Definition effect_agrees (cap : Capability) (req : Request) : Prop :=
  k_EffectClass cap = "" \/ rq_EffectClass req = "" \/ rq_EffectClass req = k_EffectClass cap.

Lemma filter_nil {A} (f : A -> bool) l : List.filter f l = [] <-> Forall (fun x => f x <> true) l.
Proof.
  induction l as [|x l IH]; cbn; [by split; [constructor|]|].
  rewrite Forall_cons, <-IH. destruct (f x); naive_solver.
Qed.

Lemma filter_singleton {A} (f : A -> bool) (l : list A) x :
  List.filter f l = [x] <->
  exists l1 l2, l = l1 ++ x :: l2 /\ f x = true /\ Forall (fun y => f y <> true) l1 /\
    Forall (fun y => f y <> true) l2.
Proof.
  split.
  - induction l as [|y l IH]; cbn; [done|]. destruct (f y) eqn:E.
    + intros [= -> Hl]. exists [], l. split_and!; [done|done|constructor|by apply filter_nil].
    + intros Hl. destruct (IH Hl) as (l1 & l2 & -> & ? & ? & ?).
      exists (y :: l1), l2. split_and!; try done. constructor; [congruence|done].
  - intros (l1 & l2 & -> & Hx & H1%filter_nil & H2%filter_nil).
    rewrite List.filter_app, H1. cbn. by rewrite Hx, H2.
Qed.

Section ownership_theorems.
Context `{GoTime} `{GoCrypto}.

Lemma matchingGrants_sole r cap req now g :
  matchingGrants r cap req now = [g] <-> sole_grant (authorizes cap req now) (ow_grants r) g.
Proof.
  unfold matchingGrants, sole_grant. rewrite filter_singleton.
  setoid_rewrite grant_matches_iff. done.
Qed.

Lemma effect_guard cap req :
  (k_EffectClass cap <>s? "") && (rq_EffectClass req <>s? "") &&
  (rq_EffectClass req <>s? k_EffectClass cap) = false <-> effect_agrees cap req.
Proof. unfold effect_agrees. rewrite !andb_false_iff, !str_neqb_false. tauto. Qed.

(** A proof is direct exactly when the capability is declared, the
    effect agrees and the requester owns it.  It is delegated exactly when the
    requester does not own it and one grant, and only one, agrees with it on
    owner, delegate, endpoint, effect class and scope and is live; the proof
    then names that grant and carries its digest.  In every other case it is
    invalid: two grants that both apply make it ambiguous, not valid. *)
Theorem ownership_Evaluate_spec (r : Registry) (req : Request) (now : Z) :
  let pf := Evaluate r req now in
  let covered cap := find_capability r (rq_Server req) (rq_Tool req) = Some cap /\ effect_agrees cap req in
  (pf_Verdict pf = VerdictValidDirect <->
     exists cap, covered cap /\ rq_Requester req = k_Owner cap) /\
  (pf_Verdict pf = VerdictValidDelegated <->
     exists cap g, covered cap /\ rq_Requester req <> k_Owner cap /\
       sole_grant (authorizes cap req now) (ow_grants r) g /\
       pf = delegated (base_proof req (k_Owner cap) now) g) /\
  (pf_Verdict pf = VerdictValidDirect \/ pf_Verdict pf = VerdictValidDelegated \/
   pf_Verdict pf = VerdictInvalid).
Proof.
  cbv zeta. unfold Evaluate. setoid_rewrite <-matchingGrants_sole. setoid_rewrite <-effect_guard.
  assert (forall P : Prop, VerdictInvalid = VerdictValidDirect \/ VerdictInvalid = VerdictValidDelegated \/
    VerdictValidDelegated = VerdictValidDirect \/ VerdictValidDirect = VerdictValidDelegated -> P) as Hv.
  { intros P [E|[E|[E|E]]]; discriminate. }
  destruct (find_capability _ _ _) as [cap|].
  2: { split_and!; [| |by right; right]; (split; [intros E; apply Hv; tauto|]).
       - by intros (? & [? _] & _).
       - by intros (? & ? & [? _] & _). }
  destruct (_ && _ && _) eqn:Ee.
  { split_and!; [| |by right; right]; (split; [intros E; apply Hv; tauto|]).
    - intros (? & [[= <-] Ee'] & _). congruence.
    - intros (? & ? & [[= <-] Ee'] & _). congruence. }
  destruct (rq_Requester req =? _)%string eqn:Er; bools.
  { split_and!; [| |by left]; split.
    - intros _. by exists cap.
    - done.
    - intros E; apply Hv; tauto.
    - by intros (? & ? & [[= <-] _] & ? & _). }
  split_and!.
  - split; [|by intros (? & [[= <-] _] & ?)].
    intros E. apply Hv. revert E. repeat case_match; cbn; tauto.
  - split.
    + destruct (matchingGrants r cap req now) as [|g [|g' l]] eqn:Em.
      * intros E. apply Hv. revert E. case_match; cbn; tauto.
      * intros _. exists cap, g. done.
      * intros E. apply Hv. revert E. cbn. tauto.
    + intros (? & g & [[= <-] _] & _ & Em & E). by rewrite Em.
  - repeat case_match; cbn; tauto.
Qed.
End ownership_theorems.

(** ** The encoding of a grant is injective *)

(** [binary.Uvarint], the inverse of [PutUvarint], on unbounded integers. *)
Fixpoint Uvarint (s : string) : option (N * string) :=
  match s with
  | "" => None
  | String c s' =>
      let b := N_of_ascii c in
      if (b <? 128)%N then Some (b, s')
      else match Uvarint s' with
      | Some (x, rest) => Some (N.land b 127 + 128 * x, rest)%N
      | None => None
      end
  end.

Lemma land_127 x : N.land x 127 = (x mod 128)%N.
Proof. change 127%N with (N.ones 7). apply N.land_ones. Qed.

Lemma continuation_byte x :
  let b := N_of_ascii (ascii_of_N (N.lor (N.land x 127) 128)) in
  (128 <= b)%N /\ N.land b 127 = (x mod 128)%N.
Proof.
  assert (forall n, (n < 128)%N -> let b := N_of_ascii (ascii_of_N (N.lor n 128)) in
    (128 <= b)%N /\ N.land b 127 = n) as Hb.
  { assert (forallb (fun n => let b := N_of_ascii (ascii_of_N (N.lor n 128)) in
      (128 <=? b)%N && (N.land b 127 =? n)%N) (List.map N.of_nat (seq 0 128)) = true) as Ha by
      (vm_compute; reflexivity).
    intros n Hn. rewrite forallb_forall in Ha. specialize (Ha n).
    cbv zeta in *. rewrite andb_true_iff, N.leb_le, N.eqb_eq in Ha. apply Ha.
    apply in_map_iff. exists (N.to_nat n). rewrite N2Nat.id. split; [done|]. apply in_seq. lia. }
  rewrite land_127. apply Hb. by apply N.mod_lt.
Qed.

Lemma put_uvarint_read fuel x s :
  fuel <> O -> (x < 2 ^ (7 * N.of_nat fuel))%N ->
  Uvarint (put_uvarint fuel x +:+ s) = Some (x, s).
Proof.
  revert x. induction fuel as [|fuel IH]; intros x Hf Hx; [done|]. clear Hf.
  cbn [put_uvarint]. destruct (x <? 128)%N eqn:E.
  - apply N.ltb_lt in E. change (String (ascii_of_N x) "" +:+ s) with (String (ascii_of_N x) s).
    cbn [Uvarint]. rewrite N_ascii_embedding by lia. by rewrite (proj2 (N.ltb_lt x 128)).
  - apply N.ltb_ge in E. destruct (continuation_byte x) as [Hb Hl]. cbv zeta in Hb, Hl.
    set (c := ascii_of_N (N.lor (N.land x 127) 128)) in *.
    change (String c (put_uvarint fuel (N.shiftr x 7)) +:+ s)
      with (String c (put_uvarint fuel (N.shiftr x 7) +:+ s)).
    cbn [Uvarint]. rewrite (proj2 (N.ltb_ge _ _) Hb), IH.
    + f_equal. f_equal. rewrite Hl, N.shiftr_div_pow2. change (2^7)%N with 128%N.
      pose proof (N.div_mod x 128 ltac:(done)). lia.
    + intros ->. change (2 ^ (7 * N.of_nat 1))%N with 128%N in Hx. lia.
    + rewrite N.shiftr_div_pow2. apply N.Div0.div_lt_upper_bound.
      rewrite <-N.pow_add_r. by replace (7 + 7 * N.of_nat fuel)%N with (7 * N.of_nat (S fuel))%N by lia.
Qed.

Lemma PutUvarint_read x s : Uvarint (PutUvarint x +:+ s) = Some (x, s).
Proof.
  apply put_uvarint_read; [done|]. eapply N.lt_le_trans; [apply N.size_gt|].
  apply N.pow_le_mono_r; [done|]. lia.
Qed.

Lemma app_inj_length (s s' t t' : string) :
  String.length s = String.length s' -> s +:+ t = s' +:+ t' -> s = s' /\ t = t'.
Proof.
  revert s'. induction s as [|c s IH]; intros [|c' s'] Hl E; try done.
  change (String c (s +:+ t) = String c' (s' +:+ t')) in E. injection E as -> E.
  injection Hl as Hl. by destruct (IH s' Hl E) as [-> ->].
Qed.

Lemma writeField_inj s s' t t' :
  writeField s +:+ t = writeField s' +:+ t' -> s = s' /\ t = t'.
Proof.
  unfold writeField. rewrite !append_assoc. intros E.
  pose proof (f_equal Uvarint E) as Er. rewrite !PutUvarint_read in Er.
  injection Er as El Et. apply app_inj_length; [|done]. by apply Nat2N.inj in El.
Qed.

Lemma writeFields_inj l l' t t' :
  length l = length l' -> writeFields l +:+ t = writeFields l' +:+ t' -> l = l' /\ t = t'.
Proof.
  revert l'. induction l as [|s l IH]; intros [|s' l'] Hl E; try done.
  unfold writeFields in E. cbn [foldr] in E. rewrite !append_assoc in E.
  apply writeField_inj in E as [-> E]. injection Hl as Hl. by destruct (IH l' Hl E) as [-> ->].
Qed.

(** [Format(RFC3339Nano)] of a UTC time keeps its nanoseconds: it is injective
    on instants. *)
Class GoTimeInj `{GoTime} := format_inj a b : format_RFC3339Nano a = format_RFC3339Nano b -> a = b.

Lemma encodeGrant_inj `{GoTimeInj} g g' : encodeGrant g = encodeGrant g' -> g = g'.
Proof.
  unfold encodeGrant. intros E.
  apply writeFields_inj in E as [E1 E]; [|done]. injection E1 as ? ? ? ? ? ? ? Ei Ex.
  apply writeField_inj in E as [El E]. apply (inj pretty) in El.
  rewrite <-(append_nil_r (writeFields (gr_ExactValues g))),
    <-(append_nil_r (writeFields (gr_ExactValues g'))) in E.
  apply writeFields_inj in E as [Ev _]; [|lia].
  apply format_inj in Ei, Ex. destruct g, g'; cbn in *. by subst.
Qed.

(** The digest of a grant binds every one of its terms: unless the hash
    collides on the two encodings, grants with equal digests are equal. *)
Theorem CanonicalGrantSHA_binds `{GoTimeInj} `{GoCrypto} (g g' : Grant) :
  (sha256_hex (encodeGrant g) = sha256_hex (encodeGrant g') -> encodeGrant g = encodeGrant g') ->
  CanonicalGrantSHA g = CanonicalGrantSHA g' -> g = g'.
Proof. intros Hc E. by apply encodeGrant_inj, Hc. Qed.

Module OwnershipWitness.
Definition plain_digest : GoCrypto := {| sha256_hex s := s |}.
Definition grant (delegate : string) : Grant := {| gr_ID := "g1"; gr_Owner := "alice";
  gr_Delegate := delegate; gr_Server := "db"; gr_Tool := "drop"; gr_EffectClass := "DESTRUCTIVE";
  gr_ScopeArgument := "table"; gr_ExactValues := ["t1"; "t2"]; gr_IssuedAt := 10; gr_ExpiresAt := 20 |}.
Definition cap : Capability := {| k_Server := "db"; k_Owner := "alice"; k_Tool := "drop";
  k_EffectClass := "DESTRUCTIVE"; k_ScopeArgument := "table" |}.
Definition request : Request := {| rq_Requester := "bob"; rq_Server := "db"; rq_Tool := "drop";
  rq_EffectClass := ""; rq_ScopeValue := "t2"; rq_HasScope := true |}.
Definition registry (grants : list Grant) : Registry :=
  match NewRegistry [cap] with
  | Ok r => fold_left AddGrant grants r
  | Err _ => {| ow_capabilities := ∅; ow_owners := ∅; ow_grants := [] |}
  end.

Lemma decimal_inj : @GoTimeInj decimal_time.
Proof. intros a b E. by apply (inj pretty) in E. Qed.

Example delegated_once :
  pf_Verdict (Evaluate (H := decimal_time) (H0 := plain_digest) (registry [grant "bob"]) request 15)
  = VerdictValidDelegated.
Proof. vm_compute. reflexivity. Qed.
Example delegated_twice :
  pf_Reason (Evaluate (H := decimal_time) (H0 := plain_digest)
    (registry [grant "bob"; grant "bob"]) request 15) = ReasonAmbiguous.
Proof. vm_compute. reflexivity. Qed.
End OwnershipWitness.

Lemma CanonicalGrantSHA_binds_witness :
  CanonicalGrantSHA (H := decimal_time) (H0 := OwnershipWitness.plain_digest)
    (OwnershipWitness.grant "bob") =
  CanonicalGrantSHA (H := decimal_time) (H0 := OwnershipWitness.plain_digest)
    (OwnershipWitness.grant "bob") /\
  OwnershipWitness.grant "bob" = OwnershipWitness.grant "bob".
Proof.
  split; [reflexivity|].
  apply (@CanonicalGrantSHA_binds decimal_time OwnershipWitness.decimal_inj
    OwnershipWitness.plain_digest); [intros E; exact E|reflexivity].
Defined.

(** [hasTimeOnlyMismatch] does not look at the scope argument of the grant
    when the capability has none: a grant for a scoped tool makes the reason
    "expired" although it would not match at any time. *)
Lemma time_only_mismatch_ignores_scope cap req now g :
  gr_Owner g = k_Owner cap -> gr_Delegate g = rq_Requester req ->
  gr_Server g = rq_Server req -> gr_Tool g = rq_Tool req -> gr_EffectClass g = k_EffectClass cap ->
  k_ScopeArgument cap = "" -> gr_ScopeArgument g <> "" -> out_of_time g now = true ->
  time_only_mismatch cap req now g = true /\ forall now', grant_matches cap req now' g = false.
Proof.
  intros E1 E2 E3 E4 E5 E6 E7 E8. split.
  - unfold time_only_mismatch. by rewrite E1, E2, E3, E4, E5, E6, !str_eqb_refl, E8.
  - intros now'. apply not_true_iff_false. rewrite grant_matches_iff. intros [_ _ _ _ [E _] _].
    congruence.
Qed.
