(* ===== verification/OwnershipGate.v ===== *)
(** The capability ownership gate of the proxy:
    [internal/proxy/capability_ownership.go], and the receipt it signs,
    [internal/receipt/capability_ownership.go].

    The gate builds a registry from the policy, evaluates the proof of the
    call, and answers with a signed receipt or a denial.  The signer, the JSON
    encoding of the signed payload and of the policy are arguments. *)
From stdpp Require Import base strings gmap list.
From Stdlib Require Import ZArith Lia Ascii.
From S2P Require Import Prelude GoStrings GoLib Lineage PolicyTypes Engine PolicyValidate PolicyWf Ownership.
#[local] Open Scope Z_scope.

Record CapabilityOwnershipReceipt := {
  rc_Schema : string;
  rc_Requester : string;
  rc_Server : string;
  rc_Tool : string;
  rc_Owner : string;
  rc_EffectClass : string;
  rc_ScopeArgument : string;
  rc_ScopeValueSHA : string;
  rc_DelegationID : string;
  rc_DelegationSHA : string;
  rc_Status : string;
  rc_GrantIssuedAt : string;
  rc_GrantExpiresAt : string;
  rc_RequestHash : string;
  rc_PolicyHash : string;
  rc_EvaluatedAt : Z;
  rc_Verdict : string;
  rc_ReasonCode : string;
  rc_KeyID : string;
  rc_Algorithm : string;
  rc_PublicKey : string;
  rc_Signature : string
}.

(** [json.Marshal] of the two values the gate hashes or signs. *)
Class GateJSON := {
  marshal_receipt : CapabilityOwnershipReceipt -> string;
  marshal_policy : Policy -> string
}.

(** A [SigningKey]: [sg_PublicKey] is [Some] when the key is an Ed25519 key;
    [sg_Sign] is [None] on an error. *)
Record Signer := {
  sg_KeyID : string;
  sg_Algorithm : string;
  sg_PublicKey : option string;
  sg_Sign : string -> option string
}.

Definition OwnershipStatusDirect : string := "direct".
Definition OwnershipStatusMatched : string := "matched".
Definition OwnershipStatusMissing : string := "missing".
Definition OwnershipStatusExpired : string := "expired".
Definition OwnershipStatusAmbiguous : string := "ambiguous".
Definition OwnershipStatusMismatch : string := "mismatch".

Definition hex_digit (n : N) : ascii := if (n <? 10)%N then ascii_of_N (n + 48) else ascii_of_N (n + 87).
(** [hex.EncodeToString] *)
Fixpoint hex_encode (s : string) : string :=
  match s with
  | "" => ""
  | String c s' => String (hex_digit (N_of_ascii c / 16)) (String (hex_digit (N_of_ascii c mod 16)) (hex_encode s'))
  end.

Record ownershipDeny := { od_reason : string; od_receipt : option CapabilityOwnershipReceipt }.

Definition ownershipReasonCode (reason : string) : string :=
  "cross-principal authority acquisition: capability ownership proof invalid (" +:+ reason +:+
  "); argument class PRINCIPAL; effect class THIRD_PARTY; authority transition USER->OTHER".

Definition is_valid (proof : Proof_) : bool :=
  (pf_Verdict proof =s? VerdictValidDirect) || (pf_Verdict proof =s? VerdictValidDelegated).

Definition ownershipStatus (proof : Proof_) : string :=
  if pf_Verdict proof =s? VerdictValidDirect then OwnershipStatusDirect
  else if pf_Verdict proof =s? VerdictValidDelegated then OwnershipStatusMatched
  else if pf_Reason proof =s? ReasonExpired then OwnershipStatusExpired
  else if pf_Reason proof =s? ReasonAmbiguous then OwnershipStatusAmbiguous
  else if pf_Reason proof =s? ReasonMismatch then OwnershipStatusMismatch
  else OwnershipStatusMissing.

Section gate.
Context `{GoTime} `{GoCrypto} `{GateJSON} `{GoJSON}.

Definition grantBound (proof : Proof_) (issued : bool) : string :=
  match pf_Grant proof with
  | None => ""
  | Some (i, x) => format_RFC3339Nano (if issued then i else x)
  end.

(** ** Receipts *)

Definition with_signature (r : CapabilityOwnershipReceipt) (key alg pub sig : string) : CapabilityOwnershipReceipt := {|
  rc_Schema := rc_Schema r; rc_Requester := rc_Requester r; rc_Server := rc_Server r; rc_Tool := rc_Tool r;
  rc_Owner := rc_Owner r; rc_EffectClass := rc_EffectClass r; rc_ScopeArgument := rc_ScopeArgument r;
  rc_ScopeValueSHA := rc_ScopeValueSHA r; rc_DelegationID := rc_DelegationID r;
  rc_DelegationSHA := rc_DelegationSHA r; rc_Status := rc_Status r; rc_GrantIssuedAt := rc_GrantIssuedAt r;
  rc_GrantExpiresAt := rc_GrantExpiresAt r; rc_RequestHash := rc_RequestHash r; rc_PolicyHash := rc_PolicyHash r;
  rc_EvaluatedAt := rc_EvaluatedAt r; rc_Verdict := rc_Verdict r; rc_ReasonCode := rc_ReasonCode r;
  rc_KeyID := key; rc_Algorithm := alg; rc_PublicKey := pub; rc_Signature := sig |}.

Definition signingPayload (r : CapabilityOwnershipReceipt) : string :=
  marshal_receipt (with_signature r (rc_KeyID r) (rc_Algorithm r) (rc_PublicKey r) "").

(** [SignWith]: [None] is an error. *)
Definition SignWith (s : Signer) (r : CapabilityOwnershipReceipt) : option CapabilityOwnershipReceipt :=
  let pub := match sg_PublicKey s with Some pub => hex_encode pub | None => rc_PublicKey r end in
  let r := with_signature r (sg_KeyID s) (sg_Algorithm s) pub "" in
  match sg_Sign s (signingPayload r) with
  | None => None
  | Some sig => Some (with_signature r (rc_KeyID r) (rc_Algorithm r) (rc_PublicKey r) (hex_encode sig))
  end.

Definition decision_receipt (pol : Policy) (originalRaw : string) (proof : Proof_) (cap : Capability)
    (scopeValue : string) (hasScope : bool) : CapabilityOwnershipReceipt := {|
  rc_Schema := "capability_ownership_v1";
  rc_Requester := pf_Requester proof;
  rc_Server := pf_Server proof;
  rc_Tool := pf_Tool proof;
  rc_Owner := pf_Owner proof;
  rc_EffectClass := k_EffectClass cap;
  rc_ScopeArgument := k_ScopeArgument cap;
  rc_ScopeValueSHA := if hasScope && (k_ScopeArgument cap <>s? "") then sha256_hex scopeValue else "";
  rc_DelegationID := pf_DelegationID proof;
  rc_DelegationSHA := pf_DelegationSHA proof;
  rc_Status := ownershipStatus proof;
  rc_GrantIssuedAt := grantBound proof true;
  rc_GrantExpiresAt := grantBound proof false;
  rc_RequestHash := sha256_hex originalRaw;
  rc_PolicyHash := sha256_hex (marshal_policy pol);
  rc_EvaluatedAt := pf_EvaluatedAt proof;
  rc_Verdict := if is_valid proof then "allow" else "deny";
  rc_ReasonCode := pf_Reason proof;
  rc_KeyID := ""; rc_Algorithm := ""; rc_PublicKey := ""; rc_Signature := "" |}.

Abbreviation gate_result := (option CapabilityOwnershipReceipt * option ownershipDeny)%type.

(** [None] as a signed receipt is the [nil] of [recOrNil]. *)
Definition renderOwnershipDecision (approvalSigner : option Signer) (pol : Policy) (originalRaw : string)
    (proof : Proof_) (cap : Capability) (scopeValue : string) (hasScope : bool) : gate_result :=
  let rec := decision_receipt pol originalRaw proof cap scopeValue hasScope in
  let signed := match approvalSigner with None => None | Some s => SignWith s rec end in
  if negb (is_valid proof) then
    (signed, Some {| od_reason := ownershipReasonCode (pf_Reason proof); od_receipt := signed |})
  else match signed with
  | None => (None, Some {| od_reason := ownershipReasonCode "mismatch"; od_receipt := None |})
  | Some rec => (Some rec, None)
  end.

(** ** The registry of a policy *)

Definition cap_of (ep : OwnedEndpoint) (c : CapabilityDecl) : Capability := {|
  k_Server := oe_Server ep; k_Owner := oe_Owner ep; k_Tool := cd_Tool c;
  k_EffectClass := cd_EffectClass c; k_ScopeArgument := cd_ScopeArgument c |}.

Definition policy_caps (oc : CapabilityOwnership) : list Capability :=
  flat_map (fun ep => cap_of ep <$> oe_Capabilities ep) (co_Endpoints oc).

Fixpoint register_owners (eps : list OwnedEndpoint) (r : Registry) : result Registry :=
  match eps with
  | [] => Ok r
  | ep :: eps => let? r := RegisterOwner r (oe_Server ep) (oe_Owner ep) in register_owners eps r
  end.

Definition grant_of (g : DelegationGrant) : result Grant :=
  match parse_RFC3339 (dg_IssuedAt g) with
  | None => Err "parsing time"
  | Some issued =>
      match parse_RFC3339 (dg_ExpiresAt g) with
      | None => Err "parsing time"
      | Some expires => Ok {|
          gr_ID := dg_ID g; gr_Owner := dg_Owner g; gr_Delegate := dg_Delegate g;
          gr_Server := dg_Server g; gr_Tool := dg_Tool g; gr_EffectClass := dg_EffectClass g;
          gr_ScopeArgument := match dg_ResourceScope g with Some rs => rs_Argument rs | None => "" end;
          gr_ExactValues := match dg_ResourceScope g with Some rs => rs_ExactValues rs | None => [] end;
          gr_IssuedAt := issued; gr_ExpiresAt := expires |}
      end
  end.

Fixpoint add_grants (gs : list DelegationGrant) (r : Registry) : result Registry :=
  match gs with
  | [] => Ok r
  | g :: gs => let? g := grant_of g in add_grants gs (AddGrant r g)
  end.

Definition ownershipRegistryFromPolicy (oc : CapabilityOwnership) : result Registry :=
  let? r := Ownership.NewRegistry (policy_caps oc) in
  let? r := register_owners (co_Endpoints oc) r in
  add_grants (co_Delegations oc) r.

(** ** The gate *)

Definition scope_of (cap : Capability) (arguments : string) : option string :=
  if k_ScopeArgument cap <>s? "" then
    match assoc (k_ScopeArgument cap) (entries (extractArgs arguments)) with
    | Some (AString str) => Some str
    | _ => None
    end
  else None.

Definition request_of (clientID serverName : string) (callReq : ToolsCallRequest) (cap : Capability) : Request := {|
  rq_Requester := clientID; rq_Server := serverName; rq_Tool := tc_Name callReq;
  rq_EffectClass := k_EffectClass cap;
  rq_ScopeValue := default "" (scope_of cap (tc_Arguments callReq));
  rq_HasScope := bool_decide (is_Some (scope_of cap (tc_Arguments callReq))) |}.

Definition checkCapabilityOwnership (clientID : string) (approvalSigner : option Signer)
    (serverName : string) (callReq : ToolsCallRequest) (originalRaw : string) (pol : Policy) (now : Z)
    : gate_result :=
  match p_CapabilityOwnership pol with
  | None => (None, None)
  | Some oc =>
      match ownershipRegistryFromPolicy oc with
      | Err _ => (None, Some {| od_reason := ownershipReasonCode "mismatch"; od_receipt := None |})
      | Ok reg =>
          match find_capability reg serverName (tc_Name callReq) with
          | None =>
              match EndpointOwner reg serverName with
              | None => (None, None)
              | Some owner =>
                  renderOwnershipDecision approvalSigner pol originalRaw
                    {| pf_Verdict := VerdictInvalid; pf_Reason := ReasonMissing; pf_Requester := clientID;
                       pf_Server := serverName; pf_Tool := tc_Name callReq; pf_Owner := owner;
                       pf_EffectClass := ""; pf_DelegationID := ""; pf_DelegationSHA := "";
                       pf_Grant := None; pf_EvaluatedAt := now |}
                    {| k_Server := serverName; k_Owner := owner; k_Tool := tc_Name callReq;
                       k_EffectClass := ""; k_ScopeArgument := "" |} "" false
              end
          | Some cap =>
              let req := request_of clientID serverName callReq cap in
              renderOwnershipDecision approvalSigner pol originalRaw (Ownership.Evaluate reg req now) cap
                (rq_ScopeValue req) (rq_HasScope req)
          end
      end
  end.
End gate.

(** ** The registry holds what the policy declares

    The separator of a registry key is the byte NUL; the lemmas below ask
    that no endpoint name of the policy holds it.  Tool names are free. *)

Definition no_nul (s : string) : bool := negb (any_byte (Ascii.eqb NUL) s).

Lemma capKey_inj s t s' t' :
  no_nul s = true -> no_nul s' = true -> capKey s t = capKey s' t' -> s = s' /\ t = t'.
Proof.
  unfold capKey, no_nul. revert s'.
  induction s as [|c s IH]; intros [|c' s'] Hs Hs'; cbn in *.
  - by intros [= ->].
  - intros [= <- _]. done.
  - intros [= -> _]. done.
  - intros [= -> E]. rewrite negb_orb in Hs, Hs'. bools. edestruct (IH s') as [-> ->]; [| |done|done]; by apply negb_true_iff.
Qed.

Definition cap_key (c : Capability) : string := capKey (k_Server c) (k_Tool c).

(** Servers have one owner, and a capability carries it. *)
Definition owners_in (R : string -> string -> Prop) (r : Registry) : Prop :=
  forall s o, ow_owners r !! s = Some o -> R s o.
Definition functional (R : string -> string -> Prop) : Prop := forall s o o', R s o -> R s o' -> o = o'.

Lemma register_caps_ok R caps r :
  functional R -> owners_in R r ->
  NoDup (cap_key <$> caps) ->
  (forall c, In c caps -> R (k_Server c) (k_Owner c) /\ ow_capabilities r !! cap_key c = None) ->
  exists r', register_caps caps r = Ok r' /\ owners_in R r' /\ ow_grants r' = ow_grants r /\
    (forall k c, ow_capabilities r' !! k = Some c <->
       ow_capabilities r !! k = Some c \/ In c caps /\ cap_key c = k).
Proof.
  intros HR. revert r. induction caps as [|c caps IH]; intros r Ho Hn Hc.
  { exists r. naive_solver. }
  cbn in Hn. apply NoDup_cons in Hn as [Hni Hn]. cbn [register_caps].
  destruct (Hc c (or_introl eq_refl)) as [Rc Ec].
  assert (register_cap c r = Ok {| ow_capabilities := <[cap_key c := c]> (ow_capabilities r);
    ow_owners := <[k_Server c := k_Owner c]> (ow_owners r); ow_grants := ow_grants r |}) as ->.
  { unfold register_cap. fold (cap_key c). rewrite Ec.
    destruct (ow_owners r !! k_Server c) as [prev|] eqn:Ep; [|done].
    rewrite (HR _ _ _ (Ho _ _ Ep) Rc), str_eqb_refl. done. }
  cbn [result_bind].
  destruct (IH {| ow_capabilities := <[cap_key c := c]> (ow_capabilities r);
    ow_owners := <[k_Server c := k_Owner c]> (ow_owners r); ow_grants := ow_grants r |})
    as (r' & -> & Ho' & Hg & Hl); [|done| |].
  - intros s o. cbn. destruct (decide (s = k_Server c)) as [->|]; simplify_map_eq; naive_solver.
  - intros c' Hin. split; [by apply Hc; right|]. cbn. rewrite lookup_insert_ne; [by apply Hc; right|].
    intros E. apply Hni. rewrite E. by apply list_elem_of_In, in_map.
  - exists r'. split_and!; try done. intros k c'. rewrite Hl. cbn.
    destruct (decide (k = cap_key c)) as [->|].
    + rewrite lookup_insert_eq, Ec. split; [naive_solver|]. intros [?|[[->|Hin] E]]; [done|by left|].
      right. done.
    + rewrite lookup_insert_ne by done. naive_solver.
Qed.

Lemma register_owners_ok R eps r :
  functional R -> owners_in R r -> (forall ep, In ep eps -> R (oe_Server ep) (oe_Owner ep)) ->
  exists r', register_owners eps r = Ok r' /\ owners_in R r' /\ ow_grants r' = ow_grants r /\
    ow_capabilities r' = ow_capabilities r /\
    (forall s, is_Some (ow_owners r' !! s) <->
       is_Some (ow_owners r !! s) \/ exists ep, In ep eps /\ oe_Server ep = s).
Proof.
  intros HR. revert r. induction eps as [|ep eps IH]; intros r Ho He.
  { exists r. naive_solver. }
  cbn [register_owners]. pose proof (He ep (or_introl eq_refl)) as Re. unfold RegisterOwner at 1.
  assert (match ow_owners r !! oe_Server ep with Some prev => prev <>s? oe_Owner ep | None => false end
    = false) as ->.
  { destruct (ow_owners r !! oe_Server ep) as [prev|] eqn:Ep; [|done].
    rewrite (HR _ _ _ (Ho _ _ Ep) Re), str_eqb_refl. done. }
  cbn [result_bind].
  destruct (IH {| ow_capabilities := ow_capabilities r;
    ow_owners := <[oe_Server ep := oe_Owner ep]> (ow_owners r); ow_grants := ow_grants r |})
    as (r' & -> & Ho' & Hg & Hc & Hl).
  - intros s o. cbn. destruct (decide (s = oe_Server ep)) as [->|]; simplify_map_eq; naive_solver.
  - naive_solver.
  - exists r'. split_and!; try done. intros s. rewrite Hl. cbn.
    destruct (decide (s = oe_Server ep)) as [->|].
    + rewrite lookup_insert_eq. naive_solver.
    + rewrite lookup_insert_ne by done. naive_solver.
Qed.

Section gate_theorems.
Context `{GoTime} `{GoCrypto} `{GateJSON} `{GoJSON}.

Lemma add_grants_ok gs r grants :
  Forall2 (fun g g' => grant_of g = Ok g') gs grants ->
  add_grants gs r = Ok {| ow_capabilities := ow_capabilities r; ow_owners := ow_owners r;
                          ow_grants := ow_grants r ++ grants |}.
Proof.
  intros Hf. revert r. induction Hf as [|g g' gs grants E _ IH]; intros r; cbn.
  - rewrite app_nil_r. by destruct r.
  - rewrite E. cbn. rewrite IH. cbn. by rewrite <-app_assoc.
Qed.

Lemma delegation_grant oc g : delegation_wf oc g -> exists g', grant_of g = Ok g'.
Proof. intros [_ _ _ _ (i & x & E1 & E2 & _)]. unfold grant_of. rewrite E1, E2. eauto. Qed.

Lemma policy_caps_In oc c :
  In c (policy_caps oc) <-> exists ep cd, In ep (co_Endpoints oc) /\ In cd (oe_Capabilities ep) /\ cap_of ep cd = c.
Proof.
  unfold policy_caps. rewrite in_flat_map. setoid_rewrite in_map_iff. naive_solver.
Qed.

Lemma policy_caps_keys oc :
  (forall ep, In ep (co_Endpoints oc) -> no_nul (oe_Server ep) = true /\ NoDup (cd_Tool <$> oe_Capabilities ep)) ->
  NoDup (oe_Server <$> co_Endpoints oc) ->
  NoDup (cap_key <$> policy_caps oc).
Proof.
  unfold policy_caps. generalize (co_Endpoints oc) as eps.
  induction eps as [|ep eps IH]; intros He Hn; cbn; [constructor|].
  cbn in Hn. apply NoDup_cons in Hn as [Hni Hn]. rewrite fmap_app. apply NoDup_app. split_and!.
  - rewrite <-list_fmap_compose. destruct (He ep (or_introl eq_refl)) as [Hs Ht].
    induction (oe_Capabilities ep) as [|cd cds IHc]; cbn; [constructor|]. cbn in Ht.
    apply NoDup_cons in Ht as [Hti Ht]. constructor; [|by apply IHc].
    rewrite list_elem_of_fmap. intros (cd' & E & Hin). apply Hti.
    apply capKey_inj in E as [_ E]; [|done..]. cbn in E. rewrite E. by apply list_elem_of_fmap_2.
  - intros k Hk Hk'. apply list_elem_of_fmap in Hk as (c & -> & Hc).
    apply list_elem_of_fmap in Hc as (cd & -> & _).
    apply list_elem_of_fmap in Hk' as (c' & E & Hc'). apply list_elem_of_In, in_flat_map in Hc' as (ep' & Hin & Hc').
    apply list_elem_of_In, list_elem_of_fmap in Hc' as (cd' & -> & _).
    apply capKey_inj in E as [E _]; [| by apply (He ep); left | by apply (He ep'); right].
    cbn in E. apply Hni. rewrite E. by apply list_elem_of_In, in_map.
  - apply IH; [|done]. intros ep' Hin. apply He. by right.
Qed.

Lemma registry_of_policy p oc :
  ownership_wf p oc -> (forall ep, In ep (co_Endpoints oc) -> no_nul (oe_Server ep) = true) ->
  exists reg, ownershipRegistryFromPolicy oc = Ok reg /\
    Forall2 (fun g g' => grant_of g = Ok g') (co_Delegations oc) (ow_grants reg) /\
    (forall s t cap, no_nul s = true -> find_capability reg s t = Some cap <->
       exists ep cd, In ep (co_Endpoints oc) /\ oe_Server ep = s /\ In cd (oe_Capabilities ep) /\
         cd_Tool cd = t /\ cap = cap_of ep cd) /\
    (forall s, is_Some (EndpointOwner reg s) <-> exists ep, In ep (co_Endpoints oc) /\ oe_Server ep = s).
Proof.
  intros [He Hs Hg _] Hz. rewrite Forall_forall in He. rewrite Forall_forall in Hg.
  assert (forall ep, In ep (co_Endpoints oc) -> NoDup (cd_Tool <$> oe_Capabilities ep)) as Ht.
  { intros ep Hin%list_elem_of_In. by apply (He ep). }
  set (R s o := exists ep, In ep (co_Endpoints oc) /\ oe_Server ep = s /\ oe_Owner ep = o).
  assert (functional R) as HR.
  { intros s o o' (ep & Hin & Es & <-) (ep' & Hin' & Es' & <-). f_equal.
    eapply (NoDup_fmap_inj oe_Server); [done..|congruence]. }
  destruct (register_caps_ok R (policy_caps oc)
    {| ow_capabilities := ∅; ow_owners := ∅; ow_grants := [] |}) as (r1 & E1 & Ho1 & Eg1 & Hc1);
    [done|done| |..].
  { apply policy_caps_keys; [|done]. intros ep Hin. split; [by apply Hz|by apply Ht]. }
  { intros c (ep & cd & Hin & _ & <-)%policy_caps_In. split; [by exists ep|]. apply lookup_empty. }
  destruct (register_owners_ok R (co_Endpoints oc) r1) as (r2 & E2 & Ho2 & Eg2 & Ec2 & Hw2); [done|done| |].
  { intros ep Hin. by exists ep. }
  assert (exists grants, Forall2 (fun g g' => grant_of g = Ok g') (co_Delegations oc) grants) as [grants Hgr].
  { clear -Hg. induction (co_Delegations oc) as [|g gs IH]; [by exists []|].
    destruct IH as [grants ?]; [intros g' ?; apply Hg; by constructor|].
    destruct (delegation_grant oc g) as [g' ?]; [apply Hg; constructor|]. exists (g' :: grants). by constructor. }
  exists {| ow_capabilities := ow_capabilities r2; ow_owners := ow_owners r2; ow_grants := ow_grants r2 ++ grants |}.
  unfold ownershipRegistryFromPolicy, Ownership.NewRegistry. rewrite E1. cbn [result_bind]. rewrite E2. cbn [result_bind].
  rewrite (add_grants_ok _ _ grants) by done. rewrite Eg2, Eg1. split_and!; [done|done| |].
  - intros s t cap Hns. unfold find_capability. cbn. rewrite Ec2, Hc1. cbn. rewrite lookup_empty, policy_caps_In. split.
    + intros [?|[(ep & cd & Hin & Hcd & <-) E]]; [done|]. apply capKey_inj in E as [E1' E2']; [|by apply Hz|done].
      by exists ep, cd.
    + intros (ep & cd & Hin & <- & Hcd & <- & ->). right. split; [by exists ep, cd|done].
  - intros s. unfold EndpointOwner. cbn. rewrite Hw2. split; [|by right]. intros [Hso|]; [|done].
    destruct Hso as [o Ho]. destruct (Ho1 _ _ Ho) as (ep & ? & ? & _). eauto.
Qed.

(** ** Who passes the gate *)

(** The capability is declared for the tool, and the caller is its owner or
    the delegate of exactly one live grant for it. *)
Definition entitled (oc : CapabilityOwnership) (clientID serverName : string) (callReq : ToolsCallRequest)
    (now : Z) : Prop :=
  exists ep cd, In ep (co_Endpoints oc) /\ oe_Server ep = serverName /\ In cd (oe_Capabilities ep) /\
    cd_Tool cd = tc_Name callReq /\
    (clientID = oe_Owner ep \/
     exists grants g, Forall2 (fun d g => grant_of d = Ok g) (co_Delegations oc) grants /\
       sole_grant (authorizes (cap_of ep cd) (request_of clientID serverName callReq (cap_of ep cd)) now) grants g).

Lemma is_valid_Evaluate reg req now cap :
  find_capability reg (rq_Server req) (rq_Tool req) = Some cap -> rq_EffectClass req = k_EffectClass cap ->
  is_valid (Ownership.Evaluate reg req now) = true <->
  rq_Requester req = k_Owner cap \/ exists g, sole_grant (authorizes cap req now) (ow_grants reg) g.
Proof.
  intros Ec Ee. unfold Ownership.Evaluate. rewrite Ec.
  assert ((k_EffectClass cap <>s? "") && (rq_EffectClass req <>s? "") &&
          (rq_EffectClass req <>s? k_EffectClass cap) = false) as ->.
  { rewrite Ee, str_eqb_refl. apply andb_false_r. }
  setoid_rewrite <-matchingGrants_sole.
  destruct (rq_Requester req =? k_Owner cap)%string eqn:Er; bools; [by split; [left|]|].
  destruct (matchingGrants reg cap req now) as [|g [|g' l]] eqn:Em.
  - split; [|by intros [|[]]]. destruct (hasTimeOnlyMismatch _ _ _ _); by intros.
  - split; [|done]. intros _. right. by exists g.
  - split; [by intros|by intros [|[]]].
Qed.

Lemma render_allow s pol raw proof cap v h :
  (forall m, is_Some (sg_Sign s m)) ->
  snd (renderOwnershipDecision (Some s) pol raw proof cap v h) = None <-> is_valid proof = true.
Proof.
  intros Hs. unfold renderOwnershipDecision, SignWith.
  destruct (is_valid proof); cbn [negb]; [|split; done].
  match goal with |- context [sg_Sign s ?m] => destruct (Hs m) as [sig ->] end. done.
Qed.

Lemma grants_functional ds grants grants' :
  Forall2 (fun d g => grant_of d = Ok g) ds grants -> Forall2 (fun d g => grant_of d = Ok g) ds grants' ->
  grants = grants'.
Proof.
  intros Hf. revert grants'. induction Hf as [|d g ds grants E _ IH]; intros grants' Hf'; inversion Hf'; subst; [done|].
  f_equal; [congruence|]. by apply IH.
Qed.

(** C25.  Under a policy that loads, with endpoint names free of the key
    separator and a signer that works, the gate lets a call through exactly
    when its server is not a protected endpoint, or the tool is declared
    there and the caller is its owner or holds exactly one live grant that
    agrees with the call on every axis.  In particular no other tool of a
    protected endpoint passes. *)
Theorem checkCapabilityOwnership_iff (p : Policy) (oc : CapabilityOwnership) (s : Signer)
    (clientID serverName : string) (callReq : ToolsCallRequest) (raw : string) (now : Z)
    (Hload : PolicyWf.ownership_wf p oc) (Hoc : p_CapabilityOwnership p = Some oc)
    (Hnul : forall ep, In ep (co_Endpoints oc) -> no_nul (oe_Server ep) = true)
    (Hname : no_nul serverName = true) (Hsigner : forall m, is_Some (sg_Sign s m)) :
  snd (checkCapabilityOwnership clientID (Some s) serverName callReq raw p now) = None <->
  (forall ep, In ep (co_Endpoints oc) -> oe_Server ep <> serverName) \/
  entitled oc clientID serverName callReq now.
Proof.
  unfold checkCapabilityOwnership. rewrite Hoc.
  destruct (registry_of_policy p oc Hload Hnul) as (reg & -> & Hg & Hc & Ho).
  destruct (find_capability reg serverName (tc_Name callReq)) as [cap|] eqn:Ec.
  - apply Hc in Ec as Hd; [|done]. destruct Hd as (ep & cd & Hep & Es & Hcd & Et & Ecap).
    rewrite render_allow, (is_valid_Evaluate _ _ _ cap) by done. cbn [rq_Requester request_of].
    split.
    + intros [Hown|[g Hsole]]; right; exists ep, cd; split_and!; try done; rewrite Ecap in *; [by left|].
      right. by exists (ow_grants reg), g.
    + intros [Hno|(ep' & cd' & Hep' & Es' & Hcd' & Et' & Hor)]; [by destruct (Hno ep Hep)|].
      assert (cap_of ep' cd' = cap) as <-.
      { apply (inj Some). rewrite <-Ec. symmetry. apply Hc; [done|]. by exists ep', cd'. }
      destruct Hor as [|(grants & g & Hg' & Hsole)]; [by left|]. right. exists g.
      by rewrite (grants_functional _ _ _ Hg Hg').
  - destruct (EndpointOwner reg serverName) as [owner|] eqn:Eo.
    + rewrite render_allow by done. split; [done|]. intros [Hno|(ep & cd & Hep & Es & Hcd & Et & _)].
      * destruct (proj1 (Ho serverName)) as (ep & Hep & Es); [by eexists|]. by destruct (Hno ep Hep).
      * rewrite (proj2 (Hc serverName (tc_Name callReq) (cap_of ep cd) Hname)) in Ec; [done|]. by exists ep, cd.
    + split; [|done]. intros _. left. intros ep Hep Es.
      destruct (proj2 (Ho serverName)) as [o ?]; [by exists ep|]. congruence.
Qed.

(** [r] carries the signature of its own payload. *)
Definition signed_by (s : Signer) (r : CapabilityOwnershipReceipt) : Prop :=
  exists sig, sg_Sign s (signingPayload r) = Some sig /\ rc_Signature r = hex_encode sig.

Lemma SignWith_signed s r r' : SignWith s r = Some r' -> signed_by s r' /\ rc_Verdict r' = rc_Verdict r /\
  rc_RequestHash r' = rc_RequestHash r /\ rc_Requester r' = rc_Requester r /\ rc_PolicyHash r' = rc_PolicyHash r.
Proof.
  unfold SignWith. destruct (sg_Sign s _) as [sig|] eqn:E; [|done]. intros [= <-]. cbn.
  split; [|done]. by exists sig.
Qed.

(** What a receipt of the gate attests. *)
Record attests (signer : option Signer) (pol : Policy) (clientID originalRaw verdict : string)
    (r : CapabilityOwnershipReceipt) : Prop := {
  at_signed : exists s, signer = Some s /\ signed_by s r;
  at_verdict : rc_Verdict r = verdict;
  at_request : rc_RequestHash r = sha256_hex originalRaw;
  at_policy : rc_PolicyHash r = sha256_hex (marshal_policy pol);
  at_requester : rc_Requester r = clientID
}.

Lemma render_attests signer pol raw proof cap v h rec deny :
  renderOwnershipDecision signer pol raw proof cap v h = (rec, deny) ->
  (deny = None -> exists r, rec = Some r /\ attests signer pol (pf_Requester proof) raw "allow" r) /\
  (forall d, deny = Some d -> od_receipt d = rec /\
     forall r, rec = Some r -> attests signer pol (pf_Requester proof) raw "deny" r).
Proof.
  unfold renderOwnershipDecision.
  set (rec0 := decision_receipt pol raw proof cap v h).
  assert (forall r, match signer with Some s => SignWith s rec0 | None => None end = Some r ->
    attests signer pol (pf_Requester proof) raw (if is_valid proof then "allow" else "deny") r) as Hs.
  { intros r E. destruct signer as [s|]; [|done]. apply SignWith_signed in E as (? & E2 & E3 & E4 & E5).
    split; [by exists s|..]; cbn in *; congruence. }
  destruct (is_valid proof); cbn [negb].
  - destruct (match signer with Some s => SignWith s rec0 | None => None end) as [r|] eqn:E;
      intros [= <- <-]; split; try done.
    + intros _. exists r. split; [done|]. by apply Hs.
    + intros d [= <-]. done.
  - intros [= <- <-]. split; [done|]. intros d [= <-]. done.
Qed.

Lemma Evaluate_requester reg req now : pf_Requester (Ownership.Evaluate reg req now) = rq_Requester req.
Proof. unfold Ownership.Evaluate. repeat case_match; done. Qed.

(** The evidence of the gate, whatever the policy and the signer: a call
    to a protected endpoint is let through only with a receipt that says
    allow, signed over its own payload, and bound to the caller, the request
    bytes and the policy; without a signer it is never let through.  A
    denial's receipt, if any, is signed and says deny. *)
Theorem checkCapabilityOwnership_evidence (clientID : string) (signer : option Signer) (serverName : string)
    (callReq : ToolsCallRequest) (raw : string) (pol : Policy) (now : Z) :
  let '(rec, deny) := checkCapabilityOwnership clientID signer serverName callReq raw pol now in
  match deny, rec with
  | None, Some r => attests signer pol clientID raw "allow" r
  | None, None => p_CapabilityOwnership pol = None \/
      exists oc reg, p_CapabilityOwnership pol = Some oc /\ ownershipRegistryFromPolicy oc = Ok reg /\
        EndpointOwner reg serverName = None /\ find_capability reg serverName (tc_Name callReq) = None
  | Some d, Some r => od_receipt d = Some r /\ attests signer pol clientID raw "deny" r
  | Some d, None => od_receipt d = None
  end.
Proof.
  destruct (checkCapabilityOwnership _ _ _ _ _ _ _) as [rec deny] eqn:E. revert E.
  unfold checkCapabilityOwnership. destruct (p_CapabilityOwnership pol) as [oc|]; [|intros [= <- <-]; by left].
  destruct (ownershipRegistryFromPolicy oc) as [reg|] eqn:Er; [|by intros [= <- <-]].
  destruct (find_capability reg serverName (tc_Name callReq)) as [cap|] eqn:Ec.
  2: destruct (EndpointOwner reg serverName) as [owner|] eqn:Eo;
       [|intros [= <- <-]; right; by exists oc, reg].
  all: intros [Ha Hd]%render_attests; rewrite ?Evaluate_requester in *; cbn in *.
  all: destruct deny as [d|]; [destruct (Hd d eq_refl) as [Ed Hr]|destruct (Ha eq_refl) as (r & -> & ?); done].
  all: destruct rec as [r|]; [split; [done|]; by apply Hr|done].
Qed.
End gate_theorems.

(** ** Witnesses *)
Module GateWitness.
Definition digest : GoCrypto := {| sha256_hex := fun s => s |}.
Definition json : GateJSON := {| marshal_receipt := rc_Verdict; marshal_policy := p_Version |}.
Definition call : ToolsCallRequest := {| tc_Name := "send"; tc_Arguments := "{}" |}.
Definition arguments : GoJSON := const_json (Some [("to", AString "x@y")]).
Definition key : Signer := {| sg_KeyID := "k"; sg_Algorithm := "ed25519"; sg_PublicKey := Some "pub";
  sg_Sign := fun m => Some m |}.

Definition server (name tool : string) : Server := {|
  s_Name := name; s_Transport := ""; s_Allowed := true; s_AllowedDestinations := [];
  s_DeniedDestinations := []; s_WorkspaceRoot := ""; s_Attestation := None;
  s_Tools := [{| t_Name := tool; t_Allowed := true; t_Risk := ""; t_ApprovalRequired := false;
                 t_Delegates := false; t_Rules := []; t_RequiredScopes := [] |}] |}.
Definition endpoint (name tool : string) : OwnedEndpoint := {|
  oe_Server := name; oe_Owner := "alice";
  oe_Capabilities := [{| cd_Tool := tool; cd_EffectClass := "SEND"; cd_ScopeArgument := "to" |}] |}.
Definition grant : DelegationGrant := {|
  dg_ID := "g1"; dg_Owner := "alice"; dg_Delegate := "bob"; dg_Server := "mail"; dg_Tool := "send";
  dg_EffectClass := "SEND";
  dg_ResourceScope := Some {| rs_Argument := "to"; rs_ExactValues := ["x@y"] |};
  dg_IssuedAt := "10"; dg_ExpiresAt := "20" |}.
Definition block : CapabilityOwnership := {| co_Endpoints := [endpoint "mail" "send"]; co_Delegations := [grant] |}.

Definition policy (servers : list Server) (oc : CapabilityOwnership) : Policy :=
  let d := PolicyDefaults.DefaultPolicy in {|
  p_Version := p_Version d; p_Description := p_Description d; p_DefaultAction := p_DefaultAction d;
  p_Settings := p_Settings d; p_Servers := servers; p_ToolChains := []; p_Taints := [];
  p_EgressControls := []; p_Identities := []; p_TimeRestrictions := []; p_Redaction := p_Redaction d;
  p_CapabilityOwnership := Some oc; p_Identity := None; p_Trajectories := [] |}.
Definition mail : Policy := policy [server "mail" "send"] block.

Definition check (client : string) (signer : option Signer) (pol : Policy) (now : Z) :=
  checkCapabilityOwnership (H := decimal_time) (H0 := digest) (H1 := json) (H2 := arguments)
    client signer "mail" call "raw" pol now.

Example owner_passes : (check "alice" (Some key) mail 50).2 = None.
Proof. vm_compute. reflexivity. Qed.
Example delegate_expired :
  od_reason <$> (check "bob" (Some key) mail 20).2 = Some (ownershipReasonCode "expired").
Proof. vm_compute. reflexivity. Qed.
Example owner_without_signer :
  od_reason <$> (check "alice" None mail 50).2 = Some (ownershipReasonCode "mismatch").
Proof. vm_compute. reflexivity. Qed.

(** Endpoint names that hold the key separator load, and their registry does
    not: [ownershipRegistryFromPolicy] can fail after [Validate]. *)
Definition nul_block : CapabilityOwnership := {|
  co_Endpoints := [endpoint (String "a" (String NUL "b")) "c"; endpoint "a" (String "b" (String NUL "c"))];
  co_Delegations := [] |}.
Definition nul_policy : Policy :=
  policy [server (String "a" (String NUL "b")) "c"; server "a" (String "b" (String NUL "c"))] nul_block.
End GateWitness.

Lemma checkCapabilityOwnership_iff_witness :
  snd (checkCapabilityOwnership (H := decimal_time) (H0 := GateWitness.digest) (H1 := GateWitness.json)
    (H2 := GateWitness.arguments) "bob" (Some GateWitness.key) "mail" GateWitness.call "raw"
    GateWitness.mail 15) = None.
Proof.
  refine (proj2 (@checkCapabilityOwnership_iff decimal_time GateWitness.digest GateWitness.json
    GateWitness.arguments GateWitness.mail GateWitness.block GateWitness.key "bob" "mail" GateWitness.call
    "raw" 15 _ eq_refl _ eq_refl _) _).
  - apply (proj1 (@validate_ownership_None decimal_time plain_quote (Some GateWitness.block) GateWitness.mail));
      reflexivity.
  - intros ep [<-|[]]. reflexivity.
  - intros m. by exists m.
  - right. exists (GateWitness.endpoint "mail" "send"). eexists. split_and!; [by left|done|by left|done|].
    right. eexists [_], _. split; [repeat constructor|]. exists [], []. split; [done|].
    split; [|split; constructor].
    apply grant_matches_iff. reflexivity.
Defined.

(** A policy can load and its ownership registry fail to build, which
    denies every call of every server, protected or not: two endpoints whose
    names hold the NUL byte of the registry key can share a key.  (The code
    comments that construction cannot fail after validation.) *)
Theorem registry_fails_after_Validate :
  Validate (H := decimal_time) (H0 := plain_quote) GateWitness.nul_policy = None /\
  (forall r, ownershipRegistryFromPolicy (H := decimal_time) GateWitness.nul_block <> Ok r) /\
  forall client signer server callReq raw now,
    is_Some (snd (checkCapabilityOwnership (H := decimal_time) (H0 := GateWitness.digest)
      (H1 := GateWitness.json) (H2 := GateWitness.arguments) client signer server callReq raw
      GateWitness.nul_policy now)).
Proof.
  split; [reflexivity|]. split; [intros r E; vm_compute in E; discriminate|].
  intros. eexists. reflexivity.
Qed.
