(* ===== verification/Session.v ===== *)
(** The session a proxy keeps: [internal/proxy/session.go], and the
    delegation budget of [delegation.go].  Each operation of the source holds
    [s.mu] for its whole body, so one operation is one step. *)
From stdpp Require Import base strings gmap list.
From Stdlib Require Import ZArith Lia Ascii.
From S2P Require Import Prelude GoStrings GoLib Lineage PolicyTypes Engine.
#[local] Open Scope Z_scope.

Record ToolCallRecord := {
  tr_Timestamp : Z;
  tr_ServerName : string;
  tr_ToolName : string;
  tr_Arguments : args;
  tr_Result : string
}.

(** [tn_CreatedAt] is [None] for the zero time. *)
Record SessionTaint := {
  tn_Name : string;
  tn_SourceServer : string;
  tn_SourceTool : string;
  tn_SourceValue : string;
  tn_PolicyRule : string;
  tn_Reason : string;
  tn_CreatedAt : option Z
}.

Record Session := {
  ss_ID : string;
  ss_ClientID : string;
  ss_CreatedAt : Z;
  ss_ToolCalls : list ToolCallRecord;
  ss_Taints : gmap string SessionTaint;
  ss_SpawnDepth : Z;
  ss_Nonces : gmap string Z
}.

Definition NewSession (id clientID : string) (now : Z) : Session := {|
  ss_ID := id; ss_ClientID := clientID; ss_CreatedAt := now; ss_ToolCalls := []; ss_Taints := ∅;
  ss_SpawnDepth := 0; ss_Nonces := ∅ |}.

Definition with_calls (s : Session) (l : list ToolCallRecord) : Session := {|
  ss_ID := ss_ID s; ss_ClientID := ss_ClientID s; ss_CreatedAt := ss_CreatedAt s;
  ss_ToolCalls := l; ss_Taints := ss_Taints s; ss_SpawnDepth := ss_SpawnDepth s;
  ss_Nonces := ss_Nonces s |}.
Definition with_taints (s : Session) (m : gmap string SessionTaint) : Session := {|
  ss_ID := ss_ID s; ss_ClientID := ss_ClientID s; ss_CreatedAt := ss_CreatedAt s;
  ss_ToolCalls := ss_ToolCalls s; ss_Taints := m; ss_SpawnDepth := ss_SpawnDepth s;
  ss_Nonces := ss_Nonces s |}.
Definition with_depth (s : Session) (d : Z) : Session := {|
  ss_ID := ss_ID s; ss_ClientID := ss_ClientID s; ss_CreatedAt := ss_CreatedAt s;
  ss_ToolCalls := ss_ToolCalls s; ss_Taints := ss_Taints s; ss_SpawnDepth := d;
  ss_Nonces := ss_Nonces s |}.
Definition with_nonces (s : Session) (m : gmap string Z) : Session := {|
  ss_ID := ss_ID s; ss_ClientID := ss_ClientID s; ss_CreatedAt := ss_CreatedAt s;
  ss_ToolCalls := ss_ToolCalls s; ss_Taints := ss_Taints s; ss_SpawnDepth := ss_SpawnDepth s;
  ss_Nonces := m |}.

(** ** Nonces *)

(** Expired nonces are dropped, then the nonce is recorded unless present. *)
Definition ConsumeInstructionAuthorityNonce (s : Session) (nonce : string) (expiresAt nowUnix : Z)
    : Session * bool :=
  let live := filter (fun e : string * Z => nowUnix < e.2) (ss_Nonces s) in
  match live !! nonce with
  | Some _ => (with_nonces s live, false)
  | None => (with_nonces s (<[nonce := expiresAt]> live), true)
  end.

(** ** Calls *)

Definition rawToMap `{GoJSON} (raw : string) : args :=
  if raw =s? "" then None
  else match json_object raw with Some m => m | None => Some [("_raw", AString raw)] end.

Definition RecordToolCall `{GoJSON} (s : Session) (serverName : string) (req : ToolsCallRequest)
    (result : string) (now : Z) : Session :=
  with_calls s (ss_ToolCalls s ++ [{|
    tr_Timestamp := now; tr_ServerName := serverName; tr_ToolName := tc_Name req;
    tr_Arguments := rawToMap (tc_Arguments req); tr_Result := result |}]).

(** [start := len - n], with [n] clamped to the length. *)
Definition last_calls (s : Session) (n : Z) : list ToolCallRecord :=
  let len := Z.of_nat (length (ss_ToolCalls s)) in
  let n := if (n <=? 0) || (len <? n) then len else n in
  drop (Z.to_nat (len - n)) (ss_ToolCalls s).

Definition RecentCalls (s : Session) (n : Z) : list ToolCallRecord := last_calls s n.
Definition ToolCallCount (s : Session) : Z := Z.of_nat (length (ss_ToolCalls s)).

Definition chain_entry (call : ToolCallRecord) : string :=
  tr_ServerName call +:+ ":" +:+ tr_ToolName call.

Definition RecentCallChain (s : Session) (window : Z) : list string :=
  match ss_ToolCalls s with
  | [] => []
  | _ => chain_entry <$> last_calls s window
  end.

(** ** Taints *)

Definition with_created (t : SessionTaint) (now : Z) : SessionTaint := {|
  tn_Name := tn_Name t; tn_SourceServer := tn_SourceServer t; tn_SourceTool := tn_SourceTool t;
  tn_SourceValue := tn_SourceValue t; tn_PolicyRule := tn_PolicyRule t; tn_Reason := tn_Reason t;
  tn_CreatedAt := Some (default now (tn_CreatedAt t)) |}.

Definition AddTaint (s : Session) (t : SessionTaint) (now : Z) : Session * bool :=
  if tn_Name t =s? "" then (s, false)
  else match ss_Taints s !! tn_Name t with
  | Some _ => (s, false)
  | None => (with_taints s (<[tn_Name t := with_created t now]> (ss_Taints s)), true)
  end.

Definition HasTaint (s : Session) (name : string) : bool := bool_decide (is_Some (ss_Taints s !! name)).
Definition GetTaint (s : Session) (name : string) : option SessionTaint := ss_Taints s !! name.
Definition TaintNames (s : Session) : list string := (map_to_list (ss_Taints s)).*1.
Definition TaintsSnapshot (s : Session) : list SessionTaint := (map_to_list (ss_Taints s)).*2.

(** ** Delegation budget *)

Definition DelegationDepth (s : Session) : Z := ss_SpawnDepth s.

Definition AddCheckDelegation (s : Session) (max : Z) : Session * (Z * bool) :=
  let d := ss_SpawnDepth s + 1 in
  if (0 <? max) && (max <? d) then (with_depth s (d - 1), (d - 1, true))
  else (with_depth s d, (d, false)).

Definition TryReserveDelegation (s : Session) (max : Z) : Session * (Z * bool) :=
  if max <? ss_SpawnDepth s + 1 then (s, (ss_SpawnDepth s, false))
  else (with_depth s (ss_SpawnDepth s + 1), (ss_SpawnDepth s + 1, true)).

Definition ReleaseDelegation (s : Session) : Session :=
  if 0 <? ss_SpawnDepth s then with_depth s (ss_SpawnDepth s - 1) else s.

(** [toolDelegates]: the first tool of that name on any server entry of that
    name decides. *)
Definition toolDelegates (pol : Policy) (serverName toolName : string) : bool :=
  match List.find (fun t => t_Name t =s? toolName)
          (flat_map s_Tools (List.filter (fun srv => s_Name srv =s? serverName) (p_Servers pol))) with
  | Some tool => t_Delegates tool
  | None => false
  end.

Record ceilingDenyInfo := { cd_reason : string; cd_depth : Z; cd_max : Z }.

Definition ceiling_info (depth max : Z) : ceilingDenyInfo := {|
  cd_reason := "delegation ceiling exceeded (depth " +:+ Itoa depth +:+ " at max " +:+ Itoa max +:+
    "): argument class DELEGATION, effect class DELEGATION, authority transition PARENT->CHILD";
  cd_depth := depth; cd_max := max |}.

Definition checkDelegationCeiling (pol : Policy) (s : Session) (serverName toolName : string)
    : option ceilingDenyInfo :=
  let max := st_MaxSpawnDepth (p_Settings pol) in
  if max <=? 0 then None
  else if negb (toolDelegates pol serverName toolName) then None
  else if max <? DelegationDepth s + 1 then Some (ceiling_info (DelegationDepth s) max)
  else None.

(** The session after the call, the denial, and whether a unit is held. *)
Definition tryReserveDelegation (pol : Policy) (s : Session) (serverName toolName : string)
    : Session * (option ceilingDenyInfo * bool) :=
  if negb (toolDelegates pol serverName toolName) then (s, (None, false))
  else
    let max := st_MaxSpawnDepth (p_Settings pol) in
    match AddCheckDelegation s max with
    | (s, (depth, true)) => (s, (Some (ceiling_info depth max), false))
    | (s, (_, false)) => (s, (None, true))
    end.
