(* ===== verification/SessionSpec.v ===== *)
(** What the session guarantees across any sequence of operations: nonces are
    used once, the delegation budget holds under every interleaving of calls,
    taints are permanent, and the chain history is the recorded one. *)
From stdpp Require Import base strings gmap list relations.
From Stdlib Require Import ZArith Lia Ascii.
From S2P Require Import Prelude GoStrings GoLib Lineage PolicyTypes PolicyRegistry Engine Session.
#[local] Open Scope Z_scope.

(** ** Nonces *)

Record consumption := { co_nonce : string; co_expires : Z; co_now : Z }.

Definition consume (s : Session) (c : consumption) : Session :=
  (ConsumeInstructionAuthorityNonce s (co_nonce c) (co_expires c) (co_now c)).1.

Lemma consume_keeps s c nonce exp :
  ss_Nonces s !! nonce = Some exp -> co_now c < exp ->
  ss_Nonces (consume s c) !! nonce = Some exp.
Proof.
  intros Hn Hnow. unfold consume, ConsumeInstructionAuthorityNonce.
  assert (filter (fun e : string * Z => co_now c < e.2) (ss_Nonces s) !! nonce = Some exp) as Hl
    by (by apply map_lookup_filter_Some).
  destruct (filter _ _ !! co_nonce c) eqn:E; cbn; [done|].
  destruct (decide (co_nonce c = nonce)) as [En|]; [congruence|]. by rewrite lookup_insert_ne.
Qed.

(** Once a nonce is accepted, no call can present it again before it
    expires, whatever else is consumed in between. *)
Theorem nonce_no_replay (s : Session) (nonce : string) (expires now : Z)
    (between : list consumption) (expires' now' : Z) :
  (ConsumeInstructionAuthorityNonce s nonce expires now).2 = true ->
  Forall (fun c => co_now c < expires) between -> now' < expires ->
  let s' := fold_left consume between (ConsumeInstructionAuthorityNonce s nonce expires now).1 in
  (ConsumeInstructionAuthorityNonce s' nonce expires' now').2 = false.
Proof.
  intros Hacc Hbetween Hnow. cbv zeta.
  assert (ss_Nonces (ConsumeInstructionAuthorityNonce s nonce expires now).1 !! nonce = Some expires) as H0.
  { unfold ConsumeInstructionAuthorityNonce in *. destruct (filter _ _ !! nonce); cbn in *; [done|].
    apply lookup_insert_eq. }
  revert H0. generalize (ConsumeInstructionAuthorityNonce s nonce expires now).1 as s1. clear Hacc.
  induction Hbetween as [|c l Hc _ IH]; intros s1 H1; cbn.
  - unfold ConsumeInstructionAuthorityNonce.
    assert (filter (fun e : string * Z => now' < e.2) (ss_Nonces s1) !! nonce = Some expires) as ->
      by (by apply map_lookup_filter_Some). done.
  - apply IH. by apply consume_keeps.
Qed.

(** ** Delegation budget

    A configuration is the session with the calls that hold a unit: those in
    flight and those relayed.  Every step is one critical section of
    [Session], by any call, under whatever limit its policy snapshot has. *)
Definition config : Type := Session * gset nat.

Inductive budget_step : config -> config -> Prop :=
| step_admit s held call max s' d :
    call ∉ held -> AddCheckDelegation s max = (s', (d, false)) ->
    budget_step (s, held) (s', {[call]} ∪ held)
| step_refuse s held max s' d :
    AddCheckDelegation s max = (s', (d, true)) -> budget_step (s, held) (s', held)
| step_release s held call :
    call ∈ held -> budget_step (s, held) (ReleaseDelegation s, held ∖ {[call]})
| step_other s held s' :
    ss_SpawnDepth s' = ss_SpawnDepth s -> budget_step (s, held) (s', held).

Definition counted (c : config) : Prop := ss_SpawnDepth c.1 = Z.of_nat (size c.2).

Lemma counted_step c c' : counted c -> budget_step c c' -> counted c'.
Proof.
  unfold counted. intros Hc Hstep. destruct Hstep as [s held call max s' d Hf E|s held max s' d E|s held call Hin|s held s' E];
    cbn in *.
  - unfold AddCheckDelegation in E. destruct (_ && _); simplify_eq. cbn.
    rewrite size_union, size_singleton by set_solver. lia.
  - unfold AddCheckDelegation in E. destruct (_ && _); simplify_eq. cbn. lia.
  - assert (size held = S (size (held ∖ {[call]}))) as Hs.
    { assert ({[call]} ⊆ held) as Hsub by set_solver.
      pose proof (subseteq_size _ _ Hsub) as Hle.
      rewrite size_difference, size_singleton in * by done. lia. }
    unfold ReleaseDelegation. destruct (0 <? ss_SpawnDepth s) eqn:E; bools; cbn; lia.
  - lia.
Qed.

(** C16.  In every reachable configuration the depth is the number of calls
    that hold a unit, and a call admitted under a positive limit leaves at
    most that many holders: concurrent calls cannot both pass on the last
    unit, and a refused or released call leaves none behind. *)
Theorem delegation_budget (id clientID : string) (now : Z) (c c' : config) :
  rtc budget_step (NewSession id clientID now, ∅) c -> budget_step c c' ->
  counted c /\ counted c' /\
  forall s held call max s' d, c = (s, held) -> c' = (s', {[call]} ∪ held) -> call ∉ held ->
    AddCheckDelegation s max = (s', (d, false)) -> 0 < max ->
    Z.of_nat (size c'.2) <= max.
Proof.
  intros Hr Hstep.
  assert (counted c) as Hc.
  { assert (counted (NewSession id clientID now, ∅)) as H0 by done.
    clear Hstep. induction Hr; [done|]. apply IHHr. by eapply counted_step. }
  split; [done|]. assert (counted c') as Hc' by (by eapply counted_step). split; [done|].
  intros s held call max s' d -> -> Hf E Hmax. unfold counted in Hc'. rewrite <-Hc'. cbn.
  unfold AddCheckDelegation in E. destruct (_ && _) eqn:Eb; simplify_eq. cbn.
  apply andb_false_iff in Eb. rewrite !Z.ltb_ge in Eb. lia.
Qed.

(** ** Taints *)

(** Taints are never lost or replaced. *)
Lemma AddTaint_monotone s t now name t' :
  ss_Taints s !! name = Some t' -> ss_Taints (AddTaint s t now).1 !! name = Some t'.
Proof.
  intros Hn. unfold AddTaint. destruct (_ =? _)%string; [done|].
  destruct (ss_Taints s !! tn_Name t) eqn:E; [done|]. cbn.
  destruct (decide (tn_Name t = name)) as [En|]; [congruence|]. by rewrite lookup_insert_ne.
Qed.

(** ** The chain history *)

Lemma last_calls_suffix s n :
  exists before, ss_ToolCalls s = before ++ last_calls s n /\
    Z.of_nat (length (last_calls s n)) =
      (if (0 <? n) && (n <=? ToolCallCount s) then n else ToolCallCount s).
Proof.
  unfold last_calls, ToolCallCount. set (len := Z.of_nat (length (ss_ToolCalls s))).
  set (n' := if _ || _ then len else n).
  exists (take (Z.to_nat (len - n')) (ss_ToolCalls s)). split; [by rewrite take_drop|].
  rewrite length_drop. subst n'.
  destruct ((n <=? 0) || (len <? n)) eqn:E.
  - assert ((0 <? n) && (n <=? len) = false) as ->.
    { apply orb_true_iff in E. rewrite Z.leb_le, Z.ltb_lt in E. apply andb_false_iff.
      rewrite Z.ltb_ge, Z.leb_gt. lia. }
    lia.
  - bools. rewrite (proj2 (Z.ltb_lt 0 n)), (proj2 (Z.leb_le n len)) by lia. cbn. lia.
Qed.

(** The chain history is the last calls of the session, in order, as
    ["server:tool"]. *)
Lemma RecentCallChain_eq s window : RecentCallChain s window = chain_entry <$> last_calls s window.
Proof.
  unfold RecentCallChain, last_calls. destruct (ss_ToolCalls s); [|done].
  by rewrite drop_nil.
Qed.

Section chains.
Context `{GoPatterns}.

Lemma split_entry server tool :
  no_colon server -> split_colon (server +:+ ":" +:+ tool) = Some (server, tool).
Proof.
  unfold no_colon, split_colon. induction server as [|c s IH]; intros Hc.
  - change ("" +:+ ":" +:+ tool) with (String ":" tool). cbn. by destruct tool.
  - change (String c s +:+ ":" +:+ tool) with (String c (s +:+ ":" +:+ tool)).
    cbn [all_bytes] in Hc. apply andb_true_iff in Hc as [Hc Hs]. apply negb_true_iff in Hc.
    cbn [cut HasPrefix]. rewrite (eq_sym (Ascii.eqb_sym c ":")), Hc. cbn [andb]. by rewrite IH.
Qed.

(** On colon-free server names a chain source matches exactly when some
    call of the window was made to its server (or the source names any
    server) with a tool its pattern matches. *)
Theorem chain_source_recorded (m : ChainMatch) (s : Session) (window : Z) :
  Forall (fun call => no_colon (tr_ServerName call)) (ss_ToolCalls s) ->
  matchesSource m (RecentCallChain s window) = true <->
  exists call, In call (last_calls s window) /\
    (cm_Server m = "*" \/ cm_Server m = tr_ServerName call) /\
    matched (regexp_MatchString (chainRegex (cm_ToolPattern m)) (tr_ToolName call)) = true.
Proof.
  intros Hall. rewrite RecentCallChain_eq. unfold matchesSource. rewrite existsb_exists.
  destruct (last_calls_suffix s window) as (before & E & _). rewrite E in Hall.
  apply Forall_app in Hall as [_ Hall]. rewrite Forall_forall in Hall.
  assert (forall call, In call (last_calls s window) ->
    split_colon (chain_entry call) = Some (tr_ServerName call, tr_ToolName call)) as Hsplit.
  { intros call Hin. apply split_entry, Hall. by apply list_elem_of_In. }
  split.
  - intros (entry & Hin & Hm). apply in_map_iff in Hin as (call & <- & Hin).
    rewrite Hsplit in Hm by done. apply andb_true_iff in Hm as [Hs Ht].
    apply orb_true_iff in Hs. rewrite !str_eqb_true in Hs. eauto.
  - intros (call & Hin & Hs & Ht). exists (chain_entry call). split; [by apply in_map|].
    rewrite Hsplit by done. apply andb_true_iff. split; [|done].
    apply orb_true_iff. by rewrite !str_eqb_true.
Qed.

Lemma cut_no_sep c s u v : cut (String c "") s = Some (u, v) -> any_byte (Ascii.eqb c) u = false.
Proof.
  revert u v. induction s as [|d s IH]; intros u v; cbn; [done|].
  rewrite andb_true_r. destruct (Ascii.eqb c d) eqn:E; [by intros [= <- _]|].
  destruct (cut (String c "") s) as [[u' v']|]; [|done]. intros [= <- <-]. cbn. rewrite E. by eapply IH.
Qed.

(** A chain source that names its server never matches when the name
    holds a colon, as the URL does that is the default name of a remote
    server: the entry is split at its first colon. *)
Theorem chain_source_with_colon (m : ChainMatch) (calls : list string) :
  cm_Server m <> "*" -> any_byte (Ascii.eqb ":") (cm_Server m) = true ->
  matchesSource m calls = false.
Proof.
  intros Hs Hc. apply not_true_iff_false. unfold matchesSource. rewrite existsb_exists.
  intros (call & _ & Hm). destruct (split_colon call) as [[u v]|] eqn:E; [|done].
  apply cut_no_sep in E. apply andb_true_iff in Hm as [Hm _]. rewrite orb_true_iff, !str_eqb_true in Hm.
  destruct Hm as [Hm|Hm]; congruence.
Qed.
End chains.

Module SessionWitness.
Definition s0 : Session := NewSession "s" "c" 0.
Definition url : string := "https://tools.example:8443/mcp".
Definition source : ChainMatch := {| cm_Server := url; cm_ToolPattern := "read" |}.
Definition req : ToolsCallRequest := {| tc_Name := "read"; tc_Arguments := "" |}.
Definition any_pattern : GoPatterns :=
  {| regexp_MatchString := fun _ _ => Some true; filepath_Match := fun _ _ => Some true |}.
Definition after (server : string) : Session := RecordToolCall (H := const_json None) s0 server req "" 1.
End SessionWitness.

Lemma nonce_no_replay_witness :
  (ConsumeInstructionAuthorityNonce
    (fold_left consume [{| co_nonce := "m"; co_expires := 90; co_now := 20 |}]
      (ConsumeInstructionAuthorityNonce SessionWitness.s0 "n" 60 10).1) "n" 70 30).2 = false.
Proof.
  apply (nonce_no_replay SessionWitness.s0 "n" 60 10
    [{| co_nonce := "m"; co_expires := 90; co_now := 20 |}] 70 30).
  - vm_compute. reflexivity.
  - repeat constructor.
  - reflexivity.
Defined.

Lemma delegation_budget_witness :
  counted (SessionWitness.s0, ∅) /\
  counted (with_depth SessionWitness.s0 1, {[7%nat]} ∪ ∅).
Proof.
  destruct (delegation_budget "s" "c" 0 (SessionWitness.s0, ∅)
    (with_depth SessionWitness.s0 1, {[7%nat]} ∪ ∅)) as (H1 & H2 & _).
  - apply rtc_refl.
  - refine (step_admit SessionWitness.s0 ∅ 7%nat 3 _ 1 _ eq_refl). apply not_elem_of_empty.
  - exact (conj H1 H2).
Defined.

Lemma chain_source_recorded_witness :
  matchesSource (H0 := SessionWitness.any_pattern) {| cm_Server := "fs"; cm_ToolPattern := "read" |}
    (RecentCallChain (SessionWitness.after "fs") 10) = true.
Proof.
  apply (chain_source_recorded (H := SessionWitness.any_pattern)
    {| cm_Server := "fs"; cm_ToolPattern := "read" |} (SessionWitness.after "fs") 10).
  - repeat constructor.
  - eexists. split; [by left|]. split; [by right|reflexivity].
Defined.

Lemma chain_source_with_colon_witness :
  matchesSource (H0 := SessionWitness.any_pattern) SessionWitness.source
    (RecentCallChain (SessionWitness.after SessionWitness.url) 10) = false.
Proof.
  apply (chain_source_with_colon (H := SessionWitness.any_pattern)); [discriminate|reflexivity].
Defined.
