(* ===== verification/Taint.v ===== *)
(** Session taints and egress controls: [internal/proxy/session_taint.go]. *)
From stdpp Require Import base strings gmap list.
From Stdlib Require Import ZArith Lia Ascii.
From S2P Require Import Prelude GoStrings GoLib Lineage PolicyTypes Slots Engine Session.
#[local] Open Scope Z_scope.

Section taint.
Context `{GoUnicode} `{GoPatterns}.

Definition matchesNamePattern (pattern value : string) : bool :=
  if pattern =s? "" then false
  else if (pattern =s? "*") || EqualFold pattern value then true
  else matched (regexp_MatchString (toolGlobRegex pattern) value).

Definition matchesAnyNamePattern (patterns : list string) (value : string) : bool :=
  existsb (fun pattern => matchesNamePattern pattern value) patterns.

Definition matchesValuePattern (pattern value : string) : bool :=
  if pattern =s? "" then false
  else if (pattern =s? value) || EqualFold pattern value then true
  else if Contains pattern "**" then matched (regexp_MatchString (globToRegexString pattern) value)
  else if matched (filepath_Match pattern value) then true
  else matched (filepath_Match (ToLower pattern) (ToLower value)).

Definition matchesAnyValuePattern (patterns : list string) (value : string) : bool :=
  existsb (fun pattern => matchesValuePattern pattern value) patterns.

(** [collectStringValues]: the strings of a decoded value, depth first. *)
Fixpoint collectStringValues (value : any) : list string :=
  match value with
  | AString v => [v]
  | AMap v => flat_map (fun e => collectStringValues (snd e)) v
  | AArray v => flat_map collectStringValues v
  | _ => []
  end.

(** [args] is passed as an [any]: a nil map has no values. *)
Definition args_value (a : args) : any := AMap (entries a).

(** [None] is [false, ""]. *)
Definition taintSourceMatches (rule : TaintRule) (serverName toolName : string) (a : args)
    : option string :=
  if (0 <? length (ta_SourceServers rule))%nat &&
     negb (matchesAnyNamePattern (ta_SourceServers rule) serverName) then None
  else if negb (matchesAnyNamePattern (ta_SourceTools rule) toolName) then None
  else if (length (ta_SourcePatterns rule) =? 0)%nat then Some toolName
  else List.find (matchesAnyValuePattern (ta_SourcePatterns rule)) (collectStringValues (args_value a)).

Definition rule_taint (rule : TaintRule) (serverName toolName sourceValue : string) : SessionTaint := {|
  tn_Name := ta_Name rule; tn_SourceServer := serverName; tn_SourceTool := toolName;
  tn_SourceValue := sourceValue; tn_PolicyRule := ta_Name rule;
  tn_Reason := "taint rule '" +:+ ta_Name rule +:+ "': " +:+ toolName +:+ " matched " +:+ sourceValue;
  tn_CreatedAt := None |}.

(** [markMatchingTaints]: the session after it, and the taints it added, in
    order (each is audited). *)
Fixpoint mark_taints (rules : list TaintRule) (serverName toolName : string) (a : args) (now : Z)
    (s : Session) : Session * list SessionTaint :=
  match rules with
  | [] => (s, [])
  | rule :: rules =>
      match taintSourceMatches rule serverName toolName a with
      | None => mark_taints rules serverName toolName a now s
      | Some sourceValue =>
          let t := rule_taint rule serverName toolName sourceValue in
          match AddTaint s t now with
          | (s, false) => mark_taints rules serverName toolName a now s
          | (s, true) =>
              let '(s, added) := mark_taints rules serverName toolName a now s in (s, t :: added)
          end
      end
  end.
Definition markMatchingTaints (pol : Policy) (serverName toolName : string) (a : args) (now : Z)
    (s : Session) : Session * list SessionTaint :=
  mark_taints (p_Taints pol) serverName toolName a now s.

Record egressTaintDecision := {
  eg_decision : Decision;
  eg_control : EgressControlRule;
  eg_taint : SessionTaint
}.

(** The three tests of the loop over the controls. *)
Definition control_applies (s : Session) (serverName toolName : string) (c : EgressControlRule) : bool :=
  (ec_WhenTainted c <>s? "") && HasTaint s (ec_WhenTainted c) &&
  matchesAnyNamePattern (ec_SinkTools c) toolName &&
  ((length (ec_SinkServers c) =? 0)%nat || matchesAnyNamePattern (ec_SinkServers c) serverName).

Definition control_decision (s : Session) (c : EgressControlRule) : option egressTaintDecision :=
  match GetTaint s (ec_WhenTainted c) with
  | None => None
  | Some taint =>
      let reason := if ec_Reason c =s? ""
        then "egress control '" +:+ ec_Name c +:+ "': session tainted with '" +:+ tn_Name taint +:+
             "' from " +:+ tn_SourceServer taint +:+ ":" +:+ tn_SourceTool taint
        else ec_Reason c in
      Some {| eg_decision := decision (ec_Action c) reason; eg_control := c; eg_taint := taint |}
  end.

Definition evaluateEgressControls (pol : Policy) (s : Session) (serverName toolName : string)
    : option egressTaintDecision :=
  match List.find (control_applies s serverName toolName) (p_EgressControls pol) with
  | Some c => control_decision s c
  | None => None
  end.

(** ** What the rules see *)

(** [s] occurs in a decoded value, at any depth. *)
Inductive occurs (s : string) : any -> Prop :=
| occurs_here : occurs s (AString s)
| occurs_map k v m : In (k, v) m -> occurs s v -> occurs s (AMap m)
| occurs_array v l : In v l -> occurs s v -> occurs s (AArray l).

Fixpoint any_size (v : any) : nat :=
  match v with
  | AMap m => S (list_sum (List.map (fun e => any_size (snd e)) m))
  | AArray l => S (list_sum (List.map any_size l))
  | _ => 1
  end.

Lemma list_sum_In x l : In x l -> (x <= list_sum l)%nat.
Proof.
  induction l as [|y l IH]; [done|]. change (list_sum (y :: l)) with (y + list_sum l)%nat.
  intros [->|Hin]; [lia|]. specialize (IH Hin). lia.
Qed.

Lemma collectStringValues_occurs v s : In s (collectStringValues v) <-> occurs s v.
Proof.
  split.
  - remember (any_size v) as n eqn:En. revert v En.
    induction (lt_wf n) as [n _ IH]. intros v ->. destruct v as [| | | | |t|l|m]; cbn; try done.
    + intros [->|[]]. constructor.
    + intros Hin. apply in_flat_map in Hin as (w & Hw & Hs). apply (occurs_array _ w); [done|].
      eapply IH; [|done|done]. pose proof (list_sum_In _ _ (in_map any_size _ _ Hw)) as Hle.
      change (any_size (AArray l)) with (S (list_sum (List.map any_size l))). lia.
    + intros Hin. apply in_flat_map in Hin as ([k w] & Hw & Hs). apply (occurs_map _ k w); [done|].
      eapply IH; [|done|done].
      pose proof (list_sum_In _ _ (in_map (fun e => any_size (snd e)) _ _ Hw)) as Hle.
      change (any_size (AMap m)) with (S (list_sum (List.map (fun e => any_size (snd e)) m))).
      change (any_size (k, w).2) with (any_size w) in Hle. lia.
  - induction 1 as [|k v m Hin _ IH|v l Hin _ IH]; cbn; [by left| |].
    + apply in_flat_map. exists (k, v). done.
    + apply in_flat_map. exists v. done.
Qed.

(** A taint rule fires exactly when the server and the tool match its
    sources and, if it has value patterns, some string at any depth of the
    arguments matches one: nesting hides nothing, and neither does map
    order. *)
Theorem taintSourceMatches_iff (rule : TaintRule) (serverName toolName : string) (a : args) :
  is_Some (taintSourceMatches rule serverName toolName a) <->
  (ta_SourceServers rule = [] \/ matchesAnyNamePattern (ta_SourceServers rule) serverName = true) /\
  matchesAnyNamePattern (ta_SourceTools rule) toolName = true /\
  (ta_SourcePatterns rule = [] \/
   exists s, occurs s (args_value a) /\ matchesAnyValuePattern (ta_SourcePatterns rule) s = true).
Proof.
  unfold taintSourceMatches.
  assert ((0 <? length (ta_SourceServers rule))%nat &&
    negb (matchesAnyNamePattern (ta_SourceServers rule) serverName) = false <->
    ta_SourceServers rule = [] \/ matchesAnyNamePattern (ta_SourceServers rule) serverName = true) as <-.
  { rewrite andb_false_iff, negb_false_iff. destruct (ta_SourceServers rule); cbn; naive_solver. }
  destruct (_ && _); [split; [by intros []|naive_solver]|].
  destruct (matchesAnyNamePattern (ta_SourceTools rule) toolName); cbn [negb];
    [|split; [by intros []|naive_solver]].
  destruct (ta_SourcePatterns rule) as [|p ps] eqn:Ep; cbn [length Nat.eqb]; [naive_solver|].
  rewrite <-Ep. split.
  - intros [s Hs]. apply find_some in Hs as [Hin Hm]. split; [done|]. split; [done|]. right.
    exists s. by rewrite <-collectStringValues_occurs.
  - intros (_ & _ & [?|(s & Ho & Hm)]); [congruence|]. apply collectStringValues_occurs in Ho.
    destruct (List.find _ _) eqn:E; [done|]. pose proof (find_none _ _ E s Ho). congruence.
Qed.

Lemma HasTaint_GetTaint s name : HasTaint s name = true -> is_Some (GetTaint s name).
Proof. apply bool_decide_eq_true. Qed.

(** A tainted session is controlled: when some control applies (its
    taint is on the session, the call is one of its sinks), the egress check
    answers with the action of the first that does, and when every control
    that applies denies, the call is denied.  No control applies to a session
    without taints. *)
Theorem evaluateEgressControls_spec (pol : Policy) (s : Session) (serverName toolName : string) :
  (forall c, In c (p_EgressControls pol) -> control_applies s serverName toolName c = true ->
     exists d first, evaluateEgressControls pol s serverName toolName = Some d /\
       eg_control d = first /\ List.find (control_applies s serverName toolName) (p_EgressControls pol) = Some first /\
       d_Action (eg_decision d) = ec_Action first /\
       ((forall c', In c' (p_EgressControls pol) -> control_applies s serverName toolName c' = true ->
           ec_Action c' = ActionDeny) -> d_Action (eg_decision d) = ActionDeny)) /\
  (ss_Taints s = ∅ -> evaluateEgressControls pol s serverName toolName = None).
Proof.
  unfold evaluateEgressControls. split.
  - intros c Hin Hc. destruct (List.find _ _) as [first|] eqn:E.
    2: { pose proof (find_none _ _ E c Hin). congruence. }
    pose proof (find_some _ _ E) as [Hf Ha].
    assert (is_Some (GetTaint s (ec_WhenTainted first))) as [t Ht].
    { apply HasTaint_GetTaint. unfold control_applies in Ha. by bools. }
    unfold control_decision. rewrite Ht. eexists _, first. split; [done|]. cbn. auto.
  - intros Ht. destruct (List.find _ _) as [c|]; [|done].
    unfold control_decision, GetTaint. by rewrite Ht, lookup_empty.
Qed.
End taint.
