(* ===== verification/Redaction.v ===== *)
(** Redaction of arguments and output: [internal/redaction/engine.go].

    Matching and replacing are [regexp]'s and are class arguments.  A map is
    its entries in one iteration order; the redacted map keeps that order. *)
From stdpp Require Import base strings gmap list.
From Stdlib Require Import ZArith Lia Ascii.
From S2P Require Import Prelude GoStrings GoLib Lineage PolicyTypes Slots Session Taint.

Record compiledPattern := { cp_name : string; cp_regex : string; cp_replace : string }.

Record RedactionEngine := {
  rd_patterns : list compiledPattern;
  rd_outputPatterns : list compiledPattern;
  rd_sensitiveFiles : list string;
  rd_filePatterns : list string
}.

Record RedactionResult := { re_Redacted : bool; re_RedactedFields : list string }.
Definition zeroResult : RedactionResult := {| re_Redacted := false; re_RedactedFields := [] |}.

Section redaction.
Context `{GoPatterns} `{GoReplace}.

(** ** Construction *)

(** [[]] when the pattern does not compile ([continue]). *)
Definition compile_pattern (p : RedactionPattern) : list compiledPattern :=
  if regexp_compiles (rp_Regex p) then
    [{| cp_name := rp_Name p; cp_regex := rp_Regex p;
        cp_replace := if rp_Replacement p =s? "" then "[REDACTED]" else rp_Replacement p |}]
  else [].

(** A regular expression stands for its source. *)
Definition compileGlobPattern (pattern : string) : string :=
  let s := QuoteMeta pattern in
  let s := ReplaceAll s (String BACKSLASH (String "*" (String BACKSLASH "*"))) ".*" in
  let s := ReplaceAll s (String BACKSLASH "*") "[^/]*" in
  let s := "(?i)^" +:+ s +:+ "$" in
  if regexp_compiles s then s else QuoteMeta pattern.

Definition NewEngine (cfg : RedactionConfig) : RedactionEngine := {|
  rd_patterns := flat_map compile_pattern (rc_Patterns cfg);
  rd_outputPatterns := flat_map compile_pattern (rc_OutputPatterns cfg);
  rd_sensitiveFiles := rc_SensitiveFiles cfg;
  rd_filePatterns := compileGlobPattern <$> rc_SensitiveFiles cfg |}.

Definition NewEngineFromPolicy (p : Policy) : RedactionEngine := NewEngine (p_Redaction p).

Definition HasPatterns (e : RedactionEngine) : bool :=
  (0 <? length (rd_patterns e))%nat || (0 <? length (rd_outputPatterns e))%nat.

(** ** Strings *)

(** The loop of [redactString]: the text, and whether a pattern matched. *)
Fixpoint redact_loop (ps : list compiledPattern) (s : string) (redacted : bool) : string * bool :=
  match ps with
  | [] => (s, redacted)
  | p :: ps =>
      if matched (regexp_MatchString (cp_regex p) s)
      then redact_loop ps (regexp_ReplaceAllString (cp_regex p) s (cp_replace p)) true
      else redact_loop ps s redacted
  end.

Definition redactString (e : RedactionEngine) (original : string) : string * bool :=
  let '(s, redacted) := redact_loop (rd_patterns e) original false in
  if s <>s? original then (s, true) else (s, redacted).

Definition RedactOutput (e : RedactionEngine) (text : string) : string :=
  foldl (fun text p => regexp_ReplaceAllString (cp_regex p) text (cp_replace p)) text
    (rd_patterns e ++ rd_outputPatterns e).

Definition IsSensitiveFile (e : RedactionEngine) (path : string) : bool :=
  existsb (fun re => matched (regexp_MatchString re path)) (rd_filePatterns e).

(** ** Values *)

Fixpoint redactValue (e : RedactionEngine) (path : string) (v : any) : any * list string :=
  match v with
  | AString s =>
      let '(redacted, found) := redactString e s in
      if found then (AString redacted, [path]) else (AString s, [])
  | AMap m =>
      let r := List.map (fun kv =>
        let '(out, fields) := redactValue e (path +:+ "." +:+ fst kv) (snd kv) in
        ((fst kv, out), fields)) m in
      (AMap (List.map fst r), concat (List.map snd r))
  | AArray l =>
      let r := List.map (redactValue e (path +:+ "[0]")) l in
      (AArray (List.map fst r), concat (List.map snd r))
  | _ => (v, [])
  end.

(** [RedactArgs]: a nil map gives the empty map. *)
Definition RedactArgs (e : RedactionEngine) (a : args) : list (string * any) * RedactionResult :=
  let r := List.map (fun kv =>
    let '(out, fields) := redactValue e (fst kv) (snd kv) in ((fst kv, out), fields)) (entries a) in
  let fields := concat (List.map snd r) in
  (List.map fst r,
   {| re_Redacted := (0 <? length fields)%nat; re_RedactedFields := fields |}).

(** [RedactArgsJSON]: the raw bytes are kept unless something was redacted;
    [marshal] is [json.Marshal] of a map ([None] on an error). *)
Definition RedactArgsJSON `{GoJSON} (marshal : list (string * any) -> option string)
    (e : RedactionEngine) (raw : string) : string * RedactionResult :=
  if raw =s? "" then (raw, zeroResult)
  else match json_object raw with
  | None => (raw, zeroResult)
  | Some a =>
      let '(redacted, result) := RedactArgs e a in
      if negb (re_Redacted result) then (raw, result)
      else match marshal redacted with
      | None => (raw, result)
      | Some data => (data, result)
      end
  end.

(** ** What redaction preserves and what it rewrites *)

(** An induction principle that reaches inside arrays and maps. *)
Fixpoint any_rect' (P : any -> Prop)
    (Hnil : P ANil) (Hb : forall b, P (ABool b)) (Hf : forall f, P (AFloat64 f)) (Hi : forall z, P (AInt z))
    (Hl : forall z, P (AInt64 z)) (Hs : forall s, P (AString s))
    (Ha : forall l, (forall v, In v l -> P v) -> P (AArray l))
    (Hm : forall m, (forall k v, In (k, v) m -> P v) -> P (AMap m)) (v : any) : P v.
Proof.
  pose (self := any_rect' P Hnil Hb Hf Hi Hl Hs Ha Hm).
  destruct v as [| | | | | |l|m].
  - exact Hnil.
  - apply Hb.
  - apply Hf.
  - apply Hi.
  - apply Hl.
  - apply Hs.
  - apply Ha. induction l as [|w l IH]; [intros ? []|]. intros v [<-|Hin]; [apply self|by apply IH].
  - apply Hm. induction m as [|[k' w] m IH]; [intros ? ? []|].
    intros k v [E|Hin]; [|by eapply IH]. injection E as _ <-. apply self.
Qed.

(** Every string of the value, at its place, through [f]; keys, numbers and
    structure are kept. *)
Fixpoint map_strings (f : string -> string) (v : any) : any :=
  match v with
  | AString s => AString (f s)
  | AMap m => AMap (List.map (fun kv => (fst kv, map_strings f (snd kv))) m)
  | AArray l => AArray (List.map (map_strings f) l)
  | _ => v
  end.

Lemma redactString_kept e s : snd (redactString e s) = false -> fst (redactString e s) = s.
Proof.
  unfold redactString. destruct (redact_loop _ _ _) as [t r].
  destruct (t =? s)%string eqn:E; bools; cbn; [done|done].
Qed.

Lemma map_id_in {A} (f : A -> A) l : (forall x, In x l -> f x = x) -> List.map f l = l.
Proof. intros Hf. rewrite <-(List.map_id l) at 2. by apply map_ext_in. Qed.

Lemma concat_nil_in {A B} (f : A -> list B) l : concat (List.map f l) = [] <-> forall x, In x l -> f x = [].
Proof.
  induction l as [|x l IH]; cbn; [naive_solver|]. split.
  - intros [Hx Hl]%app_eq_nil y [<-|Hy]; [done|]. by apply (proj1 IH).
  - intros Hall. rewrite (Hall x) by by left. apply IH. intros y Hy. by apply Hall; right.
Qed.

Lemma redactValue_value e v path :
  fst (redactValue e path v) = map_strings (fun s => fst (redactString e s)) v.
Proof.
  revert path. induction v as [| | | | |s|l IH|m IH] using any_rect'; intros path; try done; cbn.
  - pose proof (redactString_kept e s) as Hk. destruct (redactString e s) as [t []]; cbn in *; [done|].
    by rewrite Hk.
  - f_equal. rewrite List.map_map. apply map_ext_in. intros v Hin. by apply IH.
  - f_equal. rewrite List.map_map. apply map_ext_in. intros [k v] Hin. cbn.
    pose proof (IH k v Hin (path +:+ "." +:+ k)) as E. destruct (redactValue _ _ _) as [o f]. cbn in *. by rewrite E.
Qed.

Lemma redactValue_fields e v path :
  snd (redactValue e path v) = [] <-> forall s, occurs s v -> snd (redactString e s) = false.
Proof.
  revert path. induction v as [| | | | |s|l IH|m IH] using any_rect'; intros path;
    try (split; [intros _ s Ho; inversion Ho|done]); cbn.
  - split.
    + intros E t Ho. inversion Ho as [E' | |]. destruct (redactString e s) as [t' []]; done.
    + intros Hs. specialize (Hs s (occurs_here s)). by destruct (redactString e s) as [t' []].
  - rewrite List.map_map, concat_nil_in. split.
    + intros Hl s Ho. inversion Ho; subst. by eapply IH; [|apply Hl|].
    + intros Hs v Hin. apply IH; [done|]. intros s Ho. apply Hs. by eapply occurs_array.
  - rewrite List.map_map, concat_nil_in. split.
    + intros Hl s Ho. inversion Ho as [|k v m' Hin Ho'|]; subst. specialize (Hl (k, v) Hin). cbn in Hl.
      apply (proj1 (IH k v Hin (path +:+ "." +:+ k))); [|done]. by destruct (redactValue _ _ _).
    + intros Hs [k v] Hin. cbn. pose proof (proj2 (IH k v Hin (path +:+ "." +:+ k))) as Hi.
      destruct (redactValue _ _ _). apply Hi. intros s Ho. apply Hs. by eapply occurs_map.
Qed.

Lemma map_strings_id f v : (forall s, occurs s v -> f s = s) -> map_strings f v = v.
Proof.
  induction v as [| | | | |s|l IH|m IH] using any_rect'; intros Hf; try done; cbn.
  - by rewrite Hf by constructor.
  - f_equal. apply map_id_in. intros v Hin. apply IH; [done|]. intros s Ho. apply Hf. by eapply occurs_array.
  - f_equal. apply map_id_in. intros [k v] Hin. cbn. f_equal. eapply IH; [done|].
    intros s Ho. apply Hf. by eapply occurs_map.
Qed.

Lemma RedactArgs_value e a :
  let '(out, r) := RedactArgs e a in
  AMap out = fst (redactValue e "" (args_value a)) /\
  (re_RedactedFields r = [] <-> forall s, occurs s (args_value a) -> snd (redactString e s) = false) /\
  re_Redacted r = (0 <? length (re_RedactedFields r))%nat.
Proof.
  unfold RedactArgs. cbn. split_and!; [| |done].
  - f_equal. rewrite !List.map_map. apply map_ext. intros [k v]. cbn.
    pose proof (redactValue_value e v k) as E1. pose proof (redactValue_value e v ("." +:+ k)) as E2.
    change ("" +:+ "." +:+ k) with ("." +:+ k).
    destruct (redactValue e k v), (redactValue e ("." +:+ k) v). cbn in *. congruence.
  - rewrite List.map_map, concat_nil_in. unfold args_value. split.
    + intros Hl s Ho. inversion Ho as [|k v m' Hin Ho'|]; subst. specialize (Hl (k, v) Hin). cbn in Hl.
      apply (proj1 (redactValue_fields e v k)); [|done]. by destruct (redactValue _ _ _).
    + intros Hs [k v] Hin. cbn. pose proof (proj2 (redactValue_fields e v k)) as Hi.
      destruct (redactValue _ _ _). apply Hi. intros s Ho. apply Hs. by eapply occurs_map.
Qed.

(** Redaction rewrites every string of the arguments at any depth, in
    place and with the same function, and nothing else: keys, order, numbers
    and structure are those of the input.  It reports a redaction exactly
    when some string of the input was found by a pattern, and when it reports
    none the arguments are unchanged. *)
Theorem RedactArgs_spec (e : RedactionEngine) (a : args) :
  let '(out, r) := RedactArgs e a in
  AMap out = map_strings (fun s => fst (redactString e s)) (args_value a) /\
  (re_Redacted r = true <-> exists s, occurs s (args_value a) /\ snd (redactString e s) = true) /\
  (re_Redacted r = false -> out = entries a).
Proof.
  pose proof (RedactArgs_value e a) as Hr. destruct (RedactArgs e a) as [out r].
  destruct Hr as (Eo & Ef & Er). rewrite redactValue_value in Eo. split; [done|].
  assert (re_Redacted r = false <-> forall s, occurs s (args_value a) -> snd (redactString e s) = false) as Hk.
  { rewrite Er, <-Ef, Nat.ltb_ge. destruct (re_RedactedFields r); cbn; split; (done || lia). }
  split.
  - split.
    + intros Ht. destruct (existsb (fun s => snd (redactString e s)) (collectStringValues (args_value a))) eqn:E.
      * apply existsb_exists in E as (s & Hin & Hs). exists s. by rewrite <-collectStringValues_occurs.
      * assert (re_Redacted r = false); [|congruence]. apply Hk. intros s Ho%collectStringValues_occurs.
        apply not_true_iff_false. intros Hs. apply not_true_iff_false in E. apply E.
        apply existsb_exists. by exists s.
    + intros (s & Ho & Hs). apply not_false_iff_true. intros Hf. rewrite (proj1 Hk Hf s Ho) in Hs. done.
  - intros Hf. rewrite map_strings_id in Eo; [by injection Eo|].
    intros s Ho. apply redactString_kept. by apply (proj1 Hk Hf).
Qed.
End redaction.
