(* ===== verification/Ledger.v ===== *)
(** The audit ledger: [internal/audit/logger.go].  Records are appended as
    JSON lines, each with the hash of the one before it.

    The state carries the file: the bytes written and the prefix the last
    successful [Sync] made durable.  What [Write] and [Sync] return is an
    input of each operation.  [json.Marshal] and [Unmarshal] of a record are
    class arguments. *)
From stdpp Require Import base strings gmap list.
From Stdlib Require Import ZArith Lia Ascii.
From S2P Require Import Prelude GoStrings GoLib Lineage PolicyTypes Slots Session Taint Redaction.
#[local] Open Scope Z_scope.

Definition EventToolAllowed : string := "tool_call_allowed".
Definition EventToolDenied : string := "tool_call_denied".
Definition EventToolApprovalRequired : string := "tool_call_approval_required".
Definition EventToolChainDetected : string := "tool_call_chain_detected".
Definition EventSessionTainted : string := "session_tainted".
Definition EventKineticStopEnforced : string := "kinetic_stop_enforced".

Record TrajectoryAdvice := {
  av_Advisor : string;
  av_Kind : string;
  av_Sequence : list string;
  av_WindowTransitions : Z;
  av_SourceSupport : Z;
  av_TransitionSupport : Z
}.

Record LineageInfo := {
  li_ActorAgentID : string;
  li_ParentAgentID : string;
  li_HumanPrincipalID : string;
  li_GrantID : string;
  li_GrantChain : list string;
  li_Capability : string;
  li_Resource : string;
  li_Effect : string;
  li_TrajectoryID : string;
  li_PriorStateHash : string;
  li_Rule : string
}.

(** [Arguments] and [ApprovalReceipt] are maps; an empty and a nil slice are
    not told apart, nor does the JSON of a record. *)
Record Event := {
  ae_Timestamp : string;
  ae_EventType : string;
  ae_SessionID : string;
  ae_AgentID : string;
  ae_Server : string;
  ae_Tool : string;
  ae_Arguments : args;
  ae_Decision : string;
  ae_Reason : string;
  ae_RiskLevel : string;
  ae_SessionTaints : list string;
  ae_TaintSource : string;
  ae_TaintReason : string;
  ae_PolicyRule : string;
  ae_ChainContext : list string;
  ae_RequestHash : string;
  ae_RedactedArgumentHash : string;
  ae_PolicyHash : string;
  ae_ChainContextHash : string;
  ae_ApprovalReceiptHash : string;
  ae_ApprovalReceipt : args;
  ae_OwnershipReceiptHash : string;
  ae_OwnershipReceipt : string;
  ae_ServerIdentityKind : string;
  ae_ServerIdentityExpected : string;
  ae_ServerIdentityResolved : string;
  ae_ServerAttested : option bool;
  ae_ServerClaimedName : string;
  ae_ServerClaimedVersion : string;
  ae_Lineage : option LineageInfo;
  ae_IdentitySnapshotHash : string;
  ae_PrincipalID : string;
  ae_ActingAgent : string;
  ae_TransactionID : string;
  ae_ResultPreview : string;
  ae_IsError : bool;
  ae_Message : string;
  ae_Hash : string;
  ae_PrevHash : string;
  ae_ChainIndex : Z;
  ae_DelegationDepth : Z;
  ae_MaxSpawnDepth : Z;
  ae_TrajectoryAdvice : option TrajectoryAdvice;
  ae_ControllerID : string;
  ae_CommandID : string;
  ae_SessionEpoch : Z;
  ae_RevokedThroughEpoch : Z;
  ae_ObservedEnforcementTime : string;
  ae_ResultingState : string;
  ae_ControlRequestSHA256 : string
}.

Definition zeroEvent : Event :=
  {| ae_Timestamp := ""; ae_EventType := ""; ae_SessionID := ""; ae_AgentID := ""; ae_Server := "";
     ae_Tool := ""; ae_Arguments := None; ae_Decision := ""; ae_Reason := ""; ae_RiskLevel := "";
     ae_SessionTaints := []; ae_TaintSource := ""; ae_TaintReason := ""; ae_PolicyRule := "";
     ae_ChainContext := []; ae_RequestHash := ""; ae_RedactedArgumentHash := ""; ae_PolicyHash := "";
     ae_ChainContextHash := ""; ae_ApprovalReceiptHash := ""; ae_ApprovalReceipt := None;
     ae_OwnershipReceiptHash := ""; ae_OwnershipReceipt := ""; ae_ServerIdentityKind := "";
     ae_ServerIdentityExpected := ""; ae_ServerIdentityResolved := ""; ae_ServerAttested := None;
     ae_ServerClaimedName := ""; ae_ServerClaimedVersion := ""; ae_Lineage := None;
     ae_IdentitySnapshotHash := ""; ae_PrincipalID := ""; ae_ActingAgent := "";
     ae_TransactionID := ""; ae_ResultPreview := ""; ae_IsError := false; ae_Message := "";
     ae_Hash := ""; ae_PrevHash := ""; ae_ChainIndex := 0; ae_DelegationDepth := 0;
     ae_MaxSpawnDepth := 0; ae_TrajectoryAdvice := None; ae_ControllerID := ""; ae_CommandID := "";
     ae_SessionEpoch := 0; ae_RevokedThroughEpoch := 0; ae_ObservedEnforcementTime := "";
     ae_ResultingState := ""; ae_ControlRequestSHA256 := "" |}.

Definition with_hash (e : Event) (h : string) : Event :=
  {| ae_Timestamp := ae_Timestamp e; ae_EventType := ae_EventType e; ae_SessionID := ae_SessionID e;
     ae_AgentID := ae_AgentID e; ae_Server := ae_Server e; ae_Tool := ae_Tool e;
     ae_Arguments := ae_Arguments e; ae_Decision := ae_Decision e; ae_Reason := ae_Reason e;
     ae_RiskLevel := ae_RiskLevel e; ae_SessionTaints := ae_SessionTaints e;
     ae_TaintSource := ae_TaintSource e; ae_TaintReason := ae_TaintReason e;
     ae_PolicyRule := ae_PolicyRule e; ae_ChainContext := ae_ChainContext e;
     ae_RequestHash := ae_RequestHash e; ae_RedactedArgumentHash := ae_RedactedArgumentHash e;
     ae_PolicyHash := ae_PolicyHash e; ae_ChainContextHash := ae_ChainContextHash e;
     ae_ApprovalReceiptHash := ae_ApprovalReceiptHash e; ae_ApprovalReceipt := ae_ApprovalReceipt e;
     ae_OwnershipReceiptHash := ae_OwnershipReceiptHash e;
     ae_OwnershipReceipt := ae_OwnershipReceipt e; ae_ServerIdentityKind := ae_ServerIdentityKind e;
     ae_ServerIdentityExpected := ae_ServerIdentityExpected e;
     ae_ServerIdentityResolved := ae_ServerIdentityResolved e;
     ae_ServerAttested := ae_ServerAttested e; ae_ServerClaimedName := ae_ServerClaimedName e;
     ae_ServerClaimedVersion := ae_ServerClaimedVersion e; ae_Lineage := ae_Lineage e;
     ae_IdentitySnapshotHash := ae_IdentitySnapshotHash e; ae_PrincipalID := ae_PrincipalID e;
     ae_ActingAgent := ae_ActingAgent e; ae_TransactionID := ae_TransactionID e;
     ae_ResultPreview := ae_ResultPreview e; ae_IsError := ae_IsError e; ae_Message := ae_Message e;
     ae_Hash := h; ae_PrevHash := ae_PrevHash e; ae_ChainIndex := ae_ChainIndex e;
     ae_DelegationDepth := ae_DelegationDepth e; ae_MaxSpawnDepth := ae_MaxSpawnDepth e;
     ae_TrajectoryAdvice := ae_TrajectoryAdvice e; ae_ControllerID := ae_ControllerID e;
     ae_CommandID := ae_CommandID e; ae_SessionEpoch := ae_SessionEpoch e;
     ae_RevokedThroughEpoch := ae_RevokedThroughEpoch e;
     ae_ObservedEnforcementTime := ae_ObservedEnforcementTime e;
     ae_ResultingState := ae_ResultingState e; ae_ControlRequestSHA256 := ae_ControlRequestSHA256 e |}.

(** What [writeFn] returned: the count and whether an error came with it. *)
Record WriteOut := { wo_n : nat; wo_err : bool }.

Record Logger := {
  lg_patterns : list string;
  lg_prevHash : string;
  lg_chainIndex : Z;
  lg_durable : bool;
  lg_poisoned : bool;
  lg_file : string;
  lg_synced : string
}.

Definition with_chain (l : Logger) (h : string) (i : Z) : Logger := {|
  lg_patterns := lg_patterns l; lg_prevHash := h; lg_chainIndex := i; lg_durable := lg_durable l;
  lg_poisoned := lg_poisoned l; lg_file := lg_file l; lg_synced := lg_synced l |}.
Definition poison (l : Logger) : Logger := {|
  lg_patterns := lg_patterns l; lg_prevHash := lg_prevHash l; lg_chainIndex := lg_chainIndex l;
  lg_durable := lg_durable l; lg_poisoned := true; lg_file := lg_file l; lg_synced := lg_synced l |}.
Definition with_file (l : Logger) (f : string) : Logger := {|
  lg_patterns := lg_patterns l; lg_prevHash := lg_prevHash l; lg_chainIndex := lg_chainIndex l;
  lg_durable := lg_durable l; lg_poisoned := lg_poisoned l; lg_file := f; lg_synced := lg_synced l |}.
Definition synced (l : Logger) : Logger := {|
  lg_patterns := lg_patterns l; lg_prevHash := lg_prevHash l; lg_chainIndex := lg_chainIndex l;
  lg_durable := lg_durable l; lg_poisoned := lg_poisoned l; lg_file := lg_file l; lg_synced := lg_file l |}.

Class EventJSON := {
  marshal_event : Event -> option string;
  unmarshal_event : string -> option Event
}.

Section audit.
Context `{GoReplace} `{GoTime} `{GoCrypto} `{EventJSON}.

(** ** Redaction of a record *)

Definition SetRedactionPatterns (l : Logger) (patterns : list RedactionPattern) : Logger := {|
  lg_patterns := rp_Regex <$> List.filter (fun p => regexp_compiles (rp_Regex p)) patterns;
  lg_prevHash := lg_prevHash l; lg_chainIndex := lg_chainIndex l; lg_durable := lg_durable l;
  lg_poisoned := lg_poisoned l; lg_file := lg_file l; lg_synced := lg_synced l |}.

Definition redactString (l : Logger) (s : string) : string :=
  if s =s? "" then s
  else foldl (fun s re => regexp_ReplaceAllString re s "[REDACTED]") s (lg_patterns l).

(** [redactValue] replaces the strings of a value and keeps the rest. *)
Definition redactValue (l : Logger) (v : any) : any := map_strings (redactString l) v.
Definition redactMap (l : Logger) (m : list (string * any)) : list (string * any) :=
  (fun kv => (fst kv, redactValue l (snd kv))) <$> m.

Definition redactLineage (l : Logger) (info : LineageInfo) : LineageInfo :=
  {| li_ActorAgentID := redactString l (li_ActorAgentID info); li_ParentAgentID := redactString l
     (li_ParentAgentID info); li_HumanPrincipalID := redactString l (li_HumanPrincipalID info);
     li_GrantID := redactString l (li_GrantID info); li_GrantChain := redactString l <$> li_GrantChain
     info; li_Capability := redactString l (li_Capability info); li_Resource := redactString l
     (li_Resource info); li_Effect := redactString l (li_Effect info); li_TrajectoryID := redactString l
     (li_TrajectoryID info); li_PriorStateHash := redactString l (li_PriorStateHash info); li_Rule :=
     redactString l (li_Rule info) |}.
Definition SanitizeLineage (l : Logger) (info : option LineageInfo) : option LineageInfo :=
  redactLineage l <$> info.

(** ** Records *)

Definition RecordHash (e : Event) : option string := sha256_hex <$> marshal_event (with_hash e "").

Definition VerifyEventHash (e : Event) : error :=
  if ae_Hash e =s? "" then Some "audit record missing hash"
  else match RecordHash e with
  | None => Some "audit hash marshal"
  | Some got => fail_if (got <>s? ae_Hash e) "audit record hash mismatch"
  end.

(** The event before its hash is set. *)
Definition prepared_event (l : Logger) (now : Z) (e : Event) : Event :=
  {| ae_Timestamp := if ae_Timestamp e =s? "" then format_RFC3339Nano now else ae_Timestamp e;
     ae_EventType := ae_EventType e; ae_SessionID := ae_SessionID e; ae_AgentID := ae_AgentID e;
     ae_Server := ae_Server e; ae_Tool := ae_Tool e; ae_Arguments := redactMap l <$> ae_Arguments e;
     ae_Decision := ae_Decision e; ae_Reason := redactString l (ae_Reason e);
     ae_RiskLevel := ae_RiskLevel e; ae_SessionTaints := ae_SessionTaints e;
     ae_TaintSource := ae_TaintSource e; ae_TaintReason := ae_TaintReason e;
     ae_PolicyRule := ae_PolicyRule e; ae_ChainContext := ae_ChainContext e;
     ae_RequestHash := ae_RequestHash e; ae_RedactedArgumentHash := ae_RedactedArgumentHash e;
     ae_PolicyHash := ae_PolicyHash e; ae_ChainContextHash := ae_ChainContextHash e;
     ae_ApprovalReceiptHash := ae_ApprovalReceiptHash e; ae_ApprovalReceipt := ae_ApprovalReceipt e;
     ae_OwnershipReceiptHash := ae_OwnershipReceiptHash e;
     ae_OwnershipReceipt := ae_OwnershipReceipt e; ae_ServerIdentityKind := ae_ServerIdentityKind e;
     ae_ServerIdentityExpected := ae_ServerIdentityExpected e;
     ae_ServerIdentityResolved := ae_ServerIdentityResolved e;
     ae_ServerAttested := ae_ServerAttested e; ae_ServerClaimedName := ae_ServerClaimedName e;
     ae_ServerClaimedVersion := ae_ServerClaimedVersion e;
     ae_Lineage := redactLineage l <$> ae_Lineage e;
     ae_IdentitySnapshotHash := ae_IdentitySnapshotHash e;
     ae_PrincipalID := redactString l (ae_PrincipalID e);
     ae_ActingAgent := redactString l (ae_ActingAgent e);
     ae_TransactionID := redactString l (ae_TransactionID e);
     ae_ResultPreview := redactString l (ae_ResultPreview e); ae_IsError := ae_IsError e;
     ae_Message := ae_Message e; ae_Hash := ae_Hash e; ae_PrevHash := lg_prevHash l;
     ae_ChainIndex := lg_chainIndex l; ae_DelegationDepth := ae_DelegationDepth e;
     ae_MaxSpawnDepth := ae_MaxSpawnDepth e; ae_TrajectoryAdvice := ae_TrajectoryAdvice e;
     ae_ControllerID := ae_ControllerID e; ae_CommandID := ae_CommandID e;
     ae_SessionEpoch := ae_SessionEpoch e; ae_RevokedThroughEpoch := ae_RevokedThroughEpoch e;
     ae_ObservedEnforcementTime := ae_ObservedEnforcementTime e;
     ae_ResultingState := ae_ResultingState e; ae_ControlRequestSHA256 := ae_ControlRequestSHA256 e |}.

(** [prepareRecord]: the record and its line. *)
Definition prepareRecord (l : Logger) (now : Z) (event : Event) : option (Event * string) :=
  let event := prepared_event l now event in
  match RecordHash event with
  | None => None
  | Some hash =>
      let event := with_hash event hash in
      match marshal_event event with
      | None => None
      | Some data => Some (event, data +:+ String LF "")
      end
  end.

(** ** Operations *)

Definition take_bytes (n : nat) (s : string) : string := String.substring 0 n s.

(** [appendFull]: the file after the write, and whether the call succeeded. *)
Definition appendFull (l : Logger) (data : string) (w : WriteOut) : Logger * bool :=
  (with_file l (lg_file l +:+ take_bytes (wo_n w) data),
   negb (wo_err w) && (wo_n w =? String.length data)%nat).

Definition ErrAuditSinkUnhealthy : string := "audit sink unhealthy".

(** [l.prevHash = prepared.Hash; l.chainIndex++] *)
Definition advance (l : Logger) (prepared : Event) : Logger :=
  with_chain l (ae_Hash prepared) ((lg_chainIndex l + 1) mod 2^64).

Definition Log (l : Logger) (now : Z) (event : Event) (w : WriteOut) : Logger * error :=
  if lg_poisoned l then (l, Some ErrAuditSinkUnhealthy)
  else match prepareRecord l now event with
  | None => (poison l, Some "audit marshal")
  | Some (prepared, data) =>
      match appendFull l data w with
      | (l, false) => (poison l, Some "audit write")
      | (l, true) => (advance l prepared, None)
      end
  end.

(** The part [CommitAuthorization] and [CommitKineticStop] share after their
    check of the event; [s] is whether [Sync] succeeds. *)
Definition commit_record (l : Logger) (now : Z) (event : Event) (w : WriteOut) (s : bool) : Logger * error :=
  match prepareRecord l now event with
  | None => (poison l, Some "audit marshal")
  | Some (prepared, data) =>
      match appendFull l data w with
      | (l, false) => (poison l, Some "audit write")
      | (l, true) => if s then (advance (synced l) prepared, None) else (poison l, Some "audit sync")
      end
  end.

Definition CommitAuthorization (l : Logger) (now : Z) (event : Event) (w : WriteOut) (s : bool)
    : Logger * error :=
  if lg_poisoned l then (l, Some ErrAuditSinkUnhealthy)
  else if negb (lg_durable l) then
    (poison l, Some (ErrAuditSinkUnhealthy +:+ ": audit sink is not durable (stderr fallback)"))
  else if (ae_EventType event <>s? EventToolAllowed) || (ae_Decision event <>s? ActionAllow) then
    (l, Some "commit authorization: only tool_call_allowed allow events are commit-able")
  else commit_record l now event w s.

Definition CommitKineticStop (l : Logger) (now : Z) (event : Event) (w : WriteOut) (s : bool)
    : Logger * error :=
  if lg_poisoned l then (l, Some ErrAuditSinkUnhealthy)
  else if negb (lg_durable l) then
    (poison l, Some (ErrAuditSinkUnhealthy +:+ ": audit sink is not durable (stderr fallback)"))
  else if (ae_EventType event <>s? EventKineticStopEnforced) || (ae_Decision event <>s? "revoked") ||
          (ae_ResultingState event =s? "") then
    (l, Some "commit kinetic stop: only kinetic_stop_enforced revoked events with resulting_state are commit-able")
  else commit_record l now event w s.

Definition Durable (l : Logger) : bool := lg_durable l && negb (lg_poisoned l).

(** ** Opening a ledger *)

Definition tail_space (c : ascii) : bool :=
  Ascii.eqb c " " || Ascii.eqb c TAB || Ascii.eqb c CR || Ascii.eqb c LF.
(** [bytes.TrimRight(data, " \t\r\n")] *)
Fixpoint TrimRight (s : string) : string :=
  match s with
  | "" => ""
  | String c s' =>
      match TrimRight s' with
      | "" => if tail_space c then "" else String c ""
      | t => String c t
      end
  end.

(** The loop over chunks from the end: the suffix read when it stops.
    [remaining] counts the bytes not yet read; [fuel] bounds the rounds. *)
Fixpoint read_chunks (fuel : nat) (chunk : nat) (f : string) (remaining : nat) : string :=
  let data := drop_bytes remaining f in
  match fuel with
  | O => data
  | S fuel =>
      match remaining with
      | O => data
      | _ =>
          let remaining := (remaining - Nat.min chunk remaining)%nat in
          let data := drop_bytes remaining f in
          let content := TrimRight data in
          if (remaining =? 0)%nat || (negb (content =s? "") && any_byte (Ascii.eqb LF) content) then data
          else read_chunks fuel chunk f remaining
      end
  end.

Definition ErrIncompleteAuditTail : string := "audit log incomplete trailing line".
Definition ErrCorruptAuditRecord : string := "audit log corrupt last record".

(** [readLastCompleteLine] of a nonempty file; [""] is an empty line. *)
Definition readLastCompleteLine (chunk : nat) (f : string) : result string :=
  if f =s? "" then Ok ""
  else if negb (last_byte_is LF f) then Err ErrIncompleteAuditTail
  else
    let content := TrimRight (read_chunks (String.length f) chunk f (String.length f)) in
    if content =s? "" then Ok ""
    else match cut_last LF content with
    | Some (_, line) => Ok (TrimSpace line)
    | None => Ok (TrimSpace content)
    end.

Definition chunkSize : nat := 64 * 1024.

Definition recoverChainState_chunk (chunk : nat) (f : string) : result (string * Z) :=
  if f =s? "" then Ok ("", 0)
  else
    let? lastLine := readLastCompleteLine chunk f in
    if lastLine =s? "" then Ok ("", 0)
    else match unmarshal_event lastLine with
    | None => Err ErrCorruptAuditRecord
    | Some last =>
        if ae_Hash last =s? "" then
          if (ae_PrevHash last <>s? "") || (0 <? ae_ChainIndex last)
          then Err (ErrCorruptAuditRecord +:+ ": hash stripped from chained record")
          else Ok ("", 0)
        else match marshal_event (with_hash last "") with
        | None => Err (ErrCorruptAuditRecord +:+ ": re-marshal last record")
        | Some payload =>
            if sha256_hex payload <>s? ae_Hash last
            then Err (ErrCorruptAuditRecord +:+ ": last record hash mismatch")
            else Ok (ae_Hash last, (ae_ChainIndex last + 1) mod 2^64)
        end
    end.
Definition recoverChainState (f : string) : result (string * Z) := recoverChainState_chunk chunkSize f.

(** [NewLogger] on a regular file whose directory syncs. *)
Definition NewLogger (f : string) : result Logger :=
  let? st := recoverChainState f in
  Ok {| lg_patterns := []; lg_prevHash := fst st; lg_chainIndex := snd st; lg_durable := true;
        lg_poisoned := false; lg_file := f; lg_synced := f |}.

Definition stderrLogger : Logger := {|
  lg_patterns := []; lg_prevHash := ""; lg_chainIndex := 0; lg_durable := false; lg_poisoned := false;
  lg_file := ""; lg_synced := "" |}.
End audit.
