(* ===== verification/LedgerSpec.v ===== *)
(** The audit ledger is a hash chain on disk: whatever the writes and syncs
    return, the file is a chain of whole records followed at most by one torn
    tail, a committed authorization is in the synced prefix, the tip of the
    chain binds every record before it, and a restart continues the chain. *)
From stdpp Require Import base strings gmap list.
From Stdlib Require Import ZArith Lia Ascii.
From S2P Require Import Prelude GoStrings GoLib Lineage PolicyTypes Ledger.
#[local] Open Scope Z_scope.

Section chain.
Context `{GoReplace} `{GoTime} `{GoCrypto} `{EventJSON}.

(** ** Chains *)

(** A record as it lies in the file. *)
Record entry := { en_event : Event; en_line : string }.

(** [chained prev i es]: each record holds its own hash, the hash of the one
    before it and its position. *)
Fixpoint chained (prev : string) (i : Z) (es : list entry) : Prop :=
  match es with
  | [] => True
  | en :: es =>
      ae_PrevHash (en_event en) = prev /\ ae_ChainIndex (en_event en) = i mod 2^64 /\
      RecordHash (en_event en) = Some (ae_Hash (en_event en)) /\
      marshal_event (en_event en) = Some (en_line en) /\
      chained (ae_Hash (en_event en)) (i + 1) es
  end.

Definition tip (prev : string) (es : list entry) : string :=
  foldl (fun _ en => ae_Hash (en_event en)) prev es.

(** The bytes of the records. *)
Definition ledger (es : list entry) : string :=
  foldr (fun en s => en_line en +:+ String LF s) "" es.

Lemma chained_app prev i es es' :
  chained prev i (es ++ es') <->
  chained prev i es /\ chained (tip prev es) (i + Z.of_nat (length es)) es'.
Proof.
  revert prev i. induction es as [|en es IH]; intros prev i; cbn [chained app length tip foldl].
  - rewrite Z.add_0_r. tauto.
  - rewrite IH. fold (tip (ae_Hash (en_event en)) es).
    replace (i + 1 + Z.of_nat (length es)) with (i + Z.of_nat (S (length es))) by lia. tauto.
Qed.

Lemma ledger_app es es' : ledger (es ++ es') = ledger es +:+ ledger es'.
Proof.
  induction es as [|en es IH]; [done|]. cbn [app ledger foldr].
  fold (ledger (es ++ es')) (ledger es). by rewrite IH, append_assoc.
Qed.

(** ** Operations *)

Inductive op :=
| OLog (now : Z) (e : Event) (w : WriteOut)
| OCommit (now : Z) (e : Event) (w : WriteOut) (s : bool)
| OKinetic (now : Z) (e : Event) (w : WriteOut) (s : bool)
| OPatterns (ps : list RedactionPattern).

(** The state, and the records whose durable commit reported success. *)
Definition step (st : Logger * list Event) (o : op) : Logger * list Event :=
  let '(l, done) := st in
  let committed now e (r : Logger * error) :=
    match snd r, prepareRecord l now e with
    | None, Some (p, _) => (fst r, done ++ [p])
    | _, _ => (fst r, done)
    end in
  match o with
  | OLog now e w => (fst (Log l now e w), done)
  | OCommit now e w s => committed now e (CommitAuthorization l now e w s)
  | OKinetic now e w s => committed now e (CommitKineticStop l now e w s)
  | OPatterns ps => (SetRedactionPatterns l ps, done)
  end.

Definition is_prefix (s t : string) : Prop := exists u, t = s +:+ u.

(** The beginning, or all, of one record that would continue the chain. *)
Definition begun (es : list entry) (torn : string) : Prop :=
  exists en n, chained "" 0 (es ++ [en]) /\ torn = take_bytes n (en_line en +:+ String LF "").

(** The file is a chain and at most one torn record, and the state continues
    the chain; the torn record is there only in a poisoned logger. *)
Record chain_inv (l : Logger) (es : list entry) (torn : string) : Prop := {
  ci_file : lg_file l = ledger es +:+ torn;
  ci_chain : chained "" 0 es;
  ci_tip : lg_prevHash l = tip "" es;
  ci_index : lg_chainIndex l = Z.of_nat (length es) mod 2^64;
  ci_torn : torn <> "" -> lg_poisoned l = true /\ begun es torn
}.

(** Each committed record is in the chain, and the records up to it are
    synced. *)
Definition committed_inv (l : Logger) (done : list Event) (es : list entry) : Prop :=
  forall e, In e done -> exists es1 en es2, es = es1 ++ en :: es2 /\ en_event en = e /\
    is_prefix (ledger (es1 ++ [en])) (lg_synced l).

Lemma take_all s : take_bytes (String.length s) s = s.
Proof. unfold take_bytes. induction s as [|c s IH]; [done|]. cbn. by rewrite IH. Qed.

Lemma prepareRecord_Some l now e p data :
  prepareRecord l now e = Some (p, data) ->
  exists line, data = line +:+ String LF "" /\ marshal_event p = Some line /\
    RecordHash p = Some (ae_Hash p) /\ ae_PrevHash p = lg_prevHash l /\ ae_ChainIndex p = lg_chainIndex l.
Proof.
  unfold prepareRecord. destruct (RecordHash (prepared_event l now e)) as [h|] eqn:Eh; [|done].
  destruct (marshal_event _) as [line|] eqn:Em; [|done]. intros [= <- <-]. by exists line.
Qed.

Lemma appendFull_true l data w l' :
  appendFull l data w = (l', true) -> l' = with_file l (lg_file l +:+ data).
Proof.
  unfold appendFull. intros [= <- [_ Hw%Nat.eqb_eq]%andb_true_iff]. by rewrite Hw, take_all.
Qed.

Lemma continues l es torn p line : chain_inv l es torn -> marshal_event p = Some line -> RecordHash p = Some (ae_Hash p) ->
  ae_PrevHash p = lg_prevHash l -> ae_ChainIndex p = lg_chainIndex l -> chained "" 0 (es ++ [{| en_event := p; en_line := line |}]).
Proof.
  intros [_ Hc Ht Hi _] Hm Hr Hp Hx. rewrite chained_app. split; [done|]. rewrite Z.add_0_l. cbn. split_and!; try congruence; done.
Qed.

(** A whole record appended to a healthy logger extends the chain. *)
Lemma advance_inv l es p line l' :
  chain_inv l es "" -> marshal_event p = Some line -> RecordHash p = Some (ae_Hash p) ->
  ae_PrevHash p = lg_prevHash l -> ae_ChainIndex p = lg_chainIndex l ->
  lg_file l' = lg_file l +:+ line +:+ String LF "" ->
  lg_prevHash l' = ae_Hash p -> lg_chainIndex l' = (lg_chainIndex l + 1) mod 2^64 ->
  chain_inv l' (es ++ [{| en_event := p; en_line := line |}]) "".
Proof.
  intros Hinv Hm Hr Hp Hx Ef Ep Ei. pose proof (continues _ _ _ _ _ Hinv Hm Hr Hp Hx) as Hcont. destruct Hinv as [Hf Hc Ht Hi _]. split.
  - rewrite ledger_app, Ef, Hf. cbn. by rewrite !append_nil_r.
  - done.
  - rewrite Ep. unfold tip. by rewrite foldl_app.
  - rewrite Ei, Hi, length_app. cbn. rewrite Nat2Z.inj_add. by rewrite Z.add_mod_idemp_l.
  - done.
Qed.

Lemma poison_inv l l' es torn :
  chain_inv l es "" -> begun es torn -> lg_file l' = lg_file l +:+ torn -> lg_prevHash l' = lg_prevHash l ->
  lg_chainIndex l' = lg_chainIndex l -> lg_poisoned l' = true -> chain_inv l' es torn.
Proof.
  intros [Hf Hc Ht Hi _] Hb Ef Ep Ei Hp. split; try congruence; [|done]. by rewrite Ef, Hf, append_nil_r.
Qed.

(** One step of the ledger: the chain is kept, or extended by one record;
    the synced prefix is kept, or becomes the whole chain. *)
Definition grows (l : Logger) (es : list entry) (l' : Logger) (es' : list entry) (torn' : string) : Prop :=
  chain_inv l' es' torn' /\ (exists more, es' = es ++ more) /\
  (lg_synced l' = lg_synced l \/ lg_synced l' = ledger es').

Lemma healthy_torn l es torn : chain_inv l es torn -> lg_poisoned l = false -> torn = "".
Proof. intros [_ _ _ _ Ht] Hp. destruct torn; [done|]. destruct Ht as [Ht _]; [done|congruence]. Qed.

Lemma same_grows l l' es torn :
  chain_inv l es torn -> lg_file l' = lg_file l -> lg_prevHash l' = lg_prevHash l ->
  lg_chainIndex l' = lg_chainIndex l -> (lg_poisoned l = true -> lg_poisoned l' = true) ->
  lg_synced l' = lg_synced l -> grows l es l' es torn.
Proof.
  intros [Hf Hc Ht Hi Hp] Ef Ep Ei Hp' Es. split; [|split; [exists []; by rewrite app_nil_r|by left]].
  split; try congruence. intros Hn. destruct (Hp Hn). auto.
Qed.

Lemma Log_grows l es torn now e w :
  chain_inv l es torn -> exists es' torn', grows l es (fst (Log l now e w)) es' torn'.
Proof.
  intros Hi. unfold Log. destruct (lg_poisoned l) eqn:Ep; [by exists es, torn; apply same_grows|].
  pose proof (healthy_torn l es torn Hi Ep) as ->.
  destruct (prepareRecord l now e) as [[p data]|] eqn:Er; [|by exists es, ""; apply same_grows].
  apply prepareRecord_Some in Er as (line & -> & Hm & Hr & Hp & Hx).
  destruct (appendFull l _ w) as [l1 []] eqn:Ea.
  - apply appendFull_true in Ea as ->.
    exists (es ++ [{| en_event := p; en_line := line |}]), "".
    split; [by eapply advance_inv|]. split; [by eexists|by left].
  - injection Ea as <- _. exists es. eexists. split; [|split; [exists []; by rewrite app_nil_r|by left]].
    eapply poison_inv; [done| |done..]. exists {| en_event := p; en_line := line |}, (wo_n w).
    split; [by eapply continues|done].
Qed.

(** A commit that reports success leaves its record at the end of the chain,
    all of it synced. *)
Lemma commit_grows l es now e w s :
  chain_inv l es "" ->
  exists es' torn', grows l es (fst (commit_record l now e w s)) es' torn' /\
    forall p data, snd (commit_record l now e w s) = None -> prepareRecord l now e = Some (p, data) ->
      exists en, es' = es ++ [en] /\ en_event en = p /\
        lg_synced (fst (commit_record l now e w s)) = ledger es'.
Proof.
  intros Hi. unfold commit_record.
  destruct (prepareRecord l now e) as [[p data]|] eqn:Er.
  2: { exists es, "". split; [by apply same_grows|done]. }
  apply prepareRecord_Some in Er as (line & -> & Hm & Hr & Hp & Hx).
  destruct (appendFull l _ w) as [l1 []] eqn:Ea.
  - apply appendFull_true in Ea as ->. destruct s.
    + exists (es ++ [{| en_event := p; en_line := line |}]), "".
      assert (chain_inv (advance (synced (with_file l (lg_file l +:+ line +:+ String LF ""))) p)
        (es ++ [{| en_event := p; en_line := line |}]) "") as Hi' by by eapply advance_inv.
      assert (lg_synced (advance (synced (with_file l (lg_file l +:+ line +:+ String LF ""))) p) =
        ledger (es ++ [{| en_event := p; en_line := line |}])) as Es.
      { destruct Hi' as [Hf _ _ _ _]. rewrite append_nil_r in Hf. exact Hf. }
      split; [split; [exact Hi'|split; [by eexists|by right]]|].
      intros p' data' _ [= <- <-]. eexists. split; [done|]. by split.
    + exists es. eexists. split; [|done]. split; [|split; [exists []; by rewrite app_nil_r|by left]].
      eapply poison_inv; [done| |done..]. exists {| en_event := p; en_line := line |}, (String.length (line +:+ String LF "")).
      split; [by eapply continues|by rewrite take_all].
  - injection Ea as <- _. exists es. eexists. split; [|done].
    split; [|split; [exists []; by rewrite app_nil_r|by left]].
    eapply poison_inv; [done| |done..]. exists {| en_event := p; en_line := line |}, (wo_n w). split; [by eapply continues|done].
Qed.

Lemma ledger_prefix es es' : is_prefix (ledger es) (ledger (es ++ es')).
Proof. exists (ledger es'). apply ledger_app. Qed.

Lemma committed_grows l done es l' es' torn' :
  committed_inv l done es -> grows l es l' es' torn' -> committed_inv l' done es'.
Proof.
  intros Hc (_ & [more ->] & Hs) e Hin. destruct (Hc e Hin) as (es1 & en & es2 & -> & He & Hp).
  exists es1, en, (es2 ++ more). split; [by rewrite <-app_assoc|]. split; [done|].
  destruct Hs as [->| ->]; [done|].
  replace ((es1 ++ en :: es2) ++ more) with ((es1 ++ [en]) ++ es2 ++ more); [apply ledger_prefix|].
  by rewrite <-!app_assoc.
Qed.

Definition ledger_ok (es0 : list entry) (st : Logger * list Event) : Prop :=
  exists es torn, chain_inv (fst st) es torn /\ (exists more, es = es0 ++ more) /\
    committed_inv (fst st) (snd st) es.

Lemma grows_ok es0 l done es l' es' torn' :
  (exists more, es = es0 ++ more) -> committed_inv l done es -> grows l es l' es' torn' -> ledger_ok es0 (l', done).
Proof.
  intros [more ->] Hc Hg. exists es', torn'. split; [apply Hg|]. split.
  - destruct Hg as (_ & [more' ->] & _). exists (more ++ more'). by rewrite <-app_assoc.
  - by eapply committed_grows.
Qed.

(** A commit either never reaches [commit_record], and then keeps the file
    and reports an error, or is it. *)
Lemma gated_commit es0 l done es torn now e w s (r : Logger * error) :
  chain_inv l es torn -> (exists more, es = es0 ++ more) -> committed_inv l done es ->
  r = (l, snd r) /\ snd r <> None \/ r = (poison l, snd r) /\ snd r <> None \/
    lg_poisoned l = false /\ r = commit_record l now e w s ->
  ledger_ok es0 match snd r, prepareRecord l now e with
    | None, Some (p, _) => (fst r, done ++ [p])
    | _, _ => (fst r, done)
    end.
Proof.
  intros Hi Hm Hc [[Er Hn]|[[Er Hn]|[Hp ->]]].
  - destruct r as [l' [err|]]; [|done]. injection Er as ->. cbn. by exists es, torn.
  - destruct r as [l' [err|]]; [|done]. injection Er as ->. cbn.
    eapply (grows_ok es0 l); [exact Hm|exact Hc|]. by apply (same_grows l _ es torn).
  - pose proof (healthy_torn l es torn Hi Hp) as ->.
    destruct (commit_grows l es now e w s Hi) as (es' & torn' & Hg & Hcommit).
    pose proof (grows_ok es0 _ done _ _ _ _ Hm Hc Hg) as Hok.
    destruct (snd (commit_record l now e w s)) as [err|] eqn:Es; [exact Hok|].
    destruct (prepareRecord l now e) as [[p data]|] eqn:Ep; [|exact Hok].
    destruct (Hcommit p data eq_refl eq_refl) as (en & -> & He & Hsync).
    exists (es ++ [en]), torn'. split; [apply Hg|]. split.
    { destruct Hm as [more ->]. exists (more ++ [en]). by rewrite <-app_assoc. }
    intros e' [Hin| [<-|[]]]%in_app_or.
    + by eapply committed_grows.
    + exists es, en, []. split; [done|]. split; [done|]. cbn. rewrite Hsync. exists "". by rewrite append_nil_r.
Qed.

Lemma step_ok es0 st o : ledger_ok es0 st -> ledger_ok es0 (step st o).
Proof.
  destruct st as [l done]. intros (es & torn & Hi & Hm & Hc). destruct o as [now e w|now e w s|now e w s|ps]; cbn [step fst snd] in *.
  - destruct (Log_grows l es torn now e w Hi) as (es' & torn' & Hg). by eapply grows_ok.
  - apply (gated_commit es0 l done es torn now e w s); try done. unfold CommitAuthorization.
    destruct (lg_poisoned l); [by left|]. destruct (negb _); [by right; left|].
    destruct (_ || _); [by left|]. by right; right.
  - apply (gated_commit es0 l done es torn now e w s); try done. unfold CommitKineticStop.
    destruct (lg_poisoned l); [by left|]. destruct (negb _); [by right; left|].
    destruct (_ || _); [by left|]. by right; right.
  - eapply (grows_ok es0 l done es); [done..|]. by apply (same_grows l _ es torn).
Qed.

(** A poisoned logger writes nothing any more. *)
Lemma step_poisoned st o : lg_poisoned st.1 = true -> lg_poisoned (step st o).1 = true /\ lg_file (step st o).1 = lg_file st.1.
Proof.
  destruct st as [l done]. cbn [fst]. intros Hp.
  destruct o; cbn [step]; unfold Log, CommitAuthorization, CommitKineticStop; rewrite ?Hp; done.
Qed.
Lemma steps_poisoned ops st : lg_poisoned st.1 = true -> lg_file (fold_left step ops st).1 = lg_file st.1.
Proof.
  revert st. induction ops as [|o ops IH]; intros st Hp; [done|]. cbn. destruct (step_poisoned st o Hp) as [Hp' <-]. by apply IH.
Qed.

(** C20.  Whatever each write and each sync of the ledger returns, short and
    failed ones included: the file stays a chain of whole records that
    extends the one it started from, followed at most by the beginning (or
    all) of the one record that would have come next, and only if the logger is
    poisoned; a poisoned logger adds nothing to the file, whatever it is asked.
    A record whose durable commit reported success is in that chain, and the
    chain up to it has been synced. *)
Theorem ledger_durable (l : Logger) (es : list entry) (ops : list op) (Hstart : chain_inv l es "") :
  let '(l', done) := fold_left step ops (l, []) in
  exists es' torn, (exists more, es' = es ++ more) /\ lg_file l' = ledger es' +:+ torn /\ chained "" 0 es' /\
    (torn <> "" -> lg_poisoned l' = true /\
       exists en n, chained "" 0 (es' ++ [en]) /\ torn = take_bytes n (en_line en +:+ String LF "")) /\
    (lg_poisoned l' = true -> forall ops', lg_file (fold_left step ops' (l', done)).1 = lg_file l') /\
    chain_inv l' es' torn /\ committed_inv l' done es'.
Proof.
  assert (ledger_ok es (fold_left step ops (l, []))) as (es' & torn & Hi & Hm & Hc).
  { assert (ledger_ok es (l, [])) as Hok.
    { exists es, "". split; [done|]. split; [exists []; by rewrite app_nil_r|]. by intros e []. }
    revert Hok. generalize (l, @nil Event). induction ops as [|o ops IH]; intros st Hok; [done|].
    cbn. apply IH. by apply step_ok. }
  destruct (fold_left step ops (l, [])) as [l' done]. exists es', torn. cbn [fst snd] in *.
  split_and!; [done|by apply Hi|by apply Hi|by apply Hi| |done|done]. intros Hp ops'. by apply (steps_poisoned ops' (l', done)).
Qed.

(** ** The tip binds the chain *)

Definition payloads (es : list entry) : list (option string) :=
  (fun en => marshal_event (with_hash (en_event en) "")) <$> es.

Definition collision : Prop := exists x y, x <> y /\ sha256_hex x = sha256_hex y.

Lemma RecordHash_payload e e' h h' :
  RecordHash e = Some h -> RecordHash e' = Some h' -> h = h' ->
  marshal_event (with_hash e "") = marshal_event (with_hash e' "") \/ collision.
Proof.
  unfold RecordHash. destruct (marshal_event (with_hash e "")) as [x|]; [|done].
  destruct (marshal_event (with_hash e' "")) as [y|]; [|done]. cbn. intros [= <-] [= <-] E.
  destruct (decide (x = y)) as [->|Hn]; [by left|]. right. by exists x, y.
Qed.

Lemma tip_app prev es en : tip prev (es ++ [en]) = ae_Hash (en_event en).
Proof. unfold tip. by rewrite foldl_app. Qed.

(** C21.  The hash of the last record binds the whole ledger: two ledgers that
    end in the same hash hold the same records, byte for byte and in the same
    number, or else two different inputs with one SHA-256 are at hand.  (The
    JSON of a record determines its link and position.) *)
Theorem tip_binds_ledger (es es' : list entry)
    (Hjson : forall a b, In a es -> In b es' ->
       marshal_event (with_hash (en_event a) "") = marshal_event (with_hash (en_event b) "") ->
       ae_PrevHash (en_event a) = ae_PrevHash (en_event b) /\
       ae_ChainIndex (en_event a) = ae_ChainIndex (en_event b))
    (Hc : chained "" 0 es) (Hc' : chained "" 0 es')
    (Hlen : Z.of_nat (length es) < 2^64) (Hlen' : Z.of_nat (length es') < 2^64)
    (Hne : es <> []) (Hne' : es' <> []) (Htip : tip "" es = tip "" es') :
  payloads es = payloads es' \/ collision.
Proof.
  revert es' Hjson Hc' Hlen' Hne' Htip. induction es as [|a es IH] using rev_ind; [done|].
  intros es'. destruct es' as [|b es' _] using rev_ind; [done|]. intros Hjson Hc' Hlen' _ Htip.
  rewrite !tip_app in Htip. rewrite chained_app in Hc, Hc'. destruct Hc as [Hc Ha], Hc' as [Hc' Hb].
  cbn in Ha, Hb. destruct Ha as (Pa & Ia & Ra & _), Hb as (Pb & Ib & Rb & _).
  destruct (RecordHash_payload _ _ _ _ Ra Rb Htip) as [E|]; [|by right].
  destruct (Hjson a b) as [Ep Ei]; [apply in_or_app; right; by left..|done|].
  rewrite length_app in Hlen, Hlen'. cbn in Hlen, Hlen'.
  assert (length es = length es') as El.
  { rewrite Ia, Ib, !Z.mod_small in Ei by lia. lia. }
  destruct es as [|a' es], es' as [|b' es']; try done.
  { left. unfold payloads. cbn. by rewrite E. }
  destruct (IH ltac:(done) ltac:(cbn in *; lia) ltac:(done) (b' :: es')) as [Ep'|]; try done.
  - intros x y Hx Hy. apply Hjson; by apply in_or_app; left.
  - cbn in *; lia.
  - rewrite <-Pa, <-Pb. done.
  - left. unfold payloads in *. rewrite !fmap_app. rewrite Ep'. cbn. by rewrite E.
  - by right.
Qed.
End chain.

(** ** Restart *)

Lemma append_cons c s t : String c s +:+ t = String c (s +:+ t).
Proof. reflexivity. Qed.

Lemma drop_bytes_le k s t : (k <= String.length s)%nat -> drop_bytes k (s +:+ t) = drop_bytes k s +:+ t.
Proof.
  revert s. induction k as [|k IH]; intros s Hk; [done|]. destruct s as [|c s]; [cbn in *; lia|]. rewrite append_cons. cbn in *. apply IH. lia.
Qed.
Lemma drop_bytes_gt k s t :
  (String.length s <= k)%nat -> drop_bytes k (s +:+ t) = drop_bytes (k - String.length s) t.
Proof.
  revert k. induction s as [|c s IH]; intros k Hk; [by rewrite Nat.sub_0_r|].
  rewrite append_cons. destruct k as [|k]; cbn in *; [lia|]. apply IH. lia.
Qed.

Lemma TrimRight_app s t :
  TrimRight (s +:+ t) = match TrimRight t with "" => TrimRight s | u => s +:+ u end.
Proof.
  induction s as [|c s IH].
  { change ("" +:+ t) with t. destruct (TrimRight t); reflexivity. }
  rewrite append_cons. cbn [TrimRight]. rewrite IH. destruct (TrimRight t) as [|d u]; [done|].
  rewrite append_cons. by destruct s.
Qed.

Lemma TrimRight_LF s : TrimRight (s +:+ String LF "") = TrimRight s.
Proof. by rewrite TrimRight_app. Qed.

Lemma any_byte_drop p k s : any_byte p (drop_bytes k s) = true -> any_byte p s = true.
Proof.
  revert s. induction k as [|k IH]; intros s; [done|]. destruct s as [|c s]; [done|]. cbn.
  intros Hd%IH. by rewrite Hd, orb_true_r.
Qed.
Lemma any_byte_trim p s : any_byte p (TrimRight s) = true -> any_byte p s = true.
Proof.
  induction s as [|c s IH]; [done|]. cbn. destruct (TrimRight s) as [|d u] eqn:E.
  - destruct (tail_space c); [done|]. cbn. rewrite orb_false_r. by intros ->.
  - cbn in *. intros [->|Hu]%orb_true_iff; [done|]. by rewrite IH, orb_true_r.
Qed.

Lemma last_byte_app c s t : t <> "" -> last_byte_is c (s +:+ t) = last_byte_is c t.
Proof.
  intros Ht. induction s as [|d s IH]; [done|]. rewrite append_cons. cbn [last_byte_is]. rewrite IH.
  destruct s; [by destruct t|done].
Qed.

Lemma read_chunks_stops fuel chunk f remaining :
  (0 < chunk)%nat -> (remaining <= fuel)%nat ->
  exists k, read_chunks fuel chunk f remaining = drop_bytes k f /\
    (k = 0%nat \/ any_byte (Ascii.eqb LF) (TrimRight (drop_bytes k f)) = true).
Proof.
  intros Hc. revert remaining. induction fuel as [|fuel IH]; intros remaining Hr.
  { exists 0%nat. assert (remaining = 0%nat) as -> by lia. split; [done|by left]. }
  destruct remaining as [|r]; [by exists 0%nat; split; [|left]|].
  cbn [read_chunks]. set (k := (S r - Nat.min chunk (S r))%nat).
  destruct ((k =? 0)%nat || _) eqn:E.
  - exists k. split; [done|]. apply orb_true_iff in E as [E|E]; bools; auto.
  - destruct (IH k) as (k' & -> & Hk); [lia|]. by exists k'.
Qed.

(** Ends with the byte LF, or is empty. *)
Definition whole_lines (s : string) : Prop := s = "" \/ exists s', s = s' +:+ String LF "".

Lemma ledger_whole es : whole_lines (ledger es).
Proof.
  destruct es as [|en es _] using rev_ind; [by left|]. right. rewrite ledger_app. cbn.
  exists (ledger es +:+ en_line en). by rewrite append_assoc.
Qed.

Lemma drop_whole k s : whole_lines s -> (k <= String.length s)%nat -> whole_lines (drop_bytes k s).
Proof.
  intros [->|[s' ->]]; [by destruct k; left|]. intros Hk.
  destruct (decide (k <= String.length s')%nat).
  - right. exists (drop_bytes k s'). by rewrite drop_bytes_le.
  - left. rewrite drop_bytes_gt by lia.
    destruct (k - String.length s')%nat as [|[|j]] eqn:E; [lia|done|done].
Qed.

(** A line with no LF byte that no trimming shortens. *)
Record line_ok (line : string) : Prop := {
  lo_lf : any_byte (Ascii.eqb LF) line = false;
  lo_right : TrimRight line = line;
  lo_space : TrimSpace line = line;
  lo_some : line <> ""
}.

Lemma readLastCompleteLine_last chunk pre line :
  (0 < chunk)%nat -> whole_lines pre -> line_ok line ->
  readLastCompleteLine chunk (pre +:+ line +:+ String LF "") = Ok line.
Proof.
  intros Hc Hp [Hlf Hr Hs Hn]. unfold readLastCompleteLine.
  set (f := pre +:+ line +:+ String LF "").
  assert (last_byte_is LF f = true) as Hl.
  { unfold f. rewrite !last_byte_app; try done. by destruct line. }
  assert ((f =s? "") = false) as -> by by destruct f.
  rewrite Hl. cbn [negb].
  destruct (read_chunks_stops (String.length f) chunk f (String.length f) Hc (le_n _)) as (k & -> & Hk).
  assert (k <= String.length pre)%nat as Hle.
  { destruct (decide (k <= String.length pre)%nat) as [|Hgt]; [done|]. exfalso.
    destruct Hk as [->|Hk]; [lia|]. unfold f in Hk. rewrite drop_bytes_gt in Hk by lia.
    set (j := (k - String.length pre)%nat) in *.
    destruct (decide (j <= String.length line)%nat).
    - rewrite drop_bytes_le, TrimRight_LF in Hk by done.
      apply any_byte_trim, any_byte_drop in Hk. congruence.
    - rewrite drop_bytes_gt in Hk by lia.
      destruct (j - String.length line)%nat as [|[|i]] eqn:E; [lia|done|done]. }
  unfold f. rewrite drop_bytes_le, TrimRight_app, TrimRight_LF, Hr by done.
  destruct line as [|c rest] eqn:El; [done|]. rewrite <-El in *.
  destruct (drop_whole k pre Hp Hle) as [->|[s ->]].
  - assert ((("" +:+ line) =s? "") = false) as -> by by rewrite El.
    change ("" +:+ line) with line. rewrite (proj2 (cut_last_None _ _)) by done. by rewrite Hs.
  - rewrite append_assoc, append_cons. change ("" +:+ line) with line.
    assert (((s +:+ String LF line) =s? "") = false) as -> by by destruct s.
    by rewrite cut_last_app, Hs.
Qed.

Section restart.
Context `{GoReplace} `{GoTime} `{GoCrypto} `{EventJSON}.

(** The line decodes, and the decoded record re-encodes: its link fields and
    the bytes its hash covers are those of the record. *)
Definition reencodes (en : entry) : Prop :=
  exists e, unmarshal_event (en_line en) = Some e /\
    ae_Hash e = ae_Hash (en_event en) /\ ae_PrevHash e = ae_PrevHash (en_event en) /\
    ae_ChainIndex e = ae_ChainIndex (en_event en) /\
    marshal_event (with_hash e "") = marshal_event (with_hash (en_event en) "").

(** A restart continues the chain: opening the file of a complete ledger
    yields the tip and the next position, whatever the size of the chunks the
    tail is read in, and the new logger continues the same chain.  A file
    with a torn tail is refused. *)
Theorem restart_continues (es : list entry) (last : entry) (chunk : nat)
    (Hchain : chained "" 0 (es ++ [last])) (Hline : line_ok (en_line last)) (Hre : reencodes last)
    (Hhash : ae_Hash (en_event last) <> "") (Hchunk : (0 < chunk)%nat) :
  recoverChainState_chunk chunk (ledger (es ++ [last])) =
    Ok (tip "" (es ++ [last]), Z.of_nat (length (es ++ [last])) mod 2^64) /\
  (forall l, NewLogger (ledger (es ++ [last])) = Ok l -> chain_inv l (es ++ [last]) "") /\
  (forall torn, torn <> "" -> last_byte_is LF torn = false ->
     recoverChainState_chunk chunk (ledger (es ++ [last]) +:+ torn) = Err ErrIncompleteAuditTail).
Proof.
  assert (forall chunk, (0 < chunk)%nat -> recoverChainState_chunk chunk (ledger (es ++ [last])) =
    Ok (tip "" (es ++ [last]), Z.of_nat (length (es ++ [last])) mod 2^64)) as Hrec.
  { clear chunk Hchunk. intros chunk Hchunk. unfold recoverChainState_chunk.
    assert (ledger (es ++ [last]) = ledger es +:+ en_line last +:+ String LF "") as Ef by by rewrite ledger_app.
    assert ((ledger (es ++ [last]) =s? "") = false) as ->.
    { rewrite Ef. apply str_eqb_false. intros E%(f_equal String.length).
      rewrite !str_length_app in E. cbn in E. lia. }
    rewrite Ef, (readLastCompleteLine_last _ _ _ Hchunk (ledger_whole es) Hline). cbn [result_bind].
    assert ((en_line last =s? "") = false) as -> by (apply str_eqb_false, Hline).
    destruct Hre as (e & -> & Eh & Ep & Ei & Em). rewrite Eh.
    assert ((ae_Hash (en_event last) =s? "") = false) as -> by by apply str_eqb_false.
    rewrite Em. rewrite chained_app in Hchain. destruct Hchain as [_ (_ & Hi & Hr & _)].
    unfold RecordHash in Hr. destruct (marshal_event _) as [payload|]; [|done]. cbn in Hr. injection Hr as ->.
    rewrite str_eqb_refl. cbn [negb]. rewrite tip_app, Ei, Hi, length_app.
    rewrite Z.add_mod_idemp_l by done. do 2 f_equal. f_equal. cbn. lia. }
  split; [by apply Hrec|]. split.
  - intros l. unfold NewLogger, recoverChainState. rewrite Hrec by (unfold chunkSize; lia).
    intros [= <-]. split; try done. cbn. by rewrite append_nil_r.
  - intros torn Ht Hl. unfold recoverChainState_chunk, readLastCompleteLine.
    assert (((ledger (es ++ [last]) +:+ torn) =s? "") = false) as ->.
    { apply str_eqb_false. intros E%(f_equal String.length). destruct torn; [done|].
      rewrite !str_length_app in E. cbn in E. lia. }
    by rewrite last_byte_app, Hl.
Qed.
End restart.

(** ** Witnesses *)
Module AuditWitness.
Definition no_patterns : GoReplace := {| regexp_compiles := fun _ => true; regexp_ReplaceAllString := fun _ s _ => s |}.
Definition digest : GoCrypto := {| sha256_hex := fun s => "h" +:+ s |}.
Definition show (e : Event) : string :=
  "{" +:+ ae_EventType e +:+ "|" +:+ ae_Decision e +:+ "|" +:+ Itoa (ae_ChainIndex e) +:+ "|" +:+ ae_PrevHash e +:+
  "|" +:+ ae_Hash e +:+ "}".
(** The event of a line is looked up among those at hand. *)
Definition json_of (es : list Event) : EventJSON := {|
  marshal_event := fun e => Some (show e);
  unmarshal_event := fun s => List.find (fun e => show e =s? s) es |}.
Definition no_read : EventJSON := json_of [].

Definition allow : Event :=
  {| ae_Timestamp := "1"; ae_EventType := EventToolAllowed; ae_SessionID := ""; ae_AgentID := ""; ae_Server := "";
     ae_Tool := ""; ae_Arguments := None; ae_Decision := ActionAllow; ae_Reason := ""; ae_RiskLevel := "";
     ae_SessionTaints := []; ae_TaintSource := ""; ae_TaintReason := ""; ae_PolicyRule := ""; ae_ChainContext := [];
     ae_RequestHash := ""; ae_RedactedArgumentHash := ""; ae_PolicyHash := ""; ae_ChainContextHash := "";
     ae_ApprovalReceiptHash := ""; ae_ApprovalReceipt := None; ae_OwnershipReceiptHash := "";
     ae_OwnershipReceipt := ""; ae_ServerIdentityKind := ""; ae_ServerIdentityExpected := "";
     ae_ServerIdentityResolved := ""; ae_ServerAttested := None; ae_ServerClaimedName := "";
     ae_ServerClaimedVersion := ""; ae_Lineage := None; ae_IdentitySnapshotHash := ""; ae_PrincipalID := "";
     ae_ActingAgent := ""; ae_TransactionID := ""; ae_ResultPreview := ""; ae_IsError := false; ae_Message := "";
     ae_Hash := ""; ae_PrevHash := ""; ae_ChainIndex := 0; ae_DelegationDepth := 0; ae_MaxSpawnDepth := 0;
     ae_TrajectoryAdvice := None; ae_ControllerID := ""; ae_CommandID := ""; ae_SessionEpoch := 0;
     ae_RevokedThroughEpoch := 0; ae_ObservedEnforcementTime := ""; ae_ResultingState := "";
     ae_ControlRequestSHA256 := "" |}.

Definition empty : Logger := {|
  lg_patterns := []; lg_prevHash := ""; lg_chainIndex := 0; lg_durable := true; lg_poisoned := false;
  lg_file := ""; lg_synced := "" |}.
(** A logger that has committed two records. *)
Definition commit (l : Logger) : Logger :=
  fst (CommitAuthorization (H := no_patterns) (H0 := decimal_time) (H1 := digest) (H2 := no_read) l 1 allow
    {| wo_n := 1000; wo_err := false |} true).
Definition write_all (l : Logger) : WriteOut :=
  match prepareRecord (H := no_patterns) (H0 := decimal_time) (H1 := digest) (H2 := no_read) l 1 allow with
  | Some (_, data) => {| wo_n := String.length data; wo_err := false |}
  | None => {| wo_n := 0; wo_err := true |}
  end.
Definition record (l : Logger) : entry :=
  match prepareRecord (H := no_patterns) (H0 := decimal_time) (H1 := digest) (H2 := no_read) l 1 allow with
  | Some (e, _) => {| en_event := e; en_line := show e |}
  | None => {| en_event := zeroEvent; en_line := "" |}
  end.
Definition after (l : Logger) : Logger :=
  fst (CommitAuthorization (H := no_patterns) (H0 := decimal_time) (H1 := digest) (H2 := no_read) l 1 allow
    (write_all l) true).
Definition first : entry := record empty.
Definition second : entry := record (after empty).

Lemma empty_chain : chain_inv (H1 := digest) (H2 := no_read) empty [] "".
Proof. split; reflexivity || done. Qed.

(** A short write tears the file and silences the logger. *)
Example short_write :
  fold_left (step (H := no_patterns) (H0 := decimal_time) (H1 := digest) (H2 := no_read))
    [OCommit 1 allow {| wo_n := 3; wo_err := false |} true; OLog 1 allow {| wo_n := 1000; wo_err := false |}]
    (empty, []) = (poison (with_file empty "{to"), []).
Proof. vm_compute. reflexivity. Qed.
End AuditWitness.

Lemma ledger_durable_witness :
  let '(l', done) := fold_left (step (H := AuditWitness.no_patterns) (H0 := decimal_time)
      (H1 := AuditWitness.digest) (H2 := AuditWitness.no_read))
    [OCommit 1 AuditWitness.allow (AuditWitness.write_all AuditWitness.empty) true] (AuditWitness.empty, []) in
  length done = 1%nat /\ exists es' torn, lg_file l' = ledger es' +:+ torn /\
    chain_inv (H1 := AuditWitness.digest) (H2 := AuditWitness.no_read) l' es' torn /\ committed_inv l' done es'.
Proof.
  pose proof (@ledger_durable AuditWitness.no_patterns decimal_time AuditWitness.digest AuditWitness.no_read
    AuditWitness.empty [] [OCommit 1 AuditWitness.allow (AuditWitness.write_all AuditWitness.empty) true]
    AuditWitness.empty_chain) as Hl.
  destruct (fold_left _ _ _) as [l' done] eqn:E. destruct Hl as (es' & torn & _ & Hf & _ & _ & _ & Hi & Hc).
  split; [|by exists es', torn]. assert (length (fold_left (step (H := AuditWitness.no_patterns) (H0 := decimal_time)
      (H1 := AuditWitness.digest) (H2 := AuditWitness.no_read))
    [OCommit 1 AuditWitness.allow (AuditWitness.write_all AuditWitness.empty) true] (AuditWitness.empty, [])).2 = 1%nat) as El
    by (vm_compute; reflexivity). rewrite E in El. exact El.
Defined.

Lemma tip_binds_ledger_witness :
  payloads (H2 := AuditWitness.no_read) [AuditWitness.first; AuditWitness.second] =
  payloads (H2 := AuditWitness.no_read) [AuditWitness.first; AuditWitness.second] \/
  collision (H1 := AuditWitness.digest).
Proof.
  apply (@tip_binds_ledger AuditWitness.digest AuditWitness.no_read
    [AuditWitness.first; AuditWitness.second] [AuditWitness.first; AuditWitness.second]).
  - intros a b [<-|[<-|[]]] [<-|[<-|[]]] E; vm_compute in E; try discriminate; split; reflexivity.
  - vm_compute. repeat split.
  - vm_compute. repeat split.
  - reflexivity.
  - reflexivity.
  - discriminate.
  - discriminate.
  - reflexivity.
Defined.

Lemma restart_continues_witness :
  recoverChainState_chunk (H1 := AuditWitness.digest)
    (H2 := AuditWitness.json_of [en_event AuditWitness.second]) 7
    (ledger ([AuditWitness.first] ++ [AuditWitness.second])) =
  Ok (tip "" ([AuditWitness.first] ++ [AuditWitness.second]), 2).
Proof.
  apply (@restart_continues AuditWitness.digest
    (AuditWitness.json_of [en_event AuditWitness.second]) [AuditWitness.first] AuditWitness.second 7).
  - vm_compute. repeat split.
  - split; [vm_compute; reflexivity..|discriminate].
  - exists (en_event AuditWitness.second). vm_compute. repeat split.
  - discriminate.
  - lia.
Defined.
