(* ===== verification/InstructionAuthority.v ===== *)
(** Instruction authority continuity: [internal/instructionauthority/].  An
    object carries the log of the transformations its content went through;
    authority, lineage and promotions are a fold over that log, and
    [Authorize] decides from the fold and a root the caller holds. *)
From stdpp Require Import base strings gmap list.
From Stdlib Require Import ZArith Lia Ascii.
From S2P Require Import Prelude GoStrings GoLib Ownership.
#[local] Open Scope Z_scope.

Definition SchemaVersion : Z := 1.
Definition MaxHistoryHops : nat := 8.

Definition AuthorityDataOnly : string := "DATA_ONLY".
Definition AuthorityUser : string := "USER".
Definition AuthorityDeveloper : string := "DEVELOPER".
Definition AuthoritySystem : string := "SYSTEM".

Definition TrustUntrustedMCPResponse : string := "UNTRUSTED_MCP_RESPONSE".
Definition TrustTrustedUser : string := "TRUSTED_USER".
Definition TrustTrustedDeveloper : string := "TRUSTED_DEVELOPER".
Definition TrustTrustedSystem : string := "TRUSTED_SYSTEM".

Definition RoleNone : string := "NONE".
Definition ContinuityPass : string := "PASS".
Definition ContinuityFailed : string := "FAILED".

(** [None] is the error of an unknown authority. *)
Definition authorityRank (a : string) : option Z :=
  if a =s? AuthorityDataOnly then Some 0
  else if a =s? AuthorityUser then Some 1
  else if a =s? AuthorityDeveloper then Some 2
  else if a =s? AuthoritySystem then Some 3
  else None.

Definition ceilingForTrust (class : string) : string :=
  if class =s? TrustTrustedUser then AuthorityUser
  else if class =s? TrustTrustedDeveloper then AuthorityDeveloper
  else if class =s? TrustTrustedSystem then AuthoritySystem
  else AuthorityDataOnly.

Record Origin := { o_Principal : string; o_TrustClass : string }.
Record Derivation := {
  dv_Transformer : string;
  dv_From : string;
  dv_Via : string;
  dv_To : string
}.
Record Promotion := {
  pr_RequestedAuthority : string;
  pr_Attempted : bool;
  pr_AuthorizedPromoter : string;
  pr_EndorsementID : string;
  pr_Continuity : string;
  pr_DigestFailure : bool
}.
(** An empty and a nil slice are not told apart: [provenanceEqual] does not. *)
Record Provenance := {
  pv_Origin : Origin;
  pv_DerivedBy : list Derivation;
  pv_CurrentRepresentation : string;
  pv_VisibleRole : string;
  pv_Authority : string;
  pv_Lineage : list string;
  pv_ContentSHA256 : string;
  pv_ParentContentSHA256 : string;
  pv_Promotion : Promotion
}.
Record EvaluationRoot := {
  rt_Origin : Origin;
  rt_InstructionBearing : bool;
  rt_EffectClass : string;
  rt_ContentSHA256 : string
}.
Record Endorsement := {
  en_ID : string;
  en_Promoter : string;
  en_GrantAuthority : string;
  en_ParentContentSHA : string;
  en_ChildContentSHA : string;
  en_Transformer : string;
  en_TargetRepresentation : string
}.
Record TrustedPrincipal := { tp_Name : string; tp_Ceiling : string }.
Record Hop := {
  h_Derivation : Derivation;
  h_Content : string;
  h_ContentDigest : string;
  h_ParentDigest : string;
  h_VisibleRole : string;
  h_RequestedAuthority : string;
  h_Endorsement : option Endorsement;
  h_EndorsementValid : bool;
  h_ObservedCeiling : string;
  h_ParentHopDigest : string;
  h_HopDigest : string
}.
Record InstructionObject := {
  io_SchemaVersion : Z;
  io_Content : string;
  io_InstructionBearing : bool;
  io_EffectClass : string;
  io_Provenance : Provenance;
  io_History : list Hop;
  io_InstructionEligible : bool
}.
Record Transform := {
  tf_Transformer : string;
  tf_To : string;
  tf_Via : string;
  tf_VisibleRole : string;
  tf_RequestedAuthority : string;
  tf_NewContent : string
}.

Definition passPromotion : Promotion := {|
  pr_RequestedAuthority := ""; pr_Attempted := false; pr_AuthorizedPromoter := "";
  pr_EndorsementID := ""; pr_Continuity := ContinuityPass; pr_DigestFailure := false |}.

Definition with_promotion (p : Provenance) (pr : Promotion) : Provenance := {|
  pv_Origin := pv_Origin p; pv_DerivedBy := pv_DerivedBy p;
  pv_CurrentRepresentation := pv_CurrentRepresentation p; pv_VisibleRole := pv_VisibleRole p;
  pv_Authority := pv_Authority p; pv_Lineage := pv_Lineage p; pv_ContentSHA256 := pv_ContentSHA256 p;
  pv_ParentContentSHA256 := pv_ParentContentSHA256 p; pv_Promotion := pr |}.

(** [prov.Promotion.Continuity = ContinuityFailed], and [DigestFailure = true] with [digest]. *)
Definition failed (digest : bool) (p : Provenance) : Provenance :=
  let pr := pv_Promotion p in
  with_promotion p {| pr_RequestedAuthority := pr_RequestedAuthority pr; pr_Attempted := pr_Attempted pr;
    pr_AuthorizedPromoter := pr_AuthorizedPromoter pr; pr_EndorsementID := pr_EndorsementID pr;
    pr_Continuity := ContinuityFailed; pr_DigestFailure := digest || pr_DigestFailure pr |}.

(** [beginHop] *)
Definition beginHop (prov : Provenance) (hop : Hop) (runningDigest : string) : Provenance := {|
  pv_Origin := pv_Origin prov;
  pv_DerivedBy := pv_DerivedBy prov ++ [h_Derivation hop];
  pv_CurrentRepresentation := dv_To (h_Derivation hop);
  pv_VisibleRole := h_VisibleRole hop;
  pv_Authority := pv_Authority prov;
  pv_Lineage := pv_Lineage prov ++ [pv_Authority prov];
  pv_ContentSHA256 := h_ContentDigest hop;
  pv_ParentContentSHA256 := if runningDigest <>s? "" then runningDigest else pv_ParentContentSHA256 prov;
  pv_Promotion :=
    let pr := pv_Promotion prov in
    if h_RequestedAuthority hop <>s? "" then {|
      pr_RequestedAuthority := h_RequestedAuthority hop; pr_Attempted := true; pr_AuthorizedPromoter := "";
      pr_EndorsementID := ""; pr_Continuity := pr_Continuity pr; pr_DigestFailure := pr_DigestFailure pr |}
    else pr |}.

(** [lineage[len(lineage)-1] = a] *)
Definition set_last (l : list string) (a : string) : list string := removelast l ++ [a].

Definition granted (prov : Provenance) (e : Endorsement) : Provenance := {|
  pv_Origin := pv_Origin prov; pv_DerivedBy := pv_DerivedBy prov;
  pv_CurrentRepresentation := pv_CurrentRepresentation prov; pv_VisibleRole := pv_VisibleRole prov;
  pv_Authority := en_GrantAuthority e; pv_Lineage := set_last (pv_Lineage prov) (en_GrantAuthority e);
  pv_ContentSHA256 := pv_ContentSHA256 prov; pv_ParentContentSHA256 := pv_ParentContentSHA256 prov;
  pv_Promotion := let pr := pv_Promotion prov in {|
    pr_RequestedAuthority := pr_RequestedAuthority pr; pr_Attempted := pr_Attempted pr;
    pr_AuthorizedPromoter := en_Promoter e; pr_EndorsementID := en_ID e;
    pr_Continuity := ContinuityPass; pr_DigestFailure := pr_DigestFailure pr |} |}.

(** [grantFromHop]: [None] is [false]. *)
Definition grantFromHop (prov : Provenance) (hop : Hop) : option Provenance :=
  match h_Endorsement hop with
  | None => None
  | Some e =>
      if negb (h_EndorsementValid hop) then None
      else if en_GrantAuthority e <>s? h_RequestedAuthority hop then None
      else match authorityRank (en_GrantAuthority e), authorityRank (h_ObservedCeiling hop) with
      | Some grantRank, Some ceilRank => if ceilRank <? grantRank then None else Some (granted prov e)
      | _, _ => None
      end
  end.

Definition validEndorsement (e : Endorsement) (parentDigest parentAuthority childDigest transformer to requested : string)
    (registry : gmap string TrustedPrincipal) : bool :=
  if (en_ID e =s? "") || (en_Promoter e =s? "") || (en_GrantAuthority e =s? "") then false
  else if (requested =s? "") || (en_GrantAuthority e <>s? requested) then false
  else match registry !! en_Promoter e with
  | None => false
  | Some promoter =>
      if en_ParentContentSHA e <>s? parentDigest then false
      else if en_ChildContentSHA e <>s? childDigest then false
      else if (en_Transformer e <>s? transformer) || (en_TargetRepresentation e <>s? to) then false
      else match authorityRank (en_GrantAuthority e), authorityRank (tp_Ceiling promoter),
                 authorityRank parentAuthority with
      | Some grantRank, Some ceilRank, Some inRank =>
          if ceilRank <? grantRank then false
          else if ceilRank <=? inRank then false
          else if grantRank <=? inRank then false
          else true
      | _, _, _ => false
      end
  end.

Section authority.
Context `{GoCrypto}.

Definition digest (content : string) : string := "sha256:" +:+ sha256_hex content.

(** The fields [hopDigest] writes, in order. *)
Definition hop_fields (hop : Hop) : list string :=
  [h_ParentDigest hop; h_ContentDigest hop; h_Content hop; h_VisibleRole hop; h_RequestedAuthority hop;
   h_ParentHopDigest hop; h_ObservedCeiling hop; if h_EndorsementValid hop then "1" else "0"] ++
  match h_Endorsement hop with
  | None => ["0"]
  | Some e => ["1"; en_ID e; en_Promoter e; en_GrantAuthority e; en_ParentContentSHA e; en_ChildContentSHA e;
               en_Transformer e; en_TargetRepresentation e]
  end ++
  [dv_Transformer (h_Derivation hop); dv_From (h_Derivation hop); dv_Via (h_Derivation hop); dv_To (h_Derivation hop)].
Definition hopDigest (hop : Hop) : string := "sha256:" +:+ sha256_hex (writeFields (hop_fields hop)).

(** ** The fold *)

Definition origin_provenance (origin : Origin) (repr content : string) (pr : Promotion) : Provenance := {|
  pv_Origin := origin; pv_DerivedBy := []; pv_CurrentRepresentation := repr; pv_VisibleRole := RoleNone;
  pv_Authority := ceilingForTrust (o_TrustClass origin); pv_Lineage := []; pv_ContentSHA256 := content;
  pv_ParentContentSHA256 := ""; pv_Promotion := pr |}.

Definition boundExceededProvenance (origin : Origin) (originRepr : string) : Provenance :=
  origin_provenance origin originRepr "" {|
    pr_RequestedAuthority := ""; pr_Attempted := false; pr_AuthorizedPromoter := "";
    pr_EndorsementID := ""; pr_Continuity := ContinuityFailed; pr_DigestFailure := true |}.

Definition digest_broken (first : bool) (hop : Hop) (runningDigest runningHop : string) : bool :=
  ((runningDigest <>s? "") && (h_ParentDigest hop <>s? runningDigest)) ||
  ((runningHop <>s? "") && (h_ParentHopDigest hop <>s? runningHop)) ||
  (digest (h_Content hop) <>s? h_ContentDigest hop) ||
  (h_HopDigest hop <>s? hopDigest hop) ||
  (h_EndorsementValid hop && bool_decide (h_Endorsement hop = None)) ||
  (first && (h_ParentHopDigest hop <>s? h_ParentDigest hop)).

(** The provenance after one hop. *)
Definition fold_hop (first : bool) (prov : Provenance) (hop : Hop) (runningDigest runningHop : string) : Provenance :=
  let prov := beginHop prov hop runningDigest in
  if digest_broken first hop runningDigest runningHop then failed true prov
  else if pr_Continuity (pv_Promotion prov) =s? ContinuityFailed then prov
  else if h_RequestedAuthority hop =s? "" then prov
  else match grantFromHop prov hop with
  | Some prov => prov
  | None => failed false prov
  end.

(** The loop: the provenance and the authority before each hop. *)
Fixpoint fold_hops (first : bool) (prov : Provenance) (hops : list Hop) (runningDigest runningHop : string)
    : Provenance * list string :=
  match hops with
  | [] => (prov, [])
  | hop :: hops =>
      let prov' := fold_hop first prov hop runningDigest runningHop in
      let rd := if h_ContentDigest hop <>s? "" then h_ContentDigest hop else runningDigest in
      let rh := if h_HopDigest hop <>s? "" then h_HopDigest hop else hopDigest hop in
      let '(p, pre) := fold_hops false prov' hops rd rh in
      (p, pv_Authority prov :: pre)
  end.

Definition foldTrace (origin : Origin) (originRepr : string) (hops : list Hop) : Provenance * list string :=
  if (MaxHistoryHops <? length hops)%nat then (boundExceededProvenance origin originRepr, [])
  else fold_hops true (origin_provenance origin originRepr "" passPromotion) hops
         match hops with h :: _ => h_ParentDigest h | [] => "" end
         match hops with h :: _ => h_ParentHopDigest h | [] => "" end.

Definition fold (origin : Origin) (originRepr : string) (hops : list Hop) : Provenance :=
  fst (foldTrace origin originRepr hops).

(** ** Construction *)

Definition NewOriginObject (content : string) (origin : Origin) (representation effectClass : string)
    (instructionBearing : bool) : InstructionObject := {|
  io_SchemaVersion := SchemaVersion; io_Content := content; io_InstructionBearing := instructionBearing;
  io_EffectClass := effectClass;
  io_Provenance := origin_provenance origin representation (digest content) passPromotion;
  io_History := []; io_InstructionEligible := false |}.

(** The hop a transformation appends, its own digest left empty. *)
Definition hop_of (obj : InstructionObject) (t : Transform) (endorse : option Endorsement)
    (registry : gmap string TrustedPrincipal) : Hop :=
  let parentDigest := digest (io_Content obj) in
  let parentHop := match last (io_History obj) with Some h => h_HopDigest h | None => parentDigest end in
  let observedCeiling := match endorse with
    | Some e => match registry !! en_Promoter e with Some p => tp_Ceiling p | None => "" end
    | None => ""
    end in
  let contentDigest := digest (tf_NewContent t) in
  {| h_Derivation := {| dv_Transformer := tf_Transformer t;
                        dv_From := pv_CurrentRepresentation (io_Provenance obj);
                        dv_Via := tf_Via t; dv_To := tf_To t |};
     h_Content := tf_NewContent t; h_ContentDigest := contentDigest; h_ParentDigest := parentDigest;
     h_VisibleRole := tf_VisibleRole t; h_RequestedAuthority := tf_RequestedAuthority t;
     h_Endorsement := endorse;
     h_EndorsementValid := match endorse with
       | Some e => (tf_RequestedAuthority t <>s? "") &&
           validEndorsement e parentDigest (pv_Authority (io_Provenance obj)) contentDigest
             (tf_Transformer t) (tf_To t) (tf_RequestedAuthority t) registry
       | None => false
       end;
     h_ObservedCeiling := observedCeiling; h_ParentHopDigest := parentHop; h_HopDigest := "" |}.

Definition sealed (hop : Hop) : Hop := {|
  h_Derivation := h_Derivation hop; h_Content := h_Content hop; h_ContentDigest := h_ContentDigest hop;
  h_ParentDigest := h_ParentDigest hop; h_VisibleRole := h_VisibleRole hop;
  h_RequestedAuthority := h_RequestedAuthority hop; h_Endorsement := h_Endorsement hop;
  h_EndorsementValid := h_EndorsementValid hop; h_ObservedCeiling := h_ObservedCeiling hop;
  h_ParentHopDigest := h_ParentHopDigest hop; h_HopDigest := hopDigest hop |}.

Definition ApplyTransform (obj : InstructionObject) (t : Transform) (endorse : option Endorsement)
    (registry : gmap string TrustedPrincipal) : InstructionObject :=
  if (MaxHistoryHops <? length (io_History obj))%nat then obj
  else
    let history := io_History obj ++ [sealed (hop_of obj t endorse registry)] in
    {| io_SchemaVersion := io_SchemaVersion obj; io_Content := tf_NewContent t;
       io_InstructionBearing := io_InstructionBearing obj; io_EffectClass := io_EffectClass obj;
       io_Provenance := fold (pv_Origin (io_Provenance obj)) (pv_CurrentRepresentation (io_Provenance obj)) history;
       io_History := history; io_InstructionEligible := false |}.

(** ** Decision *)

Definition contentChainBroken (root : EvaluationRoot) (content : string) (hops : list Hop) : bool :=
  if rt_ContentSHA256 root =s? "" then true
  else match hops, last hops with
  | h :: _, Some l =>
      if (h_ParentDigest h <>s? rt_ContentSHA256 root) || (h_ParentHopDigest h <>s? rt_ContentSHA256 root) then true
      else digest content <>s? h_ContentDigest l
  | _, _ => digest content <>s? rt_ContentSHA256 root
  end.

Definition derivedProvenance (obj : InstructionObject) (root : EvaluationRoot) : Provenance :=
  if (MaxHistoryHops <? length (io_History obj))%nat then boundExceededProvenance (rt_Origin root) ""
  else
    let p := match io_History obj with
      | [] => origin_provenance (rt_Origin root) "" (rt_ContentSHA256 root) passPromotion
      | h :: _ => fold (rt_Origin root) (dv_From (h_Derivation h)) (io_History obj)
      end in
    if contentChainBroken root (io_Content obj) (io_History obj) then failed true p else p.

Definition decide_authority (p : Provenance) (root : EvaluationRoot) : bool * string :=
  if negb (rt_InstructionBearing root) then (false, "not instruction-bearing content")
  else if pr_DigestFailure (pv_Promotion p) then (false, "digest linkage broken")
  else if pr_Continuity (pv_Promotion p) =s? ContinuityFailed then
    (false, if pr_Attempted (pv_Promotion p) then "authority-expanding instruction" else "continuity FAILED")
  else match authorityRank (pv_Authority p) with
  | None => (false, "unknown authority")
  | Some rank => if rank <? 1 then (false, "insufficient authority") else (true, "authorized")
  end.

Definition reasonHistoryExceedsBound : string := "history exceeds bound".

Definition Authorize (obj : InstructionObject) (root : EvaluationRoot) : bool * string :=
  if (MaxHistoryHops <? length (io_History obj))%nat then (false, reasonHistoryExceedsBound)
  else decide_authority (derivedProvenance obj root) root.

(** ** Verification *)

#[global] Instance origin_eq_dec : EqDecision Origin.
Proof. solve_decision. Defined.
#[global] Instance derivation_eq_dec : EqDecision Derivation.
Proof. solve_decision. Defined.
#[global] Instance promotion_eq_dec : EqDecision Promotion.
Proof. solve_decision. Defined.
#[global] Instance provenance_eq_dec : EqDecision Provenance.
Proof. solve_decision. Defined.

Definition provenanceEqual (a b : Provenance) : bool := bool_decide (a = b).

(** The checks of one hop before the fold. *)
Definition verify_hop (i : nat) (hop : Hop) : error :=
  let n := Itoa (Z.of_nat i) in
  fail_if (h_EndorsementValid hop && bool_decide (h_Endorsement hop = None))
    ("hop " +:+ n +:+ " claims a valid endorsement without an endorsement") ;;?
  fail_if (digest (h_Content hop) <>s? h_ContentDigest hop)
    ("hop " +:+ n +:+ " content does not match content digest") ;;?
  fail_if (h_HopDigest hop <>s? hopDigest hop) ("hop " +:+ n +:+ " hop digest mismatch").

(** One hop of the registry cross-check, with the authority before it. *)
Definition cross_check (registry : gmap string TrustedPrincipal) (i : nat) (x : Hop * string) : error :=
  let '(hop, pre) := x in
  match h_Endorsement hop with
  | None => fail_if (h_EndorsementValid hop)
      ("hop " +:+ Itoa (Z.of_nat i) +:+ " claims a valid endorsement without an endorsement")
  | Some e =>
      fail_if (negb (Bool.eqb (validEndorsement e (h_ParentDigest hop) pre (h_ContentDigest hop)
                 (dv_Transformer (h_Derivation hop)) (dv_To (h_Derivation hop)) (h_RequestedAuthority hop) registry)
                 (h_EndorsementValid hop)))
        ("hop " +:+ Itoa (Z.of_nat i) +:+ " endorsement verdict disagrees with registry")
  end.

Definition VerifyProvenance (obj : InstructionObject) (root : EvaluationRoot)
    (registry : gmap string TrustedPrincipal) : error :=
  fail_if (MaxHistoryHops <? length (io_History obj))%nat "history exceeds 8 hops" ;;?
  match io_History obj with
  | [] =>
      fail_if ((rt_ContentSHA256 root =s? "") || (digest (io_Content obj) <>s? rt_ContentSHA256 root))
        "content does not match evaluation root" ;;?
      fail_if (negb (provenanceEqual
        (origin_provenance (rt_Origin root) (pv_CurrentRepresentation (io_Provenance obj))
           (rt_ContentSHA256 root) passPromotion) (io_Provenance obj))) "origin provenance mismatch"
  | h :: _ =>
      fail_if (contentChainBroken root (io_Content obj) (io_History obj))
        "content chain does not match evaluation root" ;;?
      each_err_i verify_hop 0 (io_History obj) ;;?
      let '(fresh, preAuthority) := foldTrace (rt_Origin root) (dv_From (h_Derivation h)) (io_History obj) in
      fail_if (pr_DigestFailure (pv_Promotion fresh)) "digest chain broken" ;;?
      fail_if (negb (provenanceEqual fresh (io_Provenance obj))) "provenance does not match history" ;;?
      each_err_i (cross_check registry) 0 (zip (io_History obj) preAuthority) ;;?
      let want := match last (io_History obj) with Some l => h_ContentDigest l | None => rt_ContentSHA256 root end in
      fail_if (pv_ContentSHA256 (io_Provenance obj) <>s? want) "content digest does not match history" ;;?
      fail_if (digest (io_Content obj) <>s? want) "content does not match digest chain"
  end.

(** ** Evidence *)

Definition describeOrigin (o : Origin) : string :=
  if o_TrustClass o =s? TrustUntrustedMCPResponse then "untrusted MCP response"
  else if o_TrustClass o =s? TrustTrustedUser then "trusted user"
  else if o_TrustClass o =s? TrustTrustedDeveloper then "trusted developer"
  else if o_TrustClass o =s? TrustTrustedSystem then "trusted system"
  else o_Principal o +:+ " (" +:+ o_TrustClass o +:+ ")".

(** [strings.Join] *)
Fixpoint join (sep : string) (l : list string) : string :=
  match l with
  | [] => ""
  | [s] => s
  | s :: l => s +:+ sep +:+ join sep l
  end.

Definition DenyEvidence (obj : InstructionObject) (root : EvaluationRoot) : list string :=
  let '(p, denyReason) :=
    if (MaxHistoryHops <? length (io_History obj))%nat
    then (boundExceededProvenance (rt_Origin root) "", reasonHistoryExceedsBound)
    else let p := derivedProvenance obj root in
         let r := snd (decide_authority p root) in
         (p, if r =s? "authorized" then "insufficient authority" else r) in
  let from := match last (pv_Lineage p) with Some a => a | None => pv_Authority p end in
  let pr := pv_Promotion p in
  let to := if pr_RequestedAuthority pr <>s? "" then pr_RequestedAuthority pr else pv_Authority p in
  ["policy_decision=deny  policy_rule=instruction_authority_continuity";
   "reason=" +:+ denyReason;
   "argument class " +:+ (if rt_InstructionBearing root then "INSTRUCTION" else "DATA") +:+
     "  effect class " +:+ rt_EffectClass root;
   "visible role " +:+ pv_VisibleRole p +:+ "  original principal " +:+ describeOrigin (pv_Origin p);
   "authority transition " +:+ from +:+ "->" +:+ to;
   "lineage " +:+ join "->" (pv_Lineage p);
   "attempted promotion " +:+ (if pr_Attempted pr then "YES" else "NO") +:+ "  authorized promoter " +:+
     (if pr_AuthorizedPromoter pr =s? "" then "NONE" else pr_AuthorizedPromoter pr);
   "continuity " +:+ pr_Continuity pr;
   "observation preserved  authority " +:+ pv_Authority p;
   "result NOT_EXECUTED"].
End authority.
