(* ===== verification/InstructionAuthoritySpec.v ===== *)
(** What [Authorize] and [VerifyProvenance] promise: authority is the trust
    ceiling of the origin except where an endorsement raised it, the log is
    one unbroken transcript from the held root to the content, and the objects
    [ApplyTransform] builds verify. *)
From stdpp Require Import base strings gmap list.
From Stdlib Require Import ZArith Lia Ascii.
From S2P Require Import Prelude GoStrings GoLib Ownership InstructionAuthority.
#[local] Open Scope Z_scope.

Section spec.
Context `{GoCrypto}.

(** ** The transcript *)

(** The hops form one chain from the parent digests [pd] and [ph]. *)
Fixpoint intact (pd ph : string) (hops : list Hop) : Prop :=
  match hops with
  | [] => True
  | h :: hops =>
      h_ParentDigest h = pd /\ h_ParentHopDigest h = ph /\
      h_ContentDigest h = digest (h_Content h) /\ h_HopDigest h = hopDigest h /\
      (h_EndorsementValid h = true -> is_Some (h_Endorsement h)) /\
      intact (h_ContentDigest h) (h_HopDigest h) hops
  end.

(** A hop that asks for authority carries an endorsement recorded as valid
    that grants it, within the ceiling of the promoter. *)
Definition backed (h : Hop) : Prop :=
  h_RequestedAuthority h <> "" ->
  exists e g c, h_Endorsement h = Some e /\ h_EndorsementValid h = true /\
    en_GrantAuthority e = h_RequestedAuthority h /\ authorityRank (en_GrantAuthority e) = Some g /\
    authorityRank (h_ObservedCeiling h) = Some c /\ g <= c.

Definition authority_of (a : string) (hops : list Hop) : string :=
  foldl (fun a h => if h_RequestedAuthority h =s? "" then a else h_RequestedAuthority h) a hops.

(** The digest the content must have. *)
Definition final_digest (root : string) (hops : list Hop) : string :=
  match last hops with Some h => h_ContentDigest h | None => root end.

(** ** The fold *)

Definition good (p : Provenance) : Prop :=
  pr_DigestFailure (pv_Promotion p) = false /\ pr_Continuity (pv_Promotion p) <> ContinuityFailed.

Lemma digest_nonempty s : digest s <> "".
Proof. discriminate. Qed.
Lemma hopDigest_nonempty h : hopDigest h <> "".
Proof. discriminate. Qed.

Lemma broken_iff first hop rd rh :
  rd <> "" -> rh <> "" -> (first = true -> rd = rh) ->
  digest_broken first hop rd rh = false <->
  h_ParentDigest hop = rd /\ h_ParentHopDigest hop = rh /\ h_ContentDigest hop = digest (h_Content hop) /\
  h_HopDigest hop = hopDigest hop /\ (h_EndorsementValid hop = true -> is_Some (h_Endorsement hop)).
Proof.
  intros Hd Hh Hf. unfold digest_broken. rewrite !orb_false_iff, !andb_false_iff, !str_neqb_false, bool_decide_eq_false.
  rewrite <-not_eq_None_Some. split.
  - intros (((((Ed & Eh) & Ec) & Ex) & Ev) & _). split_and!; try done.
    + destruct Ed; [done|congruence].
    + destruct Eh; [done|congruence].
    + intros ?. destruct Ev; [congruence|done].
  - intros (Ed & Eh & Ec & Ex & Ev). split_and!; auto.
    + destruct (h_EndorsementValid hop); [right; auto|by left].
    + destruct first; [right|by left]. rewrite Ed, Eh. symmetry. auto.
Qed.

Lemma beginHop_keeps prov hop rd :
  pv_Authority (beginHop prov hop rd) = pv_Authority prov /\
  pr_Continuity (pv_Promotion (beginHop prov hop rd)) = pr_Continuity (pv_Promotion prov) /\
  pr_DigestFailure (pv_Promotion (beginHop prov hop rd)) = pr_DigestFailure (pv_Promotion prov).
Proof. unfold beginHop. cbn. by destruct (negb _). Qed.

Lemma grantFromHop_Some prov hop :
  h_RequestedAuthority hop <> "" ->
  match grantFromHop prov hop with
  | Some p => backed hop /\ exists e, h_Endorsement hop = Some e /\ p = granted prov e /\
      en_GrantAuthority e = h_RequestedAuthority hop
  | None => ~ backed hop
  end.
Proof.
  intros Hr. unfold grantFromHop, backed. destruct (h_Endorsement hop) as [e|]; [|by intros Hb; destruct (Hb Hr) as (? & ? & ? & ? & _)].
  destruct (h_EndorsementValid hop); cbn [negb]; [|by intros Hb; destruct (Hb Hr) as (? & ? & ? & ? & ? & _)].
  destruct (en_GrantAuthority e =? h_RequestedAuthority hop)%string eqn:Eg; bools; cbn [negb].
  2: { intros Hb. destruct (Hb Hr) as (? & ? & ? & [= <-] & _ & ? & _). congruence. }
  destruct (authorityRank (en_GrantAuthority e)) as [g|] eqn:E1.
  2: { intros Hb. destruct (Hb Hr) as (? & ? & ? & [= <-] & _ & _ & ? & _). congruence. }
  destruct (authorityRank (h_ObservedCeiling hop)) as [c|] eqn:E2.
  2: { intros Hb. by destruct (Hb Hr) as (? & ? & ? & [= <-] & _ & _ & _ & ? & _). }
  destruct (c <? g) eqn:E; bools.
  - intros Hb. destruct (Hb Hr) as (? & ? & ? & [= <-] & _ & _ & E1' & [= <-] & ?).
    rewrite E1 in E1'. simplify_eq. lia.
  - split; [|by exists e]. intros _. by exists e, g, c.
Qed.

(** One hop from a good state. *)
Lemma fold_hop_good first prov hop rd rh :
  good prov ->
  let p := fold_hop first prov hop rd rh in
  (good p <-> digest_broken first hop rd rh = false /\ backed hop) /\
  (good p -> pv_Authority p = authority_of (pv_Authority prov) [hop]) /\
  (~ good p -> pr_Continuity (pv_Promotion p) = ContinuityFailed).
Proof.
  intros [Hd Hc] p. unfold p, fold_hop. destruct (beginHop_keeps prov hop rd) as (Ea & Ec & Ed).
  set (b := beginHop prov hop rd) in *. clearbody b. rewrite Ec.
  assert (good b) as Hb by (split; congruence).
  destruct (digest_broken first hop rd rh).
  { assert (~ good (failed true b)) as Hn by (intros [? _]; done).
    split; [split; [done|by intros []]|]. split; [done|done]. }
  assert ((pr_Continuity (pv_Promotion prov) =s? ContinuityFailed) = false) as -> by by apply str_eqb_false.
  unfold authority_of. cbn [foldl].
  destruct (h_RequestedAuthority hop =? "")%string eqn:Er; bools.
  { split; [|split; [done|by intros []]]. split; [|done]. intros _. split; [done|]. by intros ?. }
  pose proof (grantFromHop_Some b hop Er) as Hg. destruct (grantFromHop b hop) as [p'|].
  - destruct Hg as (Hk & e & _ & -> & Eg).
    assert (good (granted b e)) as Hgood by (destruct Hb; split; done).
    split; [done|]. split; [by intros _|by intros []].
  - assert (~ good (failed false b)) as Hn by (intros [_ ?]; done).
    split; [split; [done|by intros [_ ?]]|]. split; [done|done].
Qed.

Lemma fold_hop_sticky first prov hop rd rh :
  pr_Continuity (pv_Promotion prov) = ContinuityFailed ->
  pr_Continuity (pv_Promotion (fold_hop first prov hop rd rh)) = ContinuityFailed.
Proof.
  intros Hc. unfold fold_hop. destruct (beginHop_keeps prov hop rd) as (_ & Ec & _).
  destruct (digest_broken _ _ _ _); [done|]. rewrite Ec, Hc, str_eqb_refl. congruence.
Qed.

Lemma fold_hops_sticky hops : forall first prov rd rh,
  pr_Continuity (pv_Promotion prov) = ContinuityFailed ->
  pr_Continuity (pv_Promotion (fst (fold_hops first prov hops rd rh))) = ContinuityFailed.
Proof.
  induction hops as [|h hops IH]; intros first prov rd rh Hc; [done|]. cbn [fold_hops].
  pose proof (IH false (fold_hop first prov h rd rh)
    (if h_ContentDigest h <>s? "" then h_ContentDigest h else rd)
    (if h_HopDigest h <>s? "" then h_HopDigest h else hopDigest h) (fold_hop_sticky first prov h rd rh Hc)) as Hs.
  destruct (fold_hops false _ hops _ _). exact Hs.
Qed.

Lemma fold_hops_good hops : forall first prov rd rh,
  good prov -> rd <> "" -> rh <> "" -> (first = true -> rd = rh) ->
  let p := fst (fold_hops first prov hops rd rh) in
  (good p <-> intact rd rh hops /\ Forall backed hops) /\
  (good p -> pv_Authority p = authority_of (pv_Authority prov) hops).
Proof.
  induction hops as [|h hops IH]; intros first prov rd rh Hg Hd Hh Hf.
  { cbn. split; [|done]. split; [|done]. intros _. split; [done|constructor]. }
  cbn [fold_hops intact]. rewrite Forall_cons.
  destruct (fold_hop_good first prov h rd rh Hg) as (Hi & Ha & Hs).
  rewrite (broken_iff first h rd rh Hd Hh Hf) in Hi.
  set (p1 := fold_hop first prov h rd rh) in *.
  assert (forall rd rh, fst (let '(p, pre) := fold_hops false p1 hops rd rh in (p, pv_Authority prov :: pre)) =
    fst (fold_hops false p1 hops rd rh)) as -> by (intros; by destruct (fold_hops _ _ _ _ _)).
  destruct (decide (pr_DigestFailure (pv_Promotion p1) = false /\ pr_Continuity (pv_Promotion p1) <> ContinuityFailed))
    as [Hg1|Hg1]; fold (good p1) in Hg1.
  - destruct (proj1 Hi Hg1) as ((Ed & Eh & Ec & Ex & Ev) & Hb).
    assert ((h_ContentDigest h <>s? "") = true) as -> by (apply str_neqb_true; rewrite Ec; apply digest_nonempty).
    assert ((h_HopDigest h <>s? "") = true) as -> by (apply str_neqb_true; rewrite Ex; apply hopDigest_nonempty).
    destruct (IH false p1 (h_ContentDigest h) (h_HopDigest h)) as [IH1 IH2]; [done| | |done|].
    { rewrite Ec. apply digest_nonempty. } { rewrite Ex. apply hopDigest_nonempty. }
    cbv zeta. rewrite IH1. split; [tauto|]. intros Hgp. rewrite <-IH1 in Hgp. rewrite IH2, Ha by done. done.
  - pose proof (Hs Hg1) as Hc.
    match goal with |- context [fold_hops false p1 hops ?a ?b] =>
      pose proof (fold_hops_sticky hops false p1 a b Hc) as Hcf end.
    split; [|by intros [_ ?]]. split; [by intros [_ ?]|]. intros (? & ? & ?). destruct Hg1. apply Hi. tauto.
Qed.

Lemma Authorize_true (obj : InstructionObject) (root : EvaluationRoot) :
  fst (Authorize obj root) = true <->
  rt_InstructionBearing root = true /\
  (length (io_History obj) <= MaxHistoryHops)%nat /\
  rt_ContentSHA256 root <> "" /\
  intact (rt_ContentSHA256 root) (rt_ContentSHA256 root) (io_History obj) /\
  digest (io_Content obj) = final_digest (rt_ContentSHA256 root) (io_History obj) /\
  Forall backed (io_History obj) /\
  exists r, authorityRank (authority_of (ceilingForTrust (o_TrustClass (rt_Origin root))) (io_History obj)) = Some r /\
    1 <= r.
Proof.
  assert (forall p, fst (decide_authority p root) = true <-> rt_InstructionBearing root = true /\ good p /\
    exists r, authorityRank (pv_Authority p) = Some r /\ 1 <= r) as Hdec.
  { intros p. unfold decide_authority, good. destruct (rt_InstructionBearing root); cbn [negb]; [|naive_solver].
    destruct (pr_DigestFailure _); [naive_solver|].
    destruct (pr_Continuity _ =? ContinuityFailed)%string eqn:Ec; bools; [naive_solver|].
    destruct (authorityRank (pv_Authority p)) as [r|]; [|naive_solver].
    destruct (r <? 1) eqn:Er; bools; cbn; [|naive_solver]. split; [done|]. intros (_ & _ & ? & [= <-] & ?). lia. }
  unfold Authorize, derivedProvenance.
  destruct (MaxHistoryHops <? length (io_History obj))%nat eqn:El; bools; [split; [done|intros (_ & ? & _); lia]|].
  rewrite Hdec. clear Hdec. apply and_iff_compat_l.
  assert (forall p, ~ good (failed true p)) as Hbad by (intros p [_ ?]; done).
  unfold contentChainBroken, final_digest.
  destruct (rt_ContentSHA256 root =? "")%string eqn:Er; bools; [naive_solver|].
  destruct (io_History obj) as [|h hops] eqn:Eh.
  - cbn [last]. destruct (digest (io_Content obj) =? rt_ContentSHA256 root)%string eqn:Ed; bools; cbn [negb]; [|naive_solver].
    assert (good (origin_provenance (rt_Origin root) "" (rt_ContentSHA256 root) passPromotion)) by done.
    cbn. split; [intros [_ ?]; split_and!; try done; constructor|]. naive_solver.
  - rewrite <-Eh in *. destruct (last (io_History obj)) as [l|] eqn:Ell; [|rewrite Eh in Ell; by apply last_None in Ell].
    assert (fold (rt_Origin root) (dv_From (h_Derivation h)) (io_History obj) =
      fst (fold_hops true (origin_provenance (rt_Origin root) (dv_From (h_Derivation h)) "" passPromotion)
        (io_History obj) (h_ParentDigest h) (h_ParentHopDigest h))) as Ef.
    { unfold fold, foldTrace. by rewrite (proj2 (Nat.ltb_ge _ _) El), Eh. }
    destruct ((h_ParentDigest h =? rt_ContentSHA256 root)%string) eqn:E1; bools; cbn [negb orb].
    2: { split; [naive_solver|]. intros (_ & _ & Hi & _). rewrite Eh in Hi. destruct Hi. congruence. }
    destruct ((h_ParentHopDigest h =? rt_ContentSHA256 root)%string) eqn:E2; bools; cbn [negb orb].
    2: { split; [naive_solver|]. intros (_ & _ & Hi & _). rewrite Eh in Hi. destruct Hi as (_ & ? & _). congruence. }
    rewrite Ef, E1, E2.
    destruct (fold_hops_good (io_History obj) true
      (origin_provenance (rt_Origin root) (dv_From (h_Derivation h)) "" passPromotion)
      (rt_ContentSHA256 root) (rt_ContentSHA256 root)) as [Hg Ha]; [done..|].
    cbn in Ha. set (p := fst (fold_hops _ _ _ _ _)) in *. clearbody p.
    destruct (digest (io_Content obj) =? h_ContentDigest l)%string eqn:E3; bools; cbn [negb]; [|naive_solver].
    rewrite Hg. split.
    + intros ([Hi Hb] & r & Hr & ?). split_and!; try done. exists r. rewrite <-Ha by tauto. done.
    + intros (_ & _ & Hi & _ & Hb & r & Hr & ?). split; [done|]. exists r. rewrite Ha by tauto. done.
Qed.

(** C22.  [Authorize] lets an object execute exactly when its log is within
    the bound and forms one unbroken transcript from the held root digest to
    its content, every promotion asked for on the way is backed by a recorded
    endorsement within its promoter's ceiling, and the authority that results
    from the origin's trust ceiling and those promotions is at least USER.
    What the object says of its own origin, bearing, provenance or
    eligibility plays no part. *)
Theorem Authorize_iff (obj : InstructionObject) (root : EvaluationRoot) :
  fst (Authorize obj root) = true <->
  rt_InstructionBearing root = true /\
  (length (io_History obj) <= MaxHistoryHops)%nat /\
  rt_ContentSHA256 root <> "" /\
  intact (rt_ContentSHA256 root) (rt_ContentSHA256 root) (io_History obj) /\
  digest (io_Content obj) = final_digest (rt_ContentSHA256 root) (io_History obj) /\
  Forall backed (io_History obj) /\
  exists r, authorityRank (authority_of (ceilingForTrust (o_TrustClass (rt_Origin root))) (io_History obj)) = Some r /\
    1 <= r.
Proof. apply Authorize_true. Qed.

(** ** Verified objects *)

(** Follow the [else] branches of a chain of guards that return false. *)
#[local] Ltac pass Hv := repeat match type of Hv with (if ?b then false else _) = true =>
  let E := fresh "E" in destruct b eqn:E; [discriminate Hv|] end.

Lemma validEndorsement_true e pd pa cd tr to rq registry :
  validEndorsement e pd pa cd tr to rq registry = true ->
  exists p g c i, registry !! en_Promoter e = Some p /\ en_GrantAuthority e = rq /\
    authorityRank (en_GrantAuthority e) = Some g /\ authorityRank (tp_Ceiling p) = Some c /\
    authorityRank pa = Some i /\ g <= c /\ i < g.
Proof.
  unfold validEndorsement. intros Hv.
  pass Hv. destruct (registry !! en_Promoter e) as [p|] eqn:Ep; [|done]. pass Hv.
  destruct (authorityRank (en_GrantAuthority e)) as [g|] eqn:Eg; [|done].
  destruct (authorityRank (tp_Ceiling p)) as [c|] eqn:Ec; [|done].
  destruct (authorityRank pa) as [i|] eqn:Ei; [|done]. pass Hv.
  exists p, g, c, i. bools. split_and!; done || lia.
Qed.

(** A registered principal raised the authority of [a] to [a']: one of the
    hops carries its endorsement, and it stands above both. *)
Definition raised (registry : gmap string TrustedPrincipal) (hops : list Hop) (a a' : string) : Prop :=
  exists hop e p g c i, In hop hops /\ h_Endorsement hop = Some e /\ registry !! en_Promoter e = Some p /\
    en_GrantAuthority e = a' /\ authorityRank a' = Some g /\ authorityRank (tp_Ceiling p) = Some c /\
    authorityRank a = Some i /\ g <= c /\ i < g.

Lemma fold_hop_authority first prov hop rd rh registry n :
  cross_check registry n (hop, pv_Authority prov) = None ->
  let a' := pv_Authority (fold_hop first prov hop rd rh) in
  a' = pv_Authority prov \/ raised registry [hop] (pv_Authority prov) a'.
Proof.
  intros Hc. unfold fold_hop. destruct (beginHop_keeps prov hop rd) as (Ea & _ & _).
  destruct (digest_broken _ _ _ _); [by left|]. destruct (_ =? ContinuityFailed)%string; [by left|].
  destruct (h_RequestedAuthority hop =? "")%string eqn:Er; bools; [by left|].
  pose proof (grantFromHop_Some (beginHop prov hop rd) hop Er) as Hg.
  destruct (grantFromHop _ hop) as [p|]; [|by left]. destruct Hg as (Hb & e & Ee & -> & Eg). cbn.
  destruct (Hb Er) as (e' & _ & _ & E' & Hv & _). rewrite Ee in E'. injection E' as <-.
  unfold cross_check in Hc. rewrite Ee, Hv in Hc. apply fail_if_None in Hc.
  apply negb_false_iff, eqb_prop in Hc.
  apply validEndorsement_true in Hc as (p & g & c & i & ? & ? & ? & ? & ? & ? & ?).
  right. exists hop, e, p, g, c, i. split_and!; try done. by left.
Qed.

Lemma fold_hops_authority registry hops : forall first prov rd rh n,
  each_err_i (cross_check registry) n (zip hops (snd (fold_hops first prov hops rd rh))) = None ->
  let a' := pv_Authority (fst (fold_hops first prov hops rd rh)) in
  a' = pv_Authority prov \/ raised registry hops (pv_Authority prov) a'.
Proof.
  induction hops as [|h hops IH]; intros first prov rd rh n; [by left|]. cbn [fold_hops].
  set (rd' := if _ : bool then h_ContentDigest h else rd). set (rh' := if _ : bool then h_HopDigest h else _).
  specialize (IH false (fold_hop first prov h rd rh) rd' rh' (S n)).
  pose proof (fold_hop_authority first prov h rd rh registry n) as Hh.
  destruct (fold_hops false _ hops rd' rh') as [p pre]. cbn in *.
  intros Hc. destruct (match h_Endorsement h with Some _ => _ | None => _ end) eqn:E1; [done|].
  specialize (IH Hc). specialize (Hh eq_refl).
  assert (forall a, raised registry hops a (pv_Authority p) -> raised registry (h :: hops) a (pv_Authority p)) as Hmono.
  { intros a (hop & e & q & g & c & i & Hin & Hr). exists hop, e, q, g, c, i. split; [by right|done]. }
  destruct IH as [->|Hr]; destruct Hh as [Eh|Hr'].
  - by left.
  - right. destruct Hr' as (hop & e & q & g & c & i & [<-|[]] & Hr'). exists h, e, q, g, c, i. split; [by left|done].
  - right. rewrite Eh in Hr. by apply Hmono.
  - right. destruct Hr as (hop & e & q & g & c & i & Hin & ? & ? & ? & ? & ? & Ei & ? & ?).
    destruct Hr' as (? & ? & ? & g' & ? & i' & ? & ? & ? & ? & Eg' & ? & ? & ? & ?).
    exists hop, e, q, g, c, i'. rewrite Ei in Eg'. injection Eg' as ->. split_and!; try done; [by right|lia].
Qed.

(** An object that verifies against a held root and the live registry
    claims no authority of its own: the authority in its provenance is the
    trust ceiling of the root's origin, or a promoter in the registry, whose
    ceiling reaches it, endorsed one of its hops for exactly that authority,
    which is above the origin's.  Its provenance is the fold of its log from
    the root's origin, and its content is that of the log. *)
Theorem VerifyProvenance_authority (obj : InstructionObject) (root : EvaluationRoot)
    (registry : gmap string TrustedPrincipal) (Hv : VerifyProvenance obj root registry = None) :
  let a := pv_Authority (io_Provenance obj) in
  let c := ceilingForTrust (o_TrustClass (rt_Origin root)) in
  (a = c \/ raised registry (io_History obj) c a) /\
  (length (io_History obj) <= MaxHistoryHops)%nat /\
  digest (io_Content obj) = final_digest (rt_ContentSHA256 root) (io_History obj) /\
  forall h, head (io_History obj) = Some h ->
    io_Provenance obj = fold (rt_Origin root) (dv_From (h_Derivation h)) (io_History obj).
Proof.
  cbv zeta. unfold VerifyProvenance in Hv. rewrite err_then_None, fail_if_None in Hv. destruct Hv as [Hl Hv]. bools.
  unfold final_digest. destruct (io_History obj) as [|h hops] eqn:Eh.
  - rewrite err_then_None, !fail_if_None in Hv. destruct Hv as [Hd Hp]. bools.
    apply bool_decide_eq_true in Hp. rewrite <-Hp. split_and!; [by left|done|done|by intros ?].
  - rewrite <-Eh in *. rewrite !err_then_None in Hv. destruct Hv as (_ & _ & Hv).
    unfold fold. pose proof (fold_hops_authority registry (io_History obj) true
      (origin_provenance (rt_Origin root) (dv_From (h_Derivation h)) "" passPromotion)
      (h_ParentDigest h) (h_ParentHopDigest h) 0) as Ha.
    assert (foldTrace (rt_Origin root) (dv_From (h_Derivation h)) (io_History obj) =
      fold_hops true (origin_provenance (rt_Origin root) (dv_From (h_Derivation h)) "" passPromotion)
        (io_History obj) (h_ParentDigest h) (h_ParentHopDigest h)) as Ef.
    { unfold foldTrace. by rewrite (proj2 (Nat.ltb_ge _ _) Hl), Eh. }
    rewrite Ef in Hv. rewrite Eh. cbn [head]. rewrite <-Eh. setoid_rewrite Ef || rewrite Ef || idtac.
    destruct (fold_hops true _ (io_History obj) _ _) as [fresh pre] eqn:Efold. cbn [fst snd] in *.
    rewrite !err_then_None, !fail_if_None in Hv. destruct Hv as (_ & Hp & Hc & _ & Hd). bools.
    apply bool_decide_eq_true in Hp. rewrite <-Hp. split_and!; [by apply Ha|done|done|].
    intros ? [= <-]. by rewrite Ef.
Qed.

(** ** Objects built by the code verify *)

Definition final_hop (root : string) (hops : list Hop) : string :=
  match last hops with Some h => h_HopDigest h | None => root end.

Lemma final_digest_cons pd h hops : final_digest pd (h :: hops) = final_digest (h_ContentDigest h) hops.
Proof. unfold final_digest. destruct hops as [|h' hops]; [done|]. rewrite last_cons_cons. by destruct (last_is_Some (h' :: hops)) as [_ [? ->]]. Qed.
Lemma final_hop_cons ph h hops : final_hop ph (h :: hops) = final_hop (h_HopDigest h) hops.
Proof. unfold final_hop. destruct hops as [|h' hops]; [done|]. rewrite last_cons_cons. by destruct (last_is_Some (h' :: hops)) as [_ [? ->]]. Qed.

Lemma intact_snoc hops h : forall pd ph,
  intact pd ph (hops ++ [h]) <->
  intact pd ph hops /\ intact (final_digest pd hops) (final_hop ph hops) [h].
Proof.
  induction hops as [|h' hops IH]; intros pd ph; cbn [app intact]; [tauto|].
  rewrite IH, final_digest_cons, final_hop_cons. cbn [intact]. tauto.
Qed.

Lemma fold_hops_snoc hops h : forall first prov rd rh,
  intact rd rh hops ->
  fold_hops first prov (hops ++ [h]) rd rh =
  let '(p, pre) := fold_hops first prov hops rd rh in
  (fold_hop (first && (length hops =? 0)%nat) p h (final_digest rd hops) (final_hop rh hops),
   pre ++ [pv_Authority p]).
Proof.
  induction hops as [|h' hops IH]; intros first prov rd rh Hi.
  { cbn. by rewrite andb_true_r. }
  cbn [app fold_hops]. destruct Hi as (_ & _ & Ec & Ex & _ & Hi).
  assert ((h_ContentDigest h' <>s? "") = true) as -> by (apply str_neqb_true; rewrite Ec; apply digest_nonempty).
  assert ((h_HopDigest h' <>s? "") = true) as -> by (apply str_neqb_true; rewrite Ex; apply hopDigest_nonempty).
  rewrite IH, final_digest_cons, final_hop_cons by done.
  destruct (fold_hops false _ hops _ _) as [p pre]. cbn. by rewrite andb_false_r.
Qed.

(** No break, no digest failure, whatever becomes of the promotions. *)
Lemma fold_hops_digest hops : forall first prov rd rh,
  rd <> "" -> rh <> "" -> (first = true -> rd = rh) -> intact rd rh hops ->
  pr_DigestFailure (pv_Promotion prov) = false ->
  pr_DigestFailure (pv_Promotion (fst (fold_hops first prov hops rd rh))) = false.
Proof.
  induction hops as [|h hops IH]; intros first prov rd rh Hd Hh Hf Hi Hp; [done|]. cbn [fold_hops].
  destruct Hi as (Ed & Eh & Ec & Ex & Ev & Hi).
  assert ((h_ContentDigest h <>s? "") = true) as -> by (apply str_neqb_true; rewrite Ec; apply digest_nonempty).
  assert ((h_HopDigest h <>s? "") = true) as -> by (apply str_neqb_true; rewrite Ex; apply hopDigest_nonempty).
  specialize (IH false (fold_hop first prov h rd rh) (h_ContentDigest h) (h_HopDigest h)).
  destruct (fold_hops false _ hops _ _) as [p pre]. cbn in *. apply IH; try done.
  { rewrite Ec. apply digest_nonempty. } { rewrite Ex. apply hopDigest_nonempty. }
  unfold fold_hop. destruct (beginHop_keeps prov h rd) as (_ & _ & E).
  rewrite (proj2 (broken_iff first h rd rh Hd Hh Hf)) by done.
  destruct (_ =? ContinuityFailed)%string; [by rewrite E|].
  destruct (_ =? "")%string eqn:Er; [by rewrite E|]. apply str_eqb_false in Er.
  pose proof (grantFromHop_Some (beginHop prov h rd) h Er) as Hg.
  destruct (grantFromHop _ h); [|exact (eq_trans E Hp)]. destruct Hg as (_ & e & _ & -> & _). exact (eq_trans E Hp).
Qed.

Lemma fold_hops_origin hops : forall first prov rd rh,
  pv_Origin (fst (fold_hops first prov hops rd rh)) = pv_Origin prov.
Proof.
  induction hops as [|h hops IH]; intros first prov rd rh; [done|]. cbn [fold_hops].
  match goal with |- context [fold_hops false ?p hops ?a ?b] => specialize (IH false p a b) end.
  destruct (fold_hops false _ hops _ _) as [p pre]. cbn in *. rewrite IH. unfold fold_hop.
  destruct (digest_broken _ _ _ _); [done|]. destruct (_ =? ContinuityFailed)%string; [done|].
  destruct (_ =? "")%string eqn:Er; [done|]. apply str_eqb_false in Er.
  pose proof (grantFromHop_Some (beginHop prov h rd) h Er) as Hg.
  destruct (grantFromHop _ h); [|done]. by destruct Hg as (_ & e & _ & -> & _).
Qed.

(** The fold from a held root; the representation it starts from is
    overwritten by the first hop. *)
Definition root_fold (root : EvaluationRoot) (hops : list Hop) : Provenance * list string :=
  fold_hops true (origin_provenance (rt_Origin root) "" "" passPromotion) hops
    (rt_ContentSHA256 root) (rt_ContentSHA256 root).

Record honest (root : EvaluationRoot) (registry : gmap string TrustedPrincipal) (obj : InstructionObject) : Prop := {
  ho_len : (length (io_History obj) <= MaxHistoryHops)%nat;
  ho_root : rt_ContentSHA256 root <> "";
  ho_intact : intact (rt_ContentSHA256 root) (rt_ContentSHA256 root) (io_History obj);
  ho_digest : digest (io_Content obj) = final_digest (rt_ContentSHA256 root) (io_History obj);
  ho_origin : pv_Origin (io_Provenance obj) = rt_Origin root;
  ho_authority : pv_Authority (io_Provenance obj) = pv_Authority (fst (root_fold root (io_History obj)));
  ho_genesis : io_History obj = [] -> io_Provenance obj =
    origin_provenance (rt_Origin root) (pv_CurrentRepresentation (io_Provenance obj)) (rt_ContentSHA256 root) passPromotion;
  ho_fold : io_History obj <> [] -> io_Provenance obj = fst (root_fold root (io_History obj));
  ho_cross : each_err_i (cross_check registry) 0 (zip (io_History obj) (snd (root_fold root (io_History obj)))) = None
}.

Lemma foldTrace_root root repr hops :
  (length hops <= MaxHistoryHops)%nat -> hops <> [] ->
  intact (rt_ContentSHA256 root) (rt_ContentSHA256 root) hops ->
  foldTrace (rt_Origin root) repr hops = root_fold root hops.
Proof.
  intros Hl Hn Hi. unfold foldTrace, root_fold. rewrite (proj2 (Nat.ltb_ge _ _) Hl).
  destruct hops as [|h hops]; [done|]. destruct Hi as (-> & -> & _). reflexivity.
Qed.

Lemma final_digest_content root hops h : final_digest root (hops ++ [h]) = h_ContentDigest h.
Proof. unfold final_digest. by rewrite last_snoc. Qed.

Lemma root_fold_content root hops h :
  intact (rt_ContentSHA256 root) (rt_ContentSHA256 root) hops ->
  pv_ContentSHA256 (fst (root_fold root (hops ++ [h]))) = h_ContentDigest h.
Proof.
  intros Hi. unfold root_fold. rewrite fold_hops_snoc by done.
  destruct (fold_hops _ _ hops _ _) as [p pre]. cbn [fst]. unfold fold_hop.
  destruct (digest_broken _ _ _ _); [done|]. destruct (_ =? ContinuityFailed)%string; [done|].
  destruct (h_RequestedAuthority h =? "")%string eqn:Er; [done|]. bools.
  pose proof (grantFromHop_Some (beginHop p h (final_digest (rt_ContentSHA256 root) hops)) h Er) as Hg.
  destruct (grantFromHop _ h); [|done]. by destruct Hg as (_ & e & _ & -> & _).
Qed.

Lemma verify_hops_intact hops : forall pd ph i, intact pd ph hops -> each_err_i verify_hop i hops = None.
Proof.
  induction hops as [|h hops IH]; intros pd ph i Hi; [done|]. destruct Hi as (_ & _ & Ec & Ex & Ev & Hi).
  cbn. assert (verify_hop i h = None) as ->; [|by eapply IH].
  unfold verify_hop. rewrite !err_then_None, !fail_if_None, !str_neqb_false. split_and!; try done.
  apply andb_false_iff. destruct (h_EndorsementValid h); [right|by left].
  apply bool_decide_eq_false. apply not_eq_None_Some. auto.
Qed.

Lemma honest_verifies root registry obj : honest root registry obj -> VerifyProvenance obj root registry = None.
Proof.
  intros [Hl Hr Hi Hd Ho Ha Hg Hf Hc]. unfold VerifyProvenance. rewrite err_then_None, fail_if_None.
  split; [by apply Nat.ltb_ge|]. destruct (io_History obj) as [|h hops] eqn:Eh.
  - rewrite err_then_None, !fail_if_None. split.
    + apply orb_false_iff. by rewrite str_eqb_false, str_neqb_false.
    + rewrite <-(Hg eq_refl). apply negb_false_iff. by apply bool_decide_eq_true.
  - rewrite <-Eh in *. assert (io_History obj <> []) as Hn by by rewrite Eh.
    rewrite foldTrace_root by done. specialize (Hf Hn).
    rewrite err_then_None, fail_if_None. split.
    { unfold contentChainBroken. rewrite (proj2 (str_eqb_false _ _) Hr).
      assert (exists l, last (io_History obj) = Some l) as [l El] by by apply last_is_Some.
      unfold final_digest in Hd. rewrite El in Hd. rewrite Eh in El, Hi. rewrite Eh, El. destruct Hi as (-> & -> & _).
      by rewrite Hd, !str_eqb_refl. }
    rewrite err_then_None. split; [by eapply verify_hops_intact|].
    pose proof (fold_hops_digest (io_History obj) true (origin_provenance (rt_Origin root) "" "" passPromotion)
      _ _ Hr Hr (fun _ => eq_refl) Hi eq_refl) as Hdf.
    assert (exists hs l, io_History obj = hs ++ [l]) as (hs & l & El).
    { destruct (exists_last Hn) as (hs & l & E). by exists hs, l. }
    pose proof (root_fold_content root hs l) as Hcont. rewrite <-El in Hcont.
    fold (root_fold root (io_History obj)) in Hdf.
    destruct (root_fold root (io_History obj)) as [fresh pre]. cbn [fst snd] in *.
    rewrite !err_then_None, !fail_if_None, Hf. split_and!; [done| |done| |].
    + apply negb_false_iff. by apply bool_decide_eq_true.
    + apply str_neqb_false. rewrite El, last_snoc. apply Hcont.
      rewrite El in Hi. by apply intact_snoc in Hi as [? _].
    + apply str_neqb_false. rewrite Hd. unfold final_digest. by rewrite El, last_snoc.
Qed.

Lemma validEndorsement_requested e pd pa cd tr to registry : validEndorsement e pd pa cd tr to "" registry = false.
Proof. unfold validEndorsement. by destruct (_ || _ || _). Qed.

Lemma hop_cross_check n obj t endorse registry :
  cross_check registry n (sealed (hop_of obj t endorse registry), pv_Authority (io_Provenance obj)) = None.
Proof.
  unfold cross_check. cbn. destruct endorse as [e|]; [|done].
  destruct (tf_RequestedAuthority t =? "")%string eqn:E; bools; cbn.
  - by rewrite E, validEndorsement_requested.
  - by rewrite eqb_reflx.
Qed.

Lemma each_err_i_app {A} (f : nat -> A -> error) l l' : forall i,
  each_err_i f i (l ++ l') = (each_err_i f i l ;;? each_err_i f (i + length l) l').
Proof.
  induction l as [|x l IH]; intros i; cbn; [by rewrite Nat.add_0_r|].
  destruct (f i x); [done|]. rewrite IH. cbn. by rewrite Nat.add_succ_r.
Qed.

Lemma fold_hops_length hops : forall first prov rd rh, length (snd (fold_hops first prov hops rd rh)) = length hops.
Proof.
  induction hops as [|h hops IH]; intros first prov rd rh; [done|]. cbn [fold_hops].
  match goal with |- context [fold_hops false ?p hops ?a ?b] => specialize (IH false p a b) end.
  destruct (fold_hops false _ hops _ _). cbn in *. by rewrite IH.
Qed.

Lemma honest_step root registry obj t endorse :
  honest root registry obj -> (length (io_History obj) < MaxHistoryHops)%nat ->
  honest root registry (ApplyTransform obj t endorse registry).
Proof.
  intros [Hl Hr Hi Hd Ho Ha Hg Hf Hc] Hlt. unfold ApplyTransform.
  rewrite (proj2 (Nat.ltb_ge _ _) Hl). set (hop := sealed (hop_of obj t endorse registry)).
  assert (intact (rt_ContentSHA256 root) (rt_ContentSHA256 root) (io_History obj ++ [hop])) as Hi'.
  { apply intact_snoc. split; [done|]. cbn. split_and!; try done.
    - unfold final_hop. destruct (last (io_History obj)) eqn:El; [done|].
      rewrite Hd. unfold final_digest. by rewrite El.
    - intros Hv. by destruct endorse. }
  assert (length (io_History obj ++ [hop]) <= MaxHistoryHops)%nat as Hl' by (rewrite length_app; cbn; lia).
  assert (io_History obj ++ [hop] <> []) as Hn by by destruct (io_History obj).
  assert (fold (pv_Origin (io_Provenance obj)) (pv_CurrentRepresentation (io_Provenance obj)) (io_History obj ++ [hop])
    = fst (root_fold root (io_History obj ++ [hop]))) as Ef.
  { unfold fold. rewrite Ho. by rewrite foldTrace_root. }
  split; cbn [io_History io_Provenance io_Content]; try done.
  - by rewrite final_digest_content.
  - rewrite Ef. apply fold_hops_origin.
  - by rewrite Ef.
  - unfold root_fold in *. rewrite fold_hops_snoc by done.
    pose proof (fold_hops_length (io_History obj) true (origin_provenance (rt_Origin root) "" "" passPromotion)
      (rt_ContentSHA256 root) (rt_ContentSHA256 root)) as Hlen.
    destruct (fold_hops _ _ (io_History obj) _ _) as [p pre]. cbn [fst snd] in *.
    rewrite zip_with_app by done. rewrite each_err_i_app, err_then_None. split; [done|]. cbn [zip_with each_err_i].
    assert (forall n, cross_check registry n (hop, pv_Authority p) = None) as Hx.
    { intros n. rewrite <-Ha. apply hop_cross_check. }
    by rewrite Hx.
Qed.

Definition build (registry : gmap string TrustedPrincipal) (obj : InstructionObject)
    (steps : list (Transform * option Endorsement)) : InstructionObject :=
  foldl (fun obj s => ApplyTransform obj (fst s) (snd s) registry) obj steps.

Lemma honest_origin root registry content repr effect bearing :
  rt_ContentSHA256 root = digest content ->
  honest root registry (NewOriginObject content (rt_Origin root) repr effect bearing).
Proof. intros E. split; cbn; rewrite ?E; try done. lia. Qed.

Lemma build_honest root registry steps : forall obj,
  honest root registry obj -> (length (io_History obj) + length steps <= MaxHistoryHops)%nat ->
  honest root registry (build registry obj steps).
Proof.
  induction steps as [|[t e] steps IH]; intros obj Ho Hl; [done|]. cbn in Hl. cbn [build foldl fst snd].
  apply IH; [apply honest_step; [done|lia]|]. unfold ApplyTransform.
  destruct (MaxHistoryHops <? length (io_History obj))%nat; cbn; rewrite ?length_app; cbn; lia.
Qed.

Lemma build_length registry steps : forall obj,
  (length (io_History obj) <= S MaxHistoryHops)%nat ->
  length (io_History (build registry obj steps)) =
    Nat.min (S MaxHistoryHops) (length (io_History obj) + length steps).
Proof.
  induction steps as [|[t e] steps IH]; intros obj Hl; [cbn [build foldl length]; lia|]. cbn [build foldl fst snd].
  fold (build registry (ApplyTransform obj t e registry) steps). unfold ApplyTransform.
  destruct (MaxHistoryHops <? length (io_History obj))%nat eqn:E; bools.
  - rewrite IH by done. cbn [length]. lia.
  - rewrite IH by (cbn [io_History]; rewrite length_app; cbn [length]; lia).
    cbn [io_History]. rewrite length_app. cbn [length]. lia.
Qed.

(** What the code builds, the code verifies: any sequence of at most
    eight transformations of an origin object, endorsed or not, gives an
    object that [VerifyProvenance] accepts for the origin's root under the
    registry the endorsements were checked against.  One more, and however
    many more, gives an object of nine hops that every root and registry
    reject. *)
Theorem ApplyTransform_verifies (root : EvaluationRoot) (registry : gmap string TrustedPrincipal)
    (content repr effect : string) (bearing : bool) (steps : list (Transform * option Endorsement))
    (Hroot : rt_ContentSHA256 root = digest content) :
  let obj := build registry (NewOriginObject content (rt_Origin root) repr effect bearing) steps in
  ((length steps <= MaxHistoryHops)%nat -> VerifyProvenance obj root registry = None) /\
  ((MaxHistoryHops < length steps)%nat ->
     length (io_History obj) = S MaxHistoryHops /\
     forall root' registry', Authorize obj root' = (false, reasonHistoryExceedsBound) /\
       VerifyProvenance obj root' registry' <> None).
Proof.
  intros obj. split.
  - intros Hl. apply honest_verifies, build_honest; [by apply honest_origin|done].
  - intros Hl. assert (length (io_History obj) = S MaxHistoryHops) as E.
    { unfold obj. rewrite build_length by (cbn; lia). unfold MaxHistoryHops in *. cbn [NewOriginObject io_History length]. lia. }
    split; [done|]. intros root' registry'. unfold Authorize, VerifyProvenance. by rewrite E.
Qed.

Lemma authority_of_kept a hops :
  Forall (fun h => h_RequestedAuthority h = "") hops -> authority_of a hops = a.
Proof.
  unfold authority_of. revert a. induction hops as [|h hops IH]; intros a Hf; [done|].
  apply Forall_cons in Hf as [Eh Hf]. cbn. rewrite Eh. by apply IH.
Qed.

(** C23.  No laundering: content whose origin is not trusted executes only if
    some hop of its log was endorsed, that is, it asked for an authority and
    carries an endorsement, recorded as valid and bound by the hop's digest,
    that grants exactly it within the promoter's ceiling. *)
Theorem no_laundering (obj : InstructionObject) (root : EvaluationRoot)
    (Huntrusted : ceilingForTrust (o_TrustClass (rt_Origin root)) = AuthorityDataOnly)
    (Hexec : fst (Authorize obj root) = true) :
  exists hop e g c, In hop (io_History obj) /\ h_HopDigest hop = hopDigest hop /\
    h_RequestedAuthority hop <> "" /\ h_Endorsement hop = Some e /\ h_EndorsementValid hop = true /\
    en_GrantAuthority e = h_RequestedAuthority hop /\ authorityRank (en_GrantAuthority e) = Some g /\
    authorityRank (h_ObservedCeiling hop) = Some c /\ g <= c.
Proof.
  apply Authorize_true in Hexec as (_ & _ & _ & Hi & _ & Hb & r & Hr & Hr1). rewrite Huntrusted in Hr.
  destruct (decide (Forall (fun h => h_RequestedAuthority h = "") (io_History obj))) as [Hf|Hf].
  { rewrite authority_of_kept in Hr by done. injection Hr as <-. lia. }
  apply not_Forall_Exists in Hf; [|intros x; apply _].
  apply Exists_exists in Hf as (hop & Hin & Hq). rewrite Forall_forall in Hb.
  destruct (Hb hop Hin Hq) as (e & g & c & ? & ? & ? & ? & ? & ?).
  assert (h_HopDigest hop = hopDigest hop) as Hd.
  { clear -Hi Hin. revert Hi. generalize (rt_ContentSHA256 root) at 1 as pd. generalize (rt_ContentSHA256 root) as ph.
    induction Hin as [|? ? ? _ IH]; intros ph pd Hi; destruct Hi as (_ & _ & _ & ? & _ & Hi); [done|].
    by eapply IH. }
  exists hop, e, g, c. split_and!; try done. by apply list_elem_of_In.
Qed.
End spec.

(** ** Witnesses *)
Module InstructionWitness.
Definition plain : GoCrypto := {| sha256_hex := fun s => s |}.
Definition mcp : Origin := {| o_Principal := "mcp"; o_TrustClass := TrustUntrustedMCPResponse |}.
Definition root : EvaluationRoot := {| rt_Origin := mcp; rt_InstructionBearing := true; rt_EffectClass := "EXTERNAL";
  rt_ContentSHA256 := digest (H := plain) "c0" |}.
Definition registry : gmap string TrustedPrincipal :=
  {["ops" := {| tp_Name := "ops"; tp_Ceiling := AuthorityDeveloper |}]}.
Definition origin : InstructionObject := NewOriginObject (H := plain) "c0" mcp "MCP_OUTPUT" "EXTERNAL" true.
Definition plan : Transform := {| tf_Transformer := "summarizer"; tf_To := "AGENT_SUMMARY"; tf_Via := "";
  tf_VisibleRole := "USER"; tf_RequestedAuthority := AuthorityUser; tf_NewContent := "c1" |}.
Definition endorsement : Endorsement := {| en_ID := "e1"; en_Promoter := "ops"; en_GrantAuthority := AuthorityUser;
  en_ParentContentSHA := digest (H := plain) "c0"; en_ChildContentSHA := digest (H := plain) "c1";
  en_Transformer := "summarizer"; en_TargetRepresentation := "AGENT_SUMMARY" |}.
Definition endorsed : InstructionObject := build (H := plain) registry origin [(plan, Some endorsement)].
Definition laundered : InstructionObject := build (H := plain) registry origin [(plan, None)].

Example endorsed_runs : Authorize (H := plain) endorsed root = (true, "authorized").
Proof. vm_compute. reflexivity. Qed.
Example laundered_denied : Authorize (H := plain) laundered root = (false, "authority-expanding instruction").
Proof. vm_compute. reflexivity. Qed.
Example laundered_evidence :
  nth 4 (DenyEvidence (H := plain) laundered root) "" = "authority transition DATA_ONLY->USER".
Proof. vm_compute. reflexivity. Qed.
End InstructionWitness.

Lemma VerifyProvenance_authority_witness :
  pv_Authority (io_Provenance InstructionWitness.endorsed) = AuthorityUser /\
  raised InstructionWitness.registry (io_History InstructionWitness.endorsed) AuthorityDataOnly AuthorityUser.
Proof.
  pose proof (@VerifyProvenance_authority InstructionWitness.plain InstructionWitness.endorsed
    InstructionWitness.root InstructionWitness.registry ltac:(vm_compute; reflexivity)) as [[E|Hr] _].
  - exfalso. vm_compute in E. discriminate.
  - split; [vm_compute; reflexivity|exact Hr].
Defined.

Lemma ApplyTransform_verifies_witness :
  VerifyProvenance (H := InstructionWitness.plain) InstructionWitness.laundered InstructionWitness.root
    InstructionWitness.registry = None.
Proof.
  apply (@ApplyTransform_verifies InstructionWitness.plain InstructionWitness.root InstructionWitness.registry
    "c0" "MCP_OUTPUT" "EXTERNAL" true [(InstructionWitness.plan, None)] eq_refl).
  cbn. unfold MaxHistoryHops. lia.
Defined.

Lemma no_laundering_witness :
  exists hop, In hop (io_History InstructionWitness.endorsed) /\ h_RequestedAuthority hop <> "".
Proof.
  destruct (@no_laundering InstructionWitness.plain InstructionWitness.endorsed InstructionWitness.root
    eq_refl ltac:(vm_compute; reflexivity)) as (hop & _ & _ & _ & Hin & _ & Hr & _).
  exists hop. split; [exact Hin|exact Hr].
Defined.
