(* ===== verification/InstructionAuth.v ===== *)
(** The signed assertion a call must carry when instruction authority
    continuity is on: [internal/proxy/instruction_authority_auth.go].

    Signature verification and the JSON of the signed claims are class
    arguments; base64 and the key-id pattern are those of PolicyValidate.v. *)
From stdpp Require Import base strings gmap list.
From Stdlib Require Import ZArith Lia Ascii.
From S2P Require Import Prelude GoStrings GoLib Lineage PolicyTypes Engine PolicyValidate Session SessionSpec.
From S2P Require Import InstructionAuthority.
#[local] Open Scope Z_scope.

Record Assertion := {
  as_SchemaVersion : Z;
  as_KeyID : string;
  as_SessionID : string;
  as_ClientID : string;
  as_LogicalServer : string;
  as_ToolName : string;
  as_RequestSHA256 : string;
  as_EnvelopeSHA256 : string;
  as_Nonce : string;
  as_IssuedAtUnix : Z;
  as_ExpiresAtUnix : Z;
  as_Signature : string
}.

(** [instructionAuthorityEnvelope]; the wire root is an [EvaluationRoot]. *)
Record IAEnvelope := {
  ie_InstructionObject : InstructionObject;
  ie_EvaluationRoot : EvaluationRoot;
  ie_Assertion : option Assertion
}.

Class AssertionCrypto := {
  (** [ed25519.Verify(pub, msg, sig)] *)
  ed25519_Verify : string -> string -> string -> bool;
  (** [json.Marshal] of the claims: every field but the signature *)
  marshal_claims : Assertion -> option string;
  (** [json.Marshal] of the envelope without the assertion *)
  marshal_unsigned : InstructionObject -> EvaluationRoot -> option string
}.

Definition instructionAuthorityAssertionSchema : Z := 1.
Definition instructionAuthorityMaxLifetimeSecs : Z := 60.
Definition instructionAuthorityMaxFutureSkew : Z := 5.
Definition instructionAuthorityNonceSize : nat := 32.
Definition instructionAuthoritySigSize : nat := 64.

(** [^sha256:[0-9a-f]{64}$] *)
Definition instructionAuthorityHashRe (s : string) : bool := serverAttestationDigestRe s.

(** [time.Time.Unix] *)
Definition Unix (now : Z) : Z := now / 1000000000.

Definition malformed : string := "instruction authority assertion malformed".

(** A canonical unpadded base64url text of [n] bytes. *)
Definition canonical_b64 (n : nat) (s : string) : bool :=
  match b64_decode s with
  | Some b => (String.length b =? n)%nat && (b64_encode b =s? s)
  | None => false
  end.

Definition decodeInstructionAuthorityPublicKey (id enc : string) : option string :=
  if negb (instructionAuthorityKeyIDRe id) then None
  else match b64_decode enc with
  | Some b => if (String.length b =? 32)%nat && (b64_encode b =s? enc) then Some b else None
  | None => None
  end.

(** Keys that do not decode are skipped. *)
Definition decodeInstructionAuthorityKeys (raw : list (string * string)) : gmap string string :=
  foldl (fun m kv => match decodeInstructionAuthorityPublicKey (fst kv) (snd kv) with
                     | Some key => <[fst kv := key]> m
                     | None => m
                     end) ∅ raw.

Definition structuralInstructionAuthorityAssertion (a : option Assertion) (nowUnix : Z) : string :=
  match a with
  | None => "instruction authority assertion missing"
  | Some a =>
      if negb (as_SchemaVersion a =? instructionAuthorityAssertionSchema) ||
         (as_KeyID a =s? "") || (as_SessionID a =s? "") || (as_ClientID a =s? "") ||
         (as_LogicalServer a =s? "") || (as_ToolName a =s? "") ||
         (as_RequestSHA256 a =s? "") || (as_EnvelopeSHA256 a =s? "") ||
         (as_Nonce a =s? "") || (as_Signature a =s? "") ||
         negb (instructionAuthorityKeyIDRe (as_KeyID a)) ||
         negb (instructionAuthorityHashRe (as_RequestSHA256 a)) ||
         negb (instructionAuthorityHashRe (as_EnvelopeSHA256 a)) ||
         (as_IssuedAtUnix a <=? 0) ||
         (as_ExpiresAtUnix a <=? as_IssuedAtUnix a) ||
         (instructionAuthorityMaxLifetimeSecs <? as_ExpiresAtUnix a - as_IssuedAtUnix a) ||
         (nowUnix + instructionAuthorityMaxFutureSkew <? as_IssuedAtUnix a)
      then malformed
      else if negb (canonical_b64 instructionAuthorityNonceSize (as_Nonce a)) then malformed
      else if negb (canonical_b64 instructionAuthoritySigSize (as_Signature a)) then malformed
      else ""
  end.

Section assertion.
Context `{GoCrypto} `{AssertionCrypto}.

Definition instructionAuthorityEnvelopeSHA256 (env : IAEnvelope) : option string :=
  (fun b => "sha256:" +:+ sha256_hex b) <$> marshal_unsigned (ie_InstructionObject env) (ie_EvaluationRoot env).

Definition instructionAuthorityRequestSHA256 (raw : string) : string :=
  "sha256:" +:+ sha256_hex (TrimSuffixByte LF raw).

(** [sig, err := DecodeString(a.Signature); err != nil || !Verify(pub, msg, sig)] negated. *)
Definition signature_valid (pub msg sig : string) : bool :=
  match b64_decode sig with Some sig => ed25519_Verify pub msg sig | None => false end.

(** The reason, [""] when the assertion is accepted, and the session: only an
    assertion that passes every other check reaches its nonce. *)
Definition verifyInstructionAuthorityAssertion (s : Session) (env : IAEnvelope) (stripped : string)
    (callReq : ToolsCallRequest) (serverName : string) (keys : gmap string string) (now : Z)
    : Session * string :=
  let reason := structuralInstructionAuthorityAssertion (ie_Assertion env) (Unix now) in
  match ie_Assertion env with
  | None => (s, reason)
  | Some a =>
      if reason <>s? "" then (s, reason)
      else match instructionAuthorityEnvelopeSHA256 env with
      | None => (s, malformed)
      | Some envHash =>
          match keys !! as_KeyID a with
          | None => (s, "instruction authority assertion key unknown")
          | Some pub =>
              if negb (String.length pub =? 32)%nat then (s, "instruction authority assertion key unknown")
              else match marshal_claims a with
              | None => (s, malformed)
              | Some msg =>
                  if negb (signature_valid pub msg (as_Signature a)) then
                    (s, "instruction authority assertion signature invalid")
                  else if as_ExpiresAtUnix a <=? Unix now then (s, "instruction authority assertion expired")
                  else if as_SessionID a <>s? ss_ID s then (s, "instruction authority assertion session mismatch")
                  else if as_ClientID a <>s? ss_ClientID s then (s, "instruction authority assertion client mismatch")
                  else if as_LogicalServer a <>s? serverName then (s, "instruction authority assertion server mismatch")
                  else if as_ToolName a <>s? tc_Name callReq then (s, "instruction authority assertion tool mismatch")
                  else if as_RequestSHA256 a <>s? instructionAuthorityRequestSHA256 stripped then
                    (s, "instruction authority assertion request hash mismatch")
                  else if as_EnvelopeSHA256 a <>s? envHash then
                    (s, "instruction authority assertion envelope hash mismatch")
                  else match ConsumeInstructionAuthorityNonce s (as_Nonce a) (as_ExpiresAtUnix a) (Unix now) with
                  | (s, false) => (s, "instruction authority assertion replayed")
                  | (s, true) => (s, "")
                  end
              end
          end
      end
  end.

(** ** What an accepted assertion proves *)

(** The assertion is well formed and live at [now], signed by a configured
    key, and bound to this session, client, server, tool, request bytes and
    envelope. *)
Record bound_assertion (s : Session) (env : IAEnvelope) (stripped : string) (callReq : ToolsCallRequest)
    (serverName : string) (keys : gmap string string) (now : Z) (a : Assertion) : Prop := {
  ba_structural : structuralInstructionAuthorityAssertion (Some a) (Unix now) = "";
  ba_signed : exists pub msg sig, keys !! as_KeyID a = Some pub /\ String.length pub = 32%nat /\
    marshal_claims a = Some msg /\ b64_decode (as_Signature a) = Some sig /\ ed25519_Verify pub msg sig = true;
  ba_live : Unix now < as_ExpiresAtUnix a;
  ba_session : as_SessionID a = ss_ID s;
  ba_client : as_ClientID a = ss_ClientID s;
  ba_server : as_LogicalServer a = serverName;
  ba_tool : as_ToolName a = tc_Name callReq;
  ba_request : as_RequestSHA256 a = instructionAuthorityRequestSHA256 stripped;
  ba_envelope : instructionAuthorityEnvelopeSHA256 env = Some (as_EnvelopeSHA256 a)
}.

(** The nonce is not live in the session. *)
Definition nonce_fresh (s : Session) (now : Z) (a : Assertion) : Prop :=
  forall exp, ss_Nonces s !! as_Nonce a = Some exp -> exp <= Unix now.

Lemma consume_fresh s now a :
  snd (ConsumeInstructionAuthorityNonce s (as_Nonce a) (as_ExpiresAtUnix a) (Unix now)) = true <->
  nonce_fresh s now a.
Proof.
  unfold ConsumeInstructionAuthorityNonce, nonce_fresh.
  destruct (filter _ _ !! as_Nonce a) as [exp|] eqn:E; cbn.
  - apply map_lookup_filter_Some in E as [E Hlt]. cbn in Hlt. split; [done|]. intros Hf. specialize (Hf _ E). lia.
  - split; [|done]. intros _ exp He. destruct (decide (exp <= Unix now)) as [|Hn]; [done|].
    apply map_lookup_filter_None in E as [E|E]; [congruence|]. exfalso. apply (E _ He). cbn. lia.
Qed.

(** A check that fails with [E] refuses, and [E] contradicts the binding. *)
#[local] Ltac refuse E := right; right; split; [discriminate|]; split; [reflexivity|]; intros ? [= <-] [];
  first [lia | congruence].

(** The three outcomes of a verification: accepted, replayed, refused. *)
Lemma verify_cases s env stripped callReq serverName keys now :
  let '(s', reason) := verifyInstructionAuthorityAssertion s env stripped callReq serverName keys now in
  (reason = "" /\ exists a, ie_Assertion env = Some a /\ bound_assertion s env stripped callReq serverName keys now a /\
     (s', true) = ConsumeInstructionAuthorityNonce s (as_Nonce a) (as_ExpiresAtUnix a) (Unix now)) \/
  (reason <> "" /\ exists a, ie_Assertion env = Some a /\ bound_assertion s env stripped callReq serverName keys now a /\
     (s', false) = ConsumeInstructionAuthorityNonce s (as_Nonce a) (as_ExpiresAtUnix a) (Unix now)) \/
  (reason <> "" /\ s' = s /\ forall a, ie_Assertion env = Some a -> ~ bound_assertion s env stripped callReq serverName keys now a).
Proof.
  unfold verifyInstructionAuthorityAssertion.
  destruct (ie_Assertion env) as [a|] eqn:Ea; [|by right; right].
  destruct (structuralInstructionAuthorityAssertion (Some a) (Unix now) =? "")%string eqn:Es; cbn [negb].
  2: { apply str_eqb_false in Es. right; right. split; [done|]. split; [done|]. intros ? [= <-] []. done. }
  apply str_eqb_true in Es.
  destruct (instructionAuthorityEnvelopeSHA256 env) as [eh|] eqn:Ee.
  2: { right; right. split; [done|]. split; [done|]. intros ? [= <-] []. congruence. }
  destruct (keys !! as_KeyID a) as [pub|] eqn:Ek.
  2: { right; right. split; [done|]. split; [done|]. intros ? [= <-] [? (? & ? & ? & ? & _)]. congruence. }
  destruct (String.length pub =? 32)%nat eqn:El; cbn [negb].
  2: { apply Nat.eqb_neq in El. right; right. split; [done|]. split; [done|].
       intros ? [= <-] [? (? & ? & ? & ? & ? & _)]. congruence. }
  apply Nat.eqb_eq in El.
  destruct (marshal_claims a) as [msg|] eqn:Em.
  2: { right; right. split; [done|]. split; [done|]. intros ? [= <-] [? (? & ? & ? & ? & ? & ? & _)]. congruence. }
  destruct (signature_valid pub msg (as_Signature a)) eqn:Ev; cbn [negb].
  2: { right; right. split; [done|]. split; [done|]. intros ? [= <-] [? (pub' & msg' & sig & E1 & _ & E2 & E3 & E4)].
       unfold signature_valid in Ev. rewrite E3 in Ev. congruence. }
  assert (exists pub msg sig, keys !! as_KeyID a = Some pub /\ String.length pub = 32%nat /\
    marshal_claims a = Some msg /\ b64_decode (as_Signature a) = Some sig /\ ed25519_Verify pub msg sig = true) as Hsig.
  { unfold signature_valid in Ev. destruct (b64_decode (as_Signature a)) as [sig|] eqn:Ed; [|done].
    by exists pub, msg, sig. }
  clear Ev Em Ek El.
  destruct (as_ExpiresAtUnix a <=? Unix now) eqn:E1; [apply Z.leb_le in E1; refuse E1|apply Z.leb_gt in E1].
  destruct (as_SessionID a =? ss_ID s)%string eqn:E2; cbn [negb]; [apply str_eqb_true in E2|apply str_eqb_false in E2; refuse E2].
  destruct (as_ClientID a =? ss_ClientID s)%string eqn:E3; cbn [negb]; [apply str_eqb_true in E3|apply str_eqb_false in E3; refuse E3].
  destruct (as_LogicalServer a =? serverName)%string eqn:E4; cbn [negb]; [apply str_eqb_true in E4|apply str_eqb_false in E4; refuse E4].
  destruct (as_ToolName a =? tc_Name callReq)%string eqn:E5; cbn [negb]; [apply str_eqb_true in E5|apply str_eqb_false in E5; refuse E5].
  destruct (as_RequestSHA256 a =? _)%string eqn:E6; cbn [negb]; [apply str_eqb_true in E6|apply str_eqb_false in E6; refuse E6].
  destruct (as_EnvelopeSHA256 a =? eh)%string eqn:E7; cbn [negb]; [apply str_eqb_true in E7|apply str_eqb_false in E7; refuse E7].
  assert (bound_assertion s env stripped callReq serverName keys now a) as Hb by (split; try done; congruence).
  destruct (ConsumeInstructionAuthorityNonce _ _ _ _) as [s' []] eqn:Ec; [left|right; left];
    (split; [done|]); exists a; done.
Qed.

(** C24.  An assertion is accepted exactly when it is well formed and live,
    signed by a configured key, bound to this session, client, server, tool,
    request bytes and envelope, and its nonce is not live in the session.
    An assertion that fails any other check never touches the nonces, so no
    unsigned or misdirected message can burn one. *)
Theorem verifyInstructionAuthorityAssertion_iff (s : Session) (env : IAEnvelope) (stripped : string)
    (callReq : ToolsCallRequest) (serverName : string) (keys : gmap string string) (now : Z) :
  let '(s', reason) := verifyInstructionAuthorityAssertion s env stripped callReq serverName keys now in
  (reason = "" <-> exists a, ie_Assertion env = Some a /\
     bound_assertion s env stripped callReq serverName keys now a /\ nonce_fresh s now a) /\
  ((forall a, ie_Assertion env = Some a -> ~ bound_assertion s env stripped callReq serverName keys now a) -> s' = s).
Proof.
  pose proof (verify_cases s env stripped callReq serverName keys now) as Hc.
  destruct (verifyInstructionAuthorityAssertion _ _ _ _ _ _ _) as [s' reason].
  destruct Hc as [(Hr & a & Ea & Hb & E)|[(Hr & a & Ea & Hb & E)|(Hr & -> & Hn)]].
  - split; [|intros Hn; by destruct (Hn a Ea)]. split; [|done]. intros _. exists a. split_and!; try done.
    apply consume_fresh. by rewrite <-E.
  - split; [|intros Hn; by destruct (Hn a Ea)]. split; [done|]. intros (a' & Ea' & _ & Hf).
    rewrite Ea in Ea'. injection Ea' as <-. apply consume_fresh in Hf. by rewrite <-E in Hf.
  - split; [|done]. split; [done|]. intros (a & Ea & Hb & _). by destruct (Hn a Ea).
Qed.

(** One verification, of any envelope. *)
Record attempt := {
  at_env : IAEnvelope; at_stripped : string; at_call : ToolsCallRequest; at_server : string;
  at_keys : gmap string string; at_now : Z
}.
Definition attempt_on (s : Session) (t : attempt) : Session * string :=
  verifyInstructionAuthorityAssertion s (at_env t) (at_stripped t) (at_call t) (at_server t) (at_keys t) (at_now t).

Lemma attempt_keeps s t nonce exp :
  ss_Nonces s !! nonce = Some exp -> Unix (at_now t) < exp ->
  ss_Nonces (fst (attempt_on s t)) !! nonce = Some exp.
Proof.
  intros Hn Hnow. unfold attempt_on.
  pose proof (verify_cases s (at_env t) (at_stripped t) (at_call t) (at_server t) (at_keys t) (at_now t)) as Hc.
  destruct (verifyInstructionAuthorityAssertion _ _ _ _ _ _ _) as [s' reason]. cbn [fst].
  assert (forall a b, (s', b) = ConsumeInstructionAuthorityNonce s (as_Nonce a) (as_ExpiresAtUnix a) (Unix (at_now t)) ->
    ss_Nonces s' !! nonce = Some exp) as Hk.
  { intros a b E. pose proof (consume_keeps s {| co_nonce := as_Nonce a; co_expires := as_ExpiresAtUnix a;
      co_now := Unix (at_now t) |} nonce exp Hn Hnow) as Hk. unfold consume in Hk. cbn in Hk. by rewrite <-E in Hk. }
  destruct Hc as [(_ & a & _ & _ & E)|[(_ & a & _ & _ & E)|(_ & -> & _)]]; [by eapply Hk..|done].
Qed.

(** C26.  An assertion is accepted at most once: after it was, any later
    attempt with it is refused, whatever attempts came between, as long as
    the clock does not run backwards past the last attempt; before it expires
    because its nonce is live, after that because it has expired. *)
Theorem assertion_single_use (s : Session) (first : attempt) (between : list attempt) (again : attempt) (a : Assertion)
    (Hfirst : ie_Assertion (at_env first) = Some a) (Hagain : ie_Assertion (at_env again) = Some a)
    (Hacc : snd (attempt_on s first) = "")
    (Hclock : Forall (fun t => at_now t <= at_now again) between) :
  snd (attempt_on (fold_left (fun s t => fst (attempt_on s t)) between (fst (attempt_on s first))) again) <> "".
Proof.
  assert (ss_Nonces (fst (attempt_on s first)) !! as_Nonce a = Some (as_ExpiresAtUnix a)) as Hn.
  { unfold attempt_on in *.
    pose proof (verify_cases s (at_env first) (at_stripped first) (at_call first) (at_server first) (at_keys first) (at_now first)) as Hc.
    destruct (verifyInstructionAuthorityAssertion _ _ _ _ _ _ _) as [s' reason]. cbn in *.
    destruct Hc as [(_ & a' & Ea & _ & E)|[(? & _)|(? & _)]]; [|done..]. rewrite Hfirst in Ea. injection Ea as <-.
    unfold ConsumeInstructionAuthorityNonce in E. destruct (filter _ _ !! as_Nonce a); [done|]. injection E as ->.
    apply lookup_insert_eq. }
  revert Hn. generalize (fst (attempt_on s first)) as s1. clear Hacc.
  intros s1 Hn Hok. set (s2 := fold_left _ between s1) in *.
  pose proof (verify_cases s2 (at_env again) (at_stripped again) (at_call again) (at_server again) (at_keys again) (at_now again)) as Hc.
  unfold attempt_on in Hok. destruct (verifyInstructionAuthorityAssertion _ _ _ _ _ _ _) as [s' reason]. cbn in Hok.
  destruct Hc as [(_ & a' & Ea & Hb & E)|[(? & _)|(? & _)]]; [|done..].
  rewrite Hagain in Ea. injection Ea as <-. destruct Hb as [_ _ Hlive _ _ _ _ _ _].
  assert (ss_Nonces s2 !! as_Nonce a = Some (as_ExpiresAtUnix a)) as H2.
  { unfold s2. clear - Hn Hclock Hlive. revert s1 Hn. induction Hclock as [|t ts Ht _ IH]; intros s1 Hn; [done|].
    cbn. apply IH. apply attempt_keeps; [done|].
    assert (Unix (at_now t) <= Unix (at_now again)) by (apply Z.div_le_mono; lia). lia. }
  assert (snd (ConsumeInstructionAuthorityNonce s2 (as_Nonce a) (as_ExpiresAtUnix a) (Unix (at_now again))) = true) as Hf
    by by rewrite <-E.
  apply consume_fresh in Hf. specialize (Hf _ H2). lia.
Qed.
End assertion.

(** ** Witnesses *)
Module AssertionWitness.
Definition zeros : string := "0000000000000000000000000000000000000000000000000000000000000000".
Definition digest : GoCrypto := {| sha256_hex := fun _ => zeros |}.
Definition crypto : AssertionCrypto := {|
  ed25519_Verify := fun pub msg sig => (msg =s? "claims of k1");
  marshal_claims := fun a => Some ("claims of " +:+ as_KeyID a);
  marshal_unsigned := fun _ _ => Some "{}" |}.
Definition assertion : Assertion := {|
  as_SchemaVersion := 1; as_KeyID := "k1"; as_SessionID := "s"; as_ClientID := "c"; as_LogicalServer := "mail";
  as_ToolName := "send"; as_RequestSHA256 := "sha256:" +:+ zeros; as_EnvelopeSHA256 := "sha256:" +:+ zeros;
  as_Nonce := "AAAAAAAAAAAAAAAAAAAAAAAAAAAAAAAAAAAAAAAAAAA"; as_IssuedAtUnix := 100; as_ExpiresAtUnix := 150;
  as_Signature := "AAAAAAAAAAAAAAAAAAAAAAAAAAAAAAAAAAAAAAAAAAAAAAAAAAAAAAAAAAAAAAAAAAAAAAAAAAAAAAAAAAAAAA" |}.
Definition env : IAEnvelope := {|
  ie_InstructionObject := NewOriginObject (H := digest) "" {| o_Principal := ""; o_TrustClass := "" |} "" "" true;
  ie_EvaluationRoot := {| rt_Origin := {| o_Principal := ""; o_TrustClass := "" |}; rt_InstructionBearing := true;
    rt_EffectClass := ""; rt_ContentSHA256 := "" |};
  ie_Assertion := Some assertion |}.
Definition session : Session := NewSession "s" "c" 0.
Definition attempt_at (now : Z) : attempt := {|
  at_env := env; at_stripped := "{}"; at_call := {| tc_Name := "send"; tc_Arguments := "" |}; at_server := "mail";
  at_keys := {["k1" := "01234567890123456789012345678901"]}; at_now := now * 1000000000 |}.
Example accepted : snd (attempt_on (H := digest) (H0 := crypto) session (attempt_at 120)) = "".
Proof. vm_compute. reflexivity. Qed.
End AssertionWitness.

Lemma assertion_single_use_witness :
  snd (attempt_on (H := AssertionWitness.digest) (H0 := AssertionWitness.crypto)
    (fst (attempt_on (H := AssertionWitness.digest) (H0 := AssertionWitness.crypto)
      AssertionWitness.session (AssertionWitness.attempt_at 120))) (AssertionWitness.attempt_at 121)) <> "".
Proof.
  apply (@assertion_single_use AssertionWitness.digest AssertionWitness.crypto AssertionWitness.session
    (AssertionWitness.attempt_at 120) [] (AssertionWitness.attempt_at 121) AssertionWitness.assertion).
  - reflexivity.
  - reflexivity.
  - exact AssertionWitness.accepted.
  - constructor.
Defined.
