(* ===== verification/Trajectory.v ===== *)
(** The trajectory advisor: [internal/trajectory/advisor.go].  It keeps the
    last tool calls of a session with the number of times each transition and
    each source occurs among them, and flags a transition not seen in the
    window from a source seen often enough. *)
From stdpp Require Import base strings gmap list.
From Stdlib Require Import ZArith Lia.
From S2P Require Import Prelude.
#[local] Open Scope Z_scope.

Definition windowTransitions : Z := 32.
Definition warmupTransitions : Z := 8.
Definition minSourceSupport : Z := 2.
Definition advisorName : string := "session_unseen_bigram_v1".
Definition anomalyKind : string := "unseen_successor".

(** A [token] is its server and tool; a [directed] is a pair of tokens. *)
Definition token : Type := string * string.

Record Advice := {
  ad_Advisor : string;
  ad_Kind : string;
  ad_Sequence : list string;
  ad_WindowTransitions : Z;
  ad_SourceSupport : Z;
  ad_TransitionSupport : Z
}.
Definition zeroAdvice : Advice := {| ad_Advisor := ""; ad_Kind := ""; ad_Sequence := [];
  ad_WindowTransitions := 0; ad_SourceSupport := 0; ad_TransitionSupport := 0 |}.

Record Advisor := {
  tj_tokens : list token;
  tj_sources : gmap token Z;
  tj_bigrams : gmap (token * token) Z
}.

Definition New : Advisor := {| tj_tokens := []; tj_sources := ∅; tj_bigrams := ∅ |}.

Definition render (tok : token) : string := fst tok +:+ ":" +:+ snd tok.

(** [m[k]], zero when absent. *)
Definition count {K} `{Countable K} (m : gmap K Z) (k : K) : Z := default 0 (m !! k).
(** [m[k]++] *)
Definition incr {K} `{Countable K} (m : gmap K Z) (k : K) : gmap K Z := <[k := count m k + 1]> m.
(** [m[k]--; if m[k] == 0 { delete(m, k) }], on [uint64]. *)
Definition decr {K} `{Countable K} (m : gmap K Z) (k : K) : gmap K Z :=
  let v := (count m k - 1) mod 2^64 in
  if v =? 0 then delete k m else <[k := v]> m.

(** The eviction of the oldest token once the window is full. *)
Definition evict (a : Advisor) : Advisor :=
  match tj_tokens a with
  | from :: to :: _ =>
      if windowTransitions <? Z.of_nat (length (tj_tokens a)) - 1 then
        {| tj_tokens := tl (tj_tokens a); tj_sources := decr (tj_sources a) from;
           tj_bigrams := decr (tj_bigrams a) (from, to) |}
      else a
  | _ => a
  end.

Definition Assess (a : Advisor) (cand : token) : Advisor * (Advice * bool) :=
  match last (tj_tokens a) with
  | None =>
      ({| tj_tokens := tj_tokens a ++ [cand]; tj_sources := tj_sources a; tj_bigrams := tj_bigrams a |},
       (zeroAdvice, false))
  | Some prev =>
      let windowCount := Z.of_nat (length (tj_tokens a)) - 1 in
      let sourceSupport := count (tj_sources a) prev in
      let transitionSupport := count (tj_bigrams a) (prev, cand) in
      let flagged := (warmupTransitions <=? windowCount) && (minSourceSupport <=? sourceSupport) &&
                     (transitionSupport =? 0) in
      let a := evict {| tj_tokens := tj_tokens a ++ [cand]; tj_sources := incr (tj_sources a) prev;
                        tj_bigrams := incr (tj_bigrams a) (prev, cand) |} in
      (a, if flagged then
            ({| ad_Advisor := advisorName; ad_Kind := anomalyKind; ad_Sequence := [render prev; render cand];
                ad_WindowTransitions := windowCount; ad_SourceSupport := sourceSupport;
                ad_TransitionSupport := 0 |}, true)
          else (zeroAdvice, false))
  end.

(** ** The tables are the counts of the window *)

Fixpoint transitions (l : list token) : list (token * token) :=
  match l with
  | x :: ((y :: _) as rest) => (x, y) :: transitions rest
  | _ => []
  end.
Definition occurrences {K} `{EqDecision K} (k : K) (l : list K) : Z :=
  Z.of_nat (length (filter (fun x => x = k) l)).

(** [m] holds the number of occurrences of each key of [l], and no zero. *)
Definition counts {K} `{Countable K} (m : gmap K Z) (l : list K) : Prop :=
  forall k, m !! k = if decide (k ∈ l) then Some (occurrences k l) else None.

Record advisor_ok (a : Advisor) : Prop := {
  ok_sources : counts (tj_sources a) (fst <$> transitions (tj_tokens a));
  ok_bigrams : counts (tj_bigrams a) (transitions (tj_tokens a));
  ok_window : Z.of_nat (length (tj_tokens a)) <= windowTransitions + 1
}.

Lemma occurrences_pos {K} `{EqDecision K} (k : K) l : k ∈ l -> 1 <= occurrences k l.
Proof.
  intros Hin. unfold occurrences. destruct (filter _ l) as [|x r] eqn:E; [|cbn; lia].
  exfalso. assert (k ∈ filter (fun x => x = k) l) as Hk by by apply list_elem_of_filter.
  rewrite E in Hk. by apply not_elem_of_nil in Hk.
Qed.
Lemma occurrences_zero {K} `{EqDecision K} (k : K) l : k ∉ l -> occurrences k l = 0.
Proof.
  intros Hin. unfold occurrences. destruct (filter _ l) as [|x r] eqn:E; [done|]. exfalso.
  assert (x ∈ filter (fun x => x = k) l) as Hx by (rewrite E; left).
  apply list_elem_of_filter in Hx as [-> Hx]. done.
Qed.
Lemma occurrences_snoc {K} `{EqDecision K} (k x : K) l :
  occurrences k (l ++ [x]) = occurrences k l + if decide (x = k) then 1 else 0.
Proof.
  unfold occurrences. rewrite filter_app, length_app. cbn.
  unfold filter, list_filter. destruct (decide (x = k)); cbn; lia.
Qed.
Lemma occurrences_cons {K} `{EqDecision K} (k x : K) l :
  occurrences k (x :: l) = occurrences k l + if decide (x = k) then 1 else 0.
Proof. unfold occurrences. rewrite filter_cons. destruct (decide (x = k)); cbn [length]; lia. Qed.

Lemma counts_count {K} `{Countable K} (m : gmap K Z) l k : counts m l -> count m k = occurrences k l.
Proof.
  intros Hc. unfold count. rewrite Hc. destruct (decide (k ∈ l)); [done|]. symmetry. by apply occurrences_zero.
Qed.

Lemma counts_incr {K} `{Countable K} (m : gmap K Z) l k : counts m l -> counts (incr m k) (l ++ [k]).
Proof.
  intros Hc k'. unfold incr. rewrite (counts_count m l k Hc).
  destruct (decide (k' = k)) as [->|Hn].
  - rewrite lookup_insert_eq, decide_True by set_solver. rewrite occurrences_snoc. by rewrite decide_True.
  - rewrite lookup_insert_ne, Hc, occurrences_snoc by done. rewrite (decide_False (P := k = k')) by done.
    rewrite Z.add_0_r. destruct (decide (k' ∈ l)); [rewrite decide_True|rewrite decide_False]; set_solver.
Qed.

Lemma counts_decr {K} `{Countable K} (m : gmap K Z) l k :
  counts m (k :: l) -> Z.of_nat (length l) < 2^64 -> counts (decr m k) l.
Proof.
  intros Hc Hl k'. unfold decr. rewrite (counts_count m _ k Hc), occurrences_cons, decide_True by done.
  assert (0 <= occurrences k l <= Z.of_nat (length l)) as Hb.
  { unfold occurrences. pose proof (length_filter (fun x => x = k) l). lia. }
  replace (occurrences k l + 1 - 1) with (occurrences k l) by lia. rewrite Z.mod_small by lia.
  destruct (occurrences k l =? 0) eqn:E; bools.
  - destruct (decide (k' = k)) as [->|Hn].
    + rewrite lookup_delete_eq. rewrite decide_False; [done|]. intros Hin%occurrences_pos. lia.
    + rewrite lookup_delete_ne, Hc, occurrences_cons by done. rewrite (decide_False (P := k = k')) by done.
      rewrite Z.add_0_r. destruct (decide (k' ∈ l)); [rewrite decide_True|rewrite decide_False]; set_solver.
  - destruct (decide (k' = k)) as [->|Hn].
    + rewrite lookup_insert_eq. rewrite decide_True; [done|].
      destruct (decide (k ∈ l)) as [|Hni]; [done|]. apply occurrences_zero in Hni. done.
    + rewrite lookup_insert_ne, Hc, occurrences_cons by done. rewrite (decide_False (P := k = k')) by done.
      rewrite Z.add_0_r. destruct (decide (k' ∈ l)); [rewrite decide_True|rewrite decide_False]; set_solver.
Qed.

Lemma transitions_snoc l x y : last l = Some x -> transitions (l ++ [y]) = transitions l ++ [(x, y)].
Proof.
  induction l as [|a l IH]; [done|]. destruct l as [|b l].
  - intros [= ->]. done.
  - intros E. cbn in *. by rewrite IH.
Qed.

Lemma transitions_length l : (length (transitions l) <= length l)%nat.
Proof.
  induction l as [|a l IH]; [done|]. destruct l as [|b l]; [cbn; lia|].
  change (S (length (transitions (b :: l))) <= S (length (b :: l)))%nat. lia.
Qed.

Lemma evict_ok a :
  counts (tj_sources a) (fst <$> transitions (tj_tokens a)) -> counts (tj_bigrams a) (transitions (tj_tokens a)) ->
  Z.of_nat (length (tj_tokens a)) <= windowTransitions + 2 -> advisor_ok (evict a).
Proof.
  intros Hs Hb Hl. unfold evict. destruct (tj_tokens a) as [|x [|y l]] eqn:E.
  { split; rewrite ?E; done. } { split; rewrite ?E; done. }
  destruct (windowTransitions <? _) eqn:Ew; bools.
  - split; cbn [tj_tokens tj_sources tj_bigrams tl].
    + apply counts_decr; [exact Hs|]. rewrite length_fmap. pose proof (transitions_length (y :: l)).
      unfold windowTransitions in *. cbn [length] in *. lia.
    + apply counts_decr; [exact Hb|]. pose proof (transitions_length (y :: l)).
      unfold windowTransitions in *. cbn [length] in *. lia.
    + cbn [length] in *. lia.
  - split; rewrite ?E; try done. lia.
Qed.

(** After any sequence of observations the advisor's tables are the
    exact transition and source counts of its window, which never exceeds 32
    transitions, and it flags an observation exactly when the window holds at
    least eight transitions, at least two from the previous call's tool, and
    none to the one observed. *)
Theorem Assess_exact (observations : list token) (cand : token) :
  let a := foldl (fun a t => fst (Assess a t)) New observations in
  advisor_ok a /\
  (snd (snd (Assess a cand)) = true <->
   exists prev, last (tj_tokens a) = Some prev /\
     warmupTransitions <= Z.of_nat (length (tj_tokens a)) - 1 /\
     minSourceSupport <= occurrences prev (fst <$> transitions (tj_tokens a)) /\
     (prev, cand) ∉ transitions (tj_tokens a)).
Proof.
  cbv zeta. assert (forall a t, advisor_ok a -> advisor_ok (fst (Assess a t))) as Hstep.
  { intros a t [Hs Hb Hl]. unfold Assess. destruct (last (tj_tokens a)) as [prev|] eqn:E; cbn [fst].
    - apply evict_ok; cbn [tj_tokens tj_sources tj_bigrams].
      + rewrite (transitions_snoc _ prev) by done. rewrite fmap_app. by apply counts_incr.
      + rewrite (transitions_snoc _ prev) by done. by apply counts_incr.
      + rewrite length_app. cbn. lia.
    - apply last_None in E. rewrite E in *. by split. }
  assert (advisor_ok (foldl (fun a t => fst (Assess a t)) New observations)) as Hok.
  { assert (advisor_ok New) as H0 by (split; done || (intros k; apply lookup_empty)).
    revert H0. generalize New. induction observations as [|t ts IH]; intros a H0; [done|]. cbn. apply IH. by apply Hstep. }
  split; [done|]. revert Hok. generalize (foldl (fun a t => fst (Assess a t)) New observations) as a.
  intros a [Hs Hb _]. unfold Assess. destruct (last (tj_tokens a)) as [prev|]; [|split; [done|by intros (? & ? & _)]].
  rewrite (counts_count _ _ _ Hs), (counts_count _ _ _ Hb). cbn [snd].
  assert (occurrences (prev, cand) (transitions (tj_tokens a)) = 0 <-> (prev, cand) ∉ transitions (tj_tokens a)) as Hz.
  { split; [intros E Hin%occurrences_pos; lia|apply occurrences_zero]. }
  destruct (_ && _ && _) eqn:E; cbn; bools.
  - split; [|done]. intros _. exists prev. split_and!; [done..|by apply Hz].
  - split; [done|]. intros (? & [= <-] & H1 & H2 & H3%Hz). apply not_true_iff_false in E. destruct E.
    rewrite !andb_true_iff, !Z.leb_le, Z.eqb_eq. done.
Qed.
