(* ===== verification/GoPath.v ===== *)
(** Go's [path/filepath] on Unix, as far as the sources use it, and the file
    system calls behind it.

    A cleaned absolute path is kept as the list of its components (none is
    empty, [.] or [..]); ["/"] followed by the components joined with ["/"]
    is the string the code holds. *)
From stdpp Require Import base strings list.
From Stdlib Require Import ZArith Lia Ascii.
From S2P Require Import Prelude GoStrings.

(** ** Splitting and joining *)

(** [strings.Split(s, sep)] for a one-byte [sep]. *)
Fixpoint split_on (c : ascii) (s : string) : list string :=
  match s with
  | "" => [""]
  | String d s' =>
      if Ascii.eqb c d then "" :: split_on c s'
      else match split_on c s' with [] => [String d ""] | w :: ws => String d w :: ws end
  end.

(** [strings.FieldsFunc(s, p)] for a [p] that holds of ASCII bytes only. *)
Definition fields_of (p : ascii -> bool) : string -> list string :=
  fix go (s : string) : list string :=
    match s with
    | "" => []
    | String c s' =>
        if p c then go s'
        else match s' with
             | "" => [String c ""]
             | String d _ => if p d then String c "" :: go s'
                             else match go s' with [] => [String c ""] | w :: ws => String c w :: ws end
             end
    end.

(** [strings.Fields]: maximal runs of runes that are not space. *)
Fixpoint fields_decoded (l : list (Z * string)) (cur : string) : list string :=
  match l with
  | [] => if cur =s? "" then [] else [cur]
  | (r, bs) :: l' =>
      if is_space_rune r then (if cur =s? "" then [] else [cur]) ++ fields_decoded l' ""
      else fields_decoded l' (cur +:+ bs)
  end.
Definition Fields (s : string) : list string := fields_decoded (decode s) "".

(** [strings.Join] *)
Fixpoint Join (sep : string) (l : list string) : string :=
  match l with
  | [] => ""
  | [w] => w
  | w :: l' => w +:+ sep +:+ Join sep l'
  end.

(** [strings.TrimLeft], [strings.TrimRight] and [strings.Trim] for ASCII
    cutsets, [strings.TrimPrefix] and [strings.TrimSuffix]. *)
Fixpoint TrimLeft (p : ascii -> bool) (s : string) : string :=
  match s with "" => "" | String c s' => if p c then TrimLeft p s' else s end.
Fixpoint TrimRightFn (p : ascii -> bool) (s : string) : string :=
  match s with
  | "" => ""
  | String c s' => match TrimRightFn p s' with
                   | "" => if p c then "" else String c ""
                   | t => String c t
                   end
  end.
Definition Trim (p : ascii -> bool) (s : string) : string := TrimRightFn p (TrimLeft p s).
Definition TrimPrefix (s p : string) : string :=
  if HasPrefix s p then drop_bytes (String.length p) s else s.
Fixpoint TrimSuffix (s suf : string) : string :=
  match s with
  | "" => ""
  | String c s' => if s =s? suf then "" else String c (TrimSuffix s' suf)
  end.

(** ** Lexical paths *)

Definition slash : ascii -> bool := Ascii.eqb "/".

(** [filepath.Base] and [path.Base]. *)
Definition Base (p : string) : string :=
  if p =s? "" then "."
  else let t := TrimRightFn slash p in
       let b := match cut_last "/" t with Some (_, v) => v | None => t end in
       if b =s? "" then "/" else b.

(** [filepath.Ext]: the suffix from the last dot of the last component. *)
Definition Ext (p : string) : string :=
  let b := match cut_last "/" p with Some (_, v) => v | None => p end in
  match cut_last "." b with Some (_, v) => String "." v | None => "" end.

(** The components of a cleaned path: [out] is what is kept so far, in
    reverse; [..] takes the last component back, or is kept at the start of a
    relative path and dropped at the root. *)
Fixpoint clean_comps (rooted : bool) (out : list string) (l : list string) : list string :=
  match l with
  | [] => rev out
  | w :: l' =>
      if (w =s? "") || (w =s? ".") then clean_comps rooted out l'
      else if w =s? ".." then
        match out with
        | v :: out' => if v =s? ".." then clean_comps rooted (w :: out) l'
                       else clean_comps rooted out' l'
        | [] => clean_comps rooted (if rooted then [] else [w]) l'
        end
      else clean_comps rooted (w :: out) l'
  end.

Definition IsAbs (p : string) : bool := HasPrefix p "/".

(** [filepath.Clean] *)
Definition Clean (p : string) : string :=
  let comps := clean_comps (IsAbs p) [] (split_on "/" p) in
  if IsAbs p then "/" +:+ Join "/" comps
  else match comps with [] => "." | _ => Join "/" comps end.

(** [filepath.Join] *)
Definition FJoin (elems : list string) : string :=
  match List.filter (fun e => e <>s? "") elems with [] => "" | elems => Clean (Join "/" elems) end.

(** ** The file system *)

(** [os.Getwd] (cleaned) and [filepath.EvalSymlinks] on a cleaned absolute
    path, whose result is one. *)
Class GoFS := {
  Getwd : option (list string);
  EvalSymlinks : list string -> option (list string)
}.

(** [filepath.Abs] *)
Definition Abs `{GoFS} (p : string) : option (list string) :=
  if IsAbs p then Some (clean_comps true [] (split_on "/" p))
  else match Getwd with
       | None => None
       | Some wd => Some (clean_comps true [] (wd ++ split_on "/" p))
       end.

(** [filepath.Rel(root, abs)] on cleaned absolute paths: how many levels up
    from [root], and the rest of [abs] from there. *)
Fixpoint Rel (root abs : list string) : nat * list string :=
  match root, abs with
  | r :: root', a :: abs' => if r =s? a then Rel root' abs' else (length root, abs)
  | _, _ => (length root, abs)
  end.

(** [rel == ".." || strings.HasPrefix(rel, "../")] *)
Definition escapes (rel : nat * list string) : bool := (0 <? rel.1)%nat.

(** ** Lemmas *)

Lemma Rel_inside root abs : escapes (Rel root abs) = false <-> exists rest, abs = root ++ rest.
Proof.
  revert abs. induction root as [|r root IH]; intros abs; cbn [Rel].
  { split; [intros _; by exists abs|done]. }
  destruct abs as [|a abs]; [by split; [|intros [? [=]]]|].
  destruct (r =s? a) eqn:E.
  - apply str_eqb_true in E as ->. rewrite IH. split; intros [rest Hr]; exists rest; [by subst|by simplify_eq/=].
  - apply str_eqb_false in E. split; [done|]. intros [rest Hr]. by simplify_eq/=.
Qed.

(** What [Rel] yields is the path: [root], [ups] levels up, then the rest. *)
Lemma Rel_spec root abs : take (length root - (Rel root abs).1) root ++ (Rel root abs).2 = abs.
Proof.
  revert abs. induction root as [|r root IH]; intros [|a abs]; cbn; [done|done|by rewrite Nat.sub_diag|].
  destruct (r =s? a) eqn:E; cbn; [|by rewrite Nat.sub_diag].
  apply str_eqb_true in E as ->. specialize (IH abs).
  assert (Hle : ((Rel root abs).1 <= length root)%nat).
  { clear. revert abs. induction root as [|x root IH]; intros [|y abs]; cbn; [lia..|].
    destruct (x =s? y); cbn; [|lia]. specialize (IH abs). lia. }
  replace (S (length root) - (Rel root abs).1)%nat with (S (length root - (Rel root abs).1)) by lia.
  cbn. by rewrite IH.
Qed.

Example Clean_dots : Clean "/a/./b//../c/" = "/a/c". Proof. reflexivity. Qed.
Example Clean_up : Clean "/../etc/passwd" = "/etc/passwd". Proof. reflexivity. Qed.
Example Clean_rel : Clean "../x/.." = "..". Proof. reflexivity. Qed.
Example Base_ex : (Base "/usr/bin/bash", Base "a/", Base "//", Base "") = ("bash", "a", "/", "."). Proof. reflexivity. Qed.
Example Ext_ex : (Ext "/w/a.tar.gz", Ext "/w.d/a", Ext ".sh") = (".gz", "", ".sh"). Proof. reflexivity. Qed.
Example fields_ex : fields_of (byte_in " =") "a=b  cd " = ["a"; "b"; "cd"]. Proof. reflexivity. Qed.
