(* ===== verification/Capability.v ===== *)
(** Capability accounting, the decision on one step
    ([internal/capability/normalize.go] and [capability.go]): canonical
    identities, containment in the workspace, attribution of an effect to the
    declared envelope, and the signals a redacted call shows. *)
From stdpp Require Import base strings gmap list sorting.
From Stdlib Require Import ZArith Lia Ascii.
From S2P Require Import Prelude GoStrings GoLib GoPath.
#[local] Open Scope Z_scope.

(** ** What comes from Go's libraries

    An address of [net/netip] is kept as its text ([Addr.String]), which
    determines it; the zero address is [""].  A prefix is kept as its text
    too. *)
Class GoNetip := {
  ParseAddr : string -> option string;
  prefix_valid : string -> bool;
  prefix_addr : string -> string;
  prefix_masked : string -> string;
  prefix_contains : string -> string -> bool
}.
Definition addr_valid (a : string) : bool := a <>s? "".

(** Errors of the evaluator: those that wrap [ErrInvalidStep], and others.
    Their text is never kept: the proxy only classifies them. *)
Inductive EvalError := ErrInvalidStep | ErrOther.
Inductive outcome (A : Type) : Type := Val (a : A) | Bad (e : EvalError).
Arguments Val {_} _.
Arguments Bad {_} _.
Definition outcome_bind {A B} (m : outcome A) (k : A -> outcome B) : outcome B :=
  match m with Val a => k a | Bad e => Bad e end.
Notation "'let!' x ':=' m 'in' k" := (outcome_bind m (fun x => k))
  (at level 10, x name, m at level 100, k at level 200) : go_scope.
Definition or_invalid {A} (m : option A) : outcome A :=
  match m with Some a => Val a | None => Bad ErrInvalidStep end.
Definition require (b : bool) : outcome unit := if b then Val tt else Bad ErrInvalidStep.

(** ** Data *)

Record DeclaredAuthority := {
  da_Target : string;
  da_Network : list string;
  da_Host : string;
  da_WorkspaceRoot : string;
  da_DeclaredExecutables : list string;
  da_Intent : string
}.
Record CapSignal := {
  sn_Kind : string;
  sn_Observation : string;
  sn_EvidenceLevel : string;
  sn_SourceDigest : string
}.
Record Step := {
  sp_SessionID : string;
  sp_StepID : Z;
  sp_Tool : string;
  sp_Args : gmap string string;
  sp_Path : string;
  sp_Executable : string;
  sp_DestIP : string;
  sp_DestHost : string;
  sp_Result : string;
  sp_ArtifactMagic : string;
  sp_Declared : DeclaredAuthority;
  sp_Effect : string;
  sp_EffectTarget : string;
  sp_Primitive : string;
  sp_Signals : list CapSignal
}.
Definition with_declared (st : Step) (da : DeclaredAuthority) : Step := {|
  sp_SessionID := sp_SessionID st; sp_StepID := sp_StepID st; sp_Tool := sp_Tool st; sp_Args := sp_Args st;
  sp_Path := sp_Path st; sp_Executable := sp_Executable st; sp_DestIP := sp_DestIP st;
  sp_DestHost := sp_DestHost st; sp_Result := sp_Result st; sp_ArtifactMagic := sp_ArtifactMagic st;
  sp_Declared := da; sp_Effect := sp_Effect st; sp_EffectTarget := sp_EffectTarget st;
  sp_Primitive := sp_Primitive st; sp_Signals := sp_Signals st |}.
Definition with_effect (st : Step) (effect executable target : string) : Step := {|
  sp_SessionID := sp_SessionID st; sp_StepID := sp_StepID st; sp_Tool := sp_Tool st; sp_Args := sp_Args st;
  sp_Path := sp_Path st; sp_Executable := executable; sp_DestIP := sp_DestIP st;
  sp_DestHost := sp_DestHost st; sp_Result := sp_Result st; sp_ArtifactMagic := sp_ArtifactMagic st;
  sp_Declared := sp_Declared st; sp_Effect := effect; sp_EffectTarget := target;
  sp_Primitive := sp_Primitive st; sp_Signals := sp_Signals st |}.

Definition EvidenceDeclaredOnly : string := "declared_only".
Definition EvidenceArtifact : string := "artifact".
Definition EvidenceRuntimeMarker : string := "runtime_marker".
Definition EvidenceBoundaryRequest : string := "boundary_request".
Definition EffectHostExec : string := "host_exec".
Definition EffectNetEgress : string := "net_egress".
Definition EffectFileAccess : string := "file_access".
Definition EffectCanaryAccess : string := "canary_access".
Definition SignalDeclaredIntent : string := "declared.intent".
Definition SignalArtifactPocCreated : string := "artifact.poc_created".
Definition SignalArtifactBuildArtifact : string := "artifact.build_artifact".
Definition SignalRuntimeMemoryCorruption : string := "runtime.memory_corruption_marker".
Definition SignalRuntimeSandboxEscape : string := "runtime.sandbox_escape_marker".
Definition SignalBoundaryHostExec : string := "boundary.request_host_exec".
Definition SignalBoundaryEgress : string := "boundary.request_egress".
Definition SignalBoundaryFileOutside : string := "boundary.request_file_outside_workspace".

(** ** Canonical identities ([normalize.go]) *)

Section normalize.
Context `{GoUnicode, GoNetip, GoFS}.

Definition CanonicalExecutable (name : string) : string := Base name.
Definition CanonicalHost (h : string) : string := ToLower (TrimSuffix h ".").

Definition host_label_byte (c : ascii) : bool := is_lower c || is_digit c || Ascii.eqb "-" c.
(** One label of a host name. *)
Definition host_label (part : string) : bool :=
  (part <>s? "") && (String.length part <=? 63)%nat &&
  negb (HasPrefix part "-") && negb (last_byte_is "-" part) && all_bytes host_label_byte part.

Definition CanonicalHostIsValid (s : string) : outcome string :=
  let h := CanonicalHost s in
  if h =s? "" then Bad ErrInvalidStep
  else match ParseAddr h with
  | Some _ => Bad ErrInvalidStep
  | None =>
      if negb (String.length h <=? 253)%nat then Bad ErrInvalidStep
      else if forallb host_label (split_on "." h) then Val h else Bad ErrInvalidStep
  end.
Definition valid_host (s : string) : bool :=
  match CanonicalHostIsValid s with Val _ => true | Bad _ => false end.

Definition valid_executable (exe : string) : bool :=
  negb ((exe =s? "") || (exe =s? ".") || (exe =s? "..") || (CanonicalExecutable exe <>s? exe)).

Definition ValidateAuthority (da : DeclaredAuthority) : outcome unit :=
  let! _ := require (da_Target da <>s? "") in
  let! _ := require (da_WorkspaceRoot da <>s? "") in
  let! _ := require (forallb (fun p => prefix_valid p &&
                       (prefix_addr p =s? prefix_addr (prefix_masked p))) (da_Network da)) in
  let! _ := require ((da_Host da =s? "") || valid_host (da_Host da)) in
  require (forallb valid_executable (da_DeclaredExecutables da)).

Definition normalizeDeclaredAuthority (da : DeclaredAuthority) : DeclaredAuthority := {|
  da_Target := da_Target da;
  da_Network := prefix_masked <$> da_Network da;
  da_Host := if da_Host da <>s? "" then CanonicalHost (da_Host da) else da_Host da;
  da_WorkspaceRoot := if da_WorkspaceRoot da <>s? "" then Clean (da_WorkspaceRoot da)
                      else da_WorkspaceRoot da;
  da_DeclaredExecutables := CanonicalExecutable <$> da_DeclaredExecutables da;
  da_Intent := da_Intent da |}.

(** [resolveExistingAncestors]: [rcur] is the current ancestor, last
    component first; [residual] what was cut off it. *)
Fixpoint resolve_ancestors (rcur residual : list string) : outcome (list string * list string) :=
  match EvalSymlinks (rev rcur) with
  | Some resolved => Val (resolved, residual)
  | None => match rcur with
            | [] => Bad ErrOther
            | base :: parent => resolve_ancestors parent (base :: residual)
            end
  end.
Definition resolveExistingAncestors (abs : list string) : outcome (list string * list string) :=
  resolve_ancestors (rev abs) [].

(** [CanonicalPath(p, workspaceRoot, false)], the only call outside tests. *)
Definition CanonicalPath (p workspaceRoot : string) : outcome (list string) :=
  if (p =s? "") || (workspaceRoot =s? "") then Bad ErrInvalidStep
  else
    let! abs := or_invalid (Abs p) in
    let! root := or_invalid (Abs workspaceRoot) in
    if escapes (Rel root abs) then Bad ErrInvalidStep else Val abs.

Definition PathOutsideWorkspace (p ws : string) : outcome bool :=
  if (p =s? "") || (ws =s? "") then Bad ErrInvalidStep
  else
    let! abs := or_invalid (Abs p) in
    let! root := or_invalid (Abs ws) in
    let! resolvedRoot := or_invalid (EvalSymlinks root) in
    if escapes (Rel root abs) then Val true
    else
      let! rr := resolveExistingAncestors abs in
      Val (escapes (Rel resolvedRoot (fst rr ++ snd rr))).
End normalize.

(** ** The surfaces of a call ([capability.go]) *)

(** [canonicalCommandToken]: the final path component of a token. *)
Definition canonicalCommandToken (tok : string) : string :=
  if tok =s? "" then tok
  else if HasPrefix tok "http://" || HasPrefix tok "https://" then tok
  else
    let n := ReplaceAll tok (String BACKSLASH "") "/" in
    let n := if Contains n "/" then
               let base := Base n in
               if (base <>s? ".") && (base <>s? "/") then base else n
             else n in
    TrimSuffix n ".exe".

Definition isCanonicalShellName (tok : string) : bool :=
  str_in (canonicalCommandToken tok) ["host_exec"; "bash"; "sh"; "shell"; "shell_exec"].
Definition isHostExecToolName (t : string) : bool := isCanonicalShellName t.

(** The index loop of [compilerTokenBase] starts at 1. *)
Definition compilerTokenBase (tok : string) : string :=
  match canonicalCommandToken tok with
  | "" => ""
  | String c n => String c (take_until (Ascii.eqb "-") n)
  end.

Definition isCommandBoundary (c : ascii) : bool :=
  byte_in " ;&|(){}$`<>='" c || Ascii.eqb TAB c || Ascii.eqb LF c || Ascii.eqb DQUOTE c.
Definition shellTokens (s : string) : list string := fields_of isCommandBoundary s.

Definition sortedKeys (m : gmap string string) : list string := merge_sort String.le (map_to_list m).*1.

Definition isCommandBearingKey (k : string) : bool :=
  str_in k ["command"; "cmd"; "args"; "arguments"; "executable"; "shell_command"].
Definition commandBearingArgs (args : gmap string string) : list string :=
  omap (fun k => if isCommandBearingKey k then args !! k else None) (sortedKeys args).

(** [argsBlob]: every entry as [k=v] and a NUL, in key order. *)
Definition argsBlob (args : gmap string string) : string :=
  foldr (fun k rest => k +:+ "=" +:+ default "" (args !! k) +:+ String NUL rest) "" (sortedKeys args).

Section surfaces.
Context `{GoUnicode, GoNetip, GoFS, GoCrypto}.

Definition pocExtension (p : string) : bool :=
  str_in (ToLower (Ext p)) [".js"; ".py"; ".wasm"; ".sh"; ".c"].
Definition pocPathFromArgs (blob : string) : string :=
  default "" (List.find pocExtension
    (fields_of (fun c => Ascii.eqb NUL c || byte_in " ='" c || Ascii.eqb DQUOTE c || Ascii.eqb ":" c) blob)).

Definition isCompiler (base : string) : bool := str_in base ["gcc"; "clang"; "cc"].
Definition isBuildTool (tool : string) : bool :=
  let t := ToLower tool in
  (t =s? "go build") || isCompiler (compilerTokenBase t).

(** A compiler token, or [go] followed by [build]. *)
Fixpoint build_tokens (toks : list string) : bool :=
  match toks with
  | [] => false
  | tok :: rest =>
      isCompiler (compilerTokenBase tok) ||
      ((compilerTokenBase tok =s? "go") && match rest with next :: _ => next =s? "build" | [] => false end) ||
      build_tokens rest
  end.
Definition isBuildToolArgs (args : gmap string string) : bool :=
  existsb (fun v => build_tokens (shellTokens (ToLower v))) (commandBearingArgs args).

Definition argsContainShellToken (args : gmap string string) : bool :=
  existsb (fun v => existsb isCanonicalShellName (shellTokens (ToLower v))) (commandBearingArgs args).
Definition hostExecFromArgs (st : Step) : bool :=
  isHostExecToolName (ToLower (sp_Tool st)) || argsContainShellToken (sp_Args st).

Definition structuredDestination (st : Step) : outcome bool :=
  if sp_DestHost st <>s? "" then
    if valid_host (sp_DestHost st) then Val true
    else match ParseAddr (Trim (byte_in "[]") (sp_DestHost st)) with
         | Some _ => Val true
         | None => Bad ErrInvalidStep
         end
  else Val (addr_valid (sp_DestIP st)).

Definition isNetToolName (t : string) : bool :=
  let t := canonicalCommandToken t in
  str_in t ["curl"; "wget"; "http_get"; "http"; "fetch"; "request"; "net"; "web_fetch"; "browse"; "fetch_url"] ||
  HasPrefix t "http".
Definition IsNetworkToolName (tool : string) : bool := isNetToolName (ToLower (TrimSpace tool)).
Definition IsFileToolName (tool : string) : bool :=
  str_in (canonicalCommandToken (ToLower (TrimSpace tool))) ["file_write"; "write_file"; "read_file"; "file_read"].

Definition url_or_net_token (tok : string) : bool :=
  HasPrefix tok "http://" || HasPrefix tok "https://" || str_in (canonicalCommandToken tok) ["curl"; "wget"].
Definition argsContainURLOrNetTool (args : gmap string string) : bool :=
  existsb (fun v => existsb url_or_net_token (shellTokens (ToLower v))) (commandBearingArgs args).

Definition egressFromArgs (st : Step) : bool :=
  match structuredDestination st with
  | Bad _ | Val true => true
  | Val false => isNetToolName (ToLower (sp_Tool st)) || argsContainURLOrNetTool (sp_Args st)
  end.

(** The host of a URL token, with the port and the brackets of an IPv6
    literal stripped. *)
Definition url_host (tok : string) : string :=
  let rest := match cut "://" tok with Some (_, r) => r | None => tok end in
  let rest := take_until (byte_in "/?#") rest in
  let rest := match cut_last ":" rest with
              | Some (u, _) => if negb (Contains u ":") then u else rest
              | None => rest
              end in
  TrimSuffix (TrimPrefix rest "[") "]".

(** One token of [egressURLFromArgs]: a host to return, if any. *)
Definition token_host (tok : string) : option string :=
  let lt := ToLower tok in
  if negb (HasPrefix lt "http://") && negb (HasPrefix lt "https://") then None
  else let host := url_host tok in if host =s? "" then None else Some host.
Definition egressURLFromArgs (args : gmap string string) : string :=
  default "" (head (omap token_host
    (concat ((fun k => Fields (default "" (args !! k))) <$> sortedKeys args)))).

Definition egressObservationTarget (st : Step) : string :=
  if sp_EffectTarget st <>s? "" then sp_EffectTarget st
  else if addr_valid (sp_DestIP st) then sp_DestIP st
  else if sp_DestHost st <>s? "" then sp_DestHost st
  else egressURLFromArgs (sp_Args st).

Definition fileSurfacePath (st : Step) : string :=
  if sp_Path st <>s? "" then sp_Path st else sp_EffectTarget st.

(** ** Attribution *)

Definition netContains (nets : list string) (ip : string) : bool :=
  existsb (fun p => prefix_contains p ip) nets.

Definition attribute_exec (st : Step) : outcome bool :=
  let da := sp_Declared st in
  let! _ := require (sp_EffectTarget st <>s? "") in
  let! _ := require (sp_Executable st <>s? "") in
  let! _ := require (CanonicalExecutable (sp_EffectTarget st) =s? CanonicalExecutable (sp_Executable st)) in
  let exe := CanonicalExecutable (sp_Executable st) in
  let! _ := require ((sp_DestHost st =s? "") || valid_host (sp_DestHost st)) in
  if (length (da_DeclaredExecutables da) =? 0)%nat then Val false
  else if da_Host da =s? "" then Val false
  else
    let! _ := require (sp_DestHost st <>s? "") in
    if CanonicalHost (sp_DestHost st) <>s? CanonicalHost (da_Host da) then Val false
    else Val (existsb (fun d => CanonicalExecutable d =s? exe) (da_DeclaredExecutables da)).

Definition attribute_egress (st : Step) : outcome bool :=
  let da := sp_Declared st in
  let target := sp_EffectTarget st in
  let! _ := require (target <>s? "") in
  let! _ :=
    match ParseAddr target with
    | Some ip =>
        let! _ := require (negb (addr_valid (sp_DestIP st)) || (ip =s? sp_DestIP st)) in
        require ((sp_DestHost st =s? "") ||
                 match ParseAddr (sp_DestHost st) with Some h => h =s? ip | None => false end)
    | None =>
        let! _ := require (negb (addr_valid (sp_DestIP st))) in
        let! h := CanonicalHostIsValid target in
        require ((sp_DestHost st =s? "") || (h =s? CanonicalHost (sp_DestHost st)))
    end in
  if (length (da_Network da) =? 0)%nat then Val false
  else if addr_valid (sp_DestIP st) then Val (netContains (da_Network da) (sp_DestIP st))
  else if sp_DestHost st <>s? "" then Val false
  else match ParseAddr target with
       | Some ip => Val (netContains (da_Network da) ip)
       | None => Val false
       end.

Definition attribute_file (st : Step) : outcome bool :=
  let root := da_WorkspaceRoot (sp_Declared st) in
  let! _ := require (sp_EffectTarget st <>s? "") in
  let! _ := require (root <>s? "") in
  if sp_Path st <>s? "" then
    let! rawOutside := PathOutsideWorkspace (sp_EffectTarget st) root in
    let! pathOutside := PathOutsideWorkspace (sp_Path st) root in
    let! _ := require (Bool.eqb rawOutside pathOutside) in
    if pathOutside then Val false
    else
      let! rawCanon := CanonicalPath (sp_EffectTarget st) root in
      let! pathCanon := CanonicalPath (sp_Path st) root in
      let! _ := require (bool_decide (rawCanon = pathCanon)) in
      Val true
  else
    let! outside := PathOutsideWorkspace (sp_EffectTarget st) root in
    Val (negb outside).

Definition EffectAttributable (st : Step) : outcome bool :=
  let! _ := structuredDestination st in
  if sp_Effect st =s? EffectHostExec then attribute_exec st
  else if sp_Effect st =s? EffectNetEgress then attribute_egress st
  else if sp_Effect st =s? EffectFileAccess then attribute_file st
  else if sp_Effect st =s? EffectCanaryAccess then Val false
  else if sp_Effect st =s? "" then Val true
  else Bad ErrInvalidStep.
End surfaces.
