(* ===== verification/CapabilityEval.v ===== *)
(** Capability accounting, the evaluator of a session
    ([internal/capability/evaluator.go], the signals and the lattice of
    [capability.go], the receipts of [receipt.go]) and the proxy's adapter to
    it ([tools_call.go], [processToolsCall]). *)
From stdpp Require Import base strings gmap list sorting.
From Stdlib Require Import ZArith Lia Ascii.
From S2P Require Import Prelude GoStrings GoLib GoPath Capability.
#[local] Open Scope Z_scope.

(** ** Signals *)

Definition hasSignal (signals : list CapSignal) (kind : string) : bool :=
  existsb (fun s => sn_Kind s =s? kind) signals.
Definition hasSignalLevel (signals : list CapSignal) (kind level : string) : bool :=
  existsb (fun s => (sn_Kind s =s? kind) && (sn_EvidenceLevel s =s? level)) signals.
Definition isBoundaryKind (kind : string) : bool :=
  str_in kind [SignalBoundaryHostExec; SignalBoundaryEgress; SignalBoundaryFileOutside].
Definition hasBoundarySignal (signals : list CapSignal) : bool :=
  existsb (fun s => isBoundaryKind (sn_Kind s)) signals.

(** [dedupByKind]: [seen] is the kinds met so far. *)
Fixpoint dedup_from (seen : list string) (signals : list CapSignal) : list CapSignal :=
  match signals with
  | [] => []
  | s :: rest => if str_in (sn_Kind s) seen then dedup_from seen rest
                 else s :: dedup_from (sn_Kind s :: seen) rest
  end.
Definition dedupByKind (signals : list CapSignal) : list CapSignal := dedup_from [] signals.

Definition memoryCorruptionMarkers : list string :=
  ["SIGSEGV"; "SIGABRT"; "AddressSanitizer"; "heap-buffer-overflow"; "SEGV_MAPERR"; "stack-buffer-overflow"].
Definition sandboxEscapeMarkers : list string :=
  ["sandbox escape"; "container escape"; "namespace"; "landlock"; "seccomp"].
Definition matchMarkers (haystack : string) (markers : list string) : list string :=
  List.filter (Contains haystack) markers.

Section signals.
Context `{GoUnicode, GoNetip, GoFS, GoCrypto}.

Definition digestOf (s : string) : string := "sha256:" +:+ sha256_hex s.
Definition sig (kind obs level source : string) : CapSignal := {|
  sn_Kind := kind; sn_Observation := obs; sn_EvidenceLevel := level; sn_SourceDigest := digestOf source |}.
(** [if b { out = append(out, s) }] *)
Definition only_if (b : bool) (s : CapSignal) : list CapSignal := if b then [s] else [].

Definition exec_signal (st : Step) : CapSignal :=
  sig SignalBoundaryHostExec ("host exec " +:+ sp_Executable st) EvidenceBoundaryRequest (sp_Executable st).
Definition egress_signal (st : Step) : CapSignal :=
  sig SignalBoundaryEgress ("egress to " +:+ egressObservationTarget st) EvidenceBoundaryRequest
    (egressObservationTarget st).

(** Signals 1 to 5: intent, artifacts, runtime markers. *)
Definition observation_signals (st : Step) : list CapSignal :=
  let blob := argsBlob (sp_Args st) in
  let intent := da_Intent (sp_Declared st) in
  let poc p := sig SignalArtifactPocCreated ("wrote " +:+ Base p) EvidenceArtifact p in
  let by_path := (sp_Path st <>s? "") && pocExtension (sp_Path st) in
  let markers := sp_Result st +:+ (if blob <>s? "" then String LF blob else "") in
  only_if (intent <>s? "") (sig SignalDeclaredIntent ("intent: " +:+ intent) EvidenceDeclaredOnly intent) ++
  only_if by_path (poc (sp_Path st)) ++
  only_if (negb by_path && (pocPathFromArgs blob <>s? "")) (poc (pocPathFromArgs blob)) ++
  only_if (isBuildTool (sp_Tool st) || isBuildToolArgs (sp_Args st))
    (sig SignalArtifactBuildArtifact
       (if isBuildTool (sp_Tool st) then "build tool " +:+ sp_Tool st else "build tool in args")
       EvidenceArtifact (sp_Tool st)) ++
  only_if (str_in (sp_ArtifactMagic st) ["ELF"; "PE"])
    (sig SignalArtifactBuildArtifact ("artifact magic " +:+ sp_ArtifactMagic st) EvidenceArtifact (sp_ArtifactMagic st)) ++
  ((fun m => sig SignalRuntimeMemoryCorruption m EvidenceRuntimeMarker m) <$> matchMarkers markers memoryCorruptionMarkers) ++
  ((fun m => sig SignalRuntimeSandboxEscape m EvidenceRuntimeMarker m) <$> matchMarkers markers sandboxEscapeMarkers).

(** Signals 6 to 8 from the structured effect. *)
Definition effect_signals (st : Step) : list CapSignal :=
  if sp_Effect st =s? EffectHostExec then [exec_signal st]
  else if sp_Effect st =s? EffectNetEgress then [egress_signal st]
  else if sp_Effect st =s? EffectFileAccess then
    let filePath := if sp_Path st <>s? "" then sp_Path st else sp_EffectTarget st in
    match PathOutsideWorkspace filePath (da_WorkspaceRoot (sp_Declared st)) with
    | Val true => [sig SignalBoundaryFileOutside ("file " +:+ filePath) EvidenceBoundaryRequest filePath]
    | _ => []
    end
  else [].

Definition ExtractSignals (st : Step) : list CapSignal :=
  if (0 <? length (sp_Signals st))%nat then sp_Signals st
  else
    let out := observation_signals st ++ effect_signals st in
    let out := out ++ only_if (negb (hasSignal out SignalBoundaryHostExec) && hostExecFromArgs st) (exec_signal st) in
    let out := out ++ only_if (negb (hasSignal out SignalBoundaryEgress) && egressFromArgs st) (egress_signal st) in
    dedupByKind out.
End signals.

Definition deriveEffectKind (signals : list CapSignal) : string :=
  if hasSignalLevel signals SignalBoundaryHostExec EvidenceBoundaryRequest then EffectHostExec
  else if hasSignalLevel signals SignalBoundaryEgress EvidenceBoundaryRequest then EffectNetEgress
  else "".

Definition bindDerivedTarget `{GoUnicode} (st : Step) (kind : string) : Step :=
  if kind =s? EffectHostExec then
    let exe := if isHostExecToolName (ToLower (sp_Tool st))
               then canonicalCommandToken (ToLower (sp_Tool st)) else "" in
    with_effect st EffectHostExec exe exe
  else if kind =s? EffectNetEgress then
    with_effect st EffectNetEgress (sp_Executable st)
      (if sp_EffectTarget st =s? "" then
         if addr_valid (sp_DestIP st) then sp_DestIP st
         else if sp_DestHost st <>s? "" then sp_DestHost st
         else egressURLFromArgs (sp_Args st)
       else sp_EffectTarget st)
  else st.

(** ** The capability lattice *)

Definition CapReadSandboxMem : string := "read_sandbox_mem".
Definition CapOOBRead : string := "oob_read".
Definition CapOOBWrite : string := "oob_write".
Definition CapHeapEscape : string := "heap_escape".
Definition CapNativeExec : string := "native_exec".
Definition CapHostExec : string := "host_exec".
Definition CapNetEgress : string := "net_egress".
Definition lattice : list string :=
  [CapReadSandboxMem; CapOOBRead; CapOOBWrite; CapHeapEscape; CapNativeExec; CapHostExec; CapNetEgress].

Definition newlyHeld (add held : list string) : list string := List.filter (fun c => negb (str_in c held)) add.
Definition unionLattice (before delta : list string) : list string :=
  List.filter (fun c => str_in c before || str_in c delta) lattice.

Fixpoint rank_in (l : list string) (i : Z) (c : string) : option Z :=
  match l with
  | [] => None
  | d :: l' => if d =s? c then Some i else rank_in l' (i + 1) c
  end.
Definition highestCapability (caps : list string) : string :=
  snd (foldl (fun best c => match rank_in lattice 0 c with
                            | Some r => if fst best <? r then (r, c) else best
                            | None => best
                            end) (-1, "") caps).

Definition confirmedDelta (signals : list CapSignal) (attrib : bool) (held : list string) : list string :=
  let quiet := attrib && negb (hasBoundarySignal signals) in
  newlyHeld
    ((if hasSignalLevel signals SignalBoundaryHostExec EvidenceBoundaryRequest then [CapHostExec] else []) ++
     (if hasSignalLevel signals SignalBoundaryEgress EvidenceBoundaryRequest then [CapNetEgress] else []) ++
     (if quiet && hasSignalLevel signals SignalRuntimeMemoryCorruption EvidenceRuntimeMarker
      then [CapOOBRead; CapOOBWrite] else []) ++
     (if quiet && hasSignalLevel signals SignalRuntimeSandboxEscape EvidenceRuntimeMarker
      then [CapHeapEscape; CapNativeExec] else []))
    held.

Definition requestedEffectCapability (st : Step) : string :=
  if sp_Effect st =s? EffectHostExec then CapHostExec
  else if sp_Effect st =s? EffectNetEgress then CapNetEgress
  else if sp_Effect st =s? EffectCanaryAccess then EffectCanaryAccess
  else sp_Effect st.

(** ** Receipts *)

Definition DecisionAllow : string := "ALLOW".
Definition DecisionPauseRequireProof : string := "PAUSE_REQUIRE_NEW_PROOF".
Definition ReasonEffectOutsideEnvelope : string := "effect_outside_declared_envelope".
Definition ReasonEvaluatorError : string := "evaluator_error".
Definition ReceiptVersion : Z := 1.
Definition GenesisPrevHash : string :=
  "sha256:e3b0c44298fc1c149afbf4c8996fb92427ae41e490166ae4ba7b5b37bcd8deac".
Definition ConfirmationProvisional : string := "provisional".
Definition ConfirmationConfirmed : string := "confirmed".
Definition EnvelopeStateHigh : string := "HIGH".
Definition EnvelopeStateBoundaryCrossing : string := "BOUNDARY_CROSSING".
Definition ErrorCodeInvalidStep : string := "evaluator_invalid_step".
Definition ErrorCodeInternal : string := "evaluator_internal".

Record RequiredProof := { rp_Type : string; rp_Description : string }.
Record ProvisionalCapability := {
  pc_Capability : string;
  pc_Confirmation : string;
  pc_EvidenceLevel : string
}.
Record CapReceipt := {
  cr_ReceiptVersion : Z;
  cr_SessionID : string;
  cr_StepID : Z;
  cr_DeclaredAuthority : DeclaredAuthority;
  cr_Signals : list CapSignal;
  cr_CapabilityBefore : list string;
  cr_CapabilityDelta : list string;
  cr_CapabilityAfter : list string;
  cr_ObservedCapability : string;
  cr_NominalPermissionsChanged : bool;
  cr_EffectiveAuthorityChanged : bool;
  cr_EnvelopeBefore : string;
  cr_EnvelopeAfter : string;
  cr_EnvelopeTransition : string;
  cr_Decision : string;
  cr_Reason : string;
  cr_RequiredProof : option RequiredProof;
  cr_PrevHash : string;
  cr_Hash : string;
  cr_ProvisionalCapability : option ProvisionalCapability;
  cr_CapabilityConfirmation : string
}.
Record PauseReceipt := {
  pr_ReceiptVersion : Z;
  pr_SessionID : string;
  pr_StepID : Z;
  pr_Decision : string;
  pr_Reason : string;
  pr_ErrorCode : string;
  pr_Detail : string;
  pr_PrevHash : string;
  pr_Hash : string
}.
Definition with_receipt_hash (r : CapReceipt) (prev hash : string) : CapReceipt := {|
  cr_ReceiptVersion := cr_ReceiptVersion r; cr_SessionID := cr_SessionID r; cr_StepID := cr_StepID r;
  cr_DeclaredAuthority := cr_DeclaredAuthority r; cr_Signals := cr_Signals r;
  cr_CapabilityBefore := cr_CapabilityBefore r; cr_CapabilityDelta := cr_CapabilityDelta r;
  cr_CapabilityAfter := cr_CapabilityAfter r; cr_ObservedCapability := cr_ObservedCapability r;
  cr_NominalPermissionsChanged := cr_NominalPermissionsChanged r;
  cr_EffectiveAuthorityChanged := cr_EffectiveAuthorityChanged r;
  cr_EnvelopeBefore := cr_EnvelopeBefore r; cr_EnvelopeAfter := cr_EnvelopeAfter r;
  cr_EnvelopeTransition := cr_EnvelopeTransition r; cr_Decision := cr_Decision r; cr_Reason := cr_Reason r;
  cr_RequiredProof := cr_RequiredProof r; cr_PrevHash := prev; cr_Hash := hash;
  cr_ProvisionalCapability := cr_ProvisionalCapability r;
  cr_CapabilityConfirmation := cr_CapabilityConfirmation r |}.
Definition with_pause_hash (r : PauseReceipt) (prev hash : string) : PauseReceipt := {|
  pr_ReceiptVersion := pr_ReceiptVersion r; pr_SessionID := pr_SessionID r; pr_StepID := pr_StepID r;
  pr_Decision := pr_Decision r; pr_Reason := pr_Reason r; pr_ErrorCode := pr_ErrorCode r;
  pr_Detail := pr_Detail r; pr_PrevHash := prev; pr_Hash := hash |}.

(** [json.Marshal] of the two receipts. *)
Class CapJSON := {
  marshal_cap_receipt : CapReceipt -> option string;
  marshal_pause_receipt : PauseReceipt -> option string
}.

Section evaluator.
Context `{GoUnicode, GoNetip, GoFS, GoCrypto, CapJSON}.

Definition HashReceipt (r : CapReceipt) : outcome string :=
  match marshal_cap_receipt (with_receipt_hash r (cr_PrevHash r) "") with
  | Some data => Val (digestOf data)
  | None => Bad ErrOther
  end.
Definition HashPauseReceipt (r : PauseReceipt) : outcome string :=
  match marshal_pause_receipt (with_pause_hash r (pr_PrevHash r) "") with
  | Some data => Val (digestOf data)
  | None => Bad ErrOther
  end.
Definition Seal (r : CapReceipt) (prevHash : string) : outcome CapReceipt :=
  let! _ := require (prevHash <>s? "") in
  let! h := HashReceipt (with_receipt_hash r prevHash (cr_Hash r)) in
  Val (with_receipt_hash r prevHash h).
Definition SealPause (r : PauseReceipt) (prevHash : string) : outcome PauseReceipt :=
  let! _ := require (prevHash <>s? "") in
  let! h := HashPauseReceipt (with_pause_hash r prevHash (pr_Hash r)) in
  Val (with_pause_hash r prevHash h).

Definition ClassifyError (e : EvalError) : string :=
  match e with ErrInvalidStep => ErrorCodeInvalidStep | ErrOther => ErrorCodeInternal end.

Definition NewPauseReceipt (sessionID : string) (stepID : Z) (prevHash : string) (e : EvalError)
    : outcome PauseReceipt :=
  let! _ := require (prevHash <>s? "") in
  SealPause {| pr_ReceiptVersion := ReceiptVersion; pr_SessionID := sessionID; pr_StepID := stepID;
               pr_Decision := DecisionPauseRequireProof; pr_Reason := ReasonEvaluatorError;
               pr_ErrorCode := ClassifyError e; pr_Detail := ""; pr_PrevHash := prevHash; pr_Hash := "" |}
    prevHash.

(** ** The evaluator of a session *)

Record ChainEvaluator := {
  ce_sessionID : string;
  ce_lastStep : Z;
  ce_lastHash : string;
  ce_held : list string;
  ce_envelope : string
}.
Definition NewChainEvaluator (sessionID : string) : outcome ChainEvaluator :=
  let! _ := require (sessionID <>s? "") in
  Val {| ce_sessionID := sessionID; ce_lastStep := 0; ce_lastHash := ""; ce_held := [CapReadSandboxMem];
         ce_envelope := EnvelopeStateHigh |}.

(** The predecessor the next receipt must name. *)
Definition expected_prior (c : ChainEvaluator) : string :=
  if ce_lastStep c =? 0 then GenesisPrevHash else ce_lastHash c.

(** The checks on the step's place in the chain. *)
Definition check_chain_place (c : ChainEvaluator) (st : Step) (prior : string) : outcome unit :=
  let! _ := require (sp_SessionID st =s? ce_sessionID c) in
  let! _ := require (0 <? sp_StepID st) in
  let! _ := require ((ce_lastStep c =? 0) || (ce_lastStep c <? sp_StepID st)) in
  let! _ := require (prior <>s? "") in
  require (prior =s? expected_prior c).

(** The step that is attributed: with an empty effect, the one derived from
    its boundary signals; a boundary that cannot be typed is an error. *)
Definition attributed_step (st : Step) (signals : list CapSignal) : outcome Step :=
  if sp_Effect st <>s? "" then Val st
  else
    let kind := deriveEffectKind signals in
    if kind <>s? "" then Val (bindDerivedTarget st kind)
    else
      let! _ := require (negb (hasBoundarySignal signals)) in
      let fp := fileSurfacePath st in
      if fp =s? "" then Val st
      else
        let! outside := PathOutsideWorkspace fp (da_WorkspaceRoot (sp_Declared st)) in
        let! _ := require (negb outside) in
        Val st.

Definition step_receipt (c : ChainEvaluator) (st : Step) (signals : list CapSignal) (attrib : bool) : CapReceipt :=
  let delta := confirmedDelta signals attrib (ce_held c) in
  let observed := highestCapability delta in
  let after := if attrib then ce_envelope c else EnvelopeStateBoundaryCrossing in
  {| cr_ReceiptVersion := ReceiptVersion; cr_SessionID := sp_SessionID st; cr_StepID := sp_StepID st;
     cr_DeclaredAuthority := sp_Declared st; cr_Signals := signals;
     cr_CapabilityBefore := ce_held c; cr_CapabilityDelta := delta;
     cr_CapabilityAfter := unionLattice (ce_held c) delta;
     cr_ObservedCapability := if negb attrib && (observed =s? "") then requestedEffectCapability st else observed;
     cr_NominalPermissionsChanged := false;
     cr_EffectiveAuthorityChanged := (0 <? length delta)%nat || (after =s? EnvelopeStateBoundaryCrossing);
     cr_EnvelopeBefore := ce_envelope c; cr_EnvelopeAfter := after;
     cr_EnvelopeTransition := ce_envelope c +:+ " -> " +:+ after;
     cr_Decision := if attrib then DecisionAllow else DecisionPauseRequireProof;
     cr_Reason := if attrib then "" else ReasonEffectOutsideEnvelope;
     cr_RequiredProof := if attrib then None
       else Some {| rp_Type := "fresh_authorization";
                    rp_Description := "human approval for effect outside declared envelope" |};
     cr_PrevHash := ""; cr_Hash := "";
     cr_ProvisionalCapability := if (sp_Primitive st <>s? "") && (length delta =? 0)%nat
       then Some {| pc_Capability := sp_Primitive st; pc_Confirmation := ConfirmationProvisional;
                    pc_EvidenceLevel := EvidenceDeclaredOnly |} else None;
     cr_CapabilityConfirmation := if (0 <? length delta)%nat then ConfirmationConfirmed
       else ConfirmationProvisional |}.

Definition after_receipt (c : ChainEvaluator) (r : CapReceipt) : ChainEvaluator := {|
  ce_sessionID := ce_sessionID c; ce_lastStep := cr_StepID r; ce_lastHash := cr_Hash r;
  ce_held := cr_CapabilityAfter r; ce_envelope := cr_EnvelopeAfter r |}.

Definition Eval_step (c : ChainEvaluator) (st : Step) (prior : string) : outcome (ChainEvaluator * CapReceipt) :=
  let! _ := check_chain_place c st prior in
  let! _ := ValidateAuthority (sp_Declared st) in
  let st := with_declared st (normalizeDeclaredAuthority (sp_Declared st)) in
  let signals := ExtractSignals st in
  let! attribStep := attributed_step st signals in
  let! attrib := EffectAttributable attribStep in
  let! r := Seal (step_receipt c st signals attrib) prior in
  Val (after_receipt c r, r).

Definition AdvanceAfterError (c : ChainEvaluator) (stepID : Z) (pauseHash : string) : ChainEvaluator :=
  if (stepID <=? 0) || (pauseHash =s? "") then c
  else if negb (ce_lastStep c =? 0) && (stepID <=? ce_lastStep c) then c
  else {| ce_sessionID := ce_sessionID c; ce_lastStep := stepID; ce_lastHash := pauseHash;
          ce_held := ce_held c; ce_envelope := ce_envelope c |}.

(** ** The proxy's adapter

    One mediated call, under [capEvalMu]: the state is the evaluator, the
    step counter and the last hash; the step is built with the new counter. *)
Inductive CapArtifact := ArtReceipt (r : CapReceipt) | ArtPause (r : PauseReceipt).

Record CapState := { ca_eval : ChainEvaluator; ca_stepID : Z; ca_lastHash : string }.

Definition pauseEvaluatorError : string := "capability boundary: PAUSE_REQUIRE_NEW_PROOF (evaluator error)".
Definition pauseOutsideEnvelope : string :=
  "capability boundary: PAUSE_REQUIRE_NEW_PROOF (effect outside declared envelope)".

Definition capability_account (sessionID : string) (s : CapState) (mk : Z -> Step)
    : CapState * option CapArtifact * string :=
  let id := ca_stepID s + 1 in
  match Eval_step (ca_eval s) (mk id) (ca_lastHash s) with
  | Val (ev, r) =>
      ({| ca_eval := ev; ca_stepID := id; ca_lastHash := cr_Hash r |}, Some (ArtReceipt r),
       if cr_Decision r =s? DecisionPauseRequireProof then pauseOutsideEnvelope else "")
  | Bad e =>
      match NewPauseReceipt sessionID id (ca_lastHash s) e with
      | Val pr =>
          ({| ca_eval := AdvanceAfterError (ca_eval s) id (pr_Hash pr); ca_stepID := id; ca_lastHash := pr_Hash pr |},
           Some (ArtPause pr), pauseEvaluatorError)
      | Bad _ => ({| ca_eval := ca_eval s; ca_stepID := id; ca_lastHash := ca_lastHash s |}, None, pauseEvaluatorError)
      end
  end.

(** [newCapabilityEvaluator] and the genesis hash of the proxy. *)
Definition new_cap_state (sessionID : string) : outcome CapState :=
  let! ev := NewChainEvaluator sessionID in
  Val {| ca_eval := ev; ca_stepID := 0; ca_lastHash := GenesisPrevHash |}.
End evaluator.
