(* ===== verification/CapabilitySpec.v ===== *)
(** What the capability accounting guarantees: its artifacts form one
    hash-linked chain whatever the evaluator answers, capabilities only
    accumulate, and a call of the proxy goes through without a pause exactly
    when it shows no boundary surface. *)
From stdpp Require Import base strings gmap list sorting.
From Stdlib Require Import ZArith Lia Ascii.
From S2P Require Import Prelude GoStrings GoLib GoPath Capability CapabilityEval.
#[local] Open Scope Z_scope.

Lemma bind_Val {A B} (m : outcome A) (k : A -> outcome B) b :
  outcome_bind m k = Val b <-> exists a, m = Val a /\ k a = Val b.
Proof.
  destruct m as [a|e]; cbn; split.
  - intros Hk. by exists a.
  - by intros (? & [= <-] & Hk).
  - done.
  - by intros (? & ? & ?).
Qed.
Lemma require_Val b u : require b = Val u <-> b = true.
Proof. destruct b, u; cbn; split; done. Qed.

(** ** Containment *)

Section containment.
Context `{GoUnicode, GoNetip, GoFS}.

(** A path is inside the workspace when it is below the root both as it is
    written and after its existing ancestors' links are followed. *)
Definition inside (p ws : string) : Prop :=
  exists abs root rroot resolved residual,
    p <> "" /\ ws <> "" /\ Abs p = Some abs /\ Abs ws = Some root /\ EvalSymlinks root = Some rroot /\
    (exists rest, abs = root ++ rest) /\ resolveExistingAncestors abs = Val (resolved, residual) /\
    exists rest, resolved ++ residual = rroot ++ rest.

Lemma PathOutsideWorkspace_false p ws : PathOutsideWorkspace p ws = Val false <-> inside p ws.
Proof.
  unfold PathOutsideWorkspace, inside. destruct ((p =s? "") || (ws =s? "")) eqn:E.
  { split; [done|]. intros (? & ? & ? & ? & ? & Hp & Hw & _).
    apply orb_true_iff in E as [E%str_eqb_true|E%str_eqb_true]; done. }
  apply orb_false_iff in E as [Hp%str_eqb_false Hw%str_eqb_false].
  destruct (Abs p) as [abs|] eqn:Ea; cbn [outcome_bind or_invalid]; [|split; [done|intros (? & ? & ? & ? & ? & _ & _ & ? & _); congruence]].
  destruct (Abs ws) as [root|] eqn:Er; cbn [outcome_bind or_invalid]; [|split; [done|intros (? & ? & ? & ? & ? & _ & _ & _ & ? & _); congruence]].
  destruct (EvalSymlinks root) as [rroot|] eqn:Es; cbn [outcome_bind or_invalid];
    [|split; [done|intros (? & ? & ? & ? & ? & _ & _ & _ & [= <-] & ? & _); congruence]].
  destruct (escapes (Rel root abs)) eqn:Eo.
  { split; [done|]. intros (a & r & ? & ? & ? & _ & _ & [= <-] & [= <-] & _ & Hin & _).
    apply Rel_inside in Hin. congruence. }
  apply Rel_inside in Eo.
  destruct (resolveExistingAncestors abs) as [[resolved residual]|e] eqn:Ex; cbn [outcome_bind fst snd].
  - split.
    + intros [= Hx]. apply Rel_inside in Hx. exists abs, root, rroot, resolved, residual. by split_and!.
    + intros (a & r & rr & rs & rd & _ & _ & [= <-] & [= <-] & Hs & _ & Hx & Hin).
      rewrite Hs in Es. injection Es as <-. rewrite Ex in Hx. injection Hx as <- <-. f_equal. by apply Rel_inside.
  - split; [done|]. intros (? & ? & ? & ? & ? & _ & _ & [= <-] & [= <-] & _ & _ & ? & _). congruence.
Qed.

(** The walk up to an existing ancestor ends, and fails only when not even
    the root directory resolves. *)
Lemma resolve_ancestors_root rcur residual :
  (exists e, resolve_ancestors rcur residual = Bad e) -> EvalSymlinks [] = None.
Proof.
  revert residual. induction rcur as [|base parent IH]; intros residual [e He]; cbn in He.
  - by destruct (EvalSymlinks []).
  - destruct (EvalSymlinks (rev parent ++ [base])) as [r|]; [done|]. by eapply IH; eexists.
Qed.
Lemma resolve_ancestors_path rcur residual resolved rest :
  resolve_ancestors rcur residual = Val (resolved, rest) ->
  exists k, EvalSymlinks (rev (drop k rcur)) = Some resolved /\ rest = rev (take k rcur) ++ residual.
Proof.
  revert residual. induction rcur as [|base parent IH]; intros residual; cbn [resolve_ancestors].
  - destruct (EvalSymlinks (rev [])) eqn:E; [|done]. intros [= <- <-]. by exists 0%nat.
  - destruct (EvalSymlinks (rev (base :: parent))) eqn:E.
    + intros [= <- <-]. by exists 0%nat.
    + intros (k & Hk & ->)%IH. exists (S k). split; [done|]. cbn. by rewrite <- app_assoc.
Qed.
End containment.

(** ** The signals of a call *)

Section signals_spec.
Context `{GoUnicode, GoNetip, GoFS, GoCrypto}.

Lemma hasSignal_app l l' k : hasSignal (l ++ l') k = hasSignal l k || hasSignal l' k.
Proof. apply existsb_app. Qed.

(** Deduplication keeps every kind; where all signals of a kind have one
    level, it keeps the kind at that level. *)
Lemma dedup_level seen l k lev :
  (forall s, In s l -> sn_Kind s = k -> sn_EvidenceLevel s = lev) ->
  hasSignalLevel (dedup_from seen l) k lev = negb (str_in k seen) && hasSignal l k.
Proof.
  revert seen. induction l as [|s l IH]; intros seen Hl; cbn [dedup_from].
  { cbn. by rewrite andb_false_r. }
  assert (Hl' : forall x, In x l -> sn_Kind x = k -> sn_EvidenceLevel x = lev) by (intros; apply Hl; cbn; auto).
  change (hasSignal (s :: l) k) with ((sn_Kind s =s? k) || hasSignal l k).
  destruct (sn_Kind s =s? k) eqn:Ek.
  - apply str_eqb_true in Ek. rewrite Ek. destruct (str_in k seen) eqn:Es; [rewrite IH, Es; done|].
    unfold hasSignalLevel. cbn [existsb]. rewrite Ek, str_eqb_refl, (Hl s), str_eqb_refl by (cbn; auto). done.
  - destruct (str_in (sn_Kind s) seen); [rewrite IH by done; by rewrite orb_false_l|].
    unfold hasSignalLevel in IH |- *. cbn [existsb]. rewrite Ek, andb_false_l, orb_false_l, IH by done.
    unfold str_in. cbn [existsb]. by rewrite Ek.
Qed.
Lemma dedup_boundary seen l :
  (forall k, isBoundaryKind k = true -> str_in k seen = false) ->
  hasBoundarySignal (dedup_from seen l) = hasBoundarySignal l.
Proof.
  revert seen. induction l as [|s l IH]; intros seen Hseen; cbn [dedup_from]; [done|].
  change (hasBoundarySignal (s :: l)) with (isBoundaryKind (sn_Kind s) || hasBoundarySignal l).
  destruct (str_in (sn_Kind s) seen) eqn:Es.
  - rewrite IH by done. destruct (isBoundaryKind (sn_Kind s)) eqn:Eb; [|done]. rewrite Hseen in Es; done.
  - change (hasBoundarySignal (s :: ?x)) with (isBoundaryKind (sn_Kind s) || hasBoundarySignal x).
    destruct (isBoundaryKind (sn_Kind s)) eqn:Eb; [done|]. cbn [orb]. apply IH. intros k Hk.
    unfold str_in. cbn [existsb]. fold (str_in k seen). rewrite (Hseen k Hk), orb_false_r.
    apply str_eqb_false. intros <-. congruence.
Qed.

Lemma in_only_if b s x : In x (only_if b s) -> x = s.
Proof. destruct b; [|done]. by intros [->|[]]. Qed.

Lemma observation_kinds st s : In s (observation_signals st) -> isBoundaryKind (sn_Kind s) = false.
Proof.
  unfold observation_signals.
  rewrite !in_app_iff, <- !list_elem_of_In, !list_elem_of_fmap.
  setoid_rewrite list_elem_of_In.
  intros [->%in_only_if|[->%in_only_if|[->%in_only_if|[->%in_only_if|[->%in_only_if|[(m & -> & _)|(m & -> & _)]]]]]];
    reflexivity.
Qed.
Lemma observation_quiet st k : isBoundaryKind k = true -> hasSignal (observation_signals st) k = false.
Proof.
  intros Hk. apply not_true_is_false. intros (s & Hs & <-%str_eqb_true)%existsb_exists.
  apply observation_kinds in Hs. congruence.
Qed.

(** With no structured effect and no signals of its own, a call shows a
    boundary signal exactly on its host execution and egress surfaces. *)
Lemma quiet_signals st :
  sp_Signals st = [] -> sp_Effect st = "" ->
  let s := ExtractSignals st in
  hasSignalLevel s SignalBoundaryHostExec EvidenceBoundaryRequest = hostExecFromArgs st /\
  hasSignalLevel s SignalBoundaryEgress EvidenceBoundaryRequest = egressFromArgs st /\
  hasBoundarySignal s = hostExecFromArgs st || egressFromArgs st.
Proof.
  intros Hs He. unfold ExtractSignals, dedupByKind. rewrite Hs. cbn [length Nat.ltb Nat.leb].
  replace (effect_signals st) with (@nil CapSignal) by (unfold effect_signals; by rewrite He).
  rewrite app_nil_r.
  set (obs := observation_signals st). set (he := hostExecFromArgs st). set (eg := egressFromArgs st).
  assert (Hobs : forall s, In s obs -> isBoundaryKind (sn_Kind s) = false) by apply observation_kinds.
  assert (Hq : forall k, isBoundaryKind k = true -> hasSignal obs k = false) by (intros; by apply observation_quiet).
  rewrite (Hq SignalBoundaryHostExec) by reflexivity. cbn [negb andb].
  rewrite hasSignal_app, (Hq SignalBoundaryEgress) by reflexivity.
  replace (hasSignal (only_if he (exec_signal st)) SignalBoundaryEgress) with false by (by destruct he).
  cbn [negb andb orb].
  assert (Hlev : forall k s, isBoundaryKind k = true ->
            In s ((obs ++ only_if he (exec_signal st)) ++ only_if eg (egress_signal st)) ->
            sn_Kind s = k -> sn_EvidenceLevel s = EvidenceBoundaryRequest).
  { intros k s Hk. rewrite !in_app_iff. intros [[Hin|Hs0%in_only_if]|Hs0%in_only_if]; [|by subst..].
    apply Hobs in Hin. congruence. }
  split_and!.
  - rewrite dedup_level by (intros; by eapply Hlev; [..|eassumption]). cbn [str_in existsb negb andb].
    rewrite !hasSignal_app, Hq by reflexivity. by destruct he, eg.
  - rewrite dedup_level by (intros; by eapply Hlev; [..|eassumption]). cbn [str_in existsb negb andb].
    rewrite !hasSignal_app, Hq by reflexivity. by destruct he, eg.
  - rewrite dedup_boundary by done. unfold hasBoundarySignal. rewrite !existsb_app.
    replace (existsb _ obs) with false; [by destruct he, eg|].
    symmetry. apply not_true_is_false. intros (s & Hin & Hb)%existsb_exists. rewrite Hobs in Hb; done.
Qed.
End signals_spec.

(** ** One accounted call *)

Section accounting.
Context `{GoUnicode, GoNetip, GoFS, GoCrypto, CapJSON}.

(** The adapter's state agrees with its evaluator's. *)
Record in_step (sessionID : string) (s : CapState) : Prop := {
  is_session : ce_sessionID (ca_eval s) = sessionID;
  is_hash : ca_lastHash s = expected_prior (ca_eval s);
  is_hash_ne : ca_lastHash s <> "";
  is_last : 0 <= ce_lastStep (ca_eval s) <= ca_stepID s
}.

Lemma in_step_place sessionID s st :
  in_step sessionID s -> sp_SessionID st = sessionID -> sp_StepID st = ca_stepID s + 1 ->
  check_chain_place (ca_eval s) st (ca_lastHash s) = Val tt.
Proof.
  intros [Hs Hh Hn Hl] Hse Hid. unfold check_chain_place.
  rewrite Hse, Hid, Hs, str_eqb_refl. cbn [require outcome_bind].
  replace (0 <? ca_stepID s + 1) with true by lia. cbn [require outcome_bind].
  replace (ce_lastStep (ca_eval s) <? ca_stepID s + 1) with true by lia.
  rewrite orb_true_r. cbn [require outcome_bind].
  rewrite (proj2 (str_neqb_true _ _) Hn). cbn [require outcome_bind].
  by rewrite <- Hh, str_eqb_refl.
Qed.

(** What the proxy puts in a step ([capabilityDeclaredAuthority] declares
    the server and its root, nothing else). *)
Record proxy_step (sessionID server root : string) (id : Z) (st : Step) : Prop := {
  ps_session : sp_SessionID st = sessionID;
  ps_id : sp_StepID st = id;
  ps_declared : sp_Declared st = {| da_Target := server; da_Network := []; da_Host := "";
                  da_WorkspaceRoot := root; da_DeclaredExecutables := []; da_Intent := "" |};
  ps_effect : sp_Effect st = "";
  ps_target : sp_EffectTarget st = "";
  ps_signals : sp_Signals st = []
}.

(** A call without boundary surface: it names no shell and no network tool,
    carries no URL, shell or network command under a command-bearing key and
    no network destination, and its path, if any, is in the workspace. *)
Definition quiet (root : string) (st : Step) : Prop :=
  hostExecFromArgs st = false /\ egressFromArgs st = false /\
  (sp_Path st = "" \/ inside (sp_Path st) (Clean root)).

Lemma no_declared_exec st :
  sp_Effect st = EffectHostExec -> da_DeclaredExecutables (sp_Declared st) = [] ->
  EffectAttributable st <> Val true.
Proof.
  intros He Hd. unfold EffectAttributable. rewrite He. change (EffectHostExec =s? EffectHostExec) with true. cbn iota.
  intros (b & _ & Ha)%bind_Val. unfold attribute_exec in Ha. rewrite Hd in Ha.
  apply bind_Val in Ha as (? & _ & Ha). apply bind_Val in Ha as (? & _ & Ha).
  apply bind_Val in Ha as (? & _ & Ha). apply bind_Val in Ha as (? & _ & Ha). done.
Qed.
Lemma no_declared_network st :
  sp_Effect st = EffectNetEgress -> da_Network (sp_Declared st) = [] -> EffectAttributable st <> Val true.
Proof.
  intros He Hd. unfold EffectAttributable. rewrite He.
  change (EffectNetEgress =s? EffectHostExec) with false. change (EffectNetEgress =s? EffectNetEgress) with true. cbn iota.
  intros (b & _ & Ha)%bind_Val. unfold attribute_egress in Ha. rewrite Hd in Ha.
  apply bind_Val in Ha as (? & _ & Ha). apply bind_Val in Ha as (? & _ & Ha). done.
Qed.

Lemma quiet_destination st : egressFromArgs st = false -> structuredDestination st = Val false.
Proof. unfold egressFromArgs. by destruct (structuredDestination st) as [[]|]. Qed.

(** The reduction of a well placed step of the proxy up to its attribution. *)
Lemma attribution_of_quiet sessionID server root id st :
  proxy_step sessionID server root id st -> root <> "" ->
  let st' := with_declared st (normalizeDeclaredAuthority (sp_Declared st)) in
  (let! a := attributed_step st' (ExtractSignals st') in EffectAttributable a) = Val true <-> quiet root st.
Proof.
  intros [_ _ Hd He Ht Hs] Hne st'.
  destruct (quiet_signals st') as (Hx & Hg & Hb); [done..|].
  change (hostExecFromArgs st') with (hostExecFromArgs st) in *.
  change (egressFromArgs st') with (egressFromArgs st) in *.
  assert (Hroot : da_WorkspaceRoot (sp_Declared st') = Clean root).
  { unfold st'. cbn. rewrite Hd. cbn. by rewrite (proj2 (str_neqb_true _ _) Hne). }
  unfold attributed_step. change (sp_Effect st') with (sp_Effect st). rewrite He. cbn [String.eqb negb].
  unfold deriveEffectKind, quiet. rewrite Hx, Hg, Hb.
  destruct (hostExecFromArgs st).
  { split; [|by intros [? _]]. change (EffectHostExec <>s? "") with true. cbn [outcome_bind].
    intros Ha. exfalso. revert Ha. apply no_declared_exec; [done|]. cbn. by rewrite Hd. }
  destruct (egressFromArgs st) eqn:Eg.
  { split; [|by intros (_ & ? & _)]. change (EffectNetEgress <>s? "") with true. cbn [outcome_bind].
    intros Ha. exfalso. revert Ha. apply no_declared_network; [done|]. cbn. by rewrite Hd. }
  cbn [String.eqb negb orb require outcome_bind].
  assert (Hattr : EffectAttributable st' = Val true).
  { unfold EffectAttributable.
    change (structuredDestination st') with (structuredDestination st). rewrite quiet_destination by done.
    change (sp_Effect st') with (sp_Effect st). by rewrite He. }
  unfold fileSurfacePath. change (sp_Path st') with (sp_Path st). change (sp_EffectTarget st') with (sp_EffectTarget st).
  rewrite Ht. destruct (sp_Path st <>s? "") eqn:Ep; cycle 1.
  { apply str_neqb_false in Ep. cbn [String.eqb outcome_bind]. rewrite Hattr. by split; [intros _; split_and!; auto|]. }
  apply str_neqb_true in Ep. rewrite (proj2 (str_eqb_false _ _) Ep).
  split.
  - intros (a & (out & Ho & Hr)%bind_Val & _)%bind_Val. apply bind_Val in Hr as ([] & Hr%require_Val & _).
    destruct out; [done|]. split_and!; [done..|right]. by rewrite <- Hroot; apply PathOutsideWorkspace_false.
  - intros (_ & _ & [?|Hin]); [done|].
    rewrite Hroot. apply PathOutsideWorkspace_false in Hin. by rewrite Hin.
Qed.

(** What a successful evaluation seals. *)
Lemma Eval_step_Val c st prior ev r :
  Eval_step c st prior = Val (ev, r) ->
  exists st' signals attrib data,
    sp_StepID st' = sp_StepID st /\ sp_SessionID st' = sp_SessionID st /\ prior <> "" /\
    marshal_cap_receipt (with_receipt_hash (step_receipt c st' signals attrib) prior "") = Some data /\
    r = with_receipt_hash (step_receipt c st' signals attrib) prior (digestOf data) /\ ev = after_receipt c r.
Proof.
  unfold Eval_step. intros (? & _ & (? & _ & (a & _ & (attrib & _ & (r' & Hs & [= <- <-])%bind_Val)%bind_Val)%bind_Val)%bind_Val)%bind_Val.
  unfold Seal, HashReceipt in Hs. apply bind_Val in Hs as ([] & Hp%require_Val%str_neqb_true & Hs).
  match type of Hs with context [marshal_cap_receipt ?r] => destruct (marshal_cap_receipt r) as [data|] eqn:Ed; [|done] end.
  cbn in Hs. injection Hs as <-.
  eexists (with_declared st _), _, attrib, data. split_and!; [done..|exact Ed|done|done].
Qed.

(** What the evaluator answers on a well placed step of the proxy. *)
Lemma Eval_step_quiet sessionID server root s st :
  in_step sessionID s -> proxy_step sessionID server root (ca_stepID s + 1) st ->
  (forall r, is_Some (marshal_cap_receipt r)) ->
  (exists ev r, Eval_step (ca_eval s) st (ca_lastHash s) = Val (ev, r) /\ cr_Decision r = DecisionAllow) <->
  server <> "" /\ root <> "" /\ quiet root st.
Proof.
  intros Hin Hst Hjson. unfold Eval_step.
  rewrite (in_step_place sessionID) by (done || by destruct Hst). cbn [outcome_bind].
  unfold ValidateAuthority. rewrite (ps_declared _ _ _ _ _ Hst).
  cbn [da_Target da_WorkspaceRoot da_Network da_Host da_DeclaredExecutables forallb].
  destruct (server <>s? "") eqn:Esv; cbn [require outcome_bind]; cycle 1.
  { apply str_neqb_false in Esv. split; [by intros (? & ? & ? & _)|by intros [? _]]. }
  destruct (root <>s? "") eqn:Ert; cbn [require outcome_bind]; cycle 1.
  { apply str_neqb_false in Ert. split; [by intros (? & ? & ? & _)|by intros (_ & ? & _)]. }
  apply str_neqb_true in Esv, Ert. cbn [String.eqb orb require outcome_bind].
  pose proof (attribution_of_quiet _ _ _ _ _ Hst Ert) as Hq. cbn zeta in Hq.
  rewrite (ps_declared _ _ _ _ _ Hst) in Hq.
  set (st' := with_declared st _) in *.
  destruct (attributed_step st' (ExtractSignals st')) as [a|] eqn:Ea; cbn [outcome_bind] in Hq |- *; cycle 1.
  { split; [by intros (? & ? & ? & _)|]. intros (_ & _ & Hqt). by apply Hq in Hqt. }
  destruct (EffectAttributable a) as [attrib|]; cbn [outcome_bind]; cycle 1.
  { split; [by intros (? & ? & ? & _)|]. intros (_ & _ & Hqt). by apply Hq in Hqt. }
  unfold Seal, HashReceipt. rewrite (proj2 (str_neqb_true _ _) (is_hash_ne _ _ Hin)). cbn [require outcome_bind].
  match goal with |- context [marshal_cap_receipt ?r] => destruct (Hjson r) as [data ->] end. cbn [outcome_bind].
  split.
  - intros (ev & r & [= <- <-] & Hr). split_and!; [done..|]. apply Hq. cbn in Hr. by destruct attrib.
  - intros (_ & _ & Hqt). apply Hq in Hqt as [= ->]. eexists _, _. by split.
Qed.

(** A mediated call of a proxy that opted in is accounted for and goes on
    without a pause exactly when the declared authority is complete and the
    call shows no boundary surface.  Every other call is paused for
    approval: a shell or network tool, a shell, network command or URL under
    a command-bearing argument, a network destination, a path outside the
    workspace or one that cannot be resolved. *)
Theorem accounting_pauses_iff (sessionID server root : string) (s : CapState) (mk : Z -> Step)
    (Hin : in_step sessionID s) (Hst : proxy_step sessionID server root (ca_stepID s + 1) (mk (ca_stepID s + 1)))
    (Hjson : forall r, is_Some (marshal_cap_receipt r)) :
  snd (capability_account sessionID s mk) = "" <->
  server <> "" /\ root <> "" /\ quiet root (mk (ca_stepID s + 1)).
Proof.
  rewrite <- (Eval_step_quiet sessionID server root s) by done. unfold capability_account.
  destruct (Eval_step _ _ _) as [[ev r]|e] eqn:E; cbn [snd].
  - destruct (cr_Decision r =s? DecisionPauseRequireProof) eqn:Ed.
    + apply str_eqb_true in Ed. split; [done|]. intros (? & ? & [= <- <-] & Hr). by rewrite Ed in Hr.
    + split; [|done]. intros _. exists ev, r. split; [done|].
      apply Eval_step_Val in E as (? & ? & attrib & ? & _ & _ & _ & _ & -> & _). by destruct attrib.
  - split; [by destruct (NewPauseReceipt _ _ _ _)|by intros (? & ? & ? & _)].
Qed.
(** ** The chain of artifacts *)

Definition sealed_receipt (r : CapReceipt) : Prop := exists data,
  marshal_cap_receipt (with_receipt_hash r (cr_PrevHash r) "") = Some data /\ cr_Hash r = digestOf data.
Definition sealed_pause (p : PauseReceipt) : Prop := exists data,
  marshal_pause_receipt (with_pause_hash p (pr_PrevHash p) "") = Some data /\ pr_Hash p = digestOf data.

(** The artifacts continue a chain at hash [h], step [id], held capabilities
    [held] and envelope [env]: each names its predecessor's hash, is sealed
    over its own content, has a later step, and starts from the capabilities
    and the envelope its predecessor left.  A receipt adds its delta to the
    capabilities; the envelope stays as it is or is crossed for good. *)
Fixpoint linked (h : string) (id : Z) (held : list string) (env : string) (arts : list CapArtifact) : Prop :=
  match arts with
  | [] => True
  | ArtReceipt r :: rest =>
      cr_PrevHash r = h /\ sealed_receipt r /\ id < cr_StepID r /\
      cr_CapabilityBefore r = held /\ cr_EnvelopeBefore r = env /\
      cr_CapabilityAfter r = unionLattice held (cr_CapabilityDelta r) /\
      (cr_Decision r = DecisionAllow /\ cr_EnvelopeAfter r = env \/
       cr_Decision r = DecisionPauseRequireProof /\ cr_EnvelopeAfter r = EnvelopeStateBoundaryCrossing) /\
      linked (cr_Hash r) (cr_StepID r) (cr_CapabilityAfter r) (cr_EnvelopeAfter r) rest
  | ArtPause p :: rest =>
      pr_PrevHash p = h /\ sealed_pause p /\ id < pr_StepID p /\
      linked (pr_Hash p) (pr_StepID p) held env rest
  end.
Definition art_hash (a : CapArtifact) : string :=
  match a with ArtReceipt r => cr_Hash r | ArtPause p => pr_Hash p end.
Definition tip_hash (h : string) (arts : list CapArtifact) : string := default h (art_hash <$> last arts).

(** The calls of a session, in the order [capEvalMu] serializes them. *)
Fixpoint account_all (sessionID : string) (s : CapState) (calls : list (Z -> Step)) : CapState * list CapArtifact :=
  match calls with
  | [] => (s, [])
  | mk :: rest =>
      let '(s1, art, _) := capability_account sessionID s mk in
      let '(s2, arts) := account_all sessionID s1 rest in
      (s2, match art with Some a => a :: arts | None => arts end)
  end.

Lemma unionLattice_keeps held delta c : In c lattice -> In c held -> In c (unionLattice held delta).
Proof. intros Hl Hh. apply filter_In. split; [done|]. by rewrite (proj2 (str_in_In _ _) Hh). Qed.

Lemma tip_hash_cons h a arts : tip_hash h (a :: arts) = tip_hash (art_hash a) arts.
Proof. unfold tip_hash. rewrite last_cons. by destruct (last arts). Qed.

Lemma NewPauseReceipt_Val sessionID id prev e p :
  NewPauseReceipt sessionID id prev e = Val p ->
  pr_PrevHash p = prev /\ sealed_pause p /\ pr_StepID p = id /\ pr_Hash p <> "".
Proof.
  unfold NewPauseReceipt, SealPause, HashPauseReceipt.
  intros (? & _ & (? & _ & (h & Hh & [= <-])%bind_Val)%bind_Val)%bind_Val.
  match type of Hh with context [marshal_pause_receipt ?r] => destruct (marshal_pause_receipt r) as [data|] eqn:Ed; [|done] end.
  injection Hh as <-. split_and!; [done| |done|done]. by exists data.
Qed.

(** One accounted call keeps the adapter in step with its evaluator and
    continues the chain. *)
Lemma capability_account_ok sessionID s mk :
  in_step sessionID s -> (forall id, sp_SessionID (mk id) = sessionID /\ sp_StepID (mk id) = id) ->
  let '(s', art, _) := capability_account sessionID s mk in
  in_step sessionID s' /\
  let ev := ca_eval s in let ev' := ca_eval s' in
  match art with
  | Some a => art_hash a = ca_lastHash s' /\
      forall rest, linked (ca_lastHash s') (ce_lastStep ev') (ce_held ev') (ce_envelope ev') rest ->
        linked (ca_lastHash s) (ce_lastStep ev) (ce_held ev) (ce_envelope ev) (a :: rest)
  | None => ca_lastHash s' = ca_lastHash s /\ ev' = ev
  end.
Proof.
  intros Hin Hmk. unfold capability_account. destruct (Hmk (ca_stepID s + 1)) as [Hse Hid].
  destruct Hin as [Hs Hh Hn Hl].
  destruct (Eval_step _ _ _) as [[ev r]|e] eqn:E.
  - apply Eval_step_Val in E as (st' & sg & attrib & data & Hst & Hss & _ & Hd & -> & ->).
    cbn [ca_lastHash ca_eval ca_stepID after_receipt ce_lastStep ce_held ce_envelope ce_lastHash cr_Hash cr_StepID
      with_receipt_hash step_receipt cr_CapabilityAfter cr_EnvelopeAfter art_hash].
    assert (Hpos : sp_StepID st' = ca_stepID s + 1) by congruence. rewrite Hpos.
    split; [|split; [done|]].
    + split; cbn; [done| |done|rewrite ?Hpos; lia]. unfold expected_prior. cbn. rewrite ?Hpos. by replace (ca_stepID s + 1 =? 0) with false by lia.
    + intros rest Hrest. cbn [linked with_receipt_hash step_receipt cr_PrevHash cr_StepID cr_CapabilityBefore cr_EnvelopeBefore
        cr_CapabilityAfter cr_CapabilityDelta cr_Decision cr_EnvelopeAfter cr_Hash]. rewrite Hpos.
      split_and!; try done; [by exists data|lia|destruct attrib; auto].
  - destruct (NewPauseReceipt _ _ _ _) as [p|] eqn:Ep; cbn [ca_lastHash ca_eval ca_stepID art_hash].
    + apply NewPauseReceipt_Val in Ep as (Hp & Hse' & Hpid & Hne).
      assert (Hadv : AdvanceAfterError (ca_eval s) (ca_stepID s + 1) (pr_Hash p) =
        {| ce_sessionID := ce_sessionID (ca_eval s); ce_lastStep := ca_stepID s + 1; ce_lastHash := pr_Hash p;
           ce_held := ce_held (ca_eval s); ce_envelope := ce_envelope (ca_eval s) |}).
      { unfold AdvanceAfterError. replace (ca_stepID s + 1 <=? 0) with false by lia.
        rewrite (proj2 (str_eqb_false _ _) Hne). cbn [orb].
        replace (ca_stepID s + 1 <=? ce_lastStep (ca_eval s)) with false by lia. by rewrite andb_false_r. }
      rewrite Hadv. split; [|split; [done|]].
      * split; cbn; [done| |done|lia]. unfold expected_prior. cbn. by replace (ca_stepID s + 1 =? 0) with false by lia.
      * intros rest Hrest. cbn [linked]. cbn in Hrest. rewrite Hpid. split_and!; try done. lia.
    + split; [|done]. split; cbn; [done..|lia].
Qed.

Lemma account_all_ok sessionID s calls :
  in_step sessionID s ->
  Forall (fun mk => forall id, sp_SessionID (mk id) = sessionID /\ sp_StepID (mk id) = id) calls ->
  let '(s', arts) := account_all sessionID s calls in
  in_step sessionID s' /\ ca_lastHash s' = tip_hash (ca_lastHash s) arts /\
  linked (ca_lastHash s) (ce_lastStep (ca_eval s)) (ce_held (ca_eval s)) (ce_envelope (ca_eval s)) arts.
Proof.
  revert s. induction calls as [|mk calls IH]; intros s Hin Hmk; cbn [account_all]; [done|].
  apply Forall_cons in Hmk as [Hmk Hcalls]. pose proof (capability_account_ok sessionID s mk Hin Hmk) as Hok.
  destruct (capability_account sessionID s mk) as [[s1 art] ?]. destruct Hok as [Hin1 Hart].
  specialize (IH s1 Hin1 Hcalls). destruct (account_all sessionID s1 calls) as [s2 arts].
  destruct IH as (Hin2 & Htip & Hlinked). destruct art as [a|].
  - destruct Hart as [Ha Hlink]. split_and!; [done|by rewrite tip_hash_cons, Ha|by apply Hlink].
  - destruct Hart as [Ha Hev]. by rewrite Ha, Hev in *.
Qed.

(** C40.  Whatever calls a session makes and however the evaluator answers them,
    the artifacts of the accounting form one hash-linked chain from the
    genesis hash, with strictly later steps, accumulating capabilities and an
    envelope that is never un-crossed: an evaluator error puts a pause
    receipt in the chain instead of forking it.  The evaluator and the proxy
    never fall out of step, so no later call is rejected for its place in the
    chain. *)
Theorem accounting_chain (sessionID : string) (s0 : CapState) (calls : list (Z -> Step))
    (Hnew : new_cap_state sessionID = Val s0)
    (Hcalls : Forall (fun mk => forall id, sp_SessionID (mk id) = sessionID /\ sp_StepID (mk id) = id) calls) :
  let '(s, arts) := account_all sessionID s0 calls in
  linked GenesisPrevHash 0 [CapReadSandboxMem] EnvelopeStateHigh arts /\
  ca_lastHash s = tip_hash GenesisPrevHash arts /\
  forall st, sp_SessionID st = sessionID -> sp_StepID st = ca_stepID s + 1 ->
    check_chain_place (ca_eval s) st (ca_lastHash s) = Val tt.
Proof.
  unfold new_cap_state, NewChainEvaluator in Hnew. destruct (sessionID <>s? "") eqn:Ese; [|done]. injection Hnew as <-.
  match goal with |- context [account_all _ ?s _] => assert (Hin : in_step sessionID s) by (by split) end.
  pose proof (account_all_ok _ _ _ Hin Hcalls) as Hok. destruct (account_all _ _ _) as [s arts].
  destruct Hok as (Hin' & Htip & Hlinked). split_and!; [done..|]. intros st Hs Hid. by eapply in_step_place.
Qed.
End accounting.

(** ** Witnesses *)

Module CapabilityWitness.
(** Dotted decimals are addresses; a prefix contains the addresses that start
    with it; every path resolves to itself. *)
Definition netip : GoNetip := {|
  ParseAddr s := if all_bytes (fun c => is_digit c || Ascii.eqb "." c) s && (s <>s? "") then Some s else None;
  prefix_valid _ := true; prefix_addr p := p; prefix_masked p := p; prefix_contains p ip := HasPrefix ip p |}.
Definition fs : GoFS := {| Getwd := Some ["w"]; EvalSymlinks := Some |}.
Definition digest : GoCrypto := {| sha256_hex := fun s => s |}.
Definition json : CapJSON := {|
  marshal_cap_receipt r := Some (cr_SessionID r +:+ cr_Decision r); marshal_pause_receipt p := Some (pr_ErrorCode p) |}.

Definition authority (nets : list string) : DeclaredAuthority := {|
  da_Target := "files"; da_Network := nets; da_Host := ""; da_WorkspaceRoot := "/w";
  da_DeclaredExecutables := []; da_Intent := "" |}.
Definition call (nets : list string) (tool path : string) (args : gmap string string) (id : Z) : Step := {|
  sp_SessionID := "s"; sp_StepID := id; sp_Tool := tool; sp_Args := args; sp_Path := path; sp_Executable := "";
  sp_DestIP := ""; sp_DestHost := ""; sp_Result := ""; sp_ArtifactMagic := ""; sp_Declared := authority nets;
  sp_Effect := ""; sp_EffectTarget := ""; sp_Primitive := ""; sp_Signals := [] |}.
Definition start : CapState := {|
  ca_eval := {| ce_sessionID := "s"; ce_lastStep := 0; ce_lastHash := ""; ce_held := [CapReadSandboxMem];
                ce_envelope := EnvelopeStateHigh |};
  ca_stepID := 0; ca_lastHash := GenesisPrevHash |}.
#[local] Existing Instances ascii_unicode netip fs digest json.

Lemma start_in_step : in_step "s" start. Proof. by split. Qed.

(** A read in the workspace goes on; a traversal out of it, a shell command
    and a download are paused. *)
Example reasons :
  (fun mk => snd (capability_account "s" start mk)) <$>
    [call [] "read_file" "/w/a.txt" ∅; call [] "read_file" "/w/../etc/passwd" ∅;
     call [] "exec" "" {["command" := "make; bash -c id"]}; call [] "curl" "" ∅; call [] "write" "" {["content" := "bash"]}] =
  [""; pauseEvaluatorError; pauseEvaluatorError; pauseEvaluatorError; ""].
Proof. vm_compute. reflexivity. Qed.

(** With a declared network, the address that is attributed is the first URL
    of any argument in key order: a URL in a payload argument hides the one
    the command fetches. *)
Example payload_url_hides_destination :
  let fetch args := match Eval_step (ca_eval start) (call ["10."] "exec" "" args 1) GenesisPrevHash with
                    | Val (_, r) => cr_Decision r | Bad _ => "error" end in
  fetch {["command" := "curl http://192.0.2.1/x"]} = DecisionPauseRequireProof /\
  fetch (<["body" := "see http://10.0.0.7/"]> {["command" := "curl http://192.0.2.1/x"]}) = DecisionAllow.
Proof. vm_compute. by split. Qed.
End CapabilityWitness.

Lemma accounting_pauses_iff_witness :
  let H := ascii_unicode in let H0 := CapabilityWitness.netip in let H1 := CapabilityWitness.fs in
  let H2 := CapabilityWitness.digest in let H3 := CapabilityWitness.json in
  snd (capability_account "s" CapabilityWitness.start (CapabilityWitness.call [] "read_file" "/w/a.txt" ∅)) = "" <->
  "files" <> "" /\ "/w" <> "" /\ quiet "/w" (CapabilityWitness.call [] "read_file" "/w/a.txt" ∅ 1).
Proof.
  intros H H0 H1 H2 H3.
  refine (accounting_pauses_iff "s" "files" "/w" CapabilityWitness.start _ CapabilityWitness.start_in_step _ _);
    [by split|intros r; by eexists].
Defined.

Lemma accounting_chain_witness :
  let H := ascii_unicode in let H0 := CapabilityWitness.netip in let H1 := CapabilityWitness.fs in
  let H2 := CapabilityWitness.digest in let H3 := CapabilityWitness.json in
  let calls := [CapabilityWitness.call [] "read_file" "/w/a.txt" ∅; CapabilityWitness.call [] "curl" "" ∅;
                CapabilityWitness.call [] "read_file" "/w/a.txt" ∅] in
  let '(s, arts) := account_all "s" CapabilityWitness.start calls in
  linked GenesisPrevHash 0 [CapReadSandboxMem] EnvelopeStateHigh arts /\
  ca_lastHash s = tip_hash GenesisPrevHash arts /\
  forall st, sp_SessionID st = "s" -> sp_StepID st = ca_stepID s + 1 ->
    check_chain_place (ca_eval s) st (ca_lastHash s) = Val tt.
Proof.
  intros H H0 H1 H2 H3 calls. apply (accounting_chain "s" CapabilityWitness.start calls); [reflexivity|].
  repeat constructor.
Defined.
