(* ===== verification/CallArgs.v ===== *)
(** The arguments of a tools/call on their way through the proxy: the helpers
    of [internal/proxy/tools_call.go] and [proxy.go] that rewrite them, find a
    path or a destination in them and reduce them to the evaluator's step, and
    the instruction-authority metadata of a request
    ([tools_call.go], [instruction_authority_auth.go]).

    Encoding and decoding of JSON text are parameters ([RawJSON]).  A decoded
    map is its entries in one iteration order, with distinct keys. *)
From stdpp Require Import base strings gmap list sorting.
From Stdlib Require Import ZArith Lia Ascii.
From S2P Require Import Prelude GoStrings GoLib PolicyTypes Engine InstructionAuthority InstructionAuth.
From S2P Require Import GoPath Capability.
#[local] Open Scope Z_scope.

(** What the code asks of [encoding/json] on raw text. *)
Class RawJSON := {
  (** [json.Unmarshal] into a [map[string]json.RawMessage]; [null] gives the
      empty map *)
  raw_object : string -> option (gmap string string);
  (** [json.Marshal] of such a map *)
  marshal_raw : gmap string string -> option string;
  (** [json.Marshal] of a [map[string]any] *)
  marshal_args : list (string * any) -> option string;
  (** the [params] of a message; empty when absent *)
  wire_params : string -> option string;
  (** the strict decoder: unknown fields and trailing data are errors *)
  decode_envelope : string -> option IAEnvelope;
  (** both texts decode, to equal values *)
  semanticJSONEqual : string -> string -> bool;
  marshal_instruction_object : InstructionObject -> option string;
  marshal_evaluation_root : EvaluationRoot -> option string;
  marshal_assertion : Assertion -> option string
}.

Section rewriting.
Context `{RawJSON}.

(** [bytes.TrimSuffix(raw, "\n")] and the newline put back. *)
Definition body_of_line (raw : string) : string := TrimSuffixByte LF raw.
Definition with_newline (raw data : string) : string :=
  if last_byte_is LF raw then data +:+ String LF "" else data.

Definition rewriteArgs (raw : string) (redactedArgs : list (string * any)) : option string :=
  req ← raw_object (body_of_line raw);
  paramsRaw ← req !! "params";
  params ← raw_object paramsRaw;
  newArgs ← marshal_args redactedArgs;
  newParams ← marshal_raw (<["arguments" := newArgs]> params);
  data ← marshal_raw (<["params" := newParams]> req);
  Some (with_newline raw data).

(** ** Instruction-authority metadata *)

Definition instructionAuthorityMetaKey : string := "mcp-visor/instruction-authority/v1".

Definition jsonRawNull (b : string) : bool := TrimSpace b =s? "null".
Definition jsonRawObject (b : string) : bool :=
  match TrimSpace b with String c _ => Ascii.eqb c "{" | "" => false end.

(** The [_meta] object of the params, or the reason there is none. *)
Definition envelope_text (raw : string) : string + string :=
  let missing := inl "instruction authority envelope missing" in
  let malformed := inl "instruction authority envelope malformed" in
  match wire_params raw with
  | None => malformed
  | Some params =>
      if negb (jsonRawObject params) then malformed
      else match raw_object params with
      | None => malformed
      | Some params =>
          match params !! "_meta" with
          | None => missing
          | Some meta =>
              if jsonRawNull meta then missing
              else if negb (jsonRawObject meta) then malformed
              else match raw_object meta with
              | None => malformed
              | Some metaMap =>
                  match metaMap !! instructionAuthorityMetaKey with
                  | None => missing
                  | Some val =>
                      if jsonRawNull val then missing
                      else if negb (jsonRawObject val) then malformed else inr val
                  end
              end
          end
      end
  end.

(** [err != nil || !semanticJSONEqual(orig[key], wire)], negated; a missing
    member is the empty text. *)
Definition same_json (orig : option string) (wire : option string) : bool :=
  match wire with Some w => semanticJSONEqual (default "" orig) w | None => false end.

Definition with_assertion (env : IAEnvelope) (a : option Assertion) : IAEnvelope := {|
  ie_InstructionObject := ie_InstructionObject env; ie_EvaluationRoot := ie_EvaluationRoot env;
  ie_Assertion := a |}.

(** [inl reason] when the code returns a reason. *)
Definition classifyInstructionAuthorityEnvelope (raw : string) : string + IAEnvelope :=
  let malformed := inl "instruction authority envelope malformed" in
  match envelope_text raw with
  | inl reason => inl reason
  | inr val =>
      match decode_envelope val with
      | None => malformed
      | Some env =>
          if negb (io_SchemaVersion (ie_InstructionObject env) =? SchemaVersion) then malformed
          else match raw_object val with
          | None => malformed
          | Some orig =>
              if negb (same_json (orig !! "instruction_object") (marshal_instruction_object (ie_InstructionObject env)))
              then malformed
              else if negb (same_json (orig !! "evaluation_root") (marshal_evaluation_root (ie_EvaluationRoot env)))
              then malformed
              else match orig !! "assertion" with
              | None => inr (with_assertion env None)
              | Some assertRaw =>
                  if jsonRawNull assertRaw then inr (with_assertion env None)
                  else match ie_Assertion env with
                  | None => malformed
                  | Some a =>
                      if negb (jsonRawObject assertRaw) || negb (same_json (Some assertRaw) (marshal_assertion a))
                      then malformed else inr env
                  end
              end
          end
      end
  end.

(** [None] is an error. *)
Definition stripInstructionAuthorityMeta (raw : string) : option string :=
  req ← raw_object (body_of_line raw);
  paramsRaw ← req !! "params";
  guard (jsonRawObject paramsRaw = true);;
  params ← raw_object paramsRaw;
  metaRaw ← params !! "_meta";
  guard (jsonRawObject metaRaw = true);;
  meta ← raw_object metaRaw;
  _ ← meta !! instructionAuthorityMetaKey;
  newMeta ← marshal_raw (delete instructionAuthorityMetaKey meta);
  newParams ← marshal_raw (<["_meta" := newMeta]> params);
  out ← marshal_raw (<["params" := newParams]> req);
  Some (with_newline raw out).
End rewriting.

(** ** Paths and destinations *)

(** [m[key].(string)] when it holds a non-empty string. *)
Definition string_at (m : list (string * any)) (key : string) : option string :=
  match assoc key m with
  | Some (AString v) => if v =s? "" then None else Some v
  | _ => None
  end.
Definition first_string_at (m : list (string * any)) (keys : list string) : string :=
  default "" (head (omap (string_at m) keys)).

Definition pathKeys : list string := ["path"; "file"; "file_path"; "uri"].

Definition extractPath `{GoJSON} (callReq : ToolsCallRequest) : string :=
  if tc_Arguments callReq =s? "" then ""
  else match json_object (tc_Arguments callReq) with
  | None => ""
  | Some a => first_string_at (entries a) pathKeys
  end.

(** The authority part of a URL or host argument, without its port. *)
Definition authority_part (v : string) : string :=
  let v := match cut "://" v with Some (_, rest) => rest | None => v end in
  let v := take_until (byte_in "/?#") v in
  match cut_last ":" v with
  | Some (before, _) => if Contains before ":" then v else before
  | None => v
  end.
Definition bracket : ascii -> bool := byte_in "[]".

Section destinations.
Context `{GoUnicode} `{GoNetip}.

Definition pathArgFromRedacted (tool : string) (redactedArgs : list (string * any)) : string :=
  if negb (IsFileToolName tool) then "" else first_string_at redactedArgs pathKeys.

(** [""] is the zero [netip.Addr]. *)
Definition destIPFromArgs (tool : string) (redactedArgs : list (string * any)) : string :=
  let keys := if IsNetworkToolName tool then ["dest_ip"; "ip"; "host"; "url"] else ["dest_ip"] in
  default "" (head (omap (fun key =>
    v ← string_at redactedArgs key; ParseAddr (Trim bracket (authority_part v))) keys)).

Definition destHostFromArgs (tool : string) (redactedArgs : list (string * any)) : string :=
  let keys := if IsNetworkToolName tool then ["host"; "url"; "dest_host"; "uri"; "domain"] else ["dest_host"] in
  default "" (head (omap (fun key =>
    v ← string_at redactedArgs key;
    let v := Trim bracket (authority_part v) in
    match ParseAddr v with
    | Some _ => None
    | None => if v =s? "" then None else Some (ToLower (TrimSuffix v "."))
    end) keys)).
End destinations.

(** ** The evaluator's view of the arguments *)

Definition join_nonempty (parts : list string) : string := Join " " (List.filter (fun s => s <>s? "") parts).

(** [joinStringSlice] on a [[]any]. *)
Definition joinStringSlice (l : list any) : string :=
  join_nonempty (List.map (fun v => match v with AString s => TrimSpace s | _ => "" end) l).

(** The parts of a map are visited in the order of their keys. *)
Definition key_le (x y : string * string) : Prop := String.le x.1 y.1.
#[export] Instance key_le_dec : RelDecision key_le := fun x y => decide (String.le x.1 y.1).

Fixpoint flattenCommandSurface (v : any) : string :=
  match v with
  | AString s => TrimSpace s
  | AArray l => join_nonempty (List.map flattenCommandSurface l)
  | AMap m => join_nonempty (List.map snd
      (merge_sort key_le (List.map (fun kv => (fst kv, flattenCommandSurface (snd kv))) m)))
  | _ => ""
  end.

Definition flattenArgValue (key : string) (v : any) : string :=
  if isCommandBearingKey key then flattenCommandSurface v
  else match v with
  | AString s => s
  | AArray l => joinStringSlice l
  | _ => ""
  end.

Definition stringArgs (redactedArgs : list (string * any)) : gmap string string :=
  list_to_map (List.filter (fun kv => kv.2 <>s? "")
    (List.map (fun kv => (fst kv, flattenArgValue (fst kv) (snd kv))) redactedArgs)).

(** ** The declared authority *)

Definition findServerByName (pol : Policy) (name : string) : option Server :=
  List.find (fun srv => s_Name srv =s? name) (p_Servers pol).

Definition capabilityDeclaredAuthority (pol : Policy) (serverName : string) : DeclaredAuthority := {|
  da_Target := serverName; da_Network := []; da_Host := "";
  da_WorkspaceRoot := match findServerByName pol serverName with Some srv => s_WorkspaceRoot srv | None => "" end;
  da_DeclaredExecutables := []; da_Intent := "" |}.

Definition capability_step `{GoUnicode, GoNetip} (sessionID serverName : string) (callReq : ToolsCallRequest)
    (redactedArgs : list (string * any)) (pol : Policy) (stepID : Z) : Step := {|
  sp_SessionID := sessionID; sp_StepID := stepID; sp_Tool := tc_Name callReq; sp_Args := stringArgs redactedArgs;
  sp_Path := pathArgFromRedacted (tc_Name callReq) redactedArgs; sp_Executable := "";
  sp_DestIP := destIPFromArgs (tc_Name callReq) redactedArgs;
  sp_DestHost := destHostFromArgs (tc_Name callReq) redactedArgs; sp_Result := ""; sp_ArtifactMagic := "";
  sp_Declared := capabilityDeclaredAuthority pol serverName; sp_Effect := ""; sp_EffectTarget := "";
  sp_Primitive := ""; sp_Signals := [] |}.
