(* ===== verification/Approval.v ===== *)
(** Operator approval: [internal/approval/engine.go], and the request ids of
    [durable.go].

    The approval directory is the set of the names it holds.  What the
    operator does is an argument: the files created before each tick of the
    poll, until the timeout, or the line typed at the prompt.  Writing to the
    terminal is left out. *)
From stdpp Require Import base strings gmap list.
From Stdlib Require Import ZArith Lia Ascii.
From S2P Require Import Prelude GoStrings GoLib GoPath.
#[local] Open Scope Z_scope.

Record Request := {
  ar_ReqID : string;
  ar_Tool : string;
  ar_Server : string;
  ar_Arguments : list (string * any);
  ar_Reason : string;
  ar_RiskLevel : string;
  ar_SessionID : string;
  ar_AgentID : string
}.

(** [timeout] is read by [RequestApproval] only; the proxy passes its own. *)
Record Engine := { ap_dir : string; ap_timeout : Z; ap_cli : bool }.

Definition IsEnabled (e : Engine) : bool := (ap_dir e <>s? "") || ap_cli e.
Definition SetTimeout (e : Engine) (d : Z) : Engine := {| ap_dir := ap_dir e; ap_timeout := d; ap_cli := ap_cli e |}.
Definition NewCLIEngine (timeout : Z) : Engine := {| ap_dir := ""; ap_timeout := timeout; ap_cli := true |}.

(** [time.Duration.String]. *)
Class GoDuration := fmt_duration : Z -> string.

(** What comes first at the prompt. *)
Inductive prompt := PromptTimeout | PromptError (msg : string) | PromptLine (input : string).

(** [op_write] is the error of writing the request; [op_ticks] the names that
    appear before each tick that precedes the timeout. *)
Record Operator := { op_write : error; op_ticks : list (gset string); op_prompt : prompt }.

(** [validateApprovalFileID] ([durable.go]); the separator is ['/']. *)
Definition validateApprovalFileID (id : string) : error :=
  if id =s? "" then None
  else
    fail_if (any_byte (Ascii.eqb NUL) id) "unsafe request ID: NUL bytes are not allowed" ;;?
    fail_if (any_byte (fun c => Ascii.eqb c "/" || Ascii.eqb c BACKSLASH) id)
      "unsafe request ID: path separators are not allowed" ;;?
    fail_if ((id =s? ".") || (id =s? "..")) ("unsafe request ID: " +:+ String DQUOTE (id +:+ String DQUOTE " is not allowed")) ;;?
    fail_if (Base id <>s? id) "unsafe request ID: must be a single path component".

Definition req_file (id ext : string) : string := "req-" +:+ id +:+ ext.
Definition cleanup (id : string) (dir : gset string) : gset string :=
  dir ∖ {[req_file id ".json"; req_file id ".ok"; req_file id ".no"]}.

Section approval.
Context `{GoUnicode} `{GoDuration}.

Definition timed_out (timeout : Z) : bool * error := (false, Some ("approval timed out after " +:+ fmt_duration timeout)).

(** [waitForDecision]: the directory after it, and what it returns. *)
Fixpoint waitForDecision (ticks : list (gset string)) (id : string) (timeout : Z) (dir : gset string)
    : gset string * (bool * error) :=
  match ticks with
  | [] => (cleanup id dir, timed_out timeout)
  | created :: ticks =>
      let dir := dir ∪ created in
      if bool_decide (req_file id ".ok" ∈ dir) then (cleanup id dir, (true, None))
      else if bool_decide (req_file id ".no" ∈ dir) then (cleanup id dir, (false, None))
      else waitForDecision ticks id timeout dir
  end.

Definition requestCLIApprovalWithTimeout (op : Operator) (timeout : Z) : bool * error :=
  match op_prompt op with
  | PromptTimeout => timed_out timeout
  | PromptError msg => (false, Some ("read input: " +:+ msg))
  | PromptLine input => (TrimSpace (ToLower input) =s? "yes", None)
  end.

Definition RequestApprovalWithTimeout (e : Engine) (op : Operator) (dir : gset string) (req : Request)
    (timeout : Z) : gset string * (bool * error) :=
  if ap_cli e then (dir, requestCLIApprovalWithTimeout op timeout)
  else if negb (IsEnabled e) then (dir, (false, Some "approval backend is not configured"))
  else match validateApprovalFileID (ar_ReqID req) with
  | Some err => (dir, (false, Some err))
  | None =>
      match op_write op with
      | Some err => (dir, (false, Some ("write approval request: " +:+ err)))
      | None => waitForDecision (op_ticks op) (ar_ReqID req) timeout (dir ∪ {[req_file (ar_ReqID req) ".json"]})
      end
  end.

Definition RequestApproval (e : Engine) (op : Operator) (dir : gset string) (req : Request)
    : gset string * (bool * error) :=
  RequestApprovalWithTimeout e op dir req (ap_timeout e).

(** ** When a request is approved *)

(** The directory after the first [n] ticks. *)
Definition after_ticks (ticks : list (gset string)) (n : nat) (dir : gset string) : gset string :=
  dir ∪ ⋃ take n ticks.

Lemma waitForDecision_true ticks id timeout dir :
  (waitForDecision ticks id timeout dir).2.1 = true <->
  exists n, (n < length ticks)%nat /\ req_file id ".ok" ∈ after_ticks ticks (S n) dir /\
    forall m, (m < n)%nat -> req_file id ".no" ∉ after_ticks ticks (S m) dir.
Proof.
  unfold after_ticks. revert dir. induction ticks as [|created ticks IH]; intros dir; cbn [waitForDecision].
  { split; [done|]. intros (n & Hn & _). cbn in Hn. lia. }
  assert (forall n, dir ∪ ⋃ take (S n) (created :: ticks) = (dir ∪ created) ∪ ⋃ take n ticks) as Hstep.
  { intros n. cbn. by rewrite (assoc_L (∪)). }
  setoid_rewrite Hstep. case_bool_decide as Hok.
  - split; [intros _|done]. exists 0%nat. split_and!; [cbn; lia|set_solver|lia].
  - case_bool_decide as Hno.
    + split; [done|]. intros (n & Hn & Hin & Hbefore). destruct n as [|n].
      * cbn in Hin. set_solver.
      * specialize (Hbefore 0%nat ltac:(lia)). set_solver.
    + rewrite IH. split; intros (n & Hn & Hin & Hbefore).
      * exists (S n). cbn [length]. split_and!; [lia|exact Hin|]. intros [|m] Hm; [cbn; set_solver|].
        apply Hbefore. lia.
      * destruct n as [|n]; [cbn in Hin; set_solver|]. exists n. cbn [length] in Hn. split_and!; [lia|exact Hin|].
        intros m Hm. apply (Hbefore (S m)). lia.
Qed.

(** An affirmative answer: the word at the prompt, or an answer file under the
    id of the request while no refusal has been seen.  Nothing clears the
    directory first: a file that was there before the request is an answer too. *)
Inductive answered (e : Engine) (op : Operator) (dir : gset string) (req : Request) : Prop :=
| answered_prompt line : ap_cli e = true -> op_prompt op = PromptLine line -> TrimSpace (ToLower line) = "yes" ->
    answered e op dir req
| answered_file n : ap_cli e = false -> ap_dir e <> "" -> validateApprovalFileID (ar_ReqID req) = None -> op_write op = None ->
    (n < length (op_ticks op))%nat ->
    req_file (ar_ReqID req) ".ok" ∈ dir \/
      (exists m created, (m <= n)%nat /\ op_ticks op !! m = Some created /\ req_file (ar_ReqID req) ".ok" ∈ created) ->
    (forall m, (m < n)%nat -> req_file (ar_ReqID req) ".no" ∉ after_ticks (op_ticks op) (S m) dir) -> answered e op dir req.

Lemma req_file_ext id : req_file id ".json" <> req_file id ".ok" /\ req_file id ".json" <> req_file id ".no".
Proof. unfold req_file. split; intros E; do 2 apply (inj (String.append _)) in E; done. Qed.
Lemma after_ticks_elem ticks n dir name : name ∈ after_ticks ticks n dir <->
  name ∈ dir \/ exists m created, (m < n)%nat /\ ticks !! m = Some created /\ name ∈ created.
Proof.
  unfold after_ticks. rewrite elem_of_union, elem_of_union_list. apply or_iff_compat_l. split.
  - intros (created & Hc & Hn). apply list_elem_of_lookup in Hc as [m Hm]. apply lookup_take_Some in Hm as [Hm Hlt]. eauto.
  - intros (m & created & Hlt & Hm & Hn). exists created. split; [|done]. apply list_elem_of_lookup. exists m. by apply lookup_take_Some.
Qed.
Lemma RequestApproval_true e op dir req timeout :
  (RequestApprovalWithTimeout e op dir req timeout).2 = (true, None) -> answered e op dir req.
Proof.
  unfold RequestApprovalWithTimeout, requestCLIApprovalWithTimeout, IsEnabled. destruct (ap_cli e) eqn:Ec; cbn [snd].
  { destruct (op_prompt op) as [|msg|line] eqn:Ep; [done|done|]. intros [= E]. apply str_eqb_true in E. by eapply answered_prompt. }
  rewrite orb_false_r. destruct (ap_dir e <>s? "") eqn:Ed; [|done]. apply str_neqb_true in Ed. cbn [negb].
  destruct (validateApprovalFileID _) eqn:Ev; [done|]. destruct (op_write op) eqn:Ew; [done|]. cbn [snd]. intros Hr.
  pose proof (waitForDecision_true (op_ticks op) (ar_ReqID req) timeout (dir ∪ {[req_file (ar_ReqID req) ".json"]})) as [Hw _].
  rewrite Hr in Hw. destruct (Hw eq_refl) as (n & Hn & Hok & Hno). destruct (req_file_ext (ar_ReqID req)) as [Hj1 Hj2].
  apply (answered_file _ _ _ _ n); try done.
  - apply after_ticks_elem in Hok as [Hok|(m & created & Hm & Hc & Hin)]; [left; set_solver|]. right. exists m, created. split; [lia|done].
  - intros m Hm Hin. apply (Hno m Hm). unfold after_ticks in *. set_solver.
Qed.
End approval.
