(* ===== verification/Receipt.v ===== *)
(** The decision receipt of an approval: [internal/receipt/receipt.go].

    Signing keys and the encoding of a receipt are arguments; [time.Now] is
    read once by [NewReceipt] and once by [IsExpired]. *)
From stdpp Require Import base strings gmap list.
From Stdlib Require Import ZArith Lia Ascii.
From S2P Require Import Prelude GoStrings GoLib PolicyTypes OwnershipGate InstructionAuth.
#[local] Open Scope Z_scope.

Record DecisionReceipt := {
  dr_ExecutionID : string;
  dr_SessionID : string;
  dr_AgentID : string;
  dr_Server : string;
  dr_Tool : string;
  dr_OriginalRequest : string;
  dr_RedactedArgs : string;
  dr_PolicyVersion : string;
  dr_PolicyHash : string;
  dr_ChainContextHash : string;
  dr_ApprovalReason : string;
  dr_RiskLevel : string;
  dr_ApproverID : string;
  dr_Decision : string;
  dr_Expiry : Z;
  dr_Nonce : string;
  dr_KeyID : string;
  dr_Algorithm : string;
  dr_PublicKey : string;
  dr_Signature : string
}.
Definition eta_DecisionReceipt (r : DecisionReceipt) : DecisionReceipt := {|
  dr_ExecutionID := dr_ExecutionID r; dr_SessionID := dr_SessionID r; dr_AgentID := dr_AgentID r;
  dr_Server := dr_Server r; dr_Tool := dr_Tool r; dr_OriginalRequest := dr_OriginalRequest r;
  dr_RedactedArgs := dr_RedactedArgs r; dr_PolicyVersion := dr_PolicyVersion r;
  dr_PolicyHash := dr_PolicyHash r; dr_ChainContextHash := dr_ChainContextHash r;
  dr_ApprovalReason := dr_ApprovalReason r; dr_RiskLevel := dr_RiskLevel r; dr_ApproverID := dr_ApproverID r;
  dr_Decision := dr_Decision r; dr_Expiry := dr_Expiry r; dr_Nonce := dr_Nonce r; dr_KeyID := dr_KeyID r;
  dr_Algorithm := dr_Algorithm r; dr_PublicKey := dr_PublicKey r; dr_Signature := dr_Signature r |}.
Definition set_KeyID (v : string) (r : DecisionReceipt) : DecisionReceipt :=
  ltac:(with_field eta_DecisionReceipt dr_KeyID r v).
Definition set_Algorithm (v : string) (r : DecisionReceipt) : DecisionReceipt :=
  ltac:(with_field eta_DecisionReceipt dr_Algorithm r v).
Definition set_PublicKey (v : string) (r : DecisionReceipt) : DecisionReceipt :=
  ltac:(with_field eta_DecisionReceipt dr_PublicKey r v).
Definition set_Signature (v : string) (r : DecisionReceipt) : DecisionReceipt :=
  ltac:(with_field eta_DecisionReceipt dr_Signature r v).

(** [json.Marshal] of a receipt and of the values the proxy hashes as
    evidence ([marshalEvidence]). *)
Class DecisionJSON := {
  marshal_decision : DecisionReceipt -> option string;
  evidence_args : list (string * any) -> string;
  evidence_chain : list string -> string
}.

(** [VerifyingKey.Verify]: [None] accepts. *)
Record Verifier := { vf_Verify : string -> string -> error }.

(** [hex.DecodeString]; the digits of either case. *)
Definition hex_value (c : ascii) : option N :=
  if is_digit c then Some (N_of_ascii c - 48)%N
  else if in_range "a" "f" c then Some (N_of_ascii c - 87)%N
  else if in_range "A" "F" c then Some (N_of_ascii c - 55)%N
  else None.
Fixpoint hex_decode (s : string) : option string :=
  match s with
  | "" => Some ""
  | String c "" => None
  | String c (String d rest) =>
      h ← hex_value c; l ← hex_value d; t ← hex_decode rest;
      Some (String (ascii_of_N (16 * h + l)) t)
  end.

Section receipt.
Context `{GoCrypto} `{DecisionJSON}.

(** [None] when no nonce could be drawn. *)
Definition NewReceipt (executionID sessionID agentID server tool originalRequest redactedArgs policyVersion
    policyYAML chainContext approvalReason riskLevel approverID dec : string) (ttl : Z)
    (nonce : option string) (now : Z) : result DecisionReceipt :=
  match nonce with
  | None => Err "generate nonce"
  | Some nonce => Ok {|
      dr_ExecutionID := executionID; dr_SessionID := sessionID; dr_AgentID := agentID; dr_Server := server;
      dr_Tool := tool; dr_OriginalRequest := sha256_hex originalRequest;
      dr_RedactedArgs := sha256_hex redactedArgs; dr_PolicyVersion := policyVersion;
      dr_PolicyHash := sha256_hex policyYAML; dr_ChainContextHash := sha256_hex chainContext;
      dr_ApprovalReason := approvalReason; dr_RiskLevel := riskLevel; dr_ApproverID := approverID;
      dr_Decision := dec; dr_Expiry := Unix (now + ttl); dr_Nonce := nonce; dr_KeyID := ""; dr_Algorithm := "";
      dr_PublicKey := ""; dr_Signature := "" |}
  end.

(** [data, _ := json.Marshal(copy)] *)
Definition signingPayload (r : DecisionReceipt) : string := default "" (marshal_decision (set_Signature "" r)).

(** The receipt as [SignWith] leaves it before it calls the key. *)
Definition unsigned (s : Signer) (r : DecisionReceipt) : DecisionReceipt :=
  let r := set_KeyID (sg_KeyID s) r in
  let r := set_Algorithm (sg_Algorithm s) r in
  let r := set_Signature "" r in
  match sg_PublicKey s with Some pub => set_PublicKey (hex_encode pub) r | None => r end.

(** [None] is an error of the key. *)
Definition SignWith (s : Signer) (r : DecisionReceipt) : option DecisionReceipt :=
  let r := unsigned s r in
  (fun sig => set_Signature (hex_encode sig) r) <$> sg_Sign s (signingPayload r).

Definition VerifyWith (v : Verifier) (r : DecisionReceipt) : error :=
  if dr_Signature r =s? "" then Some "receipt is not signed"
  else match hex_decode (dr_Signature r) with
  | None => Some "decode signature"
  | Some sig => vf_Verify v (signingPayload r) sig
  end.

(** [Verify] by an Ed25519 public key. *)
Definition Verify `{AssertionCrypto} (pubKey : string) (r : DecisionReceipt) : error :=
  if dr_Signature r =s? "" then Some "receipt is not signed"
  else match hex_decode (dr_Signature r) with
  | None => Some "decode signature"
  | Some sig => fail_if (negb (ed25519_Verify pubKey (signingPayload r) sig)) "signature verification failed"
  end.

Definition IsExpired (r : DecisionReceipt) (now : Z) : bool := dr_Expiry r <? Unix now.
End receipt.

(** ** Signing round trip *)

Lemma hex_digit_value n : (n < 16)%N -> hex_value (hex_digit n) = Some n.
Proof.
  intros Hn. assert (n = N.of_nat (N.to_nat n)) as -> by lia.
  assert (N.to_nat n < 16)%nat as Hb by lia. revert Hb. generalize (N.to_nat n). clear.
  intros k Hb. do 16 (destruct k as [|k]; [reflexivity|]). lia.
Qed.

Lemma hex_decode_encode s : hex_decode (hex_encode s) = Some s.
Proof.
  induction s as [|c s IH]; [done|]. cbn [hex_encode hex_decode].
  assert (N_of_ascii c < 256)%N as Hc by apply N_ascii_bounded.
  rewrite !hex_digit_value by (first [apply N.mod_lt | apply N.Div0.div_lt_upper_bound]; lia).
  cbn. rewrite IH. cbn. rewrite <- N.div_mod by lia. by rewrite ascii_N_embedding.
Qed.
Lemma hex_encode_nonempty s : s <> "" -> hex_encode s <> "".
Proof. by destruct s. Qed.

Section roundtrip.
Context `{GoCrypto} `{DecisionJSON}.

(** The verifier accepts the signatures of the signer, and they are not
    empty. *)
Definition key_pair (s : Signer) (v : Verifier) : Prop := forall msg sig,
  sg_Sign s msg = Some sig -> sig <> "" /\ vf_Verify v msg sig = None.

Lemma signingPayload_signature r sig : signingPayload (set_Signature sig r) = signingPayload r.
Proof. done. Qed.

(** A receipt signed by a key verifies under that key's verifier, and it still
    states the request, arguments, policy and chain it was created for. *)
Theorem sign_then_verify (s : Signer) (v : Verifier) executionID sessionID agentID server tool originalRequest
    redactedArgs policyVersion policyYAML chainContext reason risk approver dec ttl nonce now r r' :
  key_pair s v ->
  NewReceipt executionID sessionID agentID server tool originalRequest redactedArgs policyVersion policyYAML
    chainContext reason risk approver dec ttl nonce now = Ok r ->
  SignWith s r = Some r' ->
  VerifyWith v r' = None /\
  dr_OriginalRequest r' = sha256_hex originalRequest /\ dr_RedactedArgs r' = sha256_hex redactedArgs /\
  dr_PolicyHash r' = sha256_hex policyYAML /\ dr_ChainContextHash r' = sha256_hex chainContext /\
  (forall later, IsExpired r' later = false <-> Unix later <= Unix (now + ttl)).
Proof.
  intros Hkeys Hnew Hsign. unfold NewReceipt in Hnew. destruct nonce as [nonce|]; [|done].
  injection Hnew as <-. unfold SignWith in Hsign. apply fmap_Some in Hsign as (sig & Hsig & ->).
  destruct (Hkeys _ _ Hsig) as [Hne Hver]. split.
  - unfold VerifyWith. cbn [set_Signature dr_Signature].
    rewrite (proj2 (str_eqb_false _ _)) by (by apply hex_encode_nonempty).
    rewrite hex_decode_encode, signingPayload_signature. done.
  - unfold unsigned. destruct (sg_PublicKey s); cbn; unfold IsExpired; cbn;
      (split_and!; [done..|intros later; rewrite Z.ltb_ge; done]).
Qed.
End roundtrip.

(** ** Witness *)

Module ReceiptWitness.
Definition digest : GoCrypto := {| sha256_hex := fun s => s |}.
Definition json : DecisionJSON := {|
  marshal_decision := fun r => Some (dr_Nonce r +:+ dr_Tool r); evidence_args := fun _ => "{}";
  evidence_chain := fun _ => "null" |}.
Definition key : Signer := {| sg_KeyID := "k"; sg_Algorithm := "ed25519"; sg_PublicKey := Some "pub";
  sg_Sign := fun m => Some ("sig" +:+ m) |}.
Definition verifier : Verifier := {| vf_Verify := fun m sig => fail_if (sig <>s? "sig" +:+ m) "bad" |}.

Lemma keys : key_pair key verifier.
Proof.
  intros msg sig. cbn. intros [= <-]. split; [done|]. unfold fail_if. by rewrite str_eqb_refl.
Qed.

Lemma sign_then_verify_witness : exists r', VerifyWith (H0 := json) verifier r' = None.
Proof.
  eexists. refine (proj1 (@sign_then_verify digest json key verifier "e" "s" "a" "srv" "send" "req" "args" "1" "pol"
    "null" "why" "high" "human" "approve" 0 (Some "n") 0 _ _ keys eq_refl eq_refl)).
Defined.
End ReceiptWitness.
