(* ===== verification/Proxy.v ===== *)
(** The proxy's state, its events and the small gates of a tools/call:
    [internal/proxy/proxy.go], [kinetic_stop.go], the helpers of
    [tools_call.go], and the decision receipt of [internal/receipt/receipt.go].

    One call runs on the state below; [px_responses] is what was sent to the
    client and [px_forwarded] what went to the event sinks, in order.  Logging
    ([p.logger]) and metrics export ([observeToolCall]) are left out. *)
From stdpp Require Import base strings gmap list sorting.
From Stdlib Require Import ZArith Lia Ascii.
From S2P Require Import Prelude GoStrings GoLib Lineage LineageRegistry ActorContext.
From S2P Require Import PolicyTypes PolicyRegistry Slots Engine Ownership OwnershipGate Session Taint Redaction.
From S2P Require Import Ledger InstructionAuthority InstructionAuth Trajectory.
From S2P Require Import GoPath Capability CapabilityEval CallArgs.
From S2P Require Approval.
#[local] Open Scope Z_scope.

(** ** Metrics

    The counters are atomic [int64]s; none reaches 2^63. *)

Record ProxyMetrics := {
  mt_Processed : Z;
  mt_Denied : Z;
  mt_Allowed : Z;
  mt_Approved : Z;
  mt_BytesRedacted : Z;
  mt_ApprovalRequests : Z;
  mt_ChainDetections : Z;
  mt_TrajectoryAnomalies : Z
}.
Definition eta_ProxyMetrics (m : ProxyMetrics) : ProxyMetrics := {|
  mt_Processed := mt_Processed m; mt_Denied := mt_Denied m; mt_Allowed := mt_Allowed m; mt_Approved :=
  mt_Approved m; mt_BytesRedacted := mt_BytesRedacted m; mt_ApprovalRequests := mt_ApprovalRequests m;
  mt_ChainDetections := mt_ChainDetections m; mt_TrajectoryAnomalies := mt_TrajectoryAnomalies m |}.
Definition IncrementProcessed (m : ProxyMetrics) : ProxyMetrics := ltac:(with_field eta_ProxyMetrics mt_Processed m (mt_Processed m + 1)).
Definition IncrementDenied (m : ProxyMetrics) : ProxyMetrics := ltac:(with_field eta_ProxyMetrics mt_Denied m (mt_Denied m + 1)).
Definition IncrementAllowed (m : ProxyMetrics) : ProxyMetrics := ltac:(with_field eta_ProxyMetrics mt_Allowed m (mt_Allowed m + 1)).
Definition IncrementApproved (m : ProxyMetrics) : ProxyMetrics := ltac:(with_field eta_ProxyMetrics mt_Approved m (mt_Approved m + 1)).
Definition IncrementApprovals (m : ProxyMetrics) : ProxyMetrics := ltac:(with_field eta_ProxyMetrics mt_ApprovalRequests m (mt_ApprovalRequests m + 1)).
Definition IncrementChains (m : ProxyMetrics) : ProxyMetrics := ltac:(with_field eta_ProxyMetrics mt_ChainDetections m (mt_ChainDetections m + 1)).
Definition IncrementTrajectoryAnomalies (m : ProxyMetrics) : ProxyMetrics := ltac:(with_field eta_ProxyMetrics mt_TrajectoryAnomalies m (mt_TrajectoryAnomalies m + 1)).
Definition AddBytesRedacted (n : Z) (m : ProxyMetrics) : ProxyMetrics :=
  ltac:(with_field eta_ProxyMetrics mt_BytesRedacted m (mt_BytesRedacted m + n)).

(** ** State *)

(** The attestation shape of the launched child. *)
Record attestationShape := { sh_kind : string; sh_entry : list Z }.

(** What is fixed once the proxy runs.  [cf_Resolved] is the digest of the
    launched child, when it was captured. *)
Record Config := {
  cf_ClientID : string;
  cf_ServerName : string;
  cf_VerifiedActor : option Context;
  cf_KillSwitchDir : string;
  cf_SessionID : string;
  cf_SessionEpoch : Z;
  cf_Signer : option Signer;
  cf_Approval : option Approval.Engine;
  cf_Resolved : option string;
  cf_LaunchShape : option attestationShape;
  cf_ClaimedName : string;
  cf_ClaimedVersion : string
}.

(** [px_authorize] says whether [instructionAuthorize] is set (to
    [instructionauthority.Authorize]).  A response is the id of the request
    and the message. *)
Record Proxy := {
  px_engine : Engine;
  px_redactor : RedactionEngine;
  px_session : Session;
  px_audit : Logger;
  px_metrics : ProxyMetrics;
  px_advisor : option Advisor;
  px_authorize : bool;
  px_keys : gmap string string;
  px_capEval : option ChainEvaluator;
  px_capStepID : Z;
  px_capLastHash : string;
  px_revoked : bool;
  px_responses : list (any * string);
  px_forwarded : list Event
}.
Definition eta_Proxy (p : Proxy) : Proxy := {|
  px_engine := px_engine p; px_redactor := px_redactor p; px_session := px_session p; px_audit := px_audit p;
  px_metrics := px_metrics p; px_advisor := px_advisor p; px_authorize := px_authorize p; px_keys := px_keys
  p; px_capEval := px_capEval p; px_capStepID := px_capStepID p; px_capLastHash := px_capLastHash p;
  px_revoked := px_revoked p; px_responses := px_responses p; px_forwarded := px_forwarded p |}.
Definition set_session (v : Session) (p : Proxy) : Proxy := ltac:(with_field eta_Proxy px_session p v).
Definition set_audit (v : Logger) (p : Proxy) : Proxy := ltac:(with_field eta_Proxy px_audit p v).
Definition set_metrics (v : ProxyMetrics) (p : Proxy) : Proxy := ltac:(with_field eta_Proxy px_metrics p v).
Definition set_advisor (v : option Advisor) (p : Proxy) : Proxy := ltac:(with_field eta_Proxy px_advisor p v).
Definition set_capEval (v : option ChainEvaluator) (p : Proxy) : Proxy := ltac:(with_field eta_Proxy px_capEval p v).
Definition set_capStepID (v : Z) (p : Proxy) : Proxy := ltac:(with_field eta_Proxy px_capStepID p v).
Definition set_capLastHash (v : string) (p : Proxy) : Proxy := ltac:(with_field eta_Proxy px_capLastHash p v).
Definition set_responses (v : list (any * string)) (p : Proxy) : Proxy := ltac:(with_field eta_Proxy px_responses p v).
Definition set_forwarded (v : list Event) (p : Proxy) : Proxy := ltac:(with_field eta_Proxy px_forwarded p v).

(** ** Events *)

Definition eta_Event (e : Event) : Event := {|
  ae_Timestamp := ae_Timestamp e; ae_EventType := ae_EventType e; ae_SessionID := ae_SessionID e; ae_AgentID
  := ae_AgentID e; ae_Server := ae_Server e; ae_Tool := ae_Tool e; ae_Arguments := ae_Arguments e; ae_Decision
  := ae_Decision e; ae_Reason := ae_Reason e; ae_RiskLevel := ae_RiskLevel e; ae_SessionTaints :=
  ae_SessionTaints e; ae_TaintSource := ae_TaintSource e; ae_TaintReason := ae_TaintReason e; ae_PolicyRule :=
  ae_PolicyRule e; ae_ChainContext := ae_ChainContext e; ae_RequestHash := ae_RequestHash e;
  ae_RedactedArgumentHash := ae_RedactedArgumentHash e; ae_PolicyHash := ae_PolicyHash e; ae_ChainContextHash
  := ae_ChainContextHash e; ae_ApprovalReceiptHash := ae_ApprovalReceiptHash e; ae_ApprovalReceipt :=
  ae_ApprovalReceipt e; ae_OwnershipReceiptHash := ae_OwnershipReceiptHash e; ae_OwnershipReceipt :=
  ae_OwnershipReceipt e; ae_ServerIdentityKind := ae_ServerIdentityKind e; ae_ServerIdentityExpected :=
  ae_ServerIdentityExpected e; ae_ServerIdentityResolved := ae_ServerIdentityResolved e; ae_ServerAttested :=
  ae_ServerAttested e; ae_ServerClaimedName := ae_ServerClaimedName e; ae_ServerClaimedVersion :=
  ae_ServerClaimedVersion e; ae_Lineage := ae_Lineage e; ae_IdentitySnapshotHash := ae_IdentitySnapshotHash e;
  ae_PrincipalID := ae_PrincipalID e; ae_ActingAgent := ae_ActingAgent e; ae_TransactionID := ae_TransactionID
  e; ae_ResultPreview := ae_ResultPreview e; ae_IsError := ae_IsError e; ae_Message := ae_Message e; ae_Hash
  := ae_Hash e; ae_PrevHash := ae_PrevHash e; ae_ChainIndex := ae_ChainIndex e; ae_DelegationDepth :=
  ae_DelegationDepth e; ae_MaxSpawnDepth := ae_MaxSpawnDepth e; ae_TrajectoryAdvice := ae_TrajectoryAdvice e;
  ae_ControllerID := ae_ControllerID e; ae_CommandID := ae_CommandID e; ae_SessionEpoch := ae_SessionEpoch e;
  ae_RevokedThroughEpoch := ae_RevokedThroughEpoch e; ae_ObservedEnforcementTime := ae_ObservedEnforcementTime
  e; ae_ResultingState := ae_ResultingState e; ae_ControlRequestSHA256 := ae_ControlRequestSHA256 e |}.
Definition ev_EventType (v : string) (e : Event) : Event := ltac:(with_field eta_Event ae_EventType e v).
Definition ev_SessionID (v : string) (e : Event) : Event := ltac:(with_field eta_Event ae_SessionID e v).
Definition ev_AgentID (v : string) (e : Event) : Event := ltac:(with_field eta_Event ae_AgentID e v).
Definition ev_Server (v : string) (e : Event) : Event := ltac:(with_field eta_Event ae_Server e v).
Definition ev_Tool (v : string) (e : Event) : Event := ltac:(with_field eta_Event ae_Tool e v).
Definition ev_Arguments (v : args) (e : Event) : Event := ltac:(with_field eta_Event ae_Arguments e v).
Definition ev_Decision (v : string) (e : Event) : Event := ltac:(with_field eta_Event ae_Decision e v).
Definition ev_Reason (v : string) (e : Event) : Event := ltac:(with_field eta_Event ae_Reason e v).
Definition ev_RiskLevel (v : string) (e : Event) : Event := ltac:(with_field eta_Event ae_RiskLevel e v).
Definition ev_SessionTaints (v : list string) (e : Event) : Event := ltac:(with_field eta_Event ae_SessionTaints e v).
Definition ev_TaintSource (v : string) (e : Event) : Event := ltac:(with_field eta_Event ae_TaintSource e v).
Definition ev_TaintReason (v : string) (e : Event) : Event := ltac:(with_field eta_Event ae_TaintReason e v).
Definition ev_PolicyRule (v : string) (e : Event) : Event := ltac:(with_field eta_Event ae_PolicyRule e v).
Definition ev_ChainContext (v : list string) (e : Event) : Event := ltac:(with_field eta_Event ae_ChainContext e v).
Definition ev_RequestHash (v : string) (e : Event) : Event := ltac:(with_field eta_Event ae_RequestHash e v).
Definition ev_RedactedArgumentHash (v : string) (e : Event) : Event := ltac:(with_field eta_Event ae_RedactedArgumentHash e v).
Definition ev_PolicyHash (v : string) (e : Event) : Event := ltac:(with_field eta_Event ae_PolicyHash e v).
Definition ev_ChainContextHash (v : string) (e : Event) : Event := ltac:(with_field eta_Event ae_ChainContextHash e v).
Definition ev_ApprovalReceiptHash (v : string) (e : Event) : Event := ltac:(with_field eta_Event ae_ApprovalReceiptHash e v).
Definition ev_ApprovalReceipt (v : args) (e : Event) : Event := ltac:(with_field eta_Event ae_ApprovalReceipt e v).
Definition ev_OwnershipReceiptHash (v : string) (e : Event) : Event := ltac:(with_field eta_Event ae_OwnershipReceiptHash e v).
Definition ev_OwnershipReceipt (v : string) (e : Event) : Event := ltac:(with_field eta_Event ae_OwnershipReceipt e v).
Definition ev_ServerIdentityKind (v : string) (e : Event) : Event := ltac:(with_field eta_Event ae_ServerIdentityKind e v).
Definition ev_ServerIdentityExpected (v : string) (e : Event) : Event := ltac:(with_field eta_Event ae_ServerIdentityExpected e v).
Definition ev_ServerIdentityResolved (v : string) (e : Event) : Event := ltac:(with_field eta_Event ae_ServerIdentityResolved e v).
Definition ev_ServerAttested (v : option bool) (e : Event) : Event := ltac:(with_field eta_Event ae_ServerAttested e v).
Definition ev_ServerClaimedName (v : string) (e : Event) : Event := ltac:(with_field eta_Event ae_ServerClaimedName e v).
Definition ev_ServerClaimedVersion (v : string) (e : Event) : Event := ltac:(with_field eta_Event ae_ServerClaimedVersion e v).
Definition ev_Lineage (v : option LineageInfo) (e : Event) : Event := ltac:(with_field eta_Event ae_Lineage e v).
Definition ev_IdentitySnapshotHash (v : string) (e : Event) : Event := ltac:(with_field eta_Event ae_IdentitySnapshotHash e v).
Definition ev_PrincipalID (v : string) (e : Event) : Event := ltac:(with_field eta_Event ae_PrincipalID e v).
Definition ev_ActingAgent (v : string) (e : Event) : Event := ltac:(with_field eta_Event ae_ActingAgent e v).
Definition ev_TransactionID (v : string) (e : Event) : Event := ltac:(with_field eta_Event ae_TransactionID e v).
Definition ev_DelegationDepth (v : Z) (e : Event) : Event := ltac:(with_field eta_Event ae_DelegationDepth e v).
Definition ev_MaxSpawnDepth (v : Z) (e : Event) : Event := ltac:(with_field eta_Event ae_MaxSpawnDepth e v).
Definition ev_TrajectoryAdvice (v : option TrajectoryAdvice) (e : Event) : Event := ltac:(with_field eta_Event ae_TrajectoryAdvice e v).

Section proxy.
Context `{GoUnicode, GoPatterns, GoReplace, GoArch, GoTime, GoFmt, GoJSON, GoCrypto, SnapshotJSON, CapJSON}.

(** The fields every event of a call starts with. *)
Definition call_event (cfg : Config) (p : Proxy) (eventType serverName toolName : string) (arguments : args)
    (dec reason risk : string) : Event :=
  ev_EventType eventType (ev_SessionID (ss_ID (px_session p)) (ev_AgentID (cf_ClientID cfg)
    (ev_Server serverName (ev_Tool toolName (ev_Arguments arguments (ev_Decision dec (ev_Reason reason
    (ev_RiskLevel risk zeroEvent)))))))).

(** ** Identity evidence *)

Record serverIdentityEvidence := {
  se_configured : bool;
  se_kind : string;
  se_expected : string;
  se_resolved : string;
  se_attested : bool;
  se_reason : string;
  se_claimedName : string;
  se_claimedVersion : string
}.
Definition noEvidence : serverIdentityEvidence := {|
  se_configured := false; se_kind := ""; se_expected := ""; se_resolved := ""; se_attested := false;
  se_reason := ""; se_claimedName := ""; se_claimedVersion := "" |}.

Definition attestationShapeMatches (cfg : Config) (pin : ServerAttestation) : bool :=
  match cf_LaunchShape cfg with
  | None => false
  | Some shape => (sh_kind shape =s? sa_Kind pin) &&
                  bool_decide (merge_sort Z.le (sa_EntryArgPositions pin) = sh_entry shape)
  end.

Definition identityEvidence (cfg : Config) (pol : Policy) (serverName : string) : serverIdentityEvidence :=
  match findServerByName pol serverName with
  | None => noEvidence
  | Some srv =>
      match s_Attestation srv with
      | None => noEvidence
      | Some pin =>
          let ev resolved attested reason := {|
            se_configured := true; se_kind := sa_Kind pin; se_expected := sa_Digest pin; se_resolved := resolved;
            se_attested := attested; se_reason := reason; se_claimedName := cf_ClaimedName cfg;
            se_claimedVersion := cf_ClaimedVersion cfg |} in
          match cf_Resolved cfg with
          | None => ev "" false "configured stdio identity was not captured for this server session; server restart is required to satisfy attestation"
          | Some digest =>
              if negb (attestationShapeMatches cfg pin) then
                ev "" false "attestation resolution shape changed after launch; server restart is required to satisfy the new pin"
              else if digest <>s? sa_Digest pin then
                ev digest false "attestation expectation differs from the launched server identity; server restart is required to satisfy the new pin"
              else ev digest true ""
          end
      end
  end.

Definition attachServerIdentity (evidence : serverIdentityEvidence) (e : Event) : Event :=
  if negb (se_configured evidence) then e
  else
    let e := ev_ServerIdentityKind (se_kind evidence) e in
    let e := ev_ServerIdentityExpected (se_expected evidence) e in
    let e := ev_ServerAttested (Some (se_attested evidence)) e in
    let e := if se_resolved evidence <>s? "" then ev_ServerIdentityResolved (se_resolved evidence) e else e in
    let e := ev_ServerClaimedName (se_claimedName evidence) e in
    ev_ServerClaimedVersion (se_claimedVersion evidence) e.

(** ** Snapshot *)

(** [approval] is fixed by the configuration, and kept there. *)
Record runtimeSnapshot := {
  rt_policy : Policy;
  rt_redactor : RedactionEngine;
  rt_approvalTimeout : Z;
  rt_identity : serverIdentityEvidence;
  rt_authorize : bool;
  rt_keys : gmap string string
}.

(** [time.Duration(secs) * time.Second] *)
Definition seconds (secs : Z) : Z := wrap64 (secs * 1000000000).

Definition runtimeSnapshotLocked (cfg : Config) (p : Proxy) (serverName : string) : runtimeSnapshot :=
  let pol := e_policy (px_engine p) in {|
  rt_policy := pol; rt_redactor := px_redactor p;
  rt_approvalTimeout := seconds (st_ApprovalTimeoutSecs (p_Settings pol));
  rt_identity := identityEvidence cfg pol serverName; rt_authorize := px_authorize p; rt_keys := px_keys p |}.

(** ** Lineage, actor, advice *)

Definition auditLineageInfo (ev : option Evidence) : option LineageInfo :=
  (fun ev => {|
    li_ActorAgentID := ev_ActorAgentID ev; li_ParentAgentID := ev_ParentAgentID ev;
    li_HumanPrincipalID := ev_HumanPrincipalID ev; li_GrantID := ev_GrantID ev; li_GrantChain := ev_GrantChain ev;
    li_Capability := ev_Capability ev; li_Resource := ev_Resource ev; li_Effect := ev_Effect ev;
    li_TrajectoryID := ev_TrajectoryID ev; li_PriorStateHash := ev_PriorStateHash ev; li_Rule := ev_Rule ev |}) <$> ev.

Definition sanitizeLineageSnapshot (redactor : RedactionEngine) (info : option LineageInfo) : option LineageInfo :=
  let redact := RedactOutput redactor in
  (fun i => {|
    li_ActorAgentID := redact (li_ActorAgentID i); li_ParentAgentID := redact (li_ParentAgentID i);
    li_HumanPrincipalID := redact (li_HumanPrincipalID i); li_GrantID := redact (li_GrantID i);
    li_GrantChain := redact <$> li_GrantChain i; li_Capability := redact (li_Capability i);
    li_Resource := redact (li_Resource i); li_Effect := redact (li_Effect i);
    li_TrajectoryID := redact (li_TrajectoryID i); li_PriorStateHash := redact (li_PriorStateHash i);
    li_Rule := redact (li_Rule i) |}) <$> info.

Definition attachVerifiedActor (cfg : Config) (redactor : RedactionEngine) (e : Event) : Event :=
  match cf_VerifiedActor cfg with
  | None => e
  | Some c =>
      let redact := RedactOutput redactor in
      let e := ev_IdentitySnapshotHash (c_IdentitySnapshotHash c) e in
      let e := ev_PrincipalID (redact (c_PrincipalID c)) e in
      let e := ev_ActingAgent (redact (c_ActingAgent c)) e in
      ev_TransactionID (redact (c_Transaction c)) e
  end.

Definition attachTrajectoryAdvice (advice : Advice) (anomalous : bool) (e : Event) : Event :=
  if negb anomalous then e
  else ev_TrajectoryAdvice (Some {|
    av_Advisor := ad_Advisor advice; av_Kind := ad_Kind advice; av_Sequence := ad_Sequence advice;
    av_WindowTransitions := ad_WindowTransitions advice; av_SourceSupport := ad_SourceSupport advice;
    av_TransitionSupport := ad_TransitionSupport advice |}) e.

Definition verifiedActorRequired (pol : Policy) (serverName toolName : string) : bool :=
  st_RequireVerifiedActor (p_Settings pol) ||
  match findServerByName pol serverName with
  | None => false
  | Some srv => existsb (fun t => (t_Name t =s? toolName) && (0 <? length (t_RequiredScopes t))%nat) (s_Tools srv)
  end.

(** [p.now()] and the instant [Check] would read are both [now]. *)
Definition recheckVerifiedActor (cfg : Config) (pol : Policy) (serverName toolName : string) (now : Z) : error :=
  match cf_VerifiedActor cfg with
  | None => None
  | Some c => if negb (verifiedActorRequired pol serverName toolName) then None else Check c now (Some now)
  end.

Definition withRedactionNote (reason : string) (r : RedactionResult) : string :=
  if negb (re_Redacted r) || (length (re_RedactedFields r) =? 0)%nat then reason
  else
    let note := "redacted fields: [" +:+ Join " " (re_RedactedFields r) +:+ "]" in
    if reason =s? "" then note else reason +:+ "; " +:+ note.

(** ** Receipts on events *)

Definition with_receipt_data (data : string) (e : Event) : Event :=
  let e := ev_ApprovalReceiptHash (sha256_hex data) e in
  match json_object data with Some recMap => ev_ApprovalReceipt recMap e | None => e end.

Definition attachCapabilityArtifact (artifact : option CapArtifact) (e : Event) : Event :=
  match artifact with
  | None => e
  | Some a =>
      match (match a with ArtReceipt r => marshal_cap_receipt r | ArtPause r => marshal_pause_receipt r end) with
      | None => e
      | Some data => with_receipt_data data e
      end
  end.

Definition attachOwnershipReceipt `{GateJSON} (rec : option CapabilityOwnershipReceipt) (e : Event) : Event :=
  match rec with
  | None => e
  | Some rec => ev_OwnershipReceipt (marshal_receipt rec) (ev_OwnershipReceiptHash (sha256_hex (marshal_receipt rec)) e)
  end.

(** ** Gates *)

(** [Some reason] when the session is revoked. *)
Definition kineticGate (cfg : Config) (p : Proxy) : option string :=
  if (cf_KillSwitchDir cfg =s? "") || negb (px_revoked p) then None
  else Some ("kinetic stop: session " +:+ cf_SessionID cfg +:+ " epoch " +:+ Itoa (cf_SessionEpoch cfg) +:+ " is revoked").

Definition evaluateRuntimeLimits (p : Proxy) (argumentBytes now : Z) : Decision :=
  let settings := p_Settings (e_policy (px_engine p)) in
  let timeout := st_SessionTimeoutSecs settings in
  if (0 <? st_MaxArgumentSizeBytes settings) && (st_MaxArgumentSizeBytes settings <? argumentBytes) then
    decision ActionDeny ("argument size " +:+ Itoa argumentBytes +:+ " exceeds max " +:+
      Itoa (st_MaxArgumentSizeBytes settings) +:+ " bytes")
  else if (0 <? st_SessionMaxTools settings) && (st_SessionMaxTools settings <=? ToolCallCount (px_session p)) then
    decision ActionDeny ("session tool limit " +:+ Itoa (st_SessionMaxTools settings) +:+ " exceeded")
  else if (0 <? timeout) && (seconds timeout <? now - ss_CreatedAt (px_session p)) then
    decision ActionDeny ("session timeout " +:+ Itoa timeout +:+ " seconds exceeded")
  else decision ActionAllow "runtime limits passed".

(** The window size [checkChain] uses, and its verdict on the session. *)
Definition chain_window (pol : Policy) : Z :=
  let windowSize := st_ChainWindowSize (p_Settings pol) in if windowSize =? 0 then 10 else windowSize.
Definition chain_calls (p : Proxy) : list string :=
  RecentCallChain (px_session p) (chain_window (e_policy (px_engine p))).
Definition chain_verdict (p : Proxy) (serverName : string) (callReq : ToolsCallRequest) : Decision :=
  EvaluateChain (px_engine p) serverName callReq (chain_calls p).
End proxy.
