(* ===== verification/ToolsCall.v ===== *)
(** One tools/call through the proxy: [processToolsCall] of
    [internal/proxy/tools_call.go] with the functions it calls there, in
    [proxy.go], [kinetic_stop.go], [delegation.go] and [session_taint.go].

    The body is a sequence of stages over the proxy's state; a stage may
    return from the whole function with the message and ["denied"] or
    ["forward"].  The runtime barrier keeps reloads out until the approval
    wait, and calls are processed one at a time, so the only state that moves
    under a call is what other goroutines do during that wait ([en_wait]).  The
    order of two writes nobody reads in between (a response and a counter) is
    not kept. *)
From stdpp Require Import base strings gmap list.
From Stdlib Require Import ZArith Lia Ascii.
From S2P Require Import Prelude GoStrings GoLib Lineage LineageRegistry ActorContext.
From S2P Require Import PolicyTypes PolicyRegistry Slots Engine OwnershipGate Session Taint Redaction.
From S2P Require Import Ledger InstructionAuthority InstructionAuth Trajectory.
From S2P Require Import GoPath Capability CapabilityEval CallArgs Proxy.
From S2P Require Approval Receipt.
#[local] Open Scope Z_scope.

(** ** The world around a call *)

(** The readings of the clock. *)
Inductive tick :=
| TLimits | TAssertion | TActor | TLineage | TWindow | TOwnership
| TReceipt | TOwnershipAfter | TLineageAfter | TActorAfter | TTaint.

(** What one write to the ledger meets. *)
Record SinkOut := { so_now : Z; so_write : WriteOut; so_sync : bool }.

Record Env := {
  en_sink : Logger -> Event -> SinkOut;
  en_clock : tick -> Z;
  (** the approval directory and what the operator does with a request *)
  en_dir : gset string;
  en_operator : Approval.Request -> Approval.Operator;
  en_nonce : option string;
  (** the text of the signer's errors *)
  en_sign_error : string;
  (** what the rest of the program does during the approval wait *)
  en_wait : Proxy -> Proxy
}.

(** ** Stages *)

(** The message to relay (or the one refused), and the action. *)
Abbreviation verdict := (string * string)%type.
Definition M (A : Type) : Type := Proxy -> Proxy * (verdict + A).
Definition ret {A} (a : A) : M A := fun p => (p, inr a).
Definition bind {A B} (m : M A) (k : A -> M B) : M B := fun p =>
  match m p with
  | (p, inl v) => (p, inl v)
  | (p, inr a) => k a p
  end.
(** [return raw, action] *)
Definition early {A} (raw action : string) : M A := fun p => (p, inl (raw, action)).
Definition gets {A} (f : Proxy -> A) : M A := fun p => (p, inr (f p)).
Definition modify (f : Proxy -> Proxy) : M unit := fun p => (f p, inr tt).
(** An operation that returns the new state and a result. *)
Definition update {A} (f : Proxy -> Proxy * A) : M A := fun p => let '(p, a) := f p in (p, inr a).

Notation "'let*' x ':=' m 'in' k" := (bind m (fun x => k))
  (at level 10, x pattern, m at level 100, k at level 200) : go_scope.
Notation "m ';;*' k" := (bind m (fun _ => k)) (at level 60, right associativity) : go_scope.

Section toolscall.
Context `{GoUnicode, GoPatterns, GoReplace, GoArch, GoTime, GoFmt, GoJSON, GoCrypto, SnapshotJSON, CapJSON}.
Context `{GoNetip, GoFS, EventJSON, GateJSON, AssertionCrypto, RawJSON, Receipt.DecisionJSON, Approval.GoDuration}.
Context (cfg : Config) (env : Env) (id : any) (serverName : string).

(** ** Effects *)

Definition respond (message : string) : M unit :=
  modify (fun p => set_responses (px_responses p ++ [(id, message)]) p).
Definition count (f : ProxyMetrics -> ProxyMetrics) : M unit := modify (fun p => set_metrics (f (px_metrics p)) p).

(** [_ = p.audit.Log(event)] *)
Definition log_event (event : Event) : M unit := modify (fun p =>
  let o := en_sink env (px_audit p) event in
  set_audit (Log (px_audit p) (so_now o) event (so_write o)).1 p).
Definition forwardAudit (event : Event) : M unit := modify (fun p => set_forwarded (px_forwarded p ++ [event]) p).
Definition logAudit (event : Event) : M unit :=
  let* redactor := gets px_redactor in
  let event := attachVerifiedActor cfg redactor event in
  log_event event ;;* forwardAudit event.
Definition CommitAuthorization (event : Event) : M error := update (fun p =>
  let o := en_sink env (px_audit p) event in
  let '(l, err) := Ledger.CommitAuthorization (px_audit p) (so_now o) event (so_write o) (so_sync o) in
  (set_audit l p, err)).

(** Respond, count, write the event, forward it. *)
Definition deny_call (message : string) (event : Proxy -> Event) : M unit :=
  respond message ;;* count IncrementDenied ;;*
  let* event := gets event in log_event event ;;* forwardAudit event.

(** ** The call *)

(** [raw], [originalRaw], [callReq] and [argsMap] as the stages rewrite them. *)
Record Call := { ct_callReq : Engine.ToolsCallRequest; ct_raw : string; ct_originalRaw : string; ct_args : args }.

(** What the stages after redaction share. *)
Record Facts := {
  fc_call : Call;
  fc_snapshot : runtimeSnapshot;
  fc_redacted : list (string * any);
  fc_result : RedactionResult;
  fc_risk : RiskLevel;
  fc_advice : Advice;
  fc_anomalous : bool
}.
Definition fc_tool (f : Facts) : string := tc_Name (ct_callReq (fc_call f)).
Definition fc_raw (f : Facts) : string := ct_raw (fc_call f).
Definition fc_pol (f : Facts) : Policy := rt_policy (fc_snapshot f).
Definition fc_note (f : Facts) (reason : string) : string := withRedactionNote reason (fc_result f).

(** The event of a call with its facts: arguments, identity, advice. *)
Definition facts_event (f : Facts) (p : Proxy) (eventType dec reason : string) (lin : option LineageInfo) : Event :=
  attachTrajectoryAdvice (fc_advice f) (fc_anomalous f) (attachServerIdentity (rt_identity (fc_snapshot f))
    (ev_Lineage lin (call_event cfg p eventType serverName (fc_tool f) (Some (fc_redacted f)) dec
      (fc_note f reason) (fc_risk f)))).
Definition denied_event (f : Facts) (p : Proxy) (reason : string) (lin : option LineageInfo) : Event :=
  facts_event f p EventToolDenied ActionDeny reason lin.

(** An event of a call denied before its arguments were redacted. *)
Definition early_denied_event (p : Proxy) (snapshot : runtimeSnapshot) (toolName reason : string) : Event :=
  attachServerIdentity (rt_identity snapshot) (call_event cfg p EventToolDenied serverName toolName None ActionDeny
    reason (GetRiskLevel (px_engine p) serverName toolName)).

(** [logDeniedWithEvidence]; [reason] is already the final text. *)
Definition evidence_denied_event (snapshot : runtimeSnapshot) (toolName : string) (arguments : args) (reason risk : string)
    (advice : Advice) (anomalous : bool) (lin : option LineageInfo) (p : Proxy) : Event :=
  attachTrajectoryAdvice advice anomalous (attachVerifiedActor cfg (rt_redactor snapshot)
    (attachServerIdentity (rt_identity snapshot) (ev_Lineage lin
      (call_event cfg p EventToolDenied serverName toolName arguments ActionDeny reason risk)))).
Definition logDeniedWithEvidence (snapshot : runtimeSnapshot) (toolName : string) (arguments : args)
    (reason risk : string) (advice : Advice) (anomalous : bool) (lin : option LineageInfo) : M unit :=
  let* event := gets (evidence_denied_event snapshot toolName arguments reason risk advice anomalous lin) in
  log_event event ;;* forwardAudit event.
Definition logDenied (toolName : string) (arguments : args) (reason : string) (risk : string) : M unit :=
  let* snapshot := gets (fun p => runtimeSnapshotLocked cfg p serverName) in
  logDeniedWithEvidence snapshot toolName arguments reason risk zeroAdvice false None.

(** ** The first gates *)

Definition invalidArguments : string := "invalid tools/call arguments".

(** Identity claims are removed from the arguments; [None] when the message
    cannot be rewritten without them. *)
Definition stripped_call (callReq : Engine.ToolsCallRequest) (raw originalRaw : string) : option Call :=
  let argsMap := extractArgs (tc_Arguments callReq) in
  match StripArgumentIdentity argsMap with
  | (_, false) => Some {| ct_callReq := callReq; ct_raw := raw; ct_originalRaw := originalRaw; ct_args := argsMap |}
  | (stripped, true) =>
      (fun rewritten => {|
        ct_callReq := {| tc_Name := tc_Name callReq;
                         tc_Arguments := default (tc_Arguments callReq) (marshal_args (entries stripped)) |};
        ct_raw := rewritten; ct_originalRaw := rewritten; ct_args := stripped |}) <$> rewriteArgs raw (entries stripped)
  end.
Definition strip_identity (callReq : Engine.ToolsCallRequest) (raw originalRaw : string) : M Call :=
  match stripped_call callReq raw originalRaw with
  | Some c => ret c
  | None =>
      respond invalidArguments ;;* count IncrementProcessed ;;* count IncrementDenied ;;*
      logDenied (tc_Name callReq) (extractArgs (tc_Arguments callReq)) invalidArguments RiskUnknown ;;*
      early raw "denied"
  end.

(** [denyKineticRevoked]: no snapshot, no risk level. *)
Definition denyKineticRevoked {A} (toolName raw reason : string) : M A :=
  deny_call reason (fun p => call_event cfg p EventToolDenied serverName toolName None ActionDeny reason "") ;;*
  early raw "denied".
Definition kinetic_gate (toolName raw : string) : M unit :=
  let* revoked := gets (kineticGate cfg) in
  match revoked with Some reason => denyKineticRevoked toolName raw reason | None => ret tt end.

Definition identity_gate (c : Call) (snapshot : runtimeSnapshot) : M unit :=
  let identity := rt_identity snapshot in
  if se_configured identity && negb (se_attested identity) then
    let reason := "server identity attestation failed: " +:+ se_reason identity in
    deny_call reason (fun p => early_denied_event p snapshot (tc_Name (ct_callReq c)) reason) ;;*
    early (ct_raw c) "denied"
  else ret tt.

Definition limits_gate (c : Call) (snapshot : runtimeSnapshot) (argumentBytes : Z) : M unit :=
  let* d := gets (fun p => evaluateRuntimeLimits p argumentBytes (en_clock env TLimits)) in
  if d_Action d =s? ActionDeny then
    deny_call (d_Reason d) (fun p => early_denied_event p snapshot (tc_Name (ct_callReq c)) (d_Reason d)) ;;*
    early (ct_raw c) "denied"
  else ret tt.

(** The verdict of the instruction-authority gate on a session: the stripped
    message when the call may execute, else the reason. *)
Definition authority_verdict (c : Call) (snapshot : runtimeSnapshot) (s : Session) : Session * (string + string) :=
  match classifyInstructionAuthorityEnvelope (ct_raw c) with
  | inl reason => (s, inl reason)
  | inr ienv =>
      match ie_Assertion ienv with
      | None => (s, inl "instruction authority assertion missing")
      | Some _ =>
          match stripInstructionAuthorityMeta (ct_raw c) with
          | None => (s, inl "instruction authority metadata strip failed")
          | Some stripped =>
              let '(s, bindErr) := verifyInstructionAuthorityAssertion s ienv stripped (ct_callReq c) serverName
                                     (rt_keys snapshot) (en_clock env TAssertion) in
              if bindErr <>s? "" then (s, inl bindErr)
              else let '(execute, reason) := Authorize (ie_InstructionObject ienv) (ie_EvaluationRoot ienv) in
                   (s, if execute then inr stripped else inl reason)
          end
      end
  end.
Definition authority_gate (c : Call) (snapshot : runtimeSnapshot) : M Call :=
  if negb (rt_authorize snapshot) then ret c
  else
    let* v := update (fun p => let '(s, v) := authority_verdict c snapshot (px_session p) in (set_session s p, v)) in
    match v with
    | inl reason =>
        deny_call reason (fun p => early_denied_event p snapshot (tc_Name (ct_callReq c)) reason) ;;*
        early (ct_raw c) "denied"
    | inr stripped =>
        ret {| ct_callReq := ct_callReq c; ct_raw := stripped; ct_originalRaw := stripped; ct_args := ct_args c |}
    end.

(** Redacted arguments replace the message's, when it can be rewritten. *)
Definition redact_call (c : Call) (snapshot : runtimeSnapshot) : M (Call * (list (string * any) * RedactionResult)) :=
  let '(redactedArgs, result) := RedactArgs (rt_redactor snapshot) (ct_args c) in
  if re_Redacted result then
    count (AddBytesRedacted (Z.of_nat (String.length (ct_raw c)))) ;;*
    ret ({| ct_callReq := ct_callReq c; ct_raw := default (ct_raw c) (rewriteArgs (ct_raw c) redactedArgs);
            ct_originalRaw := ct_originalRaw c; ct_args := ct_args c |}, (redactedArgs, result))
  else ret (c, (redactedArgs, result)).

Definition sensitive_gate (c : Call) (snapshot : runtimeSnapshot) (redactedArgs : list (string * any))
    (result : RedactionResult) : M unit :=
  let path := extractPath (ct_callReq c) in
  if (path <>s? "") && IsSensitiveFile (rt_redactor snapshot) path then
    deny_call ("access to sensitive file denied: " +:+ path) (fun p =>
      attachServerIdentity (rt_identity snapshot) (call_event cfg p EventToolDenied serverName
        (tc_Name (ct_callReq c)) (Some redactedArgs) ActionDeny
        (withRedactionNote ("sensitive file: " +:+ path) result)
        (GetRiskLevel (px_engine p) serverName (tc_Name (ct_callReq c))))) ;;*
    early (ct_raw c) "denied"
  else ret tt.

(** ** Judgement *)

Definition assessTrajectory (toolName : string) : M (Advice * bool) :=
  let* advisor := gets px_advisor in
  match advisor with
  | None => ret (zeroAdvice, false)
  | Some a =>
      let '(a, (advice, anomalous)) := Assess a (serverName, toolName) in
      modify (set_advisor (Some a)) ;;*
      (if anomalous then count IncrementTrajectoryAnomalies else ret tt) ;;* ret (advice, anomalous)
  end.

Definition call_clock : Clock := {|
  at_actor := en_clock env TActor; at_lineage := en_clock env TLineage; at_window := en_clock env TWindow |}.

(** The policy's decision, the lineage to record, and the facts. *)
Definition judge (c : Call) (snapshot : runtimeSnapshot) (redactedArgs : list (string * any))
    (result : RedactionResult) : M (Decision * (option LineageInfo * Facts)) :=
  let toolName := tc_Name (ct_callReq c) in
  let* d := gets (fun p => Engine.Evaluate (px_engine p) call_clock serverName (ct_callReq c)) in
  let* lin := gets (fun p => SanitizeLineage (px_audit p) (auditLineageInfo (d_Lineage d))) in
  let* risk := gets (fun p => GetRiskLevel (px_engine p) serverName toolName) in
  let* (advice, anomalous) := assessTrajectory toolName in
  ret (d, (lin, {| fc_call := c; fc_snapshot := snapshot; fc_redacted := redactedArgs; fc_result := result;
                   fc_risk := risk; fc_advice := advice; fc_anomalous := anomalous |})).

Definition denyOwnership {A} (f : Facts) (lin : option LineageInfo) (deny : ownershipDeny) : M A :=
  deny_call (od_reason deny) (fun p =>
    attachOwnershipReceipt (od_receipt deny) (denied_event f p (od_reason deny) lin)) ;;*
  early (fc_raw f) "denied".

(** The gate and its answer at [now]: the receipt of a call that passes. *)
Definition ownership_gate (f : Facts) (lin : option LineageInfo) (now : Z) : M (option CapabilityOwnershipReceipt) :=
  match checkCapabilityOwnership (cf_ClientID cfg) (cf_Signer cfg) serverName (ct_callReq (fc_call f))
          (ct_originalRaw (fc_call f)) (fc_pol f) now with
  | (_, Some deny) => denyOwnership f lin deny
  | (rec, None) => ret rec
  end.
Definition ownership_stage (f : Facts) (lin : option LineageInfo) (d : Decision) : M (option CapabilityOwnershipReceipt) :=
  if (d_Action d =s? ActionAllow) || (d_Action d =s? ActionRequireApproval)
  then ownership_gate f lin (en_clock env TOwnership) else ret None.

(** The decision after the egress controls, and the control that fired. *)
Definition egress_stage (f : Facts) (d : Decision) : M (Decision * option egressTaintDecision) :=
  if d_Action d =s? ActionDeny then ret (d, None)
  else
    let* e := gets (fun p => evaluateEgressControls (e_policy (px_engine p)) (px_session p) serverName (fc_tool f)) in
    match e with Some x => ret (eg_decision x, Some x) | None => ret (d, None) end.

(** [checkChain]: a chain that asks for neither denial nor approval is not
    reported. *)
Definition checkChain (f : Facts) : M (Decision * list string) :=
  let* previousCalls := gets chain_calls in
  let* d := gets (fun p => chain_verdict p serverName (ct_callReq (fc_call f))) in
  if (d_Action d =s? ActionDeny) || (d_Action d =s? ActionRequireApproval) then
    let* event := gets (fun p => ev_ChainContext previousCalls (call_event cfg p EventToolChainDetected serverName
      (fc_tool f) (Some (fc_redacted f)) (d_Action d) (d_Reason d) (fc_risk f))) in
    logAudit event ;;* ret (d, previousCalls)
  else ret (decision ActionAllow "no chain rule matched", []).

(** The decision after the chains, whether one asked for approval, and its
    context. *)
Definition chain_stage (f : Facts) (lin : option LineageInfo) (d : Decision) : M (Decision * (bool * list string)) :=
  if d_Action d =s? ActionDeny then ret (d, (false, []))
  else
    let* (chainDecision, previousCalls) := checkChain f in
    if d_Action chainDecision =s? ActionDeny then
      count IncrementChains ;;*
      deny_call "chain rule: tool sequence matches dangerous pattern" (fun p =>
        ev_ChainContext previousCalls (denied_event f p (d_Reason chainDecision) lin)) ;;*
      early (fc_raw f) "denied"
    else if d_Action chainDecision =s? ActionRequireApproval then
      count IncrementChains ;;* ret (chainDecision, (true, previousCalls))
    else ret (d, (false, [])).

Definition cap_state (p : Proxy) : option CapState :=
  (fun ev => {| ca_eval := ev; ca_stepID := px_capStepID p; ca_lastHash := px_capLastHash p |}) <$> px_capEval p.
Definition set_cap_state (s : CapState) (p : Proxy) : Proxy :=
  set_capEval (Some (ca_eval s)) (set_capStepID (ca_stepID s) (set_capLastHash (ca_lastHash s) p)).

(** The artifact, and the decision: a pause never weakens a denial. *)
Definition capability_stage (f : Facts) (d : Decision) : M (Decision * option CapArtifact) :=
  let* s := gets cap_state in
  match s with
  | None => ret (d, None)
  | Some s =>
      let* sessionID := gets (fun p => ss_ID (px_session p)) in
      let '(s, artifact, capPauseReason) := capability_account sessionID s
        (capability_step sessionID serverName (ct_callReq (fc_call f)) (fc_redacted f) (fc_pol f)) in
      modify (set_cap_state s) ;;*
      ret (if (capPauseReason <>s? "") && (d_Action d <>s? ActionDeny)
           then decision ActionRequireApproval capPauseReason else d, artifact)
  end.

(** ** Delegation *)

Definition try_reserve (f : Facts) : M (option ceilingDenyInfo * bool) := update (fun p =>
  let '(s, r) := tryReserveDelegation (fc_pol f) (px_session p) serverName (fc_tool f) in (set_session s p, r)).
(** [if delegationReserved { p.session.ReleaseDelegation() }] *)
Definition release_unit (reserved : bool) : M unit :=
  if reserved then modify (fun p => set_session (ReleaseDelegation (px_session p)) p) else ret tt.

(** The decision after the reservation, the spent ceiling, and whether a unit
    is held. *)
Definition reserve_stage (f : Facts) (d : Decision) : M (Decision * (option ceilingDenyInfo * bool)) :=
  if d_Action d =s? ActionAllow then
    let* (ceiling, reserved) := try_reserve f in
    match ceiling with
    | Some info => ret (decision ActionDeny (cd_reason info), (Some info, false))
    | None => ret (d, (None, reserved))
    end
  else ret (d, (None, false)).

Definition ev_ceiling (info : option ceilingDenyInfo) (e : Event) : Event :=
  match info with
  | Some info => ev_DelegationDepth (cd_depth info) (ev_MaxSpawnDepth (cd_max info) e)
  | None => e
  end.
Definition denyDelegationCeiling {A} (f : Facts) (lin : option LineageInfo) (artifact : option CapArtifact)
    (info : ceilingDenyInfo) : M A :=
  deny_call (cd_reason info) (fun p =>
    attachCapabilityArtifact artifact (ev_ceiling (Some info) (denied_event f p (cd_reason info) lin))) ;;*
  early (fc_raw f) "denied".

(** ** Taints after an authorized call *)

Definition taint_event (f : Facts) (t : SessionTaint) (p : Proxy) : Event :=
  ev_SessionTaints (TaintNames (px_session p)) (ev_TaintSource (serverName +:+ ":" +:+ fc_tool f)
    (ev_TaintReason (tn_Reason t) (ev_PolicyRule (tn_PolicyRule t) (call_event cfg p EventSessionTainted serverName
      (fc_tool f) (Some (fc_redacted f)) ActionAllow (tn_Reason t) (fc_risk f))))).
(** The loop over [pol.Taints]. *)
Fixpoint mark_rules (f : Facts) (rules : list TaintRule) : M unit :=
  match rules with
  | [] => ret tt
  | rule :: rules =>
      match taintSourceMatches rule serverName (fc_tool f) (Some (fc_redacted f)) with
      | None => mark_rules f rules
      | Some sourceValue =>
          let t := rule_taint rule serverName (fc_tool f) sourceValue in
          let* added := update (fun p => let '(s, b) := AddTaint (px_session p) t (en_clock env TTaint) in (set_session s p, b)) in
          (if added then let* event := gets (taint_event f t) in logAudit event else ret tt) ;;* mark_rules f rules
      end
  end.
Definition markMatchingTaints (f : Facts) : M unit := mark_rules f (p_Taints (fc_pol f)).

(** ** Committing *)

Definition commitFailure : string := "execution denied: durable authorization audit commit failed".
(** [denyCommitFailure]: nothing is logged. *)
Definition denyCommitFailure {A} (f : Facts) : M A :=
  respond commitFailure ;;* count IncrementDenied ;;* early (fc_raw f) "denied".

(** Commit the allow record, mark taints, count, forward; the unit held is
    given back when the commit fails. *)
Definition commit_and_forward {A} (f : Facts) (reserved : bool) (allowEvent : Event)
    (counted : ProxyMetrics -> ProxyMetrics) : M A :=
  let* err := CommitAuthorization allowEvent in
  match err with
  | Some _ => release_unit reserved ;;* denyCommitFailure f
  | None =>
      markMatchingTaints f ;;* count counted ;;* forwardAudit allowEvent ;;* early (fc_raw f) "forward"
  end.

Definition allowed_event (f : Facts) (p : Proxy) (reason : string) (lin : option LineageInfo) : Event :=
  attachVerifiedActor cfg (rt_redactor (fc_snapshot f)) (facts_event f p EventToolAllowed ActionAllow reason lin).

(** ** Denial by the final decision *)

Definition ev_egress (e : option egressTaintDecision) (p : Proxy) (event : Event) : Event :=
  match e with
  | None => event
  | Some e => ev_SessionTaints (TaintNames (px_session p))
      (ev_TaintSource (tn_SourceServer (eg_taint e) +:+ ":" +:+ tn_SourceTool (eg_taint e))
      (ev_TaintReason (tn_Reason (eg_taint e)) (ev_PolicyRule (ec_Name (eg_control e)) event)))
  end.
Definition deny_stage {A} (f : Facts) (lin : option LineageInfo) (d : Decision) (ceiling : option ceilingDenyInfo)
    (egress : option egressTaintDecision) (artifact : option CapArtifact) : M A :=
  deny_call (d_Reason d) (fun p => attachCapabilityArtifact artifact
    (attachVerifiedActor cfg (rt_redactor (fc_snapshot f))
      (ev_egress egress p (ev_ceiling ceiling (denied_event f p (d_Reason d) lin))))) ;;*
  early (fc_raw f) "denied".

(** ** Approval *)

Record approvalEvidence := {
  ae_reqHash : string;
  ae_argsHash : string;
  ae_polHash : string;
  ae_chainHash : string;
  ae_RedactedArgsJSON : string;
  ae_PolicyJSON : string;
  ae_ChainContextJSON : string
}.
Definition buildApprovalEvidence (raw : string) (redactedArgs : list (string * any)) (chainContext : list string)
    (pol : Policy) : approvalEvidence :=
  let argsJSON := Receipt.evidence_args redactedArgs in
  let policyJSON := marshal_policy pol in
  let chainJSON := Receipt.evidence_chain chainContext in {|
  ae_reqHash := sha256_hex raw; ae_argsHash := sha256_hex argsJSON; ae_polHash := sha256_hex policyJSON;
  ae_chainHash := sha256_hex chainJSON; ae_RedactedArgsJSON := argsJSON; ae_PolicyJSON := policyJSON;
  ae_ChainContextJSON := chainJSON |}.
Definition ev_evidence (evidence : approvalEvidence) (e : Event) : Event :=
  ev_RequestHash (ae_reqHash evidence) (ev_RedactedArgumentHash (ae_argsHash evidence)
    (ev_PolicyHash (ae_polHash evidence) (ev_ChainContextHash (ae_chainHash evidence) e))).

Definition attachReceiptEvidence (rec : Receipt.DecisionReceipt) (e : Event) : Event :=
  let e := ev_RequestHash (Receipt.dr_OriginalRequest rec) e in
  let e := ev_RedactedArgumentHash (Receipt.dr_RedactedArgs rec) e in
  let e := ev_PolicyHash (Receipt.dr_PolicyHash rec) e in
  let e := ev_ChainContextHash (Receipt.dr_ChainContextHash rec) e in
  match Receipt.marshal_decision rec with Some data => with_receipt_data data e | None => e end.

Definition approvalRequiredEvent (f : Facts) (p : Proxy) (lin : option LineageInfo) (reason : string)
    (chainContext : list string) (evidence : approvalEvidence) (artifact : option CapArtifact) : Event :=
  attachTrajectoryAdvice (fc_advice f) (fc_anomalous f) (attachCapabilityArtifact artifact (ev_Lineage lin
    (ev_evidence evidence (ev_ChainContext chainContext (call_event cfg p EventToolApprovalRequired serverName
      (fc_tool f) (Some (fc_redacted f)) ActionRequireApproval (fc_note f reason) (fc_risk f)))))).

Definition approval_request (f : Facts) (reason : string) (p : Proxy) : Approval.Request := {|
  Approval.ar_ReqID := ss_ID (px_session p) +:+ "-" +:+ fc_tool f +:+ "-" +:+ Itoa (ToolCallCount (px_session p));
  Approval.ar_Tool := fc_tool f; Approval.ar_Server := serverName; Approval.ar_Arguments := fc_redacted f;
  Approval.ar_Reason := reason; Approval.ar_RiskLevel := fc_risk f;
  Approval.ar_SessionID := ss_ID (px_session p); Approval.ar_AgentID := cf_ClientID cfg |}.

(** A denial [requestApproval] logs itself: [Err] is the outcome's reason. *)
Definition approval_denied (f : Facts) (lin : option LineageInfo) (reason : string) : M (result Receipt.DecisionReceipt) :=
  logDeniedWithEvidence (fc_snapshot f) (fc_tool f) (Some (fc_redacted f)) reason (fc_risk f) (fc_advice f)
    (fc_anomalous f) lin ;;* ret (Err reason).

(** The event of a refused or failed request. *)
Definition refused_event (f : Facts) (lin : option LineageInfo) (chainContext : list string)
    (evidence : approvalEvidence) (denyReason : string) (p : Proxy) : Event :=
  attachTrajectoryAdvice (fc_advice f) (fc_anomalous f) (attachVerifiedActor cfg (rt_redactor (fc_snapshot f))
    (attachServerIdentity (rt_identity (fc_snapshot f)) (ev_Lineage lin (ev_evidence evidence
      (ev_ChainContext chainContext (call_event cfg p EventToolDenied serverName (fc_tool f) (Some (fc_redacted f))
        ActionDeny denyReason (fc_risk f))))))).

(** The receipt of a granted request, signed. *)
Definition sign_approval (f : Facts) (lin : option LineageInfo) (reason : string) (evidence : approvalEvidence)
    (req : Approval.Request) : M (result Receipt.DecisionReceipt) :=
  let* sessionID := gets (fun p => ss_ID (px_session p)) in
  match Receipt.NewReceipt (Approval.ar_ReqID req) sessionID (cf_ClientID cfg) serverName (fc_tool f)
          (ct_originalRaw (fc_call f)) (ae_RedactedArgsJSON evidence) (p_Version (fc_pol f)) (ae_PolicyJSON evidence)
          (ae_ChainContextJSON evidence) reason (fc_risk f) "human-operator" "approve"
          (rt_approvalTimeout (fc_snapshot f)) (en_nonce env) (en_clock env TReceipt) with
  | Err err => approval_denied f lin ("approval receipt creation failed: " +:+ err)
  | Ok rec =>
      match cf_Signer cfg with
      | None => approval_denied f lin "approval receipt signing failed: signer is not configured"
      | Some signer =>
          match Receipt.SignWith signer rec with
          | None => approval_denied f lin ("approval receipt signing failed: sign receipt: " +:+ en_sign_error env)
          | Some rec => ret (Ok rec)
          end
      end
  end.

Definition error_text (e : error) : string := default "<nil>" e.

Definition requestApproval (f : Facts) (lin : option LineageInfo) (reason : string) (chainContext : list string)
    (evidence : approvalEvidence) : M (result Receipt.DecisionReceipt) :=
  let* req := gets (approval_request f reason) in
  count IncrementApprovals ;;*
  match cf_Approval cfg with
  | None => approval_denied f lin (fc_note f "approval denied: approval backend is not configured")
  | Some eng =>
      let '(approved, err) := (Approval.RequestApprovalWithTimeout eng (en_operator env req) (en_dir env) req
                                 (rt_approvalTimeout (fc_snapshot f))).2 in
      modify (en_wait env) ;;*
      if bool_decide (is_Some err) || negb approved then
        let denyReason := fc_note f ("approval denied: " +:+ error_text err) in
        let* event := gets (refused_event f lin chainContext evidence denyReason) in
        log_event event ;;* forwardAudit event ;;* ret (Err denyReason)
      else sign_approval f lin reason evidence req
  end.

(** What is checked again once the wait is over: the lineage to record. *)
Definition recheck_lineage (f : Facts) (lin : option LineageInfo) (reserved : bool) : M (option LineageInfo) :=
  match lin with
  | None => ret None
  | Some _ =>
      let* d := gets (fun p => EvaluateLineageAt (px_engine p) serverName (fc_tool f)
        (extractArgs (tc_Arguments (ct_callReq (fc_call f)))) (Some (fc_pol f)) (en_clock env TLineageAfter)) in
      if d_Action d =s? ActionDeny then
        release_unit reserved ;;*
        deny_call (d_Reason d) (fun p => denied_event f p (d_Reason d) lin) ;;* early (fc_raw f) "denied"
      else ret (sanitizeLineageSnapshot (rt_redactor (fc_snapshot f)) (auditLineageInfo (d_Lineage d)))
  end.
Definition recheck_actor (f : Facts) (lin : option LineageInfo) (reserved : bool) : M unit :=
  match recheckVerifiedActor cfg (fc_pol f) serverName (fc_tool f) (en_clock env TActorAfter) with
  | None => ret tt
  | Some err =>
      release_unit reserved ;;*
      deny_call err (fun p => attachVerifiedActor cfg (rt_redactor (fc_snapshot f)) (denied_event f p err lin)) ;;*
      early (fc_raw f) "denied"
  end.
Definition recheck_kinetic (f : Facts) (reserved : bool) : M unit :=
  let* revoked := gets (kineticGate cfg) in
  match revoked with
  | Some reason => release_unit reserved ;;* denyKineticRevoked (fc_tool f) (fc_raw f) reason
  | None => ret tt
  end.

(** After the operator has approved. *)
Definition after_approval {A} (f : Facts) (lin : option LineageInfo) (artifact : option CapArtifact)
    (rec : Receipt.DecisionReceipt) : M A :=
  let* event := gets (fun p => attachReceiptEvidence rec (allowed_event f p "approved by human operator" lin)) in
  let* ownReceipt := ownership_gate f lin (en_clock env TOwnershipAfter) in
  let event := attachOwnershipReceipt ownReceipt event in
  let* (ceiling, reserved) := try_reserve f in
  match ceiling with
  | Some info => denyDelegationCeiling f lin artifact info
  | None =>
      recheck_kinetic f reserved ;;*
      let* lin := recheck_lineage f lin reserved in
      recheck_actor f lin reserved ;;*
      commit_and_forward f reserved (ev_Lineage lin event) IncrementApproved
  end.

Definition approval_stage {A} (f : Facts) (lin : option LineageInfo) (d : Decision) (chainContext : list string)
    (artifact : option CapArtifact) : M A :=
  let* ceiling := gets (fun p => checkDelegationCeiling (fc_pol f) (px_session p) serverName (fc_tool f)) in
  match ceiling with
  | Some info => denyDelegationCeiling f lin artifact info
  | None =>
      let evidence := buildApprovalEvidence (ct_originalRaw (fc_call f)) (fc_redacted f) chainContext (fc_pol f) in
      let* event := gets (fun p => approvalRequiredEvent f p lin (d_Reason d) chainContext evidence artifact) in
      log_event event ;;* forwardAudit event ;;*
      let* outcome := requestApproval f lin (d_Reason d) chainContext evidence in
      match outcome with
      | Err reason =>
          respond ("execution denied: approval not granted (" +:+ reason +:+ ")") ;;* count IncrementDenied ;;*
          early (fc_raw f) "denied"
      | Ok rec => after_approval f lin artifact rec
      end
  end.

(** The [allow] and [default] cases. *)
Definition allow_stage {A} (f : Facts) (lin : option LineageInfo) (d : Decision) (ownReceipt : option CapabilityOwnershipReceipt)
    (artifact : option CapArtifact) (reserved : bool) : M A :=
  let* event := gets (fun p => attachOwnershipReceipt ownReceipt (attachCapabilityArtifact artifact
    (allowed_event f p (d_Reason d) lin))) in
  commit_and_forward f reserved event IncrementAllowed.

(** ** The whole call *)

Definition gates (callReq : Engine.ToolsCallRequest) (raw originalRaw : string) (argumentBytes : Z)
    : M (Call * (runtimeSnapshot * (list (string * any) * RedactionResult))) :=
  let* c := strip_identity callReq raw originalRaw in
  count IncrementProcessed ;;*
  kinetic_gate (tc_Name (ct_callReq c)) (ct_raw c) ;;*
  let* snapshot := gets (fun p => runtimeSnapshotLocked cfg p serverName) in
  identity_gate c snapshot ;;*
  limits_gate c snapshot argumentBytes ;;*
  let* c := authority_gate c snapshot in
  let* (c, (redactedArgs, result)) := redact_call c snapshot in
  sensitive_gate c snapshot redactedArgs result ;;*
  ret (c, (snapshot, (redactedArgs, result))).

(** The rest of the call, on the redacted arguments. *)
Definition judged_call (c : Call) (snapshot : runtimeSnapshot) (redactedArgs : list (string * any))
    (result : RedactionResult) : M verdict :=
  let* (d, (lin, f)) := judge c snapshot redactedArgs result in
  let* ownReceipt := ownership_stage f lin d in
  let* (d, egress) := egress_stage f d in
  let* (d, (_, chainContext)) := chain_stage f lin d in
  let* (d, artifact) := capability_stage f d in
  let* (d, (ceiling, reserved)) := reserve_stage f d in
  if d_Action d =s? ActionDeny then deny_stage f lin d ceiling egress artifact
  else if d_Action d =s? ActionRequireApproval then approval_stage f lin d chainContext artifact
  else allow_stage f lin d ownReceipt artifact reserved.

Definition processToolsCall (callReq : Engine.ToolsCallRequest) (raw originalRaw : string) (argumentBytes : Z)
    : M verdict :=
  let* (c, (snapshot, (redactedArgs, result))) := gates callReq raw originalRaw argumentBytes in
  judged_call c snapshot redactedArgs result.
End toolscall.

(** The message and the action a call returns: every path returns early. *)
Definition returned {A} (r : Proxy * (verdict + A)) : option verdict :=
  match r.2 with inl v => Some v | inr _ => None end.
