(* ===== verification/ToolsCallSpec.v ===== *)
(** What a tools/call guarantees: every call is answered once and accounted
    for, nothing is relayed that a gate refused, and what is relayed has been
    durably recorded. *)
From stdpp Require Import base strings gmap list.
From Stdlib Require Import ZArith Lia Ascii.
From S2P Require Import Prelude GoStrings GoLib Lineage LineageRegistry ActorContext.
From S2P Require Import PolicyTypes PolicyRegistry Slots Engine OwnershipGate Session Taint Redaction.
From S2P Require Import Ledger InstructionAuthority InstructionAuth Trajectory.
From S2P Require Import GoPath Capability CapabilityEval CallArgs Proxy ToolsCall.
From S2P Require PolicyValidate Approval Receipt EngineSpec LedgerSpec CapabilitySpec.
#[local] Open Scope Z_scope.

(** ** A logic for stages

    A frame relates the state before a stage to the state after it: [fr_Q]
    when the call goes on, [fr_E] when it returns. *)

Record frame := {
  fr_Q : Proxy -> Proxy -> Prop;
  fr_E : Proxy -> Proxy -> verdict -> Prop;
  fr_refl : forall p, fr_Q p p;
  fr_trans : forall p p1 p2, fr_Q p p1 -> fr_Q p1 p2 -> fr_Q p p2;
  fr_absorb : forall p p1 p2 v, fr_Q p p1 -> fr_E p1 p2 v -> fr_E p p2 v
}.

Definition within (F : frame) {A} (m : M A) : Prop := forall p,
  match m p with
  | (p', inl v) => fr_E F p p' v
  | (p', inr _) => fr_Q F p p'
  end.

Section logic.
Context (F : frame).

Lemma within_bind {A B} (m : M A) (k : A -> M B) :
  within F m -> (forall a, within F (k a)) -> within F (bind m k).
Proof.
  intros Hm Hk p. specialize (Hm p). unfold bind. destruct (m p) as [p1 [v|a]]; [done|].
  specialize (Hk a p1). destruct (k a p1) as [p2 [v|b]].
  - by apply (fr_absorb F p p1).
  - by apply (fr_trans F p p1).
Qed.
Lemma within_ret {A} (a : A) : within F (ret a).
Proof. intros p. apply fr_refl. Qed.
Lemma within_gets {A} (f : Proxy -> A) : within F (gets f).
Proof. intros p. apply fr_refl. Qed.
Lemma within_modify f : (forall p, fr_Q F p (f p)) -> within F (modify f).
Proof. intros Hf p. apply Hf. Qed.
Lemma within_update {A} (f : Proxy -> Proxy * A) : (forall p, fr_Q F p (f p).1) -> within F (update f).
Proof. intros Hf p. specialize (Hf p). unfold update. by destruct (f p). Qed.
Lemma within_if {A} (b : bool) (m m' : M A) : within F m -> within F m' -> within F (if b then m else m').
Proof. by destruct b. Qed.
End logic.

(** What a call that goes on past a stage says about the stage. *)
Lemma bind_returns {A B} (m : M A) (k : A -> M B) p p' v :
  bind m k p = (p', inl v) ->
  m p = (p', inl v) \/ exists p1 a, m p = (p1, inr a) /\ k a p1 = (p', inl v).
Proof. unfold bind. destruct (m p) as [p1 [w|a]]; intros Hk; [left; congruence|right; eauto]. Qed.

Lemma bind_continues {A B} (m : M A) (k : A -> M B) p p' b :
  bind m k p = (p', inr b) -> exists p1 a, m p = (p1, inr a) /\ k a p1 = (p', inr b).
Proof. unfold bind. destruct (m p) as [p1 [w|a]]; intros Hk; [discriminate|eauto]. Qed.

Create HintDb stages.
#[export] Hint Resolve within_ret within_gets : stages.

(** Take a stage apart: its binds, its conditionals and its matches. *)
Ltac stage :=
  repeat first
    [ progress auto with stages nocore
    | apply within_bind; [|intros ?]
    | apply within_if
    | lazymatch goal with
      | |- within _ (match ?x with _ => _ end) => destruct x
      | |- within _ (let '_ := ?x in _) => destruct x
      end ].

(** ** The account of a call *)

Record Account := {
  ac_responses : list (any * string);
  ac_processed : Z;
  ac_denied : Z;
  ac_allowed : Z;
  ac_approved : Z;
  ac_depth : Z;
  ac_taints : gmap string SessionTaint
}.
Definition account (p : Proxy) : Account := {|
  ac_responses := px_responses p; ac_processed := mt_Processed (px_metrics p);
  ac_denied := mt_Denied (px_metrics p); ac_allowed := mt_Allowed (px_metrics p);
  ac_approved := mt_Approved (px_metrics p); ac_depth := ss_SpawnDepth (px_session p);
  ac_taints := ss_Taints (px_session p) |}.

(** One response, one denial, nothing else. *)
Definition denied (id : any) (a a' : Account) : Prop := exists message,
  a' = {| ac_responses := ac_responses a ++ [(id, message)]; ac_processed := ac_processed a;
          ac_denied := ac_denied a + 1; ac_allowed := ac_allowed a; ac_approved := ac_approved a;
          ac_depth := ac_depth a; ac_taints := ac_taints a |}.
(** No response, one call allowed or approved, one unit spent if [unit]. *)
Definition forwarded (unit : bool) (a a' : Account) : Prop :=
  ac_responses a' = ac_responses a /\ ac_processed a' = ac_processed a /\ ac_denied a' = ac_denied a /\
  ac_allowed a' + ac_approved a' = ac_allowed a + ac_approved a + 1 /\
  ac_depth a' = ac_depth a + (if unit then 1 else 0) /\ ac_taints a ⊆ ac_taints a'.

(** The account once a unit is held. *)
Definition bump (unit : bool) (a : Account) : Account := {|
  ac_responses := ac_responses a; ac_processed := ac_processed a; ac_denied := ac_denied a;
  ac_allowed := ac_allowed a; ac_approved := ac_approved a;
  ac_depth := ac_depth a + (if unit then 1 else 0); ac_taints := ac_taints a |}.

(** Seen from the account before the reservation of [unit]. *)
Definition settled (id : any) (unit : bool) (p p' : Proxy) (v : verdict) : Prop := forall base,
  0 <= ac_depth base -> account p = bump unit base ->
  (v.2 = "denied" /\ denied id base (account p')) \/ (v.2 = "forward" /\ forwarded unit base (account p')).

Definition accounting (id : any) (unit : bool) : frame.
Proof.
  refine {| fr_Q := fun p p' => account p' = account p; fr_E := settled id unit |}.
  - done.
  - congruence.
  - intros p p1 p2 v Hq He base Hd Hb. apply He; congruence.
Defined.

Section spec.
Context `{GoUnicode, GoPatterns, GoReplace, GoArch, GoTime, GoFmt, GoJSON, GoCrypto, SnapshotJSON, CapJSON}.
Context `{GoNetip, GoFS, EventJSON, GateJSON, AssertionCrypto, RawJSON, Receipt.DecisionJSON, Approval.GoDuration}.
Context (cfg : Config) (env : Env) (id : any) (serverName : string).

(** The other goroutines answer no call, count none, reserve nothing and taint
    nothing: a policy reload, a kinetic stop, the relay of results. *)
Definition undisturbed : Prop := forall p, account (en_wait env p) = account p.

(** ** Effects on the account *)

Section effects.
Context (unit : bool).
Abbreviation F := (accounting id unit).

Lemma log_event_acc event : within F (log_event env event).
Proof. by apply within_modify. Qed.
Lemma forwardAudit_acc event : within F (forwardAudit event).
Proof. by apply within_modify. Qed.
Lemma logAudit_acc event : within F (logAudit cfg env event).
Proof. unfold logAudit. apply within_bind; [apply within_gets|intros r]. apply within_bind; [apply log_event_acc|intros _; apply forwardAudit_acc]. Qed.
Lemma count_acc f : (forall m, mt_Processed (f m) = mt_Processed m /\ mt_Denied (f m) = mt_Denied m /\
  mt_Allowed (f m) = mt_Allowed m /\ mt_Approved (f m) = mt_Approved m) -> within F (count f).
Proof.
  intros Hf. apply within_modify. intros p. destruct (Hf (px_metrics p)) as (H1' & H2' & H3' & H4').
  change (account (set_metrics (f (px_metrics p)) p) = account p). unfold account. cbn. congruence.
Qed.

(** A tail that refuses the call: one response, one denial. *)
Definition refuses {A} (m : M A) (raw : string) : Prop := forall p,
  exists p', m p = (p', inl (raw, "denied")) /\ denied id (account p) (account p').
Lemma deny_call_refuses {A} message event raw :
  refuses (deny_call env id message event ;;* early raw "denied" : M A) raw.
Proof. intros p. eexists. split; [reflexivity|]. by exists message. Qed.
Lemma respond_refuses {A} message raw :
  refuses (respond id message ;;* count IncrementDenied ;;* early raw "denied" : M A) raw.
Proof. intros p. eexists. split; [reflexivity|]. by exists message. Qed.

Lemma bump_false a : bump false a = a.
Proof. destruct a. unfold bump. cbn. by rewrite Z.add_0_r. Qed.
Lemma release_unit_bump u p base : 0 <= ac_depth base -> account p = bump u base ->
  exists p', release_unit u p = (p', inr tt) /\ account p' = base.
Proof.
  intros Hd Ha. destruct u.
  - eexists. split; [reflexivity|]. destruct base as [r a d al ap dep ta]. cbn in Hd.
    unfold account, bump in *. cbn in *. injection Ha as E1 E2 E3 E4 E5 E6 E7.
    unfold ReleaseDelegation. rewrite E6, (proj2 (Z.ltb_lt _ _)) by lia. cbn. f_equal; [done..|lia|done].
  - exists p. split; [done|]. by rewrite Ha, bump_false.
Qed.
Lemma release_unit_returns u p : exists p', release_unit u p = (p', inr tt).
Proof. destruct u; by eexists. Qed.

Lemma refuses_within {A} (m : M A) raw : unit = false -> refuses m raw -> within F m.
Proof.
  intros -> Hm p. destruct (Hm p) as (p' & -> & Hd). intros base Hb Ha. left. split; [done|].
  by rewrite Ha, bump_false in Hd.
Qed.
(** The same after the unit held has been given back. *)
Lemma release_within {A} (m : M A) raw : refuses m raw -> within F (release_unit unit ;;* m).
Proof.
  intros Hm p. unfold bind. destruct (release_unit_returns unit p) as [p1 Hr]. rewrite Hr.
  destruct (Hm p1) as (p' & -> & Hd). intros base Hb Ha. left. split; [done|].
  destruct (release_unit_bump unit p base Hb Ha) as (p2 & Hr2 & <-). rewrite Hr in Hr2. by injection Hr2 as <-.
Qed.
Lemma deny_tail {A} message event raw : unit = false ->
  within F (deny_call env id message event ;;* early raw "denied" : M A).
Proof. intros Hu. eapply refuses_within, deny_call_refuses. done. Qed.
Lemma refuse_tail {A} message raw : unit = false ->
  within F (respond id message ;;* count IncrementDenied ;;* early raw "denied" : M A).
Proof. intros Hu. eapply refuses_within, respond_refuses. done. Qed.
Lemma release_deny_tail {A} message event raw :
  within F (release_unit unit ;;* deny_call env id message event ;;* early raw "denied" : M A).
Proof. eapply release_within, deny_call_refuses. Qed.
Lemma release_refuse_tail {A} message raw :
  within F (release_unit unit ;;* respond id message ;;* count IncrementDenied ;;* early raw "denied" : M A).
Proof. eapply release_within, respond_refuses. Qed.
End effects.

#[local] Hint Resolve log_event_acc forwardAudit_acc logAudit_acc deny_tail refuse_tail release_deny_tail release_refuse_tail eq_refl : stages.
#[local] Hint Extern 1 (within _ (count _)) => (apply count_acc; done) : stages.

(** ** Before a unit is reserved *)

Lemma kinetic_gate_acc toolName raw : within (accounting id false) (kinetic_gate cfg env id serverName toolName raw).
Proof. unfold kinetic_gate, denyKineticRevoked. stage. Qed.
Lemma identity_gate_acc c snapshot : within (accounting id false) (identity_gate cfg env id serverName c snapshot).
Proof. unfold identity_gate. stage. Qed.
Lemma limits_gate_acc c snapshot n : within (accounting id false) (limits_gate cfg env id serverName c snapshot n).
Proof. unfold limits_gate. stage. Qed.

(** The gate touches the nonces of the session only. *)
Lemma verify_session s ienv stripped callReq keys now :
  with_nonces (verifyInstructionAuthorityAssertion s ienv stripped callReq serverName keys now).1 ∅ = with_nonces s ∅.
Proof.
  unfold verifyInstructionAuthorityAssertion. repeat case_match; try done; simplify_eq/=.
  all: match goal with H : ConsumeInstructionAuthorityNonce _ _ _ _ = _ |- _ => revert H end.
  all: unfold ConsumeInstructionAuthorityNonce; repeat case_match; by intros [= <-].
Qed.
Lemma authority_verdict_session c snapshot s :
  with_nonces (authority_verdict env serverName c snapshot s).1 ∅ = with_nonces s ∅.
Proof.
  unfold authority_verdict. destruct (classifyInstructionAuthorityEnvelope _) as [?|ienv]; [done|].
  destruct (ie_Assertion ienv); [|done]. destruct (stripInstructionAuthorityMeta _) as [stripped|]; [|done].
  pose proof (verify_session s ienv stripped (ct_callReq c) (rt_keys snapshot) (en_clock env TAssertion)) as Hv.
  destruct (verifyInstructionAuthorityAssertion _ _ _ _ _ _ _) as [s' e]. cbn in Hv.
  destruct (e <>s? ""); [done|]. by destruct (Authorize _ _) as [[] ?].
Qed.
Lemma authority_gate_acc c snapshot : within (accounting id false) (authority_gate cfg env id serverName c snapshot).
Proof.
  unfold authority_gate. stage. apply within_update. intros p.
  pose proof (authority_verdict_session c snapshot (px_session p)) as Hs.
  destruct (authority_verdict env serverName c snapshot (px_session p)) as [s v]. cbn in Hs.
  change (account (set_session s p) = account p). unfold account. cbn.
  pose proof (f_equal ss_SpawnDepth Hs) as Hd. pose proof (f_equal ss_Taints Hs) as Ht. cbn in Hd, Ht. congruence.
Qed.
Lemma redact_call_acc c snapshot : within (accounting id false) (redact_call c snapshot).
Proof. unfold redact_call. stage. Qed.
Lemma sensitive_gate_acc c snapshot a r : within (accounting id false) (sensitive_gate cfg env id serverName c snapshot a r).
Proof. unfold sensitive_gate. stage. Qed.
Lemma assessTrajectory_acc toolName : within (accounting id false) (assessTrajectory serverName toolName).
Proof. unfold assessTrajectory. stage. by apply within_modify. Qed.
#[local] Hint Resolve assessTrajectory_acc : stages.
Lemma judge_acc c snapshot a r : within (accounting id false) (judge env serverName c snapshot a r).
Proof. unfold judge. stage. Qed.
Lemma ownership_gate_acc f lin now : within (accounting id false) (ownership_gate cfg env id serverName f lin now).
Proof. unfold ownership_gate, denyOwnership. stage. Qed.
#[local] Hint Resolve ownership_gate_acc : stages.
Lemma ownership_stage_acc f lin d : within (accounting id false) (ownership_stage cfg env id serverName f lin d).
Proof. unfold ownership_stage. stage. Qed.
Lemma egress_stage_acc f d : within (accounting id false) (egress_stage serverName f d).
Proof. unfold egress_stage. stage. Qed.
Lemma chain_stage_acc f lin d : within (accounting id false) (chain_stage cfg env id serverName f lin d).
Proof. unfold chain_stage, checkChain. stage. Qed.
Lemma capability_stage_acc f d : within (accounting id false) (capability_stage serverName f d).
Proof. unfold capability_stage. stage. by apply within_modify. Qed.

(** ** Authorized calls *)

(** The taints grow and nothing else of the account changes; no early return. *)
Definition tainting : frame.
Proof.
  refine {| fr_Q := fun p p' => ac_taints (account p) ⊆ ac_taints (account p') /\
              exists taints, account p' = {| ac_responses := ac_responses (account p); ac_processed := ac_processed (account p);
                ac_denied := ac_denied (account p); ac_allowed := ac_allowed (account p);
                ac_approved := ac_approved (account p); ac_depth := ac_depth (account p); ac_taints := taints |};
            fr_E := fun _ _ _ => False |}.
  - intros p. split; [done|]. by eexists.
  - intros p p1 p2 (Hs1 & t1 & E1) (Hs2 & t2 & E2). split; [by etrans|]. exists t2. by rewrite E2, E1.
  - done.
Defined.

Lemma AddTaint_account p t now :
  fr_Q tainting p (set_session (AddTaint (px_session p) t now).1 p).
Proof.
  unfold AddTaint. destruct (tn_Name t =s? ""); [split; [done|by eexists]|].
  destruct (ss_Taints (px_session p) !! tn_Name t) eqn:E; [split; [done|by eexists]|].
  split; [by apply insert_subseteq|by eexists].
Qed.
Lemma log_event_taint event : within tainting (log_event env event).
Proof. apply within_modify. intros p. split; [done|]. by eexists. Qed.
Lemma logAudit_taint event : within tainting (logAudit cfg env event).
Proof.
  unfold logAudit. apply within_bind; [apply within_gets|intros r].
  apply within_bind; [apply log_event_taint|intros _]. apply within_modify. intros p. split; [done|]. by eexists.
Qed.
Lemma mark_rules_taint f rules : within tainting (mark_rules cfg env serverName f rules).
Proof.
  induction rules as [|rule rules IH]; cbn [mark_rules]; [apply within_ret|].
  destruct (taintSourceMatches _ _ _ _); [|done]. apply within_bind.
  - apply within_update. intros p. pose proof (AddTaint_account p (rule_taint rule serverName (fc_tool f) s) (en_clock env TTaint)) as Ht.
    by destruct (AddTaint _ _ _).
  - intros added. apply within_bind; [|by intros _].
    destruct added; [apply within_bind; [apply within_gets|intros; apply logAudit_taint]|apply within_ret].
Qed.

Definition counts_forward (counted : ProxyMetrics -> ProxyMetrics) : Prop := forall m,
  mt_Processed (counted m) = mt_Processed m /\ mt_Denied (counted m) = mt_Denied m /\
  mt_Allowed (counted m) + mt_Approved (counted m) = mt_Allowed m + mt_Approved m + 1.

Lemma forward_tail_account {A} f event counted unit : counts_forward counted ->
  within (accounting id unit)
    (markMatchingTaints cfg env serverName f ;;* count counted ;;* forwardAudit event ;;* early (fc_raw f) "forward" : M A).
Proof.
  intros Hc p. unfold bind at 1. pose proof (mark_rules_taint f (p_Taints (fc_pol f)) p) as Hm.
  unfold markMatchingTaints. destruct (mark_rules _ _ _ _ _ _) as [p1 [v|[]]]; [done|].
  destruct Hm as [Hs (t & Et)]. unfold bind, count, forwardAudit, modify, early. cbn.
  intros base Hb Ha. right. split; [done|]. destruct (Hc (px_metrics p1)) as (C1 & C2 & C3).
  rewrite Ha in Hs, Et. unfold account, bump, forwarded in *. cbn in *. injection Et as E1 E2 E3 E4 E5 E6 E7.
  split_and!; [congruence..|lia|congruence|done].
Qed.
Lemma commit_and_forward_acc {A} f unit event counted : counts_forward counted ->
  within (accounting id unit) (commit_and_forward cfg env id serverName f unit event counted : M A).
Proof.
  intros Hc. unfold commit_and_forward, denyCommitFailure. apply within_bind.
  - apply within_update. intros p. cbv zeta. by case_match.
  - intros err. destruct err; [stage|by apply forward_tail_account].
Qed.

(** ** Gates *)

(** What the call reads and no gate before the capability accounting changes;
    of the session, all but its nonces. *)
Definition static (p : Proxy) :=
  (px_engine p, px_redactor p, px_authorize p, px_keys p, px_revoked p, with_nonces (px_session p) ∅, cap_state p).

Lemma static_engine p p0 : static p = static p0 -> px_engine p = px_engine p0.
Proof. unfold static. by intros [= -> _ _ _ _ _ _]. Qed.

(** A gate returns from the call only to deny it. *)
Definition refusing : frame.
Proof. by refine {| fr_Q := fun _ _ => True; fr_E := fun _ _ v => v.2 = "denied" |}. Defined.
Definition gate : frame.
Proof.
  refine {| fr_Q := fun p p' => static p' = static p; fr_E := fun _ _ v => v.2 = "denied" |}; [done|congruence|done].
Defined.
Lemma gate_refusing {A} (m : M A) : within gate m -> within refusing m.
Proof. intros Hm p. specialize (Hm p). by destruct (m p) as [p1 [v|a]]. Qed.

Lemma early_gate {A} raw : within gate (early raw "denied" : M A). Proof. by intros p. Qed.
Lemma respond_gate message : within gate (respond id message). Proof. by apply within_modify. Qed.
Lemma count_gate f : within gate (count f). Proof. by apply within_modify. Qed.
Lemma log_event_gate event : within gate (log_event env event). Proof. by apply within_modify. Qed.
Lemma forwardAudit_gate event : within gate (forwardAudit event). Proof. by apply within_modify. Qed.
#[local] Hint Resolve early_gate respond_gate count_gate log_event_gate forwardAudit_gate : stages.
Lemma logAudit_gate event : within gate (logAudit cfg env event). Proof. unfold logAudit. stage. Qed.
Lemma deny_call_gate message event : within gate (deny_call env id message event). Proof. unfold deny_call. stage. Qed.
#[local] Hint Resolve logAudit_gate deny_call_gate : stages.
Lemma logDenied_gate toolName a reason risk : within gate (logDenied cfg env serverName toolName a reason risk).
Proof. unfold logDenied, logDeniedWithEvidence. stage. Qed.
#[local] Hint Resolve logDenied_gate : stages.

Lemma strip_identity_gate callReq raw originalRaw :
  within gate (strip_identity cfg env id serverName callReq raw originalRaw).
Proof. unfold strip_identity. stage. Qed.
Lemma kinetic_gate_gate toolName raw : within gate (kinetic_gate cfg env id serverName toolName raw).
Proof. unfold kinetic_gate, denyKineticRevoked. stage. Qed.
Lemma identity_gate_gate c snapshot : within gate (identity_gate cfg env id serverName c snapshot).
Proof. unfold identity_gate. stage. Qed.
Lemma limits_gate_gate c snapshot n : within gate (limits_gate cfg env id serverName c snapshot n).
Proof. unfold limits_gate. stage. Qed.
Lemma authority_gate_gate c snapshot : within gate (authority_gate cfg env id serverName c snapshot).
Proof.
  unfold authority_gate. stage. apply within_update. intros p.
  pose proof (authority_verdict_session c snapshot (px_session p)) as Hs.
  destruct (authority_verdict env serverName c snapshot (px_session p)) as [s v]. cbn in Hs.
  change (static (set_session s p) = static p). unfold static, cap_state. cbn. by rewrite Hs.
Qed.
Lemma redact_call_gate c snapshot : within gate (redact_call c snapshot).
Proof. unfold redact_call. stage. Qed.
Lemma sensitive_gate_gate c snapshot a r : within gate (sensitive_gate cfg env id serverName c snapshot a r).
Proof. unfold sensitive_gate. stage. Qed.
Lemma judge_gate c snapshot a r : within gate (judge env serverName c snapshot a r).
Proof. unfold judge, assessTrajectory. stage. by apply within_modify. Qed.
Lemma ownership_gate_gate f lin now : within gate (ownership_gate cfg env id serverName f lin now).
Proof. unfold ownership_gate, denyOwnership. stage. Qed.
#[local] Hint Resolve ownership_gate_gate : stages.
Lemma ownership_stage_gate f lin d : within gate (ownership_stage cfg env id serverName f lin d).
Proof. unfold ownership_stage. stage. Qed.
Lemma egress_stage_gate f d : within gate (egress_stage serverName f d).
Proof. unfold egress_stage. stage. Qed.
Lemma chain_stage_gate f lin d : within gate (chain_stage cfg env id serverName f lin d).
Proof. unfold chain_stage, checkChain. stage. Qed.
Lemma capability_stage_refusing f d : within refusing (capability_stage serverName f d).
Proof.
  unfold capability_stage. apply within_bind; [apply within_gets|intros [s|]]; [|apply within_ret].
  apply within_bind; [apply within_gets|intros sid].
  destruct (capability_account _ _ _) as [[s' art] pause].
  apply within_bind; [by apply within_modify|intros _; apply within_ret].
Qed.
#[local] Hint Resolve strip_identity_gate kinetic_gate_gate identity_gate_gate limits_gate_gate authority_gate_gate
  redact_call_gate sensitive_gate_gate judge_gate ownership_stage_gate egress_stage_gate chain_stage_gate
  capability_stage_refusing : stages.

(** ** Reserving a unit *)

Lemma tryReserve_account f p s ceiling u :
  tryReserveDelegation (fc_pol f) (px_session p) serverName (fc_tool f) = (s, (ceiling, u)) ->
  account (set_session s p) = bump u (account p) /\
  (ceiling = None /\ u = toolDelegates (fc_pol f) serverName (fc_tool f) \/ is_Some ceiling /\ u = false).
Proof.
  unfold tryReserveDelegation, AddCheckDelegation. destruct (toolDelegates _ _ _) eqn:Hd; cbn.
  - destruct (_ && _) eqn:Hover; intros [= <- <- <-]; (split; [|eauto]).
    + unfold account, bump. cbn. f_equal; lia.
    + done.
  - intros [= <- <- <-]. split; [by rewrite bump_false|eauto].
Qed.

(** What a call has come to, seen from the account [a]. *)
Definition outcome_of (unit : bool) (a : Account) (p' : Proxy) (v : verdict) : Prop :=
  (v.2 = "denied" /\ denied id a (account p')) \/ (v.2 = "forward" /\ forwarded unit a (account p')).
Definition settles (P : Proxy -> Prop) (unit : bool) {A} (m : M A) : Prop := forall p p' v,
  P p -> 0 <= ac_depth (account p) -> m p = (p', inl v) -> outcome_of unit (account p) p' v.
Definition anywhere : Proxy -> Prop := fun _ => True.
Definition at_static p0 : Proxy -> Prop := fun p => static p = static p0.

Lemma settles_anywhere P unit {A} (m : M A) : settles anywhere unit m -> settles P unit m.
Proof. intros Hm p p' v _. by apply Hm. Qed.
Lemma refuses_settles P unit {A} (m : M A) raw : refuses m raw -> settles P unit m.
Proof.
  intros Hm p p' v _ _ Hr. destruct (Hm p) as (p1 & Hp & Hd). rewrite Hp in Hr. injection Hr as <- <-. by left.
Qed.
Lemma within_settles P unit {A} (m : M A) : unit = false -> within (accounting id unit) m -> settles P unit m.
Proof.
  intros -> Hm p p' v _ Hd Hr. specialize (Hm p). rewrite Hr in Hm. apply Hm; [done|]. by rewrite bump_false.
Qed.

Lemma settles_ret P unit {A B} (a : A) (k : A -> M B) : settles P unit (k a) -> settles P unit (bind (ret a) k).
Proof. done. Qed.
Lemma settles_assoc P unit {A B C} (m : M A) (k : A -> M B) (k' : B -> M C) :
  settles P unit (bind m (fun a => bind (k a) k')) -> settles P unit (bind (bind m k) k').
Proof.
  intros Hs p p' v HP Hd Hr. apply Hs; [done..|]. rewrite <- Hr. unfold bind. by destruct (m p) as [p1 [w|a]].
Qed.

(** A stage that reserves nothing, and what comes after it. *)
Lemma settles_step (P : Proxy -> Prop) unit {A B} (m : M A) (k : A -> M B) :
  within (accounting id false) m -> within refusing m ->
  (forall p p1 a, P p -> m p = (p1, inr a) -> P p1 /\ settles P unit (k a)) -> settles P unit (bind m k).
Proof.
  intros Hm Hden Hk p p' v HP Hd Hr. apply bind_returns in Hr as [Hr|(p1 & a & Hr & Hr')].
  - specialize (Hm p). specialize (Hden p). rewrite Hr in Hm, Hden. cbn in Hden. left.
    destruct (Hm (account p) Hd ltac:(by rewrite bump_false)) as [?|[Hf _]]; [done|congruence].
  - specialize (Hm p). rewrite Hr in Hm. cbn in Hm. rewrite <- Hm in Hd |- *.
    destruct (Hk p p1 a HP Hr) as [HP1 Hs]. apply (Hs p1 p' v HP1 Hd Hr').
Qed.
Lemma settles_bind unit {A B} (m : M A) (k : A -> M B) :
  within (accounting id false) m -> within refusing m ->
  (forall a, settles anywhere unit (k a)) -> settles anywhere unit (bind m k).
Proof. intros Hm Hden Hk. apply settles_step; [done..|]. intros p p1 a _ _. by split. Qed.
Lemma settles_gate p0 unit {A B} (m : M A) (k : A -> M B) :
  within (accounting id false) m -> within gate m ->
  (forall p p1 a, static p = static p0 -> m p = (p1, inr a) -> settles (at_static p0) unit (k a)) ->
  settles (at_static p0) unit (bind m k).
Proof.
  intros Hm Hg Hk. apply settles_step; [done|by apply gate_refusing|]. intros p p1 a HP Hr.
  split; [|by apply (Hk p p1)]. specialize (Hg p). rewrite Hr in Hg. cbn in Hg. unfold at_static in *. congruence.
Qed.

Lemma settles_reserve P f {A} (k : option ceilingDenyInfo * bool -> M A) raw :
  let unit := toolDelegates (fc_pol f) serverName (fc_tool f) in
  (forall info, refuses (k (Some info, false)) raw) -> within (accounting id unit) (k (None, unit)) ->
  settles P unit (bind (try_reserve serverName f) k).
Proof.
  intros unit Hover Hok p p' v _ Hd. unfold bind, try_reserve, update.
  destruct (tryReserveDelegation _ _ _ _) as [s [ceiling u]] eqn:Ht. intros Hr.
  destruct (tryReserve_account f p s ceiling u Ht) as (Ha & [[-> ->]|[[info ->] ->]]).
  - fold unit in Hr, Ha. specialize (Hok (set_session s p)). rewrite Hr in Hok. by apply Hok.
  - destruct (Hover info (set_session s p)) as (p1 & Hp & Hden). rewrite Hp in Hr. injection Hr as <- <-. left.
    split; [done|]. by rewrite Ha, bump_false in Hden.
Qed.

(** ** The approval *)

Section waiting.
Context (Hwait : undisturbed).

Lemma early_refusing {A} raw : within refusing (early raw "denied" : M A). Proof. by intros p. Qed.
Lemma modify_refusing f : within refusing (modify f). Proof. by apply within_modify. Qed.
Lemma log_event_refusing event : within refusing (log_event env event). Proof. apply modify_refusing. Qed.
Lemma forwardAudit_refusing event : within refusing (forwardAudit event). Proof. apply modify_refusing. Qed.
Lemma count_refusing f : within refusing (count f). Proof. apply modify_refusing. Qed.
#[local] Hint Resolve early_refusing modify_refusing log_event_refusing forwardAudit_refusing count_refusing : stages.

Lemma wait_acc : within (accounting id false) (modify (en_wait env)).
Proof. by apply within_modify. Qed.
#[local] Hint Resolve wait_acc : stages.
Lemma approval_denied_acc f lin reason : within (accounting id false) (approval_denied cfg env serverName f lin reason).
Proof. unfold approval_denied, logDeniedWithEvidence. stage. Qed.
Lemma approval_denied_refusing f lin reason : within refusing (approval_denied cfg env serverName f lin reason).
Proof. unfold approval_denied, logDeniedWithEvidence. stage. Qed.
#[local] Hint Resolve approval_denied_acc approval_denied_refusing : stages.
Lemma requestApproval_acc f lin reason ctx ev : within (accounting id false) (requestApproval cfg env serverName f lin reason ctx ev).
Proof. unfold requestApproval, sign_approval. stage. Qed.
Lemma requestApproval_refusing f lin reason ctx ev : within refusing (requestApproval cfg env serverName f lin reason ctx ev).
Proof. unfold requestApproval, sign_approval. stage. Qed.
#[local] Hint Resolve requestApproval_acc requestApproval_refusing : stages.

Lemma recheck_kinetic_acc f unit : within (accounting id unit) (recheck_kinetic cfg env id serverName f unit).
Proof. unfold recheck_kinetic, denyKineticRevoked. stage. Qed.
Lemma recheck_lineage_acc f lin unit : within (accounting id unit) (recheck_lineage cfg env id serverName f lin unit).
Proof. unfold recheck_lineage. stage. Qed.
Lemma recheck_actor_acc f lin unit : within (accounting id unit) (recheck_actor cfg env id serverName f lin unit).
Proof. unfold recheck_actor. stage. Qed.
#[local] Hint Resolve recheck_kinetic_acc recheck_lineage_acc recheck_actor_acc : stages.

Lemma IncrementAllowed_counts : counts_forward IncrementAllowed.
Proof. intros m. cbn. lia. Qed.
Lemma IncrementApproved_counts : counts_forward IncrementApproved.
Proof. intros m. cbn. lia. Qed.

Lemma commit_allowed_acc {A} f unit event :
  within (accounting id unit) (commit_and_forward cfg env id serverName f unit event IncrementAllowed : M A).
Proof. apply commit_and_forward_acc, IncrementAllowed_counts. Qed.
Lemma commit_approved_acc {A} f unit event :
  within (accounting id unit) (commit_and_forward cfg env id serverName f unit event IncrementApproved : M A).
Proof. apply commit_and_forward_acc, IncrementApproved_counts. Qed.
#[local] Hint Resolve commit_allowed_acc commit_approved_acc : stages.

Abbreviation unit_of f := (toolDelegates (fc_pol f) serverName (fc_tool f)).

Lemma after_approval_settles {A} f lin artifact rec :
  settles anywhere (unit_of f) (after_approval cfg env id serverName f lin artifact rec : M A).
Proof.
  unfold after_approval. apply settles_bind; [stage|stage|intros event].
  apply settles_bind; [apply ownership_gate_acc|apply gate_refusing, ownership_gate_gate|intros own].
  apply (settles_reserve _ f _ (fc_raw f)); [intros info; apply deny_call_refuses|].
  stage.
Qed.
Lemma approval_stage_settles {A} f lin d ctx artifact :
  settles anywhere (unit_of f) (approval_stage cfg env id serverName f lin d ctx artifact : M A).
Proof.
  unfold approval_stage. apply settles_bind; [stage|stage|intros [info|]].
  { eapply refuses_settles, deny_call_refuses. }
  do 4 (apply settles_bind; [stage|stage|intros ?]).
  match goal with |- settles _ _ (match ?o with _ => _ end) => destruct o as [rec|reason] end.
  - apply after_approval_settles.
  - eapply refuses_settles, respond_refuses.
Qed.
Lemma allow_stage_acc {A} f lin d own artifact unit :
  within (accounting id unit) (allow_stage cfg env id serverName f lin d own artifact unit : M A).
Proof. unfold allow_stage. stage. Qed.

(** ** The whole call *)

(** Every egress control denies or asks for approval: [Validate] checks it. *)
Definition egress_strict (pol : Policy) : Prop := forall c, In c (p_EgressControls pol) ->
  ec_Action c = ActionDeny \/ ec_Action c = ActionRequireApproval.
Definition decides (d : Decision) : Prop :=
  d_Action d = ActionDeny \/ d_Action d = ActionRequireApproval \/ d_Action d = ActionAllow.

Lemma judge_yields c snapshot a r p p1 d lin f :
  judge env serverName c snapshot a r p = (p1, inr (d, (lin, f))) ->
  d = Engine.Evaluate (px_engine p) (call_clock env) serverName (ct_callReq c) /\
  fc_call f = c /\ fc_snapshot f = snapshot /\ fc_redacted f = a /\ fc_result f = r.
Proof.
  unfold judge, bind, gets, ret. destruct (assessTrajectory _ _ _) as [p2 [v|[advice anomalous]]]; [done|].
  by intros [= <- <- <- <-].
Qed.
Lemma evaluateEgressControls_action pol s tool x : egress_strict pol ->
  evaluateEgressControls pol s serverName tool = Some x ->
  d_Action (eg_decision x) = ActionDeny \/ d_Action (eg_decision x) = ActionRequireApproval.
Proof.
  intros Hs. unfold evaluateEgressControls. destruct (List.find _ _) as [c|] eqn:Hf; [|done].
  apply List.find_some in Hf as [Hin _]. specialize (Hs c Hin).
  unfold control_decision. destruct (GetTaint _ _); [|done]. by intros [= <-].
Qed.

(** After the gates: [d] is what the reservation starts from. *)
Lemma dispatch_settles P f lin d own egress ctx artifact : decides d ->
  settles P (unit_of f)
    (let* (d, (ceiling, reserved)) := reserve_stage serverName f d in
     if d_Action d =s? ActionDeny then deny_stage cfg env id serverName f lin d ceiling egress artifact
     else if d_Action d =s? ActionRequireApproval then approval_stage cfg env id serverName f lin d ctx artifact
     else allow_stage cfg env id serverName f lin d own artifact reserved : M verdict).
Proof.
  assert (forall d ceiling, decides d -> d_Action d <> ActionAllow -> settles P (unit_of f)
    (if d_Action d =s? ActionDeny then deny_stage cfg env id serverName f lin d ceiling egress artifact
     else if d_Action d =s? ActionRequireApproval then approval_stage cfg env id serverName f lin d ctx artifact
     else allow_stage cfg env id serverName f lin d own artifact false : M verdict)) as Hother.
  { clear d. intros d ceiling [Hd|[Hd|Hd]] Hna; [| |done]; rewrite Hd; cbn.
    - eapply refuses_settles, deny_call_refuses.
    - apply settles_anywhere, approval_stage_settles. }
  intros Hdec. unfold reserve_stage. destruct (d_Action d =s? ActionAllow) eqn:Ha; bools.
  - apply settles_assoc, (settles_reserve _ f _ (fc_raw f)).
    + intros info. apply deny_call_refuses.
    + unfold bind, ret. rewrite Ha. cbn. apply allow_stage_acc.
  - apply settles_ret. by apply Hother.
Qed.

Lemma call_settles p0 c snapshot a r : egress_strict (e_policy (px_engine p0)) ->
  rt_policy snapshot = e_policy (px_engine p0) ->
  settles (at_static p0) (toolDelegates (rt_policy snapshot) serverName (tc_Name (ct_callReq c)))
    (judged_call cfg env id serverName c snapshot a r).
Proof.
  intros Hstrict Hpol. unfold judged_call.
  apply settles_gate; [apply judge_acc|stage|]. intros p p1 [d [lin f]] Hst Hj.
  apply judge_yields in Hj as (Hd & <- & <- & _ & _). clear Hst.
  assert (decides d) as Hdec by (rewrite Hd; apply EngineSpec.Evaluate_decides). clear Hd p p1.
  apply settles_gate; [apply ownership_stage_acc|stage|]. intros _ _ own _ _.
  apply settles_gate; [apply egress_stage_acc|stage|]. intros p p1 [d1 egress] Hst He.
  assert (decides d1) as Hdec1.
  { unfold egress_stage in He. destruct (d_Action d =s? ActionDeny); [by injection He as _ <- _|].
    unfold bind, gets in He. destruct (evaluateEgressControls _ _ _ _) as [x|] eqn:Hx;
      [|by injection He as _ <- _]. injection He as _ <- _. unfold decides.
    apply evaluateEgressControls_action in Hx as [?|?]; [auto|auto|]. by rewrite (static_engine _ _ Hst). }
  clear d Hdec p p1 Hst He.
  apply settles_gate; [apply chain_stage_acc|stage|]. intros p p1 [d2 [triggered ctx]] _ Hc.
  assert (decides d2) as Hdec2.
  { unfold chain_stage in Hc. destruct (d_Action d1 =s? ActionDeny); [by injection Hc as _ <- _ _|].
    apply bind_continues in Hc as (p2 & [d3 calls] & _ & Hc).
    destruct (d_Action d3 =s? ActionDeny); [discriminate|].
    destruct (d_Action d3 =s? ActionRequireApproval) eqn:Hr; injection Hc as _ <- _ _; [|done].
    bools. unfold decides. auto. }
  clear d1 Hdec1 p p1 Hc.
  apply settles_anywhere, settles_step; [apply capability_stage_acc|apply capability_stage_refusing|].
  intros p p1 [d3 artifact] _ Hc. split; [done|]. apply dispatch_settles. unfold capability_stage in Hc.
  apply bind_continues in Hc as (p2 & [s|] & _ & Hc); [|by injection Hc as _ <- _].
  apply bind_continues in Hc as (p3 & sid & _ & Hc).
  destruct (capability_account _ _ _) as [[s' art] pause]. injection Hc as _ <- _.
  unfold decides. destruct (_ && _); [cbn; auto|done].
Qed.
End waiting.

(** ** The gates *)

(** The call after the authority gate: the authorized message without its
    metadata, where that gate is on. *)
Definition authorized (p : Proxy) (snapshot : runtimeSnapshot) (c c1 : Call) : Prop :=
  if px_authorize p then exists s stripped,
    authority_verdict env serverName c snapshot (px_session p) = (s, inr stripped) /\
    c1 = {| ct_callReq := ct_callReq c; ct_raw := stripped; ct_originalRaw := stripped; ct_args := ct_args c |}
  else c1 = c.
(** The message to relay after redaction. *)
Definition redacted_raw (c : Call) (ra : list (string * any) * RedactionResult) : string :=
  if re_Redacted ra.2 then default (ct_raw c) (rewriteArgs (ct_raw c) ra.1) else ct_raw c.
Definition with_raw (c : Call) (raw : string) : Call :=
  {| ct_callReq := ct_callReq c; ct_raw := raw; ct_originalRaw := ct_originalRaw c; ct_args := ct_args c |}.

(** What a call that passes the gates from [p] has met: [c] is the call without
    identity claims, and [c'] with the redacted arguments [ra] is what the rest
    of the call works on. *)
Record admitted (p : Proxy) (c : Call) (n : Z) (snapshot : runtimeSnapshot) (c' : Call)
    (redactedArgs : list (string * any)) : Prop := {
  ad_kinetic : kineticGate cfg p = None;
  ad_snapshot : snapshot = runtimeSnapshotLocked cfg p serverName;
  ad_identity : se_configured (rt_identity snapshot) = true -> se_attested (rt_identity snapshot) = true;
  ad_limits : d_Action (evaluateRuntimeLimits p n (en_clock env TLimits)) <> ActionDeny;
  ad_redacted : redactedArgs = (RedactArgs (px_redactor p) (ct_args c)).1;
  ad_call : exists c1, authorized p snapshot c c1 /\
    c' = with_raw c1 (redacted_raw c1 (RedactArgs (px_redactor p) (ct_args c)));
  ad_sensitive : extractPath (ct_callReq c) <> "" -> IsSensitiveFile (px_redactor p) (extractPath (ct_callReq c)) = false
}.
Lemma admitted_callReq p c n snapshot c' a : admitted p c n snapshot c' a -> ct_callReq c' = ct_callReq c.
Proof.
  intros [_ _ _ _ _ (c1 & Hc1 & ->) _]. unfold authorized in Hc1.
  destruct (px_authorize p); [by destruct Hc1 as (s & stripped & _ & ->)|by subst].
Qed.

Lemma kinetic_gate_passes toolName raw p p1 u :
  kinetic_gate cfg env id serverName toolName raw p = (p1, inr u) -> p1 = p /\ kineticGate cfg p = None.
Proof. unfold kinetic_gate, bind, gets. destruct (kineticGate cfg p); [discriminate|]. by intros [= <- _]. Qed.
Lemma identity_gate_passes c snapshot p p1 u :
  identity_gate cfg env id serverName c snapshot p = (p1, inr u) ->
  p1 = p /\ (se_configured (rt_identity snapshot) = true -> se_attested (rt_identity snapshot) = true).
Proof.
  unfold identity_gate. destruct (se_configured _); [destruct (se_attested _)|]; cbn; try discriminate; by intros [= <- _].
Qed.
Lemma limits_gate_passes c snapshot n p p1 u :
  limits_gate cfg env id serverName c snapshot n p = (p1, inr u) ->
  p1 = p /\ d_Action (evaluateRuntimeLimits p n (en_clock env TLimits)) <> ActionDeny.
Proof.
  unfold limits_gate, bind at 1, gets. destruct (_ =s? ActionDeny) eqn:E; [discriminate|]. intros [= <- _].
  split; [done|]. by bools.
Qed.
Lemma authority_gate_passes c snapshot p p1 c' :
  authority_gate cfg env id serverName c snapshot p = (p1, inr c') ->
  rt_authorize snapshot = px_authorize p -> ct_callReq c' = ct_callReq c /\ ct_args c' = ct_args c /\
  authorized p snapshot c c'.
Proof.
  unfold authority_gate, authorized. intros Hg E. rewrite E in Hg. destruct (px_authorize p); [|by injection Hg as _ <-].
  cbn [negb] in Hg. unfold bind at 1, update in Hg.
  destruct (authority_verdict _ _ _ _ _) as [s [reason|stripped]] eqn:Hv; [discriminate|].
  injection Hg as _ <-. split_and!; [done..|]. by exists s, stripped.
Qed.
Lemma redact_call_passes c snapshot p p1 c' a r :
  redact_call c snapshot p = (p1, inr (c', (a, r))) ->
  RedactArgs (rt_redactor snapshot) (ct_args c) = (a, r) /\ c' = with_raw c (redacted_raw c (a, r)).
Proof.
  unfold redact_call, redacted_raw. destruct (RedactArgs _ _) as [a' r']. cbn [snd fst].
  destruct (re_Redacted r') eqn:E; cbn; intros [= _ <- <- <-]; rewrite E; [done|]. by destruct c.
Qed.
Lemma sensitive_gate_passes c snapshot a r p p1 u :
  sensitive_gate cfg env id serverName c snapshot a r p = (p1, inr u) ->
  extractPath (ct_callReq c) <> "" -> IsSensitiveFile (rt_redactor snapshot) (extractPath (ct_callReq c)) = false.
Proof.
  unfold sensitive_gate. destruct (_ && _) eqn:E; [discriminate|]. intros _ Hne.
  apply andb_false_iff in E as [E|E]; [bools; congruence|done].
Qed.

Lemma gates_static callReq raw originalRaw n : within gate (gates cfg env id serverName callReq raw originalRaw n).
Proof. unfold gates. stage. Qed.

Lemma gates_pass callReq raw originalRaw n p p1 c' snapshot a r :
  gates cfg env id serverName callReq raw originalRaw n p = (p1, inr (c', (snapshot, (a, r)))) ->
  exists c, stripped_call callReq raw originalRaw = Some c /\ admitted p c n snapshot c' a.
Proof.
  unfold gates. intros Hg. apply bind_continues in Hg as (p2 & c & Hs & Hg). exists c.
  unfold strip_identity in Hs. destruct (stripped_call _ _ _) as [c0|]; [|discriminate].
  injection Hs as <- <-. split; [done|].
  unfold bind at 1, count, modify in Hg. set (pc := set_metrics _ p) in Hg.
  apply bind_continues in Hg as (p3 & u1 & H1' & Hg). apply kinetic_gate_passes in H1' as [-> Hk].
  unfold bind at 1, gets in Hg.
  apply bind_continues in Hg as (p4 & u2 & H2' & Hg). apply identity_gate_passes in H2' as [-> Hi].
  apply bind_continues in Hg as (p5 & u3 & H3' & Hg). apply limits_gate_passes in H3' as [-> Hl].
  apply bind_continues in Hg as (p6 & c1 & H4' & Hg). destruct (authority_gate_passes _ _ _ _ _ H4' eq_refl) as (Hc1 & Ha1 & Hau).
  apply bind_continues in Hg as (p7 & [c2 [a2 r2]] & H5' & Hg). apply redact_call_passes in H5' as (Hr & Hc2).
  apply bind_continues in Hg as (p8 & u4 & H6' & Hg). pose proof (sensitive_gate_passes _ _ _ _ _ _ _ H6') as Hsens.
  injection Hg as _ <- <- <- <-. rewrite Hc2 in Hsens. cbn [with_raw ct_callReq] in Hsens. rewrite Hc1 in Hsens.
  rewrite Ha1 in Hr. cbn in Hr. split; try done; rewrite Hr; [done|]. exists c1. by rewrite Hc2.
Qed.

(** The account once the call is counted. *)
Definition counted (a : Account) : Account := {|
  ac_responses := ac_responses a; ac_processed := ac_processed a + 1; ac_denied := ac_denied a;
  ac_allowed := ac_allowed a; ac_approved := ac_approved a; ac_depth := ac_depth a; ac_taints := ac_taints a |}.

Lemma logDenied_acc toolName a reason risk : within (accounting id false) (logDenied cfg env serverName toolName a reason risk).
Proof. unfold logDenied, logDeniedWithEvidence. stage. Qed.
#[local] Hint Resolve kinetic_gate_acc identity_gate_acc limits_gate_acc authority_gate_acc redact_call_acc
  sensitive_gate_acc : stages.

Lemma gates_account callReq raw originalRaw n p : 0 <= ac_depth (account p) ->
  match gates cfg env id serverName callReq raw originalRaw n p with
  | (p1, inl v) => v.2 = "denied" /\ denied id (counted (account p)) (account p1)
  | (p1, inr _) => account p1 = counted (account p)
  end.
Proof.
  intros Hd. unfold gates, strip_identity. destruct (stripped_call callReq raw originalRaw) as [c|].
  - unfold bind at 1. change (ret c p) with (p, @inr verdict Call c). cbv beta iota.
    unfold bind at 1, count, modify.
    set (pc := set_metrics _ p). assert (account pc = counted (account p)) as Hpc by done.
    match goal with |- match ?m pc with _ => _ end => set (rest := m) end.
    assert (within (accounting id false) rest /\ within refusing rest) as [Ha Hr].
    { subst rest. split; [stage|apply gate_refusing; stage]. }
    specialize (Ha pc). specialize (Hr pc). destruct (rest pc) as [p1 [v|x]]; cbn in Ha, Hr; [|congruence].
    split; [done|]. rewrite <- Hpc.
    destruct (Ha (account pc) Hd ltac:(by rewrite bump_false)) as [[_ ?]|[Hf _]]; [done|congruence].
  - split; [done|]. by exists invalidArguments.
Qed.

Lemma stripped_call_name callReq raw originalRaw c : stripped_call callReq raw originalRaw = Some c ->
  tc_Name (ct_callReq c) = tc_Name callReq.
Proof.
  unfold stripped_call. destruct (StripArgumentIdentity _) as [s []]; [|by intros [= <-]].
  intros Hs. by apply fmap_Some in Hs as (rewritten & _ & ->).
Qed.

(** Every path returns. *)
Definition returns {A} (m : M A) : Prop := forall p, exists p' v, m p = (p', inl v).
Lemma returns_bind {A B} (m : M A) (k : A -> M B) : (forall a, returns (k a)) -> returns (bind m k).
Proof. intros Hk p. unfold bind. destruct (m p) as [p1 [v|a]]; [by eexists _, _|]. apply Hk. Qed.
Lemma returns_early {A} raw action : returns (early raw action : M A).
Proof. intros p. by eexists _, _. Qed.
Lemma returns_if {A} (b : bool) (m m' : M A) : returns m -> returns m' -> returns (if b then m else m').
Proof. by destruct b. Qed.
Ltac returning :=
  repeat first [ apply returns_early | apply returns_if
    | lazymatch goal with |- returns (match ?x with _ => _ end) => destruct x
                        | |- returns (let '_ := ?x in _) => destruct x end
    | apply returns_bind; intros ? ].
Lemma processToolsCall_returns callReq raw originalRaw n :
  returns (processToolsCall cfg env id serverName callReq raw originalRaw n).
Proof.
  unfold processToolsCall, judged_call, deny_stage, approval_stage, allow_stage, after_approval, commit_and_forward,
    denyDelegationCeiling, denyCommitFailure. returning.
Qed.

(** ** Every call is answered once and accounted for *)

(** C3.  Every tools/call ends, either denied with exactly one response and one
    denial counted, its session's delegation budget and taints as they were, or
    forwarded with no response, one call counted as allowed or approved and
    exactly one unit of the budget spent when the tool delegates. *)
Theorem call_accounted (callReq : Engine.ToolsCallRequest) (raw originalRaw : string) (n : Z) (p : Proxy) :
  undisturbed -> egress_strict (e_policy (px_engine p)) -> 0 <= ss_SpawnDepth (px_session p) ->
  exists p' v, processToolsCall cfg env id serverName callReq raw originalRaw n p = (p', inl v) /\
    ((v.2 = "denied" /\ denied id (counted (account p)) (account p')) \/
     (v.2 = "forward" /\
      forwarded (toolDelegates (e_policy (px_engine p)) serverName (tc_Name callReq)) (counted (account p)) (account p'))).
Proof.
  intros Hwait Hstrict Hd. destruct (processToolsCall_returns callReq raw originalRaw n p) as (p' & v & Hr).
  exists p', v. split; [done|]. unfold processToolsCall in Hr.
  pose proof (gates_account callReq raw originalRaw n p Hd) as Ha.
  pose proof (gates_static callReq raw originalRaw n p) as Hs.
  apply bind_returns in Hr as [Hr|(p1 & [c' [snapshot [a r]]] & Hg & Hr)]; [rewrite Hr in Ha; by left|].
  rewrite Hg in Ha, Hs. cbn in Hs. apply gates_pass in Hg as (c & Hc & Had).
  pose proof (admitted_callReq _ _ _ _ _ _ Had) as Hreq. destruct Had as [_ Hsnap _ _ _ _ _].
  assert (rt_policy snapshot = e_policy (px_engine p)) as Hpol by by rewrite Hsnap.
  destruct (call_settles Hwait p c' snapshot a r Hstrict Hpol p1 p' v Hs) as [[Hv Hden]|[Hv Hf]]; rewrite ?Ha; try done.
  - left. by rewrite Ha in Hden.
  - right. split; [done|]. by rewrite Ha, Hreq, (stripped_call_name _ _ _ _ Hc), Hpol in Hf.
Qed.

(** ** What a forwarded call has passed *)

Lemma forward_bind {A B} (m : M A) (k : A -> M B) p p' v :
  within refusing m -> v.2 = "forward" -> bind m k p = (p', inl v) ->
  exists p1 a, m p = (p1, inr a) /\ k a p1 = (p', inl v).
Proof.
  intros Hm Hv Hr. apply bind_returns in Hr as [Hr|?]; [|done]. specialize (Hm p). rewrite Hr in Hm. cbn in Hm. congruence.
Qed.
Lemma deny_never_forwards {A} (m : M A) raw p p' v : refuses m raw -> m p = (p', inl v) -> v.2 <> "forward".
Proof. intros Hm Hr. destruct (Hm p) as (p1 & Hp & _). rewrite Hp in Hr. by injection Hr as _ <-. Qed.

(** The operator granted [req], made for this call, within its time, and the
    receipt of the grant is signed. *)
Record granted_by (f : Facts) (eng : Approval.Engine) (req : Approval.Request) (signer : Signer)
    (unsigned rec : Receipt.DecisionReceipt) : Prop := {
  gt_configured : cf_Approval cfg = Some eng;
  gt_tool : Approval.ar_Tool req = fc_tool f;
  gt_server : Approval.ar_Server req = serverName;
  gt_arguments : Approval.ar_Arguments req = fc_redacted f;
  gt_approved : (Approval.RequestApprovalWithTimeout eng (en_operator env req) (en_dir env) req
                   (rt_approvalTimeout (fc_snapshot f))).2 = (true, None);
  gt_key : cf_Signer cfg = Some signer;
  gt_signed : Receipt.SignWith signer unsigned = Some rec;
  gt_for_tool : Receipt.dr_Tool unsigned = fc_tool f;
  gt_for_request : Receipt.dr_OriginalRequest unsigned = sha256_hex (ct_originalRaw (fc_call f))
}.
Definition granted (f : Facts) : Prop := exists eng req signer unsigned rec, granted_by f eng req signer unsigned rec.

(** What is relayed is the call's message, and the last durable write before
    [p'] is the record that allows this call. *)
Definition recorded (f : Facts) (p' : Proxy) (v : verdict) : Prop := v.1 = fc_raw f /\ exists l now event rec line,
  prepareRecord l now event = Some (rec, line) /\ lg_synced (px_audit p') = lg_file l +:+ line /\
  ae_EventType event = EventToolAllowed /\ ae_Decision event = ActionAllow /\
  ae_Server event = serverName /\ ae_Tool event = fc_tool f /\ ae_Arguments event = Some (fc_redacted f).

Lemma CommitAuthorization_recorded l now event w b l' :
  Ledger.CommitAuthorization l now event w b = (l', None) ->
  exists rec line, prepareRecord l now event = Some (rec, line) /\ lg_synced l' = lg_file l +:+ line /\
    ae_EventType event = EventToolAllowed /\ ae_Decision event = ActionAllow.
Proof.
  unfold Ledger.CommitAuthorization, commit_record. destruct (lg_poisoned l); [done|].
  destruct (lg_durable l); [|done]. cbn [negb]. destruct (_ || _) eqn:Et; [done|].
  apply orb_false_iff in Et as [Et Ed]. bools. destruct (prepareRecord l now event) as [[rec line]|]; [|done].
  unfold appendFull. destruct (_ && _) eqn:Ew; [|done]. destruct b; [|done]. intros [= <-].
  exists rec, line. split_and!; try done. apply andb_true_iff in Ew as [_ Ew]. apply Nat.eqb_eq in Ew.
  cbn. by rewrite Ew, LedgerSpec.take_all.
Qed.
Lemma Log_synced l now event w : lg_synced (Log l now event w).1 = lg_synced l.
Proof.
  unfold Log. destruct (lg_poisoned l); [done|]. destruct (prepareRecord _ _ _) as [[rec line]|]; [|done].
  unfold appendFull. by destruct (_ && _).
Qed.
Definition syncing : frame.
Proof.
  refine {| fr_Q := fun p p' => lg_synced (px_audit p') = lg_synced (px_audit p); fr_E := fun _ _ _ => False |};
    [done|congruence|done].
Defined.
Lemma log_event_syncing event : within syncing (log_event env event).
Proof. apply within_modify. intros p. apply Log_synced. Qed.
Lemma mark_rules_syncing f rules : within syncing (mark_rules cfg env serverName f rules).
Proof.
  assert (forall event, within syncing (logAudit cfg env event)) as Hlog.
  { intros event. unfold logAudit. apply within_bind; [apply within_gets|intros r].
    apply within_bind; [apply log_event_syncing|intros _; by apply within_modify]. }
  induction rules as [|rule rules IH]; cbn [mark_rules]; [apply within_ret|].
  destruct (taintSourceMatches _ _ _ _); [|done]. apply within_bind.
  - apply within_update. intros p. by destruct (AddTaint _ _ _).
  - intros added. apply within_bind; [|by intros _].
    destruct added; [apply within_bind; [apply within_gets|intros; apply Hlog]|apply within_ret].
Qed.
Lemma commit_recorded {A} f unit event counted p p' v :
  ae_Server event = serverName -> ae_Tool event = fc_tool f -> ae_Arguments event = Some (fc_redacted f) ->
  (commit_and_forward cfg env id serverName f unit event counted : M A) p = (p', inl v) -> v.2 = "forward" ->
  recorded f p' v.
Proof.
  intros Hsrv Htool Hargs Hr Hv. unfold commit_and_forward in Hr. unfold bind at 1, CommitAuthorization, update in Hr.
  destruct (Ledger.CommitAuthorization _ _ _ _ _) as [l' err] eqn:Hc. destruct err as [err|].
  - unfold bind at 1 in Hr. destruct (release_unit_returns unit (set_audit l' p)) as [p1 Hrel]. rewrite Hrel in Hr.
    by apply (deny_never_forwards _ (fc_raw f)) in Hr; [|apply respond_refuses].
  - apply CommitAuthorization_recorded in Hc as (rec & line & Hp & Hs & Ht & Hd).
    pose proof (mark_rules_syncing f (p_Taints (fc_pol f)) (set_audit l' p)) as Hm.
    unfold markMatchingTaints in Hr. unfold bind at 1 in Hr.
    destruct (mark_rules _ _ _ _ _ _) as [p2 [w|[]]]; [done|]. cbn in Hm.
    unfold bind, count, forwardAudit, modify, early in Hr. injection Hr as <- <-.
    split; [done|]. exists (px_audit p), (so_now (en_sink env (px_audit p) event)), event, rec, line. cbn. rewrite Hm. cbn.
    split_and!; done.
Qed.

(** The fields evidence never rewrites. *)
Definition core (e : Event) := (ae_Server e, ae_Tool e, ae_Arguments e).
Lemma core_identity ev e : core (attachServerIdentity ev e) = core e.
Proof. unfold attachServerIdentity. by repeat case_match. Qed.
Lemma core_actor r e : core (attachVerifiedActor cfg r e) = core e.
Proof. unfold attachVerifiedActor. by case_match. Qed.
Lemma core_advice a b e : core (attachTrajectoryAdvice a b e) = core e.
Proof. unfold attachTrajectoryAdvice. by case_match. Qed.
Lemma core_receipt_data d e : core (with_receipt_data d e) = core e.
Proof. unfold with_receipt_data. by case_match. Qed.
Lemma core_artifact a e : core (attachCapabilityArtifact a e) = core e.
Proof. unfold attachCapabilityArtifact. repeat case_match; rewrite ?core_receipt_data; done. Qed.
Lemma core_ownership r e : core (attachOwnershipReceipt r e) = core e.
Proof. unfold attachOwnershipReceipt. by case_match. Qed.
Lemma core_decision r e : core (attachReceiptEvidence r e) = core e.
Proof. unfold attachReceiptEvidence. case_match; rewrite ?core_receipt_data; done. Qed.
Lemma core_allowed f p reason lin : core (allowed_event cfg serverName f p reason lin) = (serverName, fc_tool f, Some (fc_redacted f)).
Proof. unfold allowed_event, facts_event. by rewrite core_actor, core_advice, core_identity. Qed.

Lemma allow_stage_recorded {A} f lin d own artifact unit p p' v :
  (allow_stage cfg env id serverName f lin d own artifact unit : M A) p = (p', inl v) -> v.2 = "forward" -> recorded f p' v.
Proof.
  unfold allow_stage, bind at 1, gets. set (event := attachOwnershipReceipt _ _).
  assert (core event = (serverName, fc_tool f, Some (fc_redacted f))) as Hc.
  { subst event. by rewrite core_ownership, core_artifact, core_allowed. }
  injection Hc as Hs Ht Ha. by apply commit_recorded.
Qed.

Lemma sign_approval_yields f lin reason evidence req p p1 rec :
  sign_approval cfg env serverName f lin reason evidence req p = (p1, inr (Ok rec)) ->
  exists signer unsigned, cf_Signer cfg = Some signer /\ Receipt.SignWith signer unsigned = Some rec /\
    Receipt.dr_Tool unsigned = fc_tool f /\ Receipt.dr_OriginalRequest unsigned = sha256_hex (ct_originalRaw (fc_call f)).
Proof.
  unfold sign_approval. intros Hr. apply bind_continues in Hr as (p2 & sid & _ & Hr).
  assert (forall r, approval_denied cfg env serverName f lin r p2 <> (p1, inr (Ok rec))) as Hno.
  { intros r Hd. unfold approval_denied in Hd. apply bind_continues in Hd as (p3 & [] & _ & Hd). discriminate. }
  destruct (Receipt.NewReceipt _ _ _ _ _ _ _ _ _ _ _ _ _ _ _ _ _) as [unsigned|err] eqn:Hn; [|by apply Hno in Hr].
  destruct (cf_Signer cfg) as [signer|]; [|by apply Hno in Hr].
  destruct (Receipt.SignWith signer unsigned) as [rec'|] eqn:Hs; [|by apply Hno in Hr]. injection Hr as _ ->.
  exists signer, unsigned. unfold Receipt.NewReceipt in Hn. destruct (en_nonce env); [|discriminate].
  injection Hn as <-. done.
Qed.
Lemma requestApproval_granted f lin reason ctx evidence p p1 rec :
  requestApproval cfg env serverName f lin reason ctx evidence p = (p1, inr (Ok rec)) -> granted f.
Proof.
  unfold requestApproval. intros Hr. unfold bind at 1, gets in Hr. set (req := approval_request _ _ _ _ _) in Hr.
  apply bind_continues in Hr as (p2 & [] & _ & Hr). destruct (cf_Approval cfg) as [eng|] eqn:He.
  2:{ unfold approval_denied in Hr. apply bind_continues in Hr as (p3 & [] & _ & Hr). discriminate. }
  destruct (Approval.RequestApprovalWithTimeout _ _ _ _ _) as [dir [approved err]] eqn:Ha. cbn [snd] in Hr.
  apply bind_continues in Hr as (p3 & [] & _ & Hr). destruct (bool_decide _ || _) eqn:Hf.
  { repeat (apply bind_continues in Hr as (? & ? & _ & Hr)). discriminate. }
  apply orb_false_iff in Hf as [Herr Happ]. apply bool_decide_eq_false in Herr.
  assert (err = None) as -> by (destruct err; [by destruct Herr|done]). destruct approved; [|discriminate].
  apply sign_approval_yields in Hr as (signer & unsigned & Hk & Hs & Ht & Ho).
  exists eng, req, signer, unsigned, rec. split; try done. by rewrite Ha.
Qed.

#[local] Hint Resolve early_refusing modify_refusing log_event_refusing forwardAudit_refusing count_refusing
  approval_denied_refusing requestApproval_refusing : stages.
Lemma try_reserve_refusing f : within refusing (try_reserve serverName f).
Proof. apply within_update. done. Qed.
Lemma recheck_refusing f lin u :
  within refusing (recheck_kinetic cfg env id serverName f u) /\
  within refusing (recheck_lineage cfg env id serverName f lin u) /\
  within refusing (recheck_actor cfg env id serverName f lin u).
Proof.
  unfold recheck_kinetic, recheck_lineage, recheck_actor, denyKineticRevoked, deny_call, respond, release_unit.
  split_and!; stage.
Qed.

Lemma after_approval_recorded {A} f lin artifact rec p p' v :
  (after_approval cfg env id serverName f lin artifact rec : M A) p = (p', inl v) -> v.2 = "forward" -> recorded f p' v.
Proof.
  unfold after_approval. intros Hr Hv. unfold bind at 1, gets in Hr. set (event := attachReceiptEvidence _ _) in Hr.
  assert (core event = (serverName, fc_tool f, Some (fc_redacted f))) as Hc.
  { subst event. by rewrite core_decision, core_allowed. }
  apply forward_bind in Hr as (p1 & own & _ & Hr); [|apply gate_refusing, ownership_gate_gate|done].
  apply forward_bind in Hr as (p2 & [[info|] u] & _ & Hr); [| |apply try_reserve_refusing|done].
  { by apply (deny_never_forwards _ (fc_raw f)) in Hr; [|apply deny_call_refuses]. }
  apply forward_bind in Hr as (p3 & [] & _ & Hr); [|apply (recheck_refusing f lin u)|done].
  apply forward_bind in Hr as (p4 & lin' & _ & Hr); [|apply (recheck_refusing f lin u)|done].
  apply forward_bind in Hr as (p5 & [] & _ & Hr); [|apply (recheck_refusing f lin' u)|done].
  assert (core (ev_Lineage lin' (attachOwnershipReceipt own event)) = (serverName, fc_tool f, Some (fc_redacted f))) as He.
  { change (core (attachOwnershipReceipt own event) = (serverName, fc_tool f, Some (fc_redacted f))). by rewrite core_ownership. }
  injection He as Hs Ht Ha. by apply commit_recorded in Hr.
Qed.
Lemma approval_stage_forward {A} f lin d ctx artifact p p' v :
  (approval_stage cfg env id serverName f lin d ctx artifact : M A) p = (p', inl v) -> v.2 = "forward" ->
  granted f /\ recorded f p' v.
Proof.
  unfold approval_stage. intros Hr Hv. apply forward_bind in Hr as (p1 & [info|] & _ & Hr); [| |apply within_gets|done].
  { by apply (deny_never_forwards _ (fc_raw f)) in Hr; [|apply deny_call_refuses]. }
  apply forward_bind in Hr as (p2 & event & _ & Hr); [|apply within_gets|done].
  apply forward_bind in Hr as (p3 & [] & _ & Hr); [|stage|done].
  apply forward_bind in Hr as (p4 & [] & _ & Hr); [|stage|done].
  apply forward_bind in Hr as (p5 & [rec|reason] & Hreq & Hr); [| |stage|done].
  - split; [by apply requestApproval_granted in Hreq|by apply after_approval_recorded in Hr].
  - by apply (deny_never_forwards _ (fc_raw f)) in Hr; [|apply respond_refuses].
Qed.

(** ** The judgement *)

(** The pause the capability evaluator asks for on this call, [""] if none. *)
Definition cap_pause (p : Proxy) (f : Facts) : string :=
  match cap_state p with
  | None => ""
  | Some s => (capability_account (ss_ID (px_session p)) s (capability_step (ss_ID (px_session p)) serverName
                 (ct_callReq (fc_call f)) (fc_redacted f) (fc_pol f))).2
  end.

(** No stage has refused the call [f] judged from [p]. *)
Record cleared (p : Proxy) (f : Facts) : Prop := {
  cl_decision : d_Action (Engine.Evaluate (px_engine p) (call_clock env) serverName (ct_callReq (fc_call f))) <> ActionDeny;
  cl_ownership : exists rec, checkCapabilityOwnership (cf_ClientID cfg) (cf_Signer cfg) serverName
    (ct_callReq (fc_call f)) (ct_originalRaw (fc_call f)) (fc_pol f) (en_clock env TOwnership) = (rec, None);
  cl_egress x : evaluateEgressControls (e_policy (px_engine p)) (px_session p) serverName (fc_tool f) = Some x ->
    d_Action (eg_decision x) <> ActionDeny;
  cl_chain : d_Action (chain_verdict p serverName (ct_callReq (fc_call f))) <> ActionDeny
}.
(** A stage has asked for approval. *)
Definition approval_due (p : Proxy) (f : Facts) : Prop :=
  d_Action (Engine.Evaluate (px_engine p) (call_clock env) serverName (ct_callReq (fc_call f))) = ActionRequireApproval \/
  is_Some (evaluateEgressControls (e_policy (px_engine p)) (px_session p) serverName (fc_tool f)) \/
  d_Action (chain_verdict p serverName (ct_callReq (fc_call f))) = ActionRequireApproval \/ cap_pause p f <> "".

Lemma static_reads p p0 f : static p = static p0 ->
  evaluateEgressControls (e_policy (px_engine p)) (px_session p) serverName (fc_tool f) =
    evaluateEgressControls (e_policy (px_engine p0)) (px_session p0) serverName (fc_tool f) /\
  chain_verdict p serverName (ct_callReq (fc_call f)) = chain_verdict p0 serverName (ct_callReq (fc_call f)) /\
  cap_pause p f = cap_pause p0 f.
Proof.
  unfold static. intros E. injection E as E1 _ _ _ _ Hid _ _ Hcalls Htaints _ E7. split_and!.
  - unfold evaluateEgressControls, control_decision, control_applies, HasTaint, GetTaint. by rewrite E1, Htaints.
  - unfold chain_verdict, chain_calls, RecentCallChain, last_calls. by rewrite E1, Hcalls.
  - unfold cap_pause. by rewrite E7, Hid.
Qed.

(** The decision of each stage given the one before it. *)
Lemma egress_stage_yields f d p p1 d' e : egress_stage serverName f d p = (p1, inr (d', e)) ->
  (d_Action d = ActionDeny -> d' = d) /\ (d_Action d <> ActionDeny ->
    e = evaluateEgressControls (e_policy (px_engine p)) (px_session p) serverName (fc_tool f) /\
    d' = match e with Some x => eg_decision x | None => d end).
Proof.
  unfold egress_stage. destruct (d_Action d =s? ActionDeny) eqn:E; bools.
  - intros [= _ <- _]. by split.
  - unfold bind, gets. destruct (evaluateEgressControls _ _ _ _) as [x|]; intros [= _ <- <-]; (split; [done|by intros _]).
Qed.
Lemma checkChain_yields f p p1 d calls : checkChain cfg env serverName f p = (p1, inr (d, calls)) ->
  let v := chain_verdict p serverName (ct_callReq (fc_call f)) in
  d_Action d = if (d_Action v =s? ActionDeny) || (d_Action v =s? ActionRequireApproval) then d_Action v else ActionAllow.
Proof.
  unfold checkChain, bind at 1 2, gets. cbn. destruct (_ || _).
  - intros Hr. apply bind_continues in Hr as (p2 & event & _ & Hr). apply bind_continues in Hr as (p3 & [] & _ & Hr).
    by injection Hr as _ <- _.
  - by intros [= _ <- _].
Qed.
Lemma chain_stage_yields f lin d p p1 d' t : chain_stage cfg env id serverName f lin d p = (p1, inr (d', t)) ->
  let v := d_Action (chain_verdict p serverName (ct_callReq (fc_call f))) in
  (d_Action d = ActionDeny -> d' = d) /\ (d_Action d <> ActionDeny -> v <> ActionDeny /\
    d_Action d' = if v =s? ActionRequireApproval then ActionRequireApproval else d_Action d).
Proof.
  unfold chain_stage. destruct (d_Action d =s? ActionDeny) eqn:E; bools.
  - intros [= _ <- _]. by split.
  - intros Hr. apply bind_continues in Hr as (p2 & [dc calls] & Hc & Hr). apply checkChain_yields in Hc. cbn in Hc.
    set (v := d_Action (chain_verdict _ _ _)) in *. cbv zeta. split; [by intros ?|intros _].
    destruct (d_Action dc =s? ActionDeny) eqn:Ed; [discriminate|]. rewrite Hc in *.
    destruct (v =s? ActionDeny) eqn:Ev.
    { exfalso. apply str_eqb_true in Ev. cbn in Ed. by rewrite Ev in Ed. }
    apply str_eqb_false in Ev. cbn in Hc, Ed, Hr. split; [done|].
    destruct (v =s? ActionRequireApproval) eqn:Er; cbn in *.
    + rewrite Er in Hr. injection Hr as _ <- _. rewrite Hc. by apply str_eqb_true.
    + by injection Hr as _ <- _.
Qed.
Lemma capability_stage_yields f d p p1 d' a : capability_stage serverName f d p = (p1, inr (d', a)) ->
  d_Action d' = if (cap_pause p f <>s? "") && (d_Action d <>s? ActionDeny) then ActionRequireApproval else d_Action d.
Proof.
  unfold capability_stage, cap_pause, bind at 1, gets. destruct (cap_state p) as [s|]; [|by intros [= _ <- _]].
  unfold bind at 1. destruct (capability_account _ _ _) as [[s' art] pause]. cbn [snd].
  intros [= _ <- _]. by destruct (_ && _).
Qed.
Lemma ownership_stage_yields f lin d p p1 own : decides d -> d_Action d <> ActionDeny ->
  ownership_stage cfg env id serverName f lin d p = (p1, inr own) ->
  exists rec, checkCapabilityOwnership (cf_ClientID cfg) (cf_Signer cfg) serverName (ct_callReq (fc_call f))
    (ct_originalRaw (fc_call f)) (fc_pol f) (en_clock env TOwnership) = (rec, None).
Proof.
  intros [?|Hd] Hne; [done|]. unfold ownership_stage.
  assert ((d_Action d =s? ActionAllow) || (d_Action d =s? ActionRequireApproval) = true) as ->.
  { destruct Hd as [->| ->]; done. }
  unfold ownership_gate. destruct (checkCapabilityOwnership _ _ _ _ _ _ _) as [rec [deny|]] eqn:Ec; [|eauto].
  intros Hr. unfold denyOwnership in Hr. apply bind_continues in Hr as (p2 & [] & _ & Hr). discriminate.
Qed.

(** The facts of a call that was judged from the state [p]. *)
Definition facts_of (c : Call) (snapshot : runtimeSnapshot) (a : list (string * any)) (r : RedactionResult) (f : Facts) : Prop :=
  fc_call f = c /\ fc_snapshot f = snapshot /\ fc_redacted f = a /\ fc_result f = r.

Lemma dispatch_forward f lin d own egress ctx artifact p p' v : v.2 = "forward" ->
  (let* (d, (ceiling, reserved)) := reserve_stage serverName f d in
   if d_Action d =s? ActionDeny then deny_stage cfg env id serverName f lin d ceiling egress artifact
   else if d_Action d =s? ActionRequireApproval then approval_stage cfg env id serverName f lin d ctx artifact
   else allow_stage cfg env id serverName f lin d own artifact reserved : M verdict) p = (p', inl v) ->
  d_Action d <> ActionDeny /\ (d_Action d = ActionRequireApproval -> granted f) /\ recorded f p' v.
Proof.
  intros Hv Hr. apply forward_bind in Hr as (p1 & [d' [ceiling reserved]] & Hres & Hr); [| |done].
  2:{ unfold reserve_stage. stage. apply try_reserve_refusing. }
  destruct (d_Action d' =s? ActionDeny) eqn:Ed.
  { by apply (deny_never_forwards _ (fc_raw f)) in Hr; [|apply deny_call_refuses]. }
  assert (d' = d) as ->.
  { unfold reserve_stage in Hres. destruct (d_Action d =s? ActionAllow); [|by injection Hres as _ <- _ _].
    apply bind_continues in Hres as (p2 & [[info|] u] & _ & Hres); injection Hres as _ <- _ _; [|done].
    by rewrite str_eqb_refl in Ed. }
  apply str_eqb_false in Ed. split; [done|]. destruct (d_Action d =s? ActionRequireApproval) eqn:Er.
  - apply approval_stage_forward in Hr as [Hg Hrec]; [|done]. done.
  - apply str_eqb_false in Er. split; [done|]. by apply allow_stage_recorded in Hr.
Qed.

Lemma judged_forward p c snapshot a r p' v : judged_call cfg env id serverName c snapshot a r p = (p', inl v) ->
  v.2 = "forward" -> exists f, facts_of c snapshot a r f /\ cleared p f /\ recorded f p' v /\
    (egress_strict (e_policy (px_engine p)) -> approval_due p f -> granted f).
Proof.
  intros Hr Hv. unfold judged_call in Hr.
  apply forward_bind in Hr as (p1 & [d [lin f]] & Hj & Hr); [|apply gate_refusing, judge_gate|done].
  pose proof (judge_gate c snapshot a r p) as S1. rewrite Hj in S1. cbn in S1.
  apply judge_yields in Hj as (Hd & Hf). exists f. split; [exact Hf|]. destruct Hf as (Hfc & _).
  assert (decides d) as Hdec by (rewrite Hd; apply EngineSpec.Evaluate_decides). rewrite <- Hfc in Hd.
  apply forward_bind in Hr as (p2 & own & Ho & Hr); [|apply gate_refusing, ownership_stage_gate|done].
  pose proof (ownership_stage_gate f lin d p1) as S2. rewrite Ho in S2. cbn in S2.
  apply forward_bind in Hr as (p3 & [d1 egress] & He & Hr); [|apply gate_refusing, egress_stage_gate|done].
  pose proof (egress_stage_gate f d p2) as S3. rewrite He in S3. cbn in S3. apply egress_stage_yields in He as [He0 He].
  apply forward_bind in Hr as (p4 & [d2 [t ctx]] & Hc & Hr); [|apply gate_refusing, chain_stage_gate|done].
  pose proof (chain_stage_gate f lin d1 p3) as S4. rewrite Hc in S4. cbn in S4. apply chain_stage_yields in Hc as [Hc0 Hc].
  apply forward_bind in Hr as (p5 & [d3 artifact] & Hcap & Hr); [|apply capability_stage_refusing|done].
  apply capability_stage_yields in Hcap.
  apply dispatch_forward in Hr as (Hd3 & Hgrant & Hrec); [|done].
  assert (static p2 = static p /\ static p3 = static p /\ static p4 = static p) as (T2 & T3 & T4) by (split_and!; congruence).
  assert (d_Action d2 <> ActionDeny) as Hd2.
  { intros E. rewrite E in Hcap. cbn in Hcap. rewrite andb_false_r in Hcap. congruence. }
  assert (d_Action d1 <> ActionDeny) as Hd1 by (intros E; rewrite (Hc0 E) in Hd2; done).
  assert (d_Action d <> ActionDeny) as Hd0 by (intros E; rewrite (He0 E) in Hd1; done).
  destruct (He Hd0) as [-> ->]. destruct (Hc Hd1) as [Hv4 Hd2'].
  destruct (ownership_stage_yields _ _ _ _ _ _ Hdec Hd0 Ho) as [rec Hown].
  destruct (static_reads p2 p f T2) as (R2 & _ & _). destruct (static_reads p3 p f T3) as (_ & R3 & _).
  destruct (static_reads p4 p f T4) as (_ & _ & R4). rewrite R2 in *. rewrite R3 in Hv4, Hd2'. rewrite R4 in Hcap.
  rewrite Hd in Hd0. split.
  { split; [done|by exists rec| |done]. intros x Hx. by rewrite Hx in Hd1. }
  split; [done|]. intros Hstrict Hdue. apply Hgrant. rewrite Hcap.
  destruct (cap_pause p f <>s? "") eqn:Ep; cbn.
  { by rewrite (proj2 (str_neqb_true _ _) Hd2). }
  rewrite Hd2'. match goal with |- (if ?b then _ else _) = _ => destruct b eqn:Ech end; [done|].
  apply str_eqb_false in Ech.
  apply str_neqb_false in Ep. destruct (evaluateEgressControls _ _ _ _) as [x|] eqn:Ex.
  - destruct (evaluateEgressControls_action _ _ _ _ Hstrict Ex) as [E|E]; done.
  - rewrite Hd. destruct Hdue as [?|[[y Hy]|[?|?]]]; congruence.
Qed.

Lemma forward_facts callReq raw originalRaw n p p' v :
  processToolsCall cfg env id serverName callReq raw originalRaw n p = (p', inl v) -> v.2 = "forward" ->
  exists c f, stripped_call callReq raw originalRaw = Some c /\
    admitted p c n (fc_snapshot f) (fc_call f) (fc_redacted f) /\ cleared p f /\ recorded f p' v /\
    (egress_strict (e_policy (px_engine p)) -> approval_due p f -> granted f).
Proof.
  intros Hr Hv. unfold processToolsCall in Hr.
  apply forward_bind in Hr as (p1 & [c' [snapshot [a r]]] & Hg & Hr); [|apply gate_refusing, gates_static|done].
  pose proof (gates_static callReq raw originalRaw n p) as Hs. rewrite Hg in Hs. cbn in Hs.
  apply gates_pass in Hg as (c & Hc & Had).
  apply judged_forward in Hr as (f & (Hf1 & Hf2 & Hf3 & _) & Hcl & Hrec & Happ); [|done].
  exists c, f. rewrite Hf1, Hf2, Hf3. destruct (static_reads p1 p f Hs) as (R1 & R2 & R3).
  pose proof (static_engine _ _ Hs) as Re. split_and!; try done.
  - destruct Hcl as [Hd Ho He Hch]. split; [by rewrite <- Re|done| |by rewrite <- R2].
    intros x Hx. apply He. by rewrite R1.
  - intros Hstrict Hdue. apply Happ; [by rewrite Re|]. unfold approval_due in *. rewrite <- Re in Hdue.
    rewrite R1, R2, R3. by rewrite <- Re.
Qed.

(** C4.  A call is forwarded only past every gate: not revoked, attested where a pin
    is configured, within the runtime limits, with an accepted
    instruction-authority assertion where that is required, on no sensitive
    file, and refused neither by the policy, the capability owner, an egress
    control nor a chain rule.  What is relayed is the message [c1] those gates
    saw, without identity claims and authority metadata; where a redaction
    applies, with the redacted arguments in it if it can be rewritten with them,
    and as it was if it cannot. *)
Theorem forward_passed_gates (callReq : Engine.ToolsCallRequest) (raw originalRaw : string) (n : Z) (p p' : Proxy)
    (raw' : string) :
  processToolsCall cfg env id serverName callReq raw originalRaw n p = (p', inl (raw', "forward")) ->
  exists c c1 f, stripped_call callReq raw originalRaw = Some c /\
    admitted p c n (fc_snapshot f) (fc_call f) (fc_redacted f) /\ cleared p f /\
    authorized p (fc_snapshot f) c c1 /\
    raw' = (if re_Redacted (RedactArgs (px_redactor p) (ct_args c)).2
            then match rewriteArgs (ct_raw c1) (fc_redacted f) with Some rewritten => rewritten | None => ct_raw c1 end
            else ct_raw c1).
Proof.
  intros Hr. apply forward_facts in Hr as (c & f & Hc & Had & Hcl & [Hraw _] & _); [|done].
  destruct (ad_call _ _ _ _ _ _ Had) as (c1 & Hau & Hf). exists c, c1, f. split_and!; try done.
  cbn in Hraw. rewrite Hraw. unfold fc_raw. rewrite Hf, (ad_redacted _ _ _ _ _ _ Had). cbn. unfold redacted_raw.
  by destruct (rewriteArgs _ _).
Qed.

(** C5.  Under a policy whose egress controls deny or ask for approval — the ones
    [Validate] accepts — a call for which the policy, an egress control, a chain
    rule or the capability accounting asked for approval is forwarded only if a
    request made for this tool and these arguments was answered with yes: at
    the prompt, or by an answer file under the id of the request that was found
    before a refusal, put there while the call waited or left there before; and
    the receipt of that answer was signed for this very message.  The id does
    not tell the arguments, so what was left there may be the answer to an
    earlier request of the session. *)
Theorem forward_was_approved (callReq : Engine.ToolsCallRequest) (raw originalRaw : string) (n : Z) (p p' : Proxy)
    (raw' : string) :
  egress_strict (e_policy (px_engine p)) ->
  processToolsCall cfg env id serverName callReq raw originalRaw n p = (p', inl (raw', "forward")) ->
  exists c f, stripped_call callReq raw originalRaw = Some c /\
    admitted p c n (fc_snapshot f) (fc_call f) (fc_redacted f) /\
    (approval_due p f -> exists eng req signer unsigned rec, granted_by f eng req signer unsigned rec /\
      Approval.answered eng (en_operator env req) (en_dir env) req).
Proof.
  intros Hstrict Hr. apply forward_facts in Hr as (c & f & Hc & Had & _ & _ & Happ); [|done].
  exists c, f. split_and!; [done..|]. intros Hdue. destruct (Happ Hstrict Hdue) as (eng & req & signer & unsigned & rec & Hg).
  exists eng, req, signer, unsigned, rec. split; [done|]. by eapply Approval.RequestApproval_true, gt_approved.
Qed.

(** C6.  When a call is forwarded, the synced part of the ledger ends with the
    record that allows it: this server, tool and redacted arguments. *)
Theorem forward_was_recorded (callReq : Engine.ToolsCallRequest) (raw originalRaw : string) (n : Z) (p p' : Proxy)
    (raw' : string) :
  processToolsCall cfg env id serverName callReq raw originalRaw n p = (p', inl (raw', "forward")) ->
  exists c l now event rec line, stripped_call callReq raw originalRaw = Some c /\
    prepareRecord l now event = Some (rec, line) /\ lg_synced (px_audit p') = lg_file l +:+ line /\
    ae_EventType event = EventToolAllowed /\ ae_Decision event = ActionAllow /\ ae_Server event = serverName /\
    ae_Tool event = tc_Name callReq /\ ae_Arguments event = Some (RedactArgs (px_redactor p) (ct_args c)).1.
Proof.
  intros Hr. apply forward_facts in Hr as (c & f & Hc & Had & _ & [_ Hrec] & _); [|done].
  destruct Hrec as (l & now & event & rec & line & Hp & Hs & Ht & Hd & Hsrv & Htool & Ha).
  exists c, l, now, event, rec, line. split_and!; try done.
  - rewrite Htool. unfold fc_tool. by rewrite (admitted_callReq _ _ _ _ _ _ Had), (stripped_call_name _ _ _ _ Hc).
  - destruct Had as [_ _ _ _ Hred _ _]. by rewrite <- Hred.
Qed.
End spec.

(** ** Witnesses *)

Module CallWitness.
#[local] Existing Instances ascii_unicode amd64 decimal_time plain_quote coded_snapshot
  EngineSpec.EngineWitness.anchored LedgerSpec.AuditWitness.no_patterns CapabilitySpec.CapabilityWitness.netip
  CapabilitySpec.CapabilityWitness.fs CapabilitySpec.CapabilityWitness.json LedgerSpec.AuditWitness.no_read
  GateWitness.json AssertionWitness.crypto Receipt.ReceiptWitness.json.
#[local] Instance digest : GoCrypto := {| sha256_hex := fun s => s |}.
#[local] Instance arguments : GoJSON := const_json (Some [("to", AString "x@y")]).
(** No message decodes as an object. *)
#[local] Instance opaque : RawJSON := {|
  raw_object := fun _ => None; marshal_raw := fun _ => None; marshal_args := fun _ => None;
  wire_params := fun _ => None; decode_envelope := fun _ => None; semanticJSONEqual := String.eqb;
  marshal_instruction_object := fun _ => None; marshal_evaluation_root := fun _ => None;
  marshal_assertion := fun _ => None |}.
#[local] Instance duration : Approval.GoDuration := Itoa.

Definition cfg : Config := {|
  cf_ClientID := "c"; cf_ServerName := "mail"; cf_VerifiedActor := None; cf_KillSwitchDir := "/k";
  cf_SessionID := "s"; cf_SessionEpoch := 0; cf_Signer := Some Receipt.ReceiptWitness.key;
  cf_Approval := Some (Approval.NewCLIEngine 30); cf_Resolved := None; cf_LaunchShape := None;
  cf_ClaimedName := ""; cf_ClaimedVersion := "" |}.
(** The disk takes every write; the operator types [line]. *)
Definition env (line : string) : Env := {|
  en_sink := fun l event => {| so_now := 0; so_sync := true;
    so_write := {| wo_n := match prepareRecord l 0 event with Some (_, data) => String.length data | None => 0%nat end;
                   wo_err := false |} |};
  en_clock := fun _ => 0; en_dir := ∅;
  en_operator := fun _ => {| Approval.op_write := None; Approval.op_ticks := [];
                             Approval.op_prompt := Approval.PromptLine line |};
  en_nonce := Some "n"; en_sign_error := ""; en_wait := fun p => p |}.

(** Sending mail needs approval and spends a unit of delegation. *)
Definition send : ToolRule := {| t_Name := "send"; t_Allowed := true; t_Risk := ""; t_ApprovalRequired := true;
  t_Delegates := true; t_Rules := []; t_RequiredScopes := [] |}.
Definition policy (chains : list ChainRule) : Policy :=
  let p := RegistryWitness.policy [RegistryWitness.server "mail" [send; RegistryWitness.tool "draft" []]] in {|
  p_Version := p_Version p; p_Description := p_Description p; p_DefaultAction := p_DefaultAction p;
  p_Settings := p_Settings p; p_Servers := p_Servers p; p_ToolChains := chains; p_Taints := [];
  p_EgressControls := []; p_Identities := []; p_TimeRestrictions := []; p_Redaction := p_Redaction p;
  p_CapabilityOwnership := None; p_Identity := None; p_Trajectories := [] |}.
Definition start (chains : list ChainRule) (calls : list ToolCallRecord) : Proxy := {|
  px_engine := Engine.NewEngine (Some (policy chains)); px_redactor := NewEngineFromPolicy (policy chains);
  px_session := with_calls (NewSession "s" "c" 0) calls; px_audit := LedgerSpec.AuditWitness.empty;
  px_metrics := {| mt_Processed := 0; mt_Denied := 0; mt_Allowed := 0; mt_Approved := 0; mt_BytesRedacted := 0;
    mt_ApprovalRequests := 0; mt_ChainDetections := 0; mt_TrajectoryAnomalies := 0 |};
  px_advisor := None; px_authorize := false; px_keys := ∅; px_capEval := None; px_capStepID := 0;
  px_capLastHash := ""; px_revoked := false; px_responses := []; px_forwarded := [] |}.
Definition call : Engine.ToolsCallRequest := {| tc_Name := "send"; tc_Arguments := "{}" |}.
Definition run (line : string) (p : Proxy) : Proxy * (verdict + verdict) :=
  processToolsCall cfg (env line) ANil "mail" call "raw" "raw" 2 p.

(** The operator's answer decides. *)
Example answers :
  (fun line => returned (run line (start [] []))) <$> ["Yes "; "no"; ""] =
  [Some ("raw", "forward"); Some ("raw", "denied"); Some ("raw", "denied")].
Proof. vm_compute. reflexivity. Qed.

(** A chain rule whose action is neither of the documented two loads, and the
    sequence it describes is relayed: the code asks only for [deny] and
    [require_approval]. *)
Definition exfil (action : string) : ChainRule := {|
  cr_Name := "exfil"; cr_Description := ""; cr_Sources := [{| cm_Server := "fs"; cm_ToolPattern := "read" |}];
  cr_Sinks := [{| cm_Server := "*"; cm_ToolPattern := "draft" |}]; cr_Action := action; cr_WithinCalls := 3 |}.
Definition after_read : list ToolCallRecord := [{| tr_Timestamp := 0; tr_ServerName := "fs"; tr_ToolName := "read";
  tr_Arguments := None; tr_Result := "" |}].
Definition draft (action : string) : option verdict :=
  returned (processToolsCall cfg (env "no") ANil "mail" {| tc_Name := "draft"; tc_Arguments := "{}" |} "raw" "raw" 2
    (start [exfil action] after_read)).
Example chain_action_ignored :
  PolicyValidate.Validate (policy [exfil "block"]) = None /\
  draft <$> [ActionDeny; ActionRequireApproval; "block"] =
    [Some ("raw", "denied"); Some ("raw", "denied"); Some ("raw", "forward")].
Proof. vm_compute. by split. Qed.

(** An answer left in the directory grants the next request of the same id,
    whatever its arguments: the id is session, tool and the number of calls so
    far, and an unanswered or denied call does not count. *)
Definition answer (dir : gset string) (text : string) : bool :=
  (Approval.RequestApprovalWithTimeout {| Approval.ap_dir := "/a"; Approval.ap_timeout := 0; Approval.ap_cli := false |}
    {| Approval.op_write := None; Approval.op_ticks := [∅]; Approval.op_prompt := Approval.PromptTimeout |} dir
    {| Approval.ar_ReqID := "s-send-0"; Approval.ar_Tool := "send"; Approval.ar_Server := "mail";
       Approval.ar_Arguments := [("to", AString text)]; Approval.ar_Reason := ""; Approval.ar_RiskLevel := "";
       Approval.ar_SessionID := "s"; Approval.ar_AgentID := "c" |} 0).2.1.
Example stale_answer : answer ∅ "eve" = false /\ answer {["req-s-send-0.ok"]} "eve" = true.
Proof. vm_compute. by split. Qed.
End CallWitness.

Section call_witness.
Import CallWitness.
#[local] Existing Instances ascii_unicode amd64 decimal_time plain_quote coded_snapshot
  EngineSpec.EngineWitness.anchored LedgerSpec.AuditWitness.no_patterns CapabilitySpec.CapabilityWitness.netip
  CapabilitySpec.CapabilityWitness.fs CapabilitySpec.CapabilityWitness.json LedgerSpec.AuditWitness.no_read
  GateWitness.json AssertionWitness.crypto Receipt.ReceiptWitness.json digest arguments opaque duration.

Lemma call_accounted_witness : exists p' v, run "yes" (start [] []) = (p', inl v) /\
  ((v.2 = "denied" /\ denied ANil (counted (account (start [] []))) (account p')) \/
   (v.2 = "forward" /\ forwarded true (counted (account (start [] []))) (account p'))).
Proof.
  refine (call_accounted cfg (env "yes") ANil "mail" call "raw" "raw" 2 (start [] []) _ _ _);
    [by intros p|by intros c []|cbn; lia].
Defined.

Lemma forward_passed_gates_witness : exists c c1 f, stripped_call call "raw" "raw" = Some c /\
  admitted cfg (env "yes") "mail" (start [] []) c 2 (fc_snapshot f) (fc_call f) (fc_redacted f) /\
  cleared cfg (env "yes") "mail" (start [] []) f /\ authorized (env "yes") "mail" (start [] []) (fc_snapshot f) c c1 /\
  "raw" = (if re_Redacted (RedactArgs (px_redactor (start [] [])) (ct_args c)).2
           then match rewriteArgs (ct_raw c1) (fc_redacted f) with Some rewritten => rewritten | None => ct_raw c1 end
           else ct_raw c1).
Proof.
  eapply (forward_passed_gates cfg (env "yes") ANil "mail" call "raw" "raw" 2 (start [] [])).
  vm_compute. reflexivity.
Defined.
Lemma forward_was_approved_witness : exists c f, stripped_call call "raw" "raw" = Some c /\
  admitted cfg (env "yes") "mail" (start [] []) c 2 (fc_snapshot f) (fc_call f) (fc_redacted f) /\
  (approval_due (env "yes") "mail" (start [] []) f -> exists eng req signer unsigned rec,
    granted_by cfg (env "yes") "mail" f eng req signer unsigned rec /\
    Approval.answered eng (en_operator (env "yes") req) (en_dir (env "yes")) req).
Proof.
  eapply (forward_was_approved cfg (env "yes") ANil "mail" call "raw" "raw" 2 (start [] [])); [by intros c []|].
  vm_compute. reflexivity.
Defined.

Lemma forward_was_recorded_witness : exists c p' l now event rec line, stripped_call call "raw" "raw" = Some c /\
  prepareRecord l now event = Some (rec, line) /\ lg_synced (px_audit p') = lg_file l +:+ line /\
  ae_EventType event = EventToolAllowed /\ ae_Decision event = ActionAllow /\ ae_Server event = "mail" /\
  ae_Tool event = "send" /\ ae_Arguments event = Some (RedactArgs (px_redactor (start [] [])) (ct_args c)).1.
Proof.
  destruct (forward_was_recorded cfg (env "yes") ANil "mail" call "raw" "raw" 2 (start [] [])
    (run "yes" (start [] [])).1 "raw") as (c & l & now & event & rec & line & Hw); [vm_compute; reflexivity|].
  by exists c, (run "yes" (start [] [])).1, l, now, event, rec, line.
Defined.
End call_witness.
