(* ===== verification/Durable.v ===== *)
(** The durable approval engine: [internal/approval/durable.go].

    The state directory is a map from file names to contents; what a write or
    a removal meets is an argument.  A handler takes its locks one after the
    other and holds none while the operator is asked, so what other handlers
    do in between is an argument too.  The texts of the errors of the standard
    library, which the code appends to its own, are left out. *)
From stdpp Require Import base strings gmap list sorting.
From Stdlib Require Import ZArith Lia Ascii.
From S2P Require Import Prelude GoStrings GoLib GoPath OwnershipGate InstructionAuth Receipt.
From S2P Require Approval.
#[local] Open Scope Z_scope.

Record durableRequest := {
  dq_ID : string;
  dq_Tool : string;
  dq_Server : string;
  dq_Args : list (string * any);
  dq_Reason : string;
  dq_RiskLevel : string;
  dq_SessionID : string;
  dq_AgentID : string;
  dq_CreatedAt : Z;
  dq_ExpiresAt : Z;
  dq_RequestHash : string
}.

Record DurableEngine := {
  du_engine : option Approval.Engine;
  du_stateDir : string;
  du_pubKey : string;
  du_pending : gmap string durableRequest;
  du_receipts : gmap string DecisionReceipt
}.
Definition with_pending (de : DurableEngine) (m : gmap string durableRequest) : DurableEngine := {|
  du_engine := du_engine de; du_stateDir := du_stateDir de; du_pubKey := du_pubKey de; du_pending := m;
  du_receipts := du_receipts de |}.
Definition with_receipts (de : DurableEngine) (m : gmap string DecisionReceipt) : DurableEngine := {|
  du_engine := du_engine de; du_stateDir := du_stateDir de; du_pubKey := du_pubKey de; du_pending := du_pending de;
  du_receipts := m |}.

Record DurableDecision := {
  dd_Approved : bool;
  dd_RequiresApproval : bool;
  dd_Reason : string;
  dd_ExecutionID : string;
  dd_Request : option durableRequest;
  dd_Receipt : option DecisionReceipt
}.
Definition durable_decision (approved : bool) (reason id : string) (rec : option DecisionReceipt) : DurableDecision := {|
  dd_Approved := approved; dd_RequiresApproval := false; dd_Reason := reason; dd_ExecutionID := id;
  dd_Request := None; dd_Receipt := rec |}.

(** [json.MarshalIndent] and [json.Unmarshal] of what is kept on disk, and
    [%v] of the arguments of a request. *)
Class DurableJSON := {
  encode_request : durableRequest -> option string;
  decode_request : string -> option durableRequest;
  encode_receipt : DecisionReceipt -> option string;
  decode_receipt : string -> option DecisionReceipt;
  fmt_arguments : list (string * any) -> string
}.

(** ** Files *)

Abbreviation Dir := (gmap string string).

(** A failed [os.WriteFile] leaves the file as it was, or truncated. *)
Inductive WriteFile := WriteOk | WriteErr (torn : option string).
(** The directory after the write, and whether it failed. *)
Definition write_file (name data : string) (o : WriteFile) (d : Dir) : Dir * bool :=
  match o with
  | WriteOk => (<[name := data]> d, false)
  | WriteErr None => (d, true)
  | WriteErr (Some torn) => (<[name := torn]> d, true)
  end.
(** [os.Remove], a missing file not being an error; [ok] tells whether it
    works on a file that is there. *)
Definition remove_file (name : string) (ok : bool) (d : Dir) : Dir * bool :=
  if ok then (delete name d, false) else (d, bool_decide (is_Some (d !! name))).

(** The engine with the directory. *)
Record World := { wd_engine : DurableEngine; wd_dir : Dir }.

(** ** Names *)

Definition segment (s : string) : string := Itoa (Z.of_nat (String.length s)) +:+ ":" +:+ s.
Definition hashRequest (server tool sessionID agentID : string) : string :=
  segment server +:+ ":" +:+ segment tool +:+ ":" +:+ segment sessionID +:+ ":" +:+ segment agentID.
Definition receipt_hash (rec : DecisionReceipt) : string :=
  hashRequest (dr_Server rec) (dr_Tool rec) (dr_SessionID rec) (dr_AgentID rec).

Definition receiptMatchesPending (rec : DecisionReceipt) (pending : durableRequest) : bool :=
  (dr_ExecutionID rec =s? dq_ID pending) && (dr_Server rec =s? dq_Server pending) &&
  (dr_Tool rec =s? dq_Tool pending) && (dr_SessionID rec =s? dq_SessionID pending) &&
  (dr_AgentID rec =s? dq_AgentID pending).

Definition file_name (kind id : string) : string := kind +:+ "-" +:+ id +:+ ".json".
(** [stateFilePath]: the path it returns is that of this name in the state
    directory. *)
Definition stateFilePath `{GoFmt} (stateDir kind id : string) : result string :=
  match Approval.validateApprovalFileID id with
  | Some err => Err err
  | None =>
      let name := file_name kind id in
      if Base name <>s? name then Err ("unsafe durable state filename: " +:+ fmt_q name)
      else
        let cleanDir := Clean stateDir in
        let cleanPath := Clean (stateDir +:+ "/" +:+ name) in
        if (cleanPath <>s? cleanDir) && negb (HasPrefix cleanPath (cleanDir +:+ "/"))
        then Err "durable state path escapes state directory"
        else Ok name
  end.

Section durable.
Context `{GoFmt, GoCrypto, DecisionJSON, AssertionCrypto, DurableJSON}.

(** ** Persistence *)

Definition persist (stateDir kind id : string) (data : option string) (o : WriteFile) (d : Dir) : Dir * error :=
  if stateDir =s? "" then (d, None)
  else match data with
  | None => (d, Some ("marshal " +:+ kind))
  | Some data =>
      match stateFilePath stateDir kind id with
      | Err err => (d, Some err)
      | Ok name => let '(d, failed) := write_file name data o d in (d, fail_if failed ("write " +:+ kind))
      end
  end.
Definition persistRequest (de : DurableEngine) (dr : durableRequest) : WriteFile -> Dir -> Dir * error :=
  persist (du_stateDir de) "pending" (dq_ID dr) (encode_request dr).
Definition persistReceipt (de : DurableEngine) (rec : DecisionReceipt) : WriteFile -> Dir -> Dir * error :=
  persist (du_stateDir de) "receipt" (dr_ExecutionID rec) (encode_receipt rec).

Definition removePending (stateDir executionID : string) (ok : bool) (d : Dir) : Dir * error :=
  if stateDir =s? "" then (d, None)
  else match stateFilePath stateDir "pending" executionID with
  | Err err => (d, Some err)
  | Ok name => let '(d, failed) := remove_file name ok d in (d, fail_if failed "remove")
  end.

(** ** Requests *)

(** The readings of the clock by [RequestApproval]. *)
Inductive dtick := DExpired | DNano | DCreated | DExpires | DReceipt.

(** The cached decision; an expired one is forgotten. *)
Definition cached (de : DurableEngine) (rHash : string) (now : Z) : DurableEngine * option DurableDecision :=
  match du_receipts de !! rHash with
  | None => (de, None)
  | Some rec =>
      if IsExpired rec now then (with_receipts de (delete rHash (du_receipts de)), None)
      else if dr_Decision rec =s? "approve" then (de, Some (durable_decision true "" (dr_ExecutionID rec) (Some rec)))
      else (de, Some (durable_decision false ("receipt denied: " +:+ dr_ApprovalReason rec) (dr_ExecutionID rec) None))
  end.

Definition request_hash (req : Approval.Request) : string :=
  hashRequest (Approval.ar_Server req) (Approval.ar_Tool req) (Approval.ar_SessionID req) (Approval.ar_AgentID req).
Definition exec_id (req : Approval.Request) (nano : Z) : string := "exec-" +:+ Itoa nano +:+ "-" +:+ Approval.ar_ReqID req.

(** The receipt of a request the operator has just granted; it is not signed. *)
Definition granted_receipt (req : Approval.Request) (clock : dtick -> Z) (nonce : option string) : result DecisionReceipt :=
  NewReceipt (exec_id req (clock DNano)) (Approval.ar_SessionID req) (Approval.ar_AgentID req) (Approval.ar_Server req)
    (Approval.ar_Tool req) (Approval.ar_Reason req) (fmt_arguments (Approval.ar_Arguments req)) "1.0" "embedded-policy"
    "live-session" (Approval.ar_Reason req) (Approval.ar_RiskLevel req) "cli-approver" "approve" (300 * 1000000000)
    nonce (clock DReceipt).
Definition keep_receipt (rec : DecisionReceipt) (w : World) : World := {|
  wd_engine := with_receipts (wd_engine w) (<[receipt_hash rec := rec]> (du_receipts (wd_engine w))); wd_dir := wd_dir w |}.

Definition new_pending (req : Approval.Request) (clock : dtick -> Z) : durableRequest := {|
  dq_ID := exec_id req (clock DNano); dq_Tool := Approval.ar_Tool req; dq_Server := Approval.ar_Server req;
  dq_Args := Approval.ar_Arguments req; dq_Reason := Approval.ar_Reason req; dq_RiskLevel := Approval.ar_RiskLevel req;
  dq_SessionID := Approval.ar_SessionID req; dq_AgentID := Approval.ar_AgentID req; dq_CreatedAt := clock DCreated;
  dq_ExpiresAt := clock DExpires + 3600 * 1000000000; dq_RequestHash := request_hash req |}.
Definition pend (dr : durableRequest) (o : WriteFile) (w : World) : World * (option DurableDecision * error) :=
  let de := wd_engine w in
  match persistRequest de dr o (wd_dir w) with
  | (d, Some err) => ({| wd_engine := de; wd_dir := d |}, (None, Some ("persist pending approval request: " +:+ err)))
  | (d, None) =>
      ({| wd_engine := with_pending de (<[dq_ID dr := dr]> (du_pending de)); wd_dir := d |},
       (Some {| dd_Approved := false; dd_RequiresApproval := true; dd_Reason := ""; dd_ExecutionID := dq_ID dr;
                dd_Request := Some dr; dd_Receipt := None |}, None))
  end.

Definition unnamed (req : Approval.Request) : bool :=
  (Approval.ar_Tool req =s? "") || (Approval.ar_Server req =s? "") || (Approval.ar_SessionID req =s? "") ||
  (Approval.ar_AgentID req =s? "").

(** A request that is not cached: the operator is asked, or it is kept for
    later.  [answer] is what the local engine says, [meanwhile] what other
    handlers do while it is asked. *)
Definition new_request (w : World) (req : Approval.Request) (clock : dtick -> Z) (answer : Approval.Engine -> bool * error)
    (meanwhile : World -> World) (nonce : option string) (o : WriteFile) : World * (option DurableDecision * error) :=
  match du_engine (wd_engine w) with
  | None => pend (new_pending req clock) o w
  | Some eng =>
      if negb (Approval.IsEnabled eng) then pend (new_pending req clock) o w
      else
        let '(approved, err) := answer eng in
        let w := meanwhile w in
        match err with
        | Some err => (w, (Some (durable_decision false ("approval error: " +:+ err) "" None), Some err))
        | None =>
            if negb approved then (w, (Some (durable_decision false "approval denied by operator" "" None), None))
            else match granted_receipt req clock nonce with
            | Err _ => (w, (Some (durable_decision true "" "" None), None))
            | Ok rec => (keep_receipt rec w, (Some (durable_decision true "" (dr_ExecutionID rec) (Some rec)), None))
            end
        end
  end.

Definition RequestApproval (w : World) (req : Approval.Request) (clock : dtick -> Z) (answer : Approval.Engine -> bool * error)
    (meanwhile : World -> World) (nonce : option string) (o : WriteFile) : World * (option DurableDecision * error) :=
  if unnamed req then (w, (None, Some "approval request requires tool, server, session ID, and agent ID"))
  else match Approval.validateApprovalFileID (Approval.ar_ReqID req) with
  | Some err => (w, (None, Some err))
  | None =>
      let '(de, hit) := cached (wd_engine w) (request_hash req) (clock DExpired) in
      let w := {| wd_engine := de; wd_dir := wd_dir w |} in
      match hit with
      | Some d => (w, (Some d, None))
      | None => new_request w req clock answer meanwhile nonce o
      end
  end.

(** ** Receipts *)

Definition valid_decision (rec : DecisionReceipt) : bool := (dr_Decision rec =s? "approve") || (dr_Decision rec =s? "deny").
Definition answer_of (rec : DecisionReceipt) : DurableDecision :=
  let approved := dr_Decision rec =s? "approve" in
  durable_decision approved (if approved then "" else "receipt denied: " +:+ dr_ApprovalReason rec) (dr_ExecutionID rec) (Some rec).

Definition SubmitReceipt (w : World) (signedReceipt : string) (now : Z) (o : WriteFile) (removes : bool)
    : World * (option DurableDecision * error) :=
  let de := wd_engine w in
  let fail err := (w, (None, Some err)) in
  match decode_receipt signedReceipt with
  | None => fail "invalid receipt"
  | Some rec =>
      if IsExpired rec now then (w, (Some (durable_decision false "receipt expired" (dr_ExecutionID rec) None), Some "receipt expired"))
      else if negb (String.length (du_pubKey de) =? 32)%nat then fail "durable receipt verification key is not configured"
      else match Verify (du_pubKey de) rec with
      | Some err => fail ("verify receipt: " +:+ err)
      | None =>
          match du_pending de !! dr_ExecutionID rec with
          | None =>
              match du_receipts de !! receipt_hash rec with
              | Some existing => (w, (Some (durable_decision (dr_Decision existing =s? "approve") "" (dr_ExecutionID existing)
                                              (Some existing)), None))
              | None => fail ("unknown execution ID: " +:+ dr_ExecutionID rec)
              end
          | Some pending =>
              if negb (receiptMatchesPending rec pending) then fail ("receipt does not match pending request: " +:+ dr_ExecutionID rec)
              else if negb (valid_decision rec) then fail ("invalid receipt decision: " +:+ fmt_q (dr_Decision rec))
              else match persistReceipt de rec o (wd_dir w) with
              | (d, Some err) => ({| wd_engine := de; wd_dir := d |}, (None, Some ("persist approval receipt: " +:+ err)))
              | (d, None) =>
                  match removePending (du_stateDir de) (dr_ExecutionID rec) removes d with
                  | (d, Some err) =>
                      ({| wd_engine := de; wd_dir := d |}, (None, Some ("remove completed pending approval request: " +:+ err)))
                  | (d, None) =>
                      (keep_receipt rec {| wd_engine := with_pending de (delete (dr_ExecutionID rec) (du_pending de)); wd_dir := d |},
                       (Some (answer_of rec), None))
                  end
              end
          end
      end
  end.

(** ** Reading and forgetting requests *)

Definition GetPendingRequest (w : World) (executionID : string) (now : Z) (removes : bool) : World * result durableRequest :=
  let de := wd_engine w in
  match du_pending de !! executionID with
  | None => (w, Err ("pending request not found: " +:+ executionID))
  | Some dr =>
      if dq_ExpiresAt dr <? now then
        let '(d, err) := removePending (du_stateDir de) executionID removes (wd_dir w) in
        ({| wd_engine := with_pending de (delete executionID (du_pending de)); wd_dir := d |},
         match err with
         | Some err => Err ("remove expired pending request: " +:+ err)
         | None => Err ("request expired: " +:+ executionID)
         end)
      else (w, Ok dr)
  end.

Definition PendingRequests (de : DurableEngine) : list durableRequest := snd <$> map_to_list (du_pending de).

(** [os.Remove] of the files of [ids], where it works, its errors ignored. *)
Definition forget (stateDir kind : string) (removes : string -> bool) (ids : list string) (d : Dir) : Dir :=
  if stateDir =s? "" then d
  else foldr (fun id d => match stateFilePath stateDir kind id with
                          | Ok name => (remove_file name (removes name) d).1
                          | Err _ => d
                          end) d ids.
Definition Cleanup (w : World) (now : Z) (removes : string -> bool) : World :=
  let de := wd_engine w in
  let stale_requests := filter (fun kv => Is_true (dq_ExpiresAt kv.2 <? now)) (du_pending de) in
  let stale_receipts := filter (fun kv => Is_true (IsExpired kv.2 now)) (du_receipts de) in
  {| wd_engine := with_receipts (with_pending de (du_pending de ∖ stale_requests)) (du_receipts de ∖ stale_receipts);
     wd_dir := forget (du_stateDir de) "receipt" removes ((fun kv => dr_ExecutionID kv.2) <$> map_to_list stale_receipts)
                 (forget (du_stateDir de) "pending" removes (fst <$> map_to_list stale_requests) (wd_dir w)) |}.

(** ** Loading *)

(** [time.Time{}] *)
Definition zeroTime : Z := - 62135596800 * 1000000000.

(** The names of the directory, in the order [os.ReadDir] gives them. *)
Definition dir_names (d : Dir) : list string := merge_sort String.le (fst <$> map_to_list d).
Definition kind_names (kind : string) (names : list string) : list string :=
  List.filter (fun name => HasPrefix name (kind +:+ "-")) names.
Definition name_error (name : string) : error :=
  fail_if ((HasPrefix name "pending-" || HasPrefix name "receipt-") && (Ext name <>s? ".json"))
    ("invalid durable state filename: " +:+ fmt_q name).

(** What a receipt file holds: [Ok None] is an expired receipt, passed over. *)
Definition read_receipt (pubKey name data : string) (now : Z) : result (option DecisionReceipt) :=
  match decode_receipt data with
  | None => Err ("decode receipt " +:+ fmt_q name)
  | Some rec =>
      if IsExpired rec now then Ok None
      else if negb (String.length pubKey =? 32)%nat then Err "durable receipt verification key is not configured"
      else match Verify pubKey rec with
      | Some err => Err ("verify receipt " +:+ fmt_q name +:+ ": " +:+ err)
      | None =>
          if (dr_ExecutionID rec =s? "") || (dr_Server rec =s? "") || (dr_Tool rec =s? "") || (dr_SessionID rec =s? "") ||
             (dr_AgentID rec =s? "") then Err ("invalid receipt " +:+ fmt_q name)
          else match Approval.validateApprovalFileID (dr_ExecutionID rec) with
          | Some err => Err ("invalid receipt " +:+ fmt_q name +:+ ": " +:+ err)
          | None =>
              if negb (valid_decision rec) then Err ("invalid receipt decision in " +:+ fmt_q name)
              else if name <>s? file_name "receipt" (dr_ExecutionID rec) then
                Err ("receipt filename does not match execution ID: " +:+ fmt_q name)
              else Ok (Some rec)
          end
      end
  end.
(** The receipts by request and by execution. *)
Abbreviation Loaded := (gmap string DecisionReceipt * gmap string DecisionReceipt)%type.
Fixpoint load_receipts (pubKey : string) (now : Z) (d : Dir) (names : list string) (acc : Loaded) : result Loaded :=
  match names with
  | [] => Ok acc
  | name :: names =>
      match d !! name with
      | None => Err ("read " +:+ fmt_q name)
      | Some data =>
          let? rec := read_receipt pubKey name data now in
          load_receipts pubKey now d names (match rec with
            | None => acc
            | Some rec => (<[receipt_hash rec := rec]> acc.1, <[dr_ExecutionID rec := rec]> acc.2)
            end)
      end
  end.

Definition read_request (name data : string) : result durableRequest :=
  match decode_request data with
  | None => Err ("decode pending request " +:+ fmt_q name)
  | Some dr =>
      if (dq_ID dr =s? "") || (dq_Tool dr =s? "") || (dq_Server dr =s? "") || (dq_SessionID dr =s? "") ||
         (dq_AgentID dr =s? "") || (dq_ExpiresAt dr =? zeroTime) then Err ("invalid pending request " +:+ fmt_q name)
      else match Approval.validateApprovalFileID (dq_ID dr) with
      | Some err => Err ("invalid pending request " +:+ fmt_q name +:+ ": " +:+ err)
      | None =>
          if name <>s? file_name "pending" (dq_ID dr) then
            Err ("pending request filename does not match ID: " +:+ fmt_q name)
          else Ok dr
      end
  end.
(** The files of completed requests are removed on the way. *)
Fixpoint load_requests (stateDir : string) (now : Z) (removes : string -> bool) (completed : gmap string DecisionReceipt)
    (names : list string) (d : Dir) (acc : gmap string durableRequest) : result (gmap string durableRequest * Dir) :=
  match names with
  | [] => Ok (acc, d)
  | name :: names =>
      match d !! name with
      | None => Err ("read " +:+ fmt_q name)
      | Some data =>
          let? dr := read_request name data in
          match completed !! dq_ID dr with
          | Some rec =>
              if negb (receiptMatchesPending rec dr) then
                Err ("receipt for " +:+ fmt_q (dq_ID dr) +:+ " does not match pending request")
              else match removePending stateDir (dq_ID dr) (removes name) d with
              | (_, Some err) => Err ("remove completed pending request " +:+ fmt_q name +:+ ": " +:+ err)
              | (d, None) => load_requests stateDir now removes completed names d acc
              end
          | None =>
              load_requests stateDir now removes completed names d
                (if now <? dq_ExpiresAt dr then <[dq_ID dr := dr]> acc else acc)
          end
      end
  end.

Definition loadState (de : DurableEngine) (now : Z) (removes : string -> bool) (d : Dir) : result World :=
  if du_stateDir de =s? "" then Ok {| wd_engine := de; wd_dir := d |}
  else
    let names := dir_names d in
    match each_err name_error names with
    | Some err => Err err
    | None =>
        let? loaded := load_receipts (du_pubKey de) now d (kind_names "receipt" names) (du_receipts de, ∅) in
        let? pending := load_requests (du_stateDir de) now removes loaded.2 (kind_names "pending" names) d (du_pending de) in
        Ok {| wd_engine := with_receipts (with_pending de pending.1) loaded.1; wd_dir := pending.2 |}
    end.

(** [stateDir] is already absolute; [mkdir] is the error of [os.MkdirAll]. *)
Definition NewDurableEngine (engine : option Approval.Engine) (stateDir pubKey : string) (mkdir : bool) (now : Z)
    (removes : string -> bool) (d : Dir) : result World :=
  if (stateDir <>s? "") && mkdir then Err "create state dir"
  else
    let de := {| du_engine := engine; du_stateDir := stateDir; du_pubKey := pubKey; du_pending := ∅; du_receipts := ∅ |} in
    if stateDir =s? "" then Ok {| wd_engine := de; wd_dir := d |}
    else match loadState de now removes d with
    | Err err => Err ("load durable approval state: " +:+ err)
    | Ok w => Ok w
    end.
End durable.
