(* ===== verification/DurableSpec.v ===== *)
(** What the durable approval engine guarantees: an approval rests on a
    verified receipt or on the operator, and a restart keeps what was
    decided and what was asked. *)
From stdpp Require Import base strings gmap list sorting pretty.
From Stdlib Require Import ZArith Lia Ascii.
From S2P Require Import Prelude GoStrings GoLib GoPath OwnershipGate InstructionAuth Receipt Durable.
From S2P Require Approval Ownership Hostname LedgerSpec.
#[local] Open Scope Z_scope.

(** ** The key of a request *)

Definition no_colon (s : string) : Prop := any_byte (Ascii.eqb ":") s = false.
Lemma pretty_N_go_no_colon x s : no_colon s -> no_colon (pretty_N_go x s).
Proof.
  revert s. induction (N.lt_wf_0 x) as [x _ IH]. intros s Hs. destruct (decide (0 < x)%N) as [Hx|Hx].
  - rewrite pretty_N_go_step by done. apply IH; [apply N.div_lt; lia|]. unfold no_colon in *. cbn [any_byte].
    rewrite Hs, orb_false_r. unfold pretty_N_char. by repeat case_match.
  - assert (x = 0%N) as -> by lia. by rewrite pretty_N_go_0.
Qed.
Lemma Itoa_no_colon n : no_colon (Itoa (Z.of_nat n)).
Proof.
  unfold Itoa. destruct n as [|n]; [done|]. change (no_colon (pretty_N (N.pos (Pos.of_succ_nat n)))).
  unfold pretty_N. case_decide; [done|]. by apply pretty_N_go_no_colon.
Qed.

Lemma segment_inj s s' t t' : segment s +:+ t = segment s' +:+ t' -> s = s' /\ t = t'.
Proof.
  unfold segment. rewrite !append_assoc. intros E. apply (f_equal (cut ":")) in E.
  rewrite !Hostname.cut_app_fresh in E by apply Itoa_no_colon. injection E as El Et.
  apply (inj pretty) in El. apply Ownership.app_inj_length; [lia|done].
Qed.

Lemma hashRequest_inj server tool session agent server' tool' session' agent' :
  hashRequest server tool session agent = hashRequest server' tool' session' agent' ->
  server = server' /\ tool = tool' /\ session = session' /\ agent = agent'.
Proof.
  unfold hashRequest. intros E. apply segment_inj in E as [-> E]. injection E as E.
  apply segment_inj in E as [-> E]. injection E as E. apply segment_inj in E as [-> E]. injection E as E.
  apply (f_equal (fun s => s +:+ "")) in E. by apply segment_inj in E as [-> _].
Qed.

(** ** Maps filled in a loop *)

Section filled.
Context {A : Type} (key : A -> string).
Definition filled (l : list A) (m : gmap string A) : gmap string A := fold_left (fun m x => <[key x := x]> m) l m.

Lemma filled_Some l m k x : filled l m !! k = Some x -> (In x l /\ key x = k) \/ m !! k = Some x.
Proof.
  revert m. induction l as [|y l IH]; intros m Hk; [by right|]. apply IH in Hk as [[Hin Hk]|Hk]; [left; by split; [right|]|].
  apply lookup_insert_Some in Hk as [[<- <-]|[_ Hk]]; [left; by split; [left|]|by right].
Qed.
Lemma filled_keeps l m k : is_Some (m !! k) -> is_Some (filled l m !! k).
Proof.
  revert m. induction l as [|y l IH]; intros m Hk; [done|]. apply IH.
  destruct (decide (key y = k)) as [<-|Hne]; [by rewrite lookup_insert_eq; eexists|by rewrite lookup_insert_ne].
Qed.
Lemma filled_all l m x : In x l -> is_Some (filled l m !! key x).
Proof.
  revert m. induction l as [|y l IH]; intros m Hin; [done|]. destruct Hin as [->|Hin]; [|by apply IH].
  apply (filled_keeps l (<[key x := x]> m)). rewrite lookup_insert_eq. by eexists.
Qed.
Lemma filled_unique l m x : In x l -> (forall y, In y l -> key y = key x -> y = x) -> filled l m !! key x = Some x.
Proof.
  intros Hin Hu. destruct (filled_all l m x Hin) as [y Hy].
  revert m Hy. induction l as [|z l IH] using rev_ind; [done|]. intros m Hy.
  unfold filled in *. rewrite fold_left_app in *. cbn in *.
  destruct (decide (key z = key x)) as [E|Hne].
  - assert (z = x) as -> by (apply Hu; [apply in_app_iff; right; by left|done]). by rewrite lookup_insert_eq.
  - rewrite lookup_insert_ne in * by done. eapply IH; [|by intros w Hw; apply Hu, in_app_iff; left|exact Hy].
    apply in_app_iff in Hin as [?|[->|[]]]; done.
Qed.
End filled.

Section durable.
Context `{GoFmt, GoCrypto, DecisionJSON, AssertionCrypto, DurableJSON}.

(** ** What the handlers do to the engine

    A request looks the cache up, then keeps a granted receipt or a pending
    request; the other handlers run in between. *)
Inductive op :=
| OLookup (req : Approval.Request) (now : Z)
| OGrant (req : Approval.Request) (clock : dtick -> Z) (nonce : option string)
| OPend (req : Approval.Request) (clock : dtick -> Z) (o : WriteFile)
| OSubmit (text : string) (now : Z) (o : WriteFile) (removes : bool)
| OGet (id : string) (now : Z) (removes : bool)
| OCleanup (now : Z) (removes : string -> bool).

Definition run (w : World) (o : op) : World :=
  match o with
  | OLookup req now => {| wd_engine := (cached (wd_engine w) (request_hash req) now).1; wd_dir := wd_dir w |}
  | OGrant req clock nonce => match granted_receipt req clock nonce with Ok rec => keep_receipt rec w | Err _ => w end
  | OPend req clock o => (pend (new_pending req clock) o w).1
  | OSubmit text now o removes => (SubmitReceipt w text now o removes).1
  | OGet id now removes => (GetPendingRequest w id now removes).1
  | OCleanup now removes => Cleanup w now removes
  end.
Definition runs (w : World) (ops : list op) : World := fold_left run ops w.
(** The requests granted by the operator of this process. *)
Definition granted_by (ops : list op) : list Approval.Request :=
  flat_map (fun o => match o with OGrant req _ _ => [req] | _ => [] end) ops.

(** ** Every kept receipt is vouched for *)

Definition vouched (pubKey : string) (granted : list Approval.Request) (rec : DecisionReceipt) : Prop :=
  (Verify pubKey rec = None /\ valid_decision rec = true) \/
  (dr_Decision rec = "approve" /\ exists req, In req granted /\ receipt_hash rec = request_hash req).
Definition all_vouched (pubKey : string) (granted : list Approval.Request) (m : gmap string DecisionReceipt) : Prop :=
  forall h rec, m !! h = Some rec -> h = receipt_hash rec /\ vouched pubKey granted rec.

Lemma vouched_more pubKey granted req rec : vouched pubKey granted rec -> vouched pubKey (granted ++ req) rec.
Proof. intros [?|(Hd & r & Hin & Hr)]; [by left|right]. split; [done|]. exists r. split; [apply in_app_iff; by left|done]. Qed.

Lemma granted_receipt_ok req clock nonce rec : granted_receipt req clock nonce = Ok rec ->
  receipt_hash rec = request_hash req /\ dr_Decision rec = "approve".
Proof. unfold granted_receipt, NewReceipt. destruct nonce; [|done]. by intros [= <-]. Qed.

Lemma all_vouched_delete pubKey granted m h : all_vouched pubKey granted m -> all_vouched pubKey granted (delete h m).
Proof. intros Hm h' rec Hl. apply lookup_delete_Some in Hl as [_ Hl]. by apply Hm. Qed.
Lemma all_vouched_insert pubKey granted m rec : all_vouched pubKey granted m -> vouched pubKey granted rec ->
  all_vouched pubKey granted (<[receipt_hash rec := rec]> m).
Proof. intros Hm Hr h' rec' Hl. apply lookup_insert_Some in Hl as [[<- <-]|[_ Hl]]; [done|by apply Hm]. Qed.

(** The engine's fixed parts, and its receipts. *)
Definition vouching (engine : option Approval.Engine) (pubKey : string) (granted : list Approval.Request) (w : World) : Prop :=
  du_engine (wd_engine w) = engine /\ du_pubKey (wd_engine w) = pubKey /\
  all_vouched pubKey granted (du_receipts (wd_engine w)).

Lemma cached_vouching engine pubKey granted w h now : vouching engine pubKey granted w ->
  vouching engine pubKey granted {| wd_engine := (cached (wd_engine w) h now).1; wd_dir := wd_dir w |}.
Proof.
  intros (He & Hk & Hm). unfold cached. destruct (du_receipts _ !! h) as [rec|]; [|done].
  destruct (IsExpired rec now); [|by destruct (_ =s? _)]. split_and!; [done..|]. by apply all_vouched_delete.
Qed.

Lemma pend_engine dr o w : exists pending, wd_engine (pend dr o w).1 = with_pending (wd_engine w) pending.
Proof.
  unfold pend. destruct (persistRequest _ _ _ _) as [d [err|]]; cbn; [|by eexists].
  exists (du_pending (wd_engine w)). by destruct (wd_engine w).
Qed.
Lemma get_engine w id now removes : exists pending, wd_engine (GetPendingRequest w id now removes).1 = with_pending (wd_engine w) pending.
Proof.
  unfold GetPendingRequest. destruct (du_pending _ !! id) as [dr|]; [destruct (_ <? _)|].
  - destruct (removePending _ _ _ _) as [d err]. by eexists.
  - exists (du_pending (wd_engine w)). by destruct w as [[] ?].
  - exists (du_pending (wd_engine w)). by destruct w as [[] ?].
Qed.

Lemma submit_cases w text now o removes w' : (SubmitReceipt w text now o removes).1 = w' ->
  wd_engine w' = wd_engine w \/
  exists rec pending d, decode_receipt text = Some rec /\ IsExpired rec now = false /\
    String.length (du_pubKey (wd_engine w)) = 32%nat /\ Verify (du_pubKey (wd_engine w)) rec = None /\
    du_pending (wd_engine w) !! dr_ExecutionID rec = Some pending /\ receiptMatchesPending rec pending = true /\
    valid_decision rec = true /\
    w' = keep_receipt rec {| wd_engine := with_pending (wd_engine w) (delete (dr_ExecutionID rec) (du_pending (wd_engine w)));
                             wd_dir := d |}.
Proof.
  unfold SubmitReceipt. intros <-. destruct (decode_receipt text) as [rec|]; [|by left].
  destruct (IsExpired rec now) eqn:Ex; [by left|]. destruct (negb _) eqn:Ek; [by left|].
  destruct (Verify _ rec) eqn:Ev; [by left|]. destruct (du_pending _ !! _) as [p|] eqn:Ep.
  2:{ destruct (du_receipts _ !! _); by left. }
  destruct (negb (receiptMatchesPending rec p)) eqn:Em; [by left|].
  destruct (negb (valid_decision rec)) eqn:Ed; [by left|].
  destruct (persistReceipt _ _ _ _) as [d [err|]]; [by left|].
  destruct (removePending _ _ _ d) as [d' [err|]]; [by left|]. right. bools. exists rec, p, d'. done.
Qed.

Lemma run_vouching engine pubKey granted w o : vouching engine pubKey granted w ->
  vouching engine pubKey (granted ++ granted_by [o]) (run w o).
Proof.
  intros Hw. assert (vouching engine pubKey (granted ++ granted_by [o]) w) as (He & Hk & Hm).
  { destruct Hw as (He & Hk & Hm). split_and!; [done..|]. intros h rec Hl. destruct (Hm h rec Hl).
    split; [done|by apply vouched_more]. }
  destruct o as [req now|req clock nonce|req clock o|text now o removes|id now removes|now removes]; cbn [run].
  - by apply cached_vouching.
  - destruct (granted_receipt _ _ _) as [rec|] eqn:Eg; [|done]. apply granted_receipt_ok in Eg as [Eh Ed].
    split_and!; [done..|]. apply all_vouched_insert; [done|]. right. split; [done|]. exists req. split; [|done].
    apply in_app_iff. right. by left.
  - destruct (pend_engine (new_pending req clock) o w) as [m E]. by split_and!; rewrite E.
  - destruct (submit_cases w text now o removes _ eq_refl) as [E|(rec & p & d & _ & _ & _ & Hv & _ & _ & Hd & ->)].
    + by split_and!; rewrite E.
    + split_and!; [done..|]. apply all_vouched_insert; [done|]. left. by rewrite <- Hk.
  - destruct (get_engine w id now removes) as [m E]. by split_and!; rewrite E.
  - split_and!; [done..|]. intros h rec Hl. apply lookup_difference_Some in Hl as [Hl _]. by apply Hm.
Qed.
Lemma runs_vouching engine pubKey granted w ops : vouching engine pubKey granted w ->
  vouching engine pubKey (granted ++ granted_by ops) (runs w ops).
Proof.
  revert granted w. induction ops as [|o ops IH]; intros granted w Hw; [by rewrite app_nil_r|].
  apply (run_vouching _ _ _ _ o), IH in Hw. rewrite <- app_assoc in Hw. cbn [granted_by flat_map] in Hw |- *. by rewrite app_nil_r in Hw.
Qed.

(** A directory of any contents loads only receipts the key vouches for. *)
Lemma load_receipts_vouching pubKey now d names acc loaded granted :
  load_receipts pubKey now d names acc = Ok loaded -> all_vouched pubKey granted acc.1 -> all_vouched pubKey granted loaded.1.
Proof.
  revert acc. induction names as [|name names IH]; intros acc Hl Hm; cbn in Hl; [by injection Hl as <-|].
  destruct (d !! name) as [data|]; [|done]. unfold read_receipt in Hl.
  destruct (decode_receipt data) as [rec|]; [|done]. destruct (IsExpired rec now); [by apply IH in Hl|].
  destruct (negb _); [done|]. destruct (Verify pubKey rec) eqn:Ev; [done|]. destruct (_ || _); [done|].
  destruct (Approval.validateApprovalFileID _); [done|]. destruct (negb (valid_decision rec)) eqn:Ed; [done|].
  destruct (_ <>s? _); [done|]. apply IH in Hl; [done|]. bools. apply all_vouched_insert; [done|]. by left.
Qed.
Lemma new_vouching engine stateDir pubKey mkdir now removes d w :
  NewDurableEngine engine stateDir pubKey mkdir now removes d = Ok w -> vouching engine pubKey [] w.
Proof.
  unfold NewDurableEngine, loadState. cbn [du_stateDir du_pubKey du_receipts du_pending]. intros Hn.
  destruct (_ && _); [done|]. destruct (stateDir =s? ""); [by injection Hn as <-|].
  destruct (each_err _ _); [done|]. destruct (load_receipts _ _ _ _ _) as [loaded|] eqn:El; [|done]. cbn [result_bind] in Hn.
  destruct (load_requests _ _ _ _ _ _ _) as [[m d']|]; [|done]. injection Hn as <-.
  split_and!; [done..|]. by apply load_receipts_vouching with (granted := []) in El.
Qed.

Lemma new_request_approved w req clock answer meanwhile nonce o w' dec err :
  new_request w req clock answer meanwhile nonce o = (w', (Some dec, err)) -> dd_Approved dec = true ->
  exists eng, du_engine (wd_engine w) = Some eng /\ Approval.IsEnabled eng = true /\ answer eng = (true, None).
Proof.
  assert (forall dr, pend dr o w = (w', (Some dec, err)) -> dd_Approved dec = false) as Hpend.
  { intros dr. unfold pend. destruct (persistRequest _ _ _ _) as [? [?|]]; [done|]. by intros [= _ <- _]. }
  unfold new_request. intros Hr Happ. destruct (du_engine _) as [eng|]; [|apply Hpend in Hr; congruence].
  destruct (Approval.IsEnabled eng) eqn:Een; cbn [negb] in Hr; [|apply Hpend in Hr; congruence].
  exists eng. destruct (answer eng) as [[] [e|]]; cbn [negb] in Hr; [by injection Hr as _ <- _|done| |];
    by injection Hr as _ <- _.
Qed.

(** C38.  An approval rests on the operator's answer to this very request, or on a
    live receipt that approves this server, tool, session and agent and was
    either verified under the engine's key or granted by the operator: whatever
    the state directory held at start, whatever receipts were submitted and
    however the handlers interleave. *)
Theorem approval_vouched engine stateDir pubKey mkdir now removes d w0 before during req clock answer nonce o w' dec err :
  NewDurableEngine engine stateDir pubKey mkdir now removes d = Ok w0 ->
  RequestApproval (runs w0 before) req clock answer (fun w => runs w during) nonce o = (w', (Some dec, err)) ->
  dd_Approved dec = true ->
  (exists eng, engine = Some eng /\ Approval.IsEnabled eng = true /\ answer eng = (true, None)) \/
  (exists rec, dd_Receipt dec = Some rec /\ dr_Decision rec = "approve" /\ IsExpired rec (clock DExpired) = false /\
    dr_Server rec = Approval.ar_Server req /\ dr_Tool rec = Approval.ar_Tool req /\
    dr_SessionID rec = Approval.ar_SessionID req /\ dr_AgentID rec = Approval.ar_AgentID req /\
    vouched pubKey (granted_by before) rec).
Proof.
  intros Hn Hr Happ. apply new_vouching, (runs_vouching _ _ _ _ before) in Hn as (He & Hk & Hm). cbn in Hm.
  unfold RequestApproval in Hr. destruct (unnamed req); [done|]. destruct (Approval.validateApprovalFileID _); [done|].
  unfold cached in Hr.
  destruct (du_receipts _ !! _) as [rec|] eqn:Ec; [|by apply new_request_approved in Hr; [left; rewrite <- He|]].
  destruct (IsExpired rec _) eqn:Ex; [by apply new_request_approved in Hr; [left; rewrite <- He|]|].
  destruct (dr_Decision rec =s? "approve") eqn:Ed; [|by injection Hr as _ <- _].
  injection Hr as _ <- _. right. exists rec. destruct (Hm _ _ Ec) as [Eh Hv].
  apply hashRequest_inj in Eh as (-> & -> & -> & ->). bools. done.
Qed.

(** ** A restart

    What the state directory must hold for the engine to load, and what of it
    the engine has in memory.  The clock does not matter until a restart. *)
Section restart.
Context (stateDir pubKey : string).

Definition request_file (d : Dir) (id : string) (dr : durableRequest) : Prop :=
  dq_ID dr = id /\ stateFilePath stateDir "pending" id = Ok (file_name "pending" id) /\
  exists data, d !! file_name "pending" id = Some data /\ read_request (file_name "pending" id) data = Ok dr.
(** A receipt as [read_receipt] wants it, expired or not. *)
Definition sound_receipt (rec : DecisionReceipt) : Prop :=
  String.length pubKey = 32%nat /\ Verify pubKey rec = None /\ valid_decision rec = true /\
  dr_ExecutionID rec <> "" /\ dr_Server rec <> "" /\ dr_Tool rec <> "" /\ dr_SessionID rec <> "" /\ dr_AgentID rec <> "".
Definition receipt_file (d : Dir) (id : string) (rec : DecisionReceipt) : Prop :=
  dr_ExecutionID rec = id /\ stateFilePath stateDir "receipt" id = Ok (file_name "receipt" id) /\ sound_receipt rec /\
  exists data, d !! file_name "receipt" id = Some data /\ decode_receipt data = Some rec.

(** Every file is whole, and a receipt answers the request of its name. *)
Definition loadable (d : Dir) : Prop :=
  (forall name, is_Some (d !! name) -> exists id,
    (name = file_name "pending" id /\ exists dr, request_file d id dr) \/
    (name = file_name "receipt" id /\ exists rec, receipt_file d id rec)) /\
  (forall id rec dr, receipt_file d id rec -> request_file d id dr -> receiptMatchesPending rec dr = true).
(** What is in memory is on disk, and what is decided is not pending. *)
Definition backed (w : World) : Prop :=
  (forall id dr, du_pending (wd_engine w) !! id = Some dr -> request_file (wd_dir w) id dr) /\
  (forall h rec, du_receipts (wd_engine w) !! h = Some rec ->
    h = receipt_hash rec /\ receipt_file (wd_dir w) (dr_ExecutionID rec) rec /\
    du_pending (wd_engine w) !! dr_ExecutionID rec = None).
Definition consistent (w : World) : Prop :=
  du_stateDir (wd_engine w) = stateDir /\ du_pubKey (wd_engine w) = pubKey /\ loadable (wd_dir w) /\ backed w.

(** A handler of an engine without a local operator: no write is torn, a
    request that is kept can be read back, and its id is new. *)
Definition whole (o : WriteFile) : Prop := match o with WriteErr (Some _) => False | _ => True end.
Definition legit (w : World) (o : op) : Prop :=
  match o with
  | OGrant _ _ _ => False
  | OPend req clock out => whole out /\ unnamed req = false /\ clock DExpires + 3600 * 1000000000 <> zeroTime /\
      (forall data, encode_request (new_pending req clock) = Some data -> decode_request data = Some (new_pending req clock)) /\
      wd_dir w !! file_name "pending" (exec_id req (clock DNano)) = None /\
      wd_dir w !! file_name "receipt" (exec_id req (clock DNano)) = None
  | OSubmit _ _ out _ => whole out
  | _ => True
  end.

(** Lives of the engine: started on an empty directory, it handles requests
    and is restarted, at any point, on what the directory holds. *)
Inductive life (engine : option Approval.Engine) : World -> Prop :=
| life_start now removes w : NewDurableEngine engine stateDir pubKey false now removes ∅ = Ok w -> life engine w
| life_run w o : life engine w -> legit w o -> life engine (run w o)
| life_restart w now removes w' : life engine w ->
    NewDurableEngine engine stateDir pubKey false now removes (wd_dir w) = Ok w' -> life engine w'.

(** What has been read from a decoded receipt is written so that it can be
    read back: [encoding/json] on strings and integers. *)
Definition rereadable : Prop := forall text rec data,
  decode_receipt text = Some rec -> encode_receipt rec = Some data -> decode_receipt data = Some rec.

(** *** Names *)

Lemma file_name_inj kind id id' : file_name kind id = file_name kind id' -> id = id'.
Proof.
  unfold file_name. intros E. do 2 (apply Ownership.app_inj_length in E as [_ E]; [|done]).
  apply Ownership.app_inj_length in E as [-> _]; [done|].
  apply (f_equal String.length) in E. rewrite !str_length_app in E. lia.
Qed.
Lemma kinds_differ id id' : file_name "pending" id <> file_name "receipt" id'.
Proof. done. Qed.

Lemma stateFilePath_Ok kind id name : stateFilePath stateDir kind id = Ok name ->
  name = file_name kind id /\ Approval.validateApprovalFileID id = None.
Proof.
  unfold stateFilePath. destruct (Approval.validateApprovalFileID id); [done|].
  destruct (_ <>s? _); [done|]. destruct (_ && _); [done|]. by intros [= <-].
Qed.

Lemma any_byte_impl (p q : ascii -> bool) s : (forall c, p c = true -> q c = true) -> any_byte p s = true -> any_byte q s = true.
Proof.
  intros Hpq. induction s as [|c s IH]; cbn [any_byte]; [done|]. rewrite !orb_true_iff. intros [Hc|Hs]; [left|right]; auto.
Qed.
Lemma no_slash id kind : Approval.validateApprovalFileID id = None -> any_byte (Ascii.eqb "/") kind = false ->
  any_byte (Ascii.eqb "/") (file_name kind id) = false.
Proof.
  intros Hid Hk. unfold file_name. rewrite !any_byte_app, Hk. cbn. rewrite orb_false_r.
  unfold Approval.validateApprovalFileID in Hid. destruct (id =s? "") eqn:E; [by bools|].
  apply err_then_None in Hid as [_ Hid]. apply err_then_None in Hid as [Hid _]. apply fail_if_None in Hid.
  apply not_true_iff_false. intros Ht. apply not_true_iff_false in Hid. apply Hid.
  revert Ht. apply any_byte_impl. intros c Hc. apply orb_true_iff. by left.
Qed.
Lemma Ext_file_name kind id : Approval.validateApprovalFileID id = None -> any_byte (Ascii.eqb "/") kind = false ->
  Ext (file_name kind id) = ".json".
Proof.
  intros Hid Hk. unfold Ext. rewrite (proj2 (cut_last_None "/" _) (no_slash _ _ Hid Hk)).
  unfold file_name. rewrite <- !append_assoc. by rewrite (cut_last_app "." _ "json").
Qed.

Lemma request_file_unique d id dr dr' : request_file d id dr -> request_file d id dr' -> dr = dr'.
Proof. intros (_ & _ & t & Hl & Hr) (_ & _ & t' & Hl' & Hr'). rewrite Hl in Hl'. injection Hl' as <-. congruence. Qed.
Lemma receipt_file_unique d id rec rec' : receipt_file d id rec -> receipt_file d id rec' -> rec = rec'.
Proof. intros (_ & _ & _ & t & Hl & Hr) (_ & _ & _ & t' & Hl' & Hr'). rewrite Hl in Hl'. injection Hl' as <-. congruence. Qed.

(** *** Deletions *)

Lemma request_file_sub d d' id dr : d' ⊆ d -> request_file d' id dr -> request_file d id dr.
Proof. intros Hs (Hid & Hp & t & Hl & Hr). split_and!; [done..|]. exists t. split; [by eapply lookup_weaken|done]. Qed.
Lemma receipt_file_sub d d' id rec : d' ⊆ d -> receipt_file d' id rec -> receipt_file d id rec.
Proof. intros Hs (Hid & Hp & Hsd & t & Hl & Hr). split_and!; [done..|]. exists t. split; [by eapply lookup_weaken|done]. Qed.
Lemma request_file_same d d' id dr : d' !! file_name "pending" id = d !! file_name "pending" id ->
  request_file d id dr -> request_file d' id dr.
Proof. intros E (Hid & Hp & t & Hl & Hr). split_and!; [done..|]. exists t. by rewrite E. Qed.
Lemma receipt_file_same d d' id rec : d' !! file_name "receipt" id = d !! file_name "receipt" id ->
  receipt_file d id rec -> receipt_file d' id rec.
Proof. intros E (Hid & Hp & Hsd & t & Hl & Hr). split_and!; [done..|]. exists t. by rewrite E. Qed.

Lemma loadable_sub d d' : d' ⊆ d -> loadable d -> loadable d'.
Proof.
  intros Hs [Hf Hm]. split.
  - intros name [t Hl]. destruct (Hf name) as (id & [[-> [dr Hr]]|[-> [rec Hr]]]); [by eexists; eapply lookup_weaken| |];
      exists id; [left|right]; (split; [done|]).
    + exists dr. eapply request_file_same; [|done]. by rewrite Hl, (lookup_weaken _ _ _ _ Hl Hs).
    + exists rec. eapply receipt_file_same; [|done]. by rewrite Hl, (lookup_weaken _ _ _ _ Hl Hs).
  - intros id rec dr Hrec Hreq. eapply Hm; [by eapply receipt_file_sub|by eapply request_file_sub].
Qed.
Lemma remove_file_sub name ok (d : Dir) : (remove_file name ok d).1 ⊆ d.
Proof. destruct ok; [apply delete_subseteq|done]. Qed.
Lemma remove_file_other name name' ok (d : Dir) : name <> name' -> (remove_file name ok d).1 !! name' = d !! name'.
Proof. intros Hne. destruct ok; cbn; [by rewrite lookup_delete_ne|done]. Qed.

(** *** Handlers that only forget *)

Lemma consistent_less w w' : consistent w ->
  du_stateDir (wd_engine w') = du_stateDir (wd_engine w) -> du_pubKey (wd_engine w') = du_pubKey (wd_engine w) ->
  du_pending (wd_engine w') ⊆ du_pending (wd_engine w) -> du_receipts (wd_engine w') ⊆ du_receipts (wd_engine w) ->
  wd_dir w' ⊆ wd_dir w ->
  (forall id dr, du_pending (wd_engine w') !! id = Some dr ->
    wd_dir w' !! file_name "pending" id = wd_dir w !! file_name "pending" id) ->
  (forall h rec, du_receipts (wd_engine w') !! h = Some rec ->
    wd_dir w' !! file_name "receipt" (dr_ExecutionID rec) = wd_dir w !! file_name "receipt" (dr_ExecutionID rec)) ->
  consistent w'.
Proof.
  intros (Hs & Hk & Hl & Hp & Hr) Es Ek Sp Sr Sd Kp Kr. split_and!; [congruence..| |split].
  - by eapply loadable_sub.
  - intros id dr Hd. eapply request_file_same; [by eapply Kp|]. apply Hp. by eapply lookup_weaken.
  - intros h rec Hd. destruct (Hr h rec) as (Hh & Hf & Hn); [by eapply lookup_weaken|]. split_and!; [done| |].
    + eapply receipt_file_same; [by eapply Kr|done].
    + by eapply lookup_weaken_None.
Qed.

Lemma removePending_less id ok (d : Dir) :
  (removePending stateDir id ok d).1 ⊆ d /\
  (forall name, name <> file_name "pending" id -> (removePending stateDir id ok d).1 !! name = d !! name).
Proof.
  unfold removePending. destruct (stateDir =s? ""); [done|].
  destruct (stateFilePath stateDir "pending" id) as [name|err] eqn:Ef; [|done]. apply stateFilePath_Ok in Ef as [-> _].
  pose proof (remove_file_sub (file_name "pending" id) ok d) as Hs.
  pose proof (fun name => remove_file_other (file_name "pending" id) name ok d) as Ho.
  destruct (remove_file _ _ _) as [d' failed]. split; [done|]. intros name Hne. by apply Ho.
Qed.

Lemma forget_less kind removes ids (d : Dir) :
  forget stateDir kind removes ids d ⊆ d /\
  (forall name, (forall id, In id ids -> name <> file_name kind id) -> forget stateDir kind removes ids d !! name = d !! name).
Proof.
  unfold forget. destruct (stateDir =s? ""); [done|].
  induction ids as [|id ids [IHs IHo]]; [done|]. cbn [foldr].
  destruct (stateFilePath stateDir kind id) as [name|] eqn:Ef.
  - apply stateFilePath_Ok in Ef as [-> _]. split; [by etrans; [apply remove_file_sub|]|].
    intros name Hn. rewrite remove_file_other by (intros E; by apply (Hn id); [left|]).
    apply IHo. intros id' Hin. apply Hn. by right.
  - split; [done|]. intros name Hn. apply IHo. intros id' Hin. apply Hn. by right.
Qed.

Lemma lookup_consistent w req now : consistent w ->
  consistent {| wd_engine := (cached (wd_engine w) (request_hash req) now).1; wd_dir := wd_dir w |}.
Proof.
  intros Hw. assert (exists m, (cached (wd_engine w) (request_hash req) now).1 = with_receipts (wd_engine w) m /\
    m ⊆ du_receipts (wd_engine w)) as (m & -> & Hm); [|by apply (consistent_less w)].
  assert (wd_engine w = with_receipts (wd_engine w) (du_receipts (wd_engine w))) as Hsame by by destruct w as [[] ?].
  unfold cached. destruct (du_receipts _ !! _) as [rec|]; [destruct (IsExpired rec now)|]; [|destruct (_ =s? _)|]; cbn [fst];
    eexists; (split; [first [exact Hsame|reflexivity]|]); [apply delete_subseteq|done..].
Qed.

Lemma get_consistent w id now removes : consistent w -> consistent (GetPendingRequest w id now removes).1.
Proof.
  intros Hw. pose proof Hw as (Hs & _). unfold GetPendingRequest. destruct (du_pending _ !! id) as [dr|] eqn:Ep; [|done].
  destruct (dq_ExpiresAt dr <? now); [|done]. rewrite Hs.
  destruct (removePending_less id removes (wd_dir w)) as [Hsub Ho]. destruct (removePending _ _ _ _) as [d err].
  apply (consistent_less w); cbn; try done.
  - apply delete_subseteq.
  - intros id' dr' Hl. apply lookup_delete_Some in Hl as [Hne _]. apply Ho. by intros ->%file_name_inj.
  - intros h rec _. by apply Ho.
Qed.

Lemma cleanup_consistent w now removes : consistent w -> consistent (Cleanup w now removes).
Proof.
  intros Hw. pose proof Hw as (Hs & _ & _ & _ & Hr). unfold Cleanup.
  set (sp := filter _ (du_pending _)). set (sr := filter _ (du_receipts _)). rewrite Hs.
  set (d1 := forget stateDir "pending" _ _ _).
  destruct (forget_less "pending" removes (fst <$> map_to_list sp) (wd_dir w)) as [S1 O1]. fold d1 in S1, O1.
  destruct (forget_less "receipt" removes ((fun kv => dr_ExecutionID kv.2) <$> map_to_list sr) d1) as [S2 O2].
  apply (consistent_less w); cbn; try done.
  - apply map_subseteq_difference_l; reflexivity.
  - apply map_subseteq_difference_l; reflexivity.
  - by etrans.
  - intros id dr Hl. apply lookup_difference_Some in Hl as [Hl Hn]. rewrite O2 by (intros; apply kinds_differ).
    apply O1. intros id' Hin ->%file_name_inj. apply in_map_iff in Hin as ([k v] & <- & Hin).
    apply list_elem_of_In, elem_of_map_to_list in Hin. cbn in Hin, Hn. by rewrite Hin in Hn.
  - intros h rec Hl. apply lookup_difference_Some in Hl as [Hl Hn]. rewrite O2.
    + apply O1. intros id Hin E. symmetry in E. by apply kinds_differ in E.
    + intros id Hin Eid%file_name_inj. apply in_map_iff in Hin as ([k v] & E & Hin). cbn in E. rewrite <- Eid in E.
      apply list_elem_of_In, elem_of_map_to_list in Hin. pose proof Hin as Hin'.
      apply map_lookup_filter_Some in Hin' as [Hin' _].
      destruct (Hr _ _ Hl) as (Eh & Hf & _). destruct (Hr _ _ Hin') as (Ek & Hf' & _). rewrite E in Hf'.
      pose proof (receipt_file_unique _ _ _ _ Hf Hf') as ->. rewrite <- Ek in Eh. subst k. congruence.
Qed.

(** *** Handlers that write *)

Context (Hdir : stateDir <> "").

Lemma persist_whole kind id data o (d d' : Dir) err : whole o -> persist stateDir kind id data o d = (d', err) ->
  match err with
  | Some _ => d' = d
  | None => exists text, data = Some text /\ stateFilePath stateDir kind id = Ok (file_name kind id) /\
              d' = <[file_name kind id := text]> d
  end.
Proof.
  intros Ho. unfold persist. rewrite (proj2 (str_eqb_false _ _) Hdir). destruct data as [text|]; [|by intros [= <- <-]].
  destruct (stateFilePath stateDir kind id) as [name|e] eqn:Ef; [|by intros [= <- <-]].
  pose proof (stateFilePath_Ok _ _ _ Ef) as [-> _]. destruct o as [|[torn|]]; [|done|]; cbn; intros [= <- <-]; [|done].
  by exists text.
Qed.

Lemma removePending_done id ok (d d' : Dir) : removePending stateDir id ok d = (d', None) ->
  d' !! file_name "pending" id = None.
Proof.
  unfold removePending. rewrite (proj2 (str_eqb_false _ _) Hdir).
  destruct (stateFilePath stateDir "pending" id) as [name|] eqn:Ef; [|done].
  apply stateFilePath_Ok in Ef as [-> _]. destruct ok; cbn.
  - intros [= <-]. apply lookup_delete_eq.
  - case_bool_decide as Hn; cbn; [done|]. intros [= <-]. by apply eq_None_not_Some.
Qed.

Lemma exec_id_nonempty req nano : exec_id req nano <> "".
Proof. done. Qed.

(** A new file of a kind, over what a loadable directory may hold. *)
Lemma loadable_request (d : Dir) id dr text : loadable d -> d !! file_name "receipt" id = None ->
  request_file (<[file_name "pending" id := text]> d) id dr -> loadable (<[file_name "pending" id := text]> d).
Proof.
  intros [Hf Hm] Hfree Hnew. split.
  - intros name Hs. destruct (decide (file_name "pending" id = name)) as [<-|Hne]; [by exists id; left; split; [|exists dr]|].
    rewrite lookup_insert_ne in Hs by done. destruct (Hf name Hs) as (id' & [[-> [dr' Hr]]|[-> [rec Hr]]]); exists id'; [left|right];
      (split; [done|]); eexists.
    + eapply request_file_same; [|exact Hr]. by rewrite lookup_insert_ne.
    + eapply receipt_file_same; [|exact Hr]. by rewrite lookup_insert_ne.
  - intros id' rec dr' Hrec Hreq. apply (receipt_file_same _ d) in Hrec; [|by rewrite lookup_insert_ne by apply kinds_differ].
    destruct (decide (id = id')) as [<-|Hne].
    + destruct Hrec as (_ & _ & _ & t & Hl & _). congruence.
    + apply (request_file_same _ d) in Hreq; [by eapply Hm|]. rewrite lookup_insert_ne; [done|]. by intros ?%file_name_inj.
Qed.
Lemma loadable_receipt (d : Dir) id rec text : loadable d ->
  (forall dr, request_file d id dr -> receiptMatchesPending rec dr = true) ->
  receipt_file (<[file_name "receipt" id := text]> d) id rec -> loadable (<[file_name "receipt" id := text]> d).
Proof.
  intros [Hf Hm] Hmatch Hnew. assert (forall id', file_name "receipt" id <> file_name "pending" id') as Hkind by done. split.
  - intros name Hs. destruct (decide (file_name "receipt" id = name)) as [<-|Hne]; [by exists id; right; split; [|exists rec]|].
    rewrite lookup_insert_ne in Hs by done. destruct (Hf name Hs) as (id' & [[-> [dr' Hr]]|[-> [rec' Hr]]]); exists id'; [left|right];
      (split; [done|]); eexists.
    + eapply request_file_same; [|exact Hr]. by rewrite lookup_insert_ne.
    + eapply receipt_file_same; [|exact Hr]. by rewrite lookup_insert_ne.
  - intros id' rec' dr Hrec Hreq. apply (request_file_same _ d) in Hreq; [|by rewrite lookup_insert_ne].
    destruct (decide (id = id')) as [<-|Hne].
    + pose proof (receipt_file_unique _ _ _ _ Hrec Hnew) as ->. by apply Hmatch.
    + apply (receipt_file_same _ d) in Hrec; [by eapply Hm|]. rewrite lookup_insert_ne; [done|]. by intros ?%file_name_inj.
Qed.

Lemma pend_consistent w req clock o : consistent w -> legit w (OPend req clock o) ->
  consistent (pend (new_pending req clock) o w).1.
Proof.
  intros (Hs & Hk & Hl & Hp & Hr) (Ho & Hun & Hz & Hcode & Hfree & Hfree'). set (dr := new_pending req clock) in *.
  unfold pend, persistRequest. rewrite Hs. destruct (persist _ _ _ _ _ _) as [d err] eqn:Ep.
  apply persist_whole in Ep; [|done]. destruct err as [err|]; cbn [fst]; [by subst d; destruct w|].
  destruct Ep as (text & He & Hf & ->).
  assert (request_file (<[file_name "pending" (dq_ID dr) := text]> (wd_dir w)) (dq_ID dr) dr) as Hnew.
  { split_and!; [done..|]. exists text. split; [by rewrite lookup_insert_eq|]. unfold read_request. rewrite (Hcode _ He).
    unfold unnamed in Hun. apply orb_false_iff in Hun as [Hun H4']. apply orb_false_iff in Hun as [Hun H3'].
    apply orb_false_iff in Hun as [H1' H2']. cbn. rewrite H1', H2', H3', H4', (proj2 (Z.eqb_neq _ _) Hz). cbn.
    apply stateFilePath_Ok in Hf as [_ Hv]. cbn in Hv. by rewrite Hv, str_eqb_refl. }
  split_and!; [done..| |split]; cbn.
  - by eapply loadable_request.
  - intros id dr' Hd. apply lookup_insert_Some in Hd as [[<- <-]|[Hne Hd]]; [done|].
    eapply request_file_same; [|by apply Hp]. rewrite lookup_insert_ne; [done|]. by intros ?%file_name_inj.
  - intros h rec Hd. destruct (Hr _ _ Hd) as (Hh & Hrec & Hn). split_and!; [done| |].
    + eapply receipt_file_same; [|exact Hrec]. by rewrite lookup_insert_ne by apply kinds_differ.
    + rewrite lookup_insert_ne; [done|]. intros E. destruct Hrec as (_ & _ & _ & t & Hrec & _). rewrite <- E in Hrec.
      cbn in Hrec. congruence.
Qed.

Context (Hreread : rereadable).

Lemma matches_pending rec dr : receiptMatchesPending rec dr = true -> dr_ExecutionID rec = dq_ID dr /\
  dr_Server rec = dq_Server dr /\ dr_Tool rec = dq_Tool dr /\ dr_SessionID rec = dq_SessionID dr /\ dr_AgentID rec = dq_AgentID dr.
Proof. unfold receiptMatchesPending. intros Hm. repeat (apply andb_true_iff in Hm as [Hm ?]). bools. done. Qed.
Lemma read_request_named name data dr : read_request name data = Ok dr ->
  dq_ID dr <> "" /\ dq_Server dr <> "" /\ dq_Tool dr <> "" /\ dq_SessionID dr <> "" /\ dq_AgentID dr <> "".
Proof.
  unfold read_request. destruct (decode_request data) as [dr'|]; [|done]. destruct (_ || _) eqn:Eb; [done|].
  destruct (Approval.validateApprovalFileID _); [done|]. destruct (_ <>s? _); [done|]. intros [= <-].
  repeat (apply orb_false_iff in Eb as [Eb ?]). bools. done.
Qed.

Lemma submit_consistent w text now o removes : consistent w -> whole o -> consistent (SubmitReceipt w text now o removes).1.
Proof.
  intros Hw Ho. pose proof Hw as (Hs & Hk & Hl & Hp & Hr). unfold SubmitReceipt.
  destruct (decode_receipt text) as [rec|] eqn:Edec; [|done]. destruct (IsExpired rec now); [done|].
  destruct (negb _) eqn:Ekey; [done|]. destruct (Verify _ rec) eqn:Ev; [done|].
  destruct (du_pending _ !! _) as [p|] eqn:Ep; [|by destruct (du_receipts _ !! _)].
  destruct (negb (receiptMatchesPending rec p)) eqn:Em; [done|]. destruct (negb (valid_decision rec)) eqn:Ed; [done|].
  unfold persistReceipt. rewrite Hs. destruct (persist _ _ _ _ _ _) as [d err] eqn:Epers. apply persist_whole in Epers; [|done].
  destruct err as [err|]; cbn [fst]; [by subst d; destruct w|]. destruct Epers as (t & He & Hf & ->). bools.
  set (id := dr_ExecutionID rec) in *. set (d1 := <[file_name "receipt" id := t]> (wd_dir w)).
  pose proof (Hp _ _ Ep) as Hreq. apply matches_pending in Em as Hm. destruct Hm as (M1 & M2 & M3 & M4 & M5).
  assert (receipt_file d1 id rec) as Hrec.
  { destruct Hreq as (_ & _ & data & _ & Hread). apply read_request_named in Hread as (N1 & N2 & N3 & N4 & N5).
    split_and!; [done..| |].
    - unfold sound_receipt. rewrite <- Hk. split_and!; try done; congruence.
    - exists t. split; [apply lookup_insert_eq|by eapply Hreread]. }
  assert (loadable d1) as Hl1.
  { apply loadable_receipt with rec; [done| |done]. intros dr Hdr. by rewrite (request_file_unique _ _ _ _ Hdr Hreq). }
  assert (forall id' dr, request_file (wd_dir w) id' dr -> request_file d1 id' dr) as Hkeep.
  { intros id' dr Hdr. eapply request_file_same; [|exact Hdr]. by apply lookup_insert_ne. }
  assert (forall h rec', du_receipts (wd_engine w) !! h = Some rec' -> h = receipt_hash rec' /\
    receipt_file d1 (dr_ExecutionID rec') rec' /\ du_pending (wd_engine w) !! dr_ExecutionID rec' = None) as Hold.
  { intros h rec' Hd. destruct (Hr _ _ Hd) as (Hh & Hrf & Hn). split_and!; [done| |done].
    eapply receipt_file_same; [|exact Hrf]. apply lookup_insert_ne. intros E%file_name_inj. rewrite <- E in Hn. congruence. }
  destruct (removePending_less id removes d1) as [Hsub Hother].
  destruct (removePending stateDir id removes d1) as [d2 err] eqn:Erem. destruct err as [err|]; cbn [fst] in *.
  - split_and!; [done..| |split]; cbn.
    + by eapply loadable_sub.
    + intros id' dr Hd. eapply request_file_same; [|by apply Hkeep, Hp].
      destruct (decide (id' = id)) as [->|Hne]; [|apply Hother; by intros ?%file_name_inj].
      unfold removePending in Erem. destruct (stateDir =s? ""); [done|].
      destruct (stateFilePath stateDir "pending" id) as [name|] eqn:Ef'; [|by simplify_eq].
      apply stateFilePath_Ok in Ef' as [-> _]. destruct removes; cbn in Erem; [done|]. by simplify_eq.
    + intros h rec' Hd. destruct (Hold _ _ Hd) as (Hh & Hrf & Hn). split_and!; [done| |done].
      eapply receipt_file_same; [|exact Hrf]. by apply Hother.
  - split_and!; [done..| |split]; cbn.
    + by eapply loadable_sub.
    + intros id' dr Hd. apply lookup_delete_Some in Hd as [Hne Hd]. eapply request_file_same; [|by apply Hkeep, Hp].
      apply Hother. by intros ?%file_name_inj.
    + intros h rec' Hd. apply lookup_insert_Some in Hd as [[<- <-]|[_ Hd]].
      * split_and!; [done| |apply lookup_delete_eq]. eapply receipt_file_same; [|exact Hrec]. by apply Hother.
      * destruct (Hold _ _ Hd) as (Hh & Hrf & Hn). split_and!; [done| |by apply lookup_delete_None; right].
        eapply receipt_file_same; [|exact Hrf]. by apply Hother.
Qed.

Lemma run_consistent w o : consistent w -> legit w o -> consistent (run w o).
Proof.
  intros Hw Ho. destruct o; cbn [run].
  - by apply lookup_consistent.
  - done.
  - by apply pend_consistent.
  - by apply submit_consistent.
  - by apply get_consistent.
  - by apply cleanup_consistent.
Qed.

(** *** Loading *)

Lemma read_receipt_file d id rec now : receipt_file d id rec -> exists data, d !! file_name "receipt" id = Some data /\
  read_receipt pubKey (file_name "receipt" id) data now = Ok (if IsExpired rec now then None else Some rec).
Proof.
  intros (Hid & Hf & (Hk & Hv & Hd & N1 & N2 & N3 & N4 & N5) & data & Hl & Hdec). exists data. split; [done|].
  unfold read_receipt. rewrite Hdec. destruct (IsExpired rec now); [done|]. rewrite Hk, Nat.eqb_refl, Hv. cbn [negb].
  rewrite !(proj2 (str_eqb_false _ _)) by done. cbn [orb]. apply stateFilePath_Ok in Hf as [_ Hf].
  by rewrite Hid, Hf, Hd, str_eqb_refl.
Qed.

Lemma load_receipts_filled now d names acc :
  (forall name, In name names -> exists id rec, name = file_name "receipt" id /\ receipt_file d id rec) ->
  exists recs, load_receipts pubKey now d names acc = Ok (filled receipt_hash recs acc.1, filled dr_ExecutionID recs acc.2) /\
    (forall rec, In rec recs <-> exists id, In (file_name "receipt" id) names /\ receipt_file d id rec /\ IsExpired rec now = false).
Proof.
  revert acc. induction names as [|name names IH]; intros acc Hnames.
  { exists []. split; [by destruct acc|]. split; [done|]. by intros (? & [] & _). }
  destruct (Hnames name) as (id & rec & -> & Hrec); [by left|].
  destruct (read_receipt_file d id rec now Hrec) as (data & Hl & Hr). cbn [load_receipts]. rewrite Hl, Hr. cbn [result_bind].
  set (acc' := match (if IsExpired rec now then None else Some rec) with None => acc | Some rec => _ end).
  destruct (IH acc') as (recs & Hload & Hin); [intros; apply Hnames; by right|]. subst acc'.
  destruct (IsExpired rec now) eqn:Ex; [exists recs|exists (rec :: recs)]; (split; [done|]); intros rec'; cbn [In]; rewrite Hin.
  - split; intros (id' & Hn & Hf & Hx); exists id'; split_and!; try done; [by right|].
    destruct Hn as [<-%file_name_inj|Hn]; [|done]. rewrite (receipt_file_unique _ _ _ _ Hf Hrec) in Hx. congruence.
  - split.
    + intros [<-|(id' & Hn & Hf & Hx)]; [exists id|exists id']; split_and!; try done; [by left|by right].
    + intros (id' & [<-%file_name_inj|Hn] & Hf & Hx); [left; by eapply receipt_file_unique|right; by exists id'].
Qed.

Lemma request_file_reads d id dr : request_file d id dr -> exists data, d !! file_name "pending" id = Some data /\
  read_request (file_name "pending" id) data = Ok dr.
Proof. by intros (_ & _ & ?). Qed.

Lemma load_requests_ok now removes completed names d acc : NoDup names ->
  (forall name, In name names -> exists id dr, name = file_name "pending" id /\ request_file d id dr /\
    forall rec, completed !! id = Some rec -> receiptMatchesPending rec dr = true) ->
  match load_requests stateDir now removes completed names d acc with
  | Err _ => exists id, is_Some (completed !! id) /\ In (file_name "pending" id) names /\ removes (file_name "pending" id) = false
  | Ok (acc', d') =>
      d' ⊆ d /\
      (forall name, (forall id, name = file_name "pending" id -> completed !! id = None) -> d' !! name = d !! name) /\
      (forall id dr, acc' !! id = Some dr -> acc !! id = Some dr \/ (request_file d id dr /\ completed !! id = None)) /\
      (forall id, ~ In (file_name "pending" id) names -> acc' !! id = acc !! id) /\
      (forall id dr, In (file_name "pending" id) names -> request_file d id dr -> completed !! id = None ->
        now < dq_ExpiresAt dr -> acc' !! id = Some dr)
  end.
Proof.
  revert d acc. induction names as [|name names IH]; intros d acc Hnd Hnames; cbn [load_requests].
  { split_and!; [done|done|by left|done|done]. }
  apply NoDup_cons in Hnd as [Hni Hnd]. destruct (Hnames name) as (id & dr & -> & Hreq & Hmatch); [by left|].
  destruct (request_file_reads _ _ _ Hreq) as (data & -> & ->). cbn [result_bind].
  assert (dq_ID dr = id) as -> by by destruct Hreq. rewrite list_elem_of_In in Hni.
  assert (forall id' (d' : Dir), In (file_name "pending" id') names -> (forall name, name <> file_name "pending" id -> d' !! name = d !! name) ->
    d' !! file_name "pending" id' = d !! file_name "pending" id') as Hother.
  { intros id' d' Hin Ho. apply Ho. by intros E; rewrite E in Hin. }
  destruct (completed !! id) as [rec|] eqn:Ec.
  - rewrite (Hmatch rec eq_refl). cbn [negb].
    destruct (removePending_less id (removes (file_name "pending" id)) d) as [Hsub Ho].
    destruct (removePending _ _ _ d) as [d1 [err|]] eqn:Er.
    + exists id. split_and!; [by eexists|by left|]. unfold removePending in Er. destruct (stateDir =s? "") eqn:E; [by bools|].
      destruct Hreq as (_ & Hp & _). rewrite Hp in Er. by destruct (removes _).
    + cbn [fst] in *. specialize (IH d1 acc Hnd).
      destruct (load_requests _ _ _ _ _ _ _) as [[acc' d']|]; cbn beta iota in *.
      2:{ destruct IH as (id' & Hc & Hin & Hrm); [|exists id'; split_and!; [done|by right|done]]. intros name Hin. destruct (Hnames name) as (id' & dr' & -> & Hr & Hm); [by right|].
          exists id', dr'. split_and!; [done| |done]. eapply request_file_same; [by apply Hother|done]. }
      destruct IH as (I1 & I2 & I3 & I4 & I5).
      { intros name Hin. destruct (Hnames name) as (id' & dr' & -> & Hr & Hm); [by right|].
        exists id', dr'. split_and!; [done| |done]. eapply request_file_same; [by apply Hother|done]. }
      split_and!.
      * by etrans.
      * intros name Hn. rewrite I2 by done. apply Ho. intros ->. specialize (Hn id eq_refl). congruence.
      * intros id' dr' Hl. apply I3 in Hl as [?|[Hr Hn]]; [by left|right]. split; [by eapply request_file_sub|done].
      * intros id' Hn. apply I4. intros Hin. apply Hn. by right.
      * intros id' dr' Hin Hr Hn Hx. destruct Hin as [->%file_name_inj|Hin]; [congruence|].
        apply I5; try done. eapply request_file_same; [by apply Hother|done].
  - set (acc1 := if now <? dq_ExpiresAt dr then _ else _). specialize (IH d acc1 Hnd).
    destruct (load_requests _ _ _ _ _ _ _) as [[acc' d']|];
      [|destruct IH as (id' & Hc & Hin & Hrm); [by intros; apply Hnames; right|exists id'; split_and!; [done|by right|done]]].
    destruct IH as (I1 & I2 & I3 & I4 & I5); [by intros; apply Hnames; right|].
    assert (forall id', id' <> id -> acc1 !! id' = acc !! id') as Hacc.
    { intros id' Hne. unfold acc1. destruct (_ <? _); [by rewrite lookup_insert_ne|done]. }
    split_and!; [done|done| | |].
    + intros id' dr' Hl. apply I3 in Hl as [Hl|?]; [|by right]. destruct (decide (id' = id)) as [->|Hne]; [|left; by rewrite <- Hacc].
      unfold acc1 in Hl. destruct (_ <? _); [|by left]. rewrite lookup_insert_eq in Hl. injection Hl as <-. by right.
    + intros id' Hn. rewrite I4 by (intros Hin; apply Hn; by right). apply Hacc. intros ->. apply Hn. by left.
    + intros id' dr' [E|Hin] Hr Hn Hx; [|by apply I5]. apply file_name_inj in E as <-. rewrite I4 by done.
      rewrite (request_file_unique _ _ _ _ Hr Hreq) in *. unfold acc1. rewrite (proj2 (Z.ltb_lt _ _) Hx). apply lookup_insert_eq.
Qed.

Lemma dir_names_spec (d : Dir) : NoDup (dir_names d) /\ forall name, In name (dir_names d) <-> is_Some (d !! name).
Proof.
  unfold dir_names. set (names := (fst <$> map_to_list d) : list string).
  assert (merge_sort String.le names ≡ₚ names) as P by apply merge_sort_Permutation. split.
  - rewrite P. apply NoDup_fst_map_to_list.
  - intros name. rewrite <- list_elem_of_In, P. unfold names. rewrite list_elem_of_fmap. split.
    + intros ([k v] & -> & Hin). apply elem_of_map_to_list in Hin. by exists v.
    + intros [v Hv]. exists (name, v). split; [done|]. by apply elem_of_map_to_list.
Qed.
Lemma kind_names_spec kind id (d : Dir) : In (file_name kind id) (kind_names kind (dir_names d)) <-> is_Some (d !! file_name kind id).
Proof.
  unfold kind_names. rewrite List.filter_In. destruct (dir_names_spec d) as [_ Hn]. rewrite Hn. split; [by intros [? _]|].
  intros Hs. split; [done|]. apply HasPrefix_spec. exists (id +:+ ".json"). unfold file_name. by rewrite !append_assoc.
Qed.
Lemma kind_names_NoDup kind (d : Dir) : NoDup (kind_names kind (dir_names d)).
Proof. apply NoDup_ListNoDup, List.NoDup_filter, NoDup_ListNoDup, dir_names_spec. Qed.
Lemma loadable_names d name : loadable d -> In name (dir_names d) -> name_error name = None /\
  (HasPrefix name "receipt-" = true -> exists id rec, name = file_name "receipt" id /\ receipt_file d id rec) /\
  (HasPrefix name "pending-" = true -> exists id dr, name = file_name "pending" id /\ request_file d id dr).
Proof.
  intros [Hf _] Hin. apply dir_names_spec, Hf in Hin as (id & [[-> [dr Hr]]|[-> [rec Hr]]]).
  - pose proof Hr as (_ & Hp & _). apply stateFilePath_Ok in Hp as [_ Hv]. unfold name_error.
    rewrite Ext_file_name by done. rewrite str_eqb_refl, andb_false_r. split_and!; [done|done|]. intros _. by exists id, dr.
  - pose proof Hr as (_ & Hp & _). apply stateFilePath_Ok in Hp as [_ Hv]. unfold name_error.
    rewrite Ext_file_name by done. rewrite str_eqb_refl, andb_false_r. split_and!; [done| |done]. intros _. by exists id, rec.
Qed.

(** What a loadable directory loads to. *)
Lemma load_ok engine now removes d : loadable d ->
  match NewDurableEngine engine stateDir pubKey false now removes d with
  | Err _ => exists id rec, receipt_file d id rec /\ IsExpired rec now = false /\ is_Some (d !! file_name "pending" id) /\
      removes (file_name "pending" id) = false
  | Ok w =>
      consistent w /\
      (forall id dr, du_pending (wd_engine w) !! id = Some dr -> request_file d id dr) /\
      (forall id dr, request_file d id dr -> now < dq_ExpiresAt dr ->
        du_pending (wd_engine w) !! id = Some dr \/ exists rec, receipt_file d id rec /\ IsExpired rec now = false) /\
      (forall id rec, receipt_file d id rec -> IsExpired rec now = false ->
        exists id' rec', du_receipts (wd_engine w) !! receipt_hash rec = Some rec' /\ receipt_file d id' rec' /\
          IsExpired rec' now = false /\ receipt_hash rec' = receipt_hash rec)
  end.
Proof.
  intros Hl. unfold NewDurableEngine. rewrite andb_false_r, (proj2 (str_eqb_false _ _) Hdir). unfold loadState.
  cbn [du_stateDir du_pubKey du_receipts du_pending]. rewrite (proj2 (str_eqb_false _ _) Hdir).
  assert (each_err name_error (dir_names d) = None) as ->.
  { apply each_err_None, List.Forall_forall. intros name Hin. by apply (loadable_names d name Hl). }
  destruct (load_receipts_filled now d (kind_names "receipt" (dir_names d)) (∅, ∅)) as (recs & -> & Hrecs).
  { intros name Hin. apply List.filter_In in Hin as [Hin Hp]. by apply (loadable_names d name Hl Hin). }
  cbn [result_bind fst snd]. set (completed := filled dr_ExecutionID recs ∅).
  assert (forall id rec, completed !! id = Some rec -> receipt_file d id rec /\ IsExpired rec now = false) as Hcomp.
  { intros id rec Hc. apply filled_Some in Hc as [[Hin <-]|Hc]; [|by rewrite lookup_empty in Hc].
    apply Hrecs in Hin as (id' & _ & Hf & Hx). split; [|done]. pose proof Hf as [Hid _]. by rewrite Hid. }
  assert (forall id rec, receipt_file d id rec -> IsExpired rec now = false -> In rec recs) as Hlive.
  { intros id rec Hf Hx. apply Hrecs. exists id. split_and!; try done. apply kind_names_spec.
    destruct Hf as (_ & _ & _ & data & Hd & _). by exists data. }
  pose proof (load_requests_ok now removes completed (kind_names "pending" (dir_names d)) d ∅) as Hreqs.
  destruct (load_requests _ _ _ _ _ _ _) as [[pending d']|]; cbn [result_bind fst snd];
    [|destruct Hreqs as (id & [rec Hc] & Hin & Hrm); [apply kind_names_NoDup| |apply Hcomp in Hc as [Hf Hx]; exists id, rec;
        split_and!; [done..| |done]; by apply kind_names_spec]].
  1: destruct Hreqs as (I1 & I2 & I3 & I4 & I5); [apply kind_names_NoDup| |].
  1, 3: intros name Hin; apply List.filter_In in Hin as [Hin Hp];
    destruct (proj2 (proj2 (loadable_names d name Hl Hin)) Hp) as (id & dr & -> & Hr); exists id, dr;
    split_and!; [done..|]; intros rec Hc; apply (proj2 Hl id); [by apply Hcomp|done].
  split_and!.
  - split_and!; [done|done|by eapply loadable_sub|split]; cbn.
    + intros id dr Hp. apply I3 in Hp as [Hp|[Hr Hn]]; [by rewrite lookup_empty in Hp|].
      eapply request_file_same; [|exact Hr]. apply I2. by intros id' <-%file_name_inj.
    + intros h rec Hd. apply filled_Some in Hd as [[Hin <-]|Hd]; [|by rewrite lookup_empty in Hd].
      pose proof Hin as Hin'. apply Hrecs in Hin as (id & _ & Hf & Hx). pose proof Hf as (Hid & _). split_and!; [done| |].
      * rewrite Hid. eapply receipt_file_same; [|exact Hf]. by apply I2.
      * apply eq_None_not_Some. intros [dr Hp]. apply I3 in Hp as [Hp|[_ Hn]]; [by rewrite lookup_empty in Hp|].
        destruct (filled_all dr_ExecutionID recs ∅ rec Hin') as [? Hs]. unfold completed in Hn. congruence.
  - cbn. intros id dr Hp. apply I3 in Hp as [Hp|[Hr _]]; [by rewrite lookup_empty in Hp|done].
  - cbn. intros id dr Hr Hx. destruct (completed !! id) as [rec|] eqn:Ec; [right; exists rec; by apply Hcomp|left].
    apply I5; try done. apply kind_names_spec. destruct Hr as (_ & _ & data & Hd & _). by exists data.
  - cbn. intros id rec Hf Hx. destruct (filled_all receipt_hash recs ∅ rec (Hlive _ _ Hf Hx)) as [rec' Hs].
    pose proof Hs as Hs'. apply filled_Some in Hs' as [[Hin Hh]|Hs']; [|by rewrite lookup_empty in Hs'].
    apply Hrecs in Hin as (id' & _ & Hf' & Hx'). by exists id', rec'.
Qed.

Lemma life_consistent engine w : life engine w -> consistent w.
Proof.
  induction 1 as [now removes w Hn|w o Hlife IH Ho|w now removes w' Hlife IH Hn].
  - pose proof (load_ok engine now removes ∅) as Hl. rewrite Hn in Hl. apply Hl. split.
    + intros name [t Ht]. by rewrite lookup_empty in Ht.
    + intros id rec dr (_ & _ & _ & t & Ht & _). by rewrite lookup_empty in Ht.
  - by apply run_consistent.
  - destruct IH as (_ & _ & Hload & _). pose proof (load_ok engine now removes _ Hload) as Hl. rewrite Hn in Hl. apply Hl.
Qed.

(** C39.  Take an engine without a local operator that began on an empty directory,
    was asked for requests with ids of their own, and met writes that fail but
    tear no file.  Wherever it stops, between two file operations or inside a
    handler, it starts again on what is left, unless the file of a request that
    a live receipt has completed cannot be removed; and then every live request
    is still pending or decided by a receipt made for it, and every request it
    had decided has a live, verified decision: the very same one, when no other
    receipt is on file for that server, tool, session and agent. *)
Theorem restart_keeps (engine : option Approval.Engine) (w : World) (now : Z) (removes : string -> bool)
    (Hlife : life engine w) :
  match NewDurableEngine engine stateDir pubKey false now removes (wd_dir w) with
  | Err _ => exists id rec, receipt_file (wd_dir w) id rec /\ IsExpired rec now = false /\
      is_Some (wd_dir w !! file_name "pending" id) /\ removes (file_name "pending" id) = false
  | Ok w' =>
    (forall id dr, du_pending (wd_engine w) !! id = Some dr -> now < dq_ExpiresAt dr ->
      du_pending (wd_engine w') !! id = Some dr \/
      exists rec, receipt_file (wd_dir w) id rec /\ receiptMatchesPending rec dr = true /\ IsExpired rec now = false) /\
    (forall h rec, du_receipts (wd_engine w) !! h = Some rec -> IsExpired rec now = false ->
      exists rec', du_receipts (wd_engine w') !! h = Some rec' /\ sound_receipt rec' /\ receipt_hash rec' = h /\
        IsExpired rec' now = false /\
        ((forall id r, receipt_file (wd_dir w) id r -> receipt_hash r = h -> r = rec) -> rec' = rec))
  end.
Proof.
  destruct (life_consistent _ _ Hlife) as (_ & _ & Hload & Hp & Hr).
  pose proof (load_ok engine now removes _ Hload) as Hl.
  destruct (NewDurableEngine _ _ _ _ _ _ _) as [w'|err]; [|exact Hl].
  destruct Hl as (_ & _ & Hpending & Hreceipts). split.
  - intros id dr Hd Hx. apply Hp in Hd as Hf. destruct (Hpending _ _ Hf Hx) as [?|(rec & Hrec & Hlive)]; [by left|right].
    exists rec. split_and!; [done| |done]. by apply (proj2 Hload id).
  - intros h rec Hd Hx. destruct (Hr _ _ Hd) as (-> & Hf & _).
    destruct (Hreceipts _ _ Hf Hx) as (id & rec' & Hl & Hf' & Hx' & Hh). exists rec'.
    split_and!; [done|by destruct Hf' as (_ & _ & ? & _)|done..|]. intros Hu. by apply (Hu id).
Qed.
End restart.
End durable.

(** ** Witnesses *)

Module DurableWitness.
#[local] Existing Instances plain_quote.
#[local] Instance digest : GoCrypto := {| sha256_hex := fun s => s |}.
#[local] Instance signing : DecisionJSON := {|
  marshal_decision := fun r => Some (dr_ExecutionID r); evidence_args := fun _ => ""; evidence_chain := fun _ => "" |}.
(** Signatures of the text "ok" are valid. *)
#[local] Instance crypto : AssertionCrypto := {|
  ed25519_Verify := fun _ _ sig => sig =s? "ok"; marshal_claims := fun _ => None; marshal_unsigned := fun _ _ => None |}.
Definition key : string := "01234567890123456789012345678901".

Definition ask (id : string) (to : string) : Approval.Request := {|
  Approval.ar_ReqID := id; Approval.ar_Tool := "send"; Approval.ar_Server := "mail";
  Approval.ar_Arguments := [("to", AString to)]; Approval.ar_Reason := "why"; Approval.ar_RiskLevel := "high";
  Approval.ar_SessionID := "s"; Approval.ar_AgentID := "c" |}.
Definition at_nano (n : Z) : dtick -> Z := fun _ => n.
Definition hour : Z := 3600.
Definition receipt (id decision : string) : DecisionReceipt := {|
  dr_ExecutionID := id; dr_SessionID := "s"; dr_AgentID := "c"; dr_Server := "mail"; dr_Tool := "send";
  dr_OriginalRequest := ""; dr_RedactedArgs := ""; dr_PolicyVersion := ""; dr_PolicyHash := "";
  dr_ChainContextHash := ""; dr_ApprovalReason := "no"; dr_RiskLevel := "high"; dr_ApproverID := "ann";
  dr_Decision := decision; dr_Expiry := hour; dr_Nonce := ""; dr_KeyID := ""; dr_Algorithm := ""; dr_PublicKey := "";
  dr_Signature := "6f6b" |}.
Definition first : DecisionReceipt := receipt "exec-1-a" "deny".
Definition second : DecisionReceipt := receipt "exec-2-b" "approve".
Definition requests : list durableRequest := [new_pending (ask "a" "ann") (at_nano 1); new_pending (ask "b" "bob") (at_nano 2)].
(** What is on disk is the id, and stands for the request or receipt of that
    id. *)
#[local] Instance json : DurableJSON := {|
  encode_request := fun dr => Some (dq_ID dr);
  decode_request := fun t => List.find (fun dr => dq_ID dr =s? t) requests;
  encode_receipt := fun r => Some (dr_ExecutionID r);
  decode_receipt := fun t => List.find (fun r => dr_ExecutionID r =s? t) [first; second];
  fmt_arguments := fun _ => "" |}.

Definition yes : string -> bool := fun _ => true.
Definition start : World := {| wd_engine := {| du_engine := None; du_stateDir := "/state"; du_pubKey := key;
  du_pending := ∅; du_receipts := ∅ |}; wd_dir := ∅ |}.
Definition restarted (w : World) : result World := NewDurableEngine None "/state" key false 3 yes (wd_dir w).
Definition both_asked : list op := [OPend (ask "a" "ann") (at_nano 1) WriteOk; OPend (ask "b" "bob") (at_nano 2) WriteOk].
Definition answered (w : World) (to : string) : option bool :=
  dd_Approved <$> (RequestApproval w (ask "c" to) (at_nano 3) (fun _ => (false, None)) (fun w => w) None WriteOk).2.1.

(** The second request is approved, then the first denied: the denial holds
    until a restart, which lets the approval win. *)
Example restart_flips :
  let w := runs start (both_asked ++ [OSubmit "exec-2-b" 3 WriteOk true; OSubmit "exec-1-a" 3 WriteOk true]) in
  answered w "bob" = Some false /\
  match restarted w with Ok w' => answered w' "bob" = Some true | Err _ => False end.
Proof. vm_compute. by split. Qed.

(** An approval holds for every later call of the tool in the session,
    whatever its arguments. *)
Example approval_ignores_arguments :
  let w := runs start (both_asked ++ [OSubmit "exec-2-b" 3 WriteOk true]) in answered w "eve" = Some true.
Proof. vm_compute. reflexivity. Qed.

(** A torn write keeps the engine from starting. *)
Example torn_write_stops :
  match restarted (runs start [OPend (ask "a" "ann") (at_nano 1) (WriteErr (Some "exec"))]) with Err _ => True | Ok _ => False end.
Proof. vm_compute. exact I. Qed.
End DurableWitness.

Section durable_witness.
Import DurableWitness.
#[local] Existing Instances plain_quote digest signing crypto json.

Lemma approval_vouched_witness : let before := both_asked ++ [OSubmit "exec-2-b" 3 WriteOk true] in
  exists rec, dr_Decision rec = "approve" /\ dr_Tool rec = "send" /\ vouched key [] rec.
Proof.
  intros before. destruct (approval_vouched None "/state" key false 0 yes ∅ start before [] (ask "c" "eve") (at_nano 3)
    (fun _ => (false, None)) None WriteOk (runs start before) (durable_decision true "" "exec-2-b" (Some second)) None)
    as [(eng & ? & _)|(rec & _ & Hd & _ & _ & Ht & _ & _ & Hv)]; [vm_compute; reflexivity..|discriminate|].
  by exists rec.
Defined.

Lemma restart_keeps_witness : let w := run start (OPend (ask "a" "ann") (at_nano 1) WriteOk) in
  exists w', restarted w = Ok w' /\ is_Some (du_pending (wd_engine w') !! "exec-1-a").
Proof.
  intros w. assert (life "/state" key None w) as Hlife.
  { apply life_run; [by apply (life_start _ _ _ 0 yes)|]. split_and!; try done; [by intros data [= <-]|..]; vm_compute; reflexivity. }
  pose proof (restart_keeps "/state" key ltac:(discriminate) ltac:(intros text rec data Hd He;
    vm_compute in Hd, He |- *; destruct text as [|c text]; [discriminate|]; injection He as <-;
    repeat (case_match; try discriminate; simplify_eq); reflexivity) None w 3 yes Hlife) as Hk.
  unfold restarted. destruct (NewDurableEngine _ _ _ _ _ _ _) as [w'|err]; [|by destruct Hk as (id & rec & _ & _ & _ & ?)].
  destruct Hk as [Hp _]. exists w'. split; [done|].
  destruct (Hp "exec-1-a" (new_pending (ask "a" "ann") (at_nano 1))) as [E|(rec & Hf & _)]; [vm_compute; reflexivity..|by rewrite E|].
  destruct Hf as (_ & _ & _ & data & Hl & _). vm_compute in Hl. discriminate.
Defined.
End durable_witness.
