(* ===== verification/Envelope.v ===== *)
(** The gate every client message passes: [internal/mcp/envelope.go],
    [canonicalize.go], [protocol.go] and [internal/proxy/client_envelope.go],
    and the relay of a message to the server ([relayClientToServer] and
    [logClientMessage] of [proxy.go]).

    JSON text is read by parameters ([WireJSON]): the token decoder gives the
    members of an object in order, duplicates included, as far as the text is
    well formed. *)
From stdpp Require Import base strings gmap list.
From Stdlib Require Import ZArith Lia Ascii.
From S2P Require Import Prelude GoStrings GoLib Lineage LineageRegistry ActorContext.
From S2P Require Import PolicyTypes PolicyRegistry Slots Engine OwnershipGate Session Taint Redaction.
From S2P Require Import Ledger InstructionAuthority InstructionAuth Trajectory.
From S2P Require Import GoPath Capability CapabilityEval CallArgs Proxy ToolsCall.
From S2P Require Approval Receipt.
#[local] Open Scope Z_scope.

Definition JSONRPCVersion : string := "2.0".
Definition MethodToolsCall : string := "tools/call".

(** [rq_ID] is [ANil] when absent or [null]; absent [params] are empty. *)
Record Request := { rq_JSONRPC : string; rq_ID : any; rq_Method : string; rq_Params : string }.
Definition tools_call_request (id : any) : Request := {|
  rq_JSONRPC := ""; rq_ID := id; rq_Method := MethodToolsCall; rq_Params := "" |}.
Definition zeroRequest : Request := {| rq_JSONRPC := ""; rq_ID := ANil; rq_Method := ""; rq_Params := "" |}.
Definition IsNotification (r : Request) : bool := match rq_ID r with ANil => true | _ => false end.

Class WireJSON := {
  (** [json.Unmarshal] into a [Request]: keys match in any case, the last
      member of a name wins, trailing data is an error *)
  unmarshal_request : string -> option Request;
  (** the members the token decoder yields from the object that starts the
      text, and the elements from the array; [None] when there is none *)
  object_members : string -> option (list (string * string));
  array_elements : string -> option (list string);
  (** [json.Unmarshal] into a [string], an [any], a [ToolsCallRequest] and a
      struct with the member [name] *)
  unmarshal_string : string -> option string;
  unmarshal_any : string -> option any;
  unmarshal_call : string -> option Engine.ToolsCallRequest;
  unmarshal_name : string -> option string;
  (** one value, decoded with [UseNumber] and encoded again; [None] when the
      text holds no value or more than one *)
  recode : string -> option string
}.

(** ** Classification *)

Inductive ClientEnvelopeKind :=
| EnvelopeForward | EnvelopeToolsCallRequest | EnvelopeToolsCallNotification | EnvelopeToolsCallMalformed.
Record ClientEnvelope := { cv_Kind : ClientEnvelopeKind; cv_Request : Request }.

Record clientEnvelopeScan := { sc_hasToolsCallMethod : bool; sc_methodCount : Z; sc_id : string }.
Definition no_scan : clientEnvelopeScan := {| sc_hasToolsCallMethod := false; sc_methodCount := 0; sc_id := "" |}.
Definition hasResponseID (s : clientEnvelopeScan) : bool := (sc_id s <>s? "") && (sc_id s <>s? "null").

Section envelope.
Context `{WireJSON}.

Definition line_end (c : ascii) : bool := Ascii.eqb LF c || Ascii.eqb CR c.
Definition json_space (c : ascii) : bool := Ascii.eqb " " c || Ascii.eqb TAB c || line_end c.
Definition trimEnvelopeJSON (raw : string) : string := TrimRightFn line_end raw.

Definition scan_member (scan : clientEnvelopeScan) (member : string * string) : clientEnvelopeScan :=
  let '(key, value) := member in
  if key =s? "method" then {|
    sc_hasToolsCallMethod := sc_hasToolsCallMethod scan ||
      match unmarshal_string value with Some method => method =s? MethodToolsCall | None => false end;
    sc_methodCount := sc_methodCount scan + 1; sc_id := sc_id scan |}
  else if key =s? "id" then {|
    sc_hasToolsCallMethod := sc_hasToolsCallMethod scan; sc_methodCount := sc_methodCount scan; sc_id := value |}
  else scan.
Definition scanClientEnvelope (data : string) : clientEnvelopeScan :=
  fold_left scan_member (default [] (object_members data)) no_scan.

Fixpoint scan_elements (elements : list string) : clientEnvelopeScan :=
  match elements with
  | [] => no_scan
  | element :: elements =>
      let s := scanClientEnvelope element in
      if sc_hasToolsCallMethod s then {| sc_hasToolsCallMethod := true; sc_methodCount := 1; sc_id := sc_id s |}
      else scan_elements elements
  end.
Definition scanBatchEnvelope (data : string) : clientEnvelopeScan := scan_elements (default [] (array_elements data)).

Definition decodePeekID (id : string) : any := default ANil (unmarshal_any id).

Definition classifyScannedToolsCall (scan : clientEnvelopeScan) : ClientEnvelope :=
  if negb (hasResponseID scan) then {| cv_Kind := EnvelopeToolsCallNotification; cv_Request := tools_call_request ANil |}
  else {| cv_Kind := EnvelopeToolsCallMalformed; cv_Request := tools_call_request (decodePeekID (sc_id scan)) |}.
Definition forward_envelope : ClientEnvelope := {| cv_Kind := EnvelopeForward; cv_Request := zeroRequest |}.
Definition classifyBatchEnvelope (data : string) : ClientEnvelope :=
  let scan := scanBatchEnvelope data in
  if negb (sc_hasToolsCallMethod scan) then forward_envelope else classifyScannedToolsCall scan.

Definition ClassifyClientEnvelope (raw : string) : ClientEnvelope :=
  let data := TrimLeft json_space (trimEnvelopeJSON raw) in
  if HasPrefix data "[" then classifyBatchEnvelope data
  else
    let scan := scanClientEnvelope data in
    match unmarshal_request data with
    | Some req =>
        if rq_Method req <>s? MethodToolsCall then
          if negb (sc_hasToolsCallMethod scan) then forward_envelope else classifyScannedToolsCall scan
        else if 1 <? sc_methodCount scan then classifyScannedToolsCall scan
        else {| cv_Request := req;
                cv_Kind := if IsNotification req then EnvelopeToolsCallNotification
                           else if rq_JSONRPC req <>s? JSONRPCVersion then EnvelopeToolsCallMalformed
                           else EnvelopeToolsCallRequest |}
    | None => if negb (sc_hasToolsCallMethod scan) then forward_envelope else classifyScannedToolsCall scan
    end.

(** [None] is an error. *)
Definition CanonicalizeJSONLine (raw : string) : option string :=
  let trimmed := TrimSpace raw in
  if trimmed =s? "" then None
  else out ← recode trimmed; Some (if last_byte_is LF raw then out +:+ String LF "" else out).

Definition toolNameFromToolsCallParams (params : string) : string :=
  if params =s? "" then "" else default "" (unmarshal_name params).
Definition originalArgumentBytes (params : string) : Z := Z.of_nat (String.length params).
End envelope.

(** ** The gate *)

Section intercept.
Context `{GoUnicode, GoPatterns, GoReplace, GoArch, GoTime, GoFmt, GoJSON, GoCrypto, SnapshotJSON, CapJSON}.
Context `{GoNetip, GoFS, EventJSON, GateJSON, AssertionCrypto, RawJSON, Receipt.DecisionJSON, Approval.GoDuration, WireJSON}.
Context (cfg : Config) (env : Env) (serverName : string).

Definition reasonNotificationToolsCallBlocked : string := "notification-form tools/call blocked".
Definition reasonInvalidToolsCallRequest : string := "invalid tools/call request".

Definition denyToolsCallEnvelope (toolName reason : string) (arguments : args) : M unit :=
  count IncrementProcessed ;;* count IncrementDenied ;;* logDenied cfg env serverName toolName arguments reason RiskUnknown.

(** The answer to a tools/call that is not a request the gate can check. *)
Definition invalid_request (raw : string) (req : Request) : M verdict :=
  respond (rq_ID req) reasonInvalidToolsCallRequest ;;*
  logDenied cfg env serverName (toolNameFromToolsCallParams (rq_Params req)) None reasonInvalidToolsCallRequest RiskUnknown ;;*
  count IncrementProcessed ;;* count IncrementDenied ;;* early raw "denied".

(** A well-formed tools/call: its canonical form is checked and relayed. *)
Definition intercept_call (raw : string) (classified : Request) : M verdict :=
  match CanonicalizeJSONLine raw with
  | None => invalid_request raw classified
  | Some canonical =>
      let again := ClassifyClientEnvelope canonical in
      match cv_Kind again with
      | EnvelopeToolsCallRequest =>
          let req := cv_Request again in
          match unmarshal_call (rq_Params req) with
          | None =>
              respond (rq_ID req) "invalid tools/call parameters" ;;*
              logDenied cfg env serverName "" None "invalid tools/call parameters" RiskUnknown ;;*
              early raw "denied"
          | Some callReq =>
              processToolsCall cfg env (rq_ID req) serverName callReq canonical canonical
                (originalArgumentBytes (rq_Params classified))
          end
      | _ => invalid_request raw classified
      end
  end.

Definition interceptClientToServerEnvelope (raw : string) : M verdict :=
  let envelope := ClassifyClientEnvelope raw in
  match cv_Kind envelope with
  | EnvelopeForward => early raw "forward"
  | EnvelopeToolsCallNotification =>
      denyToolsCallEnvelope (toolNameFromToolsCallParams (rq_Params (cv_Request envelope))) reasonNotificationToolsCallBlocked None ;;*
      early raw "denied"
  | EnvelopeToolsCallMalformed => invalid_request raw (cv_Request envelope)
  | EnvelopeToolsCallRequest => intercept_call raw (cv_Request envelope)
  end.

(** ** Relaying one message *)

Definition DecodeRequest (raw : string) : option Request :=
  req ← unmarshal_request raw; if rq_JSONRPC req =s? JSONRPCVersion then Some req else None.

(** The call is recorded under the configured server name. *)
Definition logClientMessage (raw : string) (now : Z) (p : Proxy) : Proxy :=
  match DecodeRequest raw with
  | None => p
  | Some req =>
      if IsNotification req || (rq_Method req <>s? MethodToolsCall) then p
      else match unmarshal_call (rq_Params req) with
      | None => p
      | Some call => set_session (RecordToolCall (px_session p) (cf_ServerName cfg) call "" now) p
      end
  end.

(** [encodeIfNotRevoked] refuses; the kill switch is on when a directory is
    configured ([Run] fails when its monitor could not be set up). *)
Definition encode_refused (p : Proxy) : bool := (cf_KillSwitchDir cfg <>s? "") && px_revoked p.

(** One turn of [relayClientToServer]: the message written to the server, if
    any, and whether the loop goes on; [written] tells whether the server took
    the message. *)
Definition relay_message (raw : string) (now : Z) (written : bool) (p : Proxy) : Proxy * (option string * bool) :=
  match interceptClientToServerEnvelope raw p with
  | (p, inr _) => (p, (None, true))
  | (p, inl (modified, action)) =>
      if action =s? "denied" then (p, (None, true))
      else
        let p := logClientMessage modified now p in
        if encode_refused p then (p, (None, false)) else (p, (Some modified, written))
  end.
End intercept.

(** The lines a client sends, each with what the world does in its turn, and
    the messages the loop writes to the server. *)
Record Turn := { tu_env : Env; tu_raw : string; tu_now : Z; tu_written : bool }.
Section loop.
Context `{GoUnicode, GoPatterns, GoReplace, GoArch, GoTime, GoFmt, GoJSON, GoCrypto, SnapshotJSON, CapJSON}.
Context `{GoNetip, GoFS, EventJSON, GateJSON, AssertionCrypto, RawJSON, Receipt.DecisionJSON, Approval.GoDuration, WireJSON}.
Fixpoint relayClientToServer (cfg : Config) (serverName : string) (turns : list Turn) (p : Proxy) : list string :=
  match turns with
  | [] => []
  | t :: turns =>
      match relay_message cfg (tu_env t) serverName (tu_raw t) (tu_now t) (tu_written t) p with
      | (p, (written, go)) => option_list written ++ if go then relayClientToServer cfg serverName turns p else []
      end
  end.
End loop.
