(* ===== verification/RelaySpec.v ===== *)
(** What reaches the server after the handshake: a line whose first value asks
    for a tools/call does not escape the gate, every call that is relayed has
    passed it, and over lines of one value a session relays no more calls than
    its limit. *)
From stdpp Require Import base strings gmap list.
From Stdlib Require Import ZArith Lia Ascii.
From S2P Require Import Prelude GoStrings GoLib Lineage LineageRegistry ActorContext.
From S2P Require Import PolicyTypes PolicyRegistry Slots Engine OwnershipGate Session Taint Redaction.
From S2P Require Import Ledger InstructionAuthority InstructionAuth Trajectory.
From S2P Require Import GoPath Capability CapabilityEval CallArgs Proxy ToolsCall Envelope.
From S2P Require Approval Receipt EngineSpec LedgerSpec CapabilitySpec.
From S2P Require Import ToolsCallSpec.
#[local] Open Scope Z_scope.

(** ** JSON values

    What a line asks for, whoever reads it: told from the values it holds, not
    from what the gate makes of its text. *)

Inductive json := JObject (members : list (string * json)) | JArray (elements : list json) | JString (s : string) | JOther.

(** An object with a member [method] that is [tools/call], among duplicates too;
    and the calls of a value, alone or in a batch. *)
Definition asks_call (v : json) : bool :=
  match v with
  | JObject members => existsb (fun m => (m.1 =s? "method") && match m.2 with JString s => s =s? MethodToolsCall | _ => false end) members
  | _ => false
  end.
Definition calls_of (v : json) : nat :=
  match v with JArray elements => length (filter (fun e => asks_call e = true) elements) | _ => if asks_call v then 1 else 0 end.

Definition envelope_data (raw : string) : string := TrimLeft json_space (trimEnvelopeJSON raw).

(** What [encoding/json] is relied on for.  [values] are the values a text holds
    from its start, as far as it is well formed, with the members of an object
    in order and duplicates included; [ordered] texts are those it has written,
    with the members of an object in order of their names. *)
Class ValueReading `{WireJSON, RawJSON} := {
  values : string -> list json;
  ordered : string -> Prop;
  (** space around a text is no part of it, and only an array starts with a bracket *)
  values_space raw : values (envelope_data raw) = values raw;
  values_start raw v rest : values raw = v :: rest ->
    HasPrefix (envelope_data raw) "[" = match v with JArray _ => true | _ => false end;
  (** the token decoder and [Unmarshal] read the same values *)
  values_object data members rest : values data = JObject members :: rest -> exists texts,
    object_members data = Some texts /\ Forall2 (fun t m => t.1 = m.1 /\ values t.2 = [m.2]) texts members;
  values_array data elements rest : values data = JArray elements :: rest -> exists texts,
    array_elements data = Some texts /\ Forall2 (fun t e => values t = [e]) texts elements;
  values_string text s : values text = [JString s] -> unmarshal_string text = Some s;
  (** a text that decodes as a request is one value, and no array *)
  request_space raw : unmarshal_request (envelope_data raw) = unmarshal_request raw;
  request_line text : unmarshal_request (text +:+ String LF "") = unmarshal_request text;
  request_value text req : unmarshal_request text = Some req -> exists v, values text = [v] /\ forall elements, v <> JArray elements;
  (** a member written anew is the one that is read, or one is read that was not written *)
  ordered_recode text out : recode text = Some out -> ordered out;
  ordered_marshal members out : marshal_raw members = Some out -> ordered out;
  ordered_end out : ordered out -> last_byte_is LF out = false;
  ordered_request data members params newParams out req :
    ordered data -> raw_object data = Some members -> members !! "params" = Some params ->
    marshal_raw (<["params" := newParams]> members) = Some out -> unmarshal_request data = Some req ->
    exists req', unmarshal_request out = Some req' /\ rq_JSONRPC req' = rq_JSONRPC req /\ rq_ID req' = rq_ID req /\
      rq_Method req' = rq_Method req /\
      ((is_Some (unmarshal_call (rq_Params req)) -> is_Some (unmarshal_call (rq_Params req'))) \/
       rq_Params req' = newParams /\ params = rq_Params req);
  (** neither the arguments nor [_meta] matter to whether params decode *)
  call_member params members key value newParams :
    raw_object params = Some members -> key = "arguments" \/ key = "_meta" ->
    marshal_raw (<[key := value]> members) = Some newParams -> is_Some (unmarshal_call params) -> is_Some (unmarshal_call newParams)
}.
Definition calls_in `{ValueReading} (text : string) : nat := sum_list_with calls_of (values text).

(** ** Classification *)

Section classification.
Context `{WireJSON}.

(** A member [method] of the object that starts [data] is [tools/call]. *)
Definition names_call (data : string) : Prop := exists members value,
  object_members data = Some members /\ In ("method", value) members /\ unmarshal_string value = Some MethodToolsCall.
(** Some reading of [data] is a tools/call: an object, decoded as a request or
    member by member, or an element of a batch. *)
Definition reads_as_call (data : string) : Prop :=
  if HasPrefix data "[" then exists elements element, array_elements data = Some elements /\ In element elements /\ names_call element
  else names_call data \/ exists req, unmarshal_request data = Some req /\ rq_Method req = MethodToolsCall.

Lemma scan_members_method members scan : sc_hasToolsCallMethod (fold_left scan_member members scan) = true <->
  sc_hasToolsCallMethod scan = true \/ exists value, In ("method", value) members /\ unmarshal_string value = Some MethodToolsCall.
Proof.
  revert scan. induction members as [|[key value] members IH]; intros scan; cbn [fold_left In]; [naive_solver|].
  rewrite IH. unfold scan_member at 1. destruct (key =s? "method") eqn:Ek; [|destruct (key =s? "id")].
  - apply str_eqb_true in Ek as ->. cbn. rewrite orb_true_iff.
    destruct (unmarshal_string value) as [method|] eqn:Ev; [|naive_solver]. rewrite str_eqb_true. naive_solver.
  - cbn. apply str_eqb_false in Ek. naive_solver.
  - apply str_eqb_false in Ek. naive_solver.
Qed.
Lemma scan_names_call data : sc_hasToolsCallMethod (scanClientEnvelope data) = true <-> names_call data.
Proof.
  unfold scanClientEnvelope, names_call. rewrite scan_members_method. cbn.
  destruct (object_members data) as [members|]; cbn; naive_solver.
Qed.
Lemma scan_batch_call data : sc_hasToolsCallMethod (scanBatchEnvelope data) = true <->
  exists elements element, array_elements data = Some elements /\ In element elements /\ names_call element.
Proof.
  unfold scanBatchEnvelope. destruct (array_elements data) as [elements|]; cbn; [|naive_solver].
  transitivity (exists element, In element elements /\ names_call element); [|naive_solver].
  induction elements as [|element elements IH]; cbn; [naive_solver|].
  destruct (sc_hasToolsCallMethod (scanClientEnvelope element)) eqn:Es.
  - apply scan_names_call in Es. cbn. naive_solver.
  - rewrite IH. assert (~ names_call element) by (rewrite <- scan_names_call, Es; done). naive_solver.
Qed.

Lemma classifyScanned_not_forward scan : cv_Kind (classifyScannedToolsCall scan) <> EnvelopeForward.
Proof. unfold classifyScannedToolsCall. by destruct (negb _). Qed.
Lemma classifyScanned_not_request scan : cv_Kind (classifyScannedToolsCall scan) <> EnvelopeToolsCallRequest.
Proof. unfold classifyScannedToolsCall. by destruct (negb _). Qed.

Lemma classify_forward raw : cv_Kind (ClassifyClientEnvelope raw) = EnvelopeForward <-> ~ reads_as_call (envelope_data raw).
Proof.
  unfold ClassifyClientEnvelope, reads_as_call. fold (envelope_data raw). set (data := envelope_data raw).
  destruct (HasPrefix data "[").
  - unfold classifyBatchEnvelope. rewrite <- scan_batch_call.
    destruct (sc_hasToolsCallMethod _); cbn; [|done]. split; [|done]. intros E. by apply classifyScanned_not_forward in E.
  - rewrite <- scan_names_call. destruct (unmarshal_request data) as [req|] eqn:Eu.
    + destruct (rq_Method req <>s? MethodToolsCall) eqn:Em.
      * apply str_neqb_true in Em. destruct (sc_hasToolsCallMethod _); cbn.
        -- split; [intros E; by apply classifyScanned_not_forward in E|naive_solver].
        -- split; [|done]. intros _ [?|(? & [= <-] & ?)]; done.
      * apply str_neqb_false in Em. split; [|intros Hn; destruct Hn; right; by exists req].
        destruct (1 <? _); [intros E; by apply classifyScanned_not_forward in E|]. cbn.
        destruct (IsNotification req); [done|]. by destruct (_ <>s? _).
    + destruct (sc_hasToolsCallMethod _); cbn.
      * split; [intros E; by apply classifyScanned_not_forward in E|naive_solver].
      * split; [|done]. intros _ [?|(? & ? & ?)]; done.
Qed.

(** A request the gate takes for a call is one, with an id and at most one
    member named [method]. *)
Lemma classify_request raw : cv_Kind (ClassifyClientEnvelope raw) = EnvelopeToolsCallRequest ->
  let req := cv_Request (ClassifyClientEnvelope raw) in
  unmarshal_request (envelope_data raw) = Some req /\ rq_Method req = MethodToolsCall /\ rq_ID req <> ANil /\
  rq_JSONRPC req = JSONRPCVersion.
Proof.
  unfold ClassifyClientEnvelope. fold (envelope_data raw). set (data := envelope_data raw).
  destruct (HasPrefix data "[").
  { unfold classifyBatchEnvelope. destruct (negb (sc_hasToolsCallMethod _)); [done|]. intros E. by apply classifyScanned_not_request in E. }
  destruct (unmarshal_request data) as [req|].
  - destruct (rq_Method req <>s? MethodToolsCall) eqn:Em.
    { destruct (negb (sc_hasToolsCallMethod _)); [done|]. intros E. by apply classifyScanned_not_request in E. }
    destruct (1 <? _); [intros E; by apply classifyScanned_not_request in E|]. cbn.
    destruct (IsNotification req) eqn:Ei; [done|]. destruct (rq_JSONRPC req <>s? JSONRPCVersion) eqn:Ej; [done|]. intros _. bools.
    split_and!; try done. intros E. unfold IsNotification in Ei. by rewrite E in Ei.
  - destruct (negb (sc_hasToolsCallMethod _)); [done|]. intros E. by apply classifyScanned_not_request in E.
Qed.
End classification.

(** ** What a line asks *)

Section asking.
Context `{ValueReading}.

Lemma asks_names data v members rest : values data = v :: rest -> v = JObject members -> asks_call v = true -> names_call data.
Proof.
  intros Hv -> Ha. destruct (values_object _ _ _ Hv) as (texts & Ht & Hall). cbn in Ha. apply existsb_exists in Ha as ([key w] & Hin & Hk).
  apply andb_true_iff in Hk as [Hk Hw]. cbn in *. apply str_eqb_true in Hk as ->. destruct w as [| |s|]; try done. apply str_eqb_true in Hw as ->.
  apply list_elem_of_In, list_elem_of_lookup in Hin as [i Hi].
  destruct (Forall2_lookup_r _ _ _ _ _ Hall Hi) as ([key value] & Hti & [Hkey Hval]). cbn in *. subst key.
  exists texts, value. split_and!; [done| |by apply values_string]. apply list_elem_of_In, list_elem_of_lookup. by exists i.
Qed.
Lemma asks_object v : asks_call v = true -> exists members, v = JObject members.
Proof. destruct v; try done. by eexists. Qed.
(** A line the gate takes for no call asks for none with its first value. *)
Lemma not_read_not_asked raw v rest : ~ reads_as_call (envelope_data raw) -> values raw = v :: rest -> calls_of v = 0%nat.
Proof.
  intros Hn Hv. pose proof (values_start _ _ _ Hv) as Hs. rewrite <- values_space in Hv. unfold reads_as_call in Hn. rewrite Hs in Hn.
  assert (Ho : (forall elements, v <> JArray elements) -> asks_call v = true -> False).
  { intros Ha Hc. pose proof (asks_object v Hc) as [members Em]. destruct v; try done. apply Hn. left. by eapply asks_names. }
  destruct v as [members|elements|s|]; cbn [calls_of].
  - destruct (asks_call _) eqn:E; [|done]. by destruct (Ho ltac:(done) eq_refl).
  - destruct (values_array _ _ _ Hv) as (texts & Ht & Hall).
    enough (forall e, In e elements -> asks_call e = false) as Hf.
    { clear -Hf. induction elements as [|e es IH]; [done|]. rewrite filter_cons_False; [apply IH; naive_solver|].
      rewrite Hf by by left. done. }
    intros e Hin. destruct (asks_call e) eqn:E; [|done]. apply list_elem_of_In, list_elem_of_lookup in Hin as [i Hi].
    destruct (Forall2_lookup_r _ _ _ _ _ Hall Hi) as (t & Hti & Het). pose proof (asks_object e E) as [members Em].
    destruct Hn. exists texts, t. split_and!; [done| |by eapply asks_names].
    apply list_elem_of_In, list_elem_of_lookup. by exists i.
  - done.
  - done.
Qed.
Lemma not_read_method raw req : ~ reads_as_call (envelope_data raw) -> unmarshal_request raw = Some req -> rq_Method req <> MethodToolsCall.
Proof.
  intros Hn Hreq Hm. pose proof Hreq as Hv. apply request_value in Hv as (v & Hv & Ha). apply values_start in Hv.
  unfold reads_as_call in Hn. destruct (HasPrefix _ "["); [by destruct v; try done; destruct (Ha elements)|].
  apply Hn. right. exists req. by rewrite request_space.
Qed.
Lemma request_calls raw req : unmarshal_request raw = Some req -> (calls_in raw <= 1)%nat.
Proof.
  intros (v & Hv & Hn)%request_value. unfold calls_in. rewrite Hv.
  destruct v as [members|elements|s|]; [|by destruct (Hn elements)|cbn; lia|cbn; lia]. cbn. destruct (existsb _ _); lia.
Qed.
End asking.


Section relay.
Context `{GoUnicode, GoPatterns, GoReplace, GoArch, GoTime, GoFmt, GoJSON, GoCrypto, SnapshotJSON, CapJSON}.
Context `{GoNetip, GoFS, EventJSON, GateJSON, AssertionCrypto, RawJSON, Receipt.DecisionJSON, Approval.GoDuration, WireJSON}.
Context `{!ValueReading} (cfg : Config).

(** ** What is relayed has been checked *)

(** Stages that only answer, log and return ["denied"]. *)
#[local] Hint Resolve early_refusing modify_refusing : stages.
Lemma refusing_denies {A} (m : M A) p p' v : within refusing m -> m p = (p', inl v) -> v.2 = "denied".
Proof. intros Hm Hr. specialize (Hm p). by rewrite Hr in Hm. Qed.
Lemma logDenied_refusing env serverName toolName a reason risk :
  within refusing (logDenied cfg env serverName toolName a reason risk).
Proof. unfold logDenied, logDeniedWithEvidence, log_event, forwardAudit. stage. Qed.
#[local] Hint Resolve logDenied_refusing : stages.
Lemma invalid_request_refusing env serverName raw req : within refusing (invalid_request cfg env serverName raw req).
Proof. unfold invalid_request, respond, count. stage. Qed.

(** The call [c], checked from [p] and relayed as [m]. *)
Definition checked_call (env : Env) (serverName : string) (p p' : Proxy) (callReq : Engine.ToolsCallRequest)
    (canonical : string) (n : Z) (m : string) : Prop :=
  exists c f, stripped_call callReq canonical canonical = Some c /\
    admitted cfg env serverName p c n (fc_snapshot f) (fc_call f) (fc_redacted f) /\ cleared cfg env serverName p f /\
    (egress_strict (e_policy (px_engine p)) -> approval_due env serverName p f -> granted cfg env serverName f) /\
    recorded serverName f p' (m, "forward").

Lemma intercept_forward env serverName raw p p' m action :
  interceptClientToServerEnvelope cfg env serverName raw p = (p', inl (m, action)) -> action <> "denied" ->
  (m = raw /\ p' = p /\ ~ reads_as_call (envelope_data raw)) \/
  (exists canonical req callReq, CanonicalizeJSONLine raw = Some canonical /\
    cv_Kind (ClassifyClientEnvelope raw) = EnvelopeToolsCallRequest /\
    cv_Kind (ClassifyClientEnvelope canonical) = EnvelopeToolsCallRequest /\
    req = cv_Request (ClassifyClientEnvelope canonical) /\ unmarshal_call (rq_Params req) = Some callReq /\
    processToolsCall cfg env (rq_ID req) serverName callReq canonical canonical
      (originalArgumentBytes (rq_Params (cv_Request (ClassifyClientEnvelope raw)))) p = (p', inl (m, action))).
Proof.
  unfold interceptClientToServerEnvelope. intros Hi Ha.
  destruct (cv_Kind (ClassifyClientEnvelope raw)) eqn:Ek.
  - injection Hi as <- <- _. left. split_and!; [done..|by apply classify_forward].
  - right. unfold intercept_call in Hi. destruct (CanonicalizeJSONLine raw) as [canonical|].
    2:{ by apply refusing_denies in Hi; [|apply invalid_request_refusing]. }
    destruct (cv_Kind (ClassifyClientEnvelope canonical)) eqn:Ec;
      try (by apply refusing_denies in Hi; [|apply invalid_request_refusing]).
    destruct (unmarshal_call _) as [callReq|] eqn:Eu.
    2:{ apply refusing_denies in Hi; [done|]. unfold respond. stage. }
    by exists canonical, (cv_Request (ClassifyClientEnvelope canonical)), callReq.
  - apply refusing_denies in Hi; [done|]. unfold denyToolsCallEnvelope, count. stage.
  - by apply refusing_denies in Hi; [|apply invalid_request_refusing].
Qed.

(** ** What a call leaves alone

    The engine and the history of calls: no stage touches them, and every
    stage that returns says ["denied"] or ["forward"].  An observation [obs]
    of the two is kept by a call if the approval wait keeps it. *)
Definition rest (p : Proxy) := (px_engine p, ss_ToolCalls (px_session p)).

Section kept.
Context {T : Type} (obs : Proxy -> T) (env : Env) (id : any) (serverName : string).
Context (Hobs : forall p p', rest p' = rest p -> obs p' = obs p).
Context (Hwait : forall p, obs (en_wait env p) = obs p).

Definition keeping : frame.
Proof.
  refine {| fr_Q := fun p p' => obs p' = obs p;
            fr_E := fun p p' v => obs p' = obs p /\ (v.2 = "denied" \/ v.2 = "forward") |}.
  - done.
  - congruence.
  - intros p p1 p2 v E [E' Hv]. split; [congruence|done].
Defined.

Lemma keep_modify f : (forall p, rest (f p) = rest p) -> within keeping (modify f).
Proof. intros Hf. apply within_modify. intros p. apply Hobs, Hf. Qed.
Lemma keep_update {A} (f : Proxy -> Proxy * A) : (forall p, rest (f p).1 = rest p) -> within keeping (update f).
Proof. intros Hf. apply within_update. intros p. apply Hobs, Hf. Qed.
Lemma keep_denied {A} raw : within keeping (early raw "denied" : M A). Proof. intros p. split; [done|by left]. Qed.
Lemma keep_forward {A} raw : within keeping (early raw "forward" : M A). Proof. intros p. split; [done|by right]. Qed.
Lemma keep_respond message : within keeping (respond id message). Proof. by apply keep_modify. Qed.
Lemma keep_count f : within keeping (count f). Proof. by apply keep_modify. Qed.
Lemma keep_log_event event : within keeping (log_event env event). Proof. by apply keep_modify. Qed.
Lemma keep_forwardAudit event : within keeping (forwardAudit event). Proof. by apply keep_modify. Qed.
Lemma keep_wait : within keeping (modify (en_wait env)). Proof. by apply within_modify. Qed.
#[local] Hint Resolve keep_denied keep_forward keep_respond keep_count keep_log_event keep_forwardAudit keep_wait : stages.
Lemma keep_logAudit event : within keeping (logAudit cfg env event). Proof. unfold logAudit. stage. Qed.
Lemma keep_deny_call message event : within keeping (deny_call env id message event). Proof. unfold deny_call. stage. Qed.
#[local] Hint Resolve keep_logAudit keep_deny_call : stages.
Lemma keep_logDeniedWithEvidence snapshot toolName a reason risk advice anomalous lin :
  within keeping (logDeniedWithEvidence cfg env serverName snapshot toolName a reason risk advice anomalous lin).
Proof. unfold logDeniedWithEvidence. stage. Qed.
#[local] Hint Resolve keep_logDeniedWithEvidence : stages.
Lemma keep_logDenied toolName a reason risk : within keeping (logDenied cfg env serverName toolName a reason risk).
Proof. unfold logDenied. stage. Qed.
Lemma keep_CommitAuthorization event : within keeping (CommitAuthorization env event).
Proof.
  apply keep_update. intros p. unfold rest.
  match goal with |- context [Ledger.CommitAuthorization ?a ?b ?c ?d ?e] => by destruct (Ledger.CommitAuthorization a b c d e) end.
Qed.
Lemma keep_try_reserve f : within keeping (try_reserve serverName f).
Proof.
  apply keep_update. intros p. unfold tryReserveDelegation, AddCheckDelegation.
  repeat case_match; by simplify_eq.
Qed.
Lemma keep_release_unit u : within keeping (release_unit u).
Proof.
  unfold release_unit. stage. apply keep_modify. intros p. unfold ReleaseDelegation. by destruct (0 <? ss_SpawnDepth (px_session p)).
Qed.
Lemma keep_mark_rules f rules : within keeping (mark_rules cfg env serverName f rules).
Proof.
  induction rules as [|rule rules IH]; cbn [mark_rules]; stage. apply keep_update. intros p.
  unfold AddTaint. by repeat case_match; simplify_eq.
Qed.
#[local] Hint Resolve keep_logDenied keep_CommitAuthorization keep_try_reserve keep_release_unit keep_mark_rules : stages.

Lemma keep_authority_gate c snapshot : within keeping (authority_gate cfg env id serverName c snapshot).
Proof.
  unfold authority_gate. stage. apply keep_update. intros p.
  pose proof (authority_verdict_session env serverName c snapshot (px_session p)) as Hs.
  destruct (authority_verdict env serverName c snapshot (px_session p)) as [s v]. apply (f_equal ss_ToolCalls) in Hs. cbn in Hs |- *. unfold rest. cbn. by rewrite Hs.
Qed.
Lemma keep_assessTrajectory toolName : within keeping (assessTrajectory serverName toolName).
Proof. unfold assessTrajectory. stage. by apply keep_modify. Qed.
Lemma keep_capability_stage f d : within keeping (capability_stage serverName f d).
Proof. unfold capability_stage. stage. by apply keep_modify. Qed.
#[local] Hint Resolve keep_authority_gate keep_assessTrajectory keep_capability_stage : stages.
Lemma keep_gates callReq raw originalRaw n : within keeping (gates cfg env id serverName callReq raw originalRaw n).
Proof.
  unfold gates, strip_identity, kinetic_gate, denyKineticRevoked, identity_gate, limits_gate, redact_call, sensitive_gate. stage.
Qed.
Lemma keep_commit_and_forward {A} f u event counted :
  within keeping (commit_and_forward cfg env id serverName f u event counted : M A).
Proof. unfold commit_and_forward, denyCommitFailure, markMatchingTaints. stage. Qed.
Lemma keep_ownership_gate f lin now : within keeping (ownership_gate cfg env id serverName f lin now).
Proof. unfold ownership_gate, denyOwnership. stage. Qed.
Lemma keep_denyDelegationCeiling {A} f lin artifact info :
  within keeping (denyDelegationCeiling cfg env id serverName f lin artifact info : M A).
Proof. unfold denyDelegationCeiling. stage. Qed.
#[local] Hint Resolve keep_gates keep_commit_and_forward keep_ownership_gate keep_denyDelegationCeiling : stages.
Lemma keep_requestApproval f lin reason ctx ev : within keeping (requestApproval cfg env serverName f lin reason ctx ev).
Proof. unfold requestApproval, sign_approval, approval_denied. stage. Qed.
#[local] Hint Resolve keep_requestApproval : stages.
Lemma keep_after_approval {A} f lin artifact rec :
  within keeping (after_approval cfg env id serverName f lin artifact rec : M A).
Proof. unfold after_approval, recheck_kinetic, recheck_lineage, recheck_actor, denyKineticRevoked. stage. Qed.
#[local] Hint Resolve keep_after_approval : stages.
Lemma keep_judged_call c snapshot a r : within keeping (judged_call cfg env id serverName c snapshot a r).
Proof.
  unfold judged_call, judge, ownership_stage, egress_stage, chain_stage, checkChain, reserve_stage, deny_stage, approval_stage,
    allow_stage. stage.
Qed.
#[local] Hint Resolve keep_judged_call : stages.
Lemma keep_call callReq raw originalRaw n : within keeping (processToolsCall cfg env id serverName callReq raw originalRaw n).
Proof. unfold processToolsCall. stage. Qed.
#[local] Hint Resolve keep_call : stages.
End kept.

Lemma call_action env id serverName callReq raw originalRaw n p p' v :
  processToolsCall cfg env id serverName callReq raw originalRaw n p = (p', inl v) -> v.2 = "denied" \/ v.2 = "forward".
Proof.
  intros Hp. pose proof (keep_call (fun _ => tt) env id serverName ltac:(done) ltac:(done) callReq raw originalRaw n p) as Hk.
  rewrite Hp in Hk. apply Hk.
Qed.


(** A revoked session relays nothing: neither a call nor any other message. *)
Lemma revoked_relays_nothing env serverName raw now written p :
  cf_KillSwitchDir cfg <> "" -> px_revoked p = true -> (relay_message cfg env serverName raw now written p).2.1 = None.
Proof.
  intros Hdir Hrev. unfold relay_message.
  destruct (interceptClientToServerEnvelope cfg env serverName raw p) as [p1 [[modified action]|?]] eqn:Ei; [|done].
  destruct (action =s? "denied") eqn:Ea; [done|]. apply str_eqb_false in Ea.
  apply intercept_forward in Ei as [(-> & -> & _)|(canonical & req & callReq & _ & _ & _ & _ & _ & Hp)]; [| |done].
  - assert (px_revoked (logClientMessage cfg raw now p) = true) as Hr.
    { unfold logClientMessage. by repeat case_match. }
    unfold encode_refused. rewrite Hr. apply str_neqb_true in Hdir. by rewrite Hdir.
  - exfalso. destruct (call_action _ _ _ _ _ _ _ _ _ _ Hp) as [E|E]; [done|]. cbn in E. subst action.
    apply forward_facts in Hp as (c & f & _ & [Hk _ _ _ _ _ _] & _); [|done]. unfold kineticGate in Hk.
    rewrite Hrev, orb_false_r in Hk. apply str_eqb_false in Hdir. by rewrite Hdir in Hk.
Qed.

(** ** A session's calls *)

(** [m] is a tools/call: the relay records it in the history. *)
Definition is_call (m : string) : bool :=
  match DecodeRequest m with
  | Some req => negb (IsNotification req || (rq_Method req <>s? MethodToolsCall)) &&
                bool_decide (is_Some (unmarshal_call (rq_Params req)))
  | None => false
  end.
Definition calls_made (p : Proxy) : nat := length (ss_ToolCalls (px_session p)).
Definition max_tools (p : Proxy) : Z := st_SessionMaxTools (p_Settings (e_policy (px_engine p))).
(** The calls the messages ask for, whatever the relay has recorded. *)
Definition calls_sent (ms : list string) : nat := sum_list_with calls_in ms.

Lemma logClientMessage_calls m now p :
  px_engine (logClientMessage cfg m now p) = px_engine p /\
  calls_made (logClientMessage cfg m now p) = (calls_made p + if is_call m then 1 else 0)%nat.
Proof.
  unfold logClientMessage, is_call, calls_made. destruct (DecodeRequest m) as [req|]; [|split; [done|lia]].
  destruct (_ || _); cbn [negb andb]; [split; [done|lia]|].
  destruct (unmarshal_call (rq_Params req)) as [call|]; cbn; [|split; [done|lia]].
  split; [done|]. by rewrite length_app.
Qed.

(** *** A call stays one

    The canonical form of a call decodes as a call, and so does what the gates
    make of it: without identity claims and authority metadata, and redacted. *)
Definition call_line (raw : string) : Prop := exists data, (raw = data \/ raw = data +:+ String LF "") /\ ordered data /\ is_call raw = true.

Lemma is_call_line text : is_call (text +:+ String LF "") = is_call text.
Proof. unfold is_call, DecodeRequest. by rewrite request_line. Qed.
Lemma body_line text : body_of_line (text +:+ String LF "") = text.
Proof.
  unfold body_of_line. induction text as [|c text IH]; [done|]. change (String c text +:+ ?s) with (String c (text +:+ s)).
  destruct (text +:+ String LF "") eqn:E; [by destruct text|]. by rewrite <- IH.
Qed.
Lemma body_none text : last_byte_is LF text = false -> body_of_line text = text.
Proof.
  unfold body_of_line. induction text as [|c text IH]; [done|]. cbn. destruct text as [|c' text].
  - cbn. destruct (Ascii.eqb LF c) eqn:E; rewrite ?E; done.
  - intros Hl. by rewrite IH.
Qed.
Lemma call_line_body raw : call_line raw -> ordered (body_of_line raw) /\ is_call (body_of_line raw) = true.
Proof.
  intros (data & [-> | ->] & Ho & Hc); [by rewrite body_none by by apply ordered_end|]. rewrite is_call_line in Hc. by rewrite body_line.
Qed.
Lemma call_line_make raw data : ordered data -> is_call data = true -> call_line (with_newline raw data).
Proof. intros Ho Hc. unfold with_newline. exists data. destruct (last_byte_is LF raw); rewrite ?is_call_line; auto. Qed.

Lemma is_call_spec text : is_call text = true <-> exists req, unmarshal_request text = Some req /\ rq_JSONRPC req = JSONRPCVersion /\
  rq_ID req <> ANil /\ rq_Method req = MethodToolsCall /\ is_Some (unmarshal_call (rq_Params req)).
Proof.
  unfold is_call, DecodeRequest. destruct (unmarshal_request text) as [req|]; cbn; [|naive_solver].
  destruct (rq_JSONRPC req =s? JSONRPCVersion) eqn:Ej; bools; [|split; [done|]; intros (? & [= <-] & ? & _); done].
  rewrite andb_true_iff, negb_true_iff, orb_false_iff, str_neqb_false, bool_decide_eq_true. unfold IsNotification. split.
  - intros [[Hi Hm] Hc]. exists req. split_and!; try done. intros E. by rewrite E in Hi.
  - intros (? & [= <-] & _ & Hi & Hm & Hc). split_and!; try done. by destruct (rq_ID req).
Qed.
(** Params written anew, with one of their members replaced. *)
Lemma call_line_params raw members params pm key value newParams out :
  call_line raw -> raw_object (body_of_line raw) = Some members -> members !! "params" = Some params ->
  raw_object params = Some pm -> key = "arguments" \/ key = "_meta" -> marshal_raw (<[key := value]> pm) = Some newParams ->
  marshal_raw (<["params" := newParams]> members) = Some out -> call_line (with_newline raw out).
Proof.
  intros [Ho Hc]%call_line_body Hm Hp Hpm Hk Hn Hout. apply call_line_make; [by eapply ordered_marshal|].
  apply is_call_spec in Hc as (req & Hr & Hj & Hi & Hme & Hcall). apply is_call_spec.
  destruct (ordered_request _ _ _ _ _ _ Ho Hm Hp Hout Hr) as (req' & Hr' & Ej & Ei & Em & Hpar). exists req'.
  rewrite Ej, Ei, Em. split_and!; try done. destruct Hpar as [?|[-> ->]]; [auto|]. by eapply call_member.
Qed.
Lemma rewritten_call raw args out : call_line raw -> rewriteArgs raw args = Some out -> call_line out.
Proof.
  intros Hl. unfold rewriteArgs. intros (members & Hm & Hr)%bind_Some. apply bind_Some in Hr as (params & Hp & Hr).
  apply bind_Some in Hr as (pm & Hpm & Hr). apply bind_Some in Hr as (na & _ & Hr). apply bind_Some in Hr as (np & Hn & Hr).
  apply bind_Some in Hr as (data & Hd & [= <-]). by apply (call_line_params raw members params pm "arguments" na np data); auto.
Qed.
Lemma stripped_meta_call raw out : call_line raw -> stripInstructionAuthorityMeta raw = Some out -> call_line out.
Proof.
  intros Hl. unfold stripInstructionAuthorityMeta. intros (members & Hm & Hr)%bind_Some. apply bind_Some in Hr as (params & Hp & Hr).
  case_guard; [|done]. cbn in Hr. apply bind_Some in Hr as (pm & Hpm & Hr). apply bind_Some in Hr as (metaRaw & _ & Hr).
  case_guard; [|done]. cbn in Hr. apply bind_Some in Hr as (meta & _ & Hr). apply bind_Some in Hr as (? & _ & Hr).
  apply bind_Some in Hr as (nm & _ & Hr). apply bind_Some in Hr as (np & Hn & Hr). apply bind_Some in Hr as (data & Hd & [= <-]).
  by apply (call_line_params raw members params pm "_meta" nm np data); auto.
Qed.
Lemma admitted_call env serverName p c n snapshot c' a : call_line (ct_raw c) -> admitted cfg env serverName p c n snapshot c' a ->
  call_line (ct_raw c').
Proof.
  intros Hl Had. destruct (ad_call _ _ _ _ _ _ _ _ _ Had) as (c1 & Hau & ->). cbn.
  assert (call_line (ct_raw c1)) as Hl1.
  { unfold authorized in Hau. destruct (px_authorize p); [|by subst]. destruct Hau as (s & stripped & Hv & ->). cbn.
    apply (stripped_meta_call (ct_raw c)); [done|]. unfold authority_verdict in Hv.
    destruct (classifyInstructionAuthorityEnvelope _); [done|]. destruct (ie_Assertion _); [|done].
    destruct (stripInstructionAuthorityMeta _) as [out|]; [|done]. destruct (verifyInstructionAuthorityAssertion _ _ _ _ _ _ _) as [s1 e].
    destruct (e <>s? ""); [done|]. destruct (Authorize _ _) as [[] reason]; [|done]. by injection Hv as _ <-. }
  unfold redacted_raw. destruct (re_Redacted _); [|done]. destruct (rewriteArgs _ _) eqn:E; cbn; [|done]. by eapply rewritten_call.
Qed.
Lemma stripped_line callReq raw originalRaw c : call_line raw -> stripped_call callReq raw originalRaw = Some c -> call_line (ct_raw c).
Proof.
  intros Hl. unfold stripped_call. destruct (StripArgumentIdentity _) as [s []]; [|by intros [= <-]].
  intros (out & Hr & ->)%fmap_Some. cbn. by eapply rewritten_call.
Qed.
Lemma canonical_call raw canonical callReq : CanonicalizeJSONLine raw = Some canonical ->
  cv_Kind (ClassifyClientEnvelope canonical) = EnvelopeToolsCallRequest ->
  unmarshal_call (rq_Params (cv_Request (ClassifyClientEnvelope canonical))) = Some callReq -> call_line canonical.
Proof.
  intros Hc Hk Hu. destruct (classify_request _ Hk) as (Hr & Hm & Hi & Hj). rewrite request_space in Hr.
  assert (is_call canonical = true) as Hcall by (apply is_call_spec; eauto 10).
  unfold CanonicalizeJSONLine in Hc. destruct (TrimSpace raw =s? ""); [done|]. apply bind_Some in Hc as (out & Ho & [= <-]).
  exists out. split_and!; [destruct (last_byte_is LF raw); auto|by eapply ordered_recode|done].
Qed.

Lemma keep_intercept {T} (obs : Proxy -> T) env serverName raw :
  (forall p p', rest p' = rest p -> obs p' = obs p) -> (forall p, obs (en_wait env p) = obs p) ->
  within (keeping obs) (interceptClientToServerEnvelope cfg env serverName raw).
Proof.
  intros Hobs Hwait.
  pose proof (fun id => keep_respond obs id Hobs) as H1'. pose proof (keep_count obs Hobs) as H2'.
  pose proof (fun t a r k => keep_logDenied obs env serverName Hobs t a r k) as H3'.
  pose proof (fun id c m o n => keep_call obs env id serverName Hobs Hwait c m o n) as H4'.
  pose proof (fun A m => @keep_denied T obs A m) as H5'. pose proof (fun A m => @keep_forward T obs A m) as H6'.
  unfold interceptClientToServerEnvelope, intercept_call, invalid_request, denyToolsCallEnvelope. stage; auto.
Qed.

(** What a forwarded call or a line forwarded as it is asks for. *)
Lemma forwarded_calls env serverName raw p p1 m action : (length (values raw) <= 1)%nat ->
  interceptClientToServerEnvelope cfg env serverName raw p = (p1, inl (m, action)) -> action <> "denied" ->
  (is_call m = false /\ calls_in m = 0%nat) \/
  (is_call m = true /\ (calls_in m <= 1)%nat /\ (0 < max_tools p -> Z.of_nat (calls_made p) < max_tools p)).
Proof.
  intros Hone Hi Ha. apply intercept_forward in Hi as [(-> & _ & Hn)|(canonical & req & callReq & Hc & _ & Hk & -> & Hu & Hp)]; [| |done].
  - left. split.
    + destruct (is_call raw) eqn:E; [|done]. apply is_call_spec in E as (req & Hr & _ & _ & Hm & _). by apply not_read_method in Hr.
    + unfold calls_in. destruct (values raw) as [|v [|]] eqn:Ev; [done| |cbn in Hone; lia].
      cbn. by rewrite (not_read_not_asked raw v []).
  - right. destruct (call_action _ _ _ _ _ _ _ _ _ _ Hp) as [E|E]; [done|]. cbn in E. subst action.
    apply forward_facts in Hp as (c & f & Hs & Had & _ & [Hraw _] & _); [|done]. cbn in Hraw.
    assert (call_line m) as Hl.
    { rewrite Hraw. eapply admitted_call; [|done]. eapply stripped_line; [|done]. by eapply canonical_call. }
    destruct Hl as (data & Hd & _ & Hcall). split_and!; [done| |].
    + apply is_call_spec in Hcall as (r & Hr & _). by eapply request_calls.
    + intros Hpos. destruct Had as [_ _ _ Hlim _ _ _]. unfold evaluateRuntimeLimits in Hlim. fold (max_tools p) in Hlim.
      destruct (_ && _) in Hlim; [done|]. rewrite (proj2 (Z.ltb_lt _ _) Hpos) in Hlim. cbn [andb] in Hlim.
      destruct (max_tools p <=? ToolCallCount (px_session p)) eqn:E2; [done|]. by apply Z.leb_gt in E2.
Qed.
Lemma relay_message_calls env serverName raw now written p p' r go : (length (values raw) <= 1)%nat ->
  (forall p, rest (en_wait env p) = rest p) -> 0 < max_tools p -> Z.of_nat (calls_made p) <= max_tools p ->
  relay_message cfg env serverName raw now written p = (p', (r, go)) ->
  px_engine p' = px_engine p /\ (calls_made p + calls_sent (option_list r) <= calls_made p')%nat /\
  Z.of_nat (calls_made p') <= max_tools p.
Proof.
  intros Hone Hwait Hpos Hmax. unfold relay_message.
  pose proof (keep_intercept rest env serverName raw ltac:(done) Hwait p) as Hk. unfold rest in Hk.
  destruct (interceptClientToServerEnvelope cfg env serverName raw p) as [p1 [[modified action]|[]]] eqn:Ei.
  1: destruct Hk as [Hk _].
  all: cbn in Hk; injection Hk as He Hc.
  all: assert (Hm1 : calls_made p1 = calls_made p) by (unfold calls_made; by rewrite Hc).
  2:{ intros [= <- <- _]. cbn. split_and!; [done|lia|lia]. }
  destruct (action =s? "denied") eqn:Ea; [intros [= <- <- _]; cbn; split_and!; [done|lia|lia]|].
  apply str_eqb_false in Ea. destruct (logClientMessage_calls modified now p1) as [He2 Hc2].
  pose proof (forwarded_calls _ _ _ _ _ _ _ Hone Ei Ea) as Hf.
  destruct (encode_refused _ _); intros [= <- <- _]; rewrite He2, Hc2, Hm1; unfold calls_sent; cbn -[calls_made calls_in max_tools];
    destruct Hf as [[-> ?]|(-> & ? & Hlim)]; try specialize (Hlim Hpos); (split_and!; [done|lia|lia]).
Qed.

End relay.

(** A line of two values is not one request, and the members of the second are
    not looked at: it reaches the server as it is, whatever it asks. *)
Section trailing.
Context `{GoUnicode, GoPatterns, GoReplace, GoArch, GoTime, GoFmt, GoJSON, GoCrypto, SnapshotJSON, CapJSON}.
Context `{GoNetip, GoFS, EventJSON, GateJSON, AssertionCrypto, RawJSON, Receipt.DecisionJSON, Approval.GoDuration, WireJSON}.
Lemma second_value_unchecked cfg env serverName raw now p :
  HasPrefix (envelope_data raw) "[" = false -> unmarshal_request (envelope_data raw) = None -> ~ names_call (envelope_data raw) ->
  encode_refused cfg (logClientMessage cfg raw now p) = false ->
  (relay_message cfg env serverName raw now true p).2 = (Some raw, true).
Proof.
  intros Hb Hu Hm Hr. assert (Hf : cv_Kind (ClassifyClientEnvelope raw) = EnvelopeForward).
  { apply classify_forward. unfold reads_as_call. rewrite Hb, Hu. intros [?|(? & ? & _)]; done. }
  unfold relay_message, interceptClientToServerEnvelope. rewrite Hf. cbn -[encode_refused]. by rewrite Hr.
Qed.
End trailing.

(** ** Witnesses *)

Module RelayWitness.
Import CallWitness.
#[local] Existing Instances ascii_unicode amd64 decimal_time plain_quote coded_snapshot
  EngineSpec.EngineWitness.anchored LedgerSpec.AuditWitness.no_patterns CapabilitySpec.CapabilityWitness.netip
  CapabilitySpec.CapabilityWitness.fs CapabilitySpec.CapabilityWitness.json LedgerSpec.AuditWitness.no_read
  GateWitness.json AssertionWitness.crypto Receipt.ReceiptWitness.json digest arguments opaque duration.

Fixpoint squeeze (s : string) : string :=
  match s with "" => "" | String c s => if json_space c then squeeze s else String c (squeeze s) end.
Lemma squeeze_TrimLeft s : squeeze (TrimLeft json_space s) = squeeze s.
Proof. induction s as [|c s IH]; cbn; [done|]. destruct (json_space c) eqn:E; [done|]. cbn. by rewrite E. Qed.
Lemma squeeze_TrimRight s : squeeze (TrimRightFn line_end s) = squeeze s.
Proof.
  induction s as [|c s IH]; [done|]. cbn [TrimRightFn]. destruct (TrimRightFn line_end s) as [|c' t] eqn:E.
  - destruct (line_end c) eqn:El; cbn [squeeze]; rewrite <- IH; cbn; [|done].
    unfold json_space. by rewrite El, orb_true_r.
  - cbn [squeeze] in *. by rewrite <- IH.
Qed.

Lemma squeeze_line s : squeeze (s +:+ String LF "") = squeeze s.
Proof.
  induction s as [|c s IH]; [done|]. change (String c s +:+ ?t) with (String c (s +:+ t)). cbn [squeeze]. by rewrite IH.
Qed.
Lemma squeeze_envelope raw : squeeze (envelope_data raw) = squeeze raw.
Proof. unfold envelope_data, trimEnvelopeJSON. by rewrite squeeze_TrimLeft, squeeze_TrimRight. Qed.
Lemma squeeze_bracket s : HasPrefix s "[" = true -> HasPrefix (squeeze s) "[" = true.
Proof. destruct s as [|c s]; [done|]. intros Hp. cbn in Hp. by destruct c as [[] [] [] [] [] [] [] []]. Qed.

(** [call] is a tools/call of id 1; [two] is a ping followed by such a call;
    any other text but an array is a string. *)
#[local] Instance wire : WireJSON := {|
  unmarshal_request := fun data => if squeeze data =s? "call" then Some {| rq_JSONRPC := JSONRPCVersion;
    rq_ID := AString "1"; rq_Method := MethodToolsCall; rq_Params := "params" |} else None;
  object_members := fun data => if squeeze data =s? "call" then Some [("method", MethodToolsCall); ("id", "1")]
                                else Some [("method", "ping")];
  array_elements := fun _ => None; unmarshal_string := fun text => Some (squeeze text); unmarshal_any := fun _ => Some (AString "1");
  unmarshal_call := fun _ => Some call; unmarshal_name := fun _ => Some "send";
  recode := fun text => if last_byte_is LF text then None else Some text |}.
Definition a_call : json := JObject [("method", JString MethodToolsCall); ("id", JString "1")].
Definition toy_values (text : string) : list json :=
  let s := squeeze text in
  if s =s? "call" then [a_call] else if s =s? "two" then [JObject [("method", JString "ping")]; a_call]
  else if HasPrefix s "[" then [] else [JString s].
#[local] Instance reading : ValueReading.
Proof.
  refine {| values := toy_values; ordered := fun text => last_byte_is LF text = false |}; cbn; try done.
  - intros raw. unfold toy_values. by rewrite squeeze_envelope.
  - intros raw v rest. unfold toy_values. pose proof (squeeze_bracket (envelope_data raw)) as Hb. rewrite squeeze_envelope in Hb.
    assert (forall s, squeeze raw = s -> HasPrefix s "[" = false -> HasPrefix (envelope_data raw) "[" = false) as Hn.
    { intros s <- Hs. destruct (HasPrefix (envelope_data raw) "["); [|done]. by rewrite Hb in Hs. }
    destruct (squeeze raw =s? "call") eqn:E1; bools; [intros [= <- _]; by eapply Hn|].
    destruct (squeeze raw =s? "two") eqn:E2; bools; [intros [= <- _]; by eapply Hn|].
    destruct (HasPrefix (squeeze raw) "[") eqn:E3; [done|]. intros [= <- _]. by eapply Hn.
  - intros data members rest. unfold toy_values.
    destruct (squeeze data =s? "call"); [intros [= <- _]; eexists; split; [done|]; by repeat constructor|].
    destruct (squeeze data =s? "two"); [intros [= <- _]; eexists; split; [done|]; by repeat constructor|].
    by destruct (HasPrefix _ _).
  - intros data elements rest. unfold toy_values. by repeat case_match.
  - intros text s. unfold toy_values. repeat case_match; try done. by intros [= ->].
  - intros raw. by rewrite squeeze_envelope.
  - intros text. by rewrite squeeze_line.
  - intros text req. unfold toy_values. destruct (squeeze text =s? "call"); [|done]. intros _. by exists a_call.
  - intros text out. by destruct (last_byte_is LF text) eqn:E; [|intros [= <-]].
Defined.

(** One call in a session. *)
Definition one_call : Proxy :=
  let p := policy [] in
  let s := start [] [] in
  let pol := {| p_Version := p_Version p; p_Description := p_Description p; p_DefaultAction := p_DefaultAction p;
    p_Settings := {| st_MaxArgumentSizeBytes := 0; st_MaxOutputSizeBytes := 0; st_SessionMaxTools := 1;
      st_SessionTimeoutSecs := 0; st_ApprovalTimeoutSecs := 0; st_MaxSpawnDepth := 0; st_ChainWindowSize := 0;
      st_LogLevel := ""; st_CapabilityEval := false; st_InstructionAuthorityContinuity := false;
      st_InstructionAuthorityKeys := []; st_RequireVerifiedActor := false |};
    p_Servers := [RegistryWitness.server "mail" [RegistryWitness.tool "send" []]]; p_ToolChains := []; p_Taints := [];
    p_EgressControls := []; p_Identities := []; p_TimeRestrictions := []; p_Redaction := p_Redaction p;
    p_CapabilityOwnership := None; p_Identity := None; p_Trajectories := [] |} in
  {| px_engine := Engine.NewEngine (Some pol); px_redactor := px_redactor s; px_session := px_session s;
     px_audit := px_audit s; px_metrics := px_metrics s; px_advisor := None; px_authorize := false; px_keys := ∅;
     px_capEval := None; px_capStepID := 0; px_capLastHash := ""; px_revoked := false; px_responses := [];
     px_forwarded := [] |}.
Definition turn (line : string) : Turn := {| tu_env := env "yes"; tu_raw := line; tu_now := 0; tu_written := true |}.
Example second_call_refused : relayClientToServer cfg "mail" [turn " call"; turn "two"; turn "call"] one_call = ["call"; "two"].
Proof. vm_compute. reflexivity. Qed.
(** The second value of [two] asks for a call, past the gate and the limit. *)
Example second_value_asks : calls_of <$> values "two" = [0%nat; 1%nat].
Proof. reflexivity. Qed.
End RelayWitness.

Section relay_witness.
Import CallWitness RelayWitness.
#[local] Existing Instances ascii_unicode amd64 decimal_time plain_quote coded_snapshot
  EngineSpec.EngineWitness.anchored LedgerSpec.AuditWitness.no_patterns CapabilitySpec.CapabilityWitness.netip
  CapabilitySpec.CapabilityWitness.fs CapabilitySpec.CapabilityWitness.json LedgerSpec.AuditWitness.no_read
  GateWitness.json AssertionWitness.crypto Receipt.ReceiptWitness.json digest arguments opaque duration wire reading.


End relay_witness.
