(* ===== verification/Framing.v ===== *)
(** Length-prefixed encodings: [binary.BigEndian] integers and what makes a
    sequence of framed fields decodable. *)
From stdpp Require Import base strings list pretty.
From Stdlib Require Import ZArith Lia Ascii.
From S2P Require Import Prelude GoStrings.
#[local] Open Scope Z_scope.

Fixpoint big_endian (n : nat) (z : Z) : string :=
  match n with O => "" | S n => big_endian n (z / 256) +:+ String (Zbyte (z mod 256)) "" end.
(** [binary.BigEndian.PutUint64] *)
Definition PutUint64 (z : Z) : string := big_endian 8 z.

Lemma big_endian_inj n a b s t :
  0 <= a < 256 ^ Z.of_nat n -> 0 <= b < 256 ^ Z.of_nat n -> big_endian n a +:+ s = big_endian n b +:+ t -> a = b /\ s = t.
Proof.
  revert a b s t. induction n as [|n IH]; intros a b s t Ha Hb; [intros E; change (256 ^ Z.of_nat 0) with 1 in *; split; [lia|exact E]|].
  rewrite Nat2Z.inj_succ, Z.pow_succ_r in Ha, Hb by lia. cbn [big_endian]. rewrite !append_assoc. intros E.
  apply IH in E as [Eq Er]; [|split; [apply Z.div_pos; lia|apply Z.div_lt_upper_bound; lia]..].
  injection Er as Ec Er. split; [|exact Er].
  assert (a mod 256 = b mod 256) as Em.
  { apply (f_equal byteZ) in Ec. unfold byteZ, Zbyte in Ec.
    pose proof (Z.mod_pos_bound a 256 ltac:(lia)). pose proof (Z.mod_pos_bound b 256 ltac:(lia)).
    rewrite !N_ascii_embedding in Ec by lia. rewrite !Z2N.id in Ec by lia. done. }
  rewrite (Z.div_mod a 256), (Z.div_mod b 256) by lia. congruence.
Qed.
Lemma append_inj_l (s t t' : string) : s +:+ t = s +:+ t' -> t = t'.
Proof. induction s as [|c s IH]; [done|]. intros E. injection E as E. auto. Qed.
Lemma append_eq_len (s s' t t' : string) : String.length s = String.length s' -> s +:+ t = s' +:+ t' -> s = s' /\ t = t'.
Proof.
  revert s'. induction s as [|c s IH]; intros [|c' s'] Hl E; try done. injection Hl as Hl. injection E as -> E.
  by destruct (IH s' Hl E) as [-> ->].
Qed.
Lemma append_inj_r (s s' t : string) : s +:+ t = s' +:+ t -> s = s'.
Proof. intros E. apply (append_eq_len s s' t t); [|done]. apply (f_equal String.length) in E. rewrite !str_length_app in E. lia. Qed.
Lemma PutUint64_inj a b s t : 0 <= a < 2 ^ 64 -> 0 <= b < 2 ^ 64 -> PutUint64 a +:+ s = PutUint64 b +:+ t -> a = b /\ s = t.
Proof. intros Ha Hb. by apply big_endian_inj; change (256 ^ Z.of_nat 8) with (2 ^ 64). Qed.

(** A string whose length fits its prefix. *)
Definition short (s : string) : Prop := Z.of_nat (String.length s) < 2 ^ 64.
Lemma concat_fields (l : list string) : String.concat "" l = foldr String.append "" l.
Proof. induction l as [|s [|t l] IH]; [done| |]; cbn in *; [by rewrite append_nil_r|]. by rewrite IH. Qed.

Lemma pretty_N_go_length k x s : (x < 10 ^ N.of_nat k)%N -> (String.length (pretty_N_go x s) <= k + String.length s)%nat.
Proof.
  revert x s. induction k as [|k IH]; intros x s Hx.
  { assert (x = 0%N) as -> by (cbn in Hx; lia). rewrite pretty_N_go_0. cbn. lia. }
  destruct (decide (0 < x)%N) as [Hp|Hp].
  - rewrite pretty_N_go_step by done. etransitivity; [apply IH|cbn; lia].
    rewrite Nat2N.inj_succ, N.pow_succ_r' in Hx. apply N.Div0.div_lt_upper_bound. lia.
  - assert (x = 0%N) as -> by lia. rewrite pretty_N_go_0. lia.
Qed.
Lemma Itoa_short z : 0 <= z < 2 ^ 64 -> short (Itoa z).
Proof.
  intros Hz. unfold short, Itoa. destruct z as [|p|p]; [cbn; lia| |lia].
  change (pretty (Z.pos p)) with (pretty_N (N.pos p)). unfold pretty_N. case_decide; [done|].
  pose proof (pretty_N_go_length 20 (N.pos p) "" ltac:(change (10 ^ N.of_nat 20)%N with 100000000000000000000%N; lia)). cbn in *. lia.
Qed.

