(* ===== verification/KillSwitch.v ===== *)
(** The kill switch's control directory: [internal/killswitch/control.go]
    (and [owned_file_unix.go]).

    The directory is part of a file system, a map from paths to nodes; what a
    creation, a lock, a write or a sync meets is an argument.  A node that
    cannot be read for another reason than not being there is [NBad].  The
    writer's lock makes [WriteCommand] one step; [WriteState] takes none, and is
    its reading and its rename, with what others do between them. *)
From stdpp Require Import base strings gmap list.
From Stdlib Require Import ZArith Lia Ascii.
From S2P Require Import Prelude GoStrings GoLib GoPath Framing OwnershipGate Receipt.
#[local] Open Scope Z_scope.

Definition SchemaVersion : Z := 1.
Definition PollInterval : Z := 50 * 1000000.
Definition MaxControlBytes : nat := Z.to_nat (Z.shiftl 16 10).
Definition MaxReasonBytes : nat := 512.
Definition commandMACCtx : string := "mcp-visor-kinetic-command-v1".
Definition stateMACCtx : string := "mcp-visor-kinetic-state-v1".
Definition ErrPreviouslyRevoked : string := "kinetic stop: session epoch previously revoked".
Definition ErrControlUnavailable : string := "kinetic stop: control channel unavailable".
Definition ErrControlInvalid : string := "kinetic stop: control channel invalid".
Definition ErrUnauthorized : string := "kinetic stop: command unauthorized".

Definition ContainsNUL (s : string) : bool := any_byte (Ascii.eqb NUL) s.
(** [utf8.ValidString]: a byte that starts no rune decodes alone. *)
Definition ValidString (s : string) : bool :=
  forallb (fun p => negb ((p.1 =? RuneError) && (String.length p.2 =? 1)%nat)) (decode s).
Definition validID (s : string) : bool := (s <>s? "") && (String.length s <=? 256)%nat && negb (ContainsNUL s).
Definition validReason (s : string) : bool :=
  (s <>s? "") && (String.length s <=? MaxReasonBytes)%nat && ValidString s && negb (ContainsNUL s).
Definition not_hex_rune (r : Z) : bool := (r <? 48) || (102 <? r) || ((57 <? r) && (r <? 97)).
Definition isLowerHex (s : string) (n : nat) : bool := (String.length s =? n)%nat && negb (existsb not_hex_rune (runes s)).

Record ControllerKey := { ck_ID : string; ck_Key : string }.
Record Command := {
  cm_SchemaVersion : Z;
  cm_CommandID : string;
  cm_SessionID : string;
  cm_RevokeThroughEpoch : Z;
  cm_ControllerID : string;
  cm_Reason : string;
  cm_Signature : string
}.
Record State := {
  sa_SchemaVersion : Z;
  sa_SessionID : string;
  sa_RevokedThroughEpoch : Z;
  sa_CommandID : string;
  sa_ControllerID : string;
  sa_Reason : string;
  sa_ObservedAt : string;
  sa_ResultingState : string;
  sa_RequestSHA256 : string;
  sa_Signature : string
}.
(** [kc_Controllers] in the order the map is iterated. *)
Record Config := {
  kc_Dir : string;
  kc_SessionID : string;
  kc_SessionEpoch : Z;
  kc_Controllers : list (string * string);
  kc_PollInterval : Z
}.
Record Stop := { sp_Command : Command; sp_RequestSHA256 : string; sp_ObservedAt : Z; sp_ResultingState : string }.
Record Monitor := {
  mo_dir : string;
  mo_sessionID : string;
  mo_sessionEpoch : Z;
  mo_controllers : gmap string string;
  mo_poll : Z;
  mo_state : option State
}.
Definition command_signed (c : Command) (sig : string) : Command := {|
  cm_SchemaVersion := cm_SchemaVersion c; cm_CommandID := cm_CommandID c; cm_SessionID := cm_SessionID c;
  cm_RevokeThroughEpoch := cm_RevokeThroughEpoch c; cm_ControllerID := cm_ControllerID c; cm_Reason := cm_Reason c;
  cm_Signature := sig |}.
Definition state_signed (s : State) (sig : string) : State := {|
  sa_SchemaVersion := sa_SchemaVersion s; sa_SessionID := sa_SessionID s; sa_RevokedThroughEpoch := sa_RevokedThroughEpoch s;
  sa_CommandID := sa_CommandID s; sa_ControllerID := sa_ControllerID s; sa_Reason := sa_Reason s;
  sa_ObservedAt := sa_ObservedAt s; sa_ResultingState := sa_ResultingState s; sa_RequestSHA256 := sa_RequestSHA256 s;
  sa_Signature := sig |}.
Definition zero_command (sessionID reason : string) : Command := {|
  cm_SchemaVersion := 0; cm_CommandID := ""; cm_SessionID := sessionID; cm_RevokeThroughEpoch := 0;
  cm_ControllerID := ""; cm_Reason := reason; cm_Signature := "" |}.

(** HMAC-SHA256 of the data under the key. *)
Class GoHMAC := { hmac_sha256 : string -> string -> string }.

(** ** JSON with no duplicate keys *)

(** The tokens [Decoder.Token] yields up to the end or a syntax error. *)
Inductive Token := TDelim (c : ascii) | TString (s : string) | TOther.

Definition more (ts : list Token) : bool :=
  match ts with
  | [] => false
  | TDelim c :: _ => negb (Ascii.eqb c "]" || Ascii.eqb c "}")
  | _ => true
  end.
Definition key_of (t : Token) : string := match t with TString s => s | _ => "" end.

(** The tokens after the value, [None] being an error; [members] is the loop
    over what a delimiter opens. *)
Fixpoint rejectDupDec (fuel : nat) (ts : list Token) : option (list Token) :=
  match fuel, ts with
  | O, _ => None
  | S fuel, [] => None
  | S fuel, TDelim d :: ts => members fuel d [] ts
  | S fuel, _ :: ts => Some ts
  end
with members (fuel : nat) (d : ascii) (seen : list string) (ts : list Token) : option (list Token) :=
  match fuel with
  | O => None
  | S fuel =>
      if more ts then
        if Ascii.eqb d "{" then
          match ts with
          | [] => None
          | k :: ts =>
              if str_in (key_of k) seen then None
              else match rejectDupDec fuel ts with
              | None => None
              | Some ts => members fuel d (key_of k :: seen) ts
              end
          end
        else match rejectDupDec fuel ts with None => None | Some ts => members fuel d seen ts end
      else match ts with [] => None | _ :: ts => Some ts end
  end.
(** Every token is consumed at most once and followed by at most two calls. *)
Definition dup_fuel (ts : list Token) : nat := 2 * length ts + 1.

Class ControlJSON := {
  json_tokens : string -> list Token;
  (** unknown fields are refused, and so is anything after the value *)
  decode_command : string -> option Command;
  decode_state : string -> option State;
  marshal_command : Command -> option string;
  marshal_state : State -> option string
}.

(** ** Files *)

Inductive Node := NFile (perm : Z) (owned : bool) (data : string) | NDir (perm : Z) (owned : bool) | NLink | NBad.
Abbreviation FS := (gmap string Node).

Inductive read (A : Type) := RNotExist | RErr (msg : string) | ROk (a : A).
Arguments RNotExist {A}.
Arguments RErr {A} msg.
Arguments ROk {A} a.

Definition readOwnedFile (fs : FS) (path : string) (max : nat) (perm : Z) : read string :=
  match fs !! path with
  | None => RNotExist
  | Some (NFile p owned data) =>
      if negb (p =? perm) || (max <? String.length data)%nat || negb owned then RErr "invalid control file" else ROk data
  | Some _ => RErr "invalid control file"
  end.
Definition readControlFile (fs : FS) (path : string) : read string := readOwnedFile fs path MaxControlBytes 384.

(** [st] is a directory of ours that nobody else may enter. *)
Definition private_dir (st : Node) : bool :=
  match st with NDir perm owned => (Z.land perm 63 =? 0) && owned | _ => false end.
Definition ValidateControlDir (fs : FS) (dir : string) : error :=
  match fs !! dir with
  | None => Some "lstat"
  | Some st => fail_if (negb (private_dir st)) "invalid control directory"
  end.

(** What [mkdir] of a missing directory meets: it works (and then the sync of
    the parent does or does not), another process has just made the node, or
    it fails. *)
Inductive Mkdir := MkOk (synced : bool) | MkExists (other : Node) (synced : bool) | MkErr.
Definition validateSubdir (fs : FS) (parent name : string) (create : bool) (o : Mkdir) : FS * error :=
  let p := FJoin [parent; name] in
  let check fs := (fs, match fs !! p with
                       | None => Some "lstat"
                       | Some st => fail_if (negb (private_dir st)) "invalid control subdirectory"
                       end) in
  match fs !! p with
  | Some _ => check fs
  | None =>
      if create then
        match o with
        | MkErr => (fs, Some "mkdir")
        | MkOk s => let fs := <[p := NDir 448 true]> fs in if s then check fs else (fs, Some "sync")
        | MkExists other s => let fs := <[p := other]> fs in if s then check fs else (fs, Some "sync")
        end
      else (fs, Some "missing control subdirectory")
  end.

(** [atomicWrite]: nothing is renamed, the rename is not synced, or all is
    well.  A file is not renamed over a directory. *)
Inductive AtomicOut := AwNone | AwUnsynced | AwOk.
Definition atomicWrite (fs : FS) (final data : string) (o : AtomicOut) : FS * error :=
  let placed := match fs !! final with Some (NDir _ _) => false | _ => true end in
  match o with
  | AwNone => (fs, Some "write")
  | AwUnsynced => if placed then (<[final := NFile 384 true data]> fs, Some "sync") else (fs, Some "rename")
  | AwOk => if placed then (<[final := NFile 384 true data]> fs, None) else (fs, Some "rename")
  end.

(** ** Signatures *)

Definition mac_field (s : string) : string := PutUint64 (Z.of_nat (String.length s)) +:+ s.
Definition macFields (ctx : string) (fields : list string) : string := String.concat "" (mac_field <$> ctx :: fields).

Definition validateCommand (c : Command) (sig : bool) : error :=
  fail_if (negb (cm_SchemaVersion c =? SchemaVersion) || negb (isLowerHex (cm_CommandID c) 32) ||
           negb (validID (cm_SessionID c)) || (cm_RevokeThroughEpoch c <? 1) || negb (validID (cm_ControllerID c)) ||
           negb (validReason (cm_Reason c)) || (sig && negb (isLowerHex (cm_Signature c) 64))) "invalid kinetic command".
Definition validateState (s : State) (sig : bool) : error :=
  fail_if (negb (sa_SchemaVersion s =? SchemaVersion) || negb (validID (sa_SessionID s)) || (sa_RevokedThroughEpoch s <? 1) ||
           negb (isLowerHex (sa_CommandID s) 32) || negb (validID (sa_ControllerID s)) || negb (validReason (sa_Reason s)) ||
           (sa_ObservedAt s =s? "") || (sa_ResultingState s =s? "") || negb (isLowerHex (sa_RequestSHA256 s) 64) ||
           (sig && negb (isLowerHex (sa_Signature s) 64))) "invalid kinetic state".

Definition command_fields (c : Command) : list string :=
  [Itoa (cm_SchemaVersion c); cm_CommandID c; cm_SessionID c; Itoa (cm_RevokeThroughEpoch c); cm_ControllerID c; cm_Reason c].
Definition state_fields (s : State) : list string :=
  [Itoa (sa_SchemaVersion s); sa_SessionID s; Itoa (sa_RevokedThroughEpoch s); sa_CommandID s; sa_ControllerID s;
   sa_Reason s; sa_ObservedAt s; sa_ResultingState s; sa_RequestSHA256 s].

Section control.
Context `{GoCrypto, GoHMAC, GoTime, ControlJSON}.

Definition command_mac (c : Command) (key : string) : string := hmac_sha256 (macFields commandMACCtx (command_fields c)) key.
Definition state_mac (s : State) (key : string) : string := hmac_sha256 (macFields stateMACCtx (state_fields s)) key.

Definition SignCommand (c : Command) (key : string) : result Command :=
  match validateCommand c false with
  | Some err => Err err
  | None => Ok (command_signed c (hex_encode (command_mac c key)))
  end.
Definition VerifyCommand (c : Command) (key : string) : error :=
  let raw := hex_decode (cm_Signature c) in
  fail_if (negb (String.length key =? 32)%nat || bool_decide (is_Some (validateCommand c true)) ||
           match raw with None => true | Some raw => raw <>s? command_mac c key end) ErrUnauthorized.
Definition SignState (s : State) (key : string) : result State :=
  match validateState s false with
  | Some err => Err err
  | None => Ok (state_signed s (hex_encode (state_mac s key)))
  end.
Definition VerifyState (s : State) (key : string) : error :=
  let raw := hex_decode (sa_Signature s) in
  fail_if (negb (String.length key =? 32)%nat || bool_decide (is_Some (validateState s true)) ||
           match raw with None => true | Some raw => raw <>s? state_mac s key end) ErrUnauthorized.

(** ** Keys and paths *)

Definition LoadKeyFile (fs : FS) (path : string) : result string :=
  match readOwnedFile fs path 4096 384 with
  | ROk b => if negb (isLowerHex b 64) then Err "invalid controller key file"
             else match hex_decode b with Some key => Ok key | None => Err "hex" end
  | _ => Err "invalid controller key file"
  end.
Definition LoadControllerSpec (fs : FS) (spec : string) : result ControllerKey :=
  let '(id, path, ok) := match cut "=" spec with Some (id, path) => (id, path, true) | None => (spec, "", false) end in
  match LoadKeyFile fs path with
  | Err err => Err err
  | Ok key => if negb ok || negb (validID id) || (path =s? "") then Err "malformed controller spec"
              else Ok {| ck_ID := id; ck_Key := key |}
  end.
Definition CommandPath (dir sessionID : string) : string := FJoin [dir; "commands"; sha256_hex sessionID +:+ ".stop.json"].
Definition StatePath (dir sessionID : string) : string := FJoin [dir; "state"; sha256_hex sessionID +:+ ".state.json"].

Definition decodeControl {A} (decode : string -> option A) (raw : string) : option A :=
  match rejectDupDec (dup_fuel (json_tokens raw)) (json_tokens raw) with None => None | Some _ => decode raw end.

(** ** Commands *)

(** A command of the same session with a higher epoch is not replaced. *)
Definition weaker (fs : FS) (path : string) (cmd : Command) : bool :=
  match readControlFile fs path with
  | ROk raw =>
      match decodeControl decode_command raw with
      | Some prev => (cm_SessionID prev =s? cm_SessionID cmd) && (cm_RevokeThroughEpoch cmd <? cm_RevokeThroughEpoch prev)
      | None => false
      end
  | _ => false
  end.
Definition WriteCommand (fs : FS) (dir : string) (cmd : Command) (mk : Mkdir) (locked : bool) (o : AtomicOut)
    : FS * result string :=
  let '(fs, err) := validateSubdir fs dir "commands" true mk in
  match err, marshal_command cmd with
  | None, Some data =>
      if bool_decide (is_Some (ValidateControlDir fs dir)) || bool_decide (is_Some (validateCommand cmd true))
      then (fs, Err "invalid kinetic command or directory")
      else
        let data := data +:+ String LF "" in
        let path := CommandPath dir (cm_SessionID cmd) in
        if negb locked then (fs, Err "lock")
        else if weaker fs path cmd then (fs, Err "weaker kinetic command")
        else match atomicWrite fs path data o with
        | (fs, Some err) => (fs, Err err)
        | (fs, None) => (fs, Ok (sha256_hex data))
        end
  | _, _ => (fs, Err "invalid kinetic command or directory")
  end.

(** ** State *)

Definition ReadState (fs : FS) (dir sessionID : string) (controllers : gmap string string) : read State :=
  match readControlFile fs (StatePath dir sessionID) with
  | RNotExist => RNotExist
  | RErr err => RErr err
  | ROk raw =>
      match decodeControl decode_state raw with
      | None => RErr ErrControlInvalid
      | Some st =>
          match controllers !! sa_ControllerID st with
          | None => RErr ErrControlInvalid
          | Some key =>
              if (sa_SessionID st <>s? sessionID) || bool_decide (is_Some (VerifyState st key)) then RErr ErrControlInvalid
              else ROk st
          end
      end
  end.

(** ** The monitor *)

Fixpoint index_controllers (l : list (string * string)) (acc : gmap string string) (seen : list string)
    : option (gmap string string) :=
  match l with
  | [] => Some acc
  | (id, key) :: l =>
      if negb (validID id) || negb (String.length key =? 32)%nat then None
      else if str_in key seen then None
      else index_controllers l (<[id := key]> acc) (key :: seen)
  end.
Definition NewMonitor (fs : FS) (cfg : Config) (mkCommands mkState : Mkdir) : FS * result Monitor :=
  let invalid := Err "invalid kinetic monitor config" in
  if (kc_Dir cfg =s? "") || negb (validID (kc_SessionID cfg)) || (kc_SessionEpoch cfg <? 1) ||
     (length (kc_Controllers cfg) =? 0)%nat || bool_decide (is_Some (ValidateControlDir fs (kc_Dir cfg)))
  then (fs, invalid)
  else match validateSubdir fs (kc_Dir cfg) "commands" true mkCommands with
  | (fs, Some _) => (fs, invalid)
  | (fs, None) =>
      match validateSubdir fs (kc_Dir cfg) "state" true mkState with
      | (fs, Some _) => (fs, invalid)
      | (fs, None) =>
          (fs, match index_controllers (kc_Controllers cfg) ∅ [] with
               | None => Err "invalid controller"
               | Some ctrls =>
                   let m st := {| mo_dir := kc_Dir cfg; mo_sessionID := kc_SessionID cfg; mo_sessionEpoch := kc_SessionEpoch cfg;
                                  mo_controllers := ctrls;
                                  mo_poll := if kc_PollInterval cfg =? 0 then PollInterval else kc_PollInterval cfg;
                                  mo_state := st |} in
                   match ReadState fs (kc_Dir cfg) (kc_SessionID cfg) ctrls with
                   | ROk st => Ok (m (Some st))
                   | RNotExist => Ok (m None)
                   | RErr err => Err err
                   end
               end)
      end
  end.

Inductive class := classNone | classStale | classRevoke | classInvalid | classUnavailable.
Definition failed_stop (m : Monitor) (now : Z) (res reason : string) : Stop := {|
  sp_Command := zero_command (mo_sessionID m) reason; sp_RequestSHA256 := ""; sp_ObservedAt := now; sp_ResultingState := res |}.
Definition zero_stop : Stop := {|
  sp_Command := zero_command "" ""; sp_RequestSHA256 := ""; sp_ObservedAt := -62135596800 * 1000000000; sp_ResultingState := "" |}.
Definition key_for (m : Monitor) (controller : string) : string := default "" (mo_controllers m !! controller).

(** The command of a file, if it is for this session and signed by one of the
    controllers. *)
Definition authorized_command (m : Monitor) (raw : string) : option Command :=
  match decodeControl decode_command raw with
  | None => None
  | Some cmd =>
      if (cm_SessionID cmd <>s? mo_sessionID m) || bool_decide (is_Some (VerifyCommand cmd (key_for m (cm_ControllerID cmd))))
      then None else Some cmd
  end.
Definition classifyCommand (fs : FS) (now : Z) (m : Monitor) : class * Stop :=
  if bool_decide (is_Some (ValidateControlDir fs (mo_dir m))) ||
     bool_decide (is_Some (validateSubdir fs (mo_dir m) "commands" false MkErr).2)
  then (classUnavailable, failed_stop m now "contained_control_unavailable" "kill-switch control channel unavailable")
  else
    let invalid := (classInvalid, failed_stop m now "contained_control_invalid" "kill-switch control channel invalid") in
    match readControlFile fs (CommandPath (mo_dir m) (mo_sessionID m)) with
    | RNotExist => (classNone, zero_stop)
    | RErr _ => invalid
    | ROk raw =>
        match authorized_command m raw with
        | None => invalid
        | Some cmd =>
            if cm_RevokeThroughEpoch cmd <? mo_sessionEpoch m then (classStale, zero_stop)
            else (classRevoke, {| sp_Command := cmd; sp_RequestSHA256 := sha256_hex raw; sp_ObservedAt := now;
                                  sp_ResultingState := "revoked_contained" |})
        end
    end.

Definition startup_error (c : class) : error :=
  match c with
  | classRevoke => Some ErrPreviouslyRevoked
  | classInvalid => Some ErrControlInvalid
  | classUnavailable => Some ErrControlUnavailable
  | _ => None
  end.
Definition StartupCheck (fs : FS) (now : Z) (m : Monitor) : error :=
  match mo_state m with
  | Some st =>
      if (sa_SessionID st =s? mo_sessionID m) && (mo_sessionEpoch m <=? sa_RevokedThroughEpoch st) then Some ErrPreviouslyRevoked
      else startup_error (classifyCommand fs now m).1
  | None => startup_error (classifyCommand fs now m).1
  end.

Definition stops (c : class) : bool :=
  match c with classRevoke | classUnavailable | classInvalid => true | _ => false end.
Definition run_error (c : class) : error :=
  match c with classUnavailable => Some ErrControlUnavailable | classInvalid => Some ErrControlInvalid | _ => None end.
(** [Run] over what the directory and the clock are at each tick, until its
    context is done: the stop it calls for, and its error. *)
Fixpoint Run (m : Monitor) (ticks : list (FS * Z)) : option Stop * error :=
  match ticks with
  | [] => (None, Some "context canceled")
  | (fs, now) :: ticks =>
      let '(cl, st) := classifyCommand fs now m in
      if stops cl then (Some st, run_error cl) else Run m ticks
  end.

(** The epoch to write: that of the stop, or the one already there. *)
Definition kept_epoch (fs : FS) (m : Monitor) (epoch : Z) : result Z :=
  match ReadState fs (mo_dir m) (mo_sessionID m) (mo_controllers m) with
  | ROk existing => Ok (if epoch <? sa_RevokedThroughEpoch existing then sa_RevokedThroughEpoch existing else epoch)
  | RNotExist => Ok epoch
  | RErr err => Err err
  end.
Definition state_of_stop (stop : Stop) (epoch : Z) : State := {|
  sa_SchemaVersion := SchemaVersion; sa_SessionID := cm_SessionID (sp_Command stop); sa_RevokedThroughEpoch := epoch;
  sa_CommandID := cm_CommandID (sp_Command stop); sa_ControllerID := cm_ControllerID (sp_Command stop);
  sa_Reason := cm_Reason (sp_Command stop); sa_ObservedAt := format_RFC3339Nano (sp_ObservedAt stop);
  sa_ResultingState := sp_ResultingState stop; sa_RequestSHA256 := sp_RequestSHA256 stop; sa_Signature := "" |}.
Definition with_state (m : Monitor) (st : State) : Monitor := {|
  mo_dir := mo_dir m; mo_sessionID := mo_sessionID m; mo_sessionEpoch := mo_sessionEpoch m;
  mo_controllers := mo_controllers m; mo_poll := mo_poll m; mo_state := Some st |}.
(** [WriteState] up to its [atomicWrite]: what it has read, signed and encoded.
    It holds no lock, so others may write between this and the rename. *)
Definition prepare_state (fs : FS) (m : Monitor) (stop : Stop) (mk : Mkdir) : FS * result (State * string) :=
  match validateSubdir fs (mo_dir m) "state" true mk with
  | (fs, Some err) => (fs, Err err)
  | (fs, None) =>
      (fs, match kept_epoch fs m (cm_RevokeThroughEpoch (sp_Command stop)) with
           | Err err => Err err
           | Ok epoch =>
               let st := state_of_stop stop epoch in
               match SignState st (key_for m (sa_ControllerID st)) with
               | Err err => Err err
               | Ok st => match marshal_state st with None => Err "marshal" | Some data => Ok (st, data +:+ String LF "") end
               end
           end)
  end.
Definition publish_state (fs : FS) (m : Monitor) (st : State) (data : string) (o : AtomicOut) : FS * (Monitor * error) :=
  match atomicWrite fs (StatePath (mo_dir m) (mo_sessionID m)) data o with
  | (fs, Some err) => (fs, (m, Some err))
  | (fs, None) => (fs, (with_state m st, None))
  end.
(** [between] is what others do to the directory in the meantime. *)
Definition WriteState (fs : FS) (m : Monitor) (stop : Stop) (mk : Mkdir) (between : FS -> FS) (o : AtomicOut) : FS * (Monitor * error) :=
  match prepare_state fs m stop mk with
  | (fs, Err err) => (fs, (m, Some err))
  | (fs, Ok (st, data)) => publish_state (between fs) m st data o
  end.
End control.
