(* ===== verification/KillSwitchSpec.v ===== *)
(** What the kill switch's directory guarantees: control files are read by one
    object with one member per name, signatures bind what they cover, a
    command calls for a stop exactly when a controller signed it for this
    session and epoch, and an epoch once recorded as revoked is never started
    again. *)
From stdpp Require Import base strings gmap list relations pretty.
From Stdlib Require Import ZArith Lia Ascii.
From S2P Require Import Prelude GoStrings GoLib GoPath Framing OwnershipGate Receipt KillSwitch.
#[local] Open Scope Z_scope.

(** ** Duplicate keys *)

(** A JSON value; a scalar that is a string is also what its token is. *)
Inductive jtree := JScalar (s : option string) | JArr (l : list jtree) | JObj (l : list (string * jtree)).

Section jtree_ind.
Context (P : jtree -> Prop) (Hs : forall s, P (JScalar s)) (Ha : forall l, Forall P l -> P (JArr l))
  (Ho : forall l, Forall (fun kv => P kv.2) l -> P (JObj l)).
Fixpoint jtree_induction (t : jtree) : P t :=
  match t with
  | JScalar s => Hs s
  | JArr l => Ha l ((fix go l := match l return Forall P l with
                                 | [] => Forall_nil_2 _ | t :: l => Forall_cons_2 _ _ _ (jtree_induction t) (go l) end) l)
  | JObj l => Ho l ((fix go l := match l return Forall (fun kv => P kv.2) l with
                                 | [] => Forall_nil_2 _
                                 | (k, t) :: l => Forall_cons_2 (fun kv => P kv.2) (k, t) l (jtree_induction t) (go l) end) l)
  end.
End jtree_ind.

Fixpoint tokens (t : jtree) : list Token :=
  match t with
  | JScalar (Some s) => [TString s]
  | JScalar None => [TOther]
  | JArr l => TDelim "[" :: flat_map tokens l ++ [TDelim "]"]
  | JObj l => TDelim "{" :: flat_map (fun kv => TString kv.1 :: tokens kv.2) l ++ [TDelim "}"]
  end.

Fixpoint fresh (seen keys : list string) : bool :=
  match keys with [] => true | k :: keys => negb (str_in k seen) && fresh (k :: seen) keys end.
(** No object of the value has two members of one name. *)
Fixpoint unique_keys (t : jtree) : bool :=
  match t with
  | JScalar _ => true
  | JArr l => forallb unique_keys l
  | JObj l => fresh [] (map fst l) && forallb (fun kv => unique_keys kv.2) l
  end.
Lemma fresh_spec seen keys : fresh seen keys = true <-> NoDup keys /\ (forall k, In k keys -> ~ In k seen).
Proof.
  revert seen. induction keys as [|k keys IH]; intros seen; cbn; [split; [intros _; split; [constructor|done]|done]|].
  rewrite andb_true_iff, negb_true_iff, str_in_false, IH, NoDup_cons, list_elem_of_In. cbn. naive_solver.
Qed.

Definition accepts (ts rest : list Token) (ok : bool) (n : nat) : Prop :=
  forall fuel, (2 * length ts + n <= fuel)%nat -> rejectDupDec fuel ts = if ok then Some rest else None.

Lemma more_tokens t rest : more (tokens t ++ rest) = true.
Proof. by destruct t as [[|]| |]. Qed.
Lemma tokens_nonempty t : (1 <= length (tokens t))%nat.
Proof. destruct t as [[|]| |]; cbn; lia. Qed.

Lemma members_array l rest fuel d seen :
  Ascii.eqb d "{" = false ->
  Forall (fun t => forall rest, accepts (tokens t ++ rest) rest (unique_keys t) 1) l ->
  (2 * length (flat_map tokens l ++ TDelim "]" :: rest) + 2 <= fuel)%nat ->
  members fuel d seen (flat_map tokens l ++ TDelim "]" :: rest) = if forallb unique_keys l then Some rest else None.
Proof.
  intros Hd Hl. revert fuel. induction Hl as [|t l Ht Hl IH]; intros fuel Hf; (destruct fuel as [|fuel]; [cbn in Hf; lia|]); [done|].
  cbn [flat_map members forallb] in *. rewrite <- app_assoc in *. rewrite more_tokens, Hd.
  rewrite (Ht (flat_map tokens l ++ TDelim "]" :: rest) fuel) by lia. destruct (unique_keys t); [|done]. cbn [andb].
  apply IH. rewrite length_app in Hf. pose proof (tokens_nonempty t). lia.
Qed.
Lemma members_object l rest fuel seen :
  Forall (fun kv => forall rest, accepts (tokens kv.2 ++ rest) rest (unique_keys kv.2) 1) l ->
  (2 * length (flat_map (fun kv => TString kv.1 :: tokens kv.2) l ++ TDelim "}" :: rest) + 2 <= fuel)%nat ->
  members fuel "{" seen (flat_map (fun kv => TString kv.1 :: tokens kv.2) l ++ TDelim "}" :: rest) =
    if fresh seen (map fst l) && forallb (fun kv => unique_keys kv.2) l then Some rest else None.
Proof.
  intros Hl. revert fuel seen. induction Hl as [|[k t] l Ht Hl IH]; intros fuel seen Hf;
    (destruct fuel as [|fuel]; [cbn in Hf; lia|]); [done|].
  cbn [flat_map members forallb map fresh fst snd app more Ascii.eqb key_of] in *. rewrite <- app_assoc in *.
  destruct (str_in k seen); [done|]. cbn [negb andb length] in *. rewrite length_app in Hf.
  rewrite (Ht (flat_map (fun kv => TString kv.1 :: tokens kv.2) l ++ TDelim "}" :: rest) fuel) by (rewrite length_app; lia).
  destruct (unique_keys t); [|by rewrite andb_false_r]. cbn [andb]. apply IH. pose proof (tokens_nonempty t). lia.
Qed.
Lemma rejectDup_accepts t : forall rest, accepts (tokens t ++ rest) rest (unique_keys t) 1.
Proof.
  induction t as [s|l IH|l IH] using jtree_induction; intros rest fuel Hf; (destruct fuel as [|fuel]; [lia|]).
  - by destruct s.
  - cbn [tokens app rejectDupDec unique_keys] in *. rewrite <- app_assoc in *. cbn [length app] in *.
    by apply members_array; [|exact IH|lia].
  - cbn [tokens app rejectDupDec unique_keys] in *. rewrite <- app_assoc in *. cbn [length app] in *.
    by apply members_object; [exact IH|lia].
Qed.

(** The check of a control file accepts a value, and stops right after it,
    exactly when no object in it, at any depth, has two members of one name;
    the fuel is always enough. *)

(** No object of the value, at any depth, has two members of one name. *)
Inductive well_named : jtree -> Prop :=
| wn_scalar s : well_named (JScalar s)
| wn_array l : Forall well_named l -> well_named (JArr l)
| wn_object l : NoDup (map fst l) -> Forall (fun kv => well_named kv.2) l -> well_named (JObj l).
Lemma unique_keys_spec t : unique_keys t = true <-> well_named t.
Proof.
  induction t as [s|l IH|l IH] using jtree_induction; cbn [unique_keys].
  - split; [constructor|done].
  - rewrite forallb_forall, <- List.Forall_forall. split; [intros Hl; constructor|inversion_clear 1 as [|? Hl|]].
    all: eapply Forall_impl; [apply Forall_and; split; [exact IH|exact Hl]|]; cbn; tauto.
  - rewrite andb_true_iff, fresh_spec, forallb_forall.
    split; [intros [[Hk _] Hl%List.Forall_forall]; constructor; [done|]|inversion_clear 1 as [| |? Hk Hl]; split; [by split; [|auto]|]].
    2: apply List.Forall_forall.
    all: eapply Forall_impl; [apply Forall_and; split; [exact IH|exact Hl]|]; cbn; tauto.
Qed.

(** The check of a control file passes a value, and stops right after it,
    exactly when no object in it has two members of one name; the fuel is
    always enough. *)
Theorem rejectDupDec_iff (t : jtree) (rest : list Token) :
  (rejectDupDec (dup_fuel (tokens t ++ rest)) (tokens t ++ rest) = Some rest <-> well_named t) /\
  (rejectDupDec (dup_fuel (tokens t ++ rest)) (tokens t ++ rest) = None <-> ~ well_named t).
Proof.
  rewrite (rejectDup_accepts t rest (dup_fuel (tokens t ++ rest))) by (unfold dup_fuel; lia).
  rewrite <- unique_keys_spec. by destruct (unique_keys t).
Qed.

(** ** Files *)

Lemma validateSubdir_keeps fs parent name create o path node :
  fs !! path = Some node -> (validateSubdir fs parent name create o).1 !! path = Some node.
Proof.
  intros Hp. unfold validateSubdir. destruct (fs !! FJoin [parent; name]) eqn:E; [done|]. destruct create; [|done].
  assert (FJoin [parent; name] <> path) by (intros <-; by rewrite E in Hp).
  destruct o as [[]|other []|]; cbn; by rewrite ?lookup_insert_ne by done.
Qed.
Lemma validateSubdir_false fs parent name o :
  (validateSubdir fs parent name false o).2 = None <-> exists st, fs !! FJoin [parent; name] = Some st /\ private_dir st = true.
Proof.
  unfold validateSubdir. destruct (fs !! FJoin [parent; name]) as [st|]; cbn.
  - destruct (private_dir st) eqn:E; cbn; naive_solver congruence.
  - naive_solver.
Qed.
Lemma ValidateControlDir_None fs dir :
  ValidateControlDir fs dir = None <-> exists st, fs !! dir = Some st /\ private_dir st = true.
Proof. unfold ValidateControlDir. destruct (fs !! dir) as [st|]; [|naive_solver]. destruct (private_dir st) eqn:E; cbn; naive_solver congruence. Qed.
Lemma readControlFile_ROk fs path data :
  readControlFile fs path = ROk data <-> fs !! path = Some (NFile 384 true data) /\ (String.length data <= MaxControlBytes)%nat.
Proof.
  unfold readControlFile, readOwnedFile. destruct (fs !! path) as [[perm owned d| | |]|]; try naive_solver.
  destruct (perm =? 384) eqn:E1; cbn [negb orb]; [|split; [done|]; intros [[= -> _ _] _]; done].
  destruct (MaxControlBytes <? String.length d)%nat eqn:E2; cbn [orb].
  { split; [done|]. intros [[= _ _ ->] Hl]. bools. lia. }
  destruct owned; cbn; [|naive_solver]. bools. naive_solver.
Qed.
Lemma readControlFile_RNotExist fs path : readControlFile fs path = RNotExist <-> fs !! path = None.
Proof.
  unfold readControlFile, readOwnedFile. destruct (fs !! path) as [[perm owned d| | |]|]; try naive_solver.
  destruct (_ || _); naive_solver.
Qed.
Lemma atomicWrite_ok fs final data o fs' :
  atomicWrite fs final data o = (fs', None) -> fs' = <[final := NFile 384 true data]> fs.
Proof. unfold atomicWrite. destruct (fs !! final) as [[]|], o; naive_solver. Qed.
Lemma atomicWrite_cases fs final data o :
  (atomicWrite fs final data o).1 = fs \/ (atomicWrite fs final data o).1 = <[final := NFile 384 true data]> fs.
Proof. unfold atomicWrite. destruct (fs !! final) as [[]|], o; naive_solver. Qed.

Section fencing.
Context `{GoCrypto, GoHMAC, GoTime, ControlJSON}.

Lemma ReadState_ROk fs dir sid ctrls st : ReadState fs dir sid ctrls = ROk st ->
  exists data, fs !! StatePath dir sid = Some (NFile 384 true data) /\ decode_state data = Some st /\ sa_SessionID st = sid.
Proof.
  unfold ReadState. destruct (readControlFile _ _) as [| |data] eqn:Er; [done..|]. apply readControlFile_ROk in Er as [Hf _].
  unfold decodeControl. destruct (rejectDupDec _ _); [|done]. destruct (decode_state data) as [s|] eqn:Ed; [|done].
  destruct (ctrls !! _); [|done]. destruct (_ || _) eqn:Eo; [done|]. intros [= ->]. bools. by exists data.
Qed.
Lemma ReadState_RNotExist fs dir sid ctrls : ReadState fs dir sid ctrls = RNotExist -> fs !! StatePath dir sid = None.
Proof.
  unfold ReadState. destruct (readControlFile _ _) eqn:Er; [by apply readControlFile_RNotExist in Er|done|].
  repeat case_match; done.
Qed.

(** There is a node at [path], and a state that its file holds revokes
    through [e] at least. *)
Definition fenced (e : Z) (path : string) (fs : FS) : Prop :=
  exists node, fs !! path = Some node /\
    forall perm owned data st, node = NFile perm owned data -> decode_state data = Some st -> e <= sa_RevokedThroughEpoch st.

(** Encoding a state keeps its epoch, if it can be read back at all. *)
Context (Hepoch : forall st data st', marshal_state st = Some data -> decode_state (data +:+ String LF "") = Some st' ->
  sa_RevokedThroughEpoch st' = sa_RevokedThroughEpoch st).

(** What is ready to be written, and where it is written. *)
Lemma prepare_state_cases fs m stop mk :
  (prepare_state fs m stop mk).1 = (validateSubdir fs (mo_dir m) "state" true mk).1 /\
  forall st data, (prepare_state fs m stop mk).2 = Ok (st, data) -> exists epoch line,
    kept_epoch (prepare_state fs m stop mk).1 m (cm_RevokeThroughEpoch (sp_Command stop)) = Ok epoch /\
    SignState (state_of_stop stop epoch) (key_for m (cm_ControllerID (sp_Command stop))) = Ok st /\
    marshal_state st = Some line /\ data = line +:+ String LF "".
Proof.
  unfold prepare_state. destruct (validateSubdir fs (mo_dir m) "state" true mk) as [fs1 [?|]]; [done|].
  cbn [fst snd]. split; [done|]. intros st data. destruct (kept_epoch fs1 m _) as [epoch|] eqn:Ek; [|done].
  cbn. destruct (SignState _ _) as [st'|] eqn:Es; [|done]. destruct (marshal_state st') as [line|] eqn:Em; [|done].
  intros [= <- <-]. by exists epoch, line.
Qed.
Lemma WriteState_ok fs m stop mk between o fs' m' :
  WriteState fs m stop mk between o = (fs', (m', None)) -> exists st data,
    (prepare_state fs m stop mk).2 = Ok (st, data) /\ m' = with_state m st /\
    fs' = <[StatePath (mo_dir m) (mo_sessionID m) := NFile 384 true data]> (between (prepare_state fs m stop mk).1).
Proof.
  unfold WriteState, publish_state. destruct (prepare_state fs m stop mk) as [fs1 [[st data]|]]; [|done]. cbn.
  destruct (atomicWrite _ _ _ _) as [fs2 [?|]] eqn:Ea; [done|]. intros [= <- <-]. apply atomicWrite_ok in Ea. by exists st, data.
Qed.
Lemma SignState_epoch st key st' : SignState st key = Ok st' -> sa_RevokedThroughEpoch st' = sa_RevokedThroughEpoch st.
Proof. unfold SignState. destruct (validateState _ _); [done|]. by intros [= <-]. Qed.
Lemma kept_epoch_ge fs m e epoch : kept_epoch fs m e = Ok epoch -> e <= epoch.
Proof. unfold kept_epoch. destruct (ReadState _ _ _ _) as [| |st]; intros [= <-]; [lia|]. destruct (e <? _) eqn:E; bools; lia. Qed.

Lemma written_fenced fs path st data e :
  marshal_state st = Some data -> e <= sa_RevokedThroughEpoch st ->
  fenced e path (<[path := NFile 384 true (data +:+ String LF "")]> fs).
Proof.
  intros Hm He. eexists. split; [apply lookup_insert_eq|]. intros perm owned d st' [= <- <- <-] Hd. by rewrite (Hepoch _ _ _ Hm Hd).
Qed.

(** A write under way: what it has read, signed and encoded, and not yet
    renamed into place. *)
Record Write := { wr_monitor : Monitor; wr_stop : Stop; wr_state : State; wr_data : string }.
Definition wr_path (u : Write) : string := StatePath (mo_dir (wr_monitor u)) (mo_sessionID (wr_monitor u)).
Record Writing := { wg_fs : FS; wg_writes : list Write }.
(** What may happen to the file system, one access at a time: any number of
    monitors of any session read, and rename, and anything else that leaves the
    node at [path] alone. *)
Inductive change (path : string) : Writing -> Writing -> Prop :=
| ch_read fs us m stop mk st data : (prepare_state fs m stop mk).2 = Ok (st, data) ->
    change path {| wg_fs := fs; wg_writes := us |}
      {| wg_fs := (prepare_state fs m stop mk).1; wg_writes := {| wr_monitor := m; wr_stop := stop; wr_state := st; wr_data := data |} :: us |}
| ch_refused fs us m stop mk : change path {| wg_fs := fs; wg_writes := us |} {| wg_fs := (prepare_state fs m stop mk).1; wg_writes := us |}
| ch_rename fs us1 u us2 o : change path {| wg_fs := fs; wg_writes := us1 ++ u :: us2 |}
    {| wg_fs := (publish_state fs (wr_monitor u) (wr_state u) (wr_data u) o).1; wg_writes := us1 ++ us2 |}
| ch_other fs us fs' : fs' !! path = fs !! path -> change path {| wg_fs := fs; wg_writes := us |} {| wg_fs := fs'; wg_writes := us |}.

(** A write under way was made by [prepare_state], for its stop's epoch or a
    higher one. *)
Definition made (u : Write) : Prop := cm_RevokeThroughEpoch (sp_Command (wr_stop u)) <= sa_RevokedThroughEpoch (wr_state u) /\
  exists line, marshal_state (wr_state u) = Some line /\ wr_data u = line +:+ String LF "".
Lemma prepare_made fs m stop mk st data : (prepare_state fs m stop mk).2 = Ok (st, data) ->
  made {| wr_monitor := m; wr_stop := stop; wr_state := st; wr_data := data |}.
Proof.
  intros Hp. destruct (prepare_state_cases fs m stop mk) as [_ Hc]. destruct (Hc _ _ Hp) as (epoch & line & Hk & Hs & Hm & ->).
  split; [|by exists line]. cbn. rewrite (SignState_epoch _ _ _ Hs). by apply kept_epoch_ge in Hk.
Qed.
Lemma change_made path d d' : rtc (change path) d d' -> Forall made (wg_writes d) -> Forall made (wg_writes d').
Proof.
  induction 1 as [|d1 d2 d3 Hc _ IH]; [done|]. intros Hf. apply IH. destruct Hc; cbn in *; [|done| |done].
  - constructor; [by eapply prepare_made|done].
  - rewrite Forall_app, Forall_cons in Hf. rewrite Forall_app. tauto.
Qed.

(** The state file revokes through [e] at least, and so does every write of
    it that is under way. *)
Definition held (e : Z) (path : string) (d : Writing) : Prop :=
  fenced e path (wg_fs d) /\ Forall (fun u => made u /\ (wr_path u = path -> e <= sa_RevokedThroughEpoch (wr_state u))) (wg_writes d).
Lemma prepare_keeps_node fs m stop mk path node : fs !! path = Some node -> (prepare_state fs m stop mk).1 !! path = Some node.
Proof. intros Hp. destruct (prepare_state_cases fs m stop mk) as [-> _]. by apply validateSubdir_keeps. Qed.
Lemma prepare_above e fs m stop mk st data : fenced e (StatePath (mo_dir m) (mo_sessionID m)) fs ->
  (prepare_state fs m stop mk).2 = Ok (st, data) -> e <= sa_RevokedThroughEpoch st.
Proof.
  intros (node & Hp & Hf) Hst. destruct (prepare_state_cases fs m stop mk) as [_ Hc]. destruct (Hc _ _ Hst) as (epoch & line & Hk & Hs & _).
  rewrite (SignState_epoch _ _ _ Hs). cbn. apply prepare_keeps_node with (m := m) (stop := stop) (mk := mk) in Hp.
  revert Hk. unfold kept_epoch. destruct (ReadState _ _ _ _) as [| |old] eqn:Er; [|done|].
  { apply ReadState_RNotExist in Er. congruence. }
  apply ReadState_ROk in Er as (d & Hd & Hds & _). rewrite Hp in Hd. injection Hd as ->.
  pose proof (Hf _ _ _ _ eq_refl Hds). intros [= <-]. destruct (_ <? _) eqn:Elt; bools; lia.
Qed.
Lemma change_keeps_fence e path d d' : rtc (change path) d d' -> held e path d -> held e path d'.
Proof.
  induction 1 as [|d1 d2 d3 Hc _ IH]; [done|]. intros Hh. apply IH. clear IH. destruct Hh as [Hf Hu].
  destruct Hc as [fs us m stop mk st data Hp|fs us m stop mk|fs us1 u us2 o|fs us fs' E]; cbn in *.
  - split; cbn; [destruct Hf as (node & Hn & Hf); exists node; split; [by apply prepare_keeps_node|done]|].
    constructor; [|done]. split; [by eapply prepare_made|]. cbn. unfold wr_path. cbn. intros E. apply (prepare_above e fs m stop mk st data); [by rewrite E|done].
  - split; [|done]. destruct Hf as (node & Hn & Hf). exists node. split; [by apply prepare_keeps_node|done].
  - rewrite Forall_app, Forall_cons in Hu. destruct Hu as (Hu1 & [(_ & line & Hm & Ed) He] & Hu2). split; [|cbn; rewrite Forall_app; by split].
    cbn. unfold publish_state. pose proof (atomicWrite_cases fs (wr_path u) (wr_data u) o) as Hc. fold (wr_path u).
    assert (fenced e path (atomicWrite fs (wr_path u) (wr_data u) o).1) as Hfe.
    { destruct Hc as [-> | ->]; [done|]. destruct (decide (wr_path u = path)) as [E|E].
      - rewrite E, Ed. apply written_fenced with (wr_state u); auto.
      - destruct Hf as (node & Hn & Hf). exists node. by rewrite lookup_insert_ne. }
    by destruct (atomicWrite _ _ _ _) as [fs2 [?|]].
  - split; [|done]. destruct Hf as (node & Hn & Hf). exists node. cbn. by rewrite E.
Qed.
(** A command written elsewhere leaves the state alone. *)
Lemma WriteCommand_change path fs us dir cmd mk locked o :
  CommandPath dir (cm_SessionID cmd) <> path -> is_Some (fs !! path) ->
  change path {| wg_fs := fs; wg_writes := us |} {| wg_fs := (WriteCommand fs dir cmd mk locked o).1; wg_writes := us |}.
Proof.
  intros Hne [node Hp]. apply ch_other. rewrite Hp. unfold WriteCommand.
  pose proof (validateSubdir_keeps fs dir "commands" true mk path node Hp) as Hp1.
  destruct (validateSubdir fs dir "commands" true mk) as [fs1 err]. cbn in Hp1.
  destruct err; [done|]. destruct (marshal_command cmd) as [data|]; [|done]. destruct (_ || _); [done|].
  destruct (negb locked); [done|]. destruct (weaker _ _ _); [done|].
  pose proof (atomicWrite_cases fs1 (CommandPath dir (cm_SessionID cmd)) (data +:+ String LF "") o) as Hc.
  destruct (atomicWrite _ _ _ _) as [fs2 [err|]]; cbn in *; destruct Hc as [-> | ->]; by rewrite ?lookup_insert_ne.
Qed.

Lemma NewMonitor_Ok fs cfg mkc mks fs' m : NewMonitor fs cfg mkc mks = (fs', Ok m) ->
  mo_dir m = kc_Dir cfg /\ mo_sessionID m = kc_SessionID cfg /\ mo_sessionEpoch m = kc_SessionEpoch cfg /\
  index_controllers (kc_Controllers cfg) ∅ [] = Some (mo_controllers m) /\
  (forall path node, fs !! path = Some node -> fs' !! path = Some node) /\
  match mo_state m with
  | Some st => ReadState fs' (kc_Dir cfg) (kc_SessionID cfg) (mo_controllers m) = ROk st
  | None => fs' !! StatePath (kc_Dir cfg) (kc_SessionID cfg) = None
  end.
Proof.
  unfold NewMonitor. destruct (_ || _); [done|].
  pose proof (fun path node => validateSubdir_keeps fs (kc_Dir cfg) "commands" true mkc path node) as H1'.
  destruct (validateSubdir fs (kc_Dir cfg) "commands" true mkc) as [fs1 [?|]]; [done|].
  pose proof (fun path node => validateSubdir_keeps fs1 (kc_Dir cfg) "state" true mks path node) as H2'.
  destruct (validateSubdir fs1 (kc_Dir cfg) "state" true mks) as [fs2 [?|]]; [done|].
  destruct (index_controllers _ _ _) as [ctrls|]; [|done].
  destruct (ReadState _ _ _ _) as [| |st] eqn:Er; [|done|]; intros [= <- <-]; cbn; (split_and!; [done..|by auto|]); [|done].
  by apply ReadState_RNotExist in Er.
Qed.

(** C11.  Once a revocation has been recorded, and unless a write of the state that
    was under way then had read a lower epoch, no monitor of that session starts
    at an epoch it covers: whatever controllers it is given, however the reads
    and renames of other monitors interleave from then on and whatever became of
    the command, either it is not built or its startup check refuses. *)
Theorem revoked_epoch_fenced (fs0 fs1 fs2 fs3 fs4 : FS) (us1 us2 : list Write) (u : Write) (o : AtomicOut) (d : Writing)
    (m' m2 : Monitor) (mkc mks : Mkdir) (cfg : Config) (now : Z) :
  rtc (change (wr_path u)) {| wg_fs := fs0; wg_writes := [] |} {| wg_fs := fs1; wg_writes := us1 ++ u :: us2 |} ->
  publish_state fs1 (wr_monitor u) (wr_state u) (wr_data u) o = (fs2, (m', None)) ->
  kc_Dir cfg = mo_dir (wr_monitor u) -> kc_SessionID cfg = mo_sessionID (wr_monitor u) ->
  kc_SessionEpoch cfg <= cm_RevokeThroughEpoch (sp_Command (wr_stop u)) ->
  (forall v, In v (us1 ++ us2) -> wr_path v = wr_path u -> kc_SessionEpoch cfg <= sa_RevokedThroughEpoch (wr_state v)) ->
  rtc (change (wr_path u)) {| wg_fs := fs2; wg_writes := us1 ++ us2 |} d ->
  NewMonitor (wg_fs d) cfg mkc mks = (fs3, Ok m2) -> StartupCheck fs4 now m2 = Some ErrPreviouslyRevoked.
Proof.
  intros Hmade Hw Hd Hs He Hothers Hc Hn. apply change_made in Hmade; [|constructor]. cbn in Hmade.
  rewrite Forall_app, Forall_cons in Hmade. destruct Hmade as (Hm1 & Hmu & Hm2).
  assert (held (kc_SessionEpoch cfg) (wr_path u) {| wg_fs := fs2; wg_writes := us1 ++ us2 |}) as Hh.
  { split; cbn.
    - unfold publish_state in Hw. fold (wr_path u) in Hw. destruct (atomicWrite _ _ _ _) as [fs5 [?|]] eqn:Ea; [done|]. injection Hw as <- _.
      apply atomicWrite_ok in Ea as ->. destruct Hmu as (Hge & line & Hline & ->). apply written_fenced with (wr_state u); [done|lia].
    - apply List.Forall_forall. intros v Hv. split; [|by apply Hothers].
      apply in_app_iff in Hv as [Hv|Hv]; [by apply (proj1 (List.Forall_forall _ _) Hm1)|by apply (proj1 (List.Forall_forall _ _) Hm2)]. }
  destruct (change_keeps_fence _ _ _ _ Hc Hh) as [(node & Hp & Hf) _].
  apply NewMonitor_Ok in Hn as (_ & Hs2 & He2 & _ & Hk & Hst). rewrite Hd, Hs in Hst. apply Hk in Hp.
  unfold StartupCheck. destruct (mo_state m2) as [st|]; [|unfold wr_path in Hp; congruence].
  apply ReadState_ROk in Hst as (data & Hdata & Hdec & Hsid). unfold wr_path in Hp. rewrite Hp in Hdata. injection Hdata as ->.
  specialize (Hf _ _ _ _ eq_refl Hdec). rewrite Hsid, Hs2, Hs, str_eqb_refl, He2. cbn.
  by rewrite (proj2 (Z.leb_le _ _)) by lia.
Qed.
End fencing.

(** ** Signatures *)

Lemma mac_field_inj s s' t t' : short s -> short s' -> mac_field s +:+ t = mac_field s' +:+ t' -> s = s' /\ t = t'.
Proof.
  unfold short, mac_field. intros Hs Hs'. rewrite !append_assoc. intros E.
  apply PutUint64_inj in E as [El E]; [|lia..]. apply append_eq_len; [lia|done].
Qed.
Lemma macFields_inj ctx l l' : Forall short l -> Forall short l' -> length l = length l' ->
  macFields ctx l = macFields ctx l' -> l = l'.
Proof.
  unfold macFields. rewrite !concat_fields. cbn [fmap list_fmap foldr]. intros Hl Hl' Hn E. apply append_inj_l in E.
  revert l' Hl' Hn E. induction Hl as [|s l Hs Hl IH]; intros [|s' l'] Hl' Hn; try done. cbn. inversion_clear Hl'.
  intros E. apply mac_field_inj in E as [-> E]; [|done..]. f_equal. apply IH; [done|by injection Hn|done].
Qed.

Lemma validID_short s : validID s = true -> short s.
Proof. unfold validID, short. intros Hv. bools. lia. Qed.
Lemma validReason_short s : validReason s = true -> short s.
Proof. unfold validReason, short, MaxReasonBytes. intros Hv. bools. lia. Qed.
Lemma isLowerHex_length s n : isLowerHex s n = true -> String.length s = n.
Proof. unfold isLowerHex. intros Hv. by bools. Qed.
Lemma validateCommand_None c sig : validateCommand c sig = None <->
  cm_SchemaVersion c = SchemaVersion /\ isLowerHex (cm_CommandID c) 32 = true /\ validID (cm_SessionID c) = true /\
  1 <= cm_RevokeThroughEpoch c /\ validID (cm_ControllerID c) = true /\ validReason (cm_Reason c) = true /\
  (sig = true -> isLowerHex (cm_Signature c) 64 = true).
Proof.
  unfold validateCommand. rewrite fail_if_None, !orb_false_iff, !negb_false_iff, Z.eqb_eq, Z.ltb_ge.
  destruct sig; cbn [andb]; [rewrite negb_false_iff|]; naive_solver.
Qed.

Section signatures.
Context `{GoCrypto, GoHMAC, GoTime, ControlJSON}.

Lemma VerifyCommand_None c key : VerifyCommand c key = None <->
  String.length key = 32%nat /\ validateCommand c true = None /\ hex_decode (cm_Signature c) = Some (command_mac c key).
Proof.
  unfold VerifyCommand. rewrite fail_if_None, !orb_false_iff, negb_false_iff, Nat.eqb_eq.
  destruct (validateCommand c true), (hex_decode (cm_Signature c)) as [raw|]; cbn; try (rewrite negb_false_iff, str_eqb_true); naive_solver.
Qed.
(** Epochs are 64-bit. *)
Definition epoch_ok (c : Command) : Prop := cm_RevokeThroughEpoch c < 2 ^ 64.

Lemma command_fields_short c : validateCommand c true = None -> epoch_ok c -> Forall short (command_fields c).
Proof.
  rewrite validateCommand_None. intros (Hv & Hi & Hs & He & Hc & Hr & _) Hok. unfold epoch_ok in Hok.
  unfold command_fields. repeat constructor; auto using validID_short, validReason_short.
  - apply Itoa_short. rewrite Hv. unfold SchemaVersion. lia.
  - unfold short. rewrite (isLowerHex_length _ _ Hi). lia.
  - apply Itoa_short. lia.
Qed.
(** A key under which two different messages have one authentication code. *)
Definition mac_collision (key : string) : Prop := exists x y, x <> y /\ hmac_sha256 x key = hmac_sha256 y key.
Lemma command_mac_inj c c' key : validateCommand c true = None -> validateCommand c' true = None -> epoch_ok c -> epoch_ok c' ->
  command_mac c key = command_mac c' key -> command_fields c = command_fields c' \/ mac_collision key.
Proof.
  intros Hc Hc' Hk Hk' E.
  destruct (decide (macFields commandMACCtx (command_fields c) = macFields commandMACCtx (command_fields c'))) as [Ef|Hne].
  - left. by apply macFields_inj in Ef; [|apply command_fields_short..|].
  - right. by exists (macFields commandMACCtx (command_fields c)), (macFields commandMACCtx (command_fields c')).
Qed.

(** A signature a controller's key verifies covers the whole command: two
    commands verified with one signature are one command, and no state is
    verified with it, unless the code collides. *)
Theorem signature_binds (c c' : Command) (st : State) (key : string) :
  epoch_ok c -> epoch_ok c' -> VerifyCommand c key = None ->
  (VerifyCommand c' key = None -> cm_Signature c' = cm_Signature c -> c' = c \/ mac_collision key) /\
  (VerifyState st key = None -> sa_Signature st = cm_Signature c -> mac_collision key).
Proof.
  intros Hk Hk' (_ & Hv & Hm)%VerifyCommand_None. split.
  - intros (_ & Hv' & Hm')%VerifyCommand_None Es. rewrite Es, Hm in Hm'. injection Hm' as Em.
    apply command_mac_inj in Em as [Ef|?]; [|by right|done..]. left.
    unfold command_fields in Ef. injection Ef as Ev Ei Esi Ee Eci Er.
    apply (inj pretty) in Ev. apply (inj pretty) in Ee. destruct c, c'. cbn in *. by subst.
  - intros Hs Es. unfold VerifyState in Hs. rewrite fail_if_None, Es, Hm in Hs. bools.
    exists (macFields commandMACCtx (command_fields c)), (macFields stateMACCtx (state_fields st)). split; [done|].
    match goal with E : command_mac _ _ = _ |- _ => exact E end.
Qed.
End signatures.

(** ** The monitor *)

Section monitor.
Context `{GoCrypto, GoHMAC, GoTime, ControlJSON}.

Definition sound_channel (m : Monitor) (fs : FS) : Prop :=
  (exists st, fs !! mo_dir m = Some st /\ private_dir st = true) /\
  (exists st, fs !! FJoin [mo_dir m; "commands"] = Some st /\ private_dir st = true).
(** The command file of the session holds [raw], which is [cmd], signed by one
    of the controllers. *)
Definition commanded (m : Monitor) (fs : FS) (cmd : Command) (raw : string) : Prop :=
  fs !! CommandPath (mo_dir m) (mo_sessionID m) = Some (NFile 384 true raw) /\ (String.length raw <= MaxControlBytes)%nat /\
  decodeControl decode_command raw = Some cmd /\ cm_SessionID cmd = mo_sessionID m /\
  exists key, mo_controllers m !! cm_ControllerID cmd = Some key /\ VerifyCommand cmd key = None.
(** Nothing asks for a stop. *)
Definition quiet (m : Monitor) (fs : FS) : Prop :=
  sound_channel m fs /\
  (fs !! CommandPath (mo_dir m) (mo_sessionID m) = None \/
   exists cmd raw, commanded m fs cmd raw /\ cm_RevokeThroughEpoch cmd < mo_sessionEpoch m).
Definition revocation (m : Monitor) (fs : FS) (now : Z) (st : Stop) : Prop := exists cmd raw,
  sound_channel m fs /\ commanded m fs cmd raw /\ mo_sessionEpoch m <= cm_RevokeThroughEpoch cmd /\
  st = {| sp_Command := cmd; sp_RequestSHA256 := sha256_hex raw; sp_ObservedAt := now; sp_ResultingState := "revoked_contained" |}.

Lemma is_Some_bool (e : error) : bool_decide (is_Some e) = false <-> e = None.
Proof. destruct e; cbn; naive_solver. Qed.
Lemma key_for_verifies m cmd : VerifyCommand cmd (key_for m (cm_ControllerID cmd)) = None <->
  exists key, mo_controllers m !! cm_ControllerID cmd = Some key /\ VerifyCommand cmd key = None.
Proof.
  unfold key_for. destruct (mo_controllers m !! _) as [key|]; cbn [default from_option id]; [naive_solver|].
  rewrite VerifyCommand_None. naive_solver.
Qed.
Lemma authorized_command_Some m raw cmd : authorized_command m raw = Some cmd <->
  decodeControl decode_command raw = Some cmd /\ cm_SessionID cmd = mo_sessionID m /\
  exists key, mo_controllers m !! cm_ControllerID cmd = Some key /\ VerifyCommand cmd key = None.
Proof.
  unfold authorized_command. destruct (decodeControl _ _) as [c|]; [|naive_solver].
  destruct (cm_SessionID c <>s? mo_sessionID m) eqn:E1; cbn [orb]; bools; [naive_solver|].
  destruct (bool_decide _) eqn:E2; [|apply is_Some_bool, key_for_verifies in E2; naive_solver].
  split; [done|]. intros ([= ->] & _ & Hk%key_for_verifies). by apply is_Some_bool in Hk; congruence.
Qed.

Lemma sound_channel_spec m fs :
  bool_decide (is_Some (ValidateControlDir fs (mo_dir m))) ||
    bool_decide (is_Some (validateSubdir fs (mo_dir m) "commands" false MkErr).2) = false <-> sound_channel m fs.
Proof. rewrite orb_false_iff, !is_Some_bool, ValidateControlDir_None, validateSubdir_false. done. Qed.

(** The verdict of one look at the directory. *)
Lemma classifyCommand_cases m fs now :
  let '(cl, st) := classifyCommand fs now m in
  (stops cl = false /\ quiet m fs) \/
  (stops cl = true /\ ~ quiet m fs /\ sp_ObservedAt st = now /\
   ((run_error cl = None /\ revocation m fs now st) \/
    (is_Some (run_error cl) /\ (forall st', ~ revocation m fs now st') /\ sp_ResultingState st <> "revoked_contained" /\
     sp_Command st = zero_command (mo_sessionID m) (cm_Reason (sp_Command st))))).
Proof.
  unfold classifyCommand. destruct (_ || _) eqn:Es.
  { assert (~ sound_channel m fs) by (rewrite <- sound_channel_spec; congruence).
    right. unfold quiet, revocation. cbn. split_and!; [done|tauto|done|]. right. split_and!; [done|naive_solver|done..]. }
  apply sound_channel_spec in Es. set (path := CommandPath _ _).
  assert (Hbad : (forall cmd raw, ~ commanded m fs cmd raw) -> fs !! path <> None -> forall reason res, res <> "revoked_contained" ->
    let st := failed_stop m now res reason in
    (stops classInvalid = false /\ quiet m fs) \/
    (stops classInvalid = true /\ ~ quiet m fs /\ sp_ObservedAt st = now /\
     ((run_error classInvalid = None /\ revocation m fs now st) \/
      (is_Some (run_error classInvalid) /\ (forall st', ~ revocation m fs now st') /\ sp_ResultingState st <> "revoked_contained" /\
       sp_Command st = zero_command (mo_sessionID m) (cm_Reason (sp_Command st)))))).
  { intros Hn Hp reason res Hres. right. unfold quiet, revocation. cbn. split_and!; [done|naive_solver|done|].
    right. split_and!; [done|naive_solver|done..]. }
  destruct (readControlFile fs path) as [|e|raw] eqn:Er.
  - apply readControlFile_RNotExist in Er. left. split; [done|]. split; [done|]. by left.
  - apply Hbad; [| |done].
    + intros cmd raw (Hf & Hl & _). assert (readControlFile fs path = ROk raw) by (by apply readControlFile_ROk). congruence.
    + intros Hn. apply readControlFile_RNotExist in Hn. congruence.
  - pose proof Er as Er'. apply readControlFile_ROk in Er as [Hf Hl]. destruct (authorized_command m raw) as [cmd|] eqn:Ea.
    + apply authorized_command_Some in Ea. assert (commanded m fs cmd raw) as Hc by (unfold commanded; tauto).
      destruct (_ <? _) eqn:E; bools; [left; split; [done|]; split; [done|]; right; by exists cmd, raw|].
      right. split_and!; [done| |done|].
      * intros [_ [Hn|(cmd' & raw' & (Hf' & _ & Hd & _) & ?)]]; [subst path; congruence|].
        subst path. rewrite Hf in Hf'. injection Hf' as <-. destruct Ea as [Ea _]. rewrite Ea in Hd. injection Hd as <-. lia.
      * left. split; [done|]. by exists cmd, raw.
    + apply Hbad; [|congruence|done]. intros cmd' raw' (Hf' & Hl' & Hrest). subst path. rewrite Hf in Hf'. injection Hf' as <-.
      apply authorized_command_Some in Hrest. congruence.
Qed.

(** The monitor runs on exactly as long as nothing asks for a stop.  At the
    first tick that is not quiet it stops, once, with what was there: the
    command, if a controller signed it for this session and an epoch that
    covers it, and otherwise a containment that names no command. *)
Theorem Run_stops (m : Monitor) (ticks : list (FS * Z)) :
  ((Run m ticks).1 = None <-> Forall (fun t => quiet m t.1) ticks) /\
  (forall st err, Run m ticks = (Some st, err) <->
    exists pre fs now post, ticks = pre ++ (fs, now) :: post /\ Forall (fun t => quiet m t.1) pre /\ ~ quiet m fs /\
      (st, err) = ((classifyCommand fs now m).2, run_error (classifyCommand fs now m).1) /\ sp_ObservedAt st = now /\
      ((err = None /\ revocation m fs now st) \/
       (is_Some err /\ (forall st', ~ revocation m fs now st') /\ sp_Command st = zero_command (mo_sessionID m) (cm_Reason (sp_Command st))))).
Proof.
  induction ticks as [|[fs now] ticks IH]; cbn [Run].
  { split; [split; [constructor|done]|]. intros st err. split; [done|]. intros (pre & ? & ? & ? & E & _). by destruct pre. }
  pose proof (classifyCommand_cases m fs now) as Hc. destruct (classifyCommand fs now m) as [cl st0] eqn:Ecl.
  destruct Hc as [[-> Hq]|(-> & Hq & Ho & Hcase)].
  - destruct IH as [IH1 IH2]. split; [rewrite IH1, Forall_cons; tauto|]. intros st err. rewrite IH2. split.
    + intros (pre & fs' & now' & post & -> & Hpre & Hrest). exists ((fs, now) :: pre), fs', now', post. by split; [|split; [constructor|]].
    + intros (pre & fs' & now' & post & E & Hpre & Hn & Hrest). destruct pre as [|t pre]; injection E as <- ->; [done|].
      apply Forall_cons in Hpre as [_ Hpre]. by exists pre, fs', now', post.
  - split; [rewrite Forall_cons; cbn; naive_solver|]. intros st err. split.
    + intros [= <- <-]. exists [], fs, now, ticks. rewrite Ecl. cbn. split_and!; [done|constructor|done..|]. tauto.
    + intros (pre & fs' & now' & post & E & Hpre & Hn & Hr & _). destruct pre as [|t pre]; injection E as <- E.
      * subst. rewrite Ecl in Hr. by injection Hr as -> ->.
      * by apply Forall_cons in Hpre as [? _].
Qed.
End monitor.

(** ** What is written is read *)

Lemma runes_ascii c s : byteZ c < 128 -> runes (String c s) = byteZ c :: runes s.
Proof. intros Hc. apply Z.ltb_lt in Hc. unfold runes. cbn [decode]. by rewrite Hc. Qed.
Lemma hex_digit_byte n : (n < 16)%N -> byteZ (hex_digit n) < 128 /\ not_hex_rune (byteZ (hex_digit n)) = false.
Proof.
  intros Hn. assert (n = N.of_nat (N.to_nat n)) as -> by lia. assert (N.to_nat n < 16)%nat as Hb by lia. revert Hb.
  generalize (N.to_nat n). clear. intros k Hb. do 16 (destruct k as [|k]; [done|]). lia.
Qed.
Lemma hex_encode_lower s : isLowerHex (hex_encode s) (2 * String.length s) = true.
Proof.
  unfold isLowerHex. rewrite andb_true_iff, Nat.eqb_eq, negb_true_iff. induction s as [|c s [IHl IHr]]; [done|].
  cbn [hex_encode]. assert (N_of_ascii c < 256)%N by apply N_ascii_bounded.
  destruct (hex_digit_byte (N_of_ascii c / 16)%N) as [Ha Ha']; [apply N.Div0.div_lt_upper_bound; lia|].
  destruct (hex_digit_byte (N_of_ascii c mod 16)%N) as [Hb Hb']; [apply N.mod_lt; lia|].
  rewrite !runes_ascii by done. cbn [existsb String.length]. rewrite Ha', Hb', IHr. split; [lia|done].
Qed.

Section recorded.
Context `{GoCrypto, GoHMAC, GoTime, ControlJSON}.
(** A code is 32 bytes; a state whose names are valid UTF-8 is encoded in less
    than the limit of a control file, as one object with one member per field,
    and decodes to itself. *)
Context (Hmac : forall data key, String.length (hmac_sha256 data key) = 32%nat).
Context (Hjson : forall st data, validateState st true = None -> ValidString (sa_SessionID st) = true ->
  ValidString (sa_ControllerID st) = true -> marshal_state st = Some data ->
  (String.length (data +:+ String LF "") <= MaxControlBytes)%nat /\ decodeControl decode_state (data +:+ String LF "") = Some st).

Lemma SignState_verifies st key st' : String.length key = 32%nat -> SignState st key = Ok st' ->
  VerifyState st' key = None /\ validateState st' true = None /\ exists sig, st' = state_signed st sig.
Proof.
  intros Hk. unfold SignState. destruct (validateState st false) eqn:Ev; [done|]. intros [= <-].
  set (sig := hex_encode (state_mac st key)).
  assert (validateState (state_signed st sig) true = None) as Hv.
  { unfold validateState in *. rewrite fail_if_None in *. cbn [andb] in *. rewrite orb_false_r in Ev. cbn. rewrite Ev. cbn.
    rewrite negb_false_iff. subst sig. change 64%nat with (2 * 32)%nat. rewrite <- (Hmac (macFields stateMACCtx (state_fields st)) key).
    apply hex_encode_lower. }
  split; [|split; [done|by exists sig]]. unfold VerifyState. rewrite fail_if_None, Hk, Hv. cbn. subst sig.
  by rewrite hex_decode_encode, negb_false_iff, str_eqb_true.
Qed.

(** A stop that is recorded is what the next monitor of the session reads,
    with the highest epoch recorded so far. *)
Theorem WriteState_recorded (fs fs' : FS) (m m' : Monitor) (stop : Stop) (mk : Mkdir) (between : FS -> FS) (o : AtomicOut) (key : string) :
  mo_controllers m !! cm_ControllerID (sp_Command stop) = Some key -> String.length key = 32%nat ->
  cm_SessionID (sp_Command stop) = mo_sessionID m -> ValidString (mo_sessionID m) = true ->
  ValidString (cm_ControllerID (sp_Command stop)) = true ->
  WriteState fs m stop mk between o = (fs', (m', None)) ->
  exists st, mo_state m' = Some st /\ ReadState fs' (mo_dir m) (mo_sessionID m) (mo_controllers m) = ROk st /\
    sa_CommandID st = cm_CommandID (sp_Command stop) /\ sa_RequestSHA256 st = sp_RequestSHA256 stop /\
    sa_RevokedThroughEpoch st =
      match ReadState (validateSubdir fs (mo_dir m) "state" true mk).1 (mo_dir m) (mo_sessionID m) (mo_controllers m) with
      | ROk old => Z.max (cm_RevokeThroughEpoch (sp_Command stop)) (sa_RevokedThroughEpoch old)
      | _ => cm_RevokeThroughEpoch (sp_Command stop)
      end.
Proof.
  intros Hkey Hlen Hsid Hus Huc Hw. apply WriteState_ok in Hw as (st & data & Hp & -> & ->).
  destruct (prepare_state_cases fs m stop mk) as [Efs Hcases]. destruct (Hcases _ _ Hp) as (epoch & line & Hk & Hs & Hm & ->). rewrite Efs in *. clear Efs Hcases.
  unfold key_for in Hs. rewrite Hkey in Hs. cbn [default from_option id] in Hs.
  apply SignState_verifies in Hs as (Hv & Hval & sig & Est); [|done].
  assert (sa_SessionID st = mo_sessionID m) as Es by (by rewrite Est).
  assert (sa_ControllerID st = cm_ControllerID (sp_Command stop)) as Ec by (by rewrite Est).
  destruct (Hjson st line Hval ltac:(by rewrite Es) ltac:(by rewrite Ec) Hm) as [Hl Hd].
  exists st. split_and!; [done| |by rewrite Est|by rewrite Est|].
  - unfold ReadState. rewrite (proj2 (readControlFile_ROk _ _ _) (conj (lookup_insert_eq _ _ _) Hl)), Hd, Ec, Hkey, Es, str_eqb_refl, Hv. done.
  - rewrite Est. cbn. revert Hk. unfold kept_epoch. destruct (ReadState _ _ _ _) as [| |old]; intros [= <-]; [done|].
    destruct (_ <? _) eqn:E; bools; lia.
Qed.
End recorded.

(** ** Witnesses *)

Module KillSwitchWitness.
#[local] Existing Instance decimal_time.
Definition zeros : string := "0000000000000000000000000000000000000000000000000000000000000000".
#[local] Instance digest : GoCrypto := {| sha256_hex := fun _ => zeros |}.
Definition key : string := "0123456789abcdef0123456789abcdef".
#[local] Instance mac : GoHMAC := {| hmac_sha256 := fun _ k => if (String.length k =? 32)%nat then k else key |}.
Lemma mac_length data k : String.length (hmac_sha256 data k) = 32%nat.
Proof. cbn. destruct (_ =? 32)%nat eqn:E; by bools. Qed.
#[local] Instance State_eq : EqDecision State.
Proof. solve_decision. Defined.
Definition cmd : Command := {| cm_SchemaVersion := 1; cm_CommandID := key; cm_SessionID := "s"; cm_RevokeThroughEpoch := 2;
  cm_ControllerID := "ops"; cm_Reason := "leak"; cm_Signature := hex_encode key |}.
Definition stop : Stop := {| sp_Command := cmd; sp_RequestSHA256 := zeros; sp_ObservedAt := 7; sp_ResultingState := "revoked_contained" |}.
Definition m : Monitor := {| mo_dir := "/k"; mo_sessionID := "s"; mo_sessionEpoch := 2; mo_controllers := {["ops" := key]};
  mo_poll := PollInterval; mo_state := None |}.
Definition st : State := state_signed (state_of_stop stop 2) (hex_encode key).
#[local] Instance json : ControlJSON := {|
  json_tokens := fun _ => [TOther]; decode_command := fun _ => Some cmd; decode_state := fun _ => Some st;
  marshal_command := fun _ => Some "c"; marshal_state := fun s => if bool_decide (s = st) then Some "s" else None |}.
Lemma json_epoch s data s' : marshal_state s = Some data -> decode_state (data +:+ String LF "") = Some s' ->
  sa_RevokedThroughEpoch s' = sa_RevokedThroughEpoch s.
Proof. cbn. destruct (bool_decide_reflect (s = st)) as [->|]; [|done]. by intros _ [= <-]. Qed.
Lemma json_reads s data : validateState s true = None -> ValidString (sa_SessionID s) = true ->
  ValidString (sa_ControllerID s) = true -> marshal_state s = Some data ->
  (String.length (data +:+ String LF "") <= MaxControlBytes)%nat /\ decodeControl decode_state (data +:+ String LF "") = Some s.
Proof. intros _ _ _. cbn. destruct (bool_decide_reflect (s = st)) as [->|]; [|done]. intros [= <-]. split; [by apply Nat.leb_le|done]. Qed.
Definition fs : FS := {["/k" := NDir 448 true; "/k/commands" := NDir 448 true;
  CommandPath "/k" "s" := NFile 384 true "c"]}.
Definition after : FS := (WriteState fs m stop (MkOk true) id AwOk).1.
Definition at_epoch (epoch : Z) : Config := {| kc_Dir := "/k"; kc_SessionID := "s"; kc_SessionEpoch := epoch;
  kc_Controllers := [("ops", key)]; kc_PollInterval := 0 |}.
Definition restart (epoch : Z) : result Monitor := (NewMonitor after (at_epoch epoch) MkErr MkErr).2.
(** The stop, and the restarts at the revoked epoch and above it, the command
    file being gone. *)
Example stopped : Run m [(delete (CommandPath "/k" "s") fs, 5); (fs, 7)] = (Some stop, None).
Proof. vm_compute. reflexivity. Qed.
Example restarts :
  (fun e => match restart e with Ok m => StartupCheck (delete (CommandPath "/k" "s") after) 9 m | Err e => Some e end) <$> [1; 2; 3] =
  [Some ErrPreviouslyRevoked; Some ErrPreviouslyRevoked; None].
Proof. vm_compute. reflexivity. Qed.

(** Two monitors of one session record two revocations at once: both read
    before either renames, and the lower epoch, renamed last, is what is left. *)
Definition through (epoch : Z) : Stop := {| sp_Command := {| cm_SchemaVersion := 1; cm_CommandID := key; cm_SessionID := "s";
    cm_RevokeThroughEpoch := epoch; cm_ControllerID := "ops"; cm_Reason := "leak"; cm_Signature := hex_encode key |};
  sp_RequestSHA256 := zeros; sp_ObservedAt := 7; sp_ResultingState := "revoked_contained" |}.
Definition through_state (epoch : Z) : State := state_signed (state_of_stop (through epoch) epoch) (hex_encode key).
#[local] Instance json2 : ControlJSON := {|
  json_tokens := fun _ => [TOther]; decode_command := fun _ => None;
  decode_state := fun data => if data =s? "5" +:+ String LF "" then Some (through_state 5) else Some (through_state 3);
  marshal_command := fun _ => None;
  marshal_state := fun s => if bool_decide (s = through_state 5) then Some "5" else if bool_decide (s = through_state 3) then Some "3" else None |}.
Definition quiet_fs : FS := {["/k" := NDir 448 true; "/k/commands" := NDir 448 true]}.
Definition both_read (o5 o3 : result (State * string)) (fs : FS) : FS :=
  match o5, o3 with
  | Ok (st5, data5), Ok (st3, data3) => (publish_state (publish_state fs m st5 data5 AwOk).1 m st3 data3 AwOk).1
  | _, _ => fs
  end.
Definition raced : FS :=
  let r5 := prepare_state quiet_fs m (through 5) (MkOk true) in
  let r3 := prepare_state r5.1 m (through 3) (MkOk true) in
  both_read r5.2 r3.2 r3.1.
Definition one_by_one : FS := (WriteState (WriteState quiet_fs m (through 5) (MkOk true) id AwOk).1 m (through 3) (MkOk true) id AwOk).1.
Definition starts (fs : FS) (epoch : Z) : error :=
  match (NewMonitor fs (at_epoch epoch) MkErr MkErr).2 with Ok m => StartupCheck fs 9 m | Err e => Some e end.
Example race_lowers_epoch : (fun fs => starts fs <$> [3; 4; 5; 6]) <$> [one_by_one; raced] =
  [[Some ErrPreviouslyRevoked; Some ErrPreviouslyRevoked; Some ErrPreviouslyRevoked; None];
   [Some ErrPreviouslyRevoked; None; None; None]].
Proof. vm_compute. reflexivity. Qed.
End KillSwitchWitness.

Section killswitch_witness.
Import KillSwitchWitness.
#[local] Existing Instances decimal_time digest mac json State_eq.
Lemma revoked_epoch_fenced_witness : exists m2, restart 1 = Ok m2 /\ StartupCheck fs 0 m2 = Some ErrPreviouslyRevoked.
Proof.
  destruct (restart 1) as [m2|] eqn:Hr; [|vm_compute in Hr; discriminate]. exists m2. split; [done|].
  pose (fs1 := (prepare_state fs m stop (MkOk true)).1).
  pose (u := {| wr_monitor := m; wr_stop := stop; wr_state := st; wr_data := "s" +:+ String LF "" |}).
  assert ((prepare_state fs m stop (MkOk true)).2 = Ok (st, "s" +:+ String LF "")) as Hp by (vm_compute; reflexivity).
  eapply (revoked_epoch_fenced json_epoch fs fs1 after (NewMonitor after (at_epoch 1) MkErr MkErr).1 fs [] [] u AwOk
    {| wg_fs := after; wg_writes := [] |} _ m2 MkErr MkErr (at_epoch 1) 0).
  - apply rtc_once. exact (ch_read _ fs [] m stop (MkOk true) st _ Hp).
  - vm_compute. reflexivity.
  - reflexivity.
  - reflexivity.
  - cbn. lia.
  - by intros v [].
  - apply rtc_refl.
  - revert Hr. unfold restart. cbn [wg_fs]. destruct (NewMonitor _ _ _ _) as [fs3 r]. cbn. by intros ->.
Defined.
Lemma signature_binds_witness :
  (VerifyCommand cmd key = None -> cm_Signature cmd = cm_Signature cmd -> cmd = cmd \/ mac_collision key) /\
  (VerifyState st key = None -> sa_Signature st = cm_Signature cmd -> mac_collision key).
Proof. apply (signature_binds cmd cmd st key); [vm_compute; reflexivity..]. Defined.
Lemma WriteState_recorded_witness : exists st', mo_state (WriteState fs m stop (MkOk true) id AwOk).2.1 = Some st' /\
  ReadState after "/k" "s" (mo_controllers m) = ROk st'.
Proof.
  destruct (WriteState_recorded mac_length json_reads fs after m (WriteState fs m stop (MkOk true) id AwOk).2.1 stop (MkOk true) id AwOk key)
    as (st' & H1' & H2' & _); [vm_compute; reflexivity..|]. by exists st'.
Defined.
End killswitch_witness.
