(* ===== verification/Kinetic.v ===== *)
(** The proxy's side of the kill switch: [internal/proxy/kinetic_stop.go] and
    [kinetic_process_unix.go].

    The first half is sequential: configuration, the start of a run, and what
    one stop does to the ledger, the control directory and the proxy.  The
    second is the interleaving of the stop with the launch of the server and
    with the encoding of messages, one step per access to what they share. *)
From stdpp Require Import base strings gmap list relations functions.
From Stdlib Require Import ZArith Lia Ascii.
From S2P Require Import Prelude GoStrings GoLib ActorContext PolicyTypes Ledger KillSwitch.
#[local] Open Scope Z_scope.

Record KineticConfig := {
  kf_KillSwitchDir : string;
  kf_Controllers : list ControllerKey;
  kf_SessionID : string;
  kf_SessionEpoch : Z;
  kf_ServerURL : string;
  kf_ClientID : string;
  kf_ServerName : string
}.

(** The fields of the proxy the stop uses. *)
Record Kinetic := {
  kn_mon : option Monitor;
  kn_initErr : error;
  kn_done : bool;
  kn_revoked : bool;
  kn_cancelled : bool;
  kn_contained : bool;
  kn_runErr : error;
  kn_thru : Z;
  kn_reason : string;
  kn_result : string;
  kn_observed : Z;
  kn_audit : Logger;
  kn_forwarded : list Event;
  kn_fs : FS
}.
Definition eta_Kinetic (k : Kinetic) : Kinetic := {|
  kn_mon := kn_mon k; kn_initErr := kn_initErr k; kn_done := kn_done k; kn_revoked := kn_revoked k;
  kn_cancelled := kn_cancelled k; kn_contained := kn_contained k; kn_runErr := kn_runErr k; kn_thru := kn_thru k;
  kn_reason := kn_reason k; kn_result := kn_result k; kn_observed := kn_observed k; kn_audit := kn_audit k;
  kn_forwarded := kn_forwarded k; kn_fs := kn_fs k |}.
Definition set_mon (v : option Monitor) (k : Kinetic) : Kinetic := ltac:(with_field eta_Kinetic kn_mon k v).
Definition set_initErr (v : error) (k : Kinetic) : Kinetic := ltac:(with_field eta_Kinetic kn_initErr k v).
Definition set_done (v : bool) (k : Kinetic) : Kinetic := ltac:(with_field eta_Kinetic kn_done k v).
Definition set_revoked (v : bool) (k : Kinetic) : Kinetic := ltac:(with_field eta_Kinetic kn_revoked k v).
Definition set_cancelled (v : bool) (k : Kinetic) : Kinetic := ltac:(with_field eta_Kinetic kn_cancelled k v).
Definition set_contained (v : bool) (k : Kinetic) : Kinetic := ltac:(with_field eta_Kinetic kn_contained k v).
Definition set_runErr (v : error) (k : Kinetic) : Kinetic := ltac:(with_field eta_Kinetic kn_runErr k v).
Definition set_thru (v : Z) (k : Kinetic) : Kinetic := ltac:(with_field eta_Kinetic kn_thru k v).
Definition set_reason (v : string) (k : Kinetic) : Kinetic := ltac:(with_field eta_Kinetic kn_reason k v).
Definition set_result (v : string) (k : Kinetic) : Kinetic := ltac:(with_field eta_Kinetic kn_result k v).
Definition set_observed (v : Z) (k : Kinetic) : Kinetic := ltac:(with_field eta_Kinetic kn_observed k v).
Definition set_kaudit (v : Logger) (k : Kinetic) : Kinetic := ltac:(with_field eta_Kinetic kn_audit k v).
Definition set_kforwarded (v : list Event) (k : Kinetic) : Kinetic := ltac:(with_field eta_Kinetic kn_forwarded k v).
Definition set_fs (v : FS) (k : Kinetic) : Kinetic := ltac:(with_field eta_Kinetic kn_fs k v).

(** ** Configuration *)

Section kinetic.
Context `{GoReplace, GoTime, GoCrypto, EventJSON, GoHMAC, ControlJSON}.

(** The map of the controllers, built in their order. *)
Fixpoint controller_map (l : list ControllerKey) (acc : list (string * string)) : result (list (string * string)) :=
  match l with
  | [] => Ok acc
  | c :: l =>
      if (ck_ID c =s? "") || negb (String.length (ck_Key c) =? 32)%nat then Err "kinetic stop: invalid controller"
      else if str_in (ck_ID c) (acc.*1) then Err "kinetic stop: duplicate controller id"
      else controller_map l (acc ++ [(ck_ID c, ck_Key c)])
  end.

(** [sessionEmpty]: the session id of the configuration was empty before a
    generated one replaced it. *)
Definition initKineticStop (cfg : KineticConfig) (sessionEmpty : bool) (mkc mks : Mkdir) (k : Kinetic) : Kinetic :=
  let fail err := set_initErr (Some err) k in
  if kf_KillSwitchDir cfg =s? "" then
    if (0 <? length (kf_Controllers cfg))%nat || negb (kf_SessionEpoch cfg =? 0) then
      fail "kill-switch-controller and session-epoch require kill-switch-dir"
    else k
  else if negb (Durable (kn_audit k)) then fail "kinetic stop requires a durable audit log"
  else if kf_ServerURL cfg <>s? "" then fail "kinetic stop is not supported with remote servers"
  else if sessionEmpty || (kf_SessionID cfg =s? "") then fail "kinetic stop requires an explicit session-id"
  else if kf_SessionEpoch cfg <? 1 then fail "kinetic stop requires session-epoch >= 1"
  else if (length (kf_Controllers cfg) =? 0)%nat then fail "kinetic stop requires at least one controller"
  else match controller_map (kf_Controllers cfg) [] with
  | Err err => fail err
  | Ok ctrls =>
      match NewMonitor (kn_fs k) {| kc_Dir := kf_KillSwitchDir cfg; kc_SessionID := kf_SessionID cfg;
                kc_SessionEpoch := kf_SessionEpoch cfg; kc_Controllers := ctrls; kc_PollInterval := 0 |} mkc mks with
      | (fs, Err err) => set_fs fs (set_initErr (Some err) k)
      | (fs, Ok mon) => set_fs fs (set_mon (Some mon) k)
      end
  end.

Definition kineticEnabled (cfg : KineticConfig) (k : Kinetic) : bool :=
  (kf_KillSwitchDir cfg <>s? "") && bool_decide (kn_initErr k = None) && bool_decide (is_Some (kn_mon k)).

(** The error that keeps [Run] from starting. *)
Definition beginKineticRun (cfg : KineticConfig) (k : Kinetic) (now : Z) : error :=
  match kn_initErr k with
  | Some err => Some ("kinetic stop initialization: " +:+ err)
  | None =>
      if negb (kineticEnabled cfg k) then None
      else match kn_mon k with
      | None => None
      | Some mon =>
          match StartupCheck (kn_fs k) now mon with
          | Some err => Some ("kinetic stop initialization: " +:+ err)
          | None => None
          end
      end
  end.

(** ** Enforcement *)

Definition kinetic_event (cfg : KineticConfig) (stop : Stop) (observed : Z) : Event :=
  let c := sp_Command stop in
  {| ae_Timestamp := ""; ae_EventType := EventKineticStopEnforced; ae_SessionID := kf_SessionID cfg;
     ae_AgentID := kf_ClientID cfg; ae_Server := kf_ServerName cfg; ae_Tool := ""; ae_Arguments := None;
     ae_Decision := "revoked"; ae_Reason := cm_Reason c; ae_RiskLevel := ""; ae_SessionTaints := []; ae_TaintSource := "";
     ae_TaintReason := ""; ae_PolicyRule := ""; ae_ChainContext := []; ae_RequestHash := ""; ae_RedactedArgumentHash := "";
     ae_PolicyHash := ""; ae_ChainContextHash := ""; ae_ApprovalReceiptHash := ""; ae_ApprovalReceipt := None;
     ae_OwnershipReceiptHash := ""; ae_OwnershipReceipt := ""; ae_ServerIdentityKind := ""; ae_ServerIdentityExpected := "";
     ae_ServerIdentityResolved := ""; ae_ServerAttested := None; ae_ServerClaimedName := ""; ae_ServerClaimedVersion := "";
     ae_Lineage := None; ae_IdentitySnapshotHash := ""; ae_PrincipalID := ""; ae_ActingAgent := ""; ae_TransactionID := "";
     ae_ResultPreview := ""; ae_IsError := false; ae_Message := ""; ae_Hash := ""; ae_PrevHash := ""; ae_ChainIndex := 0;
     ae_DelegationDepth := 0; ae_MaxSpawnDepth := 0; ae_TrajectoryAdvice := None; ae_ControllerID := cm_ControllerID c;
     ae_CommandID := cm_CommandID c; ae_SessionEpoch := kf_SessionEpoch cfg; ae_RevokedThroughEpoch := cm_RevokeThroughEpoch c;
     ae_ObservedEnforcementTime := format_RFC3339Nano observed; ae_ResultingState := sp_ResultingState stop;
     ae_ControlRequestSHA256 := sp_RequestSHA256 stop |}.
Definition enforced_error (stop : Stop) : string := "kinetic stop enforced: " +:+ sp_ResultingState stop.

(** What the stop meets: two readings of the clock, the outcome of the commit,
    and that of the write of the state, with what others do to the directory
    during it. *)
Record Enforce := {
  en_now : Z;
  en_commit_now : Z;
  en_write : WriteOut;
  en_synced : bool;
  en_mkdir : Mkdir;
  en_between : FS -> FS;
  en_atomic : AtomicOut
}.
(** [observed.IsZero()] *)
Definition zero_time (t : Z) : bool := t =? -62135596800 * 1000000000.

Definition persist_state (stop : Stop) (w : Enforce) (k : Kinetic) : Kinetic * error :=
  match kn_mon k with
  | Some mon =>
      if sp_ResultingState stop =s? "revoked_contained" then
        match WriteState (kn_fs k) mon stop (en_mkdir w) (en_between w) (en_atomic w) with
        | (fs, (mon, err)) => (set_mon (Some mon) (set_fs fs k), err)
        end
      else (k, None)
  | None => (k, None)
  end.

Definition enforceKineticStop (cfg : KineticConfig) (stop : Stop) (w : Enforce) (k : Kinetic) : Kinetic :=
  if kn_done k then k
  else
    let observed := if zero_time (sp_ObservedAt stop) then en_now w else sp_ObservedAt stop in
    let k := set_contained true (set_cancelled true (set_revoked true (set_done true k))) in
    let ev := kinetic_event cfg stop observed in
    let '(l, auditErr) := CommitKineticStop (kn_audit k) (en_commit_now w) ev (en_write w) (en_synced w) in
    let k := set_kaudit l k in
    let '(k, out) := match auditErr with
                     | Some err => (k, Some err)
                     | None => persist_state stop w k
                     end in
    let k := set_runErr (Some (default (enforced_error stop) out)) k in
    let k := match auditErr with None => set_kforwarded (kn_forwarded k ++ [ev]) k | Some _ => k end in
    set_observed observed (set_result (sp_ResultingState stop) (set_reason (cm_Reason (sp_Command stop))
      (set_thru (cm_RevokeThroughEpoch (sp_Command stop)) k))).

(** What [Run] returns once the relays have ended with [err]. *)
Definition kineticOr (k : Kinetic) (err : error) : error :=
  match kn_runErr k with Some ke => Some ke | None => err end.
Definition runKineticMonitor (cfg : KineticConfig) (w : Enforce) (ticks : list (FS * Z)) (k : Kinetic) : Kinetic * error :=
  match kn_mon k with
  | None => (k, None)
  | Some mon =>
      let '(stop, err) := Run mon ticks in
      let k := match stop with Some stop => enforceKineticStop cfg stop w k | None => k end in
      (k, kineticOr k err)
  end.
End kinetic.

(** ** Interleaving

    Threads that share [kineticIOMu]: the stop ([containSupervisedProcess]
    after [kineticRevoked] is set), the launch ([startSupervised]) and any
    number of encodings ([encodeIfNotRevoked]), which begin once the launch has
    returned.  Messages go to the server or, during the handshake, to the
    client; a write waits for as long as its reader does not read. *)
Inductive thread := TStop | TLaunch | TEncode (i : nat).
#[export] Instance thread_eq : EqDecision thread.
Proof. solve_decision. Defined.

Inductive stop_pc := SIdle | SRevoked | SPipesClosed | SLocked | SContained.
#[export] Instance stop_pc_eq : EqDecision stop_pc.
Proof. solve_decision. Defined.
Inductive launch_pc :=
| LIdle | LLocked | LChecked | LStarted | LRegistered | LPiped | LRevoked | LClosed | LRefused | LFailed | LDone.
Inductive target := ToServer | ToClient.
Record outgoing := { og_to : target; og_raw : string }.
Inductive encode_pc := EWaiting (msg : outgoing) | ELocked (msg : outgoing) | EChecked (msg : outgoing) | EWritten | EFailed | ERefused.
Inductive pipes := PNone | POpen | PClosed.
(** The reader at the other end of a pipe. *)
Inductive peer := Reading | Stalled | Gone.

Record Sys := {
  sy_revoked : bool;
  sy_lock : option thread;
  sy_alive : bool;
  sy_registered : bool;
  sy_pipes : pipes;
  sy_server : peer;
  sy_client : peer;
  sy_written : list outgoing;
  sy_stop : stop_pc;
  sy_launch : launch_pc;
  sy_encode : nat -> encode_pc
}.
Definition close_pipes (p : pipes) : pipes := match p with POpen => PClosed | p => p end.
(** [killKineticProcess] of the registered command, if any. *)
Definition killed (registered alive : bool) : bool := alive && negb registered.

Definition eta_Sys (s : Sys) : Sys := {|
  sy_revoked := sy_revoked s; sy_lock := sy_lock s; sy_alive := sy_alive s; sy_registered := sy_registered s;
  sy_pipes := sy_pipes s; sy_server := sy_server s; sy_client := sy_client s;
  sy_written := sy_written s; sy_stop := sy_stop s; sy_launch := sy_launch s; sy_encode := sy_encode s |}.
Definition set_flag (v : bool) (s : Sys) : Sys := ltac:(with_field eta_Sys sy_revoked s v).
Definition set_lock (v : option thread) (s : Sys) : Sys := ltac:(with_field eta_Sys sy_lock s v).
Definition set_alive (v : bool) (s : Sys) : Sys := ltac:(with_field eta_Sys sy_alive s v).
Definition set_registered (v : bool) (s : Sys) : Sys := ltac:(with_field eta_Sys sy_registered s v).
Definition set_pipes (v : pipes) (s : Sys) : Sys := ltac:(with_field eta_Sys sy_pipes s v).
Definition set_server (v : peer) (s : Sys) : Sys := ltac:(with_field eta_Sys sy_server s v).
Definition set_client (v : peer) (s : Sys) : Sys := ltac:(with_field eta_Sys sy_client s v).
Definition set_written (v : list outgoing) (s : Sys) : Sys := ltac:(with_field eta_Sys sy_written s v).
Definition at_stop (v : stop_pc) (s : Sys) : Sys := ltac:(with_field eta_Sys sy_stop s v).
Definition at_launch (v : launch_pc) (s : Sys) : Sys := ltac:(with_field eta_Sys sy_launch s v).
Definition at_encode (i : nat) (v : encode_pc) (s : Sys) : Sys := ltac:(with_field eta_Sys sy_encode s (<[i := v]> (sy_encode s))).

(** [kineticIOMu.Lock()], which waits, and its release. *)
Definition lock (t : thread) (s : Sys) : option Sys := match sy_lock s with None => Some (set_lock (Some t) s) | Some _ => None end.
Abbreviation unlock := (set_lock None).

(** [stop.Store(true)], [closeSupervisedPipes], then the lock and
    [killSupervisedLocked]. *)
Definition next_stop (s : Sys) : option Sys :=
  match sy_stop s with
  | SIdle => Some (at_stop SRevoked (set_flag true s))
  | SRevoked => Some (at_stop SPipesClosed (set_pipes (close_pipes (sy_pipes s)) s))
  | SPipesClosed => at_stop SLocked <$> lock TStop s
  | SLocked => Some (at_stop SContained (unlock (set_alive (killed (sy_registered s) (sy_alive s)) s)))
  | SContained => None
  end.
(** [startSupervised]; [ok] is whether [cmd.Start] works. *)
Definition next_launch (ok : bool) (s : Sys) : option Sys :=
  match sy_launch s with
  | LIdle => at_launch LLocked <$> lock TLaunch s
  | LLocked => Some (if sy_revoked s then at_launch LRefused (unlock s) else at_launch LChecked s)
  | LChecked => Some (if ok then at_launch LStarted (set_alive true s) else at_launch LFailed (unlock s))
  | LStarted => Some (at_launch LRegistered (set_registered true s))
  | LRegistered => Some (at_launch LPiped (set_pipes POpen s))
  | LPiped => Some (if sy_revoked s then at_launch LRevoked s else at_launch LDone (unlock s))
  | LRevoked => Some (at_launch LClosed (set_pipes (close_pipes (sy_pipes s)) s))
  | LClosed => Some (at_launch LRefused (unlock (set_alive (killed (sy_registered s) (sy_alive s)) s)))
  | _ => None
  end.
(** What becomes of a write: it succeeds, it fails, or it waits ([None]).
    Closing its pipe makes a write to the server fail, also one that waits. *)
Definition taken (r : peer) : option bool := match r with Reading => Some true | Stalled => None | Gone => Some false end.
Definition write_outcome (msg : outgoing) (s : Sys) : option bool :=
  match og_to msg with
  | ToServer => match sy_pipes s with POpen => taken (sy_server s) | _ => Some false end
  | ToClient => taken (sy_client s)
  end.
Definition launched (s : Sys) : bool := match sy_launch s with LDone => true | _ => false end.
(** [encodeIfNotRevoked] *)
Definition next_encode (i : nat) (s : Sys) : option Sys :=
  match sy_encode s i with
  | EWaiting msg => if launched s then at_encode i (ELocked msg) <$> lock (TEncode i) s else None
  | ELocked msg => Some (if sy_revoked s then at_encode i ERefused (unlock s) else at_encode i (EChecked msg) s)
  | EChecked msg =>
      match write_outcome msg s with
      | None => None
      | Some true => Some (at_encode i EWritten (unlock (set_written (sy_written s ++ [msg]) s)))
      | Some false => Some (at_encode i EFailed (unlock s))
      end
  | _ => None
  end.

(** One move: a thread's next access, the server's own exit, or a change of
    what a reader does. *)
Inductive move := MStop | MLaunch (ok : bool) | MEncode (i : nat) | MExit | MReader (t : target) (r : peer).
(** The proxy's own moves. *)
Definition own (m : move) : bool := match m with MStop | MLaunch _ | MEncode _ => true | _ => false end.
Definition next (m : move) (s : Sys) : option Sys :=
  match m with
  | MStop => next_stop s
  | MLaunch ok => next_launch ok s
  | MEncode i => next_encode i s
  | MExit => Some (set_alive false s)
  | MReader ToServer r => Some (set_server r s)
  | MReader ToClient r => Some (set_client r s)
  end.
(** A move that cannot be made yet is skipped. *)
Definition run_moves (ms : list move) (s : Sys) : Sys := fold_left (fun s m => default s (next m s)) ms s.
Definition steps : Sys -> Sys -> Prop := rtc (fun s s' => exists m, next m s = Some s').

Definition initial (msgs : nat -> outgoing) : Sys := {|
  sy_revoked := false; sy_lock := None; sy_alive := false; sy_registered := false; sy_pipes := PNone; sy_server := Reading; sy_client := Reading; sy_written := [];
  sy_stop := SIdle; sy_launch := LIdle; sy_encode := fun i => EWaiting (msgs i) |}.
