(* ===== verification/KineticSpec.v ===== *)
(** What a stop guarantees: once the proxy has contained the session nothing
    is written to the server and no server process runs, whatever the threads
    were doing; the ledger has the stop before the control directory does; and
    a revoked proxy relays nothing. *)
From stdpp Require Import base strings gmap list relations functions.
From Stdlib Require Import ZArith Lia Ascii.
From S2P Require Import Prelude GoStrings GoLib ActorContext PolicyTypes Ledger LedgerSpec KillSwitch Kinetic.
From S2P Require KillSwitchSpec.
#[local] Open Scope Z_scope.

(** ** Containment *)

(** Who is inside the lock. *)
Definition stop_inside (s : Sys) : Prop := sy_stop s = SLocked.
Definition launch_inside (s : Sys) : Prop :=
  match sy_launch s with LIdle | LRefused | LFailed | LDone => False | _ => True end.
Definition encode_inside (s : Sys) (i : nat) : Prop :=
  match sy_encode s i with ELocked _ | EChecked _ => True | _ => False end.
Definition holder (s : Sys) (t : thread) : Prop :=
  match t with TStop => stop_inside s | TLaunch => launch_inside s | TEncode i => encode_inside s i end.

(** A process runs only between its start and its end, and is registered from
    just after; pipes are open only from their registration on. *)
Definition launch_ok (s : Sys) : Prop :=
  match sy_launch s with
  | LIdle | LLocked | LChecked | LFailed => sy_alive s = false /\ sy_pipes s <> POpen
  | LStarted => sy_pipes s <> POpen
  | LRegistered => sy_registered s = true /\ sy_pipes s <> POpen
  | LPiped | LDone => sy_registered s = true
  | LRevoked => sy_registered s = true /\ sy_revoked s = true
  | LClosed => sy_registered s = true /\ sy_pipes s <> POpen /\ sy_revoked s = true
  | LRefused => sy_alive s = false /\ sy_pipes s <> POpen /\ sy_revoked s = true
  end.
Record sys_inv (s : Sys) : Prop := {
  si_lock : forall t, holder s t <-> sy_lock s = Some t;
  si_flag : sy_revoked s = true <-> sy_stop s <> SIdle;
  si_launch : launch_ok s;
  (** the pipes of a launch that is done are closed once the stop has closed them *)
  si_pipes : match sy_stop s with SIdle | SRevoked => True | _ => sy_launch s = LDone -> sy_pipes s <> POpen end;
  (** past containment *)
  si_contained : sy_stop s = SContained ->
    sy_alive s = false /\ (forall i msg, sy_encode s i <> EChecked msg) /\
    match sy_launch s with LIdle | LLocked | LRefused | LFailed | LDone => True | _ => False end;
  (** encodings begin after the launch *)
  si_encode : forall i, encode_inside s i -> sy_launch s = LDone
}.

Lemma initial_inv msgs : sys_inv (initial msgs).
Proof.
  split; cbn; try done.
  - intros [| |i]; split; done.
Qed.

(** The lock after a move of its holder, and of a thread that takes it. *)
Lemma lock_Some t s s' : lock t s = Some s' <-> sy_lock s = None /\ s' = set_lock (Some t) s.
Proof. unfold lock. destruct (sy_lock s); naive_solver. Qed.
(** A move of [t] keeps the lock, takes it when it is free, or gives it back. *)
Lemma lock_kept t s s' :
  (forall t', holder s t' <-> sy_lock s = Some t') -> (forall t', t' <> t -> holder s' t' <-> holder s t') ->
  (sy_lock s' = sy_lock s /\ (holder s' t <-> holder s t)) \/ (sy_lock s = None /\ sy_lock s' = Some t /\ holder s' t) \/
    (holder s t /\ sy_lock s' = None /\ ~ holder s' t) ->
  forall t', holder s' t' <-> sy_lock s' = Some t'.
Proof.
  intros Hl Ho Hc t'. destruct (decide (t' = t)) as [->|Hne].
  - rewrite Hl in Hc. naive_solver congruence.
  - rewrite Ho, Hl by done. rewrite Hl in Hc. naive_solver congruence.
Qed.

(** The invariant after a move of [t]: the lock by [lock_kept], the rest by
    computation. *)
Ltac moved t s Hl := split; [apply (lock_kept t s); [exact Hl | |] | cbn | | cbn | cbn | ].
Ltac others := intros [| |?] ?; cbn; try done.

Lemma stop_keeps s s' : sys_inv s -> next_stop s = Some s' -> sys_inv s'.
Proof.
  intros [Hl Hf Hla Hp Hc Hen]. unfold next_stop. destruct (sy_stop s) eqn:Es.
  - intros [= <-]. moved TStop s Hl; [others| | | | |done|exact Hen].
    + left. split; [done|]. cbn. unfold stop_inside. cbn. by rewrite Es.
    + done.
    + revert Hla. unfold launch_ok. cbn. destruct (sy_launch s); naive_solver.
    + done.
  - intros [= <-]. moved TStop s Hl; [others| | | | |done|exact Hen].
    + left. split; [done|]. cbn. unfold stop_inside. cbn. by rewrite Es.
    + rewrite Hf. done.
    + revert Hla. unfold launch_ok. cbn. destruct (sy_launch s), (sy_pipes s); naive_solver.
    + intros _. by destruct (sy_pipes s).
  - destruct (lock TStop s) as [s1|] eqn:E; [|done]. apply lock_Some in E as [E ->]. intros [= <-].
    moved TStop s Hl; [others| | | | |done|exact Hen].
    + right. left. done.
    + rewrite Hf. done.
    + done.
    + done.
  - intros [= <-]. assert (Hfree : ~ launch_inside s /\ forall i, ~ encode_inside s i).
    { assert (sy_lock s = Some TStop) as E by (by apply Hl). split; [intros Hi; apply (Hl TLaunch) in Hi|intros i Hi; apply (Hl (TEncode i)) in Hi]; congruence. }
    destruct Hfree as [Hnl Hne]. unfold launch_inside in Hnl. moved TStop s Hl; [others| | | | | |exact Hen].
    + right. right. split; [done|]. split; [done|]. done.
    + rewrite Hf. done.
    + revert Hla. unfold launch_ok, killed. cbn. destruct (sy_launch s), (sy_alive s), (sy_registered s); naive_solver.
    + done.
    + intros _. split_and!.
      * revert Hla. unfold launch_ok, killed. destruct (sy_launch s), (sy_alive s), (sy_registered s); naive_solver.
      * intros i msg E. apply (Hne i). unfold encode_inside. by rewrite E.
      * by destruct (sy_launch s).
  - done.
Qed.

Lemma launch_keeps ok s s' : sys_inv s -> next_launch ok s = Some s' -> sys_inv s'.
Proof.
  intros [Hl Hf Hla Hp Hc Hen]. unfold next_launch. unfold launch_ok in Hla.
  assert (Hkeep : forall s', sy_lock s' = sy_lock s -> launch_inside s -> launch_inside s' ->
    (sy_lock s' = sy_lock s /\ (holder s' TLaunch <-> holder s TLaunch)) \/
    (sy_lock s = None /\ sy_lock s' = Some TLaunch /\ holder s' TLaunch) \/
    (holder s TLaunch /\ sy_lock s' = None /\ ~ holder s' TLaunch)) by (left; cbn; tauto).
  assert (Hrelease : forall s', sy_lock s' = None -> launch_inside s -> ~ launch_inside s' ->
    (sy_lock s' = sy_lock s /\ (holder s' TLaunch <-> holder s TLaunch)) \/
    (sy_lock s = None /\ sy_lock s' = Some TLaunch /\ holder s' TLaunch) \/
    (holder s TLaunch /\ sy_lock s' = None /\ ~ holder s' TLaunch)) by (right; right; cbn; tauto).
  assert (Hin : launch_inside s -> sy_stop s <> SLocked).
  { intros Hi Es. apply (Hl TLaunch) in Hi. apply (Hl TStop) in Es. congruence. }
  assert (Hno : sy_launch s <> LDone -> forall v, forall i, encode_inside s i -> v = LDone) by (intros Hne v i Hi; by destruct Hne; eapply Hen).
  destruct (sy_launch s) eqn:Es; try done; unfold launch_inside in Hkeep, Hrelease, Hin; rewrite Es in Hkeep, Hrelease, Hin.
  { destruct (lock TLaunch s) as [s1|] eqn:E; [|done]. apply lock_Some in E as [E ->]. intros [= <-].
    moved TLaunch s Hl; [others|right; left; done|done|unfold launch_ok; cbn; tauto|by destruct (sy_stop s)|tauto|by apply Hno]. }
  all: destruct (sy_revoked s) eqn:Er; try destruct ok; intros [= <-]; unfold launch_ok, killed in *; cbn in *.
  all: moved TLaunch s Hl; [others| |try done| | | |by apply Hno].
  all: try (apply Hkeep; done); try (apply Hrelease; [done|done|tauto]).
  all: cbn in *; try (rewrite ?Er; done); unfold launch_ok, killed; cbn.
  all: try (destruct (sy_stop s); intuition congruence).
  all: destruct (sy_pipes s), (sy_alive s), (sy_registered s); cbn in *; intuition (discriminate || congruence).
Qed.

Lemma encode_keeps i s s' : sys_inv s -> next_encode i s = Some s' -> sys_inv s'.
Proof.
  intros [Hl Hf Hla Hp Hc Hen]. unfold next_encode.
  assert (Hother : forall v s1, sy_stop s1 = sy_stop s -> sy_launch s1 = sy_launch s -> sy_encode s1 = <[i := v]> (sy_encode s) ->
    forall t', t' <> TEncode i -> holder s1 t' <-> holder s t').
  { intros v s1 E1 E2 E3 [| |j] Hne; cbn; unfold stop_inside, launch_inside, encode_inside; rewrite ?E1, ?E2, ?E3; try done.
    by rewrite fn_lookup_insert_ne by congruence. }
  assert (Hself : forall v s1, sy_encode s1 = <[i := v]> (sy_encode s) ->
    holder s1 (TEncode i) <-> match v with ELocked _ | EChecked _ => True | _ => False end).
  { intros v s1 E. cbn. unfold encode_inside. by rewrite E, fn_lookup_insert. }
  assert (Hen' : forall v s1, sy_launch s1 = sy_launch s -> sy_encode s1 = <[i := v]> (sy_encode s) ->
    (match v with ELocked _ | EChecked _ => True | _ => False end -> sy_launch s = LDone) -> forall j, encode_inside s1 j -> sy_launch s1 = LDone).
  { intros v s1 El E Hv j. unfold encode_inside. rewrite El, E. destruct (decide (i = j)) as [<-|].
    - rewrite fn_lookup_insert. exact Hv.
    - rewrite fn_lookup_insert_ne by done. apply Hen. }
  assert (Hcont : forall v, (forall msg, v = EChecked msg -> sy_revoked s = false) -> sy_stop s = SContained ->
    sy_alive s = false /\ (forall j msg, <[i := v]> (sy_encode s) j <> EChecked msg) /\
    match sy_launch s with LIdle | LLocked | LRefused | LFailed | LDone => True | _ => False end).
  { intros v Hv Es. destruct (Hc Es) as (Ha & He & Hlc). split_and!; [done| |done]. intros j msg. destruct (decide (i = j)) as [<-|].
    - rewrite fn_lookup_insert. intros ->. specialize (Hv _ eq_refl). rewrite (proj2 Hf) in Hv; [done|by rewrite Es].
    - by rewrite fn_lookup_insert_ne. }
  assert (Hi : encode_inside s i -> sy_launch s = LDone) by apply Hen. unfold encode_inside in Hi.
  destruct (sy_encode s i) as [msg|msg|msg| | |] eqn:Ee; try done.
  - destruct (launched s) eqn:Ed; [|done]. assert (sy_launch s = LDone) as Hd by (revert Ed; unfold launched; by destruct (sy_launch s)).
    destruct (lock (TEncode i) s) as [s1|] eqn:E; [|done]. apply lock_Some in E as [E ->]. intros [= <-].
    moved (TEncode i) s Hl; [eapply Hother; reflexivity| |done|done|done|by apply Hcont|by eapply Hen'; [reflexivity..|]].
    right. left. split; [done|]. split; [done|]. by erewrite Hself by reflexivity.
  - assert (sy_launch s = LDone) as Hd by by apply Hi.
    destruct (sy_revoked s) eqn:Er; intros [= <-]; moved (TEncode i) s Hl; try (eapply Hother; reflexivity); try done; try (by apply Hcont);
      try (by eapply Hen'; [reflexivity..|]).
    + right. right. split; [cbn; unfold encode_inside; by rewrite Ee|]. split; [done|]. intros Hh. by apply (Hself ERefused) in Hh.
    + cbn. by rewrite Er.
    + left. split; [done|]. rewrite (Hself (EChecked msg)) by reflexivity. cbn. unfold encode_inside. by rewrite Ee.
    + cbn. by rewrite Er.
  - assert (sy_launch s = LDone) as Hd by by apply Hi. destruct (write_outcome msg s) as [[]|]; [..|done]; intros [= <-];
      (moved (TEncode i) s Hl; [eapply Hother; reflexivity| |done|done|done|by apply Hcont|by eapply Hen'; [reflexivity..|]]);
      right; right; (split; [cbn; unfold encode_inside; by rewrite Ee|]); (split; [done|]); intros Hh.
    + by apply (Hself EWritten) in Hh.
    + by apply (Hself EFailed) in Hh.
Qed.

Lemma next_keeps m s s' : sys_inv s -> next m s = Some s' -> sys_inv s'.
Proof.
  intros Hi. destruct m as [|ok|i| |[] r]; cbn [next]; [by apply stop_keeps|by apply launch_keeps|by apply encode_keeps| |..];
    intros [= <-]; destruct Hi as [Hl Hf Hla Hp Hc Hen]; [|by split..]. split; try done; cbn.
  - revert Hla. unfold launch_ok. cbn. destruct (sy_launch s); naive_solver.
  - naive_solver.
Qed.
Lemma steps_keep s s' : steps s s' -> sys_inv s -> sys_inv s'.
Proof. induction 1 as [|s1 s2 s3 [m Hm] _ IH]; [done|]. intros Hi. apply IH. by eapply next_keeps. Qed.

(** What no move after containment changes: the messages written. *)
Lemma contained_next m s s' : sys_inv s -> sy_stop s = SContained -> next m s = Some s' ->
  sy_stop s' = SContained /\ sy_written s' = sy_written s.
Proof.
  intros [Hl Hf Hla Hp Hc Hen] Es. destruct (Hc Es) as (_ & He & _). destruct m as [|ok|i| |[] r]; cbn [next].
  - unfold next_stop. by rewrite Es.
  - unfold next_launch, lock. destruct (sy_launch s), (sy_lock s), (sy_revoked s), ok; intros [= <-]; done.
  - unfold next_encode, lock. specialize (He i).
    destruct (sy_encode s i), (launched s), (sy_lock s), (sy_revoked s); intros E; simplify_eq/=; naive_solver.
  - by intros [= <-].
  - by intros [= <-].
  - by intros [= <-].
Qed.

(** C8.  However the stop, the launch of the server and any number of encodings
    interleave: once the stop has contained the session no message is written
    any more, no server process runs, and the pipes of a server that was
    launched are closed; and a launch that is refused leaves no process. *)
Theorem contained_for_good (msgs : nat -> outgoing) (s s' : Sys) :
  steps (initial msgs) s -> sy_stop s = SContained -> steps s s' ->
  sy_written s' = sy_written s /\ sy_alive s' = false /\ (sy_launch s' = LDone -> sy_pipes s' <> POpen) /\
  (forall i msg, sy_encode s' i <> EChecked msg).
Proof.
  intros Hr Hs Hs'. apply steps_keep in Hr; [|apply initial_inv].
  assert (sy_stop s' = SContained /\ sy_written s' = sy_written s) as [Es Ew].
  { revert Hr Hs. induction Hs' as [|s1 s2 s3 [m Hm] Hs' IH]; [done|]. intros Hi Hs.
    destruct (contained_next _ _ _ Hi Hs Hm) as [Hs2 Hw]. rewrite <- Hw. apply IH; [by eapply next_keeps|done]. }
  apply steps_keep in Hs'; [|done]. destruct Hs' as [_ _ _ Hp Hc _]. rewrite Es in Hp. destruct (Hc Es) as (Ha & He & _).
  split_and!; [done|done|done|done].
Qed.

(** A write to the client that waits for its reader, inside the lock. *)
Definition client_stalls (s : Sys) : Prop := exists i msg, sy_encode s i = EChecked msg /\ og_to msg = ToClient /\ sy_client s = Stalled.

(** The lock is given back within six moves of its holder, once the flag is
    set and the stop waits for the lock: a write to the server fails by then. *)
Lemma holder_leaves s : sys_inv s -> sy_stop s = SPipesClosed -> ~ client_stalls s ->
  exists ms, (length ms <= 6)%nat /\ forallb own ms = true /\ sy_lock (run_moves ms s) = None /\ sy_stop (run_moves ms s) = SPipesClosed.
Proof.
  intros [Hl Hf _ Hp _ Hen] Es Hns. assert (sy_revoked s = true) as Er by (apply Hf; by rewrite Es).
  destruct (sy_lock s) as [[| |i]|] eqn:El.
  - assert (holder s TStop) as Hh by (by apply Hl). cbn in Hh. unfold stop_inside in Hh. congruence.
  - assert (holder s TLaunch) as Hh by (by apply Hl). clear Hp Hns Hen. cbn in Hh. unfold launch_inside in Hh. destruct s as [v lk a r p ps pc w sp la e]. cbn in *. subst v sp.
    exists (repeat (MLaunch true) (match la with LLocked | LClosed => 1 | LChecked => 6 | LStarted => 5 | LRegistered => 4 | LPiped => 3 | _ => 2 end)).
    destruct la; try done; cbn; (split; [lia|done]).
  - assert (holder s (TEncode i)) as Hh by (by apply Hl). exists [MEncode i]. cbn. unfold next_encode.
    specialize (Hen i Hh). rewrite Es in Hp. specialize (Hp Hen). cbn in Hh. unfold encode_inside in Hh.
    destruct (sy_encode s i) as [| |msg| | |] eqn:Ee; try done; rewrite ?Er; cbn; [by split_and!; try lia|].
    assert (exists b, write_outcome msg s = Some b) as [b ->]; [|by destruct b; cbn; split_and!; try lia].
    unfold write_outcome. destruct (og_to msg) eqn:Eo; [destruct (sy_pipes s); [by eexists|done|by eexists]|].
    destruct (sy_client s) eqn:Ec; cbn; [by eexists| |by eexists]. destruct Hns. by exists i, msg.
  - exists []. cbn. split; [lia|done].
Qed.

Lemma free_stop s : sy_lock s = None -> sy_stop s = SPipesClosed -> sy_stop (run_moves [MStop; MStop] s) = SContained.
Proof. destruct s as [v lk a r p ps pc w sp la e]. cbn. by intros -> ->. Qed.
Lemma run_moves_app ms ms' s : run_moves (ms ++ ms') s = run_moves ms' (run_moves ms s).
Proof. apply fold_left_app. Qed.
Lemma run_moves_keep ms s : sys_inv s -> sys_inv (run_moves ms s).
Proof.
  revert s. induction ms as [|m ms IH]; intros s Hi; [done|]. apply IH. destruct (next m s) as [s1|] eqn:E; [by eapply next_keeps|done].
Qed.
(** The stop reaches its wait for the lock by itself. *)
Lemma stop_waits s : sy_stop s <> SLocked -> sy_stop s <> SContained -> let s' := run_moves [MStop; MStop] s in
  sy_stop s = SPipesClosed \/ sy_stop s' = SPipesClosed /\ sy_encode s' = sy_encode s /\ sy_client s' = sy_client s \/
  sy_stop s = SRevoked /\ sy_stop (run_moves [MStop] s) = SPipesClosed /\ sy_encode (run_moves [MStop] s) = sy_encode s /\
    sy_client (run_moves [MStop] s) = sy_client s.
Proof.
  destruct s as [v lk a r p ps pc w sp la e]. cbn. destruct sp; intros; cbn; [by right; left|by right; right|by left|done..].
Qed.
(** While a write to the client waits, it keeps the lock, and the stop out. *)
Lemma stalled_next m s s' : sys_inv s -> client_stalls s -> own m = true -> next m s = Some s' -> client_stalls s'.
Proof.
  intros [Hl _ _ _ _ Hen] (i & msg & Ee & Eo & Ec) Ho Hn.
  assert (sy_lock s = Some (TEncode i)) as Hli by (apply Hl; cbn; unfold encode_inside; by rewrite Ee).
  exists i, msg. destruct m as [|ok|j| |]; cbn [next] in Hn; [..|done|done].
  - unfold next_stop in Hn. destruct (sy_stop s) eqn:Es; [| | | |done].
    + by injection Hn as <-.
    + by injection Hn as <-.
    + destruct (lock TStop s) as [s1|] eqn:E; [|done]. apply lock_Some in E as [E _]. congruence.
    + assert (sy_lock s = Some TStop) as E by (by apply Hl). congruence.
  - unfold next_launch in Hn. rewrite (Hen i) in Hn by (unfold encode_inside; by rewrite Ee). done.
  - destruct (decide (j = i)) as [->|Hne].
    + unfold next_encode in Hn. rewrite Ee in Hn. unfold write_outcome in Hn. rewrite Eo, Ec in Hn. done.
    + assert (sy_encode s' = <[j := sy_encode s' j]> (sy_encode s) /\ sy_client s' = sy_client s) as [-> ->];
        [|by rewrite fn_lookup_insert_ne].
      assert (~ encode_inside s j) as Hnj by (intros Hj; apply (Hl (TEncode j)) in Hj; congruence).
      unfold next_encode in Hn. unfold encode_inside in Hnj. destruct (sy_encode s j) as [m| | | | |] eqn:Ej; try done; try tauto.
      destruct (launched s); [|done]. destruct (lock (TEncode j) s) as [s1|] eqn:E; [|done]. apply lock_Some in E as [E _]. congruence.
Qed.
Lemma stalled_forever ms s : sys_inv s -> client_stalls s -> forallb own ms = true -> sy_stop (run_moves ms s) <> SContained.
Proof.
  revert s. induction ms as [|m ms IH]; intros s Hi Hc.
  - intros _ Es. destruct Hi as [_ _ _ _ Hcon _]. destruct (Hcon Es) as (_ & He & _). destruct Hc as (i & msg & Ee & _). by destruct (He i msg).
  - cbn. intros [Ho Hms]%andb_true_iff. destruct (next m s) as [s1|] eqn:E; cbn; [|by apply IH].
    apply IH; [by eapply next_keeps|by eapply stalled_next|done].
Qed.

(** C9.  From any point the stop gets through by the moves of the proxy alone, with
    a server that has stopped reading and whoever holds the lock: a dozen moves,
    of the stop itself and of the thread it may have to wait for, contain the
    session — unless that thread is writing to a client that has stopped
    reading (the handshake's reply), and then no moves of the proxy do. *)
Theorem stop_gets_through (msgs : nat -> outgoing) (s : Sys) :
  steps (initial msgs) s ->
  (~ client_stalls s -> exists ms, (length ms <= 12)%nat /\ forallb own ms = true /\ sy_stop (run_moves ms s) = SContained) /\
  (client_stalls s -> forall ms, forallb own ms = true -> sy_stop (run_moves ms s) <> SContained).
Proof.
  intros Hr. apply steps_keep in Hr; [|apply initial_inv]. split; [|intros Hc ms; by apply stalled_forever].
  intros Hns. assert (Hwait : forall ms, (length ms <= 2)%nat -> forallb own ms = true -> sy_stop (run_moves ms s) = SPipesClosed ->
    ~ client_stalls (run_moves ms s) ->
    exists ms, (length ms <= 12)%nat /\ forallb own ms = true /\ sy_stop (run_moves ms s) = SContained).
  { intros ms Hn Ho Es Hc. destruct (holder_leaves _ (run_moves_keep ms s Hr) Es Hc) as (ms' & Hn' & Ho' & Hl & Es').
    exists (ms ++ ms' ++ [MStop; MStop]). rewrite !length_app, !forallb_app, Ho, Ho', !run_moves_app. cbn [length forallb own].
    split_and!; [lia|done|]. by apply free_stop. }
  destruct (decide (sy_stop s = SContained)) as [Ec|Ec]; [by exists []; cbn; split; [lia|]|].
  destruct (decide (sy_stop s = SLocked)) as [El|El]; [exists [MStop]; cbn; unfold next_stop; rewrite El; by split; [lia|]|].
  destruct (stop_waits s El Ec) as [Es|[(Es & Ee & Ecl)|(_ & Es & Ee & Ecl)]].
  - by apply (Hwait []); [cbn; lia|..].
  - apply (Hwait [MStop; MStop]); [cbn; lia|done|done|]. unfold client_stalls. by rewrite Ee, Ecl.
  - apply (Hwait [MStop]); [cbn; lia|done|done|]. unfold client_stalls. by rewrite Ee, Ecl.
Qed.

(** ** Enforcement *)

Section enforcement.
Context `{GoReplace, GoTime, GoCrypto, EventJSON, GoHMAC, ControlJSON}.

Lemma CommitKineticStop_ok l now ev w s l' : CommitKineticStop l now ev w s = (l', None) ->
  exists rec line, prepareRecord l now ev = Some (rec, line) /\ lg_synced l' = lg_file l +:+ line.
Proof.
  unfold CommitKineticStop. destruct (lg_poisoned l); [done|]. destruct (negb (lg_durable l)); [done|]. destruct (_ || _); [done|].
  unfold commit_record. destruct (prepareRecord l now ev) as [[rec line]|]; [|done].
  destruct (appendFull l line w) as [l1 [|]] eqn:Ea; [|done]. apply appendFull_true in Ea as ->.
  destruct s; [|done]. intros [= <-]. by exists rec, line.
Qed.
Lemma persist_state_keeps stop w k : let k' := (persist_state stop w k).1 in
  kn_done k' = kn_done k /\ kn_revoked k' = kn_revoked k /\ kn_cancelled k' = kn_cancelled k /\ kn_contained k' = kn_contained k /\
  kn_audit k' = kn_audit k /\ kn_forwarded k' = kn_forwarded k.
Proof.
  unfold persist_state. destruct (kn_mon k) as [mon|]; [|by cbn]. destruct (_ =s? _); [|by cbn].
  destruct (WriteState _ _ _ _ _ _) as [fs [mon' err]]. by cbn.
Qed.

Lemma enforced_once cfg stop w k : let k' := enforceKineticStop cfg stop w k in
  kn_done k = false -> kn_done k' = true /\ kn_revoked k' = true /\ kn_cancelled k' = true /\ kn_contained k' = true /\
  is_Some (kineticOr k' None).
Proof.
  intros k' Hd. subst k'. unfold enforceKineticStop. rewrite Hd. set (ev := kinetic_event cfg stop _).
  destruct (CommitKineticStop _ _ ev _ _) as [l [err|]].
  - cbn. by split_and!; try done; eexists.
  - match goal with |- context [persist_state stop w ?k0] => pose proof (persist_state_keeps stop w k0) as Hk;
      destruct (persist_state stop w k0) as [k1 out] end. cbn in *. destruct Hk as (E1 & E2 & E3 & E4 & _).
    split_and!; done.
Qed.

(** C10.  A stop is enforced once, whatever fails: the session is revoked, cancelled
    and contained and the run ends in an error.  When the ledger takes the
    stop, its record is the end of the synced part and it is forwarded; then,
    if it is a revocation and there is a monitor, the state is written to the
    control directory, and the run ends in the error of that write if it fails
    and otherwise in that of the stop, the directory being left alone by any
    other stop.  When the ledger refuses it, the directory is as it was, nothing
    is forwarded, and the run ends in the ledger's error. *)
Theorem stop_is_enforced (cfg : KineticConfig) (stop stop' : Stop) (w w' : Enforce) (k : Kinetic) :
  kn_done k = false ->
  let k' := enforceKineticStop cfg stop w k in
  kn_revoked k' = true /\ kn_cancelled k' = true /\ kn_contained k' = true /\ is_Some (kineticOr k' None) /\
  enforceKineticStop cfg stop' w' k' = k' /\
  ((exists ev rec line, prepareRecord (kn_audit k) (en_commit_now w) ev = Some (rec, line) /\
      lg_synced (kn_audit k') = lg_file (kn_audit k) +:+ line /\ kn_forwarded k' = kn_forwarded k ++ [ev] /\
      ae_EventType ev = EventKineticStopEnforced /\ ae_SessionID ev = kf_SessionID cfg /\
      ae_CommandID ev = cm_CommandID (sp_Command stop) /\ ae_ResultingState ev = sp_ResultingState stop /\
      ((exists mon mon' err, kn_mon k = Some mon /\ sp_ResultingState stop = "revoked_contained" /\
          WriteState (kn_fs k) mon stop (en_mkdir w) (en_between w) (en_atomic w) = (kn_fs k', (mon', err)) /\
          kn_mon k' = Some mon' /\ kineticOr k' None = Some (default (enforced_error stop) err)) \/
       ((kn_mon k = None \/ sp_ResultingState stop <> "revoked_contained") /\
          kn_fs k' = kn_fs k /\ kineticOr k' None = Some (enforced_error stop)))) \/
   (kn_fs k' = kn_fs k /\ kn_forwarded k' = kn_forwarded k /\
    exists ev err, (CommitKineticStop (kn_audit k) (en_commit_now w) ev (en_write w) (en_synced w)).2 = Some err /\
      kineticOr k' None = Some err)).
Proof.
  intros Hd k'. destruct (enforced_once cfg stop w k Hd) as (Hdone & ? & ? & ? & ?). fold k' in Hdone.
  split_and!; [done..|unfold enforceKineticStop at 1; by rewrite Hdone|]. clear Hdone.
  subst k'. unfold enforceKineticStop. rewrite Hd. set (ev := kinetic_event cfg stop _).
  destruct (CommitKineticStop _ _ ev _ _) as [l [err|]] eqn:Ec.
  - right. cbn. split_and!; [done|done|]. exists ev, err. cbn in Ec. by rewrite Ec.
  - left. match goal with |- context [persist_state stop w ?k0] => set (k2 := k0) end.
    pose proof (persist_state_keeps stop w k2) as Hk. destruct (persist_state stop w k2) as [k1 out] eqn:Ep.
    destruct Hk as (_ & _ & _ & _ & E5 & E6). apply CommitKineticStop_ok in Ec as (rec & line & Hrec & Hs).
    exists ev, rec, line. cbn in *. rewrite E5, E6. split_and!; try done. subst k2. unfold persist_state in Ep. cbn in Ep.
    destruct (kn_mon k) as [mon|]; [|injection Ep as <- <-; right; by split_and!; [left|..]].
    destruct (_ =s? _) eqn:Er; [apply str_eqb_true in Er|apply str_eqb_false in Er; injection Ep as <- <-; right; by split_and!; [right|..]].
    destruct (WriteState _ _ _ _ _ _) as [fs [mon' err]] eqn:Ew. injection Ep as <- <-. left. exists mon, mon', err. by rewrite Er.
Qed.
End enforcement.

(** ** Witnesses *)

Lemma run_moves_steps ms s : steps s (run_moves ms s).
Proof.
  revert s. induction ms as [|m ms IH]; intros s; [apply rtc_refl|]. cbn. change (steps s (run_moves ms (default s (next m s)))).
  destruct (next m s) as [s1|] eqn:E; cbn; [|apply IH]. eapply rtc_l; [by exists m|apply IH].
Qed.

Module KineticWitness.
Definition msgs (i : nat) : outgoing :=
  if (i =? 0)%nat then {| og_to := ToServer; og_raw := "a" |} else if (i =? 1)%nat then {| og_to := ToServer; og_raw := "b" |}
  else {| og_to := ToClient; og_raw := "c" |}.
(** The stop arrives while the launch is inside the lock. *)
Definition early : list move := repeat (MLaunch true) 4 ++ [MStop; MStop; MLaunch true; MStop].
Definition late : list move := [MEncode 1; MEncode 1; MEncode 1].
Definition before : Sys := run_moves early (initial msgs).
Definition contained : Sys := run_moves (repeat (MLaunch true) 3 ++ [MStop; MStop]) before.
(** The server stops reading while a message is written to it, or the client. *)
Definition stuck (t : target) (i : nat) : Sys :=
  run_moves (repeat (MLaunch true) 6 ++ [MEncode i; MEncode i; MReader t Stalled; MEncode i; MStop; MStop; MStop; MEncode i; MStop; MStop]) (initial msgs).
Definition view (s : Sys) := (sy_stop s, sy_launch s, sy_alive s, sy_pipes s, sy_encode s 0%nat, sy_lock s).
Example race : view <$> [before; contained; run_moves late contained; stuck ToServer 0] =
  [(SPipesClosed, LPiped, true, POpen, EWaiting (msgs 0), Some TLaunch);
   (SContained, LRefused, false, PClosed, EWaiting (msgs 0), None);
   (SContained, LRefused, false, PClosed, EWaiting (msgs 0), None);
   (SContained, LDone, false, PClosed, EFailed, None)].
Proof. vm_compute. reflexivity. Qed.
(** The reply of the handshake to a client that does not read keeps the lock:
    the server is not killed, and the stop is not recorded. *)
Example client_holds_stop : client_stalls (stuck ToClient 2) /\
  (sy_stop (stuck ToClient 2), sy_alive (stuck ToClient 2), sy_lock (stuck ToClient 2)) = (SPipesClosed, true, Some (TEncode 2)).
Proof. split; [by exists 2%nat, (msgs 2)|vm_compute; reflexivity]. Qed.
End KineticWitness.

Section kinetic_witness.
Import KineticWitness.
Lemma contained_for_good_witness : sy_stop contained = SContained /\
  sy_written (run_moves late contained) = sy_written contained /\ sy_alive (run_moves late contained) = false.
Proof.
  split; [vm_compute; reflexivity|].
  destruct (contained_for_good msgs contained (run_moves late contained)) as (Hw & Ha & _); [|vm_compute; reflexivity|apply run_moves_steps|done].
  unfold contained, before. etransitivity; apply run_moves_steps.
Defined.
Lemma stop_gets_through_witness :
  (exists ms, (length ms <= 12)%nat /\ sy_stop (run_moves ms before) = SContained) /\
  forall ms, forallb own ms = true -> sy_stop (run_moves ms (stuck ToClient 2)) <> SContained.
Proof.
  split.
  - destruct (proj1 (stop_gets_through msgs before (run_moves_steps _ _))) as (ms & Hn & _ & Hs); [|by exists ms].
    intros (i & msg & E & _). vm_compute in E. discriminate.
  - apply (proj2 (stop_gets_through msgs (stuck ToClient 2) (run_moves_steps _ _))). apply client_holds_stop.
Defined.
End kinetic_witness.

Module EnforceWitness.
Import KillSwitchSpec.KillSwitchWitness.
#[local] Existing Instances AuditWitness.no_patterns decimal_time digest AuditWitness.no_read mac json State_eq.
Definition cfg : KineticConfig := {| kf_KillSwitchDir := "/k"; kf_Controllers := [{| ck_ID := "ops"; ck_Key := key |}];
  kf_SessionID := "s"; kf_SessionEpoch := 2; kf_ServerURL := ""; kf_ClientID := "c"; kf_ServerName := "mail" |}.
Definition start : Kinetic := initKineticStop cfg false MkErr (MkOk true) {|
  kn_mon := None; kn_initErr := None; kn_done := false; kn_revoked := false; kn_cancelled := false; kn_contained := false;
  kn_runErr := None; kn_thru := 0; kn_reason := ""; kn_result := ""; kn_observed := 0; kn_audit := AuditWitness.empty;
  kn_forwarded := []; kn_fs := fs |}.
Definition world : Enforce := {| en_now := 9; en_commit_now := 9; en_synced := true; en_mkdir := MkErr; en_between := id; en_atomic := AwOk;
  en_write := {| wo_n := match prepareRecord AuditWitness.empty 9 (kinetic_event cfg stop 7) with
                         | Some (_, data) => String.length data | None => 0%nat end; wo_err := false |} |}.
(** The monitor's run ends in the stop, with its state recorded; a restart is
    then refused. *)
Example enforced :
  let '(k, err) := runKineticMonitor cfg world [(kn_fs start, 7)] start in
  (err, kn_revoked k, kn_thru k, match kn_fs k !! StatePath "/k" "s" with Some (NFile _ _ data) => data | _ => "" end) =
    (Some "kinetic stop enforced: revoked_contained", true, 2, "s" +:+ String LF "").
Proof. vm_compute. reflexivity. Qed.
End EnforceWitness.

Section enforce_witness.
Import KillSwitchSpec.KillSwitchWitness EnforceWitness.
#[local] Existing Instances AuditWitness.no_patterns decimal_time digest AuditWitness.no_read mac json State_eq.
Lemma stop_is_enforced_witness : kn_done start = false /\ kn_revoked (enforceKineticStop cfg stop world start) = true.
Proof. split; [vm_compute; reflexivity|]. apply (stop_is_enforced cfg stop stop world world start). vm_compute. reflexivity. Defined.
End enforce_witness.
