(* ===== verification/ServerIdentity.v ===== *)
(** The identity of the launched server: [internal/serveridentity/identity.go].

    What the file system says of a path is an argument: where a command is
    found, where a link leads, what a file is and what reading it yields. *)
From stdpp Require Import base strings gmap list sorting.
From Stdlib Require Import ZArith Lia Ascii.
From S2P Require Import Prelude GoStrings GoLib GoPath Framing.
#[local] Open Scope Z_scope.

Definition KindStdioInvocationSHA256V1 : string := "stdio_invocation_sha256_v1".
Definition tagFormat : ascii := ascii_of_nat 1.
Definition tagExecutable : ascii := ascii_of_nat 2.
Definition tagArgument : ascii := ascii_of_nat 3.
Definition tagEntryPayload : ascii := ascii_of_nat 4.

Record FileInfo := { fi_regular : bool; fi_perm : Z; fi_size : Z }.
(** [exec.LookPath], [filepath.EvalSymlinks], [os.Stat], and [os.Open] with
    what copying the opened file then gives: its bytes, or an error. *)
Record Host := {
  ho_LookPath : string -> result string;
  ho_EvalSymlinks : string -> result string;
  ho_Stat : string -> result FileInfo;
  ho_Open : string -> result (result string)
}.

Definition writeFieldHeader (tag : ascii) (index length : Z) : string :=
  String tag "" +:+ PutUint64 index +:+ PutUint64 length.
Definition writeField (tag : ascii) (index : Z) (data : string) : string :=
  writeFieldHeader tag index (Z.of_nat (String.length data)) +:+ data.

Record Resolved := { rv_Kind : string; rv_Digest : string }.

Definition unpinnable_name (c : string) (args : list string) : string :=
  let first s := match args with a :: _ => a =s? s | [] => false end in
  if str_in c ["npx"; "uvx"; "bunx"; "pnpx"; "pnx"] then c
  else if c =s? "npm" then if first "exec" then "npm exec" else if first "x" then "npm x" else ""
  else if c =s? "yarn" then if first "dlx" then "yarn dlx" else ""
  else if c =s? "pnpm" then if first "dlx" then "pnpm dlx" else ""
  else if c =s? "bun" then if first "x" then "bun x" else ""
  else if c =s? "uv" then
    match args with a :: b :: _ => if (a =s? "tool") && (b =s? "run") then "uv tool run" else "" | _ => "" end
  else "".
Definition unpinnableLauncher (command lookPath : string) (args : list string) : string :=
  let l := unpinnable_name (Base command) args in
  if l <>s? "" then l else unpinnable_name (Base lookPath) args.

(** The first declared position, in order, that is no argument. *)
Definition bad_position (args : list string) (positions : list Z) : option Z :=
  List.find (fun pos => (pos <? 0) || (Z.of_nat (length args) <=? pos)) (merge_sort Z.le positions).

Section resolve.
Context `{GoCrypto, GoFmt}.

(** [fmt.Errorf] of a text with [: %w] after it. *)
Definition errorf {A} (text err : string) : result A := Err (text +:+ ": " +:+ err).

(** A file's bytes, when all of those it was said to have could be read; [what]
    and [sub] are the words of the errors, [path] what they quote. *)
Definition copied (what sub path : string) (opened : result (result string)) (size : Z) : result string :=
  match opened with
  | Err err => errorf (what +:+ sub +:+ fmt_q path) err
  | Ok (Err err) => errorf (what +:+ "hash " +:+ fmt_q path) err
  | Ok (Ok data) =>
      if negb (Z.of_nat (String.length data) =? size) then
        Err (what +:+ fmt_q path +:+ ": size changed while hashing (" +:+ Itoa (Z.of_nat (String.length data)) +:+ " != " +:+
             Itoa size +:+ ")")
      else Ok data
  end.
Definition payload (h : Host) (arg : string) : result (Z * string) :=
  let what := "resolve stdio invocation entry payload " in
  match ho_EvalSymlinks h arg with
  | Err err => errorf (what +:+ fmt_q arg) err
  | Ok p =>
      match ho_Stat h p with
      | Err err => errorf (what +:+ fmt_q arg) err
      | Ok fi =>
          if negb (fi_regular fi) then Err (what +:+ fmt_q arg +:+ ": not a regular file")
          else let? data := copied what "" arg (ho_Open h p) (fi_size fi) in Ok (fi_size fi, data)
      end
  end.
(** What is written for the arguments from position [i] on. *)
Fixpoint write_args (h : Host) (declared : list Z) (i : Z) (args : list string) : result string :=
  match args with
  | [] => Ok ""
  | arg :: args =>
      let field := writeField tagArgument i arg in
      if bool_decide (i ∈ declared) then
        match payload h arg with
        | Err err => Err err
        | Ok (size, data) =>
            let? rest := write_args h declared (i + 1) args in
            Ok (field +:+ writeFieldHeader tagEntryPayload i size +:+ data +:+ rest)
        end
      else let? rest := write_args h declared (i + 1) args in Ok (field +:+ rest)
  end.

Definition ResolveStdioInvocation (h : Host) (command : string) (args : list string) (entryArgPositions : list Z)
    : result Resolved :=
  if command =s? "" then Err "resolve stdio invocation: command is empty"
  else match ho_LookPath h command with
  | Err err => errorf ("resolve stdio invocation " +:+ fmt_q command) err
  | Ok path =>
      let launcher := unpinnableLauncher command path args in
      if launcher <>s? "" then
        Err ("resolve stdio invocation: launcher " +:+ fmt_q launcher +:+ " selects a registry payload that cannot be content-pinned")
      else match ho_EvalSymlinks h path with
      | Err err => errorf ("resolve stdio invocation symlinks " +:+ fmt_q path) err
      | Ok resolvedPath =>
          match ho_Stat h resolvedPath with
          | Err err => errorf ("resolve stdio invocation stat " +:+ fmt_q resolvedPath) err
          | Ok info =>
              if negb (fi_regular info) then Err ("resolve stdio invocation " +:+ fmt_q resolvedPath +:+ ": not a regular file")
              else if Z.land (fi_perm info) 73 =? 0 then Err ("resolve stdio invocation " +:+ fmt_q resolvedPath +:+ ": not executable")
              else match bad_position args entryArgPositions with
              | Some pos => Err ("resolve stdio invocation entry position " +:+ Itoa pos +:+ ": out of range for " +:+
                                 Itoa (Z.of_nat (length args)) +:+ " args")
              | None =>
                  let? exe := copied "resolve stdio invocation " "open " resolvedPath (ho_Open h resolvedPath) (fi_size info) in
                  let? rest := write_args h entryArgPositions 0 args in
                  Ok {| rv_Kind := KindStdioInvocationSHA256V1;
                        rv_Digest := "sha256:" +:+ sha256_hex (writeField tagFormat 0 KindStdioInvocationSHA256V1 +:+
                                       writeFieldHeader tagExecutable 0 (fi_size info) +:+ exe +:+ rest) |}
              end
          end
      end
  end.
Definition ResolveStdioExecutable (h : Host) (command : string) : result Resolved := ResolveStdioInvocation h command [] [].
End resolve.

(** ** What the digest stands for *)

(** The bytes of the executable, and the arguments, with the bytes of the file
    at each declared one. *)
Record Invocation := { iv_exe : string; iv_args : list (string * option string) }.
Fixpoint encode_args (i : Z) (l : list (string * option string)) : string :=
  match l with
  | [] => ""
  | (arg, p) :: l =>
      writeField tagArgument i arg +:+ match p with Some data => writeField tagEntryPayload i data | None => "" end +:+
      encode_args (i + 1) l
  end.
Definition encode (v : Invocation) : string :=
  writeField tagFormat 0 KindStdioInvocationSHA256V1 +:+ writeField tagExecutable 0 (iv_exe v) +:+ encode_args 0 (iv_args v).

(** Go lengths are below 2^63. *)
Definition sized (v : Invocation) : Prop :=
  short (iv_exe v) /\ Forall (fun a => short a.1 /\ forall data, a.2 = Some data -> short data) (iv_args v) /\
  Z.of_nat (length (iv_args v)) < 2 ^ 64.

Lemma writeField_app tag i data s :
  writeField tag i data +:+ s = String tag "" +:+ PutUint64 i +:+ PutUint64 (Z.of_nat (String.length data)) +:+ data +:+ s.
Proof. unfold writeField, writeFieldHeader. by rewrite !append_assoc. Qed.
Lemma identityField_inj tag tag' i j d d' s s' : 0 <= i < 2 ^ 64 -> 0 <= j < 2 ^ 64 -> short d -> short d' ->
  writeField tag i d +:+ s = writeField tag' j d' +:+ s' -> tag = tag' /\ i = j /\ d = d' /\ s = s'.
Proof.
  unfold short. intros Hi Hj Hd Hd'. rewrite !writeField_app. intros E.
  apply append_eq_len in E as [Et E]; [|done]. injection Et as Et.
  apply PutUint64_inj in E as [Ei E]; [|lia..]. apply PutUint64_inj in E as [El E]; [|lia..].
  apply append_eq_len in E as [-> ->]; [|lia]. done.
Qed.
Lemma writeField_cons tag i d s : exists t, writeField tag i d +:+ s = String tag t.
Proof. rewrite writeField_app. eexists. reflexivity. Qed.
(** What follows an argument does not start with a payload. *)
Lemma encode_args_head i l : match encode_args i l with "" => True | String c _ => c = tagArgument end.
Proof. destruct l as [|[arg p] l]; [done|]. cbn [encode_args]. rewrite writeField_app. done. Qed.
Lemma no_payload i d s j l : writeField tagEntryPayload i d +:+ s <> encode_args j l.
Proof.
  intros E. pose proof (encode_args_head j l) as Hh. rewrite <- E in Hh. destruct (writeField_cons tagEntryPayload i d s) as [t Et].
  rewrite Et in Hh. done.
Qed.
Lemma encode_args_inj i l l' : 0 <= i -> i + Z.of_nat (length l) < 2 ^ 64 -> i + Z.of_nat (length l') < 2 ^ 64 ->
  Forall (fun a => short a.1 /\ forall data, a.2 = Some data -> short data) l ->
  Forall (fun a => short a.1 /\ forall data, a.2 = Some data -> short data) l' ->
  encode_args i l = encode_args i l' -> l = l'.
Proof.
  intros Hi Hl Hl' Hf. revert i l' Hi Hl Hl'. induction Hf as [|[a p] l [Ha Hp] Hf IH]; intros i [|[a' p'] l'] Hi Hl Hl' Hf' E; [done| | |].
  { exfalso. cbn [encode_args] in E. rewrite writeField_app in E. done. }
  { exfalso. cbn [encode_args] in E. rewrite writeField_app in E. done. }
  apply Forall_cons in Hf' as [[Ha' Hp'] Hf']. cbn [encode_args fst snd length] in *.
  apply identityField_inj in E as (_ & _ & -> & E); [|lia..|done|done].
  assert (p = p' /\ encode_args (i + 1) l = encode_args (i + 1) l') as [-> E'].
  { destruct p as [d|], p' as [d'|]; [|exfalso; by eapply no_payload|exfalso; by eapply no_payload|done].
    apply identityField_inj in E as (_ & _ & -> & E); [done|lia..|by apply Hp|by apply Hp']. }
  f_equal. apply (IH (i + 1)); [lia..|done|done].
Qed.
Lemma encode_inj v v' : sized v -> sized v' -> encode v = encode v' -> v = v'.
Proof.
  intros (He & Ha & Hn) (He' & Ha' & Hn') E. unfold encode in E. apply append_inj_l in E.
  apply identityField_inj in E as (_ & _ & Ee & E); [|lia..|done|done]. apply encode_args_inj in E; [|lia..|done|done].
  destruct v, v'. cbn in *. by subst.
Qed.

Section spec.
Context `{GoCrypto, GoFmt}.

(** The files [ResolveStdioInvocation] reads. *)
Definition entry_file (h : Host) (arg data : string) : Prop := exists p fi,
  ho_EvalSymlinks h arg = Ok p /\ ho_Stat h p = Ok fi /\ fi_regular fi = true /\ ho_Open h p = Ok (Ok data).
Definition executable_file (h : Host) (command data : string) : Prop := exists path p fi,
  ho_LookPath h command = Ok path /\ ho_EvalSymlinks h path = Ok p /\ ho_Stat h p = Ok fi /\ fi_regular fi = true /\
  Z.land (fi_perm fi) 73 <> 0 /\ ho_Open h p = Ok (Ok data).
Fixpoint reads_args (h : Host) (declared : list Z) (i : Z) (args : list string) (l : list (string * option string)) : Prop :=
  match args, l with
  | [], [] => True
  | arg :: args, (a, p) :: l =>
      a = arg /\ (match p with Some data => i ∈ declared /\ entry_file h arg data | None => i ∉ declared end) /\
      reads_args h declared (i + 1) args l
  | _, _ => False
  end.
Definition invokes (h : Host) (command : string) (args : list string) (declared : list Z) (v : Invocation) : Prop :=
  executable_file h command (iv_exe v) /\ reads_args h declared 0 args (iv_args v) /\
  Forall (fun pos => 0 <= pos < Z.of_nat (length args)) declared.

Lemma copied_Ok what sub path r size data : copied what sub path r size = Ok data ->
  r = Ok (Ok data) /\ size = Z.of_nat (String.length data).
Proof.
  unfold copied, errorf. destruct r as [[d|]|]; try done. destruct (negb _) eqn:E; [done|]. intros [= ->]. bools. done.
Qed.
Lemma payload_Ok h arg size data : payload h arg = Ok (size, data) -> entry_file h arg data /\ size = Z.of_nat (String.length data).
Proof.
  unfold payload, entry_file. destruct (ho_EvalSymlinks h arg) as [p|]; [|done]. destruct (ho_Stat h p) as [fi|] eqn:Es; [|done].
  destruct (fi_regular fi) eqn:Er; [|done]. cbn [negb]. destruct (copied _ _ _ _ _) as [d|] eqn:Ec; [|done]. intros [= <- <-].
  apply copied_Ok in Ec as [Hr Hs]. split; [|done]. by exists p, fi.
Qed.
Lemma write_args_Ok h declared i args s : write_args h declared i args = Ok s ->
  exists l, reads_args h declared i args l /\ s = encode_args i l.
Proof.
  revert i s. induction args as [|arg args IH]; intros i s; cbn [write_args]; [intros [= <-]; by exists []|].
  destruct (bool_decide_reflect (i ∈ declared)) as [Hd|Hd].
  - destruct (payload h arg) as [[size data]|] eqn:Ep; [|done]. apply payload_Ok in Ep as [Hf ->].
    destruct (write_args h declared (i + 1) args) as [rest|] eqn:Er; [|done]. intros [= <-]. apply IH in Er as (l & Hl & ->).
    exists ((arg, Some data) :: l). split; [done|]. cbn [encode_args]. unfold writeField at 3. by rewrite !append_assoc.
  - destruct (write_args h declared (i + 1) args) as [rest|] eqn:Er; [|done]. intros [= <-]. apply IH in Er as (l & Hl & ->).
    by exists ((arg, None) :: l).
Qed.
Lemma bad_position_None args positions :
  bad_position args positions = None <-> Forall (fun pos => 0 <= pos < Z.of_nat (length args)) positions.
Proof.
  unfold bad_position. rewrite <- (merge_sort_Permutation Z.le positions) at 2. rewrite List.Forall_forall. split.
  - intros Hn pos Hin. pose proof (List.find_none _ _ Hn pos Hin) as E. cbn in E. bools. lia.
  - intros Hf. destruct (List.find _ _) as [pos|] eqn:E; [|done]. apply List.find_some in E as [Hin E].
    specialize (Hf pos Hin). apply orb_true_iff in E as [E|E]; bools; lia.
Qed.
(** A resolved identity is the digest of the invocation's own bytes. *)
Lemma Resolve_invokes h command args positions r : ResolveStdioInvocation h command args positions = Ok r ->
  exists v, invokes h command args positions v /\ rv_Digest r = "sha256:" +:+ sha256_hex (encode v) /\
    rv_Kind r = KindStdioInvocationSHA256V1 /\ unpinnable_name (Base command) args = "".
Proof.
  unfold ResolveStdioInvocation. destruct (command =s? ""); [done|]. destruct (ho_LookPath h command) as [path|] eqn:El; [|done].
  destruct (unpinnableLauncher command path args <>s? "") eqn:Eu; [done|]. apply str_neqb_false in Eu.
  destruct (ho_EvalSymlinks h path) as [p|] eqn:Ee; [|done]. destruct (ho_Stat h p) as [fi|] eqn:Es; [|done].
  destruct (fi_regular fi) eqn:Er; [|done]. cbn [negb]. destruct (Z.land (fi_perm fi) 73 =? 0) eqn:Ep; [done|]. bools.
  destruct (bad_position args positions) eqn:Eb; [done|]. destruct (copied _ _ _ _ _) as [exe|] eqn:Ec; [|done].
  destruct (write_args _ _ _ _) as [rest|] eqn:Ew; [|done]. intros [= <-]. apply copied_Ok in Ec as [Hr Hsize].
  apply write_args_Ok in Ew as (l & Hl & ->). exists {| iv_exe := exe; iv_args := l |}. split_and!; [|cbn|done|].
  - split_and!; [by exists path, p, fi|done|by apply bad_position_None].
  - unfold encode. cbn. unfold writeField at 2. rewrite Hsize. by rewrite !append_assoc.
  - revert Eu. unfold unpinnableLauncher. by destruct (unpinnable_name (Base command) args).
Qed.

Lemma reads_args_args h declared i args l : reads_args h declared i args l -> l.*1 = args.
Proof.
  revert i l. induction args as [|arg args IH]; intros i [|[a p] l]; try done. cbn. intros (-> & _ & Hl). f_equal. by apply (IH (i + 1)).
Qed.
Lemma reads_args_declared h declared i args l pos : reads_args h declared i args l ->
  0 <= pos < Z.of_nat (length args) -> i + pos ∈ declared <-> exists arg data, l !! Z.to_nat pos = Some (arg, Some data).
Proof.
  revert i l pos. induction args as [|arg args IH]; intros i [|[a p] l] pos; cbn [reads_args length]; try done; [lia|].
  intros (-> & Hp & Hl) Hpos. destruct (decide (pos = 0)) as [->|Hne].
  - cbn. rewrite Z.add_0_r. destruct p as [data|]; naive_solver.
  - rewrite (IH (i + 1) l (pos - 1) Hl) || specialize (IH (i + 1) l (pos - 1) Hl ltac:(lia)).
    replace (i + 1 + (pos - 1)) with (i + pos) in IH by lia. rewrite IH. replace (Z.to_nat pos) with (S (Z.to_nat (pos - 1))) by lia. done.
Qed.
Lemma invokes_declared h command args ps v pos : invokes h command args ps v ->
  pos ∈ ps <-> 0 <= pos < Z.of_nat (length (iv_args v)) /\ exists arg data, iv_args v !! Z.to_nat pos = Some (arg, Some data).
Proof.
  intros (_ & Hr & Hps). pose proof (reads_args_args _ _ _ _ _ Hr) as Ea.
  assert (length (iv_args v) = length args) as En by (by rewrite <- Ea, length_fmap). rewrite En. split.
  - intros Hin. assert (0 <= pos < Z.of_nat (length args)) as Hb by (by apply (proj1 (Forall_forall _ _) Hps)).
    split; [done|]. by apply (reads_args_declared _ _ _ _ _ pos Hr Hb).
  - intros [Hb He]. by apply (reads_args_declared _ _ _ _ _ pos Hr Hb) in He.
Qed.

(** C13.  Two launches that resolve to one digest were measured alike: the file of
    the executable held the same bytes when it was resolved, the arguments are
    the same, and the files at the declared positions, which are the same, held
    the same bytes — or two different inputs have one SHA-256.  Lengths are
    those of Go, below 2^64.  The files are not measured again when the server
    is started. *)
Theorem identity_binds (h h' : Host) (command command' : string) (args args' : list string) (ps ps' : list Z) (r r' : Resolved) :
  ResolveStdioInvocation h command args ps = Ok r -> ResolveStdioInvocation h' command' args' ps' = Ok r' ->
  rv_Digest r = rv_Digest r' ->
  exists v v', invokes h command args ps v /\ invokes h' command' args' ps' v' /\
    (sized v -> sized v' -> (v = v' /\ args = args' /\ (forall pos, pos ∈ ps <-> pos ∈ ps')) \/
                            exists x y, x <> y /\ sha256_hex x = sha256_hex y).
Proof.
  intros (v & Hv & Hd & _)%Resolve_invokes (v' & Hv' & Hd' & _)%Resolve_invokes E. exists v, v'. split_and!; [done..|].
  intros Hs Hs'. rewrite Hd, Hd' in E. apply append_inj_l in E.
  destruct (decide (encode v = encode v')) as [Ev|Hne]; [|right; by exists (encode v), (encode v')].
  left. apply encode_inj in Ev as <-; [|done..]. split_and!; [done| |].
  - destruct Hv as (_ & Hr & _), Hv' as (_ & Hr' & _). by rewrite <- (reads_args_args _ _ _ _ _ Hr), <- (reads_args_args _ _ _ _ _ Hr').
  - intros pos. by rewrite (invokes_declared _ _ _ _ _ pos Hv), (invokes_declared _ _ _ _ _ pos Hv').
Qed.
End spec.

Section laws.
Context `{GoCrypto, GoFmt}.

(** Whatever the file system says, a command named as a registry runner, or
    found under the name of one, is refused. *)
Lemma runner_refused h command path args ps : ho_LookPath h command = Ok path -> unpinnableLauncher command path args <> "" ->
  ResolveStdioInvocation h command args ps =
  Err (if command =s? "" then "resolve stdio invocation: command is empty"
       else "resolve stdio invocation: launcher " +:+ fmt_q (unpinnableLauncher command path args) +:+
            " selects a registry payload that cannot be content-pinned").
Proof.
  intros Hl Hu. unfold ResolveStdioInvocation. destruct (command =s? ""); [done|]. rewrite Hl. apply str_neqb_true in Hu. by rewrite Hu.
Qed.

Lemma write_args_declared h ps ps' i args : (forall pos, pos ∈ ps <-> pos ∈ ps') -> write_args h ps i args = write_args h ps' i args.
Proof.
  intros E. revert i. induction args as [|arg args IH]; intros i; [done|]. cbn [write_args]. rewrite IH.
  by rewrite (bool_decide_ext _ _ (E i)).
Qed.
(** The order in which the policy lists the entry positions, and how often,
    is no part of the identity. *)
Lemma positions_are_a_set h command args ps ps' : (forall pos, pos ∈ ps <-> pos ∈ ps') ->
  match ResolveStdioInvocation h command args ps, ResolveStdioInvocation h command args ps' with
  | Ok r, Ok r' => r = r'
  | Err _, Err _ => True
  | _, _ => False
  end.
Proof.
  intros E. unfold ResolveStdioInvocation, errorf. destruct (command =s? ""); [done|]. destruct (ho_LookPath h command); [|done].
  destruct (unpinnableLauncher _ _ _ <>s? ""); [done|]. destruct (ho_EvalSymlinks _ _) as [p|]; [|done].
  destruct (ho_Stat h p) as [fi|]; [|done]. destruct (negb (fi_regular fi)); [done|]. destruct (_ =? 0); [done|].
  assert (bad_position args ps = None <-> bad_position args ps' = None) as Eb.
  { rewrite !bad_position_None, !Forall_forall. by setoid_rewrite E. }
  rewrite (write_args_declared h ps ps' 0 args E).
  destruct (bad_position args ps), (bad_position args ps'); [done|naive_solver..|].
  destruct (copied _ _ _ _ _); [|done]. by destruct (write_args _ _ _ _).
Qed.
End laws.

(** ** A server started from a script *)

#[local] Instance digest : GoCrypto := {| sha256_hex := fun s => s |}.
#[local] Existing Instance plain_quote.
Definition files : Host := {|
  ho_LookPath := fun s => if s =s? "python" then Ok "/bin/python" else Err "not found";
  ho_EvalSymlinks := fun s => Ok s;
  ho_Stat := fun s => if s =s? "/bin/python" then Ok {| fi_regular := true; fi_perm := 493; fi_size := 3 |}
                      else if s =s? "srv.py" then Ok {| fi_regular := true; fi_perm := 420; fi_size := 2 |} else Err "absent";
  ho_Open := fun s => if s =s? "/bin/python" then Ok (Ok "elf") else if s =s? "srv.py" then Ok (Ok "hi") else Err "absent"
|}.
Definition script_args : list string := ["srv.py"; "--log"].
Definition ok_or (r : result Resolved) : Resolved := match r with Ok r => r | Err e => {| rv_Kind := ""; rv_Digest := e |} end.

Lemma identity_binds_witness : exists h args ps r v, ResolveStdioInvocation h "python" args ps = Ok r /\ ps <> [] /\
  invokes h "python" args ps v /\ sized v.
Proof.
  destruct (identity_binds files files "python" "python" script_args script_args [0; 0] [0]
    (ok_or (ResolveStdioInvocation files "python" script_args [0; 0]))
    (ok_or (ResolveStdioInvocation files "python" script_args [0])) eq_refl eq_refl eq_refl) as (v & _ & Hv & _ & _).
  exists files, script_args, [0; 0], (ok_or (ResolveStdioInvocation files "python" script_args [0; 0])), v.
  split_and!; [reflexivity|done|exact Hv|].
  destruct Hv as [He [Hr _]]. destruct v as [exe l]. cbn in *. destruct He as (path & p & fi & E1 & E2 & E3 & _ & _ & E4).
  vm_compute in E1. injection E1 as <-. vm_compute in E2. injection E2 as <-. vm_compute in E4. injection E4 as <-.
  unfold sized, short. cbn. split; [done|]. destruct l as [|[a p] [|[b q] [|]]]; cbn in Hr; try tauto.
  destruct Hr as (-> & Hp & -> & Hq & _). split; [|reflexivity]. repeat constructor; cbn; try reflexivity.
  - destruct p as [d|]; [|done]. intros ? [= <-]. destruct Hp as (_ & p & fi' & F1 & F2 & F3 & F4).
    vm_compute in F1. injection F1 as <-. vm_compute in F4. injection F4 as <-. reflexivity.
  - destruct q as [d|]; [|done]. destruct Hq as [Hq _]. exfalso. revert Hq. rewrite !elem_of_cons, elem_of_nil. lia.
Defined.
