(* ===== verification/Workflow.v ===== *)
(** The supervised workflow: [internal/workflow/workflow.go], the part that
    derives a task's status from its evidence.

    What the repository holds is read in [WorkflowRepo]; here the contract, the
    records and the review journal are already decoded. *)
From stdpp Require Import base strings gmap list sorting.
From Stdlib Require Import ZArith Lia Ascii.
From S2P Require Import Prelude GoStrings GoLib GoPath.
#[local] Open Scope Z_scope.

(** ** Data *)

Record AttackClass := { ak_ID : string; ak_FailureClass : string; ak_Expected : string }.
Record ReqCmd := { rq_Name : string; rq_Expect : string; rq_Argv : list string }.
Record Task := {
  tk_TaskID : string;
  tk_InvariantIDs : list string;
  tk_SecuritySensitive : bool;
  tk_SecurityProblem : string;
  tk_RequiredBehavior : string;
  tk_FailureBehavior : string;
  tk_AllowedPaths : list string;
  tk_ApprovalGatedPaths : list string;
  tk_MaxAttempts : Z;
  tk_RequiredCommands : list ReqCmd;
  tk_SpecRevision : Z;
  tk_NonGoals : list string;
  tk_AttackClasses : list AttackClass
}.
(** Times are in nanoseconds. *)
Record CommandRecord := {
  co_Name : string;
  co_Args : list string;
  co_Exit : Z;
  co_Source : string;
  co_BaseSHA : string;
  co_HeadSHA : string;
  co_WorkspaceDigest : string;
  co_LogPath : string;
  co_RecordedUTC : Z;
  co_SpecSequence : Z
}.
Record ReviewArtifact := {
  rw_Passed : bool;
  rw_Phase : string;
  rw_Findings : list string;
  rw_FailureClasses : list string;
  rw_SpecRevision : Z;
  rw_ContractDigest : string;
  rw_CoveredAttackClasses : list string;
  rw_Counterexamples : list string;
  rw_Reviewer : string;
  rw_Notes : string;
  rw_HeadSHA : string;
  rw_WorkspaceDigest : string;
  rw_BaseSHA : string;
  rw_Sequence : Z;
  rw_RecordedUTC : Z
}.
Record ScopeResult := {
  so_Base : string;
  so_Changed : list string;
  so_OutOfScope : list string;
  so_ApprovalGated : list string;
  so_Pass : bool;
  so_Dirty : list string
}.
Record Snapshot := { sn_BaseSHA : string; sn_HeadSHA : string; sn_WorkspaceDigest : string }.

Definition Status := string.
Definition StatusUnspecified : Status := "UNSPECIFIED".
Definition StatusSpecified : Status := "SPECIFIED".
Definition StatusSpecReviewed : Status := "SPEC_REVIEWED".
Definition StatusFailureReproduced : Status := "FAILURE_REPRODUCED".
Definition StatusTargetVerified : Status := "TARGET_VERIFIED".
Definition StatusHarnessVerified : Status := "HARNESS_VERIFIED".
Definition StatusSecurityReviewed : Status := "SECURITY_REVIEWED".
Definition StatusBlocked : Status := "BLOCKED".

Record Report := {
  rp_TaskID : string;
  rp_InvariantIDs : list string;
  rp_BaseSHA : string;
  rp_HeadSHA : string;
  rp_WorkspaceDigest : string;
  rp_WorktreeDirty : bool;
  rp_DerivedStatus : Status;
  rp_Reasons : list string;
  rp_Scope : ScopeResult;
  rp_Commands : list CommandRecord;
  rp_Review : option ReviewArtifact;
  rp_SpecPass : bool;
  rp_ContractDigest : string;
  rp_EvidenceEditable : bool;
  rp_Notes : list string;
  rp_GeneratedUTC : Z
}.

(** [if b { e = append(e, msg) }] *)
Definition note (b : bool) (msg : string) : list string := if b then [msg] else [].
Definition blank (s : string) : bool := TrimSpace s =s? "".
Definition empty {A} (l : list A) : bool := match l with [] => true | _ => false end.

Definition clean (ss : list string) : list string := List.filter (fun s => s <>s? "") (TrimSpace <$> ss).

Definition task_id_byte (c : ascii) : bool := is_alnum c || byte_in ".-_" c.
Definition validTaskID (s : string) : bool := negb ((s =s? ".") || (s =s? "..")) && all_bytes task_id_byte s.

Definition specRegime (t : Task) : bool := tk_SecuritySensitive t && (1 <=? tk_SpecRevision t).

Definition canonicalClasses (t : Task) : gset string := list_to_set (clean (ak_FailureClass <$> tk_AttackClasses t)).

Definition touches (s prefix : string) : bool :=
  (s =s? prefix) || HasPrefix s (prefix +:+ "/") || Contains s ("/" +:+ prefix +:+ "/") || Contains s (" " +:+ prefix) ||
  HasPrefix s ("--input=" +:+ prefix) || Contains s ("'" +:+ prefix) || Contains s (String DQUOTE prefix).
Fixpoint argvTouchesExcludedLocalState (argv : list string) : string :=
  match argv with
  | [] => ""
  | raw :: argv =>
      let s := TrimSpace raw in
      if s =s? "" then argvTouchesExcludedLocalState argv
      else if touches s "evidence/workflow" then "evidence/workflow"
      else if touches s "evidence/harness" then "evidence/harness"
      else argvTouchesExcludedLocalState argv
  end.

Fixpoint LookupCommand_in (cs : list ReqCmd) (name : string) : option ReqCmd :=
  match cs with [] => None | c :: cs => if rq_Name c =s? name then Some c else LookupCommand_in cs name end.
Definition LookupCommand (t : Task) (name : string) : option ReqCmd := LookupCommand_in (tk_RequiredCommands t) name.

(** ** The contract *)

Section validate.
Context `{GoUnicode, GoFmt}.

Definition normalized (c : ReqCmd) : ReqCmd :=
  {| rq_Name := TrimSpace (rq_Name c); rq_Expect := ToLower (TrimSpace (rq_Expect c)); rq_Argv := rq_Argv c |}.
Fixpoint argv_errors (i j : Z) (argv : list string) : list string :=
  match argv with
  | [] => []
  | a :: argv => note (blank a) ("required_commands[" +:+ Itoa i +:+ "].argv[" +:+ Itoa j +:+ "] empty") ++ argv_errors i (j + 1) argv
  end.
(** The errors of the normalized commands from position [i] on, those before
    having the names [seen]. *)
Fixpoint command_errors (i : Z) (seen : list string) (cs : list ReqCmd) : list string :=
  match cs with
  | [] => []
  | c :: cs =>
      let what := "required_commands[" +:+ Itoa i +:+ "]" in
      note (rq_Name c =s? "") (what +:+ ".name required") ++
      note (str_in (rq_Name c) seen) ("duplicate command name: " +:+ rq_Name c) ++
      note ((rq_Expect c <>s? "pass") && (rq_Expect c <>s? "fail")) (what +:+ ".expect must be pass|fail") ++
      note (empty (rq_Argv c)) (what +:+ ".argv must be non-empty") ++
      argv_errors i 0 (rq_Argv c) ++
      command_errors (i + 1) (rq_Name c :: seen) cs
  end.
Fixpoint class_errors (i : Z) (seen : list string) (acs : list AttackClass) : list string :=
  match acs with
  | [] => []
  | ac :: acs =>
      let what := "attack_classes[" +:+ Itoa i +:+ "]" in
      let fc := TrimSpace (ak_FailureClass ac) in
      note (blank (ak_ID ac)) (what +:+ ".id required") ++
      (if fc =s? "" then [what +:+ ".failure_class required"]
       else note (str_in fc seen) (what +:+ ".failure_class duplicate: " +:+ fc)) ++
      note (blank (ak_Expected ac)) (what +:+ ".expected required") ++
      class_errors (i + 1) (fc :: seen) acs
  end.
Fixpoint touch_errors (i : Z) (cs : list ReqCmd) : list string :=
  match cs with
  | [] => []
  | c :: cs =>
      let hit := argvTouchesExcludedLocalState (rq_Argv c) in
      note (hit <>s? "") ("required_commands[" +:+ Itoa i +:+ "].argv must not depend on excluded local-state path " +:+ fmt_q hit) ++
      touch_errors (i + 1) cs
  end.

Definition harness_pass (c : ReqCmd) : bool := (rq_Name c =s? "harness") && (rq_Expect c =s? "pass").
Definition target_pass (c : ReqCmd) : bool := (rq_Name c <>s? "harness") && (rq_Expect c =s? "pass").
Definition red_fail (c : ReqCmd) : bool := rq_Expect c =s? "fail".

Definition set_commands (t : Task) (cs : list ReqCmd) : Task := {|
  tk_TaskID := tk_TaskID t; tk_InvariantIDs := tk_InvariantIDs t; tk_SecuritySensitive := tk_SecuritySensitive t;
  tk_SecurityProblem := tk_SecurityProblem t; tk_RequiredBehavior := tk_RequiredBehavior t; tk_FailureBehavior := tk_FailureBehavior t;
  tk_AllowedPaths := tk_AllowedPaths t; tk_ApprovalGatedPaths := tk_ApprovalGatedPaths t; tk_MaxAttempts := tk_MaxAttempts t;
  tk_RequiredCommands := cs; tk_SpecRevision := tk_SpecRevision t; tk_NonGoals := tk_NonGoals t; tk_AttackClasses := tk_AttackClasses t |}.

Definition task_errors (t : Task) : list string :=
  let cs := tk_RequiredCommands t in
  (if blank (tk_TaskID t) then ["task_id required"]
   else note (negb (validTaskID (tk_TaskID t))) "task_id must contain only ASCII letters, digits, '.', '-', or '_'") ++
  note (empty (clean (tk_InvariantIDs t))) "invariant_ids must be non-empty" ++
  note (empty (clean (tk_AllowedPaths t))) "allowed_paths must be non-empty" ++
  note (tk_MaxAttempts t <? 1) "max_attempts must be >= 1" ++
  note (empty cs) "required_commands must be non-empty" ++
  command_errors 0 [] cs ++
  note (negb (existsb harness_pass cs)) "required_commands must include harness with expect=pass" ++
  note (negb (existsb target_pass cs)) "required_commands must include a non-harness expect=pass target" ++
  note (tk_SecuritySensitive t && negb (existsb red_fail cs)) "security_sensitive tasks require at least one expect=fail command" ++
  note (tk_SecuritySensitive t && (tk_SpecRevision t <? 1))
    "security_sensitive tasks require spec_revision >= 1 (spec gate is mandatory)" ++
  (if specRegime t then
     note (empty (tk_AttackClasses t)) "attack_classes must be non-empty when spec_revision >= 1" ++
     note (empty (clean (tk_NonGoals t))) "non_goals must be non-empty when spec_revision >= 1" ++
     class_errors 0 [] (tk_AttackClasses t)
   else []) ++
  note (blank (tk_SecurityProblem t)) "security_problem required" ++
  note (blank (tk_RequiredBehavior t)) "required_behavior required" ++
  note (blank (tk_FailureBehavior t)) "failure_behavior required" ++
  touch_errors 0 cs.
(** The task with its commands normalized in place, and the error. *)
Definition ValidateTask (t : Task) : Task * error :=
  let t := set_commands t (normalized <$> tk_RequiredCommands t) in
  match task_errors t with [] => (t, None) | e => (t, Some (Join "; " e)) end.
End validate.

(** ** Records and reviews *)

(** [json.Marshal] of a task. *)
Class TaskJSON := { marshal_task : Task -> result string }.
(** The order in which [range] visits the keys of a map. *)
Class GoMapOrder := { range_keys : gset string -> list string }.

Definition argvEqual (a b : list string) : bool := bool_decide (a = b).
Definition isTargetPassCmd (t : Task) (name : string) : bool :=
  existsb (fun c => (rq_Name c =s? name) && (rq_Expect c =s? "pass") && (rq_Name c <>s? "harness")) (tk_RequiredCommands t).
Definition isRedFailCmd (t : Task) (name : string) : bool :=
  existsb (fun c => (rq_Name c =s? name) && (rq_Expect c =s? "fail")) (tk_RequiredCommands t).

(** One turn of the loop that counts the executions per target name. *)
Definition count_attempt (t : Task) (acc : gmap string Z * Z) (c : CommandRecord) : gmap string Z * Z :=
  let '(per, max) := acc in
  if (co_Source c <>s? "executed") || negb (isTargetPassCmd t (co_Name c)) then (per, max)
  else let n := default 0 (per !! co_Name c) + 1 in
       (<[co_Name c := n]> per, if max <? n then n else max).
Definition countTargetAttempts (t : Task) (cmds : list CommandRecord) : Z := (foldl (count_attempt t) (∅, 0) cmds).2.

(** The loop of [lastMatching] over the records in reverse, the first of them
    at index [i]. *)
Fixpoint last_matching (req : ReqCmd) (name : string) (requirePass : option bool) (i : Z) (rcmds : list CommandRecord)
    : Z * option CommandRecord :=
  match rcmds with
  | [] => (-1, None)
  | c :: rcmds =>
      if (co_Name c <>s? name) || (co_Source c <>s? "executed") then last_matching req name requirePass (i - 1) rcmds
      else if negb (argvEqual (co_Args c) (rq_Argv req)) then last_matching req name requirePass (i - 1) rcmds
      else match requirePass with
      | Some want => if negb (Bool.eqb want (co_Exit c =? 0)) then (-1, None) else (i, Some c)
      | None => (i, Some c)
      end
  end.
Definition lastMatching (t : Task) (cmds : list CommandRecord) (name : string) (requirePass : option bool)
    : Z * option CommandRecord :=
  match LookupCommand t name with
  | None => (-1, None)
  | Some req => last_matching req name requirePass (Z.of_nat (length cmds) - 1) (rev cmds)
  end.

Definition containsStr (ss : list string) (want : string) : bool := str_in want ss.

(** The last review that satisfies [p]. *)
Definition last_review (p : ReviewArtifact -> bool) (reviews : list ReviewArtifact) : option ReviewArtifact :=
  foldl (fun latest r => if p r then Some r else latest) None reviews.
Definition spec_review_of (digest : string) (revision : Z) (r : ReviewArtifact) : bool :=
  (rw_Phase r =s? "spec") && (rw_ContractDigest r =s? digest) && (rw_SpecRevision r =? revision).
Definition LatestSpecReview (reviews : list ReviewArtifact) (digest : string) (revision : Z) : option ReviewArtifact :=
  last_review (spec_review_of digest revision) reviews.
Definition currentSpecPass (reviews : list ReviewArtifact) (digest : string) (revision : Z) : option ReviewArtifact :=
  match LatestSpecReview reviews digest revision with
  | Some latest => if rw_Passed latest then Some latest else None
  | None => None
  end.

(** The reviews [latestJournalReview] does not skip. *)
Definition eligible (t : Task) (digest : string) (specSeq : Z) (r : ReviewArtifact) : bool :=
  negb (rw_Phase r =s? "spec") &&
  negb (specRegime t && ((rw_ContractDigest r <>s? digest) || negb (rw_SpecRevision r =? tk_SpecRevision t))) &&
  negb ((0 <? specSeq) && (rw_Sequence r <=? specSeq)).
Definition latestJournalReview (reviews : list ReviewArtifact) (t : Task) (digest : string) : option ReviewArtifact :=
  let specSeq := if specRegime t then
                   match currentSpecPass reviews digest (tk_SpecRevision t) with Some pass => rw_Sequence pass | None => 0 end
                 else 0 in
  List.find (eligible t digest specSeq) (rev reviews).

Section derive.
Context `{GoUnicode, GoFmt, GoCrypto, TaskJSON, GoMapOrder}.

Definition ContractDigest (t : Task) : result string :=
  match marshal_task t with
  | Err err => Err ("marshal task contract: " +:+ err)
  | Ok contract => Ok (sha256_hex contract)
  end.

Definition spec_checks (t : Task) (currentContract : bool) (r : ReviewArtifact) : error :=
  let canon := canonicalClasses t in
  fail_if (rw_SpecRevision r <? 1) "spec review requires spec_revision >= 1" ;;?
  fail_if (blank (rw_ContractDigest r)) "spec review requires contract_digest" ;;?
  (if currentContract then
     each_err (fun c => fail_if (bool_decide (c ∉ canon)) ("spec review covers unknown attack class " +:+ fmt_q c))
       (rw_CoveredAttackClasses r) ;;?
     (if rw_Passed r then
        each_err (fun c => fail_if (negb (containsStr (rw_CoveredAttackClasses r) c))
                             ("passing spec review does not cover attack class " +:+ fmt_q c)) (range_keys canon) ;;?
        fail_if (empty (clean (rw_Counterexamples r))) "passing spec review requires counterexamples"
      else None)
   else None).
Definition implementation_checks (t : Task) (currentContract : bool) (r : ReviewArtifact) : error :=
  (if specRegime t then
     fail_if (blank (rw_ContractDigest r) || (rw_SpecRevision r <? 1)) "implementation review requires contract_digest and spec_revision" ;;?
     (if currentContract then
        each_err (fun fc => fail_if (bool_decide (fc ∉ canonicalClasses t)) ("unknown failure class " +:+ fmt_q fc)) (rw_FailureClasses r)
      else None)
   else None) ;;?
  fail_if ((rw_HeadSHA r =s? "") || (rw_WorkspaceDigest r =s? "") || (rw_BaseSHA r =s? ""))
    "implementation review requires head_sha, workspace_digest, base_sha".
Definition ValidateReviewArtifact (r : ReviewArtifact) (t : Task) : error :=
  let phase := if rw_Phase r =s? "" then "implementation" else rw_Phase r in
  if (phase <>s? "spec") && (phase <>s? "implementation") then Some ("invalid review phase " +:+ fmt_q (rw_Phase r))
  else match (if specRegime t then ContractDigest t else Ok "") with
  | Err err => Some ("contract digest: " +:+ err)
  | Ok liveDigest =>
      let currentContract := specRegime t && (rw_ContractDigest r =s? liveDigest) && (rw_SpecRevision r =? tk_SpecRevision t) in
      if phase =s? "spec" then spec_checks t currentContract r else implementation_checks t currentContract r
  end.

(** ** The status *)

(** What stops the derivation before any status is given. *)
Definition record_error (t : Task) (c : CommandRecord) : error :=
  if co_Source c <>s? "executed" then Some ("invalid_command_record:" +:+ co_Name c)
  else match LookupCommand t (co_Name c) with
  | Some req => fail_if (negb (argvEqual (co_Args c) (rq_Argv req))) ("argv_mismatch:" +:+ co_Name c)
  | None => None
  end.
Definition review_error (t : Task) (r : ReviewArtifact) : error :=
  match ValidateReviewArtifact r t with Some err => Some ("invalid_review_evidence: " +:+ err) | None => None end.

(** A failing run of a red command, of the current spec cycle when there is one. *)
Definition is_red (t : Task) (specPass : option ReviewArtifact) (c : CommandRecord) : bool :=
  negb ((co_Source c <>s? "executed") || negb (isRedFailCmd t (co_Name c)) || (co_Exit c =? 0)) &&
  match LookupCommand t (co_Name c) with Some req => argvEqual (co_Args c) (rq_Argv req) | None => false end &&
  match specPass with Some pass => co_SpecSequence c =? rw_Sequence pass | None => true end.
Fixpoint first_index {A} (p : A -> bool) (i : Z) (l : list A) : Z :=
  match l with [] => -1 | x :: l => if p x then i else first_index p (i + 1) l end.
Definition red_index (t : Task) (cmds : list CommandRecord) (specPass : option ReviewArtifact) : Z :=
  if tk_SecuritySensitive t then first_index (is_red t specPass) 0 cmds else -1.
Definition red_stage (t : Task) (specPass : option ReviewArtifact) (redIdx : Z) (st : Status) : Status * list string :=
  if tk_SecuritySensitive t then
    if 0 <=? redIdx then (StatusFailureReproduced, ["red_failure_recorded"])
    else match specPass with Some _ => (st, ["red_failure_stale_or_missing"]) | None => (st, ["red_failure_missing"]) end
  else (st, []).

(** One required command: whether the targets are still met, the reasons, and
    the last target's index. *)
Definition target_turn (t : Task) (cmds : list CommandRecord) (snap : Snapshot) (redIdx : Z)
    (acc : bool * list string * Z) (r : ReqCmd) : bool * list string * Z :=
  let '(targetOK, reasons, lastTargetIdx) := acc in
  if (rq_Name r =s? "harness") || (rq_Expect r <>s? "pass") then acc
  else let '(idx, c) := lastMatching t cmds (rq_Name r) (Some true) in
  match c with
  | None => (false, reasons ++ ["required_pass_missing_or_failed:" +:+ rq_Name r], lastTargetIdx)
  | Some c =>
      if co_WorkspaceDigest c <>s? sn_WorkspaceDigest snap then
        (false, reasons ++ ["target_snapshot_mismatch:" +:+ rq_Name r], lastTargetIdx)
      else if co_BaseSHA c <>s? sn_BaseSHA snap then
        (false, reasons ++ ["target_base_mismatch:" +:+ rq_Name r], lastTargetIdx)
      else if tk_SecuritySensitive t && (0 <=? redIdx) && (idx <=? redIdx) then
        (false, reasons ++ ["red_must_precede_green"], lastTargetIdx)
      else (targetOK, reasons, if lastTargetIdx <? idx then idx else lastTargetIdx)
  end.
Definition target_stage (t : Task) (cmds : list CommandRecord) (scope : ScopeResult) (snap : Snapshot) (redIdx : Z)
    : bool * list string * Z :=
  let targetOK := so_Pass scope && negb (tk_SecuritySensitive t && (redIdx <? 0)) in
  foldl (target_turn t cmds snap redIdx) (targetOK, note (negb (so_Pass scope)) "scope_not_pass", -1) (tk_RequiredCommands t).

Definition harness_stage (t : Task) (cmds : list CommandRecord) (snap : Snapshot) (lastTargetIdx : Z) (st : Status)
    : Status * list string :=
  if st =s? StatusTargetVerified then
    let '(hIdx, h) := lastMatching t cmds "harness" (Some true) in
    match h with
    | None =>
        (st, [match (lastMatching t cmds "harness" (Some false)).2 with Some _ => "harness_failed" | None => "harness_missing" end])
    | Some h =>
        if co_WorkspaceDigest h <>s? sn_WorkspaceDigest snap then (st, ["harness_snapshot_mismatch"])
        else if co_BaseSHA h <>s? sn_BaseSHA snap then (st, ["harness_base_mismatch"])
        else if hIdx <=? lastTargetIdx then (st, ["harness_must_follow_target"])
        else (StatusHarnessVerified, ["harness_pass"])
    end
  else (st, []).

Definition review_stage (t : Task) (digest : string) (specPass : option ReviewArtifact) (reviews : list ReviewArtifact)
    (snap : Snapshot) (st : Status) : Status * list string :=
  match latestJournalReview reviews t digest with
  | None => (st, [])
  | Some review =>
      if negb (rw_Passed review) then (st, [])
      else if st <>s? StatusHarnessVerified then (st, ["review_ignored_gates_not_met"])
      else if rw_Phase review =s? "spec" then (st, ["review_ignored_gates_not_met"])
      else if (rw_HeadSHA review <>s? sn_HeadSHA snap) || (rw_WorkspaceDigest review <>s? sn_WorkspaceDigest snap) ||
              (rw_BaseSHA review <>s? sn_BaseSHA snap) then (st, ["review_snapshot_mismatch"])
      else if specRegime t && ((rw_ContractDigest review <>s? digest) || negb (rw_SpecRevision review =? tk_SpecRevision t)) then
        (st, ["review_contract_mismatch"])
      else if specRegime t && match specPass with Some pass => rw_Sequence review <=? rw_Sequence pass | None => false end then
        (st, ["review_before_current_spec"])
      else (StatusSecurityReviewed, ["review_pass"])
  end.

(** From the spec gate on: the status so far and its reasons. *)
Definition derive_gated (t : Task) (cmds : list CommandRecord) (scope : ScopeResult) (reviews : list ReviewArtifact) (snap : Snapshot)
    (digest : string) (specPass : option ReviewArtifact) (st : Status) (reasons : list string) : Status * list string :=
  let redIdx := red_index t cmds specPass in
  let '(st, red) := red_stage t specPass redIdx st in
  let '(targetOK, targets, lastTargetIdx) := target_stage t cmds scope snap redIdx in
  let met := targetOK && (0 <=? lastTargetIdx) in
  let st := if met then StatusTargetVerified else st in
  let '(st, harness) := harness_stage t cmds snap lastTargetIdx st in
  let '(st, review) := review_stage t digest specPass reviews snap st in
  (st, reasons ++ red ++ targets ++ note met "scope_and_targets_pass" ++ harness ++ review).

Definition DeriveStatus (t : Task) (cmds : list CommandRecord) (scope : ScopeResult) (reviews : list ReviewArtifact) (snap : Snapshot)
    : Status * list string :=
  match ValidateTask t with
  | (_, Some err) => (StatusUnspecified, ["invalid_task: " +:+ err])
  | (t, None) =>
      match each_err (record_error t) cmds ;;? each_err (review_error t) reviews with
      | Some reason => (StatusBlocked, [reason])
      | None =>
          match ContractDigest t with
          | Err err => (StatusBlocked, ["contract_digest_error: " +:+ err])
          | Ok digest =>
              let attempts := countTargetAttempts t cmds in
              if tk_MaxAttempts t <? attempts then
                (StatusBlocked, ["max_attempts_exceeded:" +:+ Itoa attempts +:+ ">" +:+ Itoa (tk_MaxAttempts t)])
              else if specRegime t then
                match currentSpecPass reviews digest (tk_SpecRevision t) with
                | None =>
                    (StatusSpecified, ["valid_task_contract"; "spec_review_required"] ++
                       match LatestSpecReview reviews digest (tk_SpecRevision t) with
                       | Some latest => note (negb (rw_Passed latest)) "spec_review_latest_failed"
                       | None => []
                       end)
                | Some specPass =>
                    derive_gated t cmds scope reviews snap digest (Some specPass) StatusSpecReviewed
                      ["valid_task_contract"; "spec_review_pass"]
                end
              else derive_gated t cmds scope reviews snap digest None StatusSpecified ["valid_task_contract"]
          end
      end
  end.
End derive.

(** ** Labels *)

Definition progression : list Status :=
  [StatusSpecified; StatusSpecReviewed; StatusFailureReproduced; StatusTargetVerified; StatusHarnessVerified; StatusSecurityReviewed].
Definition ParseMinStatus `{GoFmt} (s : string) : result Status :=
  if str_in (TrimSpace s) progression then Ok (TrimSpace s)
  else if str_in (TrimSpace s) [StatusBlocked; StatusUnspecified] then
    Err ("status " +:+ fmt_q s +:+ " is not a valid verify -min progression status")
  else Err ("unknown status " +:+ fmt_q s).
Definition ParseStatus `{GoFmt} (s : string) : result Status :=
  if str_in (TrimSpace s) (StatusUnspecified :: progression ++ [StatusBlocked]) then Ok (TrimSpace s)
  else Err ("unknown status " +:+ fmt_q s).
Definition StatusRank (s : Status) : Z :=
  if s =s? StatusSpecified then 1 else if s =s? StatusSpecReviewed then 2 else if s =s? StatusFailureReproduced then 3
  else if s =s? StatusTargetVerified then 4 else if s =s? StatusHarnessVerified then 5
  else if s =s? StatusSecurityReviewed then 6 else 0.
