(* ===== verification/WorkflowSpec.v ===== *)
(** What a derived workflow status means: the contract's checks, the records
    and the journal behind [SECURITY_REVIEWED]. *)
From stdpp Require Import base strings gmap list sorting.
From Stdlib Require Import ZArith Lia Ascii.
From S2P Require Import Prelude GoStrings GoLib GoPath Workflow.
#[local] Open Scope Z_scope.

(** ** The contract *)

Lemma note_nil b msg : note b msg = [] <-> b = false.
Proof. by destruct b. Qed.
Lemma empty_nil {A} (l : list A) : empty l = false <-> l <> [].
Proof. by destruct l. Qed.
Lemma elem_nonempty {A} (x : A) l : x ∈ l -> l <> [].
Proof. intros Hin ->. by apply not_elem_of_nil in Hin. Qed.

Section contract.
Context `{GoUnicode, GoFmt}.

Lemma argv_errors_nil i j argv : argv_errors i j argv = [] <-> Forall (fun a => blank a = false) argv.
Proof.
  revert j. induction argv as [|a argv IH]; intros j; [by split; [constructor|]|]. cbn [argv_errors].
  by rewrite app_nil, note_nil, IH, Forall_cons.
Qed.
Record sound_command (c : ReqCmd) : Prop := {
  sc_name : rq_Name c <> "";
  sc_expect : rq_Expect c = "pass" \/ rq_Expect c = "fail";
  sc_argv : rq_Argv c <> [];
  sc_words : Forall (fun a => blank a = false) (rq_Argv c)
}.
Lemma command_errors_nil i seen cs : command_errors i seen cs = [] <->
  Forall sound_command cs /\ NoDup (rq_Name <$> cs) /\ (forall name, name ∈ rq_Name <$> cs -> name ∉ seen).
Proof.
  revert i seen. induction cs as [|c cs IH]; intros i seen; cbn [command_errors].
  { split; [intros _; split_and!; [done|constructor|]|done]. by intros ? ?%not_elem_of_nil. }
  rewrite !app_nil, !note_nil, argv_errors_nil, IH, Forall_cons. csimpl. rewrite NoDup_cons.
  rewrite str_in_false, <- list_elem_of_In, str_eqb_false, empty_nil, andb_false_iff, !str_neqb_false.
  setoid_rewrite not_elem_of_cons. setoid_rewrite elem_of_cons.
  split; [|intros ([[] ?] & [? ?] & ?); naive_solver].
  intros (Hn & Hs & He & Ha & Hw & Hc & Hnd & Hf). split_and!; [by constructor|naive_solver..].
Qed.

(** A contract that [ValidateTask] passes. *)
Record valid_task (t : Task) : Prop := {
  vt_id : blank (tk_TaskID t) = false /\ validTaskID (tk_TaskID t) = true;
  vt_lists : clean (tk_InvariantIDs t) <> [] /\ clean (tk_AllowedPaths t) <> [];
  vt_attempts : 1 <= tk_MaxAttempts t;
  vt_commands : Forall sound_command (tk_RequiredCommands t);
  vt_names : NoDup (rq_Name <$> tk_RequiredCommands t);
  vt_harness : exists c, c ∈ tk_RequiredCommands t /\ rq_Name c = "harness" /\ rq_Expect c = "pass";
  vt_target : exists c, c ∈ tk_RequiredCommands t /\ rq_Name c <> "harness" /\ rq_Expect c = "pass";
  vt_red : tk_SecuritySensitive t = true -> 1 <= tk_SpecRevision t /\
    (exists c, c ∈ tk_RequiredCommands t /\ rq_Expect c = "fail") /\
    tk_AttackClasses t <> [] /\ clean (tk_NonGoals t) <> [] /\
    NoDup (TrimSpace <$> (ak_FailureClass <$> tk_AttackClasses t)) /\
    Forall (fun ac => blank (ak_ID ac) = false /\ blank (ak_FailureClass ac) = false /\ blank (ak_Expected ac) = false) (tk_AttackClasses t);
  vt_texts : blank (tk_SecurityProblem t) = false /\ blank (tk_RequiredBehavior t) = false /\ blank (tk_FailureBehavior t) = false;
  vt_local : Forall (fun c => argvTouchesExcludedLocalState (rq_Argv c) = "") (tk_RequiredCommands t)
}.
Lemma class_errors_nil i seen acs : class_errors i seen acs = [] <->
  NoDup (TrimSpace <$> (ak_FailureClass <$> acs)) /\
  Forall (fun ac => blank (ak_ID ac) = false /\ blank (ak_FailureClass ac) = false /\ blank (ak_Expected ac) = false) acs /\
  (forall fc, fc ∈ TrimSpace <$> (ak_FailureClass <$> acs) -> fc ∉ seen).
Proof.
  revert i seen. induction acs as [|ac acs IH]; intros i seen; cbn [class_errors].
  { split; [intros _; split_and!; [constructor|done|]|done]. by intros ? ?%not_elem_of_nil. }
  rewrite !app_nil, !note_nil, IH, Forall_cons. rewrite !fmap_cons, NoDup_cons.
  change (TrimSpace (ak_FailureClass ac) =s? "") with (blank (ak_FailureClass ac)).
  destruct (blank (ak_FailureClass ac)) eqn:E; [naive_solver|].
  rewrite note_nil, str_in_false, <- list_elem_of_In. setoid_rewrite not_elem_of_cons. setoid_rewrite elem_of_cons.
  split; [|naive_solver]. intros (Hi & Hs & He & Hnd & Hc & Hf).
  split_and!; naive_solver.
Qed.
Lemma touch_errors_nil i cs : touch_errors i cs = [] <-> Forall (fun c => argvTouchesExcludedLocalState (rq_Argv c) = "") cs.
Proof.
  revert i. induction cs as [|c cs IH]; intros i; [by split; [constructor|]|]. cbn [touch_errors].
  by rewrite app_nil, note_nil, str_neqb_false, IH, Forall_cons.
Qed.
Lemma existsb_elem {A} (p : A -> bool) l : negb (existsb p l) = false <-> exists x, x ∈ l /\ p x = true.
Proof. rewrite negb_false_iff, existsb_exists. by setoid_rewrite list_elem_of_In. Qed.
Lemma task_errors_nil t : task_errors t = [] <-> valid_task t.
Proof.
  unfold task_errors. rewrite !app_nil, !note_nil, command_errors_nil, touch_errors_nil, !existsb_elem.
  unfold harness_pass, target_pass, red_fail, specRegime. setoid_rewrite andb_true_iff.
  setoid_rewrite str_eqb_true. setoid_rewrite str_neqb_true. rewrite !empty_nil, Z.ltb_ge.
  assert ((if blank (tk_TaskID t) then ["task_id required"] else note (negb (validTaskID (tk_TaskID t)))
            "task_id must contain only ASCII letters, digits, '.', '-', or '_'") = [] <->
          blank (tk_TaskID t) = false /\ validTaskID (tk_TaskID t) = true) as ->.
  { destruct (blank _); [naive_solver|]. rewrite note_nil, negb_false_iff. naive_solver. }
  destruct (tk_SecuritySensitive t) eqn:Es; cbn [andb].
  - rewrite Z.ltb_ge, existsb_elem. setoid_rewrite str_eqb_true. split.
    + intros (Hid & Hi & Ha & Hm & Hne & (Hc & Hn & _) & Hh & Ht & Hr & Hs & Hk & Hx & Hy & Hz & Hl).
      rewrite (proj2 (Z.leb_le 1 _) Hs), !app_nil, !note_nil, !empty_nil, class_errors_nil in Hk.
      destruct Hk as (? & ? & ? & ? & _). constructor; first [assumption | by split_and! | intros _; split_and!; assumption].
    + intros [Hid Hl Hm Hc Hn Hh Ht Hr Hx Hv]. destruct (Hr Es) as (Hs & Hf & Ha & Hg & Hd & Hq).
      rewrite (proj2 (Z.leb_le 1 _) Hs), !app_nil, !note_nil, !empty_nil, class_errors_nil.
      destruct Hl, Hx as (? & ? & ?). assert (tk_RequiredCommands t <> []) by (destruct Hh as (c & Hc' & _); by eapply elem_nonempty).
      split_and!; try (assumption || apply Hid); by intros ? _ ?%not_elem_of_nil.
  - split.
    + intros (Hid & Hi & Ha & Hm & Hne & (Hc & Hn & _) & Hh & Ht & Hr & Hs & Hk & Hx & Hy & Hz & Hl).
      constructor; try (intros; congruence); try assumption; split_and?; assumption.
    + intros [Hid Hl Hm Hc Hn Hh Ht Hr Hx Hv].
      destruct Hl, Hx as (? & ? & ?). assert (tk_RequiredCommands t <> []) by (destruct Hh as (c & Hc' & _); by eapply elem_nonempty).
      split_and!; try (assumption || apply Hid || done); by intros ? _ ?%not_elem_of_nil.
Qed.
Lemma ValidateTask_Some t t' : ValidateTask t = (t', None) <->
  t' = set_commands t (normalized <$> tk_RequiredCommands t) /\ valid_task t'.
Proof.
  unfold ValidateTask. set (u := set_commands t _). rewrite <- (task_errors_nil t'). destruct (task_errors u) eqn:E.
  - naive_solver.
  - split; [done|]. intros [-> E']. congruence.
Qed.

Lemma LookupCommand_elem t c : valid_task t -> c ∈ tk_RequiredCommands t -> LookupCommand t (rq_Name c) = Some c.
Proof.
  intros Hv Hin. pose proof (vt_names t Hv) as Hn. unfold LookupCommand. induction (tk_RequiredCommands t) as [|d l IH]; [by apply elem_of_nil in Hin|].
  cbn. csimpl. rewrite fmap_cons, NoDup_cons in Hn. destruct Hn as [Hd Hn]. apply elem_of_cons in Hin as [->|Hin].
  - by rewrite str_eqb_refl.
  - destruct (rq_Name d =s? rq_Name c) eqn:E; [|by apply IH]. bools. exfalso. apply Hd. rewrite E. by apply list_elem_of_fmap_2.
Qed.
End contract.

(** ** The records *)

(** The records of a name, the last one of them, and the attempts at a target. *)
Definition runs (cmds : list CommandRecord) (name : string) : Z :=
  Z.of_nat (length (List.filter (fun c => co_Name c =s? name) cmds)).
Definition last_run (cmds : list CommandRecord) (name : string) (i : nat) (c : CommandRecord) : Prop :=
  cmds !! i = Some c /\ co_Name c = name /\ (forall j d, (i < j)%nat -> cmds !! j = Some d -> co_Name d <> name).
Definition executed (t : Task) (c : CommandRecord) : Prop :=
  co_Source c = "executed" /\ forall req, LookupCommand t (co_Name c) = Some req -> co_Args c = rq_Argv req.

Lemma record_error_None t c : record_error t c = None <-> executed t c.
Proof.
  unfold record_error, executed. destruct (co_Source c <>s? "executed") eqn:E; bools; [naive_solver|].
  destruct (LookupCommand t (co_Name c)) as [req|]; [|naive_solver].
  rewrite fail_if_None, negb_false_iff. unfold argvEqual. rewrite bool_decide_eq_true. naive_solver.
Qed.
Lemma runs_snoc cmds c name : runs (cmds ++ [c]) name = runs cmds name + if co_Name c =s? name then 1 else 0.
Proof. unfold runs. rewrite List.filter_app, length_app. cbn. destruct (co_Name c =s? name); cbn; lia. Qed.

Lemma count_attempts_inv t cmds : Forall (fun c => co_Source c = "executed") cmds ->
  let '(per, max) := foldl (count_attempt t) (∅, 0) cmds in
  (forall name, isTargetPassCmd t name = true -> default 0 (per !! name) = runs cmds name) /\ 0 <= max /\
  (forall n, 0 <= n -> max <= n <-> forall name, isTargetPassCmd t name = true -> runs cmds name <= n).
Proof.
  induction cmds as [|c cmds IH] using rev_ind; intros Hx; cbn [foldl].
  { split_and!; [intros; by rewrite lookup_empty|lia|]. intros n Hn. unfold runs. cbn. split; [lia|done]. }
  apply Forall_app in Hx as [Hx [Hc _]%Forall_cons]. specialize (IH Hx). rewrite foldl_app. cbn [foldl].
  destruct (foldl (count_attempt t) (∅, 0) cmds) as [per max]. destruct IH as (Hp & H0 & Hm). unfold count_attempt.
  rewrite Hc. cbn [String.eqb negb orb Ascii.eqb Bool.eqb]. destruct (isTargetPassCmd t (co_Name c)) eqn:Et; cbn [negb].
  - assert (default 0 (per !! co_Name c) = runs cmds (co_Name c)) as Ep by by apply Hp. rewrite Ep. split_and!.
    + intros name Hname. rewrite runs_snoc. destruct (co_Name c =s? name) eqn:E; bools.
      * rewrite lookup_insert, decide_True by done. done.
      * rewrite lookup_insert_ne by done. rewrite Hp by done. lia.
    + destruct (max <? _) eqn:E; bools; unfold runs in *; lia.
    + intros n Hn. assert (runs cmds (co_Name c) + 1 <= n <-> runs (cmds ++ [c]) (co_Name c) <= n) as Hr
        by (rewrite runs_snoc, str_eqb_refl; lia).
      split.
      * intros Hle name Hname. rewrite runs_snoc. destruct (co_Name c =s? name) eqn:E; bools.
        -- destruct (max <? _) eqn:E; bools; lia.
        -- rewrite Z.add_0_r. apply Hm; [lia| |done]. destruct (max <? _) eqn:E'; bools; lia.
      * intros Hall. assert (max <= n) as Hmax.
        { apply Hm; [done|]. intros name Hname. specialize (Hall name Hname). rewrite runs_snoc in Hall. destruct (_ =s? _); lia. }
        pose proof (Hall _ Et) as Hc'. apply Hr in Hc'. destruct (max <? _); lia.
  - assert (forall name, isTargetPassCmd t name = true -> runs (cmds ++ [c]) name = runs cmds name) as Hr.
    { intros name Hname. rewrite runs_snoc. destruct (co_Name c =s? name) eqn:E; bools; [congruence|lia]. }
    split_and!; [intros name Hname; rewrite Hr by done; by apply Hp|done|]. intros n Hn. rewrite (Hm n Hn).
    split; intros Hall name Hname; specialize (Hall name Hname); rewrite Hr in *; done.
Qed.
Lemma countTargetAttempts_le t cmds n : Forall (fun c => co_Source c = "executed") cmds -> 0 <= n ->
  countTargetAttempts t cmds <= n <-> forall name, isTargetPassCmd t name = true -> runs cmds name <= n.
Proof.
  intros Hx Hn. pose proof (count_attempts_inv t cmds Hx) as Hi. unfold countTargetAttempts.
  destruct (foldl _ _ cmds) as [per max]. by apply Hi.
Qed.

Lemma last_run_snoc_eq cmds c name i d : co_Name c = name -> last_run (cmds ++ [c]) name i d <-> i = length cmds /\ d = c.
Proof.
  intros <-. unfold last_run. split.
  - intros (Hi & Hn & Hl). destruct (decide (i = length cmds)) as [->|Hne].
    + split; [done|]. rewrite lookup_app_r, Nat.sub_diag in Hi by done. by injection Hi.
    + exfalso. apply lookup_lt_Some in Hi as Hlt. rewrite length_app in Hlt. cbn in Hlt.
      apply (Hl (length cmds) c); [lia| |done]. by rewrite lookup_app_r, Nat.sub_diag.
  - intros [-> ->]. split_and!; [by rewrite lookup_app_r, Nat.sub_diag|done|]. intros j d Hj Hd.
    apply lookup_lt_Some in Hd. rewrite length_app in Hd. cbn in Hd. lia.
Qed.
Lemma last_run_snoc_ne cmds c name i d : co_Name c <> name -> last_run (cmds ++ [c]) name i d <-> last_run cmds name i d.
Proof.
  intros Hne. unfold last_run. split; intros (Hi & Hn & Hl).
  - assert (i < length cmds)%nat as Hlt.
    { apply lookup_lt_Some in Hi as Hlt. rewrite length_app in Hlt. cbn in Hlt. destruct (decide (i = length cmds)) as [->|]; [|lia].
      rewrite lookup_app_r, Nat.sub_diag in Hi by done. injection Hi as <-. done. }
    rewrite lookup_app_l in Hi by done. split_and!; [done..|]. intros j e Hj He. apply (Hl j e Hj).
    apply lookup_lt_Some in He as Hjl. by rewrite lookup_app_l.
  - apply lookup_lt_Some in Hi as Hlt. split_and!; [by rewrite lookup_app_l|done|]. intros j e Hj He.
    destruct (decide (j < length cmds)%nat) as [Hjl|Hjl]; [rewrite lookup_app_l in He by done; by apply (Hl j)|].
    apply lookup_lt_Some in He as Hjm. rewrite length_app in Hjm. cbn in Hjm. assert (j = length cmds) as -> by lia.
    rewrite lookup_app_r, Nat.sub_diag in He by done. by injection He as <-.
Qed.

(** On executed records, [lastMatching] with a required outcome is the last
    record of the name, when that has the outcome. *)
Lemma lastMatching_spec t cmds name req pass i c : LookupCommand t name = Some req -> Forall (executed t) cmds ->
  lastMatching t cmds name (Some pass) = (i, Some c) <->
  0 <= i /\ last_run cmds name (Z.to_nat i) c /\ (co_Exit c =? 0) = pass.
Proof.
  intros Hreq. unfold lastMatching. rewrite Hreq. revert i c. induction cmds as [|d cmds IH] using rev_ind; intros i c Hx.
  { cbn. split; [done|]. intros (_ & (Hi & _) & _). by rewrite lookup_nil in Hi. }
  apply Forall_app in Hx as [Hx [[Hs Ha] _]%Forall_cons]. rewrite rev_app_distr, length_app. cbn [rev app last_matching length].
  rewrite Hs. cbn [String.eqb negb orb Ascii.eqb Bool.eqb]. rewrite orb_false_r.
  replace (Z.of_nat (length cmds + 1) - 1) with (Z.of_nat (length cmds)) by lia.
  destruct (co_Name d <>s? name) eqn:En; bools.
  - rewrite (last_run_snoc_ne cmds d name) by done. by apply IH.
  - rewrite (last_run_snoc_eq cmds d (co_Name d)) by done. unfold argvEqual. rewrite bool_decide_true by by apply Ha. cbn [negb].
    destruct (Bool.eqb pass (co_Exit d =? 0)) eqn:Ee; cbn [negb].
    + apply Bool.eqb_prop in Ee. split; [intros [= <- <-]; split_and!; [lia|lia|done|done]|].
      intros (H0 & [Hi ->] & _). do 2 f_equal. lia.
    + split; [done|]. intros (_ & [_ ->] & Hp). by rewrite Hp, Bool.eqb_reflx in Ee.
Qed.
Lemma first_index_spec {A} (p : A -> bool) (l : list A) (i : Z) : 0 <= i ->
  (first_index p i l = -1 /\ Forall (fun x => p x = false) l) \/
  (exists k x, first_index p i l = i + Z.of_nat k /\ l !! k = Some x /\ p x = true /\
               forall j y, (j < k)%nat -> l !! j = Some y -> p y = false).
Proof.
  revert i. induction l as [|y l IH]; intros i Hi; cbn [first_index]; [by left|]. destruct (p y) eqn:Ey.
  - right. exists 0%nat, y. split_and!; [lia|done|done|lia].
  - destruct (IH (i + 1) ltac:(lia)) as [[-> Hf]|(k & x & -> & Hk & Hp & Hl)]; [left; split; [done|by constructor]|].
    right. exists (S k), x. split_and!; [lia|done|done|]. intros [|j] z Hj Hz; [by injection Hz as <-|]. apply (Hl j z); [lia|done].
Qed.

(** ** The stages *)

(** A record that passed at the snapshot's workspace and base. *)
Definition green (snap : Snapshot) (c : CommandRecord) : Prop :=
  co_Exit c = 0 /\ co_WorkspaceDigest c = sn_WorkspaceDigest snap /\ co_BaseSHA c = sn_BaseSHA snap.
(** A failing run of a command the contract wants to fail, in the cycle of the
    spec review [gate]. *)
Definition red (t : Task) (gate : option ReviewArtifact) (c : CommandRecord) : Prop :=
  isRedFailCmd t (co_Name c) = true /\ co_Exit c <> 0 /\
  match gate with Some pass => co_SpecSequence c = rw_Sequence pass | None => True end.
Definition after_red (t : Task) (gate : option ReviewArtifact) (cmds : list CommandRecord) (i : Z) : Prop :=
  exists k c, cmds !! k = Some c /\ red t gate c /\ Z.of_nat k < i.
(** The target's last record, at [i], is green and later than a red one. *)
Definition target_met (t : Task) (gate : option ReviewArtifact) (cmds : list CommandRecord) (snap : Snapshot) (r : ReqCmd) (i : Z) : Prop :=
  0 <= i /\ exists c, last_run cmds (rq_Name r) (Z.to_nat i) c /\ green snap c /\
  (tk_SecuritySensitive t = true -> after_red t gate cmds i).

Lemma isRedFailCmd_elem t name : isRedFailCmd t name = true <-> exists c, c ∈ tk_RequiredCommands t /\ rq_Name c = name /\ rq_Expect c = "fail".
Proof.
  unfold isRedFailCmd. rewrite existsb_exists. setoid_rewrite list_elem_of_In. setoid_rewrite andb_true_iff. by setoid_rewrite str_eqb_true.
Qed.
Lemma isTargetPassCmd_elem t name : isTargetPassCmd t name = true <-> exists c, c ∈ tk_RequiredCommands t /\ rq_Name c = name /\ target_pass c = true.
Proof.
  unfold isTargetPassCmd, target_pass. rewrite existsb_exists. setoid_rewrite list_elem_of_In. setoid_rewrite andb_true_iff.
  setoid_rewrite andb_true_iff. setoid_rewrite str_eqb_true. naive_solver.
Qed.
Lemma is_red_spec `{GoUnicode} t gate c : valid_task t -> executed t c -> is_red t gate c = true <-> red t gate c.
Proof.
  intros Hv [Hs Ha]. unfold is_red, red. rewrite Hs. cbn [String.eqb negb orb Ascii.eqb Bool.eqb].
  rewrite !andb_true_iff, negb_true_iff, orb_false_iff, negb_false_iff, Z.eqb_neq.
  assert (match gate with Some pass => co_SpecSequence c =? rw_Sequence pass | None => true end = true <->
          match gate with Some pass => co_SpecSequence c = rw_Sequence pass | None => True end) as ->
    by (destruct gate; [by rewrite Z.eqb_eq|done]).
  split; [naive_solver|]. intros (Hr & He & Hg). split_and!; [done..| |done].
  apply isRedFailCmd_elem in Hr as (r & Hin & Hn & _). pose proof (LookupCommand_elem t r Hv Hin) as Hl. rewrite Hn in Hl.
  rewrite Hl. unfold argvEqual. apply bool_decide_eq_true. by apply Ha.
Qed.

Section stages.
Context `{GoUnicode, GoFmt}.
Variables (t : Task) (gate : option ReviewArtifact) (cmds : list CommandRecord) (snap : Snapshot).
Hypothesis Hv : valid_task t.
Hypothesis Hx : Forall (executed t) cmds.

Lemma after_red_index i : tk_SecuritySensitive t = true ->
  after_red t gate cmds i <-> 0 <= red_index t cmds gate < i.
Proof.
  intros Hs. unfold red_index, after_red. rewrite Hs. pose proof (proj1 (Forall_forall _ _) Hx) as Hex.
  destruct (first_index_spec (is_red t gate) cmds 0 ltac:(lia)) as [[-> Hf]|(k & c & -> & Hk & Hp & Hl)].
  - split; [|lia]. intros (k & c & Hk & Hr & _). apply list_elem_of_lookup_2 in Hk.
    apply (is_red_spec t gate c Hv (Hex c Hk)) in Hr. pose proof (proj1 (Forall_forall _ _) Hf c Hk). congruence.
  - split.
    + intros (k' & c' & Hk' & Hr & Hi). apply (is_red_spec t gate c' Hv (Hex c' (list_elem_of_lookup_2 _ _ _ Hk'))) in Hr.
      destruct (decide (k' < k)%nat) as [Hlt|]; [|lia]. pose proof (Hl k' c' Hlt Hk'). congruence.
    + intros Hi. exists k, c. split_and!; [done| |lia]. apply (is_red_spec t gate c Hv); [|done]. apply Hex. by eapply list_elem_of_lookup_2.
Qed.

(** Where the target is met, the order after the red run included. *)
Definition target_idx (r : ReqCmd) : option Z :=
  match lastMatching t cmds (rq_Name r) (Some true) with
  | (idx, Some c) =>
      if (co_WorkspaceDigest c =s? sn_WorkspaceDigest snap) && (co_BaseSHA c =s? sn_BaseSHA snap) &&
         negb (tk_SecuritySensitive t && (0 <=? red_index t cmds gate) && (idx <=? red_index t cmds gate))
      then Some idx else None
  | _ => None
  end.
Lemma target_turn_eq ok reasons last r : target_pass r = true -> exists reasons',
  target_turn t cmds snap (red_index t cmds gate) (ok, reasons, last) r =
  match target_idx r with Some idx => (ok, reasons', Z.max last idx) | None => (false, reasons', last) end.
Proof.
  unfold target_pass, target_turn, target_idx. rewrite andb_true_iff, negb_true_iff. intros [-> ->]. cbn [negb orb].
  destruct (lastMatching _ _ _ _) as [idx [c|]]; [|by eexists].
  destruct (co_WorkspaceDigest c =s? _); [|by eexists]. destruct (co_BaseSHA c =s? _); [|by eexists]. cbn [negb andb].
  destruct (_ && _); [by eexists|]. cbn [negb]. eexists. f_equal. destruct (last <? idx) eqn:E; bools; lia.
Qed.
Lemma target_idx_spec r i : r ∈ tk_RequiredCommands t -> (tk_SecuritySensitive t = true -> 0 <= red_index t cmds gate) ->
  target_idx r = Some i <-> target_met t gate cmds snap r i.
Proof.
  intros Hr Hred. unfold target_idx, target_met, green.
  assert (Hl : forall i c, lastMatching t cmds (rq_Name r) (Some true) = (i, Some c) <->
                0 <= i /\ last_run cmds (rq_Name r) (Z.to_nat i) c /\ co_Exit c = 0).
  { intros j c. rewrite (lastMatching_spec t cmds _ _ true j c (LookupCommand_elem t r Hv Hr) Hx), Z.eqb_eq. done. }
  assert (Ho : negb (tk_SecuritySensitive t && (0 <=? red_index t cmds gate) && (i <=? red_index t cmds gate)) = true <->
               (tk_SecuritySensitive t = true -> after_red t gate cmds i)).
  { destruct (tk_SecuritySensitive t) eqn:Es; [|by split]. specialize (Hred eq_refl).
    rewrite (proj2 (Z.leb_le 0 _) Hred), after_red_index by done. cbn [andb]. rewrite negb_true_iff, Z.leb_gt. naive_solver lia. }
  destruct (lastMatching _ _ _ _) as [idx [c|]] eqn:El.
  - destruct (proj1 (Hl idx c) eq_refl) as (Hnn & Hc & He). split.
    + destruct (_ && _ && negb _) eqn:E; [|done]. intros [= ->]. rewrite !andb_true_iff, !str_eqb_true, Ho in E. naive_solver.
    + intros (Hi & d & Hd & (Hg & Hw & Hb) & Ha). injection (proj2 (Hl i d) (conj Hi (conj Hd Hg))) as -> ->.
      rewrite Hw, Hb, !str_eqb_refl. cbn [andb]. by rewrite (proj2 Ho Ha).
  - split; [done|]. intros (Hi & d & Hd & (Hg & _) & _). by pose proof (proj2 (Hl i d) (conj Hi (conj Hd Hg))).
Qed.
Lemma target_fold l ok reasons last : match foldl (target_turn t cmds snap (red_index t cmds gate)) (ok, reasons, last) l with
  | (ok', _, last') =>
      (ok' = true <-> ok = true /\ forall r, r ∈ l -> target_pass r = true -> is_Some (target_idx r)) /\
      last <= last' /\ (forall r i, r ∈ l -> target_pass r = true -> target_idx r = Some i -> i <= last') /\
      (last' = last \/ exists r, r ∈ l /\ target_pass r = true /\ target_idx r = Some last')
  end.
Proof.
  revert ok reasons last. induction l as [|r l IH]; intros ok reasons last; cbn [foldl].
  { split_and!; [|lia|intros r i Hr; by apply not_elem_of_nil in Hr|by left]. split; [|by intros []].
    intros ->. split; [done|]. intros r Hr. by apply not_elem_of_nil in Hr. }
  destruct (target_pass r) eqn:Et.
  - destruct (target_turn_eq ok reasons last r Et) as [reasons' ->]. destruct (target_idx r) as [idx|] eqn:Ei.
    + specialize (IH ok reasons' (Z.max last idx)). destruct (foldl _ _ l) as [[ok' ?] last']. destruct IH as (Ho & Hl & Hm & Hw).
      setoid_rewrite elem_of_cons.
      split_and!; [rewrite Ho; naive_solver|lia|intros r' i [->|Hr'] Hp Hi; [assert (i = idx) as -> by congruence; lia|by eapply Hm]|].
      destruct Hw as [->|(r' & ? & ? & ?)]; [|naive_solver]. destruct (Z.max_spec last idx) as [[_ ->]|[_ ->]]; naive_solver.
    + specialize (IH false reasons' last). destruct (foldl _ _ l) as [[ok' ?] last']. destruct IH as (Ho & Hl & Hm & Hw).
      setoid_rewrite elem_of_cons.
      split_and!; [rewrite Ho; split; [by intros []|]|lia|intros r' i [->|Hr'] Hp Hi; [congruence|by eapply Hm]|naive_solver].
      intros [_ Ha]. destruct (Ha r (or_introl eq_refl) Et). congruence.
  - assert (target_turn t cmds snap (red_index t cmds gate) (ok, reasons, last) r = (ok, reasons, last)) as ->.
    { revert Et. unfold target_pass, target_turn. destruct (rq_Name r =s? "harness"); [done|]. by destruct (rq_Expect r =s? "pass"). }
    specialize (IH ok reasons last). destruct (foldl _ _ l) as [[ok' ?] last']. destruct IH as (Ho & Hl & Hm & Hw).
      setoid_rewrite elem_of_cons.
    split_and!; [|lia|intros r' i [->|Hr'] Hp Hi; [congruence|by eapply Hm]|].
    + rewrite Ho. split; intros [Hok Ha]; (split; [done|]).
      * intros r' [->|Hr'] Hp; [congruence|by apply Ha].
      * intros r' Hr' Hp. apply Ha; [by right|done].
    + destruct Hw as [->|(r' & ? & ? & ?)]; [by left|right]. exists r'. auto.
Qed.

(** What holds at [TARGET_VERIFIED]. *)
Definition targets_met (scope : ScopeResult) (last : Z) : Prop :=
  so_Pass scope = true /\
  (forall r, r ∈ tk_RequiredCommands t -> target_pass r = true -> exists i, target_met t gate cmds snap r i /\ i <= last) /\
  (exists r, r ∈ tk_RequiredCommands t /\ target_pass r = true /\ target_met t gate cmds snap r last).
Lemma red_needed : (forall r, r ∈ tk_RequiredCommands t -> target_pass r = true -> exists i, target_met t gate cmds snap r i) ->
  tk_SecuritySensitive t = true -> 0 <= red_index t cmds gate.
Proof.
  intros Hall Hs. destruct (vt_target t Hv) as (r & Hr & Hn & He).
  destruct (Hall r Hr) as (i & _ & c & _ & _ & Ha); [by unfold target_pass; apply str_neqb_true in Hn; rewrite Hn, He|].
  apply (after_red_index i Hs) in Ha; [lia|done].
Qed.
Lemma target_stage_spec scope ok reasons last :
  target_stage t cmds scope snap (red_index t cmds gate) = (ok, reasons, last) ->
  (ok && (0 <=? last) = true -> targets_met scope last) /\
  (so_Pass scope = true -> (forall r, r ∈ tk_RequiredCommands t -> target_pass r = true -> exists i, target_met t gate cmds snap r i) ->
   ok && (0 <=? last) = true).
Proof.
  unfold target_stage. intros E.
  pose proof (target_fold (tk_RequiredCommands t) (so_Pass scope && negb (tk_SecuritySensitive t && (red_index t cmds gate <? 0)))
                (note (negb (so_Pass scope)) "scope_not_pass") (-1)) as Hf.
  rewrite E in Hf. destruct Hf as (Ho & Hl & Hm & Hw). rewrite andb_true_iff, Ho, andb_true_iff, negb_true_iff, Z.leb_le. unfold targets_met.
  assert (Hr : (tk_SecuritySensitive t && (red_index t cmds gate <? 0) = false) <-> (tk_SecuritySensitive t = true -> 0 <= red_index t cmds gate))
    by (destruct (tk_SecuritySensitive t); cbn [andb]; [rewrite Z.ltb_ge|]; naive_solver).
  rewrite Hr. split.
  - intros [[[Hp Hred] Hall] Hnn]. split_and!; [done| |].
    + intros r Hin Ht. destruct (Hall r Hin Ht) as [i Hi]. exists i. split; [|by eapply Hm]. by apply target_idx_spec.
    + destruct Hw as [->|(r & Hin & Ht & Hi)]; [lia|]. exists r. split_and!; [done..|]. by apply target_idx_spec.
  - intros Hp Hall. pose proof (red_needed Hall) as Hred.
    split_and!; [done..| |].
    + intros r Hin Ht. destruct (Hall r Hin Ht) as [i Hi]. exists i. by apply target_idx_spec.
    + destruct (vt_target t Hv) as (r & Hin & Hn & He). assert (target_pass r = true) as Ht
        by (unfold target_pass; apply str_neqb_true in Hn; by rewrite Hn, He).
      destruct (Hall r Hin Ht) as [i Hi]. transitivity i; [apply Hi|]. apply (Hm r i Hin Ht). by apply target_idx_spec.
Qed.
End stages.

(** ** The journal *)

(** [x], at [i], is the last element that satisfies [p]. *)
Definition last_such {A} (p : A -> bool) (l : list A) (i : nat) (x : A) : Prop :=
  l !! i = Some x /\ p x = true /\ forall j y, (i < j)%nat -> l !! j = Some y -> p y = false.
Lemma last_such_snoc {A} (p : A -> bool) l y i x :
  last_such p (l ++ [y]) i x <-> (if p y then i = length l /\ x = y else last_such p l i x).
Proof.
  unfold last_such. destruct (p y) eqn:Ey; split.
  - intros (Hi & Hp & Hl). apply lookup_snoc_Some in Hi as [[Hlt Hi]|[-> ->]]; [|done].
    pose proof (Hl (length l) y Hlt) as Hy. rewrite lookup_app_r, Nat.sub_diag in Hy by done. rewrite Hy in Ey; done.
  - intros [-> ->]. split_and!; [by rewrite lookup_app_r, Nat.sub_diag|done|]. intros j z Hj Hz.
    apply lookup_lt_Some in Hz. rewrite length_app in Hz. cbn in Hz. lia.
  - intros (Hi & Hp & Hl). apply lookup_snoc_Some in Hi as [[Hlt Hi]|[-> <-]]; [|congruence].
    split_and!; [done..|]. intros j z Hj Hz. apply (Hl j z Hj). apply lookup_snoc_Some. left. split; [by eapply lookup_lt_Some|done].
  - intros (Hi & Hp & Hl). split_and!; [apply lookup_snoc_Some; left; split; [by eapply lookup_lt_Some|done]|done|].
    intros j z Hj [[_ Hz]|[_ <-]]%lookup_snoc_Some; [by apply (Hl j)|done].
Qed.
Lemma find_rev_spec {A} (p : A -> bool) l x : List.find p (rev l) = Some x <-> exists i, last_such p l i x.
Proof.
  induction l as [|y l IH] using rev_ind.
  { cbn. split; [done|]. intros (i & Hi & _). by rewrite lookup_nil in Hi. }
  rewrite rev_app_distr. cbn [rev app List.find]. setoid_rewrite last_such_snoc. destruct (p y); [naive_solver|done].
Qed.
Lemma last_review_find p reviews : last_review p reviews = List.find p (rev reviews).
Proof.
  unfold last_review. induction reviews as [|r l IH] using rev_ind; [done|].
  rewrite foldl_app, rev_app_distr. cbn. by rewrite IH.
Qed.

(** Reviews as [LoadReviewSequence] numbers them. *)
Definition journaled (reviews : list ReviewArtifact) : Prop := forall i r, reviews !! i = Some r -> rw_Sequence r = Z.of_nat i + 1.

(** The current spec review, at [g], when the contract needs one and it passed. *)
Definition spec_gate (t : Task) (digest : string) (reviews : list ReviewArtifact) (gate : option (nat * ReviewArtifact)) : Prop :=
  match gate with
  | Some (g, pass) => tk_SecuritySensitive t = true /\ last_such (spec_review_of digest (tk_SpecRevision t)) reviews g pass /\ rw_Passed pass = true
  | None => tk_SecuritySensitive t = false
  end.
(** An implementation review of this contract. *)
Definition of_contract (t : Task) (digest : string) (r : ReviewArtifact) : Prop :=
  rw_Phase r <> "spec" /\ (tk_SecuritySensitive t = true -> rw_ContractDigest r = digest /\ rw_SpecRevision r = tk_SpecRevision t).
(** The last one passed, at this snapshot, after the current spec review. *)
Definition implementation_reviewed (t : Task) (digest : string) (gate : option (nat * ReviewArtifact)) (reviews : list ReviewArtifact)
    (snap : Snapshot) : Prop :=
  exists j review, reviews !! j = Some review /\ of_contract t digest review /\ rw_Passed review = true /\
    rw_HeadSHA review = sn_HeadSHA snap /\ rw_WorkspaceDigest review = sn_WorkspaceDigest snap /\ rw_BaseSHA review = sn_BaseSHA snap /\
    match gate with Some (g, _) => (g < j)%nat | None => True end /\
    (forall l r, (j < l)%nat -> reviews !! l = Some r -> ~ of_contract t digest r).

Section journal.
Context `{GoUnicode, GoFmt}.
Variables (t : Task) (digest : string) (reviews : list ReviewArtifact).
Hypothesis Hv : valid_task t.
Hypothesis Hj : journaled reviews.

Lemma specRegime_sensitive : specRegime t = tk_SecuritySensitive t.
Proof.
  unfold specRegime. destruct (tk_SecuritySensitive t) eqn:Es; [|done]. apply Z.leb_le. by apply (vt_red t Hv).
Qed.
Lemma currentSpecPass_spec pass : currentSpecPass reviews digest (tk_SpecRevision t) = Some pass <->
  (exists g, last_such (spec_review_of digest (tk_SpecRevision t)) reviews g pass) /\ rw_Passed pass = true.
Proof.
  unfold currentSpecPass, LatestSpecReview. rewrite last_review_find, <- find_rev_spec.
  destruct (List.find _ _) as [r|]; [|by split; [|intros []]].
  destruct (rw_Passed r) eqn:E; split; [by intros [= <-]|by intros [[= ->] _]|done|intros [[= ->] ?]; congruence].
Qed.
Lemma last_such_index {A} (p : A -> bool) l i j x y : last_such p l i x -> last_such p l j y -> i = j.
Proof.
  intros (Hi & Hp & Hl) (Hj' & Hq & Hm). destruct (Nat.lt_trichotomy i j) as [Hlt|[->|Hlt]]; [|done|].
  - pose proof (Hl j y Hlt Hj'). congruence.
  - pose proof (Hm i x Hlt Hi). congruence.
Qed.

Lemma eligible_spec gate j r : spec_gate t digest reviews gate -> reviews !! j = Some r ->
  eligible t digest (match gate with Some (_, pass) => rw_Sequence pass | None => 0 end) r = true <->
  of_contract t digest r /\ match gate with Some (g, _) => (g < j)%nat | None => True end.
Proof.
  intros Hg Hr. unfold eligible, of_contract. rewrite specRegime_sensitive, !andb_true_iff, !negb_true_iff, str_eqb_false.
  rewrite (Hj _ _ Hr).
  assert (forall s, tk_SecuritySensitive t = s -> (s && ((rw_ContractDigest r <>s? digest) || negb (rw_SpecRevision r =? tk_SpecRevision t)) = false <->
           (s = true -> rw_ContractDigest r = digest /\ rw_SpecRevision r = tk_SpecRevision t))) as Hc.
  { intros [] _; cbn [andb]; [|by split]. rewrite orb_false_iff, str_neqb_false, negb_false_iff, Z.eqb_eq. tauto. }
  rewrite (Hc _ eq_refl). destruct gate as [[g pass]|].
  - destruct Hg as (_ & (Hp & _ & _) & _). rewrite (Hj _ _ Hp), andb_false_iff, Z.ltb_ge, Z.leb_gt. naive_solver lia.
  - cbn. naive_solver.
Qed.
Lemma latestJournalReview_spec gate review : spec_gate t digest reviews gate ->
  latestJournalReview reviews t digest = Some review <->
  exists j, reviews !! j = Some review /\ of_contract t digest review /\ match gate with Some (g, _) => (g < j)%nat | None => True end /\
    (forall l r, (j < l)%nat -> reviews !! l = Some r -> ~ of_contract t digest r).
Proof.
  intros Hg. unfold latestJournalReview. rewrite specRegime_sensitive.
  assert ((if tk_SecuritySensitive t then match currentSpecPass reviews digest (tk_SpecRevision t) with
             | Some pass => rw_Sequence pass | None => 0 end else 0) =
          match gate with Some (_, pass) => rw_Sequence pass | None => 0 end) as ->.
  { destruct gate as [[g pass]|]; cbn in Hg; [|by rewrite Hg]. destruct Hg as (-> & Hg & Hp).
    by rewrite (proj2 (currentSpecPass_spec pass) (conj (ex_intro _ g Hg) Hp)). }
  rewrite find_rev_spec. unfold last_such. split; intros (j & Hr & Hrest); exists j.
  - destruct Hrest as [He Hl]. apply (eligible_spec gate j review Hg Hr) in He as [Ho Hgj]. split_and!; [done..|].
    intros l r Hlt Hlr Hor. pose proof (Hl l r Hlt Hlr) as Hn.
    rewrite (proj2 (eligible_spec gate l r Hg Hlr)) in Hn; [done|]. split; [done|]. destruct gate as [[g ?]|]; [lia|done].
  - destruct Hrest as (Ho & Hgj & Hl). split_and!; [done|by apply (eligible_spec gate j review Hg Hr)|].
    intros l r Hlt Hlr. apply not_true_is_false. intros [He _]%(eligible_spec gate l r Hg Hlr). by eapply Hl.
Qed.

Lemma review_stage_spec gate snap st : spec_gate t digest reviews gate -> st <> StatusSecurityReviewed ->
  (review_stage t digest (snd <$> gate) reviews snap st).1 = StatusSecurityReviewed <->
  st = StatusHarnessVerified /\ implementation_reviewed t digest gate reviews snap.
Proof.
  intros Hg Hst. unfold review_stage, implementation_reviewed. pose proof (latestJournalReview_spec gate) as Hl.
  destruct (latestJournalReview reviews t digest) as [review|].
  - destruct (proj1 (Hl review Hg) eq_refl) as (j & Hr & Ho & Hgj & Hlast). split.
    + destruct (rw_Passed review) eqn:Ep; cbn [negb]; [|done]. destruct (st <>s? StatusHarnessVerified) eqn:Es; bools; [done|].
      destruct (rw_Phase review =s? "spec"); [done|]. destruct (_ || _) eqn:Eb; [done|]. bools.
      destruct (specRegime t && _); [done|]. destruct (specRegime t && _); [done|]. intros _. split; [done|]. by exists j, review.
    + intros (-> & j' & r' & Hr' & Ho' & Hp & Hh & Hw & Hb & Hg' & Hl').
      assert (r' = review) as -> by (pose proof (proj2 (Hl r' Hg) (ex_intro _ j' (conj Hr' (conj Ho' (conj Hg' Hl'))))); congruence).
      rewrite Hp, Hh, Hw, Hb, !str_eqb_refl. cbn [negb orb]. rewrite specRegime_sensitive. destruct Ho as [Hph Hc].
      apply str_eqb_false in Hph. rewrite Hph. destruct gate as [[g pass]|]; cbn in Hg |- *.
      * destruct Hg as (Hs & (Hpass & _) & _). rewrite Hs. destruct (Hc Hs) as [-> ->]. rewrite str_eqb_refl, Z.eqb_refl. cbn.
        rewrite (Hj _ _ Hr), (Hj _ _ Hpass). by rewrite (proj2 (Z.leb_gt _ _)) by lia.
      * by rewrite Hg.
  - split; [done|]. intros (_ & j & r & Hr & Ho & _ & _ & _ & _ & Hgj & Hlast).
    by pose proof (proj2 (Hl r Hg) (ex_intro _ j (conj Hr (conj Ho (conj Hgj Hlast))))).
Qed.
End journal.

(** ** The review evidence *)

Definition bound_to (t : Task) (digest : string) (r : ReviewArtifact) : Prop :=
  rw_ContractDigest r = digest /\ rw_SpecRevision r = tk_SpecRevision t.
Definition sound_spec_review (t : Task) (digest : string) (r : ReviewArtifact) : Prop :=
  1 <= rw_SpecRevision r /\ blank (rw_ContractDigest r) = false /\
  (tk_SecuritySensitive t = true -> bound_to t digest r ->
     (forall c, c ∈ rw_CoveredAttackClasses r -> c ∈ canonicalClasses t) /\
     (rw_Passed r = true ->
        (forall c, c ∈ canonicalClasses t -> c ∈ rw_CoveredAttackClasses r) /\ clean (rw_Counterexamples r) <> [])).
Definition sound_implementation_review (t : Task) (digest : string) (r : ReviewArtifact) : Prop :=
  (tk_SecuritySensitive t = true -> blank (rw_ContractDigest r) = false /\ 1 <= rw_SpecRevision r /\
     (bound_to t digest r -> forall c, c ∈ rw_FailureClasses r -> c ∈ canonicalClasses t)) /\
  rw_HeadSHA r <> "" /\ rw_WorkspaceDigest r <> "" /\ rw_BaseSHA r <> "".
Definition sound_review (t : Task) (digest : string) (r : ReviewArtifact) : Prop :=
  (rw_Phase r = "spec" /\ sound_spec_review t digest r) \/
  ((rw_Phase r = "" \/ rw_Phase r = "implementation") /\ sound_implementation_review t digest r).

Lemma each_fail_if {A} (b : A -> bool) (msg : A -> string) l :
  each_err (fun x => fail_if (b x) (msg x)) l = None <-> forall x, x ∈ l -> b x = false.
Proof. rewrite each_err_None, Forall_forall. by setoid_rewrite fail_if_None. Qed.
Lemma outside_false c (X : gset string) : bool_decide (c ∉ X) = false <-> c ∈ X.
Proof. rewrite bool_decide_eq_false. split; [apply dec_stable|tauto]. Qed.

Section review.
Context `{GoUnicode, GoFmt, GoCrypto, TaskJSON, GoMapOrder}.
Hypothesis range_all : forall s, range_keys s ≡ₚ elements s.

Lemma spec_checks_None t (cur : bool) r : spec_checks t cur r = None <->
  1 <= rw_SpecRevision r /\ blank (rw_ContractDigest r) = false /\
  (cur = true -> (forall c, c ∈ rw_CoveredAttackClasses r -> c ∈ canonicalClasses t) /\
     (rw_Passed r = true ->
        (forall c, c ∈ canonicalClasses t -> c ∈ rw_CoveredAttackClasses r) /\ clean (rw_Counterexamples r) <> [])).
Proof.
  unfold spec_checks. rewrite !err_then_None, !fail_if_None, Z.ltb_ge. destruct cur; [|naive_solver].
  rewrite err_then_None, each_fail_if. setoid_rewrite outside_false.
  destruct (rw_Passed r); [|naive_solver]. rewrite err_then_None, fail_if_None, each_fail_if, empty_nil.
  setoid_rewrite negb_false_iff. unfold containsStr. setoid_rewrite str_in_In. setoid_rewrite <- list_elem_of_In.
  setoid_rewrite range_all. setoid_rewrite elem_of_elements. tauto.
Qed.
Lemma implementation_checks_None t (cur : bool) r : implementation_checks t cur r = None <->
  (specRegime t = true -> blank (rw_ContractDigest r) = false /\ 1 <= rw_SpecRevision r /\
     (cur = true -> forall c, c ∈ rw_FailureClasses r -> c ∈ canonicalClasses t)) /\
  rw_HeadSHA r <> "" /\ rw_WorkspaceDigest r <> "" /\ rw_BaseSHA r <> "".
Proof.
  unfold implementation_checks. rewrite err_then_None, fail_if_None, !orb_false_iff, !str_eqb_false.
  destruct (specRegime t); [|naive_solver]. rewrite err_then_None, fail_if_None, orb_false_iff, Z.ltb_ge.
  destruct cur; [|naive_solver]. rewrite each_fail_if. setoid_rewrite outside_false. tauto.
Qed.
Lemma ValidateReviewArtifact_None t digest r : valid_task t -> ContractDigest t = Ok digest ->
  ValidateReviewArtifact r t = None <-> sound_review t digest r.
Proof.
  intros Hv Hd. unfold ValidateReviewArtifact, sound_review, sound_spec_review, sound_implementation_review, bound_to.
  rewrite (specRegime_sensitive t Hv).
  set (phase := if rw_Phase r =s? "" then _ else _).
  assert (Hp : (phase = "spec" <-> rw_Phase r = "spec") /\ (phase = "implementation" <-> rw_Phase r = "" \/ rw_Phase r = "implementation")).
  { unfold phase. destruct (rw_Phase r =s? "") eqn:E; bools; [rewrite E|tauto]. split; split; (done || by left). }
  destruct Hp as [<- <-].
  set (live := if tk_SecuritySensitive t then ContractDigest t else Ok "").
  assert (exists d, live = Ok d /\ (tk_SecuritySensitive t = true -> d = digest)) as (d & -> & Hs)
    by (unfold live; destruct (tk_SecuritySensitive t); eexists; split; [exact Hd|done|reflexivity|done]).
  assert (Hc : tk_SecuritySensitive t && (rw_ContractDigest r =s? d) && (rw_SpecRevision r =? tk_SpecRevision t) = true <->
               tk_SecuritySensitive t = true /\ rw_ContractDigest r = digest /\ rw_SpecRevision r = tk_SpecRevision t).
  { rewrite !andb_true_iff, str_eqb_true, Z.eqb_eq. naive_solver. }
  destruct (phase =s? "spec") eqn:E1; bools; [|destruct (phase =s? "implementation") eqn:E2; bools].
  - rewrite E1. cbn [String.eqb negb andb Ascii.eqb Bool.eqb]. rewrite spec_checks_None, Hc. naive_solver.
  - rewrite E2. cbn [String.eqb negb andb Ascii.eqb Bool.eqb].
    rewrite implementation_checks_None, Hc, (specRegime_sensitive t Hv). naive_solver.
  - cbn [negb andb]. naive_solver.
Qed.
End review.

(** ** The status *)

Section status.
Context `{GoUnicode, GoFmt, GoCrypto, TaskJSON, GoMapOrder}.

(** The harness's last record is green, and every target was met before. *)
Definition harness_met (t : Task) (gate : option ReviewArtifact) (cmds : list CommandRecord) (snap : Snapshot) : Prop :=
  exists hi h, last_run cmds "harness" hi h /\ green snap h /\
    forall r, r ∈ tk_RequiredCommands t -> target_pass r = true -> exists i, target_met t gate cmds snap r i /\ i < Z.of_nat hi.
Lemma target_met_unique t gate cmds snap r i j : target_met t gate cmds snap r i -> target_met t gate cmds snap r j -> i = j.
Proof.
  intros (Hi & c & (Hc & Hn & Hl) & _) (Hj & d & (Hd & Hm & Hk) & _).
  destruct (Nat.lt_trichotomy (Z.to_nat i) (Z.to_nat j)) as [Hlt|[E|Hlt]]; [|lia|].
  - by destruct (Hl _ _ Hlt Hd).
  - by destruct (Hk _ _ Hlt Hc).
Qed.
Lemma harness_stage_spec t gate cmds scope snap last : valid_task t -> Forall (executed t) cmds -> targets_met t gate cmds snap scope last ->
  (harness_stage t cmds snap last StatusTargetVerified).1 = StatusHarnessVerified <-> harness_met t gate cmds snap.
Proof.
  intros Hv Hx (_ & Hall & r0 & Hr0 & Ht0 & Hm0). unfold harness_stage. cbn [String.eqb Ascii.eqb Bool.eqb StatusTargetVerified].
  destruct (vt_harness t Hv) as (c & Hc & Hn & _). pose proof (LookupCommand_elem t c Hv Hc) as Hl. rewrite Hn in Hl.
  pose proof (fun i h => lastMatching_spec t cmds "harness" c true i h Hl Hx) as Hs. setoid_rewrite Z.eqb_eq in Hs.
  unfold harness_met, green. destruct (lastMatching t cmds "harness" (Some true)) as [hi [h|]] eqn:E.
  - destruct (proj1 (Hs hi h) eq_refl) as (Hnn & Hlast & Hexit). split.
    + destruct (co_WorkspaceDigest h <>s? _) eqn:Ew; [done|]. destruct (co_BaseSHA h <>s? _) eqn:Eb; [done|].
      destruct (hi <=? last) eqn:Ei; [done|]. bools. intros _. exists (Z.to_nat hi), h. split_and!; [done..|].
      intros r Hr Ht. destruct (Hall r Hr Ht) as (i & Hi & Hle). exists i. split; [done|lia].
    + intros (hi' & h' & Hlast' & (He & Hw & Hb) & Hb4).
      assert ((hi, Some h) = (Z.of_nat hi', Some h')) as [= -> ->] by (apply Hs; split_and!; [lia|by rewrite Nat2Z.id|done]).
      rewrite Hw, Hb, !str_eqb_refl. cbn [negb]. destruct (Hb4 r0 Hr0 Ht0) as (i & Hi & Hlt).
      rewrite (target_met_unique _ _ _ _ _ _ _ Hi Hm0) in Hlt. by rewrite (proj2 (Z.leb_gt _ _) Hlt).
  - split; [by destruct (lastMatching _ _ _ _) as [? []]|]. intros (hi' & h' & Hlast' & (He & _) & _).
    assert ((hi, None) = (Z.of_nat hi', Some h')) as [=] by (apply Hs; split_and!; [lia|by rewrite Nat2Z.id|done]).
Qed.
Lemma derive_gated_spec t digest gate cmds scope reviews snap st reasons :
  valid_task t -> Forall (executed t) cmds -> journaled reviews -> spec_gate t digest reviews gate ->
  st ∈ [StatusSpecified; StatusSpecReviewed] ->
  (derive_gated t cmds scope reviews snap digest (snd <$> gate) st reasons).1 = StatusSecurityReviewed <->
  so_Pass scope = true /\ harness_met t (snd <$> gate) cmds snap /\ implementation_reviewed t digest gate reviews snap.
Proof.
  intros Hv Hx Hj Hg Hst. unfold derive_gated.
  destruct (red_stage t (snd <$> gate) _ st) as [st1 red] eqn:Er.
  assert (st1 ∈ [StatusSpecified; StatusSpecReviewed; StatusFailureReproduced]) as Hst1.
  { unfold red_stage in Er. rewrite !elem_of_cons in *. repeat case_match; simplify_eq; tauto. }
  destruct (target_stage t cmds scope snap _) as [[ok targets] last] eqn:Et.
  pose proof (target_stage_spec t (snd <$> gate) cmds snap Hv Hx scope ok targets last Et) as Htm.
  destruct (ok && (0 <=? last)) eqn:Em.
  - apply proj1 in Htm. specialize (Htm eq_refl).
    pose proof (harness_stage_spec t (snd <$> gate) cmds scope snap last Hv Hx Htm) as Hh.
    assert ((harness_stage t cmds snap last StatusTargetVerified).1 <> StatusSecurityReviewed) as Hne
      by (unfold harness_stage; repeat case_match; done).
    destruct (harness_stage t cmds snap last StatusTargetVerified) as [st2 hs]. cbn [fst] in Hh, Hne.
    pose proof (review_stage_spec t digest reviews Hv Hj gate snap st2 Hg Hne) as Hr.
    destruct (review_stage t digest _ reviews snap st2) as [st3 rs]. cbn [fst] in Hr |- *. rewrite Hr, Hh.
    destruct Htm as (Hp & _). tauto.
  - assert (harness_stage t cmds snap last st1 = (st1, [])) as ->
      by (unfold harness_stage; rewrite !elem_of_cons, elem_of_nil in Hst1; by destruct Hst1 as [->|[->|[->|[]]]]).
    assert (st1 <> StatusSecurityReviewed /\ st1 <> StatusHarnessVerified) as [Hn1 Hn2]
      by (rewrite !elem_of_cons, elem_of_nil in Hst1; destruct Hst1 as [->|[->|[->|[]]]]; done).
    pose proof (review_stage_spec t digest reviews Hv Hj gate snap st1 Hg Hn1) as Hr.
    destruct (review_stage t digest _ reviews snap st1) as [st3 rs]. cbn [fst] in Hr |- *. rewrite Hr.
    split; [by intros [? _]|]. intros (Hp & (hi & h & _ & _ & Hall) & _). exfalso.
    enough (false = true) by done. apply Htm; [done|]. intros r Hr' Ht'. destruct (Hall r Hr' Ht') as (i & ? & _). by exists i.
Qed.

(** The evidence [SECURITY_REVIEWED] stands for. *)
Record security_reviewed (t : Task) (digest : string) (cmds : list CommandRecord) (scope : ScopeResult)
    (reviews : list ReviewArtifact) (snap : Snapshot) : Prop := {
  sr_contract : valid_task t;
  sr_records : Forall (executed t) cmds;
  sr_reviews : Forall (sound_review t digest) reviews;
  sr_attempts : forall r, r ∈ tk_RequiredCommands t -> target_pass r = true -> runs cmds (rq_Name r) <= tk_MaxAttempts t;
  sr_scope : so_Pass scope = true;
  sr_gates : exists gate, spec_gate t digest reviews gate /\ harness_met t (snd <$> gate) cmds snap /\
                          implementation_reviewed t digest gate reviews snap
}.

Hypothesis range_all : forall s, range_keys s ≡ₚ elements s.

Lemma records_error_None t digest cmds reviews : valid_task t -> ContractDigest t = Ok digest ->
  (each_err (record_error t) cmds ;;? each_err (review_error t) reviews) = None <->
  Forall (executed t) cmds /\ Forall (sound_review t digest) reviews.
Proof.
  intros Hv Hd. rewrite err_then_None, !each_err_None, !Forall_forall. setoid_rewrite record_error_None.
  assert (forall r, review_error t r = None <-> sound_review t digest r) as Hr.
  { intros r. rewrite <- (ValidateReviewArtifact_None range_all t digest r Hv Hd). unfold review_error.
    by destruct (ValidateReviewArtifact r t). }
  by setoid_rewrite Hr.
Qed.
Lemma attempts_spec t cmds : valid_task t -> Forall (executed t) cmds ->
  (tk_MaxAttempts t <? countTargetAttempts t cmds) = false <->
  forall r, r ∈ tk_RequiredCommands t -> target_pass r = true -> runs cmds (rq_Name r) <= tk_MaxAttempts t.
Proof.
  intros Hv Hx. pose proof (vt_attempts t Hv). rewrite Z.ltb_ge, countTargetAttempts_le;
    [|eapply Forall_impl; [exact Hx|by intros ? []]|lia].
  setoid_rewrite isTargetPassCmd_elem. naive_solver.
Qed.

(** A task is derived [SECURITY_REVIEWED] exactly when: its contract is valid;
    every record is an executed one with the contract's argv, within the
    attempts; every review is sound; the scope passes; the current spec review,
    where the contract needs one, passed; the harness's last run is green at
    this workspace and base, after the last run of each target, itself green
    and after a failing red run of this spec cycle; and the last implementation
    review of this contract passed at this very snapshot, after the spec
    review. *)
Lemma DeriveStatus_reviewed_iff (t : Task) (cmds : list CommandRecord) (scope : ScopeResult) (reviews : list ReviewArtifact)
    (snap : Snapshot) : journaled reviews ->
  (DeriveStatus t cmds scope reviews snap).1 = StatusSecurityReviewed <->
  exists t' digest, ValidateTask t = (t', None) /\ ContractDigest t' = Ok digest /\
    security_reviewed t' digest cmds scope reviews snap.
Proof.
  intros Hj. unfold DeriveStatus. destruct (ValidateTask t) as [u [err|]] eqn:Ev; [by split; [|intros (? & ? & [=] & _)]|].
  pose proof (proj2 (proj1 (ValidateTask_Some t u) Ev)) as Hv. destruct (ContractDigest u) as [digest|err] eqn:Ed.
  2:{ split; [by destruct (_ ;;? _)|]. intros (t' & d & [= <-] & Hd & _). congruence. }
  assert (Hu : (exists t' d, (u, None : error) = (t', None) /\ ContractDigest t' = Ok d /\ security_reviewed t' d cmds scope reviews snap) <->
               security_reviewed u digest cmds scope reviews snap).
  { split; [intros (t' & d & [= <-] & Hd & Hs); congruence|]. intros Hs. by exists u, digest. }
  rewrite Hu. pose proof (records_error_None u digest cmds reviews Hv Ed) as Hre. destruct (_ ;;? _) as [reason|].
  { split; [done|]. intros [_ Hx Hr _ _ _]. by rewrite (proj2 Hre (conj Hx Hr)) || by (pose proof (proj2 Hre (conj Hx Hr))). }
  destruct (proj1 Hre eq_refl) as [Hx Hr]. pose proof (attempts_spec u cmds Hv Hx) as Ha.
  destruct (_ <? _); [split; [done|]; intros [_ _ _ Hat _ _]; by apply Ha in Hat|]. apply proj1 in Ha. specialize (Ha eq_refl).
  rewrite (specRegime_sensitive u Hv). pose proof (currentSpecPass_spec u digest reviews) as Hc.
  assert (Hsr : forall gate st reasons, spec_gate u digest reviews gate -> st ∈ [StatusSpecified; StatusSpecReviewed] ->
            (forall gate', spec_gate u digest reviews gate' -> gate' = gate) ->
            (derive_gated u cmds scope reviews snap digest (snd <$> gate) st reasons).1 = StatusSecurityReviewed <->
            security_reviewed u digest cmds scope reviews snap).
  { intros gate st reasons Hg Hst Huniq. rewrite derive_gated_spec by done. split.
    - intros (Hp & Hh & Hi). by constructor; [..|exists gate].
    - intros [_ _ _ _ Hp (gate' & Hg' & Hh & Hi)]. by rewrite (Huniq gate' Hg') in Hh, Hi. }
  destruct (tk_SecuritySensitive u) eqn:Es.
  - destruct (currentSpecPass reviews digest (tk_SpecRevision u)) as [pass|].
    + destruct (proj1 (Hc pass) eq_refl) as [[g Hg] Hp]. apply (Hsr (Some (g, pass))); [done|set_solver|].
      intros [[g' pass']|] Hg'; cbn in Hg'; [|congruence]. destruct Hg' as (_ & Hg' & _).
      pose proof (last_such_index _ _ _ _ _ _ Hg Hg') as <-. destruct Hg as [Hg _], Hg' as [Hg' _]. congruence.
    + split; [done|]. intros [_ _ _ _ _ ([[g pass]|] & Hg & _)]; cbn in Hg; [|congruence].
      destruct Hg as (_ & Hg & Hp). by pose proof (proj2 (Hc pass) (conj (ex_intro _ g Hg) Hp)).
  - apply (Hsr None); [done|set_solver|]. intros [[g' pass']|] Hg'; cbn in Hg'; [|done]. destruct Hg'. congruence.
Qed.
End status.
