(* ===== verification/WorkflowRepo.v ===== *)
(** The repository side of the workflow: [internal/workflow/workflow.go].

    What git prints, what the file system holds and what running a command
    yields are arguments. *)
From stdpp Require Import base strings gmap list sorting.
From Stdlib Require Import ZArith Lia Ascii.
From S2P Require Import Prelude GoStrings GoLib GoPath Workflow.
From S2P Require KillSwitch Ownership.
#[local] Open Scope Z_scope.

(** ** The world *)

(** A call of package os: an error for which [os.IsNotExist] holds is told
    apart. *)
Inductive os_result (A : Type) := OsOk (a : A) | OsNotExist (msg : string) | OsErr (msg : string).
Arguments OsOk {A} a.
Arguments OsNotExist {A} msg.
Arguments OsErr {A} msg.

Record FileInfo := {
  fi_symlink : bool;
  fi_dir : bool;
  fi_regular : bool;
  fi_perm : Z;
  fi_mode : string;
  fi_size : Z
}.
(** A process: its output, or why it failed and its error output. *)
Inductive Process := Ran (stdout : string) | Failed (err stderr : string).
Record Repo := {
  re_git : list string -> Process;
  re_Lstat : string -> os_result FileInfo;
  re_Readlink : string -> string;
  re_contents : string -> result string;
  re_EvalSymlinks : string -> result string;
  re_ReadFile : string -> os_result string;
  (** names, and whether they are directories, by name *)
  re_ReadDir : string -> os_result (list (string * bool))
}.

(** What follows the first JSON value of a file. *)
Inductive Tail := TailEOF | TailValue | TailErr (msg : string).
Class RepoJSON := {
  (** unknown fields are refused *)
  decode_task : string -> result (Task * Tail);
  decode_review : string -> result (ReviewArtifact * Tail);
  decode_record : string -> result CommandRecord;
  marshal_record : CommandRecord -> string;
  marshal_report : Report -> result string;
  (** the tokens of a text, up to the end or an error, and what that is *)
  review_tokens : string -> list KillSwitch.Token * string
}.

Definition crlf (c : ascii) : bool := Ascii.eqb c CR || Ascii.eqb c LF.
Definition sort_Strings (l : list string) : list string := merge_sort String.le l.
Definition uniq (ss : list string) : list string := sort_Strings (remove_dups ss).
(** The non-empty parts between NUL bytes. *)
Definition nul_paths (s : string) : list string := List.filter (fun p => p <>s? "") (split_on NUL s).

Definition skipLocalState (p : string) : bool :=
  (p =s? "evidence/workflow") || HasPrefix p "evidence/workflow/" || (p =s? "evidence/harness") || HasPrefix p "evidence/harness/".

Definition DefaultApprovalGated : list string :=
  ["*_test.go"; "harness/invariants.md"; "go.mod"; "go.sum"; "README.md"; "SECURITY.md"; ".github/workflows/*"; ".goreleaser.yaml"; ".goreleaser.yml"].
Definition EvidenceDir (root taskID : string) : string := FJoin [root; "evidence"; "workflow"; taskID].
Definition commandsPath (root taskID : string) : string := FJoin [EvidenceDir root taskID; "commands.jsonl"].

Definition git (r : Repo) (args : list string) : result string :=
  match re_git r args with
  | Failed err stderr => Err ("git " +:+ Join " " args +:+ ": " +:+ err +:+ " (" +:+ TrimSpace stderr +:+ ")")
  | Ran stdout => Ok (TrimRightFn crlf stdout)
  end.
Definition ResolveBase (r : Repo) (base : string) : result string :=
  if negb (blank base) then git r ["rev-parse"; base]
  else let none := Err "cannot resolve default base: origin/main is unavailable; pass -base explicitly" in
  match git r ["merge-base"; "HEAD"; "origin/main"] with
  | Ok out => if out <>s? "" then Ok out else none
  | Err _ => none
  end.

(** ** The digest of the workspace *)

Section digest.
Context `{GoUnicode, GoFmt, GoCrypto, TaskJSON}.

Definition hashFile (r : Repo) (path : string) : result string :=
  let? data := re_contents r path in Ok (sha256_hex data).

Definition uvarint_len {A} (len : A -> nat) (a : A) : string := Ownership.PutUvarint (N.of_nat (len a)).
Definition writeRecord (fields : list string) : string :=
  uvarint_len length fields +:+ foldr (fun field s => uvarint_len String.length field +:+ field +:+ s) "" fields.

(** [%04o] of permission bits. *)
Definition octal_digit (z : Z) : string := String (ascii_of_nat (48 + Z.to_nat (z mod 8))) "".
Definition fmt_04o (z : Z) : string := octal_digit (z / 512) +:+ octal_digit (z / 64) +:+ octal_digit (z / 8) +:+ octal_digit z.

(** What is hashed for a path. *)
Definition path_record (r : Repo) (root p : string) : result (list string) :=
  let full := FJoin [root; p] in
  match re_Lstat r full with
  | OsNotExist _ | OsErr _ => Ok ["D"; p]
  | OsOk fi =>
      if fi_symlink fi then Ok ["L"; p; re_Readlink r full]
      else
        let embedded := if fi_dir fi then match re_Lstat r (FJoin [full; ".git"]) with
                          | OsOk _ => Some ("embedded repository is not supported: " +:+ p)
                          | OsErr err => Some ("inspect embedded repository marker " +:+ p +:+ ": " +:+ err)
                          | OsNotExist _ => None
                          end else None in
        match embedded with
        | Some err => Err err
        | None =>
            if negb (fi_regular fi) then Ok ["X"; p; fi_mode fi]
            else let? sum := hashFile r full in Ok ["F"; p; fmt_04o (fi_perm fi); sum; Itoa (fi_size fi)]
        end
  end.
Fixpoint path_records (r : Repo) (root : string) (paths : list string) : result (list (list string)) :=
  match paths with
  | [] => Ok []
  | p :: paths =>
      match path_record r root p with
      | Err err => Err err
      | Ok rec => let? rest := path_records r root paths in Ok (rec :: rest)
      end
  end.
(** The paths git lists, those of the evidence left out. *)
Definition bound_paths (s : string) : list string := List.filter (fun p => negb (skipLocalState p)) (nul_paths s).
Definition workspace_paths (r : Repo) : result (list string) :=
  let? tracked := git r ["ls-files"; "-c"; "-z"] in
  let? others := git r ["ls-files"; "-o"; "--exclude-standard"; "-z"] in
  let? ignored := git r ["ls-files"; "-o"; "-i"; "--exclude-standard"; "-z"] in
  let dirs := match git r ["ls-files"; "-o"; "--exclude-standard"; "--directory"; "-z"] with Ok s => bound_paths s | Err _ => [] end in
  let? deleted := git r ["diff"; "--name-only"; "--diff-filter=D"; "-z"; "HEAD"] in
  Ok (uniq (bound_paths tracked ++ bound_paths others ++ bound_paths ignored ++ dirs ++ bound_paths deleted)).
(** The records hashed for the workspace. *)
Definition workspace_records (r : Repo) (root : string) : result (list (list string)) :=
  let? head := git r ["rev-parse"; "HEAD"] in
  let? list := workspace_paths r in
  let? records := path_records r root list in
  Ok (["head"; head] :: records).
Definition WorkspaceDigest (r : Repo) (root : string) : result string :=
  let? records := workspace_records r root in
  Ok (sha256_hex (foldr (fun fields s => writeRecord fields +:+ s) "" records)).

Definition snapshot_text (workspace contractDigest : string) : string :=
  "workspace:" +:+ workspace +:+ String LF ("task:" +:+ contractDigest +:+ String LF "").
Definition CurrentSnapshot (r : Repo) (root base : string) (t : option Task) : result Snapshot :=
  match t with
  | None => Err "task required for snapshot"
  | Some t =>
      let? baseSHA := ResolveBase r base in
      let? head := git r ["rev-parse"; "HEAD"] in
      let? workspace := WorkspaceDigest r root in
      let? contractDigest := ContractDigest t in
      Ok {| sn_BaseSHA := baseSHA; sn_HeadSHA := head; sn_WorkspaceDigest := sha256_hex (snapshot_text workspace contractDigest) |}
  end.
End digest.

(** ** The scope of the changes *)

Definition CutSuffix (s suf : string) : option string :=
  let t := TrimSuffix s suf in if t +:+ suf =s? s then Some t else None.
Definition pathAllowed (p : string) (allowed : list string) : bool :=
  existsb (fun a => let a := TrimSuffix (TrimSpace a) "/" in (a <>s? "") && ((p =s? a) || HasPrefix p (a +:+ "/"))) allowed.
Definition gates `{GoPatterns} (p pat : string) : bool :=
  if pat =s? "" then false
  else match CutSuffix pat "/*" with
  | Some pre => (p =s? pre) || HasPrefix p (pre +:+ "/")
  | None =>
      if Contains pat "*" then matched (filepath_Match pat (Base p)) || matched (filepath_Match pat p)
      else (p =s? pat) || (Base p =s? pat)
  end.
Definition pathGated `{GoPatterns} (p : string) (patterns : list string) : bool :=
  existsb (fun pat => gates p (TrimSpace pat)) patterns.

(** The paths of [git diff --name-status -z], split at its NUL bytes. *)
Definition renames (status : string) : bool := HasPrefix status "R" || HasPrefix status "C".
Fixpoint name_status (parts : list string) : result (list string) :=
  match parts with
  | [] => Ok []
  | status :: parts =>
      if status =s? "" then name_status parts
      else match parts with
      | [] => Err "malformed git --name-status -z output"
      | p :: parts =>
          if p =s? "" then Err "malformed git --name-status -z output"
          else if renames status then
            match parts with
            | [] => Err "malformed git rename/copy output"
            | q :: parts =>
                if q =s? "" then Err "malformed git rename/copy output"
                else let? rest := name_status parts in Ok (p :: q :: rest)
            end
          else let? rest := name_status parts in Ok (p :: rest)
      end
  end.

(** [filepath.Rel] *)
Fixpoint strip_common (base targ : list string) : list string * list string :=
  match base, targ with
  | b :: base', t :: targ' => if b =s? t then strip_common base' targ' else (base, targ)
  | _, _ => (base, targ)
  end.
Definition elements_of (p : string) : list string := List.filter (fun e => e <>s? "") (split_on "/" p).
Definition FRel (basepath targpath : string) : result string :=
  let base := Clean basepath in
  let targ := Clean targpath in
  let fail := Err ("Rel: can't make " +:+ targpath +:+ " relative to " +:+ basepath) in
  if targ =s? base then Ok "."
  else
    let base := if base =s? "." then "" else base in
    if negb (Bool.eqb (IsAbs base) (IsAbs targ)) then fail
    else let '(bs, ts) := strip_common (elements_of base) (elements_of targ) in
    match bs with
    | b :: _ => if b =s? ".." then fail else Ok (Join "/" (map (fun _ => "..") bs ++ ts))
    | [] => Ok (Join "/" ts)
    end.
(** What a changed path that is a link adds to what is out of scope. *)
Definition link_escape (r : Repo) (root p : string) : list string :=
  let full := FJoin [root; p] in
  match re_Lstat r full with
  | OsOk fi =>
      if fi_symlink fi then
        match re_EvalSymlinks r full with
        | Err _ => [p +:+ "->SYMLINK_UNRESOLVED"]
        | Ok target =>
            match FRel root target with
            | Err _ => [p +:+ "->SYMLINK_ESCAPE"]
            | Ok rel => note ((rel =s? "..") || HasPrefix rel "../") (p +:+ "->SYMLINK_ESCAPE")
            end
        end
      else []
  | _ => []
  end.

Section scope.
Context `{GoUnicode, GoPatterns, GoMapOrder}.

Definition out_of_scope (r : Repo) (root : string) (t : Task) (p : string) : list string :=
  note (negb (pathAllowed p (tk_AllowedPaths t))) p ++ link_escape r root p.
Definition CheckScope (r : Repo) (root : string) (t : Task) (base : string) : result ScopeResult :=
  let? baseSHA := ResolveBase r base in
  let? diff := git r ["diff"; "--name-status"; "-z"; baseSHA] in
  let? named := name_status (split_on NUL diff) in
  let? others := git r ["ls-files"; "-o"; "--exclude-standard"; "-z"] in
  let? ignored := git r ["ls-files"; "-o"; "-i"; "--exclude-standard"; "-z"] in
  let? dirtyDiff := git r ["diff"; "--name-only"; "-z"; "HEAD"] in
  let? dirtyOthers := git r ["ls-files"; "-o"; "--exclude-standard"; "-z"] in
  let changed := list_to_set (named ++ nul_paths others ++ nul_paths ignored) in
  let dirty := range_keys (list_to_set (nul_paths dirtyDiff ++ nul_paths dirtyOthers)) in
  let list := List.filter (fun p => negb (skipLocalState p)) (range_keys changed) in
  let oos := flat_map (out_of_scope r root t) list in
  let gated := List.filter (fun p => pathGated p (tk_ApprovalGatedPaths t)) list in
  Ok {| so_Base := baseSHA; so_Changed := sort_Strings list; so_OutOfScope := uniq oos; so_ApprovalGated := uniq gated;
        so_Pass := empty oos; so_Dirty := uniq dirty |}.
End scope.

(** ** The files of the evidence *)

Section evidence.
Context `{GoUnicode, GoFmt, GoCrypto, TaskJSON, GoMapOrder, RepoJSON}.

Definition set_gated (t : Task) (gated : list string) : Task := {|
  tk_TaskID := tk_TaskID t; tk_InvariantIDs := tk_InvariantIDs t; tk_SecuritySensitive := tk_SecuritySensitive t;
  tk_SecurityProblem := tk_SecurityProblem t; tk_RequiredBehavior := tk_RequiredBehavior t; tk_FailureBehavior := tk_FailureBehavior t;
  tk_AllowedPaths := tk_AllowedPaths t; tk_ApprovalGatedPaths := gated; tk_MaxAttempts := tk_MaxAttempts t;
  tk_RequiredCommands := tk_RequiredCommands t; tk_SpecRevision := tk_SpecRevision t; tk_NonGoals := tk_NonGoals t;
  tk_AttackClasses := tk_AttackClasses t |}.
Definition LoadTask (r : Repo) (path : string) : result Task :=
  match re_ReadFile r path with
  | OsNotExist err | OsErr err => Err err
  | OsOk b =>
      match decode_task b with
      | Err err => Err ("parse task: " +:+ err)
      | Ok (_, TailValue) => Err "parse task: trailing JSON value"
      | Ok (_, TailErr err) => Err ("parse task trailing data: " +:+ err)
      | Ok (t, TailEOF) =>
          match ValidateTask t with
          | (_, Some err) => Err err
          | (t, None) => Ok (set_gated t (uniq (DefaultApprovalGated ++ tk_ApprovalGatedPaths t)))
          end
      end
  end.

Definition with_source (c : CommandRecord) (source : string) : CommandRecord := {|
  co_Name := co_Name c; co_Args := co_Args c; co_Exit := co_Exit c; co_Source := source; co_BaseSHA := co_BaseSHA c;
  co_HeadSHA := co_HeadSHA c; co_WorkspaceDigest := co_WorkspaceDigest c; co_LogPath := co_LogPath c;
  co_RecordedUTC := co_RecordedUTC c; co_SpecSequence := co_SpecSequence c |}.
Fixpoint parse_records (lines : list string) : result (list CommandRecord) :=
  match lines with
  | [] => Ok []
  | line :: lines =>
      let line := TrimSpace line in
      if line =s? "" then parse_records lines
      else match decode_record line with
      | Err err => Err err
      | Ok c =>
          let c := if co_Source c <>s? "executed" then with_source c "invalid" else c in
          let? rest := parse_records lines in Ok (c :: rest)
      end
  end.
Definition LoadCommands (r : Repo) (root taskID : string) : result (list CommandRecord) :=
  match re_ReadFile r (commandsPath root taskID) with
  | OsNotExist _ => Ok []
  | OsErr err => Err err
  | OsOk b => parse_records (split_on LF b)
  end.

(** [rejectDuplicateJSONKeysDec]: the tokens after the value, [err] being what
    the decoder answers at the end; [members] is the loop over what a delimiter
    opens. *)
Fixpoint rejectDuplicateJSONKeysDec (err : string) (fuel : nat) (ts : list KillSwitch.Token) : result (list KillSwitch.Token) :=
  match fuel, ts with
  | O, _ => Err "fuel"
  | S fuel, [] => Err err
  | S fuel, KillSwitch.TDelim d :: ts =>
      if Ascii.eqb d "{" || Ascii.eqb d "[" then members err fuel d [] ts
      else Err ("unexpected JSON delimiter " +:+ String d "")
  | S fuel, _ :: ts => Ok ts
  end
with members (err : string) (fuel : nat) (d : ascii) (seen : list string) (ts : list KillSwitch.Token)
    : result (list KillSwitch.Token) :=
  match fuel with
  | O => Err "fuel"
  | S fuel =>
      if KillSwitch.more ts then
        if Ascii.eqb d "{" then
          match ts with
          | [] => Err err
          | KillSwitch.TString key :: ts =>
              if str_in key seen then Err ("duplicate JSON key " +:+ fmt_q key)
              else match rejectDuplicateJSONKeysDec err fuel ts with
              | Err e => Err e
              | Ok ts => members err fuel d (key :: seen) ts
              end
          (* the decoder yields no other token here *)
          | _ :: _ => Err "expected JSON object key, got"
          end
        else match rejectDuplicateJSONKeysDec err fuel ts with Err e => Err e | Ok ts => members err fuel d seen ts end
      else match ts with [] => Err err | _ :: ts => Ok ts end
  end.
Definition rejectDuplicateJSONKeys (data : string) : error :=
  let '(ts, err) := review_tokens data in
  match rejectDuplicateJSONKeysDec err (KillSwitch.dup_fuel ts) ts with Ok _ => None | Err e => Some e end.

(** [strconv.Atoi] *)
Definition Atoi (s : string) : option Z :=
  let '(sign, digits) := match s with
                         | String c rest => if Ascii.eqb c "-" then (-1, rest) else if Ascii.eqb c "+" then (1, rest) else (1, s)
                         | "" => (1, s) end in
  if digits =s? "" then None
  else match parse_digits 0 digits with
  | Some n => if int64_ok (sign * n) then Some (sign * n) else None
  | None => None
  end.

Definition set_sequence (r : ReviewArtifact) (n : Z) : ReviewArtifact := {|
  rw_Passed := rw_Passed r; rw_Phase := rw_Phase r; rw_Findings := rw_Findings r; rw_FailureClasses := rw_FailureClasses r;
  rw_SpecRevision := rw_SpecRevision r; rw_ContractDigest := rw_ContractDigest r; rw_CoveredAttackClasses := rw_CoveredAttackClasses r;
  rw_Counterexamples := rw_Counterexamples r; rw_Reviewer := rw_Reviewer r; rw_Notes := rw_Notes r; rw_HeadSHA := rw_HeadSHA r;
  rw_WorkspaceDigest := rw_WorkspaceDigest r; rw_BaseSHA := rw_BaseSHA r; rw_Sequence := n; rw_RecordedUTC := rw_RecordedUTC r |}.

(** The number in a journal file's name. *)
Definition journal_number (e : string * bool) : result (Z * string) :=
  let '(name, isDir) := e in
  let misnamed := Err ("invalid review evidence: file " +:+ fmt_q name +:+ " must be named <positive-int>.json") in
  if isDir : bool then Err ("invalid review evidence: unexpected directory " +:+ fmt_q name)
  else match CutSuffix name ".json" with
  | None => misnamed
  | Some stem =>
      if stem =s? "" then misnamed
      else match Atoi stem with
      | Some n => if n <? 1 then misnamed else Ok (n, name)
      | None => misnamed
      end
  end.
Fixpoint journal_files (entries : list (string * bool)) : result (list (Z * string)) :=
  match entries with
  | [] => Ok []
  | e :: entries => match journal_number e with
                    | Err err => Err err
                    | Ok f => let? rest := journal_files entries in Ok (f :: rest)
                    end
  end.
Definition by_number (a b : Z * string) : Prop := a.1 <= b.1.
#[local] Instance by_number_dec a b : Decision (by_number a b) := Z.le_dec a.1 b.1.
(** The files must be numbered from [i] on without gap. *)
Fixpoint contiguous (i : Z) (files : list (Z * string)) : error :=
  match files with
  | [] => None
  | (n, _) :: files =>
      if negb (n =? i) then
        Some ("invalid review evidence: expected sequence " +:+ Itoa i +:+ " but found " +:+ Itoa n +:+ " (gap or duplicate)")
      else contiguous (i + 1) files
  end.
Definition load_review (r : Repo) (dir : string) (t : Task) (f : Z * string) : result ReviewArtifact :=
  let '(n, name) := f in
  let path := FJoin [dir; name] in
  let invalid (err : string) := Err ("invalid review evidence " +:+ Base path +:+ ": " +:+ err) in
  match re_ReadFile r path with
  | OsNotExist err | OsErr err => Err err
  | OsOk b =>
      match rejectDuplicateJSONKeys b with
      | Some err => invalid err
      | None =>
          match decode_review b with
          | Err err => invalid err
          | Ok (_, TailValue) => invalid "trailing JSON value"
          | Ok (_, TailErr err) => invalid err
          | Ok (rw, TailEOF) =>
              if negb (rw_Sequence rw =? 0) && negb (rw_Sequence rw =? n) then
                invalid ("sequence field " +:+ Itoa (rw_Sequence rw) +:+ " does not match filename " +:+ Itoa n)
              else
                let rw := set_sequence rw n in
                match ValidateReviewArtifact rw t with Some err => invalid err | None => Ok rw end
          end
      end
  end.
Fixpoint load_reviews (r : Repo) (dir : string) (t : Task) (files : list (Z * string)) : result (list ReviewArtifact) :=
  match files with
  | [] => Ok []
  | f :: files => match load_review r dir t f with
                  | Err err => Err err
                  | Ok rw => let? rest := load_reviews r dir t files in Ok (rw :: rest)
                  end
  end.
Definition LoadReviewSequence (r : Repo) (root : string) (t : Task) : result (list ReviewArtifact) :=
  let dir := FJoin [EvidenceDir root (tk_TaskID t); "reviews"] in
  match re_ReadDir r dir with
  | OsNotExist _ => Ok []
  | OsErr err => Err err
  | OsOk entries =>
      let? files := journal_files entries in
      let files := merge_sort by_number files in
      match contiguous 1 files with
      | Some err => Err err
      | None => load_reviews r dir t files
      end
  end.
End evidence.

(** ** Running a command *)

(** How the process ended. *)
Inductive Run := Exited (code : Z) | RunErr (err : string).
(** A write of the record that fails leaves some of its bytes. *)
Inductive Write := Wrote | WriteErr (n : nat) (err : string).
Record RunIO := {
  io_MkdirAll : error;
  io_stamp : string;
  io_CreateTemp : string -> result string;
  io_Run : list string -> Run;
  io_now : Z;
  io_OpenFile : error;
  io_Write : Write
}.
Fixpoint keep_bytes (p : ascii -> bool) (s : string) : string :=
  match s with "" => "" | String c s => if p c then String c (keep_bytes p s) else keep_bytes p s end.
Definition sanitize (s : string) : string :=
  let b := keep_bytes (fun c => is_alnum c || byte_in "-_" c) s in if b =s? "" then "cmd" else b.
Definition no_record : CommandRecord := {|
  co_Name := ""; co_Args := []; co_Exit := 0; co_Source := ""; co_BaseSHA := ""; co_HeadSHA := ""; co_WorkspaceDigest := "";
  co_LogPath := ""; co_RecordedUTC := 0; co_SpecSequence := 0 |}.

Section run.
Context `{GoUnicode, GoFmt, GoCrypto, TaskJSON, GoMapOrder, RepoJSON}.

(** The sequence of the current spec review, when the task needs one. *)
Definition current_spec_sequence (r : Repo) (root : string) (t : Task) : result Z :=
  if specRegime t then
    match LoadReviewSequence r root t with
    | Err err => Err ("review evidence: " +:+ err)
    | Ok reviews =>
        let? digest := ContractDigest t in
        match currentSpecPass reviews digest (tk_SpecRevision t) with
        | None => Err ("spec_review_required: current passing spec review for contract digest + spec_revision required before task commands")
        | Some pass => Ok (rw_Sequence pass)
        end
    end
  else Ok 0.
(** What is appended to the journal, which holds [file] by then. *)
Definition append_record (io : RunIO) (rec : CommandRecord) (file : string) : CommandRecord * error * string :=
  match io_OpenFile io with
  | Some err => (rec, Some err, file)
  | None =>
      let line := marshal_record rec +:+ String LF "" in
      match io_Write io with
      | Wrote => (rec, None, file +:+ line)
      | WriteErr n err => (rec, Some err, file +:+ String.substring 0 n line)
      end
  end.
Definition RunNamedCommand (r : Repo) (root : string) (t : Task) (name base : string) (io : RunIO) (file : string)
    : CommandRecord * error * string :=
  let failed err := (no_record, Some err, file) in
  match LookupCommand t name with
  | None => failed ("unknown command name " +:+ fmt_q name +:+ " (must be defined in task required_commands)")
  | Some req =>
      match CurrentSnapshot r root base (Some t) with
      | Err err => failed err
      | Ok snap =>
          match current_spec_sequence r root t with
          | Err err => failed err
          | Ok specSeq =>
              match io_MkdirAll io with
              | Some err => failed err
              | None =>
                  match io_CreateTemp io (io_stamp io +:+ "-" +:+ sanitize name +:+ "-*.log") with
                  | Err err => failed err
                  | Ok logPath =>
                      match rq_Argv req with
                      | [] => failed "panic: index out of range"
                      | args =>
                          match io_Run io args with
                          | RunErr err => failed err
                          | Exited exit =>
                              append_record io {|
                                co_Name := name; co_Args := args; co_Exit := exit; co_Source := "executed";
                                co_BaseSHA := sn_BaseSHA snap; co_HeadSHA := sn_HeadSHA snap;
                                co_WorkspaceDigest := sn_WorkspaceDigest snap; co_LogPath := logPath;
                                co_RecordedUTC := io_now io; co_SpecSequence := specSeq |} file
                          end
                      end
                  end
              end
          end
      end
  end.
End run.

(** ** The report *)

Definition report_notes : list string := [
  "local evidence/workflow is editable and not tamper-proof";
  "CI-generated evidence is the planned stronger merge gate";
  "model prose cannot override command results";
  "Mayur merge/release approval is outside this tool";
  "command argv is bound by the task contract";
  "GREEN/harness/review evidence is bound to base SHA and workspace digest";
  "Repository artifacts must be under evidence/workflow/ or evidence/harness/";
  "max_attempts is counted per pass-target name";
  "security tasks require a current passing spec review (contract digest + spec_revision) before RED/commands";
  "review journal lives under evidence/workflow/<task>/reviews/ with contiguous <n>.json files";
  "RED freshness binds to the current spec review journal sequence, not clocks or file mtime";
  "SECURITY_REVIEWED requires an implementation review journaled after the current spec pass"].

Section report.
Context `{GoUnicode, GoFmt, GoCrypto, GoPatterns, TaskJSON, GoMapOrder, RepoJSON}.

Definition blocked_report (t : Task) (snap : Snapshot) (scope : ScopeResult) (cmds : list CommandRecord) (err : string) (now : Z) : Report := {|
  rp_TaskID := tk_TaskID t; rp_InvariantIDs := tk_InvariantIDs t; rp_BaseSHA := sn_BaseSHA snap; rp_HeadSHA := sn_HeadSHA snap;
  rp_WorkspaceDigest := sn_WorkspaceDigest snap; rp_WorktreeDirty := negb (empty (so_Dirty scope)); rp_DerivedStatus := StatusBlocked;
  rp_Reasons := ["invalid_review_evidence: " +:+ err]; rp_Scope := scope; rp_Commands := cmds; rp_Review := None; rp_SpecPass := false;
  rp_ContractDigest := ""; rp_EvidenceEditable := true;
  rp_Notes := ["review journal is malformed/duplicated/gapped; status blocked"]; rp_GeneratedUTC := now |}.
Definition BuildReport (r : Repo) (root : string) (t : Task) (base : string) (now : Z) : result Report :=
  let? snap := CurrentSnapshot r root base (Some t) in
  let? scope := CheckScope r root t (sn_BaseSHA snap) in
  let? cmds := LoadCommands r root (tk_TaskID t) in
  match LoadReviewSequence r root t with
  | Err err => Ok (blocked_report t snap scope cmds err now)
  | Ok reviews =>
      let digest := ContractDigest t in
      let digest_text := match digest with Ok d => d | Err _ => "" end in
      let review := latestJournalReview reviews t digest_text in
      let '(st, reasons) := DeriveStatus t cmds scope reviews snap in
      (* [DeriveStatus] has normalized the task *)
      let t := (ValidateTask t).1 in
      let specPass := specRegime t && match digest with Ok d => true | Err _ => false end &&
                      match currentSpecPass reviews digest_text (tk_SpecRevision t) with Some _ => true | None => false end in
      Ok {| rp_TaskID := tk_TaskID t; rp_InvariantIDs := tk_InvariantIDs t; rp_BaseSHA := sn_BaseSHA snap;
            rp_HeadSHA := sn_HeadSHA snap; rp_WorkspaceDigest := sn_WorkspaceDigest snap;
            rp_WorktreeDirty := negb (empty (so_Dirty scope)); rp_DerivedStatus := st; rp_Reasons := reasons; rp_Scope := scope;
            rp_Commands := cmds; rp_Review := review; rp_SpecPass := specPass; rp_ContractDigest := digest_text;
            rp_EvidenceEditable := true; rp_Notes := report_notes; rp_GeneratedUTC := now |}
  end.

(** What the calls of [WriteReportJSON] answer; a failed write leaves a part of
    the bytes in the temporary file. *)
Record ReportIO := {
  ro_MkdirAll : error;
  ro_CreateTemp : result string;
  ro_Write : Write;
  ro_Sync : error;
  ro_Close : error;
  ro_Rename : error;
  ro_Remove : bool
}.
Definition WriteReportJSON (path : string) (rep : Report) (io : ReportIO) (files : gmap string string) : gmap string string * error :=
  match ro_MkdirAll io with
  | Some err => (files, Some err)
  | None =>
      match marshal_report rep with
      | Err err => (files, Some err)
      | Ok b =>
          match ro_CreateTemp io with
          | Err err => (files, Some err)
          | Ok tmp =>
              let b := b +:+ String LF "" in
              let cleanup (err content : string) :=
                (if ro_Remove io then delete tmp files else <[tmp := content]> files, Some err) in
              match ro_Write io with
              | WriteErr n err => cleanup err (String.substring 0 n b)
              | Wrote =>
                  match ro_Sync io, ro_Close io, ro_Rename io with
                  | Some err, _, _ | None, Some err, _ | None, None, Some err => cleanup err b
                  | None, None, None => (<[path := b]> (delete tmp files), None)
                  end
              end
          end
      end
  end.
End report.

(** ** Where artifacts may be *)

(** Paths are lists of components from the root on. *)
Record Paths := {
  pa_Getwd : result (list string);
  pa_EvalSymlinks : list string -> os_result (list string);
  pa_is_link : list string -> bool
}.
Definition FAbs (h : Paths) (p : string) : result (list string) :=
  if IsAbs p then Ok (clean_comps true [] (split_on "/" p))
  else let? wd := pa_Getwd h in Ok (clean_comps true [] (wd ++ split_on "/" p)).
(** The loop of [resolveWithMissingLeaf]: the path still to resolve, last
    component first, and the components taken off. *)
Fixpoint resolve_leaf (h : Paths) (current missing : list string) : result (list string) :=
  match pa_EvalSymlinks h (rev current) with
  | OsOk resolved => Ok (resolved ++ missing)
  | OsErr err => Err err
  | OsNotExist err =>
      if pa_is_link h (rev current) then Err err
      else match current with [] => Err err | base :: parent => resolve_leaf h parent (base :: missing) end
  end.
Definition resolveWithMissingLeaf (h : Paths) (path : list string) : result (list string) := resolve_leaf h (rev path) [].
Definition rel_text (rel : nat * list string) : string :=
  match rel with (O, []) => "." | (n, rest) => Join "/" (repeat ".." n ++ rest) end.
Definition wrap_err {A} (what : string) (m : result A) : result A :=
  match m with Ok a => Ok a | Err err => Err (what +:+ ": " +:+ err) end.
Definition real_path (h : Paths) (root path kind : string) : result (nat * list string) :=
  let? rootAbs := wrap_err "resolve repository root" (FAbs h root) in
  let? rootReal := wrap_err "resolve repository root symlinks"
    match pa_EvalSymlinks h rootAbs with OsOk p => Ok p | OsNotExist err | OsErr err => Err err end in
  let? pathAbs := wrap_err ("resolve " +:+ kind +:+ " path") (FAbs h path) in
  let? pathReal := wrap_err ("resolve " +:+ kind +:+ " path symlinks") (resolveWithMissingLeaf h pathAbs) in
  Ok (Rel rootReal pathReal).
Definition ValidateArtifactPath (h : Paths) (root path kind : string) : error :=
  if blank path then Some (kind +:+ " artifact path required")
  else match real_path h root path kind with
  | Err err => Some err
  | Ok rel =>
      let rel := rel_text rel in
      let inside := (rel <>s? "..") && negb (HasPrefix rel "../") && negb (IsAbs rel) in
      fail_if (inside && negb (skipLocalState rel))
        (kind +:+ " artifact inside repository must be stored under evidence/workflow/, evidence/harness/, or outside the repository")
  end.
