(* ===== verification/WorkflowRepoSpec.v ===== *)
(** What the workflow's report rests on: the files of the evidence, the digest
    of the workspace, the scope, and the recording of a run. *)
From stdpp Require Import base strings gmap list sorting.
From Stdlib Require Import ZArith Lia Ascii.
From S2P Require Import Prelude GoStrings GoLib GoPath Framing Workflow WorkflowSpec WorkflowRepo.
From S2P Require KillSwitch KillSwitchSpec Ownership.
#[local] Open Scope Z_scope.

Lemma result_bind_Ok {A B} (m : result A) (k : A -> result B) b : result_bind m k = Ok b <-> exists a, m = Ok a /\ k a = Ok b.
Proof. destruct m; cbn; naive_solver. Qed.

(** ** The journals *)

Section journals.
Context `{GoUnicode, GoFmt, GoCrypto, TaskJSON, GoMapOrder, RepoJSON}.

Lemma contiguous_None i files : contiguous i files = None <-> forall k f, files !! k = Some f -> f.1 = i + Z.of_nat k.
Proof.
  revert i. induction files as [|[n p] files IH]; intros i; cbn [contiguous]; [by split|].
  destruct (n =? i) eqn:E; bools; cbn [negb].
  - rewrite IH. split.
    + intros Hf [|k] f Hk; [injection Hk as <-; cbn; lia|]. rewrite (Hf k f Hk). lia.
    + intros Hf k f Hk. rewrite (Hf (S k) f Hk). lia.
  - split; [done|]. intros Hf. pose proof (Hf 0%nat (n, p) eq_refl). cbn in *. lia.
Qed.
Lemma load_review_sequence r dir t f rw : load_review r dir t f = Ok rw -> rw_Sequence rw = f.1 /\ ValidateReviewArtifact rw t = None.
Proof.
  unfold load_review. destruct f as [n name]. destruct (re_ReadFile _ _); try done. destruct (rejectDuplicateJSONKeys _); [done|].
  destruct (decode_review _) as [[rw' []]|]; try done. destruct (_ && _); [done|].
  destruct (ValidateReviewArtifact _ _) eqn:E; [done|]. intros [= <-]. done.
Qed.
Lemma load_reviews_sequence r dir t files reviews : load_reviews r dir t files = Ok reviews ->
  rw_Sequence <$> reviews = fst <$> files /\ Forall (fun rw => ValidateReviewArtifact rw t = None) reviews.
Proof.
  revert reviews. induction files as [|f files IH]; intros reviews; cbn [load_reviews]; [by intros [= <-]|].
  destruct (load_review r dir t f) as [rw|] eqn:Ef; [|done]. intros (rest & Hr & [= <-])%result_bind_Ok.
  destruct (IH rest Hr) as [Es Hv]. destruct (load_review_sequence _ _ _ _ _ Ef) as [E Hrw]. split; [|by constructor].
  cbn. by rewrite E, Es.
Qed.
(** A review journal that loads is numbered from one on. *)
Lemma LoadReviewSequence_journaled r root t reviews : LoadReviewSequence r root t = Ok reviews -> journaled reviews.
Proof.
  unfold LoadReviewSequence. destruct (re_ReadDir _ _) as [entries| |]; [|by intros [= <-]|done].
  intros (files & _ & E)%result_bind_Ok. destruct (contiguous 1 _) eqn:Ec; [done|].
  apply load_reviews_sequence in E as [Es _]. rewrite contiguous_None in Ec. intros i rw Hi.
  assert ((rw_Sequence <$> reviews) !! i = Some (rw_Sequence rw)) as Hs by by rewrite list_lookup_fmap, Hi.
  rewrite Es, list_lookup_fmap in Hs. destruct (merge_sort by_number files !! i) as [f|] eqn:Ef; [|done]. cbn in Hs. injection Hs as <-. rewrite (Ec i f Ef). lia.
Qed.

Lemma split_on_app c s t : split_on c (s +:+ String c t) = split_on c s ++ split_on c t.
Proof.
  induction s as [|d s IH].
  { change ("" +:+ String c t) with (String c t). cbn [split_on]. by rewrite Ascii.eqb_refl. }
  change (String d s +:+ String c t) with (String d (s +:+ String c t)). cbn [split_on]. rewrite IH.
  destruct (Ascii.eqb c d); [done|]. assert (split_on c s <> []) by (destruct s; cbn [split_on]; [done|]; by repeat case_match).
  by destruct (split_on c s).
Qed.
Lemma split_on_none c s : any_byte (Ascii.eqb c) s = false -> split_on c s = [s].
Proof.
  induction s as [|d s IH]; cbn [any_byte split_on]; [done|]. intros [E Hs]%orb_false_iff. by rewrite E, IH.
Qed.
Lemma parse_records_app ls ls' : parse_records (ls ++ ls') =
  let? a := parse_records ls in let? b := parse_records ls' in Ok (a ++ b).
Proof.
  induction ls as [|l ls IH]; cbn [app parse_records]; [by destruct (parse_records ls')|].
  destruct (TrimSpace l =s? ""); [done|]. destruct (decode_record _); [|done]. rewrite IH.
  destruct (parse_records ls); [|done]. by destruct (parse_records ls').
Qed.
End journals.

(** ** Reviews without repeated names *)

Section names.
Context `{GoFmt}.
Import KillSwitchSpec.

Lemma reject_agrees err fuel :
  (forall ts r, rejectDuplicateJSONKeysDec err fuel ts = Ok r -> KillSwitch.rejectDupDec fuel ts = Some r) /\
  (forall d seen ts r, members err fuel d seen ts = Ok r -> KillSwitch.members fuel d seen ts = Some r).
Proof.
  induction fuel as [|fuel [IHv IHm]]; [done|].
  split; [intros [|[d|s|] ts] r|intros d seen ts r]; cbn [rejectDuplicateJSONKeysDec members KillSwitch.rejectDupDec KillSwitch.members];
    try done; try (by intros [= <-]).
  - destruct (_ || _); [apply IHm|done].
  - destruct (KillSwitch.more ts); [|destruct ts; [done|by intros [= <-]]]. destruct (Ascii.eqb d "{").
    + destruct ts as [|[|key|] ts]; try done. cbn [KillSwitch.key_of]. destruct (str_in key seen); [done|].
      destruct (rejectDuplicateJSONKeysDec err fuel ts) as [ts'|] eqn:E; [|done]. rewrite (IHv _ _ E). apply IHm.
    + destruct (rejectDuplicateJSONKeysDec err fuel ts) as [ts'|] eqn:E; [|done]. rewrite (IHv _ _ E). apply IHm.
Qed.
Definition reads (err : string) (ts rest : list KillSwitch.Token) : Prop :=
  forall fuel, (2 * length ts + 1 <= fuel)%nat -> rejectDuplicateJSONKeysDec err fuel ts = Ok rest.
Lemma members_array_ok err l rest fuel seen : Forall (fun t => forall rest, reads err (tokens t ++ rest) rest) l ->
  (2 * length (flat_map tokens l ++ KillSwitch.TDelim "]" :: rest) + 2 <= fuel)%nat ->
  members err fuel "[" seen (flat_map tokens l ++ KillSwitch.TDelim "]" :: rest) = Ok rest.
Proof.
  intros Hl. revert fuel. induction Hl as [|t l Ht Hl IH]; intros fuel Hf; (destruct fuel as [|fuel]; [cbn in Hf; lia|]); [done|].
  cbn [flat_map members] in *. rewrite <- app_assoc in *. rewrite more_tokens. cbn [Ascii.eqb Bool.eqb].
  rewrite (Ht (flat_map tokens l ++ KillSwitch.TDelim "]" :: rest) fuel) by lia.
  apply IH. rewrite length_app in Hf. pose proof (tokens_nonempty t). lia.
Qed.
Lemma members_object_ok err l rest fuel seen : Forall (fun kv => forall rest, reads err (tokens kv.2 ++ rest) rest) l ->
  fresh seen (map fst l) = true ->
  (2 * length (flat_map (fun kv => KillSwitch.TString kv.1 :: tokens kv.2) l ++ KillSwitch.TDelim "}" :: rest) + 2 <= fuel)%nat ->
  members err fuel "{" seen (flat_map (fun kv => KillSwitch.TString kv.1 :: tokens kv.2) l ++ KillSwitch.TDelim "}" :: rest) = Ok rest.
Proof.
  intros Hl. revert fuel seen. induction Hl as [|[k t] l Ht Hl IH]; intros fuel seen Hfr Hf;
    (destruct fuel as [|fuel]; [cbn in Hf; lia|]); [done|].
  cbn [flat_map members map fresh fst snd app KillSwitch.more Ascii.eqb Bool.eqb] in *. rewrite <- app_assoc in *.
  apply andb_true_iff in Hfr as [Hk Hfr]. rewrite negb_true_iff in Hk. rewrite Hk. cbn [length] in *. rewrite length_app in Hf.
  rewrite (Ht (flat_map (fun kv => KillSwitch.TString kv.1 :: tokens kv.2) l ++ KillSwitch.TDelim "}" :: rest) fuel)
    by (rewrite length_app; lia).
  apply IH; [done|]. pose proof (tokens_nonempty t). lia.
Qed.
Lemma unique_keys_reads err t : well_named t -> forall rest, reads err (tokens t ++ rest) rest.
Proof.
  induction t as [s|l IH|l IH] using jtree_induction; intros Hw rest fuel Hf; (destruct fuel as [|fuel]; [lia|]).
  - by destruct s.
  - inversion_clear Hw as [|? Hl|]. cbn [tokens app rejectDuplicateJSONKeysDec Ascii.eqb Bool.eqb orb] in *. rewrite <- app_assoc in *.
    cbn [length app] in *. apply members_array_ok; [|lia]. eapply Forall_impl; [apply Forall_and; split; [exact IH|exact Hl]|]. by intros t [Ht Hn]; apply Ht.
  - inversion_clear Hw as [| |? Hk Hl]. cbn [tokens app rejectDuplicateJSONKeysDec Ascii.eqb Bool.eqb orb] in *. rewrite <- app_assoc in *.
    cbn [length app] in *. apply members_object_ok; [|by apply fresh_spec; split; [|auto]|lia].
    eapply Forall_impl; [apply Forall_and; split; [exact IH|exact Hl]|]. by intros kv [Ht Hn]; apply Ht.
Qed.
(** A review passes the check exactly when no object in it has two members of
    one name. *)
Lemma rejectDuplicateJSONKeysDec_iff err t rest :
  rejectDuplicateJSONKeysDec err (KillSwitch.dup_fuel (tokens t ++ rest)) (tokens t ++ rest) = Ok rest <-> well_named t.
Proof.
  split; [|intros Hw; apply unique_keys_reads; unfold KillSwitch.dup_fuel; [done|lia]].
  intros E. apply reject_agrees in E. rewrite (rejectDup_accepts t rest) in E by (unfold KillSwitch.dup_fuel; lia).
  apply unique_keys_spec. by destruct (unique_keys t).
Qed.
End names.

(** ** The report *)

Section report.
Context `{GoUnicode, GoFmt, GoCrypto, GoPatterns, TaskJSON, GoMapOrder, RepoJSON}.
Hypothesis range_all : forall s, range_keys s ≡ₚ elements s.

(** C12.  A report says [SECURITY_REVIEWED] exactly when what the repository holds
    now is the evidence for it: the contract is valid; the recorded runs, the
    review journal, the scope and the snapshot of the workspace all read; and
    every record, review and gate is as [security_reviewed] asks. *)
Theorem BuildReport_reviewed_iff (r : Repo) (root : string) (t : Task) (base : string) (now : Z) (rep : Report) :
  BuildReport r root t base now = Ok rep ->
  rp_DerivedStatus rep = StatusSecurityReviewed <->
  exists t' digest snap cmds reviews, ValidateTask t = (t', None) /\ ContractDigest t' = Ok digest /\
    CurrentSnapshot r root base (Some t) = Ok snap /\ CheckScope r root t (sn_BaseSHA snap) = Ok (rp_Scope rep) /\
    LoadCommands r root (tk_TaskID t) = Ok cmds /\ LoadReviewSequence r root t = Ok reviews /\
    security_reviewed t' digest cmds (rp_Scope rep) reviews snap.
Proof.
  unfold BuildReport. intros (snap & Hs & E)%result_bind_Ok. apply result_bind_Ok in E as (scope & Hc & E).
  apply result_bind_Ok in E as (cmds & Hl & E). destruct (LoadReviewSequence r root t) as [reviews|err] eqn:Er.
  - pose proof (DeriveStatus_reviewed_iff range_all t cmds scope reviews snap (LoadReviewSequence_journaled r root t reviews Er)) as Hd.
    destruct (DeriveStatus t cmds scope reviews snap) as [st reasons]. injection E as <-. cbn [rp_DerivedStatus rp_Scope fst] in *.
    rewrite Hd. split.
    + intros (t' & digest & ? & ? & ?). by exists t', digest, snap, cmds, reviews.
    + intros (t' & digest & snap' & cmds' & reviews' & Hv & Hdig & Hs' & Hc' & Hl' & [= ->] & Hsec). exists t', digest.
      assert (snap' = snap) as -> by congruence. assert (cmds' = cmds) as -> by congruence. done.
  - injection E as <-. split; [done|]. by intros (t' & digest & snap' & cmds' & reviews' & _ & _ & _ & _ & _ & [=] & _).
Qed.

(** ** Running a command *)

(** A record is written as one line, which reads back as it. *)
Definition one_line (c : CommandRecord) : Prop :=
  decode_record (marshal_record c) = Ok c /\ any_byte (Ascii.eqb LF) (marshal_record c) = false /\
  TrimSpace (marshal_record c) = marshal_record c /\ marshal_record c <> "".

(** A journal no torn write has cut. *)
Definition whole (file : string) : Prop := file = "" \/ exists s, file = s +:+ String LF "".
Lemma whole_split file s : whole file -> exists ls, split_on LF (file +:+ s) = ls ++ split_on LF s /\
  parse_records ls = parse_records (split_on LF file).
Proof.
  intros [->|[f ->]]; [by exists []|]. exists (split_on LF f). rewrite append_assoc. change (String LF "" +:+ s) with (String LF s).
  split; [apply split_on_app|]. rewrite split_on_app, parse_records_app. cbn. destruct (parse_records _) as [l|]; [|done].
  cbn. by rewrite app_nil_r.
Qed.

(** A run is recorded only at the current snapshot, with the contract's argv
    and, where the contract needs a spec review, in the cycle of one that is
    current and passed; and what is recorded is what is loaded afterwards. *)
Theorem run_recorded (r : Repo) (root : string) (t : Task) (name base : string) (io : RunIO) (file file' : string)
    (cmds : list CommandRecord) (c : CommandRecord) :
  whole file -> parse_records (split_on LF file) = Ok cmds ->
  RunNamedCommand r root t name base io file = (c, None, file') -> one_line c ->
  whole file' /\ parse_records (split_on LF file') = Ok (cmds ++ [c]) /\
  co_Name c = name /\ co_Source c = "executed" /\ io_Run io (co_Args c) = Exited (co_Exit c) /\
  (exists req, LookupCommand t name = Some req /\ co_Args c = rq_Argv req) /\
  (exists snap, CurrentSnapshot r root base (Some t) = Ok snap /\ co_HeadSHA c = sn_HeadSHA snap /\
     co_WorkspaceDigest c = sn_WorkspaceDigest snap /\ co_BaseSHA c = sn_BaseSHA snap) /\
  (specRegime t = true -> exists reviews digest pass, LoadReviewSequence r root t = Ok reviews /\ ContractDigest t = Ok digest /\
     currentSpecPass reviews digest (tk_SpecRevision t) = Some pass /\ co_SpecSequence c = rw_Sequence pass).
Proof.
  intros Hw Hp. unfold RunNamedCommand. destruct (LookupCommand t name) as [req|]; [|done].
  destruct (CurrentSnapshot r root base (Some t)) as [snap|] eqn:Es; [|done].
  destruct (current_spec_sequence r root t) as [seq|] eqn:Eq; [|done]. destruct (io_MkdirAll io); [done|].
  destruct (io_CreateTemp io _) as [log|]; [|done]. destruct (rq_Argv req) as [|a args] eqn:Ea; [done|].
  destruct (io_Run io (a :: args)) as [exit|] eqn:Erun; [|done]. unfold append_record. destruct (io_OpenFile io); [done|].
  destruct (io_Write io); [|done]. set (rec := {| co_Name := _ |}).
  intros [= <- <-] (Hrt & Hlf & Htrim & Hne). split_and!; [|..|done|done|exact Erun|by exists req|by exists snap|].
  - right. exists (file +:+ marshal_record rec). by rewrite append_assoc.
  - destruct (whole_split file (marshal_record rec +:+ String LF "") Hw) as (ls & El & Epl). rewrite El.
    rewrite split_on_app, (split_on_none _ _ Hlf).
    rewrite parse_records_app, Epl, Hp. cbn [result_bind app parse_records]. rewrite Htrim.
    apply str_eqb_false in Hne. rewrite Hne, Hrt. done.
  - unfold current_spec_sequence in Eq. intros Hs. rewrite Hs in Eq. destruct (LoadReviewSequence r root t) as [reviews|]; [|done].
    apply result_bind_Ok in Eq as (digest & Hd & Eq). destruct (currentSpecPass _ _ _) as [pass|] eqn:Ep; [|done].
    injection Eq as <-. by exists reviews, digest, pass.
Qed.
End report.

(** ** What a snapshot binds *)

Lemma uvarint_inj {A B} (f : A -> nat) (g : B -> nat) a b s t :
  uvarint_len f a +:+ s = uvarint_len g b +:+ t -> f a = g b /\ s = t.
Proof.
  unfold uvarint_len. intros E. apply (f_equal Ownership.Uvarint) in E. rewrite !Ownership.PutUvarint_read in E.
  injection E as En Es. split; [lia|done].
Qed.
Lemma writeRecord_app fields s : writeRecord fields +:+ s =
  uvarint_len length fields +:+ (foldr (fun field s => uvarint_len String.length field +:+ field +:+ s) s fields).
Proof.
  unfold writeRecord. rewrite append_assoc. f_equal. induction fields as [|f l IH]; [done|]. cbn [foldr]. by rewrite !append_assoc, IH.
Qed.
Lemma writeRecord_inj fields fields' s s' : writeRecord fields +:+ s = writeRecord fields' +:+ s' -> fields = fields' /\ s = s'.
Proof.
  rewrite !writeRecord_app. intros [El E]%uvarint_inj. revert fields' El E.
  induction fields as [|f l IH]; intros [|f' l'] El E; try done. cbn [foldr] in E. apply uvarint_inj in E as [Ef E].
  apply append_eq_len in E as [-> E]; [|done]. injection El as El. by destruct (IH l' El E) as [-> ->].
Qed.
Lemma writeRecord_nonempty fields s : writeRecord fields +:+ s <> "".
Proof.
  rewrite writeRecord_app. unfold uvarint_len. intros E. apply (f_equal Ownership.Uvarint) in E.
  by rewrite Ownership.PutUvarint_read in E.
Qed.
Lemma records_inj l l' : foldr (fun fields s => writeRecord fields +:+ s) "" l = foldr (fun fields s => writeRecord fields +:+ s) "" l' -> l = l'.
Proof.
  revert l'. induction l as [|f l IH]; intros [|f' l'] E; [done|by symmetry in E; apply writeRecord_nonempty in E|by apply writeRecord_nonempty in E|].
  cbn [foldr] in E. apply writeRecord_inj in E as [-> E]. by rewrite (IH l').
Qed.

Section snapshot.
Context `{GoUnicode, GoFmt, GoCrypto, TaskJSON}.

Lemma path_record_path r root p rec : path_record r root p = Ok rec -> rec !! 1%nat = Some p.
Proof.
  unfold path_record. destruct (re_Lstat _ _) as [fi| |]; [|by intros [= <-]..]. destruct (fi_symlink fi); [by intros [= <-]|].
  destruct (if fi_dir fi then _ else _); [done|]. destruct (negb _); [by intros [= <-]|]. by intros (sum & _ & [= <-])%result_bind_Ok.
Qed.
Lemma path_records_spec r root paths recs : path_records r root paths = Ok recs ->
  Forall2 (fun p rec => path_record r root p = Ok rec) paths recs.
Proof.
  revert recs. induction paths as [|p paths IH]; intros recs; cbn [path_records]; [by intros [= <-]|].
  destruct (path_record r root p) as [rec|] eqn:E; [|done]. intros (rest & Hr & [= <-])%result_bind_Ok. constructor; auto.
Qed.
Lemma Forall2_paths r root paths recs :
  Forall2 (fun p rec => path_record r root p = Ok rec) paths recs -> Some <$> paths = (fun rec => rec !! 1%nat) <$> recs.
Proof. induction 1 as [|p rec paths recs Hp _ IH]; [done|]. cbn. f_equal; [|done]. symmetry. by eapply path_record_path. Qed.
Lemma fmap_Some_inj (l l' : list string) : Some <$> l = Some <$> l' -> l = l'.
Proof. apply (inj (fmap Some)). Qed.

(** Two sides of one digest: the same head, the same paths with the same
    records, so the same kinds, modes, links and file hashes. *)
Lemma workspace_binds r r' root root' d : WorkspaceDigest r root = Ok d -> WorkspaceDigest r' root' = Ok d ->
  (exists head paths, git r ["rev-parse"; "HEAD"] = Ok head /\ git r' ["rev-parse"; "HEAD"] = Ok head /\
     workspace_paths r = Ok paths /\ workspace_paths r' = Ok paths /\
     (forall p, p ∈ paths -> exists rec, path_record r root p = Ok rec /\ path_record r' root' p = Ok rec)) \/
  exists x y, x <> y /\ sha256_hex x = sha256_hex y.
Proof.
  unfold WorkspaceDigest. intros (recs & Hr & [= Hd])%result_bind_Ok (recs' & Hr' & [= Hd'])%result_bind_Ok.
  set (flat := foldr (fun fields s => writeRecord fields +:+ s) "") in *.
  destruct (decide (flat recs = flat recs')) as [E|Hne]; [|right; exists (flat recs), (flat recs'); split; [done|congruence]].
  left. apply records_inj in E as <-. unfold workspace_records in *.
  apply result_bind_Ok in Hr as (head & Hh & Hr). apply result_bind_Ok in Hr as (paths & Hp & Hr). apply result_bind_Ok in Hr as (l & Hl & [= <-]).
  apply result_bind_Ok in Hr' as (head' & Hh' & Hr'). apply result_bind_Ok in Hr' as (paths' & Hp' & Hr').
  apply result_bind_Ok in Hr' as (l' & Hl' & [= <- <-]). apply path_records_spec in Hl, Hl'.
  assert (paths = paths') as <- by (apply fmap_Some_inj; rewrite (Forall2_paths _ _ _ _ Hl); by rewrite (Forall2_paths _ _ _ _ Hl')).
  exists head', paths. split_and!; [done..|]. intros p [i Hi]%list_elem_of_lookup.
  destruct (Forall2_lookup_l _ _ _ _ _ Hl Hi) as (rec & Hrec & Hpr). destruct (Forall2_lookup_l _ _ _ _ _ Hl' Hi) as (rec' & Hrec' & Hpr').
  exists rec. split; [done|]. congruence.
Qed.

Hypothesis hex_length : forall s, String.length (sha256_hex s) = 64%nat.
Lemma snapshot_text_inj w w' c c' : String.length w = String.length w' -> snapshot_text w c = snapshot_text w' c' -> w = w' /\ c = c'.
Proof.
  unfold snapshot_text. intros Hl E. apply append_inj_l in E. apply append_eq_len in E as [-> E]; [|done]. split; [done|].
  injection E as E. by apply (append_inj_r c c' (String LF "")).
Qed.
(** The contract a digest stands for is the one it was made of. *)
Hypothesis marshal_inj : forall t t' s, marshal_task t = Ok s -> marshal_task t' = Ok s -> t = t'.
Lemma ContractDigest_binds t t' d : ContractDigest t = Ok d -> ContractDigest t' = Ok d ->
  t = t' \/ exists x y, x <> y /\ sha256_hex x = sha256_hex y.
Proof.
  unfold ContractDigest. destruct (marshal_task t) as [s|] eqn:E; [|done]. destruct (marshal_task t') as [s'|] eqn:E'; [|done].
  intros [= Hd] [= Hd']. destruct (decide (s = s')) as [->|Hne]; [left; by eapply marshal_inj|right; exists s, s'; split; [done|congruence]].
Qed.

(** Evidence bound to the current snapshot's digest was made for this very
    contract over this very workspace: the same head, the same paths, and at
    each the same kind, permissions, link target and file hash; or two inputs
    with one SHA-256 are at hand. *)
Theorem snapshot_binds (r r' : Repo) (root root' base base' : string) (t t' : Task) (snap snap' : Snapshot) :
  CurrentSnapshot r root base (Some t) = Ok snap -> CurrentSnapshot r' root' base' (Some t') = Ok snap' ->
  sn_WorkspaceDigest snap = sn_WorkspaceDigest snap' ->
  (t = t' /\ exists head paths, git r ["rev-parse"; "HEAD"] = Ok head /\ git r' ["rev-parse"; "HEAD"] = Ok head /\
     workspace_paths r = Ok paths /\ workspace_paths r' = Ok paths /\
     (forall p, p ∈ paths -> exists rec, path_record r root p = Ok rec /\ path_record r' root' p = Ok rec)) \/
  exists x y, x <> y /\ sha256_hex x = sha256_hex y.
Proof.
  unfold CurrentSnapshot. intros (b & _ & E)%result_bind_Ok (b' & _ & E')%result_bind_Ok Ed.
  apply result_bind_Ok in E as (head & _ & E). apply result_bind_Ok in E as (w & Hw & E). apply result_bind_Ok in E as (c & Hc & [= <-]).
  apply result_bind_Ok in E' as (head' & _ & E'). apply result_bind_Ok in E' as (w' & Hw' & E'). apply result_bind_Ok in E' as (c' & Hc' & [= <-]).
  cbn in Ed. destruct (decide (snapshot_text w c = snapshot_text w' c')) as [Et|Hne]; [|right; by eexists _, _].
  assert (forall r root w, WorkspaceDigest r root = Ok w -> String.length w = 64%nat) as Hlen
    by (unfold WorkspaceDigest; intros r0 root0 w0 (? & _ & [= <-])%result_bind_Ok; apply hex_length).
  apply snapshot_text_inj in Et as [<- <-]; [|by rewrite (Hlen _ _ _ Hw), (Hlen _ _ _ Hw')].
  destruct (ContractDigest_binds _ _ _ Hc Hc') as [->|]; [|by right].
  destruct (workspace_binds _ _ _ _ _ Hw Hw'); [by left|by right].
Qed.
(** The record of a file holds the hash of its bytes. *)
Lemma path_record_contents r r' root root' p rec fi fi' data data' :
  path_record r root p = Ok rec -> path_record r' root' p = Ok rec ->
  re_Lstat r (FJoin [root; p]) = OsOk fi -> fi_regular fi = true -> fi_symlink fi = false -> re_contents r (FJoin [root; p]) = Ok data ->
  re_Lstat r' (FJoin [root'; p]) = OsOk fi' -> fi_regular fi' = true -> fi_symlink fi' = false -> re_contents r' (FJoin [root'; p]) = Ok data' ->
  data = data' \/ exists x y, x <> y /\ sha256_hex x = sha256_hex y.
Proof.
  unfold path_record, hashFile. intros E E' Hl Hr Hs Hd Hl' Hr' Hs' Hd'. rewrite Hl, Hs, Hr, Hd in E. rewrite Hl', Hs', Hr', Hd' in E'.
  destruct (if fi_dir fi then _ else _); [done|]. destruct (if fi_dir fi' then _ else _); [done|]. cbn in E, E'. simplify_eq.
  destruct (decide (data = data')); [by left|right; by exists data, data'].
Qed.
End snapshot.

(** ** The scope *)

Lemma empty_flat_map {A B} (f : A -> list B) l : empty (flat_map f l) = true <-> forall x, x ∈ l -> f x = [].
Proof.
  induction l as [|x l IH]; cbn [flat_map]; [split; [intros _ ? Hin; by apply not_elem_of_nil in Hin|done]|].
  setoid_rewrite elem_of_cons. destruct (f x) as [|y ys] eqn:E; cbn [app]; [rewrite IH; naive_solver|].
  split; [done|]. intros Hf. specialize (Hf x (or_introl eq_refl)). congruence.
Qed.
Section scope.
Context `{GoUnicode, GoPatterns, GoMapOrder}.
Hypothesis range_all : forall s, range_keys s ≡ₚ elements s.

(** The scope passes exactly when every changed path git names that is no
    evidence is an allowed one, and, as a link, does not lead out. *)
Lemma CheckScope_pass r root t base scope : CheckScope r root t base = Ok scope ->
  so_Pass scope = true <->
  exists diff named others ignored,
    git r ["diff"; "--name-status"; "-z"; so_Base scope] = Ok diff /\ name_status (split_on NUL diff) = Ok named /\
    git r ["ls-files"; "-o"; "--exclude-standard"; "-z"] = Ok others /\
    git r ["ls-files"; "-o"; "-i"; "--exclude-standard"; "-z"] = Ok ignored /\
    forall p, p ∈ named ++ nul_paths others ++ nul_paths ignored -> skipLocalState p = false ->
      pathAllowed p (tk_AllowedPaths t) = true /\ link_escape r root p = [].
Proof.
  unfold CheckScope. intros (b & _ & E)%result_bind_Ok. apply result_bind_Ok in E as (diff & Hd & E).
  apply result_bind_Ok in E as (named & Hn & E). apply result_bind_Ok in E as (others & Ho & E). apply result_bind_Ok in E as (ignored & Hi & E).
  apply result_bind_Ok in E as (dd & _ & E). apply result_bind_Ok in E as (do_ & _ & [= <-]). cbn [so_Pass so_Base].
  assert (forall p, p ∈ List.filter (fun p => negb (skipLocalState p)) (range_keys (list_to_set (named ++ nul_paths others ++ nul_paths ignored))) <->
           p ∈ named ++ nul_paths others ++ nul_paths ignored /\ skipLocalState p = false) as Hp.
  { intros p. rewrite list_elem_of_In, filter_In, <- list_elem_of_In, range_all, elem_of_elements, elem_of_list_to_set, negb_true_iff. done. }
  rewrite empty_flat_map. setoid_rewrite Hp. unfold out_of_scope. setoid_rewrite app_nil. setoid_rewrite note_nil.
  setoid_rewrite negb_false_iff. split.
  - intros Hall. exists diff, named, others, ignored. split_and!; [done..|]. intros p Hin Hs. by apply Hall.
  - intros (diff' & named' & others' & ignored' & Hd' & Hn' & Ho' & Hi' & Hall) p [Hin Hs].
    assert (diff' = diff) as -> by congruence. assert (named' = named) as -> by congruence.
    assert (others' = others) as -> by congruence. assert (ignored' = ignored) as -> by congruence. by apply Hall.
Qed.
End scope.

(** One entry of [git diff --name-status -z]. *)
Inductive change := Changed (status p : string) | Moved (status p q : string).
Definition field (s : string) : Prop := s <> "" /\ any_byte (Ascii.eqb NUL) s = false.
Definition change_ok (c : change) : Prop :=
  match c with
  | Changed s p => field s /\ field p /\ renames s = false
  | Moved s p q => field s /\ field p /\ field q /\ renames s = true
  end.
Definition nul (s : string) : string := s +:+ String NUL "".
Definition print_change (c : change) : string :=
  match c with Changed s p => nul s +:+ nul p | Moved s p q => nul s +:+ nul p +:+ nul q end.
Definition change_paths (c : change) : list string := match c with Changed _ p => [p] | Moved _ p q => [p; q] end.
Lemma split_field s t : any_byte (Ascii.eqb NUL) s = false -> split_on NUL (nul s +:+ t) = s :: split_on NUL t.
Proof.
  intros Hs. unfold nul. rewrite append_assoc. change (String NUL "" +:+ t) with (String NUL t).
  by rewrite split_on_app, (split_on_none _ _ Hs).
Qed.
(** Every path git prints is found, whatever bytes but NUL it holds. *)
Lemma name_status_reads cs : Forall change_ok cs ->
  name_status (split_on NUL (foldr (fun c s => print_change c +:+ s) "" cs)) = Ok (flat_map change_paths cs).
Proof.
  induction 1 as [|c cs Hc _ IH]; [done|]. cbn [foldr flat_map]. destruct c as [s p|s p q]; cbn [print_change change_paths change_ok] in *.
  - destruct Hc as ([Hs Hs'] & [Hp Hp'] & Hr). rewrite append_assoc, !split_field by done. cbn [name_status].
    apply str_eqb_false in Hs, Hp. by rewrite Hs, Hp, Hr, IH.
  - destruct Hc as ([Hs Hs'] & [Hp Hp'] & [Hq Hq'] & Hr). rewrite !append_assoc, !split_field by done. cbn [name_status].
    apply str_eqb_false in Hs, Hp, Hq. by rewrite Hs, Hp, Hr, Hq, IH.
Qed.

(** ** Artifacts *)

(** A path is resolved at its longest prefix that exists; what is missing is
    kept, and no missing part is a link that leads nowhere. *)
Lemma resolve_leaf_spec h current missing p : resolve_leaf h current missing = Ok p ->
  exists n resolved, pa_EvalSymlinks h (rev (drop n current)) = OsOk resolved /\ p = resolved ++ rev (take n current) ++ missing /\
    forall m, (m < n)%nat -> pa_is_link h (rev (drop m current)) = false /\ exists err, pa_EvalSymlinks h (rev (drop m current)) = OsNotExist err.
Proof.
  revert missing. induction current as [|b current IH]; intros missing; cbn [resolve_leaf].
  - destruct (pa_EvalSymlinks h (rev [])) as [res|err|err] eqn:E; [|by destruct (pa_is_link _ _)|done].
    intros [= <-]. exists 0%nat, res. split_and!; [done|done|lia].
  - destruct (pa_EvalSymlinks h (rev (b :: current))) as [res|err|err] eqn:E; [intros [= <-]| |done].
    + exists 0%nat, res. split_and!; [done|done|lia].
    + destruct (pa_is_link h (rev (b :: current))) eqn:El; [done|]. intros (n & res & Hr & -> & Hn)%IH.
      exists (S n), res. split_and!; [done| |].
      * cbn [take rev]. by rewrite <- !app_assoc.
      * intros [|m] Hm; [split; [done|by exists err]|]. apply Hn. lia.
Qed.

(** ** A task from its contract to its review *)

Module WorkflowWitness.
#[local] Existing Instance ascii_unicode.
#[local] Existing Instance plain_quote.
#[local] Existing Instance literal_patterns.
#[local] Instance digest : GoCrypto := {| sha256_hex := fun _ => String.concat "" (repeat "0123456789abcdef" 4) |}.
#[local] Instance order : GoMapOrder := {| range_keys := elements |}.

#[local] Instance ReqCmd_eq : EqDecision ReqCmd.
Proof. solve_decision. Defined.
#[local] Instance ReqCmd_countable : Countable ReqCmd :=
  inj_countable' (fun c => (rq_Name c, rq_Expect c, rq_Argv c)) (fun '(a, b, c) => Build_ReqCmd a b c) ltac:(by intros []).
#[local] Instance AttackClass_eq : EqDecision AttackClass.
Proof. solve_decision. Defined.
#[local] Instance AttackClass_countable : Countable AttackClass :=
  inj_countable' (fun c => (ak_ID c, ak_FailureClass c, ak_Expected c)) (fun '(a, b, c) => Build_AttackClass a b c) ltac:(by intros []).
#[local] Instance Task_eq : EqDecision Task.
Proof. solve_decision. Defined.
#[local] Instance Task_countable : Countable Task :=
  inj_countable' (fun t => (tk_TaskID t, tk_InvariantIDs t, tk_SecuritySensitive t, tk_SecurityProblem t, tk_RequiredBehavior t,
    tk_FailureBehavior t, tk_AllowedPaths t, tk_ApprovalGatedPaths t, tk_MaxAttempts t, tk_RequiredCommands t, tk_SpecRevision t,
    tk_NonGoals t, tk_AttackClasses t)) (fun '(a, b, c, d, e, f, g, h, i, j, k, l, m) => Build_Task a b c d e f g h i j k l m) ltac:(by intros []).
Fixpoint bits (p : positive) : string :=
  match p with xH => "" | xO p => String "0" (bits p) | xI p => String "1" (bits p) end.
Lemma bits_inj p q : bits p = bits q -> p = q.
Proof. revert q. induction p as [p IH|p IH|]; intros [q|q|]; cbn; try done; intros [= E]; by rewrite (IH q). Qed.
#[local] Instance tasks : TaskJSON := {| marshal_task := fun t => Ok (bits (encode t)) |}.

Definition task : Task := {|
  tk_TaskID := "t1"; tk_InvariantIDs := ["I1"]; tk_SecuritySensitive := true; tk_SecurityProblem := "p"; tk_RequiredBehavior := "r";
  tk_FailureBehavior := "f"; tk_AllowedPaths := ["src"]; tk_ApprovalGatedPaths := []; tk_MaxAttempts := 2;
  tk_RequiredCommands := [Build_ReqCmd "red" "fail" ["go"; "test"]; Build_ReqCmd "target" "pass" ["go"; "test"];
                          Build_ReqCmd "harness" "pass" ["make"]];
  tk_SpecRevision := 1; tk_NonGoals := ["n"]; tk_AttackClasses := [Build_AttackClass "A1" "replay" "deny"] |}.
Definition zeros : string := sha256_hex "".
Definition record (name : string) (args : list string) (exit : Z) : CommandRecord := {|
  co_Name := name; co_Args := args; co_Exit := exit; co_Source := "executed"; co_BaseSHA := "base"; co_HeadSHA := "head";
  co_WorkspaceDigest := zeros; co_LogPath := "log"; co_RecordedUTC := 0; co_SpecSequence := 1 |}.
Definition review (phase : string) : ReviewArtifact := {|
  rw_Passed := true; rw_Phase := phase; rw_Findings := []; rw_FailureClasses := []; rw_SpecRevision := 1; rw_ContractDigest := zeros;
  rw_CoveredAttackClasses := ["replay"]; rw_Counterexamples := ["c"]; rw_Reviewer := ""; rw_Notes := ""; rw_HeadSHA := "head";
  rw_WorkspaceDigest := zeros; rw_BaseSHA := "base"; rw_Sequence := 0; rw_RecordedUTC := 0 |}.
#[local] Instance json : RepoJSON := {|
  decode_task := fun _ => Ok (task, TailEOF);
  decode_review := fun s => Ok (review (if s =s? "spec" then "spec" else ""), TailEOF);
  decode_record := fun s => if s =s? "r" then Ok (record "red" ["go"; "test"] 1)
                            else if s =s? "h" then Ok (record "harness" ["make"] 0) else Ok (record "target" ["go"; "test"] 0);
  marshal_record := fun c => if co_Name c =s? "red" then "r" else if co_Name c =s? "harness" then "h" else "t";
  marshal_report := fun _ => Ok "{}";
  review_tokens := fun _ => ([KillSwitch.TDelim "{"; KillSwitch.TDelim "}"], "EOF")
|}.
Definition journal : string := "r" +:+ String LF ("t" +:+ String LF ("h" +:+ String LF "")).
Definition repo : Repo := {|
  re_git := fun args => match args with
                        | ["rev-parse"; "HEAD"] => Ran ("head" +:+ String LF "")
                        | "rev-parse" :: _ => Ran ("base" +:+ String LF "")
                        | ["diff"; "--name-status"; "-z"; _] => Ran ("M" +:+ String NUL ("src/a.go" +:+ String NUL ""))
                        | ["ls-files"; "-c"; "-z"] => Ran ("src/a.go" +:+ String NUL "")
                        | _ => Ran ""
                        end;
  re_Lstat := fun p => if p =s? "/repo/src/a.go" then
                         OsOk {| fi_symlink := false; fi_dir := false; fi_regular := true; fi_perm := 420; fi_mode := "-rw-r--r--"; fi_size := 2 |}
                       else OsNotExist "absent";
  re_Readlink := fun _ => "";
  re_contents := fun _ => Ok "go";
  re_EvalSymlinks := fun p => Ok p;
  re_ReadFile := fun p => if p =s? "/repo/evidence/workflow/t1/commands.jsonl" then OsOk journal
                          else if p =s? "/repo/evidence/workflow/t1/reviews/1.json" then OsOk "spec" else OsOk "impl";
  re_ReadDir := fun _ => OsOk [("1.json", false); ("2.json", false)]
|}.
Definition report : result Report := BuildReport repo "/repo" task "main" 0.
Definition get {A} (m : result A) (d : A) : A := match m with Ok a => a | Err _ => d end.
Definition no_report : Report := {|
  rp_TaskID := ""; rp_InvariantIDs := []; rp_BaseSHA := ""; rp_HeadSHA := ""; rp_WorkspaceDigest := ""; rp_WorktreeDirty := false;
  rp_DerivedStatus := ""; rp_Reasons := []; rp_Scope := Build_ScopeResult "" [] [] [] false []; rp_Commands := []; rp_Review := None;
  rp_SpecPass := false; rp_ContractDigest := ""; rp_EvidenceEditable := false; rp_Notes := []; rp_GeneratedUTC := 0 |}.

Lemma BuildReport_reviewed_iff_witness : exists rep, BuildReport repo "/repo" task "main" 0 = Ok rep /\
  rp_DerivedStatus rep = StatusSecurityReviewed /\
  exists t' digest snap cmds reviews, ValidateTask task = (t', None) /\ security_reviewed t' digest cmds (rp_Scope rep) reviews snap.
Proof.
  exists (get report no_report). split; [vm_compute; reflexivity|].
  pose proof (BuildReport_reviewed_iff (fun s => Permutation_refl (elements s)) repo "/repo" task "main" 0 (get report no_report)
                ltac:(vm_compute; reflexivity)) as Hi.
  assert (rp_DerivedStatus (get report no_report) = StatusSecurityReviewed) as Hs by (vm_compute; reflexivity).
  split; [exact Hs|]. destruct (proj1 Hi Hs) as (t' & d & snap & cmds & reviews & Hv & _ & _ & _ & _ & _ & Hr).
  exists t', d, snap, cmds, reviews. exact (conj Hv Hr).
Defined.

Definition io : RunIO := {|
  io_MkdirAll := None; io_stamp := "20260101"; io_CreateTemp := Ok; io_Run := fun _ => Exited 0; io_now := 0; io_OpenFile := None;
  io_Write := Wrote |}.
Definition run := RunNamedCommand repo "/repo" task "target" "main" io journal.
(** The run as the records of [json] keep it: without its log. *)
#[local] Instance exact_json : RepoJSON := {|
  decode_task := decode_task; decode_review := decode_review; review_tokens := review_tokens; marshal_report := marshal_report;
  decode_record := fun s => if s =s? "x" then Ok run.1.1 else decode_record s;
  marshal_record := fun c => "x"
|}.
Lemma run_recorded_witness : exists c file', RunNamedCommand repo "/repo" task "target" "main" io journal = (c, None, file') /\
  co_SpecSequence c = 1 /\ exists cmds, parse_records (split_on LF file') = Ok (cmds ++ [c]).
Proof.
  assert (exists cmds, parse_records (split_on LF journal) = Ok cmds) as [cmds Hc] by (eexists; vm_compute; reflexivity).
  set (out := RunNamedCommand repo "/repo" task "target" "main" io journal).
  exists out.1.1, out.2. split; [vm_compute; reflexivity|]. split; [vm_compute; reflexivity|]. exists cmds.
  refine (proj1 (proj2 (run_recorded repo "/repo" task "target" "main" io journal out.2 cmds out.1.1 _ Hc _ _))).
  - right. exists ("r" +:+ String LF ("t" +:+ String LF "h")). reflexivity.
  - vm_compute. reflexivity.
  - split_and!; [vm_compute; reflexivity..|discriminate].
Defined.

Lemma snapshot_binds_witness : exists snap, CurrentSnapshot repo "/repo" "main" (Some task) = Ok snap /\
  ((exists head paths, git repo ["rev-parse"; "HEAD"] = Ok head /\ workspace_paths repo = Ok paths) \/
   exists x y, x <> y /\ sha256_hex x = sha256_hex y).
Proof.
  assert (exists snap, CurrentSnapshot repo "/repo" "main" (Some task) = Ok snap) as [snap Hs] by (eexists; vm_compute; reflexivity).
  exists snap. split; [exact Hs|].
  assert (forall s, String.length (sha256_hex s) = 64%nat) as Hlen by (intros s; vm_compute; reflexivity).
  assert (forall t t' s, marshal_task t = Ok s -> marshal_task t' = Ok s -> t = t') as Hinj.
  { intros t t' s Ht Ht'. apply (inj encode), bits_inj. injection Ht as <-. injection Ht' as ->. reflexivity. }
  destruct (snapshot_binds Hlen Hinj repo repo "/repo" "/repo" "main" "main" task task snap snap Hs Hs eq_refl) as [(_ & head & paths & Hh & _ & Hp & _)|Hx].
  - left. exists head, paths. exact (conj Hh Hp).
  - right. exact Hx.
Defined.
End WorkflowWitness.
