(* ===== verification/Linter.v ===== *)
(** The policy linter: [internal/policy/linter.go].

    The text of an error of regexp, path/filepath or the zone database is an
    argument, as whether there is one is. *)
From stdpp Require Import base strings gmap list sorting.
From Stdlib Require Import ZArith Lia Ascii.
From S2P Require Import Prelude GoStrings GoLib GoPath PolicyTypes.
#[local] Open Scope Z_scope.

Definition Severity := string.
Definition SeverityError : Severity := "error".
Definition SeverityWarning : Severity := "warning".
Definition SeverityInfo : Severity := "info".
Definition ViolationType := string.
Definition ViolationTypeError : ViolationType := "error".
Definition ViolationTypeWarning : ViolationType := "warning".
Definition ViolationTypeInfo : ViolationType := "info".
Definition ViolationTypeServer : ViolationType := "server".
Definition ViolationTypeChain : ViolationType := "chain".

Record LintViolation := { lv_Path : string; lv_Type : ViolationType; lv_Severity : Severity; lv_Field : string; lv_Message : string }.
Record LintSummary := { ls_Errors : Z; ls_Warnings : Z; ls_Info : Z; ls_Total : Z }.
Record LintResult := { lr_Policy : string; lr_FilePath : string; lr_Violations : list LintViolation; lr_Summary : LintSummary }.

(** The errors of [regexp.Compile], [filepath.Match] and [time.LoadLocation]. *)
Class LintLib := {
  regexp_Compile : string -> error;
  filepath_Match_error : string -> error;
  LoadLocation_error : string -> error
}.

Definition lint_error (path field msg : string) : LintViolation :=
  {| lv_Path := path; lv_Type := ViolationTypeError; lv_Severity := SeverityError; lv_Field := field; lv_Message := msg |}.
Definition lint_warning (path field msg : string) : LintViolation :=
  {| lv_Path := path; lv_Type := ViolationTypeWarning; lv_Severity := SeverityWarning; lv_Field := field; lv_Message := msg |}.
(** [if b { append }] *)
Definition report (b : bool) (v : LintViolation) : list LintViolation := if b then [v] else [].
Definition at_index (name : string) (i : Z) : string := name +:+ "[" +:+ Itoa i +:+ "]".
(** [for i, x := range l] *)
Fixpoint each_at {A} (f : Z -> A -> list LintViolation) (i : Z) (l : list A) : list LintViolation :=
  match l with [] => [] | x :: l => f i x ++ each_at f (i + 1) l end.

Definition isValidAction (a : Action) : bool := str_in a [ActionAllow; ActionDeny; ActionRequireApproval; ActionRedactThenAllow].
(** [time.Parse("15:04", t)]: an hour of one or two digits, two digits of minute. *)
Definition digits_below (max : Z) (s : string) : bool :=
  match parse_digits 0 s with Some n => n <? max | None => false end.
Definition isValidTimeFormat (t : string) : bool :=
  match cut ":" t with
  | Some (h, m) => ((String.length h =? 1)%nat || (String.length h =? 2)%nat) && digits_below 24 h &&
                   (String.length m =? 2)%nat && digits_below 60 m
  | None => false
  end.

Definition knownRuleTypes : list string :=
  ["deny_path"; "allow_path"; "deny_command_pattern_composite"; "deny_command_pattern"; "allow_command_pattern";
   "deny_command_keyword"; "deny_query_pattern"; "allow_query_pattern"; "deny_recipient_domain"; "allow_recipient_domain";
   "allow_recipient"; "allow_resource_owner"; "require_path_literal"; "allow_path_slot"; "allow_destination";
   "allow_working_directory"; "deny_secret"; "allow_application"; "allow_skill"; "deny_permission_bypass"; "allow_activation";
   "lineage_require"; "allowed_repos"; "max_file_size"; "max_result_rows"; "max_export_rows"; "require_approval_always"].

Section lint.
Context `{GoUnicode, GoFmt, LintLib}.

Definition isValidDay (s : string) : bool :=
  str_in (ToLower s) ["monday"; "tuesday"; "wednesday"; "thursday"; "friday"; "saturday"; "sunday"].

(** The brackets open after a pattern, or the error; [first] says whether its
    byte is the pattern's first. *)
Fixpoint brackets (first : bool) (stack : Z) (pattern : string) : result Z :=
  match pattern with
  | "" => Ok stack
  | String c rest =>
      if Ascii.eqb c "[" then
        match rest with
        | String d rest' => if Ascii.eqb d "!" then brackets false stack rest' else brackets false (stack + 1) rest
        | "" => Ok (stack + 1)
        end
      else if Ascii.eqb c "]" then
        if (stack =? 0) && negb first then Err "unmatched ']' in glob pattern" else brackets false (stack - 1) rest
      else brackets false stack rest
  end.
Definition globValidation (pattern : string) : error :=
  if pattern =s? "" then None
  else match brackets true 0 pattern with
  | Err err => Some err
  | Ok stack => if 0 <? stack then Some "unclosed '[ ... ]' in glob pattern" else filepath_Match_error pattern
  end.

Definition checkRegex (path pattern field : string) : list LintViolation :=
  if pattern =s? "" then []
  else match regexp_Compile pattern with
  | Some err => [lint_error path field ("invalid regex '" +:+ pattern +:+ "': " +:+ err)]
  | None => []
  end.
Definition checkGlob (path field pattern label : string) : list LintViolation :=
  if pattern =s? "" then []
  else match globValidation pattern with
  | Some err => [lint_warning field label ("suspicious glob pattern '" +:+ pattern +:+ "': " +:+ err)]
  | None => []
  end.

Definition none {A} (l : list A) : bool := (length l =? 0)%nat.
Definition is_type (rule : ArgRule) (types : list string) : bool := str_in (r_Type rule) types.
(** The types that warn, in these words, of having no patterns. *)
Definition pattern_types : list string :=
  ["allow_recipient"; "allow_resource_owner"; "allow_path_slot"; "allow_destination"; "allow_working_directory"; "allow_application";
   "allow_skill"].
Definition checkRule (path : string) (rule : ArgRule) : list LintViolation :=
  let type := r_Type rule in
  let no_patterns := lint_warning path "patterns" ("rule type '" +:+ type +:+ "' has no patterns") in
  if type =s? "" then [lint_error path "type" "rule type is empty"]
  else
    report (negb (str_in type knownRuleTypes)) (lint_warning path "type" ("unknown rule type '" +:+ type +:+ "' (will never match)")) ++
    (if is_type rule ["deny_path"; "allow_path"] then
       report (none (r_Patterns rule)) no_patterns ++
       each_at (fun pi pat => checkGlob path (path +:+ at_index ".patterns" pi) pat "path pattern") 0 (r_Patterns rule)
     else []) ++
    (if is_type rule ["deny_command_pattern"; "allow_command_pattern"; "deny_query_pattern"; "allow_query_pattern"] then
       report (none (r_Patterns rule)) no_patterns ++
       each_at (fun pi pat => checkRegex (path +:+ at_index ".patterns" pi) pat "pattern") 0 (r_Patterns rule)
     else []) ++
    report (is_type rule ["deny_command_keyword"] && none (r_Keywords rule))
      (lint_warning path "keywords" "'deny_command_keyword' rule has no keywords") ++
    report (is_type rule ["deny_recipient_domain"; "allow_recipient_domain"] && none (r_Domains rule))
      (lint_warning path "domains" ("rule type '" +:+ type +:+ "' has no domains")) ++
    report (is_type rule pattern_types && none (r_Patterns rule)) no_patterns ++
    report (is_type rule ["allow_activation"] && none (r_Patterns rule) && none (r_Domains rule))
      (lint_warning path "patterns" "rule type 'allow_activation' has no patterns or domains") ++
    report (is_type rule ["allowed_repos"] && none (r_Repos rule)) (lint_warning path "repos" "'allowed_repos' rule has no repos") ++
    report (is_type rule ["max_file_size"] && (r_Bytes rule <=? 0)) (lint_error path "bytes" "'max_file_size' rule requires bytes > 0") ++
    report (is_type rule ["max_result_rows"; "max_export_rows"] && (r_Rows rule <=? 0))
      (lint_error path "rows" ("'" +:+ type +:+ "' rule requires rows > 0")).

Definition lint_tool (path : string) (j : Z) (tool : ToolRule) : list LintViolation :=
  report (t_Name tool =s? "") (lint_error (path +:+ at_index ".tools" j) "name" "tool name is empty") ++
  each_at (fun k rule => checkRule (path +:+ ".tools[" +:+ fmt_q (t_Name tool) +:+ at_index "].rules" k) rule) 0 (t_Rules tool).
Definition lint_server (i : Z) (srv : Server) : list LintViolation :=
  let path := at_index "servers" i in
  (if s_Name srv =s? "" then
     [{| lv_Path := path; lv_Type := ViolationTypeInfo; lv_Severity := SeverityError; lv_Field := "name";
         lv_Message := "server name is empty" |}]
   else [{| lv_Path := path; lv_Type := ViolationTypeServer; lv_Severity := SeverityInfo; lv_Field := "name";
            lv_Message := "server '" +:+ s_Name srv +:+ "'" |}]) ++
  each_at (lint_tool path) 0 (s_Tools srv).

Definition lint_chain (i : Z) (chain : ChainRule) : list LintViolation :=
  let path := at_index "tool_chains" i in
  (if cr_Name chain =s? "" then [lint_error path "name" "chain rule name is empty"]
   else [{| lv_Path := path; lv_Type := ViolationTypeChain; lv_Severity := SeverityInfo; lv_Field := "name";
            lv_Message := "chain '" +:+ cr_Name chain +:+ "'" |}]) ++
  report ((cr_Action chain <>s? "") && negb (isValidAction (cr_Action chain)))
    (lint_error (path +:+ ".action") "action"
       ("invalid action '" +:+ cr_Action chain +:+ "' (must be allow/deny/require_approval)")) ++
  each_at (fun si src => checkRegex (path +:+ at_index ".sources" si +:+ ".tool_pattern") (cm_ToolPattern src) "tool_pattern")
    0 (cr_Sources chain) ++
  each_at (fun si snk => checkRegex (path +:+ at_index ".sinks" si +:+ ".tool_pattern") (cm_ToolPattern snk) "tool_pattern")
    0 (cr_Sinks chain).

(** [knownTools]: the tools of each named server, the last of a name winning. *)
Definition known_tools (p : Policy) : gmap string (gset string) :=
  foldl (fun m srv => if s_Name srv =s? "" then m
                      else <[s_Name srv := list_to_set (List.filter (fun n => n <>s? "") (t_Name <$> s_Tools srv))]> m) ∅ (p_Servers p).
Definition lint_allowed_server (known : gmap string (gset string)) (id : Identity) (path : string) (_ : Z) (srvName : string)
    : list LintViolation :=
  report ((srvName <>s? "") && negb (bool_decide (is_Some (known !! srvName))))
    (lint_warning (path +:+ ".allowed_servers") "allowed_servers"
       ("identity '" +:+ id_Name id +:+ "' references unknown server: " +:+ srvName)).
Definition lint_allowed_tool (known : gmap string (gset string)) (id : Identity) (path : string) (ti : Z) (toolFQ : string)
    : list LintViolation :=
  let path := path +:+ at_index ".allowed_tools" ti in
  match cut "/" toolFQ with
  | None => [lint_error path "allowed_tools" ("identity tool must be 'server/tool' format, got: " +:+ toolFQ)]
  | Some (srvName, toolName) =>
      match known !! srvName with
      | None => [lint_warning path "allowed_tools"
                   ("identity '" +:+ id_Name id +:+ "' references unknown server '" +:+ srvName +:+ "' in tool '" +:+ toolName +:+ "'")]
      | Some tools =>
          report (bool_decide (toolName ∉ tools))
            (lint_warning path "allowed_tools"
               ("identity '" +:+ id_Name id +:+ "' references unknown tool '" +:+ toolName +:+ "' on server '" +:+ srvName +:+ "'"))
      end
  end.
(** The identities from position [i] on, those before having the names [seen]. *)
Fixpoint lint_identities (known : gmap string (gset string)) (i : Z) (seen : list string) (ids : list Identity) : list LintViolation :=
  match ids with
  | [] => []
  | id :: ids =>
      let path := at_index "identities" i in
      if id_Name id =s? "" then lint_error path "name" "identity name is empty" :: lint_identities known (i + 1) seen ids
      else report (str_in (id_Name id) seen) (lint_error path "name" ("duplicate identity name: " +:+ id_Name id)) ++
           each_at (lint_allowed_server known id path) 0 (id_AllowedServers id) ++
           each_at (lint_allowed_tool known id path) 0 (id_AllowedTools id) ++
           lint_identities known (i + 1) (id_Name id :: seen) ids
  end.

Definition lint_day (path field : string) (di : Z) (day : string) : list LintViolation :=
  report (negb (isValidDay day))
    (lint_error (path +:+ at_index ("." +:+ field) di) field ("invalid day '" +:+ day +:+ "' (expected monday-sunday)")).
Definition lint_window (path : string) (wi : Z) (win : TimeWindow) : list LintViolation :=
  let wp := path +:+ at_index ".allowed_hours" wi in
  let bad_time field t := lint_error (wp +:+ "." +:+ field) field ("invalid time format '" +:+ t +:+ "' (expected HH:MM)") in
  report (negb (isValidTimeFormat (tw_Start win))) (bad_time "start" (tw_Start win)) ++
  report (negb (isValidTimeFormat (tw_End win))) (bad_time "end" (tw_End win)) ++
  (if tw_Timezone win <>s? "" then
     match LoadLocation_error (tw_Timezone win) with
     | Some err => [lint_error (wp +:+ ".timezone") "timezone" ("invalid IANA timezone '" +:+ tw_Timezone win +:+ "': " +:+ err)]
     | None => []
     end
   else []) ++
  each_at (lint_day wp "days") 0 (tw_Days win).
Definition lint_restriction (i : Z) (tr : TimeRestriction) : list LintViolation :=
  let path := at_index "time_restrictions" i in
  report (tx_Name tr =s? "") (lint_error path "name" "time_restriction name is empty") ++
  each_at (fun ti tool => checkGlob path (at_index "tools" ti) tool "tools glob") 0 (tx_Tools tr) ++
  each_at (lint_window path) 0 (tx_AllowedHours tr) ++
  each_at (lint_day path "denied_days") 0 (tx_DeniedDays tr) ++
  report ((tx_OutsideAction tr <>s? "") && negb (isValidAction (tx_OutsideAction tr)))
    (lint_error (path +:+ ".outside_action") "outside_action" ("invalid outside_action '" +:+ tx_OutsideAction tr +:+ "'")).

Definition lint_redaction (rc : RedactionConfig) : list LintViolation :=
  each_at (fun i pat => checkRegex (at_index "redaction.patterns" i) (rp_Regex pat) "regex") 0 (rc_Patterns rc) ++
  each_at (fun i pat => checkRegex (at_index "redaction.output_patterns" i) (rp_Regex pat) "regex") 0 (rc_OutputPatterns rc) ++
  each_at (fun i file => checkGlob "redaction" (at_index "sensitive_files" i) file "sensitive_files glob") 0 (rc_SensitiveFiles rc).
Definition lint_setting (field : string) (v : Z) : list LintViolation :=
  report (v <? 0) (lint_error ("settings." +:+ field) field (field +:+ " must be non-negative")).
Definition lint_settings (s : Settings) : list LintViolation :=
  lint_setting "max_argument_size_bytes" (st_MaxArgumentSizeBytes s) ++
  lint_setting "max_output_size_bytes" (st_MaxOutputSizeBytes s) ++
  lint_setting "session_max_tools" (st_SessionMaxTools s) ++
  lint_setting "max_spawn_depth" (st_MaxSpawnDepth s) ++
  lint_setting "approval_timeout_seconds" (st_ApprovalTimeoutSecs s) ++
  report (st_ChainWindowSize s <? 1)
    (lint_error "settings.chain_window_size" "chain_window_size" "chain_window_size must be at least 1").

Definition violations (p : Policy) : list LintViolation :=
  each_at lint_server 0 (p_Servers p) ++
  each_at lint_chain 0 (p_ToolChains p) ++
  lint_identities (known_tools p) 0 [] (p_Identities p) ++
  each_at lint_restriction 0 (p_TimeRestrictions p) ++
  lint_redaction (p_Redaction p) ++
  lint_settings (p_Settings p).

(** [bySeverity], which gives 0 for a key it does not have. *)
Definition bySeverity (s : Severity) : Z := if s =s? SeverityWarning then 1 else if s =s? SeverityInfo then 2 else 0.
(** The inner loop: [x] at position [i], against what follows; the element left
    at [i] and the others. *)
Fixpoint exchange (x : LintViolation) (l : list LintViolation) : LintViolation * list LintViolation :=
  match l with
  | [] => (x, [])
  | y :: l =>
      if bySeverity (lv_Severity y) <? bySeverity (lv_Severity x) then let '(m, rest) := exchange y l in (m, x :: rest)
      else let '(m, rest) := exchange x l in (m, y :: rest)
  end.
Fixpoint exchange_sort (n : nat) (l : list LintViolation) : list LintViolation :=
  match n, l with
  | S n, x :: l => let '(m, rest) := exchange x l in m :: exchange_sort n rest
  | _, _ => l
  end.
Definition sortViolations (l : list LintViolation) : list LintViolation := exchange_sort (length l) l.

Definition count_severity (s : Severity) (l : list LintViolation) : Z :=
  Z.of_nat (length (List.filter (fun v => lv_Severity v =s? s) l)).
Definition summarize (l : list LintViolation) : LintSummary := {|
  ls_Errors := count_severity SeverityError l; ls_Warnings := count_severity SeverityWarning l;
  ls_Info := count_severity SeverityInfo l; ls_Total := Z.of_nat (length l) |}.
Definition Lint (p : Policy) : LintResult :=
  let l := sortViolations (violations p) in
  {| lr_Policy := p_Description p; lr_FilePath := p_Version p; lr_Violations := l; lr_Summary := summarize l |}.

(** ** Output *)

Definition line (s : string) : string := s +:+ String LF "".
Definition violation_text (v : LintViolation) : string :=
  let prefix := if lv_Severity v =s? SeverityError then "[ERROR] " else if lv_Severity v =s? SeverityWarning then "[WARN]  " else "[INFO]  " in
  line (prefix +:+ lv_Message v) +:+ line ("        path=" +:+ lv_Path v +:+ "  field=" +:+ lv_Field v).
Definition ToText (r : LintResult) : string :=
  let s := lr_Summary r in
  (if lr_Policy r <>s? "" then line ("Policy: " +:+ lr_Policy r) else "") +:+
  (if lr_FilePath r <>s? "" then line ("File: " +:+ lr_FilePath r) else "") +:+
  (if ls_Total s =? 0 then line "No issues found."
   else
     (if 0 <? ls_Errors s then
        line (line ("ERRORS: " +:+ Itoa (ls_Errors s) +:+ "  WARNINGS: " +:+ Itoa (ls_Warnings s) +:+ "  INFO: " +:+ Itoa (ls_Info s)))
      else line (line ("Warnings: " +:+ Itoa (ls_Warnings s) +:+ "  Info: " +:+ Itoa (ls_Info s)))) +:+
     foldr (fun v s => violation_text v +:+ s) "" (lr_Violations r)).
End lint.

(** ** [cmd/policy-lint/main.go] *)

Record LintFlags := { lf_strict : bool; lf_noInfo : bool; lf_noWarn : bool }.
Definition set_lint (r : LintResult) (path : string) (l : list LintViolation) (s : LintSummary) : LintResult :=
  {| lr_Policy := lr_Policy r; lr_FilePath := path; lr_Violations := l; lr_Summary := s |}.
(** What the flags leave of the result of [path]. *)
Definition filter_lint (fl : LintFlags) (path : string) (r : LintResult) : LintResult :=
  let r := set_lint r path (lr_Violations r) (lr_Summary r) in
  let r := if lf_noInfo fl then
             let l := List.filter (fun v => lv_Severity v <>s? SeverityInfo) (lr_Violations r) in
             set_lint r path l {| ls_Errors := ls_Errors (lr_Summary r); ls_Warnings := ls_Warnings (lr_Summary r); ls_Info := 0;
                                  ls_Total := Z.of_nat (length l) |}
           else r in
  if lf_noWarn fl then
    let l := List.filter (fun v => (lv_Severity v <>s? SeverityWarning) && (lv_Severity v <>s? SeverityInfo)) (lr_Violations r) in
    set_lint r path l {| ls_Errors := ls_Errors (lr_Summary r); ls_Warnings := 0; ls_Info := 0; ls_Total := Z.of_nat (length l) |}
  else r.
Definition lint_exit (fl : LintFlags) (r : LintResult) : Z :=
  let s := lr_Summary r in
  if 0 <? ls_Errors s then 1
  else if lf_strict fl && ((0 <? ls_Warnings s) || (0 <? ls_Errors s)) then 1 else 0.
