(* ===== verification/LinterSpec.v ===== *)
(** What a clean lint says of a policy, and that the findings are listed by
    severity and counted. *)
From stdpp Require Import base strings gmap list sorting.
From Stdlib Require Import ZArith Lia Ascii.
From S2P Require Import Prelude GoStrings GoLib GoPath PolicyTypes Slots Rules Linter.
#[local] Open Scope Z_scope.

(** ** The order of the findings *)

Definition milder (v w : LintViolation) : Prop := bySeverity (lv_Severity v) <= bySeverity (lv_Severity w).

Lemma exchange_spec x l : let '(m, rest) := exchange x l in
  m :: rest ≡ₚ x :: l /\ milder m x /\ Forall (milder m) l.
Proof.
  revert x. induction l as [|y l IH]; intros x; cbn [exchange].
  { split_and!; [done|unfold milder; lia|constructor]. }
  unfold milder in *. destruct (_ <? _) eqn:E; bools.
  - specialize (IH y). destruct (exchange y l) as [m rest]. destruct IH as (P & Hm & Hf). split_and!; [|lia|by constructor].
    etrans; [apply Permutation_swap|]. by rewrite P.
  - specialize (IH x). destruct (exchange x l) as [m rest]. destruct IH as (P & Hm & Hf). split_and!; [|done|constructor; [lia|done]].
    etrans; [apply Permutation_swap|]. rewrite P. apply Permutation_swap.
Qed.
Lemma exchange_sort_spec n l : (length l <= n)%nat -> exchange_sort n l ≡ₚ l /\ StronglySorted milder (exchange_sort n l).
Proof.
  revert l. induction n as [|n IH]; intros [|x l] Hl; cbn [exchange_sort length] in *; [by split; [|apply SSorted_nil]|lia|by split; [|apply SSorted_nil]|].
  pose proof (exchange_spec x l) as He. destruct (exchange x l) as [m rest]. destruct He as (P & Hm & Hf).
  assert (length rest = length l) as Elen by (apply Permutation_length in P; cbn in P; lia).
  destruct (IH rest ltac:(lia)) as [Pr Hs]. split; [by rewrite Pr|]. constructor; [done|].
  rewrite Pr. assert (Forall (milder m) (m :: rest)) as Hall by (rewrite P; by constructor). by inversion Hall.
Qed.
Lemma count_perm s l l' : l ≡ₚ l' -> count_severity s l = count_severity s l'.
Proof.
  unfold count_severity. intros P. f_equal. induction P as [|v l l' _ IH|v w l|l l' l'' _ IH _ IH']; cbn.
  - done.
  - destruct (lv_Severity v =s? s); cbn; by rewrite IH.
  - by destruct (lv_Severity v =s? s), (lv_Severity w =s? s).
  - by rewrite IH.
Qed.
(** The findings of a policy are listed errors first, then warnings, then the
    rest, each of them once, and the summary counts them. *)
Theorem sortViolations_spec (l : list LintViolation) :
  sortViolations l ≡ₚ l /\ StronglySorted milder (sortViolations l) /\
  summarize (sortViolations l) = summarize l.
Proof.
  destruct (exchange_sort_spec (length l) l) as [P Hs]; [done|]. split_and!; [done..|]. unfold sortViolations in *.
  unfold summarize. by rewrite !(count_perm _ _ _ P), (Permutation_length P).
Qed.

(** ** Clean findings *)

(** Nothing above an information. *)
Definition calm (l : list LintViolation) : Prop := Forall (fun v => lv_Severity v = SeverityInfo) l.
Lemma calm_app l l' : calm (l ++ l') <-> calm l /\ calm l'.
Proof. apply Forall_app. Qed.
Lemma calm_report b v : lv_Severity v <> SeverityInfo -> calm (report b v) <-> b = false.
Proof. intros Hv. destruct b; cbn; [|by split; [|constructor]]. split; [by inversion 1|done]. Qed.
Lemma calm_each_at {A} (f : Z -> A -> list LintViolation) (P : A -> Prop) i l :
  (forall i x, calm (f i x) <-> P x) -> calm (each_at f i l) <-> Forall P l.
Proof.
  intros Hf. revert i. induction l as [|x l IH]; intros i; cbn [each_at]; [by split; constructor|].
  by rewrite calm_app, Hf, IH, Forall_cons.
Qed.
Lemma calm_nil : calm [] <-> True.
Proof. by split; [|constructor]. Qed.
Lemma calm_one v : lv_Severity v <> SeverityInfo -> calm [v] <-> False.
Proof. intros Hv. split; [by inversion 1|done]. Qed.
Lemma none_false {A} (l : list A) : none l = false <-> l <> [].
Proof. by destruct l. Qed.

Section clean.
Context `{GoUnicode, GoFmt, LintLib}.

Definition regex_ok (pattern : string) : Prop := pattern = "" \/ regexp_Compile pattern = None.
Definition glob_ok (pattern : string) : Prop := globValidation pattern = None.
Record rule_clean (r : ArgRule) : Prop := {
  lc_known : r_Type r ∈ knownRuleTypes;
  lc_paths : r_Type r ∈ ["deny_path"; "allow_path"] -> r_Patterns r <> [] /\ Forall glob_ok (r_Patterns r);
  lc_regexes : r_Type r ∈ ["deny_command_pattern"; "allow_command_pattern"; "deny_query_pattern"; "allow_query_pattern"] ->
    r_Patterns r <> [] /\ Forall regex_ok (r_Patterns r);
  lc_keywords : r_Type r = "deny_command_keyword" -> r_Keywords r <> [];
  lc_domains : r_Type r ∈ ["deny_recipient_domain"; "allow_recipient_domain"] -> r_Domains r <> [];
  lc_patterns : r_Type r ∈ pattern_types -> r_Patterns r <> [];
  lc_activation : r_Type r = "allow_activation" -> r_Patterns r <> [] \/ r_Domains r <> [];
  lc_repos : r_Type r = "allowed_repos" -> r_Repos r <> [];
  lc_bytes : r_Type r = "max_file_size" -> 0 < r_Bytes r;
  lc_rows : r_Type r ∈ ["max_result_rows"; "max_export_rows"] -> 0 < r_Rows r
}.

Lemma calm_regex path pattern field : calm (checkRegex path pattern field) <-> regex_ok pattern.
Proof.
  unfold checkRegex, regex_ok. destruct (pattern =s? "") eqn:E; bools; [rewrite calm_nil; tauto|].
  destruct (regexp_Compile pattern); [rewrite calm_one by done; naive_solver|rewrite calm_nil; tauto].
Qed.
Lemma calm_glob path field pattern label : calm (checkGlob path field pattern label) <-> glob_ok pattern.
Proof.
  unfold checkGlob, glob_ok. destruct (pattern =s? "") eqn:E; bools; [rewrite calm_nil; by split|].
  destruct (globValidation pattern); [rewrite calm_one by done; naive_solver|rewrite calm_nil; tauto].
Qed.
Lemma is_type_elem r types : is_type r types = true <-> r_Type r ∈ types.
Proof. unfold is_type. by rewrite str_in_In, list_elem_of_In. Qed.
Lemma is_type_and r types b : is_type r types && b = false <-> (r_Type r ∈ types -> b = false).
Proof. rewrite <- is_type_elem. destruct (is_type r types), b; naive_solver. Qed.
Lemma calm_if r types l : calm (if is_type r types then l else []) <-> (r_Type r ∈ types -> calm l).
Proof. rewrite <- is_type_elem. destruct (is_type r types); [tauto|rewrite calm_nil; naive_solver]. Qed.
Lemma calm_rule path r : calm (checkRule path r) <-> rule_clean r.
Proof.
  unfold checkRule. destruct (r_Type r =s? "") eqn:E; bools.
  { rewrite calm_one by done. split; [done|]. intros [Hk]. rewrite E, list_elem_of_In, <- str_in_In in Hk. by vm_compute in Hk. }
  rewrite !calm_app, !calm_if, !calm_app, !calm_report by done.
  rewrite (calm_each_at _ glob_ok) by (intros; apply calm_glob). rewrite (calm_each_at _ regex_ok) by (intros; apply calm_regex).
  rewrite <- andb_assoc, !is_type_and, andb_false_iff, !none_false, negb_false_iff, str_in_In, <- list_elem_of_In, !Z.leb_gt.
  setoid_rewrite list_elem_of_singleton.
  split; [intros (? & ? & ? & ? & ? & ? & ? & ? & ? & ?); by constructor|intros []; by split_and!].
Qed.

Definition action_clean (a : Action) : Prop := a = "" \/ a ∈ [ActionAllow; ActionDeny; ActionRequireApproval; ActionRedactThenAllow].
Definition server_clean (srv : Server) : Prop :=
  s_Name srv <> "" /\ Forall (fun tool => t_Name tool <> "" /\ Forall rule_clean (t_Rules tool)) (s_Tools srv).
Definition chain_clean (c : ChainRule) : Prop :=
  cr_Name c <> "" /\ action_clean (cr_Action c) /\ Forall (fun m => regex_ok (cm_ToolPattern m)) (cr_Sources c) /\
  Forall (fun m => regex_ok (cm_ToolPattern m)) (cr_Sinks c).
(** The servers and tools the identity names are declared. *)
Definition identity_clean (known : gmap string (gset string)) (id : Identity) : Prop :=
  Forall (fun srv => srv = "" \/ is_Some (known !! srv)) (id_AllowedServers id) /\
  Forall (fun fq => exists srv tool tools, cut "/" fq = Some (srv, tool) /\ known !! srv = Some tools /\ tool ∈ tools) (id_AllowedTools id).
Definition window_clean (w : TimeWindow) : Prop :=
  isValidTimeFormat (tw_Start w) = true /\ isValidTimeFormat (tw_End w) = true /\
  (tw_Timezone w = "" \/ LoadLocation_error (tw_Timezone w) = None) /\ Forall (fun day => isValidDay day = true) (tw_Days w).
Definition restriction_clean (tr : TimeRestriction) : Prop :=
  tx_Name tr <> "" /\ Forall glob_ok (tx_Tools tr) /\ Forall window_clean (tx_AllowedHours tr) /\
  Forall (fun day => isValidDay day = true) (tx_DeniedDays tr) /\ action_clean (tx_OutsideAction tr).
Definition settings_clean (s : Settings) : Prop :=
  0 <= st_MaxArgumentSizeBytes s /\ 0 <= st_MaxOutputSizeBytes s /\ 0 <= st_SessionMaxTools s /\ 0 <= st_MaxSpawnDepth s /\
  0 <= st_ApprovalTimeoutSecs s /\ 1 <= st_ChainWindowSize s.
Record lint_clean (p : Policy) : Prop := {
  cl_servers : Forall server_clean (p_Servers p);
  cl_chains : Forall chain_clean (p_ToolChains p);
  cl_identities : Forall (fun id => id_Name id <> "" /\ identity_clean (known_tools p) id) (p_Identities p);
  cl_identity_names : NoDup (id_Name <$> p_Identities p);
  cl_restrictions : Forall restriction_clean (p_TimeRestrictions p);
  cl_redaction : Forall (fun r => regex_ok (rp_Regex r)) (rc_Patterns (p_Redaction p)) /\
    Forall (fun r => regex_ok (rp_Regex r)) (rc_OutputPatterns (p_Redaction p)) /\ Forall glob_ok (rc_SensitiveFiles (p_Redaction p));
  cl_settings : settings_clean (p_Settings p)
}.

Lemma calm_action path field msg a :
  calm (report ((a <>s? "") && negb (isValidAction a)) (lint_error path field msg)) <-> action_clean a.
Proof.
  rewrite calm_report by done. unfold action_clean, isValidAction.
  rewrite andb_false_iff, str_neqb_false, negb_false_iff, str_in_In, <- list_elem_of_In. done.
Qed.
Lemma calm_server i srv : calm (lint_server i srv) <-> server_clean srv.
Proof.
  unfold lint_server, server_clean. rewrite calm_app.
  rewrite (calm_each_at _ (fun tool => t_Name tool <> "" /\ Forall rule_clean (t_Rules tool))).
  - destruct (s_Name srv =s? "") eqn:E; bools; [rewrite calm_one by done; naive_solver|].
    split; intros [? ?]; (split; [|done]); [done|by repeat constructor].
  - intros j tool. unfold lint_tool. rewrite calm_app, calm_report, str_eqb_false by done.
    by rewrite (calm_each_at _ rule_clean) by (intros; apply calm_rule).
Qed.
Lemma calm_chain i c : calm (lint_chain i c) <-> chain_clean c.
Proof.
  unfold lint_chain, chain_clean. rewrite !calm_app, calm_action.
  rewrite !(calm_each_at _ (fun m => regex_ok (cm_ToolPattern m))) by (intros; apply calm_regex).
  destruct (cr_Name c =s? "") eqn:E; bools; [rewrite calm_one by done; naive_solver|].
  split; intros [? ?]; (split; [|done]); [done|by repeat constructor].
Qed.
Lemma calm_allowed_server known id path i srv :
  calm (lint_allowed_server known id path i srv) <-> srv = "" \/ is_Some (known !! srv).
Proof.
  unfold lint_allowed_server. rewrite calm_report by done.
  by rewrite andb_false_iff, str_neqb_false, negb_false_iff, bool_decide_eq_true.
Qed.
Lemma calm_allowed_tool known id path i fq : calm (lint_allowed_tool known id path i fq) <->
  exists srv tool tools, cut "/" fq = Some (srv, tool) /\ known !! srv = Some tools /\ tool ∈ tools.
Proof.
  unfold lint_allowed_tool. destruct (cut "/" fq) as [[srv tool]|]; [|rewrite calm_one by done; split; [done|by intros (? & ? & ? & ? & _)]].
  destruct (known !! srv) as [tools|] eqn:Ek.
  - rewrite calm_report, bool_decide_eq_false by done. split.
    + intros Hin%dec_stable. by exists srv, tool, tools.
    + intros (srv' & tool' & tools' & [= <- <-] & Hk & Hin). rewrite Ek in Hk. injection Hk as <-. tauto.
  - rewrite calm_one by done. split; [done|]. intros (srv' & tool' & tools' & [= <- <-] & Hk & _). congruence.
Qed.
Lemma calm_identities known i seen ids : calm (lint_identities known i seen ids) <->
  Forall (fun id => id_Name id <> "" /\ identity_clean known id) ids /\ NoDup (id_Name <$> ids) /\
  (forall name, name ∈ id_Name <$> ids -> name ∉ seen).
Proof.
  revert i seen. induction ids as [|id ids IH]; intros i seen; cbn [lint_identities].
  { rewrite calm_nil. split; [intros _; split_and!; [done|constructor|by intros ? ?%not_elem_of_nil]|done]. }
  rewrite Forall_cons. csimpl. rewrite NoDup_cons. setoid_rewrite elem_of_cons.
  destruct (id_Name id =s? "") eqn:E; bools.
  - change (lint_error ?a ?b ?c :: ?l) with ([lint_error a b c] ++ l). rewrite calm_app, calm_one by done. tauto.
  - rewrite !calm_app, calm_report, IH by done.
    rewrite (calm_each_at _ (fun srv => srv = "" \/ is_Some (known !! srv))) by (intros; apply calm_allowed_server).
    rewrite (calm_each_at _ (fun fq => exists srv tool tools, cut "/" fq = Some (srv, tool) /\ known !! srv = Some tools /\ tool ∈ tools))
      by (intros; apply calm_allowed_tool).
    rewrite str_in_false, <- list_elem_of_In. unfold identity_clean. setoid_rewrite not_elem_of_cons. split.
    + intros (Hs & Ha & Ht & Hf & Hnd & Hn). split_and!; [done..| |done|].
      * intros Hin. by destruct (Hn _ Hin).
      * intros name [->|Hin]; [done|]. by apply Hn.
    + intros ((_ & Ha & Ht) & Hf) || intros (((_ & Ha & Ht) & Hf) & (Hni & Hnd) & Hn).
      split_and!; [apply Hn; by left|done..|]. intros name Hin. split; [by intros ->|]. apply Hn. by right.
Qed.
Lemma calm_day path field i day : calm (lint_day path field i day) <-> isValidDay day = true.
Proof. unfold lint_day. rewrite calm_report by done. by rewrite negb_false_iff. Qed.
Lemma calm_window path i w : calm (lint_window path i w) <-> window_clean w.
Proof.
  unfold lint_window, window_clean. rewrite !calm_app, !calm_report, !negb_false_iff by done.
  rewrite (calm_each_at _ (fun day => isValidDay day = true)) by (intros; apply calm_day).
  destruct (tw_Timezone w <>s? "") eqn:E; bools; [|rewrite calm_nil; tauto].
  destruct (LoadLocation_error (tw_Timezone w)); [rewrite calm_one by done; naive_solver|rewrite calm_nil; tauto].
Qed.
Lemma calm_restriction i tr : calm (lint_restriction i tr) <-> restriction_clean tr.
Proof.
  unfold lint_restriction, restriction_clean. rewrite !calm_app, calm_action, calm_report, str_eqb_false by done.
  rewrite (calm_each_at _ glob_ok) by (intros; apply calm_glob). rewrite (calm_each_at _ window_clean) by (intros; apply calm_window).
  by rewrite (calm_each_at _ (fun day => isValidDay day = true)) by (intros; apply calm_day).
Qed.
Lemma calm_setting field v : calm (lint_setting field v) <-> 0 <= v.
Proof. unfold lint_setting. rewrite calm_report by done. apply Z.ltb_ge. Qed.
Lemma calm_violations p : calm (violations p) <-> lint_clean p.
Proof.
  unfold violations, lint_redaction, lint_settings. rewrite !calm_app, !calm_setting, calm_report, Z.ltb_ge, calm_identities by done.
  rewrite (calm_each_at _ server_clean) by apply calm_server. rewrite (calm_each_at _ chain_clean) by apply calm_chain.
  rewrite (calm_each_at _ restriction_clean) by apply calm_restriction.
  rewrite !(calm_each_at _ (fun r => regex_ok (rp_Regex r))) by (intros; apply calm_regex).
  rewrite (calm_each_at _ glob_ok) by (intros; apply calm_glob). split.
  - intros (? & ? & (? & ? & _) & ? & (? & ? & ?) & ?). by constructor.
  - intros [? ? ? ? ? (? & ? & ?) (? & ? & ? & ? & ? & ?)]. split_and!; try done. intros ? _. apply not_elem_of_nil.
Qed.

Lemma count_zero s l : (0 <? count_severity s l) = false <-> Forall (fun v => lv_Severity v <> s) l.
Proof.
  unfold count_severity. rewrite Z.ltb_ge. induction l as [|v l IH]; cbn; [split; [constructor|lia]|].
  rewrite Forall_cons, <- IH. destruct (lv_Severity v =s? s) eqn:E; bools; cbn; [split; [lia|naive_solver]|tauto].
Qed.
(** The severities the linter gives. *)
Definition graded (l : list LintViolation) : Prop :=
  Forall (fun v => lv_Severity v ∈ [SeverityError; SeverityWarning; SeverityInfo]) l.
Lemma calm_graded l : graded l -> calm l <-> Forall (fun v => lv_Severity v <> SeverityError) l /\ Forall (fun v => lv_Severity v <> SeverityWarning) l.
Proof.
  intros Hg. unfold calm. rewrite <- Forall_and. split; intros Hl; (eapply Forall_impl; [apply Forall_and; split; [exact Hg|exact Hl]|]); cbn.
  - intros v [_ ->]. done.
  - intros v [Hin [He Hw]]. rewrite !elem_of_cons, elem_of_nil in Hin. tauto.
Qed.

Lemma graded_app l l' : graded l -> graded l' -> graded (l ++ l').
Proof. intros. by apply Forall_app. Qed.
Lemma graded_one v : lv_Severity v ∈ [SeverityError; SeverityWarning; SeverityInfo] -> graded [v].
Proof. intros. by constructor. Qed.
Lemma graded_each_at {A} (f : Z -> A -> list LintViolation) i l : (forall i x, graded (f i x)) -> graded (each_at f i l).
Proof. intros Hf. revert i. induction l as [|x l IH]; intros i; cbn [each_at]; [constructor|by apply graded_app]. Qed.
Ltac graded := repeat first
  [ apply graded_app | apply graded_each_at; intros | progress unfold report | case_match
  | apply graded_one; cbn; rewrite !elem_of_cons; tauto | by constructor ].
Lemma graded_identities known i seen ids : graded (lint_identities known i seen ids).
Proof.
  revert i seen. induction ids as [|id ids IH]; intros i seen; cbn [lint_identities]; [constructor|]. case_match.
  - change (lint_error ?a ?b ?c :: ?l) with ([lint_error a b c] ++ l). graded. apply IH.
  - unfold lint_allowed_server, lint_allowed_tool. graded. apply IH.
Qed.
Lemma graded_violations p : graded (violations p).
Proof.
  unfold violations, lint_server, lint_tool, checkRule, lint_chain, lint_restriction, lint_window, lint_day, lint_redaction, lint_settings,
    lint_setting, checkRegex, checkGlob.
  graded; apply graded_identities.
Qed.

(** The strict lint of a policy exits with 0 exactly when the policy is clean:
    what it names is declared, its patterns compile, its rules have what they
    need and their types are known ones, its actions, times and bounds are
    valid; and for every rule type the lint calls unknown, the engine passes
    whatever the call is. *)
Theorem Lint_strict_iff `{GoPatterns, GoArch} (p : Policy) (path : string) :
  (lint_exit {| lf_strict := true; lf_noInfo := false; lf_noWarn := false |}
     (filter_lint {| lf_strict := true; lf_noInfo := false; lf_noWarn := false |} path (Lint p)) = 0 <-> lint_clean p) /\
  (forall rule a tool, r_Type rule ∉ knownRuleTypes -> evaluateRule rule a tool = decision ActionAllow "rule passed").
Proof.
  split.
  - rewrite <- calm_violations, (calm_graded _ (graded_violations p)), <- !count_zero. unfold filter_lint, lint_exit, Lint, set_lint, sortViolations.
    cbn [lf_strict lf_noInfo lf_noWarn lr_Summary summarize ls_Errors ls_Warnings andb].
    rewrite !(count_perm _ _ _ (proj1 (exchange_sort_spec _ (violations p) (le_n _)))).
    destruct (0 <? count_severity SeverityError _), (0 <? count_severity SeverityWarning _); naive_solver.
  - intros rule a tool Hu. unfold evaluateRule, rule_case.
    assert (forall s, s ∈ knownRuleTypes -> (r_Type rule =s? s) = false) as Hn.
    { intros s Hs. apply str_eqb_false. by intros <-. }
    rewrite !Hn by (by apply list_elem_of_In, str_in_In; vm_compute). done.
Qed.
End clean.

(** A negated class is taken for an unmatched bracket. *)
Lemma negated_class_flagged `{LintLib} : globValidation "[!a]" = Some "unmatched ']' in glob pattern".
Proof. reflexivity. Qed.
