(* ===== verification/Reload.v ===== *)
(** Policy reloads and the launch of a proxy: [internal/policy/watcher.go],
    [Engine.Reload] and [SetReloadCommitter] of [internal/policy/engine.go],
    and the construction and reload part of [internal/proxy/proxy.go].

    The published policy is the one of the proxy's engine, with a watcher or
    without.  A [*Policy] is a value with the identity of its allocation.  The
    steps of reloads, of the registration, of calls and of the end of a kinetic
    stop are those between their locks: [runtimeMu] and the watcher's. *)
From stdpp Require Import base strings gmap list sorting.
From Stdlib Require Import ZArith Lia Ascii.
From S2P Require Import Prelude GoStrings GoLib Lineage LineageRegistry ActorContext.
From S2P Require Import PolicyTypes PolicyRegistry PolicyDefaults Slots Engine Ownership OwnershipGate Session Taint Redaction.
From S2P Require Import Ledger InstructionAuthority InstructionAuth Trajectory GoPath Capability CapabilityEval CallArgs Proxy.
From S2P Require Approval ServerIdentity.
#[local] Open Scope Z_scope.

(** ** Construction *)

(** The configuration of a proxy, as far as its policy surfaces and its launch
    identity go; [lc_Logger] is what [audit.MustLogger] opens. *)
Record LaunchConfig := {
  lc_SessionID : string;
  lc_ClientID : string;
  lc_ServerName : string;
  lc_ServerCommand : string;
  lc_ServerArgs : list string;
  lc_ServerURL : string;
  lc_Policy : option Policy;
  lc_Engine : option Engine;
  lc_VerifiedActor : option Context;
  lc_Logger : Logger;
  lc_ApprovalCLI : bool;
  lc_ApprovalDir : string;
  lc_CapabilityEval : bool;
  lc_TrajectoryAdvisor : bool;
  lc_ResolvedIdentity : option ServerIdentity.Resolved
}.
(** The proxy, the approval engine it holds, and the identity of the launched
    child, which nothing changes afterwards. *)
Record Runtime := { ru_proxy : Proxy; ru_approval : Approval.Engine }.
Record Launch := { la_resolved : option ServerIdentity.Resolved; la_shape : option attestationShape }.

Definition set_redactor (v : RedactionEngine) (p : Proxy) : Proxy := ltac:(with_field eta_Proxy px_redactor p v).
Definition set_engine (v : Engine) (p : Proxy) : Proxy := ltac:(with_field eta_Proxy px_engine p v).
Definition set_authorize (v : bool) (p : Proxy) : Proxy := ltac:(with_field eta_Proxy px_authorize p v).
Definition set_keys (v : gmap string string) (p : Proxy) : Proxy := ltac:(with_field eta_Proxy px_keys p v).
Definition zeroMetrics : ProxyMetrics := Build_ProxyMetrics 0 0 0 0 0 0 0 0.

Definition maybeTrajectoryAdvisor (enabled : bool) : option Advisor := if enabled then Some Trajectory.New else None.

Section reload.
Context `{GoUnicode, GoPatterns, GoReplace, GoArch, GoTime, GoFmt, GoJSON, GoCrypto, SnapshotJSON, CapJSON, EventJSON}.

Definition newCapabilityEvaluator (sessionID : string) (enabled : bool) : option ChainEvaluator :=
  if negb enabled then None else match NewChainEvaluator sessionID with Val c => Some c | Bad _ => None end.
Definition capEvalEnabled (cli : bool) (pol : option Policy) : bool :=
  cli || match pol with Some pol => st_CapabilityEval (p_Settings pol) | None => false end.

Definition syncCapabilityEvaluator (cli : bool) (pol : option Policy) (p : Proxy) : Proxy :=
  let enabled := capEvalEnabled cli pol in
  match px_capEval p with
  | None => if enabled then
              match newCapabilityEvaluator (ss_ID (px_session p)) true with
              | Some ev => set_capLastHash GenesisPrevHash (set_capEval (Some ev) p)
              | None => p
              end
            else p
  | Some _ => if negb enabled then set_capEval None p else p
  end.
Definition syncInstructionAuthorize (pol : option Policy) (p : Proxy) : Proxy :=
  match pol with
  | Some pol =>
      if st_InstructionAuthorityContinuity (p_Settings pol) then
        set_keys (decodeInstructionAuthorityKeys (st_InstructionAuthorityKeys (p_Settings pol))) (set_authorize true p)
      else set_keys ∅ (set_authorize false p)
  | None => set_keys ∅ (set_authorize false p)
  end.

Definition approvalTimeout (pol : Policy) : Z := seconds (st_ApprovalTimeoutSecs (p_Settings pol)).
(** The writes that [refreshPolicyRuntime] and [commitPolicyRuntime] share. *)
Definition install (cli : bool) (pol : Policy) (ru : Runtime) : Runtime :=
  let p := set_redactor (Redaction.NewEngine (p_Redaction pol)) (ru_proxy ru) in
  let p := syncInstructionAuthorize (Some pol) (syncCapabilityEvaluator cli (Some pol) p) in
  {| ru_proxy := set_audit (SetRedactionPatterns (px_audit p) (rc_Patterns (p_Redaction pol))) p;
     ru_approval := Approval.SetTimeout (ru_approval ru) (approvalTimeout pol) |}.
Definition refreshPolicyRuntime (cli : bool) (pol : option Policy) (ru : Runtime) : Runtime :=
  match pol with None => ru | Some pol => install cli pol ru end.

Definition ev_Message (v : string) (e : Event) : Event := ltac:(with_field eta_Event ae_Message e v).
Definition reloadEvent (cfg : Config) (pol : Policy) (p : Proxy) : Event :=
  ev_EventType "policy_reloaded" (ev_SessionID (ss_ID (px_session p)) (ev_AgentID (cf_ClientID cfg) (ev_Server (cf_ServerName cfg)
    (ev_Message "policy runtime surfaces reloaded"
    (ev_Reason ("default_action=" +:+ p_DefaultAction pol +:+ " approval_timeout_seconds=" +:+
                Itoa (st_ApprovalTimeoutSecs (p_Settings pol)) +:+ " redaction_patterns=" +:+
                Itoa (Z.of_nat (length (rc_Patterns (p_Redaction pol))))) zeroEvent))))).

(** [publish]: the engine, or its watcher, takes the policy and a registry of it. *)
Definition publish (pol : Policy) (ru : Runtime) : Runtime :=
  let e := px_engine (ru_proxy ru) in
  {| ru_proxy := set_engine {| e_policy := pol; e_registry := PolicyRegistry.NewRegistry pol; e_clientID := e_clientID e;
                               e_verified := e_verified e |} (ru_proxy ru);
     ru_approval := ru_approval ru |}.
(** What [commitPolicyRuntime] does once it has published, up to the unlock:
    the record [e] of the reload is logged, whatever comes of that. *)
Definition commit_surfaces (cli : bool) (pol : Policy) (e : Event) (now : Z) (w : WriteOut) (ru : Runtime) : Runtime :=
  let ru := install cli pol ru in
  let p := ru_proxy ru in
  {| ru_proxy := set_audit (Log (px_audit p) now e w).1 p; ru_approval := ru_approval ru |}.
(** After the unlock. *)
Definition forward_reload (e : Event) (ru : Runtime) : Runtime := {|
  ru_proxy := set_forwarded (px_forwarded (ru_proxy ru) ++ [e]) (ru_proxy ru); ru_approval := ru_approval ru |}.
Definition commitPolicyRuntime (cfg : Config) (cli : bool) (pol : option Policy) (now : Z) (w : WriteOut) (ru : Runtime) : Runtime :=
  match pol with
  | None => ru
  | Some pol =>
      let e := reloadEvent cfg pol (ru_proxy ru) in
      forward_reload e (commit_surfaces cli pol e now w (publish pol ru))
  end.

(** ** The launched identity *)

Definition prepareIdentity (h : ServerIdentity.Host) (c : LaunchConfig) (pol : Policy) : option ServerIdentity.Resolved :=
  match findServerByName pol (lc_ServerName c) with
  | None => None
  | Some srv =>
      match s_Attestation srv with
      | None => None
      | Some pin =>
          match lc_ResolvedIdentity c with
          | Some r => Some r
          | None =>
              if (lc_ServerURL c <>s? "") || (lc_ServerCommand c =s? "") then None
              else match ServerIdentity.ResolveStdioInvocation h (lc_ServerCommand c) (lc_ServerArgs c) (sa_EntryArgPositions pin) with
              | Ok r => Some r
              | Err _ => None
              end
          end
      end
  end.
Definition resolveLaunchedIdentity (h : ServerIdentity.Host) (c : LaunchConfig) (pol : Policy) : Launch := {|
  la_resolved := prepareIdentity h c pol;
  la_shape := match findServerByName pol (lc_ServerName c) with
              | Some srv =>
                  match s_Attestation srv with
                  | Some pin => Some {| sh_kind := sa_Kind pin; sh_entry := merge_sort Z.le (sa_EntryArgPositions pin) |}
                  | None => None
                  end
              | None => None
              end |}.

(** [New] and [NewWithTracing], up to [wirePolicyReload]. *)
Definition named (pid : Z) (c : LaunchConfig) : LaunchConfig := {|
  lc_SessionID := if lc_SessionID c =s? "" then "sess-" +:+ Itoa pid else lc_SessionID c;
  lc_ClientID := if lc_ClientID c =s? "" then "mcp-client" else lc_ClientID c;
  lc_ServerName := if lc_ServerName c =s? "" then lc_ServerCommand c else lc_ServerName c;
  lc_ServerCommand := lc_ServerCommand c; lc_ServerArgs := lc_ServerArgs c; lc_ServerURL := lc_ServerURL c;
  lc_Policy := Some (default DefaultPolicy (lc_Policy c)); lc_Engine := lc_Engine c; lc_VerifiedActor := lc_VerifiedActor c;
  lc_Logger := lc_Logger c; lc_ApprovalCLI := lc_ApprovalCLI c; lc_ApprovalDir := lc_ApprovalDir c;
  lc_CapabilityEval := lc_CapabilityEval c; lc_TrajectoryAdvisor := lc_TrajectoryAdvisor c;
  lc_ResolvedIdentity := lc_ResolvedIdentity c |}.
Definition configured_policy (c : LaunchConfig) : Policy := default DefaultPolicy (lc_Policy c).
Definition New (pid now : Z) (c : LaunchConfig) : Runtime :=
  let c := named pid c in
  let p := configured_policy c in
  let eng := default (Engine.NewEngine (Some p)) (lc_Engine c) in
  let eng := {| e_policy := e_policy eng; e_registry := e_registry eng; e_clientID := lc_ClientID c; e_verified := lc_VerifiedActor c |} in
  let cap := newCapabilityEvaluator (lc_SessionID c) (capEvalEnabled (lc_CapabilityEval c) (lc_Policy c)) in
  let proxy := {|
    px_engine := eng; px_redactor := Redaction.NewEngine (p_Redaction p); px_session := NewSession (lc_SessionID c) (lc_ClientID c) now;
    px_audit := SetRedactionPatterns (lc_Logger c) (rc_Patterns (p_Redaction p)); px_metrics := zeroMetrics;
    px_advisor := maybeTrajectoryAdvisor (lc_TrajectoryAdvisor c); px_authorize := false; px_keys := ∅; px_capEval := cap;
    px_capStepID := 0; px_capLastHash := match cap with Some _ => GenesisPrevHash | None => "" end; px_revoked := false;
    px_responses := []; px_forwarded := [] |} in
  {| ru_proxy := syncInstructionAuthorize (lc_Policy c) proxy;
     ru_approval := {| Approval.ap_dir := if lc_ApprovalCLI c then "" else lc_ApprovalDir c;
                       Approval.ap_timeout := approvalTimeout p; Approval.ap_cli := lc_ApprovalCLI c |} |}.
End reload.

(** ** Reloads and registration *)

(** A loaded policy; [g_id] is the identity of its allocation. *)
Record Gen := { g_id : nat; g_policy : Policy }.

(** [sync.RWMutex]: a writer first keeps out other writers and new readers, and
    then waits for the readers that are inside. *)
Record RWMutex := { rw_writer : option nat; rw_held : bool; rw_readers : gset nat }.
Definition unlocked : RWMutex := {| rw_writer := None; rw_held := false; rw_readers := ∅ |}.
Definition RLock (i : nat) (m : RWMutex) : option RWMutex :=
  match rw_writer m with
  | None => Some {| rw_writer := None; rw_held := rw_held m; rw_readers := {[i]} ∪ rw_readers m |}
  | Some _ => None
  end.
Definition RUnlock (i : nat) (m : RWMutex) : RWMutex := {|
  rw_writer := rw_writer m; rw_held := rw_held m; rw_readers := rw_readers m ∖ {[i]} |}.
Definition Lock_begin (i : nat) (m : RWMutex) : option RWMutex :=
  match rw_writer m with
  | None => Some {| rw_writer := Some i; rw_held := rw_held m; rw_readers := rw_readers m |}
  | Some _ => None
  end.
Definition Lock_end (m : RWMutex) : option RWMutex :=
  if decide (rw_readers m = ∅) then Some {| rw_writer := rw_writer m; rw_held := true; rw_readers := rw_readers m |} else None.
Definition Unlock (m : RWMutex) : RWMutex := {| rw_writer := None; rw_held := false; rw_readers := rw_readers m |}.

(** Where a goroutine is.  A reload: before [LoadFile] returns; with its policy;
    past the decision for the committer, with the event made; waiting for the
    readers; with [runtimeMu]; with the policy published; past the lock.  The
    registration of the committer: before; with the watcher's lock and the
    policy it found; also waiting for [runtimeMu].  A tools/call: before its
    barrier; inside it; with its snapshot; judged; waiting for the operator,
    past the barrier; answered.  The end of a kinetic stop: before and in its
    wait for [runtimeMu]. *)
Inductive Task :=
| Loading | Loaded (g : Gen) | Committing (g : Gen) (e : Event) | Announced (g : Gen) (e : Event) | Holding (g : Gen) (e : Event)
| Publishing (g : Gen) (e : Event) | Forwarding (e : Event)
| Registering | Installed (g : Gen) | Reconciling (g : Gen)
| Calling | Reading | Judging | Judged | Waiting | Answered
| Stopping | StopAnnounced
| Done.
(** [wo_id] identifies the published policy; [wo_mu] is who holds the watcher's
    (or the engine's) lock, and [wo_rw] is [runtimeMu].  The first task is the
    registration. *)
Record World := {
  wo_id : nat;
  wo_committer : bool;
  wo_runtime : Runtime;
  wo_mu : option nat;
  wo_rw : RWMutex;
  wo_tasks : list Task
}.
Definition eta_World (w : World) : World := {| wo_id := wo_id w; wo_committer := wo_committer w; wo_runtime := wo_runtime w;
  wo_mu := wo_mu w; wo_rw := wo_rw w; wo_tasks := wo_tasks w |}.
Definition set_committer (v : bool) (w : World) : World := ltac:(with_field eta_World wo_committer w v).
Definition set_mu (v : option nat) (w : World) : World := ltac:(with_field eta_World wo_mu w v).
Definition set_rw (v : RWMutex) (w : World) : World := ltac:(with_field eta_World wo_rw w v).
Definition add_task (t : Task) (w : World) : World := ltac:(with_field eta_World wo_tasks w (wo_tasks w ++ [t])).
Definition set_task (i : nat) (t : Task) (w : World) : World := ltac:(with_field eta_World wo_tasks w (<[i := t]> (wo_tasks w))).
Definition set_published (id : nat) (ru : Runtime) (w : World) : World := {|
  wo_id := id; wo_committer := wo_committer w; wo_runtime := ru; wo_mu := wo_mu w; wo_rw := wo_rw w; wo_tasks := wo_tasks w |}.
Abbreviation set_runtime ru w := (set_published (wo_id w) ru w).
(** The registration is part of the construction: calls come after it. *)
Definition registered (w : World) : Prop := wo_tasks w !! 0%nat = Some Done.

Section steps.
Context `{GoUnicode, GoPatterns, GoReplace, GoArch, GoTime, GoFmt, GoJSON, GoCrypto, SnapshotJSON, CapJSON, EventJSON}.
Context (cfg : Config) (cli : bool) (configured : Gen).

(** [reconcilePublishedRuntime] *)
Definition reconcilePublishedRuntime (g : Gen) (ru : Runtime) : Runtime :=
  if (g_id g =? g_id configured)%nat then ru else refreshPolicyRuntime cli (Some (g_policy g)) ru.

(** What a tools/call may do to the runtime: the surfaces that come from the
    policy stay. *)
Definition keeps_surfaces (ru ru' : Runtime) : Prop :=
  px_engine (ru_proxy ru') = px_engine (ru_proxy ru) /\
  px_redactor (ru_proxy ru') = px_redactor (ru_proxy ru) /\
  px_authorize (ru_proxy ru') = px_authorize (ru_proxy ru) /\
  px_keys (ru_proxy ru') = px_keys (ru_proxy ru) /\
  lg_patterns (px_audit (ru_proxy ru')) = lg_patterns (px_audit (ru_proxy ru)) /\
  (is_Some (px_capEval (ru_proxy ru')) <-> is_Some (px_capEval (ru_proxy ru))) /\
  ss_ID (px_session (ru_proxy ru')) = ss_ID (px_session (ru_proxy ru)) /\
  Approval.ap_timeout (ru_approval ru') = Approval.ap_timeout (ru_approval ru).

Abbreviation published w := (e_policy (px_engine (ru_proxy (wo_runtime w)))).
(** A step of one reload: it chooses the committer, and publishes, under the
    watcher's lock, and commits under [runtimeMu].  A policy that is the
    configured allocation is the configured policy. *)
Inductive reload_step (i : nat) (w : World) : World -> Prop :=
| step_load g : wo_tasks w !! i = Some Loading -> (g_id g = g_id configured -> g = configured) ->
    reload_step i w (set_task i (Loaded g) w)
| step_load_error : wo_tasks w !! i = Some Loading -> reload_step i w (set_task i Done w)
| step_publish g : wo_tasks w !! i = Some (Loaded g) -> wo_mu w = None -> wo_committer w = false ->
    reload_step i w (set_task i Done (set_published (g_id g) (publish (g_policy g) (wo_runtime w)) w))
| step_choose g : wo_tasks w !! i = Some (Loaded g) -> wo_mu w = None -> wo_committer w = true ->
    reload_step i w (set_task i (Committing g (reloadEvent cfg (g_policy g) (ru_proxy (wo_runtime w)))) w)
| step_announce g e rw : wo_tasks w !! i = Some (Committing g e) -> Lock_begin i (wo_rw w) = Some rw ->
    reload_step i w (set_task i (Announced g e) (set_rw rw w))
| step_lock g e rw : wo_tasks w !! i = Some (Announced g e) -> Lock_end (wo_rw w) = Some rw ->
    reload_step i w (set_task i (Holding g e) (set_rw rw w))
| step_swap g e : wo_tasks w !! i = Some (Holding g e) -> wo_mu w = None ->
    reload_step i w (set_task i (Publishing g e) (set_published (g_id g) (publish (g_policy g) (wo_runtime w)) w))
| step_commit g e now out : wo_tasks w !! i = Some (Publishing g e) ->
    reload_step i w (set_task i (Forwarding e) (set_rw (Unlock (wo_rw w))
      (set_runtime (commit_surfaces cli (g_policy g) e now out (wo_runtime w)) w)))
| step_forward e : wo_tasks w !! i = Some (Forwarding e) ->
    reload_step i w (set_task i Done (set_runtime (forward_reload e (wo_runtime w)) w)).
(** [SetReloadCommitter]: the committer is installed and the published policy
    reconciled, which may take [runtimeMu], under the watcher's lock. *)
Inductive register_step (i : nat) (w : World) : World -> Prop :=
| step_install : wo_tasks w !! i = Some Registering -> wo_mu w = None ->
    register_step i w (set_task i (Installed {| g_id := wo_id w; g_policy := published w |}) (set_mu (Some i) (set_committer true w)))
| step_same g : wo_tasks w !! i = Some (Installed g) -> g_id g = g_id configured ->
    register_step i w (set_task i Done (set_mu None (set_runtime (reconcilePublishedRuntime g (wo_runtime w)) w)))
| step_reconcile g rw : wo_tasks w !! i = Some (Installed g) -> g_id g <> g_id configured -> Lock_begin i (wo_rw w) = Some rw ->
    register_step i w (set_task i (Reconciling g) (set_rw rw w))
| step_refresh g rw : wo_tasks w !! i = Some (Reconciling g) -> Lock_end (wo_rw w) = Some rw ->
    register_step i w (set_task i Done (set_mu None (set_rw (Unlock rw) (set_runtime (reconcilePublishedRuntime g (wo_runtime w)) w)))).
(** A tools/call takes its snapshot and is judged inside its barrier, reading
    the policy under the watcher's lock, and leaves the barrier before it waits
    for the operator.  The end of a kinetic stop writes under [runtimeMu]. *)
Inductive call_step (i : nat) (w : World) : World -> Prop :=
| step_enter rw : wo_tasks w !! i = Some Calling -> RLock i (wo_rw w) = Some rw -> call_step i w (set_task i Reading (set_rw rw w))
| step_snapshot : wo_tasks w !! i = Some Reading -> wo_mu w = None -> call_step i w (set_task i Judging w)
| step_judge ru : wo_tasks w !! i = Some Judging -> wo_mu w = None -> keeps_surfaces (wo_runtime w) ru ->
    call_step i w (set_task i Judged (set_runtime ru w))
| step_leave : wo_tasks w !! i = Some Judged -> call_step i w (set_task i Done (set_rw (RUnlock i (wo_rw w)) w))
| step_ask : wo_tasks w !! i = Some Judged -> call_step i w (set_task i Waiting (set_rw (RUnlock i (wo_rw w)) w))
| step_finish ru : wo_tasks w !! i = Some Answered -> wo_mu w = None -> keeps_surfaces (wo_runtime w) ru ->
    call_step i w (set_task i Done (set_runtime ru w))
| step_stop rw : wo_tasks w !! i = Some Stopping -> Lock_begin i (wo_rw w) = Some rw ->
    call_step i w (set_task i StopAnnounced (set_rw rw w))
| step_stopped ru rw : wo_tasks w !! i = Some StopAnnounced -> Lock_end (wo_rw w) = Some rw -> keeps_surfaces (wo_runtime w) ru ->
    call_step i w (set_task i Done (set_rw (Unlock rw) (set_runtime ru w))).
(** The steps of the proxy, and those of the others: a reload, a call or a stop
    begins, and the operator answers. *)
Inductive own_step (w : World) : World -> Prop :=
| step_reload i w' : reload_step i w w' -> own_step w w'
| step_register i w' : register_step i w w' -> own_step w w'
| step_call i w' : call_step i w w' -> own_step w w'.
Inductive step (w : World) : World -> Prop :=
| step_own w' : own_step w w' -> step w w'
| step_start : step w (add_task Loading w)
| step_arrive t : registered w -> t = Calling \/ t = Stopping -> step w (add_task t w)
| step_answer i : wo_tasks w !! i = Some Waiting -> step w (set_task i Answered w).
End steps.

(** ** The loop of the watcher *)

Record FileEvent := { fe_Write : bool; fe_Create : bool; fe_Rename : bool; fe_Remove : bool }.
(** An event, an error of the watcher, or the debounce timer. *)
Inductive LoopInput := OnEvent (e : FileEvent) | OnError | OnTimer.
(** [lo_armed]: the timer runs. *)
Record LoopState := { lo_pending : bool; lo_needsReload : bool; lo_armed : bool }.
Definition loop_start : LoopState := {| lo_pending := false; lo_needsReload := false; lo_armed := false |}.
Definition changes (e : FileEvent) : bool := fe_Write e || fe_Create e || fe_Rename e.
(** The state after an input, and whether it reloads; [None] when the timer
    does not run.  Watching a removed file again changes nothing here. *)
Definition loop_step (s : LoopState) (i : LoopInput) : option (LoopState * bool) :=
  match i with
  | OnEvent e =>
      if changes e then Some ({| lo_pending := true; lo_needsReload := true; lo_armed := if lo_pending s then lo_armed s else true |}, false)
      else Some (s, false)
  | OnError => Some (s, false)
  | OnTimer =>
      if lo_armed s then Some ({| lo_pending := false; lo_needsReload := false; lo_armed := false |}, lo_needsReload s) else None
  end.
(** The states after inputs, and which of them reloaded. *)
Fixpoint loop (s : LoopState) (inputs : list LoopInput) : option (LoopState * list bool) :=
  match inputs with
  | [] => Some (s, [])
  | i :: inputs =>
      match loop_step s i with
      | None => None
      | Some (s, r) => match loop s inputs with None => None | Some (s, rs) => Some (s, r :: rs) end
      end
  end.
