(* ===== verification/ReloadSpec.v ===== *)
(** Reloads are atomic: whoever reads the runtime sees the surfaces of the
    policy that is published, reloads get through, a change of the file is not
    lost, and what a reload attests is what was launched. *)
From stdpp Require Import base strings gmap list sorting relations.
From Stdlib Require Import ZArith Lia Ascii.
From S2P Require Import Prelude GoStrings GoLib Lineage LineageRegistry ActorContext.
From S2P Require Import PolicyTypes PolicyRegistry PolicyDefaults Slots Engine Ownership OwnershipGate Session Taint Redaction.
From S2P Require Import Ledger InstructionAuthority InstructionAuth Trajectory GoPath Capability CapabilityEval CallArgs Proxy ToolsCall.
From S2P Require Approval ServerIdentity.
From S2P Require Import ToolsCallSpec Reload.
#[local] Open Scope Z_scope.

(** ** Surfaces *)

Section surfaces.
Context `{GoUnicode, GoPatterns, GoReplace, GoArch, GoTime, GoFmt, GoJSON, GoCrypto, SnapshotJSON, CapJSON, EventJSON}.

(** The runtime follows [pol]: what it redacts in calls and in records, how
    long it waits for an approval, whether it accounts capabilities (a session
    without an id has no evaluator) and verifies authority, and with which keys. *)
Record follows (cli : bool) (pol : Policy) (ru : Runtime) : Prop := {
  fo_redactor : px_redactor (ru_proxy ru) = Redaction.NewEngine (p_Redaction pol);
  fo_patterns : lg_patterns (px_audit (ru_proxy ru)) = lg_patterns (SetRedactionPatterns (px_audit (ru_proxy ru)) (rc_Patterns (p_Redaction pol)));
  fo_timeout : Approval.ap_timeout (ru_approval ru) = seconds (st_ApprovalTimeoutSecs (p_Settings pol));
  fo_capEval : is_Some (px_capEval (ru_proxy ru)) <->
    (cli = true \/ st_CapabilityEval (p_Settings pol) = true) /\ ss_ID (px_session (ru_proxy ru)) <> "";
  fo_authorize : px_authorize (ru_proxy ru) = st_InstructionAuthorityContinuity (p_Settings pol);
  fo_keys : px_keys (ru_proxy ru) = if st_InstructionAuthorityContinuity (p_Settings pol)
    then decodeInstructionAuthorityKeys (st_InstructionAuthorityKeys (p_Settings pol)) else ∅
}.

Lemma newCapabilityEvaluator_Some id enabled : is_Some (newCapabilityEvaluator id enabled) <-> enabled = true /\ id <> "".
Proof.
  unfold newCapabilityEvaluator, NewChainEvaluator. destruct enabled; cbn [negb]; [|split; by intros [? ?]].
  destruct (id <>s? "") eqn:E; cbn; bools; split; try (by intros [? ?]); intros _; first [done|by eexists].
Qed.
Lemma sync_capEval cli pol p : (is_Some (px_capEval p) -> ss_ID (px_session p) <> "") ->
  is_Some (px_capEval (syncCapabilityEvaluator cli (Some pol) p)) <->
  (cli = true \/ st_CapabilityEval (p_Settings pol) = true) /\ ss_ID (px_session p) <> "".
Proof.
  intros Hid. unfold syncCapabilityEvaluator, capEvalEnabled. rewrite <- orb_true_iff.
  destruct (cli || st_CapabilityEval (p_Settings pol)), (px_capEval p) as [ev|] eqn:E; cbn [negb]; rewrite ?E.
  - split; [|by intros _]. intros _. split; [done|by apply Hid].
  - pose proof (newCapabilityEvaluator_Some (ss_ID (px_session p)) true) as Hn.
    destruct (newCapabilityEvaluator _ true) as [c|]; cbn; rewrite ?E; [|exact Hn].
    etransitivity; [|exact Hn]. split; intros _; by eexists.
  - split; [by intros [? ?]|by intros [? ?]].
  - split; [by intros [? ?]|by intros [? ?]].
Qed.
(** The synchronisation of the evaluator touches nothing else that matters. *)
Lemma sync_capEval_frame cli pol p : let p' := syncCapabilityEvaluator cli pol p in
  px_engine p' = px_engine p /\ px_redactor p' = px_redactor p /\ px_audit p' = px_audit p /\ px_session p' = px_session p.
Proof. unfold syncCapabilityEvaluator. destruct (px_capEval p), (capEvalEnabled cli pol); try done. by destruct (newCapabilityEvaluator _ true). Qed.
Lemma sync_authorize_frame pol p : let p' := syncInstructionAuthorize (Some pol) p in
  px_engine p' = px_engine p /\ px_redactor p' = px_redactor p /\ px_audit p' = px_audit p /\ px_session p' = px_session p /\
  px_capEval p' = px_capEval p /\ px_authorize p' = st_InstructionAuthorityContinuity (p_Settings pol) /\
  px_keys p' = if st_InstructionAuthorityContinuity (p_Settings pol)
    then decodeInstructionAuthorityKeys (st_InstructionAuthorityKeys (p_Settings pol)) else ∅.
Proof. unfold syncInstructionAuthorize. by destruct (st_InstructionAuthorityContinuity _). Qed.

(** An evaluator belongs to a session with an id. *)
Definition named_session (ru : Runtime) : Prop := is_Some (px_capEval (ru_proxy ru)) -> ss_ID (px_session (ru_proxy ru)) <> "".
Lemma follows_named cli pol ru : follows cli pol ru -> named_session ru.
Proof. intros Hf Hs. by apply (fo_capEval _ _ _ Hf) in Hs as [_ ?]. Qed.

Lemma install_follows cli pol ru : named_session ru -> follows cli pol (install cli pol ru).
Proof.
  intros Hn. unfold install. set (p := set_redactor _ _).
  destruct (sync_capEval_frame cli (Some pol) p) as (_ & Er & Ea & Es).
  destruct (sync_authorize_frame pol (syncCapabilityEvaluator cli (Some pol) p)) as (_ & Er' & Ea' & Es' & Ec & Eu & Ek).
  pose proof (sync_capEval cli pol p Hn) as Hc.
  split; cbn -[syncCapabilityEvaluator syncInstructionAuthorize]; rewrite ?Er', ?Er, ?Es', ?Es, ?Ec, ?Eu, ?Ek; done.
Qed.
Lemma install_frame cli pol ru : px_engine (ru_proxy (install cli pol ru)) = px_engine (ru_proxy ru) /\
  px_session (ru_proxy (install cli pol ru)) = px_session (ru_proxy ru).
Proof.
  unfold install. set (p := set_redactor _ _). destruct (sync_capEval_frame cli (Some pol) p) as (E & _ & _ & Es).
  destruct (sync_authorize_frame pol (syncCapabilityEvaluator cli (Some pol) p)) as (E' & _ & _ & Es' & _).
  cbn -[syncCapabilityEvaluator syncInstructionAuthorize]. by rewrite E', E, Es', Es.
Qed.

Lemma Log_patterns l now e w : lg_patterns (Log l now e w).1 = lg_patterns l.
Proof.
  unfold Log. destruct (lg_poisoned l); [done|]. destruct (prepareRecord l now e) as [[r data]|]; [|done].
  unfold appendFull. repeat case_match; simplify_eq; done.
Qed.
Lemma keeps_follows cli pol ru ru' : keeps_surfaces ru ru' -> follows cli pol ru -> follows cli pol ru'.
Proof.
  intros (_ & Er & Ea & Ek & Ep & Ec & Es & Et) [Fr Fp Ft Fc Fa Fk]. cbn in *.
  split; cbn; rewrite ?Er, ?Ea, ?Ek, ?Ep, ?Es, ?Et, ?Ec; done.
Qed.
Lemma commit_follows cli pol e now w ru : named_session ru -> follows cli pol (commit_surfaces cli pol e now w ru).
Proof.
  intros Hn. apply (keeps_follows cli pol (install cli pol ru)); [|by apply install_follows].
  unfold commit_surfaces, keeps_surfaces. cbn -[install]. by rewrite Log_patterns.
Qed.
Lemma publish_follows cli pol pol' ru : follows cli pol ru -> follows cli pol (publish pol' ru).
Proof. intros [Fr Fp Ft Fc Fa Fk]. by split. Qed.
Lemma commit_engine cli pol e now w ru : px_engine (ru_proxy (commit_surfaces cli pol e now w ru)) = px_engine (ru_proxy ru).
Proof. apply install_frame. Qed.

(** What [New] builds follows the configured policy, whatever the engine it
    was given has published. *)
Lemma New_follows pid now c : ss_ID (px_session (ru_proxy (New pid now c))) <> "" /\ follows (lc_CapabilityEval c) (configured_policy c) (New pid now c).
Proof.
  assert (lc_SessionID (named pid c) <> "") as Hid.
  { cbn. destruct (lc_SessionID c =s? "") eqn:E; bools; [|done]. by destruct (Itoa pid). }
  unfold New. change (lc_Policy (named pid c)) with (Some (configured_policy c)).
  change (configured_policy (named pid c)) with (configured_policy c). set (p := {| px_engine := _ |}).
  destruct (sync_authorize_frame (configured_policy c) p) as (_ & Er & Ea & Es & Ec & Eu & Ek).
  cbn -[syncInstructionAuthorize] in *. split; [by rewrite Es|].
  split; cbn -[syncInstructionAuthorize]; rewrite ?Er, ?Ea, ?Es, ?Ec, ?Eu, ?Ek; try done.
  unfold p. cbn -[newCapabilityEvaluator]. rewrite newCapabilityEvaluator_Some. unfold capEvalEnabled. by rewrite orb_true_iff.
Qed.
End surfaces.

(** ** Calls

    A tools/call, on every path, keeps the surfaces: the premise on calls in
    [call_step] is what [processToolsCall] does. *)

Section calls.
Context `{GoUnicode, GoPatterns, GoReplace, GoArch, GoTime, GoFmt, GoJSON, GoCrypto, SnapshotJSON, CapJSON}.
Context `{GoNetip, GoFS, EventJSON, GateJSON, AssertionCrypto, RawJSON, Receipt.DecisionJSON, Approval.GoDuration}.
Context (cfg : Config) (env : Env) (id : any) (serverName : string).

Definition surfaces (p : Proxy) := (px_engine p, px_redactor p, px_authorize p, px_keys p, lg_patterns (px_audit p),
  bool_decide (is_Some (px_capEval p)), ss_ID (px_session p)).
Lemma surfaces_keeps p p' a : surfaces p' = surfaces p ->
  keeps_surfaces {| ru_proxy := p; ru_approval := a |} {| ru_proxy := p'; ru_approval := a |}.
Proof.
  unfold surfaces, keeps_surfaces. cbn. intros [= -> -> -> -> -> Hc ->]. split_and!; try done.
  by rewrite <- (bool_decide_eq_true (is_Some (px_capEval p'))), Hc, bool_decide_eq_true.
Qed.
Definition keeping : frame.
Proof.
  refine {| fr_Q := fun p p' => surfaces p' = surfaces p; fr_E := fun p p' _ => surfaces p' = surfaces p |}; congruence.
Defined.

Lemma early_keeping {A} raw action : within keeping (early raw action : M A). Proof. by intros p. Qed.
Lemma respond_keeping message : within keeping (respond id message). Proof. by apply within_modify. Qed.
Lemma count_keeping f : within keeping (count f). Proof. by apply within_modify. Qed.
Lemma log_event_keeping event : within keeping (log_event env event).
Proof. apply within_modify. intros p. unfold keeping, surfaces. cbn -[Log]. by rewrite Log_patterns. Qed.
Lemma forwardAudit_keeping event : within keeping (forwardAudit event). Proof. by apply within_modify. Qed.
#[local] Hint Resolve early_keeping respond_keeping count_keeping log_event_keeping forwardAudit_keeping : stages.
Lemma logAudit_keeping event : within keeping (logAudit cfg env event). Proof. unfold logAudit. stage. Qed.
Lemma deny_call_keeping message event : within keeping (deny_call env id message event). Proof. unfold deny_call. stage. Qed.
#[local] Hint Resolve logAudit_keeping deny_call_keeping : stages.
Lemma logDenied_keeping toolName a reason risk : within keeping (logDenied cfg env serverName toolName a reason risk).
Proof. unfold logDenied, logDeniedWithEvidence. stage. Qed.
#[local] Hint Resolve logDenied_keeping : stages.

Lemma commit_patterns l now event w b : lg_patterns (Ledger.CommitAuthorization l now event w b).1 = lg_patterns l.
Proof.
  unfold Ledger.CommitAuthorization, commit_record, appendFull. destruct (lg_poisoned l); [done|].
  destruct (negb (lg_durable l)); [done|]. destruct (_ || _); [done|]. destruct (prepareRecord l now event) as [[r data]|]; [|done].
  by destruct (negb (wo_err w) && _), b.
Qed.
Lemma CommitAuthorization_keeping event : within keeping (ToolsCall.CommitAuthorization env event).
Proof.
  apply within_update. intros p. cbv zeta. set (o := en_sink env (px_audit p) event).
  pose proof (commit_patterns (px_audit p) (so_now o) event (so_write o) (so_sync o)) as Hp.
  destruct (Ledger.CommitAuthorization _ _ _ _ _) as [l err]. cbn in *. unfold keeping, surfaces. cbn. by rewrite Hp.
Qed.
Lemma session_keeping {A} (f : Session -> Session * A) : (forall s, ss_ID (f s).1 = ss_ID s) ->
  within keeping (update (fun p => let '(s, a) := f (px_session p) in (set_session s p, a))).
Proof.
  intros Hf. apply within_update. intros p. specialize (Hf (px_session p)). destruct (f (px_session p)) as [s a].
  cbn in *. unfold keeping, surfaces. cbn. by rewrite Hf.
Qed.
Lemma release_keeping u : within keeping (release_unit u).
Proof. destruct u; [|apply within_ret]. apply within_modify. intros p. unfold keeping, surfaces. cbn. unfold ReleaseDelegation. by case_match. Qed.
#[local] Hint Resolve CommitAuthorization_keeping release_keeping : stages.

(** The session of every stage keeps its id. *)
Lemma authority_gate_keeping c snapshot : within keeping (authority_gate cfg env id serverName c snapshot).
Proof.
  unfold authority_gate. stage. apply session_keeping. intros s. exact (f_equal ss_ID (authority_verdict_session env serverName c snapshot s)).
Qed.
Lemma redact_call_keeping c snapshot : within keeping (redact_call c snapshot).
Proof. unfold redact_call. stage. Qed.
#[local] Hint Resolve authority_gate_keeping redact_call_keeping : stages.
Lemma gates_keeping callReq raw originalRaw n : within keeping (gates cfg env id serverName callReq raw originalRaw n).
Proof.
  unfold gates, strip_identity, kinetic_gate, denyKineticRevoked, identity_gate, limits_gate, sensitive_gate.
  stage.
Qed.
Lemma judge_keeping c snapshot a r : within keeping (judge env serverName c snapshot a r).
Proof. unfold judge, assessTrajectory. stage. by apply within_modify. Qed.
Lemma ownership_gate_keeping f lin now : within keeping (ownership_gate cfg env id serverName f lin now).
Proof. unfold ownership_gate, denyOwnership. stage. Qed.
Lemma capability_stage_keeping f d : within keeping (capability_stage serverName f d).
Proof.
  intros p. unfold capability_stage, bind, gets, modify, ret, cap_state. destruct (px_capEval p) as [ev|] eqn:E; [|done]. cbn [fmap option_fmap option_map].
  destruct (capability_account _ _ _) as [[s art] reason]. unfold keeping, surfaces. cbn. by rewrite E.
Qed.
Lemma try_reserve_keeping f : within keeping (try_reserve serverName f).
Proof.
  apply (session_keeping (fun s => tryReserveDelegation (fc_pol f) s serverName (fc_tool f))). intros s. unfold tryReserveDelegation, AddCheckDelegation. by repeat case_match; simplify_eq/=.
Qed.
Lemma mark_rules_keeping f rules : within keeping (mark_rules cfg env serverName f rules).
Proof.
  induction rules as [|rule rules IH]; cbn [mark_rules]; [apply within_ret|]. stage.
  apply (session_keeping (fun s' => AddTaint s' (rule_taint rule serverName (fc_tool f) s) (en_clock env TTaint))).
  intros s'. unfold AddTaint. by repeat case_match.
Qed.
#[local] Hint Resolve judge_keeping ownership_gate_keeping capability_stage_keeping try_reserve_keeping mark_rules_keeping : stages.
Lemma commit_and_forward_keeping {A} f u event counted :
  within keeping (commit_and_forward cfg env id serverName f u event counted : M A).
Proof. unfold commit_and_forward, denyCommitFailure, markMatchingTaints. stage. Qed.
#[local] Hint Resolve commit_and_forward_keeping : stages.
Lemma recheck_lineage_keeping f lin u : within keeping (recheck_lineage cfg env id serverName f lin u).
Proof. unfold recheck_lineage. stage. Qed.
Lemma recheck_actor_keeping f lin u : within keeping (recheck_actor cfg env id serverName f lin u).
Proof. unfold recheck_actor. stage. Qed.
Lemma recheck_kinetic_keeping f u : within keeping (recheck_kinetic cfg env id serverName f u).
Proof. unfold recheck_kinetic, denyKineticRevoked. stage. Qed.
#[local] Hint Resolve recheck_lineage_keeping recheck_actor_keeping recheck_kinetic_keeping : stages.

(** What runs while a call waits for an approval keeps them too, as far as
    this call is concerned: reloads are steps of their own. *)
Context (Hwait : forall p, surfaces (en_wait env p) = surfaces p).
Lemma wait_keeping : within keeping (modify (en_wait env)). Proof. by apply within_modify. Qed.
#[local] Hint Resolve wait_keeping : stages.
Lemma requestApproval_keeping f lin reason ctx ev : within keeping (requestApproval cfg env serverName f lin reason ctx ev).
Proof. unfold requestApproval, sign_approval, approval_denied, logDeniedWithEvidence. stage. Qed.
#[local] Hint Resolve requestApproval_keeping : stages.
Lemma after_approval_keeping {A} f lin artifact rec : within keeping (after_approval cfg env id serverName f lin artifact rec : M A).
Proof. unfold after_approval, denyDelegationCeiling. stage. Qed.
Lemma processToolsCall_keeping callReq raw originalRaw n :
  within keeping (processToolsCall cfg env id serverName callReq raw originalRaw n).
Proof.
  unfold processToolsCall. apply within_bind; [apply gates_keeping|intros (c & snapshot & a & r)].
  unfold judged_call, ownership_stage, egress_stage, chain_stage, checkChain, reserve_stage, deny_stage, denyDelegationCeiling,
    approval_stage, allow_stage. stage.
Qed.
(** A whole call does to the runtime what [call_step] lets its parts do. *)
Lemma call_keeps callReq raw originalRaw n ru : keeps_surfaces ru
  {| ru_proxy := (processToolsCall cfg env id serverName callReq raw originalRaw n (ru_proxy ru)).1; ru_approval := ru_approval ru |}.
Proof.
  pose proof (processToolsCall_keeping callReq raw originalRaw n (ru_proxy ru)) as Hk.
  destruct ru as [p a]. cbn [ru_proxy ru_approval] in *. apply surfaces_keeps.
  by destruct (processToolsCall _ _ _ _ _ _ _ _ p) as [p' [v|v]].
Qed.
End calls.

(** ** Locks

    Who is inside which lock, by where it is. *)

Definition in_mu (t : Task) : bool := match t with Installed _ | Reconciling _ => true | _ => false end.
Definition writes (t : Task) : bool :=
  match t with Announced _ _ | Holding _ _ | Publishing _ _ | Reconciling _ | StopAnnounced => true | _ => false end.
Definition holds (t : Task) : bool := match t with Holding _ _ | Publishing _ _ => true | _ => false end.
Definition reads (t : Task) : bool := match t with Reading | Judging | Judged => true | _ => false end.
Definition registering (t : Task) : bool := match t with Registering | Installed _ | Reconciling _ => true | _ => false end.
(** What may be under way before the registration is over. *)
Definition early (t : Task) : bool := match t with Loading | Loaded _ | Done => true | _ => false end.

Definition at_ (P : Task -> bool) (ts : list Task) (j : nat) : Prop := exists t, ts !! j = Some t /\ P t = true.
Lemma at_insert P ts i t0 t j : ts !! i = Some t0 ->
  at_ P (<[i := t]> ts) j <-> (j = i /\ P t = true) \/ (j <> i /\ at_ P ts j).
Proof.
  intros Hi. unfold at_. destruct (decide (j = i)) as [->|Hne].
  - rewrite list_lookup_insert_eq by (by apply lookup_lt_Some in Hi). naive_solver.
  - rewrite list_lookup_insert_ne by done. naive_solver.
Qed.
Lemma at_here P ts i t0 : ts !! i = Some t0 -> at_ P ts i <-> P t0 = true.
Proof. unfold at_. naive_solver. Qed.
Lemma at_app P ts t j : at_ P (ts ++ [t]) j <-> at_ P ts j \/ (j = length ts /\ P t = true).
Proof.
  unfold at_. split.
  - intros (u & [Hu|[Hl Hu]]%lookup_app_Some & Hp); [naive_solver|]. apply list_lookup_singleton_Some in Hu as [E <-]. right. split; [lia|done].
  - intros [(u & Hu & Hp)|[-> Hp]]; [exists u; split; [by apply lookup_app_l_Some|done]|]. exists t. split; [|done].
    by rewrite lookup_app_r, Nat.sub_diag by lia.
Qed.

Record locks_ok (w : World) : Prop := {
  lk_first : exists t, wo_tasks w !! 0%nat = Some t /\ (registering t = true \/ t = Done);
  lk_register : forall i, at_ registering (wo_tasks w) i -> i = 0%nat;
  lk_early : ~ registered w -> forall i t, i <> 0%nat -> wo_tasks w !! i = Some t -> early t = true;
  lk_mu : forall j, wo_mu w = Some j <-> at_ in_mu (wo_tasks w) j;
  lk_writer : forall j, rw_writer (wo_rw w) = Some j <-> at_ writes (wo_tasks w) j;
  lk_readers : forall j, j ∈ rw_readers (wo_rw w) <-> at_ reads (wo_tasks w) j;
  lk_held : forall j, at_ holds (wo_tasks w) j -> rw_held (wo_rw w) = true;
  lk_exclusive : rw_held (wo_rw w) = true -> rw_readers (wo_rw w) = ∅ /\ is_Some (rw_writer (wo_rw w))
}.

(** A lock that is one's own or none after a task has moved from [t0] to [t]:
    kept, taken while it was free, or given back. *)
Definition passes (i : nat) (inside0 inside : bool) (before after : option nat) : Prop :=
  (after = before /\ inside = inside0) \/ (before = None /\ after = Some i /\ inside = true) \/
  (inside0 = true /\ after = None /\ inside = false).
Lemma passes_ok P ts i t0 t before after : ts !! i = Some t0 -> passes i (P t0) (P t) before after ->
  (forall j, before = Some j <-> at_ P ts j) -> forall j, after = Some j <-> at_ P (<[i := t]> ts) j.
Proof.
  intros Hi Hc Hb j. rewrite (at_insert P ts i t0 t j Hi), <- Hb. pose proof (Hb i) as Hbi. rewrite (at_here P ts i t0 Hi) in Hbi.
  destruct Hc as [[-> ->]|[(-> & -> & ->)|(E0 & -> & ->)]]; destruct (decide (j = i)) as [->|Hne]; naive_solver.
Qed.

(** A task moves, and the locks with it. *)
Lemma locks_move w w' i t0 t : locks_ok w -> wo_tasks w !! i = Some t0 -> wo_tasks w' = <[i := t]> (wo_tasks w) -> t0 <> Done ->
  passes i (in_mu t0) (in_mu t) (wo_mu w) (wo_mu w') ->
  passes i (writes t0) (writes t) (rw_writer (wo_rw w)) (rw_writer (wo_rw w')) ->
  (rw_readers (wo_rw w') = rw_readers (wo_rw w) /\ reads t = reads t0 \/
   rw_readers (wo_rw w') = {[i]} ∪ rw_readers (wo_rw w) /\ reads t = true \/
   rw_readers (wo_rw w') = rw_readers (wo_rw w) ∖ {[i]} /\ reads t = false) ->
  (holds t = true -> rw_held (wo_rw w') = true) ->
  (rw_held (wo_rw w) = true -> rw_held (wo_rw w') = true \/ writes t0 = true) ->
  (rw_held (wo_rw w') = true -> rw_readers (wo_rw w') = ∅ /\ is_Some (rw_writer (wo_rw w'))) ->
  (registering t = true -> registering t0 = true) ->
  (registering t0 = true -> registering t = true \/ t = Done) ->
  registered w \/ i = 0%nat \/ early t = true ->
  locks_ok w'.
Proof.
  intros [Hf Hr He Hm Hw Hrd Hh Hx] Hi Et Hd Cm Cw Cr Ch Chd Cx Creg Creg' Cearly.
  assert (Hzero : i = 0%nat -> registering t0 = true) by (intros ->; destruct Hf as (u & Hu & [Hu'|Hu']); naive_solver).
  split; rewrite ?Et.
  - destruct Hf as (u & Hu & Hu'). destruct (decide (0%nat = i)) as [<-|Hne].
    + exists t. rewrite list_lookup_insert_eq by (by apply lookup_lt_Some in Hi). split; [done|]. apply Creg'. by apply Hzero.
    + exists u. by rewrite list_lookup_insert_ne.
  - intros j. rewrite (at_insert _ _ i t0) by done. intros [[-> Hj]|[_ Hj]]; [|by apply Hr]. apply Hr. rewrite (at_here _ _ _ _ Hi). auto.
  - unfold registered. rewrite Et. intros Hn j u Hj Hu. destruct (decide (j = i)) as [->|Hne].
    + rewrite list_lookup_insert_eq in Hu by (by apply lookup_lt_Some in Hi). injection Hu as <-.
      destruct Cearly as [Hreg|[?|?]]; [|done|done]. destruct Hn. rewrite list_lookup_insert_ne by done. exact Hreg.
    + rewrite list_lookup_insert_ne in Hu by done. apply (He) with j; [|done|done]. intros Hreg. unfold registered in Hreg.
      destruct (decide (i = 0%nat)) as [->|Hi0]; [congruence|]. destruct Hn. by rewrite list_lookup_insert_ne.
  - by apply (passes_ok in_mu _ i t0 t (wo_mu w)).
  - by apply (passes_ok writes _ i t0 t (rw_writer (wo_rw w))).
  - intros j. rewrite (at_insert _ _ i t0) by done. rewrite <- Hrd. pose proof (Hrd i) as Hri. rewrite (at_here _ _ _ _ Hi) in Hri.
    destruct Cr as [[-> ->]|[[-> ->]|[-> ->]]]; rewrite ?elem_of_union, ?elem_of_difference, ?elem_of_singleton;
      destruct (decide (j = i)) as [->|Hne]; naive_solver.
  - intros j. rewrite (at_insert _ _ i t0) by done. intros [[-> Hj]|[Hne Hj]]; [auto|]. destruct (Chd (Hh j Hj)) as [?|Hwr]; [done|].
    assert (at_ writes (wo_tasks w) j) as Hjw by (destruct Hj as (u & Hu & Hp); exists u; split; [done|by destruct u]).
    apply Hw in Hjw. assert (rw_writer (wo_rw w) = Some i) by (apply Hw; by rewrite (at_here _ _ _ _ Hi)). congruence.
  - exact Cx.
Qed.

(** ** Worlds *)

Lemma keeps_refl ru : keeps_surfaces ru ru. Proof. by split_and!. Qed.
#[local] Hint Resolve keeps_refl : core.

Lemma locks_add w t : locks_ok w -> (registered w /\ (t = Calling \/ t = Stopping)) \/ t = Loading -> locks_ok (add_task t w).
Proof.
  intros [(u & Hu & Hf) Hr He Hm Hw Hrd Hh Hx] Ht.
  assert (Hn : forall P, P Calling = false -> P Stopping = false -> P Loading = false -> P t = false)
    by (intros P ? ? ?; by destruct Ht as [[_ [-> | ->]]| ->]).
  assert (Hat : forall P, P Calling = false -> P Stopping = false -> P Loading = false ->
    forall j, at_ P (wo_tasks w ++ [t]) j <-> at_ P (wo_tasks w) j).
  { intros P E1 E2 E3 j. rewrite at_app, (Hn P E1 E2 E3). naive_solver. }
  assert (Hz : (wo_tasks w ++ [t]) !! 0%nat = Some u) by by apply lookup_app_l_Some.
  split; cbn.
  - eauto.
  - intros i. rewrite Hat by done. apply Hr.
  - unfold registered. cbn. intros Hnr. rewrite Hz in Hnr. intros i v Hi [Hv|[_ Hv]]%lookup_app_Some.
    + apply (He) with i; [|done|done]. unfold registered. by rewrite Hu.
    + apply list_lookup_singleton_Some in Hv as [_ <-]. destruct Ht as [[Ht _]| ->]; [|done].
      unfold registered in Ht. congruence.
  - intros j. by rewrite Hat.
  - intros j. by rewrite Hat.
  - intros j. by rewrite Hat.
  - intros j. rewrite Hat by done. apply Hh.
  - exact Hx.
Qed.
(** A task that is past its beginnings shows that the registration is over. *)
Lemma late_registered w i t : locks_ok w -> wo_tasks w !! i = Some t -> early t = false -> registering t = false -> registered w.
Proof.
  intros Hw Hi E1 E2. unfold registered. destruct (lk_first w Hw) as (u & Hu & [Hr| ->]); [|done].
  destruct (decide (i = 0%nat)) as [->|Hne]; [congruence|].
  assert (~ registered w) as Hn by (unfold registered; intros H; rewrite H in Hu; by injection Hu as <-).
  pose proof (lk_early w Hw Hn i t Hne Hi). congruence.
Qed.
Lemma quiet_registered w : locks_ok w -> wo_mu w = None -> wo_tasks w !! 0%nat <> Some Registering -> registered w.
Proof.
  intros Hw Hm Hn. unfold registered. destruct (lk_first w Hw) as (u & Hu & [Hr| ->]); [|done]. destruct (in_mu u) eqn:E.
  - assert (wo_mu w = Some 0%nat) by (apply (lk_mu w Hw); by exists u). congruence.
  - by destruct u.
Qed.
Lemma writer_at w i t : locks_ok w -> wo_tasks w !! i = Some t -> writes t = true -> rw_writer (wo_rw w) = Some i.
Proof. intros Hw Hi Ht. apply (lk_writer w Hw). by exists t. Qed.
Lemma not_held w : locks_ok w -> rw_writer (wo_rw w) = None -> rw_held (wo_rw w) = false.
Proof. intros Hw E. destruct (rw_held (wo_rw w)) eqn:Eh; [|done]. apply (lk_exclusive w Hw) in Eh as [_ [? ?]]. congruence. Qed.
Lemma register_first w i t : locks_ok w -> wo_tasks w !! i = Some t -> registering t = true -> i = 0%nat.
Proof. intros Hw Hi Ht. apply (lk_register w Hw). by exists t. Qed.

Section worlds.
Context `{GoUnicode, GoPatterns, GoReplace, GoArch, GoTime, GoFmt, GoJSON, GoCrypto, SnapshotJSON, CapJSON, EventJSON}.
Context (cfg : Config) (cli : bool) (configured : Gen).
Abbreviation reload_step := (reload_step cfg cli configured).
Abbreviation register_step := (register_step cli configured).
Abbreviation own_step := (own_step cfg cli configured).
Abbreviation step := (step cfg cli configured).
Abbreviation published w := (e_policy (px_engine (ru_proxy (wo_runtime w)))).

(** The policy a reload has yet to publish, and the one the registration found. *)
Definition carries (t : Task) : option Gen :=
  match t with Loaded g | Committing g _ | Announced g _ | Holding g _ => Some g | _ => None end.
Definition found (t : Task) : option Gen := match t with Installed g | Reconciling g => Some g | _ => None end.
Definition is_publishing (t : Task) : bool := match t with Publishing _ _ => true | _ => false end.
Definition genuine (g : Gen) : Prop := g_id g = g_id configured -> g_policy g = g_policy configured.

Record sound (w : World) : Prop := {
  so_locks : locks_ok w;
  so_registry : e_registry (px_engine (ru_proxy (wo_runtime w))) = PolicyRegistry.NewRegistry (published w);
  so_named : named_session (wo_runtime w);
  so_genuine : genuine {| g_id := wo_id w; g_policy := published w |};
  so_carried : forall i t g, wo_tasks w !! i = Some t -> carries t = Some g -> genuine g;
  so_found : forall i t g, wo_tasks w !! i = Some t -> found t = Some g -> g = {| g_id := wo_id w; g_policy := published w |};
  so_publishing : forall i g e, wo_tasks w !! i = Some (Publishing g e) -> published w = g_policy g;
  so_committer : wo_committer w = false <-> wo_tasks w !! 0%nat = Some Registering;
  so_before : ~ registered w -> follows cli (g_policy configured) (wo_runtime w);
  so_after : registered w -> (forall j, ~ at_ is_publishing (wo_tasks w) j) -> follows cli (published w) (wo_runtime w)
}.

Lemma set_task_lookup i t (ts : list Task) j u : <[i := t]> ts !! j = Some u -> j = i /\ u = t \/ j <> i /\ ts !! j = Some u.
Proof. rewrite list_lookup_insert_Some. naive_solver. Qed.
Lemma at_publishing ts i g e : ts !! i = Some (Publishing g e) -> at_ is_publishing ts i.
Proof. intros Hi. by eexists. Qed.
(** Who publishes writes, so it is the only one. *)
Lemma one_publishes w i t j : locks_ok w -> wo_tasks w !! i = Some t -> writes t = true -> at_ is_publishing (wo_tasks w) j -> j = i.
Proof.
  intros Hw Hi Ht (u & Hj & Hu). assert (writes u = true) as Hu' by by destruct u.
  pose proof (writer_at w i t Hw Hi Ht). pose proof (writer_at w j u Hw Hj Hu'). congruence.
Qed.

(** A task that moves, apart from the registration and from publication, and
    keeps the surfaces keeps the world sound. *)
Lemma sound_move w w' i t0 t : sound w -> wo_tasks w !! i = Some t0 -> wo_tasks w' = <[i := t]> (wo_tasks w) -> locks_ok w' ->
  i <> 0%nat -> wo_id w' = wo_id w -> wo_committer w' = wo_committer w -> keeps_surfaces (wo_runtime w) (wo_runtime w') ->
  is_publishing t0 = false -> is_publishing t = false -> found t = None -> (forall g, carries t = Some g -> genuine g) -> sound w'.
Proof.
  intros [Hl Hr Hn Hg Hc Hfo Hp Hco Hb Ha] Hi Et Hl' Hi0 Eid Eco Hk Hpub0 Hpub Hfound Hcar.
  pose proof (keeps_follows cli) as Hf. pose proof Hk as (Ee & _ & _ & _ & _ & Ec & Es & _).
  assert (Hz : wo_tasks w' !! 0%nat = wo_tasks w !! 0%nat) by by rewrite Et, list_lookup_insert_ne.
  assert (Hreg : registered w' <-> registered w) by (unfold registered; by rewrite Hz).
  split; rewrite ?Ee, ?Eid, ?Eco, ?Hz; try done.
  - unfold named_session. by rewrite Ec, Es.
  - intros j u g. rewrite Et. intros [[-> ->]|[_ Hj]]%set_task_lookup; [apply Hcar|by apply (Hc j)].
  - intros j u g. rewrite Et. intros [[-> ->]|[_ Hj]]%set_task_lookup; [congruence|by apply (Hfo j)].
  - intros j g e. rewrite Et. intros [[-> <-]|[_ Hj]]%set_task_lookup; [done|by apply (Hp j g e)].
  - rewrite Hreg. intros E. by apply (Hf _ _ _ Hk), Hb.
  - rewrite Hreg. intros E E'. apply (Hf _ _ _ Hk), Ha; [done|]. intros j Hj. apply (E' j). rewrite Et, (at_insert _ _ i t0) by done.
    destruct (decide (j = i)) as [->|Hne]; [|by right]. rewrite (at_here _ _ _ _ Hi), Hpub0 in Hj. done.
Qed.
(** Before the registration a reload publishes by itself. *)
Lemma sound_publish w w' i g : sound w -> wo_tasks w !! i = Some (Loaded g) -> wo_committer w = false -> locks_ok w' ->
  w' = set_task i Done (set_published (g_id g) (publish (g_policy g) (wo_runtime w)) w) -> sound w'.
Proof.
  intros [Hl Hr Hn Hg Hc Hfo Hp Hco Hb Ha] Hi E Hl' ->. apply Hco in E as Ez.
  assert (i <> 0%nat) as Hi0 by congruence.
  assert (Hnr : ~ registered w) by (unfold registered; congruence).
  assert (Hz : <[i := Done]> (wo_tasks w) !! 0%nat = wo_tasks w !! 0%nat) by by rewrite list_lookup_insert_ne.
  assert (Hearly : forall j u, <[i := Done]> (wo_tasks w) !! j = Some u -> j <> 0%nat -> early u = true).
  { intros j u [[-> ->]|[_ Hj]]%set_task_lookup Hj0; [done|]. by apply (lk_early w Hl Hnr j). }
  split; cbn; rewrite ?Hz; try done.
  - exact (Hc i _ g Hi eq_refl).
  - intros j u g' [[-> ->]|[_ Hj]]%set_task_lookup; [done|by apply (Hc j)].
  - intros j u g' Hj Hu. destruct (decide (j = 0%nat)) as [->|Hj0].
    + rewrite Hz, Ez in Hj. by injection Hj as <-.
    + specialize (Hearly j u Hj Hj0). by destruct u.
  - intros j g' e Hj. destruct (decide (j = 0%nat)) as [->|Hj0]; [congruence|]. by specialize (Hearly j _ Hj Hj0).
  - intros _. by apply publish_follows, Hb.
  - unfold registered. cbn. rewrite Hz. congruence.
Qed.
(** The committer publishes, and commits, with [runtimeMu]. *)
Lemma sound_swap w w' i g e : sound w -> wo_tasks w !! i = Some (Holding g e) -> locks_ok w' -> wo_mu w = None ->
  w' = set_task i (Publishing g e) (set_published (g_id g) (publish (g_policy g) (wo_runtime w)) w) -> sound w'.
Proof.
  intros [Hl Hr Hn Hg Hc Hfo Hp Hco Hb Ha] Hi Hl' Hm ->.
  assert (registered w) as Hreg by by apply (late_registered w i (Holding g e)).
  assert (i <> 0%nat) as Hi0 by (unfold registered in Hreg; congruence).
  assert (Hz : <[i := Publishing g e]> (wo_tasks w) !! 0%nat = wo_tasks w !! 0%nat) by by rewrite list_lookup_insert_ne.
  split; cbn; rewrite ?Hz; try done.
  - exact (Hc i _ g Hi eq_refl).
  - intros j u g' [[-> ->]|[_ Hj]]%set_task_lookup; [done|by apply (Hc j)].
  - intros j u g' [[-> ->]|[_ Hj]]%set_task_lookup; [done|]. intros Hu. exfalso.
    assert (wo_mu w = Some j) by (apply (lk_mu w Hl); exists u; split; [done|by destruct u]). congruence.
  - intros j g' e' [[-> E]|[Hne Hj]]%set_task_lookup; [by injection E as -> _|]. destruct Hne.
    by apply (one_publishes w i (Holding g e)), (at_publishing _ _ g' e').
  - unfold registered. cbn. by rewrite Hz.
  - intros _ E. destruct (E i). exists (Publishing g e). by rewrite list_lookup_insert_eq by by apply lookup_lt_Some in Hi.
Qed.
Lemma sound_commit w w' i g e now out : sound w -> wo_tasks w !! i = Some (Publishing g e) -> locks_ok w' ->
  w' = set_task i (Forwarding e) (set_rw (Unlock (wo_rw w)) (set_runtime (commit_surfaces cli (g_policy g) e now out (wo_runtime w)) w)) ->
  sound w'.
Proof.
  intros [Hl Hr Hn Hg Hc Hfo Hp Hco Hb Ha] Hi Hl' ->. set (ru := commit_surfaces _ _ _ _ _ _) in *.
  assert (follows cli (g_policy g) ru) as Hf by by apply commit_follows.
  assert (px_engine (ru_proxy ru) = px_engine (ru_proxy (wo_runtime w))) as Ee by apply commit_engine.
  assert (registered w) as Hreg by by apply (late_registered w i (Publishing g e)).
  assert (i <> 0%nat) as Hi0 by (unfold registered in Hreg; congruence).
  assert (Hz : <[i := Forwarding e]> (wo_tasks w) !! 0%nat = wo_tasks w !! 0%nat) by by rewrite list_lookup_insert_ne.
  clearbody ru. split; cbn; rewrite ?Hz, ?Ee; try done.
  - by apply follows_named in Hf.
  - intros j u g' [[-> ->]|[_ Hj]]%set_task_lookup; [done|by apply (Hc j)].
  - intros j u g' [[-> ->]|[_ Hj]]%set_task_lookup; [done|by apply (Hfo j)].
  - intros j g' e' [[-> ?]|[_ Hj]]%set_task_lookup; [done|by apply (Hp j g' e')].
  - unfold registered. cbn. by rewrite Hz.
  - intros _ _. by rewrite (Hp i g e Hi).
Qed.
(** What [reconcilePublishedRuntime] leaves follows what is published. *)
Lemma reconciled w ru : sound w -> ~ registered w ->
  ru = reconcilePublishedRuntime cli configured {| g_id := wo_id w; g_policy := published w |} (wo_runtime w) ->
  follows cli (published w) ru /\ px_engine (ru_proxy ru) = px_engine (ru_proxy (wo_runtime w)).
Proof.
  intros Hw Hn ->. pose proof (so_before w Hw Hn) as Hf. unfold reconcilePublishedRuntime.
  destruct (g_id _ =? g_id configured)%nat eqn:Eid; cbn in Eid.
  - apply Nat.eqb_eq in Eid. split; [|done]. pose proof (so_genuine w Hw Eid) as E. cbn in E. by rewrite E.
  - cbn [refreshPolicyRuntime g_policy]. split; [|apply install_frame]. apply install_follows, Hw.
Qed.
Lemma sound_registered w w' i t0 g : sound w -> wo_tasks w !! i = Some t0 -> found t0 = Some g -> locks_ok w' ->
  wo_tasks w' = <[i := Done]> (wo_tasks w) -> wo_id w' = wo_id w -> wo_committer w' = wo_committer w ->
  wo_runtime w' = reconcilePublishedRuntime cli configured g (wo_runtime w) -> sound w'.
Proof.
  intros Hw Hi Ht Hl' Et Eid Eco Er. assert (registering t0 = true) as Hreg by by destruct t0.
  pose proof (register_first w i t0 (so_locks w Hw) Hi Hreg) as ->. rewrite (so_found w Hw _ _ _ Hi Ht) in Er.
  assert (~ registered w) as Hn by (unfold registered; rewrite Hi; by destruct t0).
  destruct (reconciled w (wo_runtime w') Hw Hn Er) as [Hf Ee]. clear Er.
  destruct Hw as [Hl Hr Hna Hg Hc Hfo Hp Hco Hb Ha].
  assert (Hreg' : registered w') by (unfold registered; rewrite Et; by rewrite list_lookup_insert_eq by by apply lookup_lt_Some in Hi).
  split; rewrite ?Ee, ?Eid, ?Eco; try done.
  - by apply follows_named in Hf.
  - intros j u g'. rewrite Et. intros [[-> ->]|[_ Hj]]%set_task_lookup; [done|by apply (Hc j)].
  - intros j u g'. rewrite Et. intros [[-> ->]|[_ Hj]]%set_task_lookup; [done|by apply (Hfo j)].
  - intros j g' e. rewrite Et. intros [[-> ?]|[_ Hj]]%set_task_lookup; [done|by apply (Hp j g' e)].
  - rewrite Hco, Hreg', Hi. split; [by intros [= ->]|done].
Qed.

Lemma RLock_Some i m m' : RLock i m = Some m' -> rw_writer m = None /\ rw_writer m' = None /\ rw_held m' = rw_held m /\
  rw_readers m' = {[i]} ∪ rw_readers m.
Proof. unfold RLock. destruct (rw_writer m) eqn:E; [done|]. by intros [= <-]. Qed.
Lemma Lock_begin_Some i m m' : Lock_begin i m = Some m' -> rw_writer m = None /\ rw_writer m' = Some i /\ rw_held m' = rw_held m /\
  rw_readers m' = rw_readers m.
Proof. unfold Lock_begin. destruct (rw_writer m) eqn:E; [done|]. by intros [= <-]. Qed.
Lemma Lock_end_Some m m' : Lock_end m = Some m' -> rw_readers m = ∅ /\ rw_writer m' = rw_writer m /\ rw_held m' = true /\ rw_readers m' = ∅.
Proof. unfold Lock_end. case_decide; [|done]. intros [= <-]. by cbn. Qed.

(** The premises of [locks_move], from what a step does to the locks. *)
Ltac locks_solve Hw :=
  pose proof (lk_exclusive _ Hw);
  repeat match goal with
  | H : RLock _ _ = Some _ |- _ => apply RLock_Some in H as (?&?&?&?); pose proof (not_held _ Hw ltac:(assumption))
  | H : Lock_begin _ _ = Some _ |- _ => apply Lock_begin_Some in H as (?&?&?&?); pose proof (not_held _ Hw ltac:(assumption))
  | H : Lock_end _ = Some _ |- _ => apply Lock_end_Some in H as (?&?&?&?)
  end;
  match goal with Hi : wo_tasks ?w !! ?i = Some ?t |- locks_ok ?w' =>
    pose proof (writer_at _ _ _ Hw Hi); pose proof (late_registered _ _ _ Hw Hi);
    eapply (locks_move w w' i); [exact Hw|exact Hi|reflexivity|done|..] end;
  unfold passes; cbn in *; simplify_eq/=; first [done | naive_solver (try congruence) | idtac].

Lemma reload_step_locks i w w' : sound w -> reload_step i w w' -> locks_ok w'.
Proof.
  intros Hs Hw'. pose proof (so_locks w Hs) as Hw.
  destruct Hw' as [g Hi Hg|Hi|g Hi Hm E|g Hi Hm E|g e rw Hi Hl|g e rw Hi Hl|g e Hi Hm|g e now out Hi|e Hi].
  all: locks_solve Hw.
  - left. apply quiet_registered; [done..|]. intros Hz. apply (so_committer w Hs) in Hz. congruence.
  - intros _. split; [done|]. exists i. naive_solver congruence.
  - intros _. apply (lk_held w Hw i). by eexists.
Qed.
Lemma register_step_locks i w w' : sound w -> register_step i w w' -> locks_ok w'.
Proof.
  intros Hs Hw'. pose proof (so_locks w Hs) as Hw. destruct Hw' as [Hi Hm|g Hi E|g rw Hi E Hl|g rw Hi Hl].
  all: pose proof (register_first w i _ Hw Hi eq_refl). all: locks_solve Hw.
Qed.
Lemma call_step_locks i w w' : sound w -> call_step i w w' -> locks_ok w'.
Proof.
  intros Hs Hw'. pose proof (so_locks w Hs) as Hw.
  destruct Hw' as [rw Hi Hl|Hi Hm|ru Hi Hm Hk|Hi|Hi|ru Hi Hm Hk|rw Hi Hl|ru rw Hi Hl Hk].
  all: locks_solve Hw.
  all: intros Hh; destruct (lk_exclusive w Hw Hh) as [-> ?]; split; [set_solver|done].
Qed.

(** A task other than the registration. *)
Lemma not_first w i t : sound w -> wo_tasks w !! i = Some t -> registering t = false -> t <> Done -> i <> 0%nat.
Proof. intros Hw Hi Ht Hd ->. destruct (lk_first w (so_locks w Hw)) as (u & Hu & [?| ->]); congruence. Qed.
Ltac sound_solve Hw :=
  match goal with Hi : wo_tasks ?w !! ?i = Some ?t |- sound ?w' =>
    eapply (sound_move w w' i); [exact Hw|exact Hi|reflexivity|assumption|by eapply not_first|cbn; done..|] end.

Lemma reload_step_sound i w w' : reload_step i w w' -> sound w -> sound w'.
Proof.
  intros Hs Hw. pose proof (reload_step_locks i w w' Hw Hs) as Hl'.
  destruct Hs as [g Hi Hg|Hi|g Hi Hm E|g Hi Hm E|g e rw Hi Hl|g e rw Hi Hl|g e Hi Hm|g e now out Hi|e Hi].
  - sound_solve Hw. intros g' [= <-] E. by rewrite (Hg E).
  - by sound_solve Hw.
  - by eapply sound_publish.
  - sound_solve Hw. intros g' [= <-]. by apply (so_carried w Hw i (Loaded g)).
  - sound_solve Hw. intros g' [= <-]. by apply (so_carried w Hw i (Committing g e)).
  - sound_solve Hw. intros g' [= <-]. by apply (so_carried w Hw i (Announced g e)).
  - by eapply sound_swap.
  - by eapply sound_commit.
  - by sound_solve Hw.
Qed.
Lemma call_step_sound i w w' : call_step i w w' -> sound w -> sound w'.
Proof.
  intros Hs Hw. pose proof (call_step_locks i w w' Hw Hs) as Hl'.
  destruct Hs as [rw Hi Hl|Hi Hm|ru Hi Hm Hk|Hi|Hi|ru Hi Hm Hk|rw Hi Hl|ru rw Hi Hl Hk].
  all: by sound_solve Hw.
Qed.
Lemma register_step_sound i w w' : register_step i w w' -> sound w -> sound w'.
Proof.
  intros Hs Hw. pose proof (register_step_locks i w w' Hw Hs) as Hl'.
  destruct Hs as [Hi Hm|g Hi E|g rw Hi E Hl|g rw Hi Hl].
  2, 4: by eapply sound_registered.
  all: pose proof (register_first w i _ (so_locks w Hw) Hi eq_refl) as ->; pose proof Hw as [Hlk Hr Hna Hg Hc Hfo Hp Hco Hb Ha].
  all: assert (~ registered w) as Hn by (unfold registered; by rewrite Hi).
  all: split; cbn; rewrite ?list_lookup_insert_eq by (by apply lookup_lt_Some in Hi); try done.
  - intros j u g' [[-> ->]|[_ Hj]]%set_task_lookup; [done|by apply (Hc j)].
  - intros j u g' [[-> ->]|[_ Hj]]%set_task_lookup; [by intros [= <-]|by apply (Hfo j)].
  - intros j g' e' [[-> ?]|[_ Hj]]%set_task_lookup; [done|by apply (Hp j g' e')].
  - intros _. by apply Hb.
  - unfold registered. cbn. by rewrite list_lookup_insert_eq by (by apply lookup_lt_Some in Hi).
  - intros j u g' [[-> ->]|[_ Hj]]%set_task_lookup; [done|by apply (Hc j)].
  - intros j u g' [[-> ->]|[_ Hj]]%set_task_lookup; [|by apply (Hfo j)]. by apply (Hfo 0%nat (Installed g)).
  - intros j g' e' [[-> ?]|[_ Hj]]%set_task_lookup; [done|by apply (Hp j g' e')].
  - rewrite Hco, Hi. by split.
  - intros _. by apply Hb.
  - unfold registered. cbn. by rewrite list_lookup_insert_eq by (by apply lookup_lt_Some in Hi).
Qed.
Lemma own_step_sound w w' : own_step w w' -> sound w -> sound w'.
Proof. intros [i w1 Hs|i w1 Hs|i w1 Hs]; [by apply (reload_step_sound i)|by apply (register_step_sound i)|by apply (call_step_sound i)]. Qed.
Lemma sound_add w t : sound w -> (registered w /\ (t = Calling \/ t = Stopping)) \/ t = Loading -> sound (add_task t w).
Proof.
  intros Hw Ht. pose proof (locks_add w t (so_locks w Hw) Ht) as Hl'. destruct Hw as [Hl Hr Hn Hg Hc Hfo Hp Hco Hb Ha].
  destruct (lk_first w Hl) as (v & Hv & _).
  assert (Hz : (wo_tasks w ++ [t]) !! 0%nat = wo_tasks w !! 0%nat) by (rewrite Hv; by apply lookup_app_l_Some).
  assert (Hnew : forall j u, (wo_tasks w ++ [t]) !! j = Some u -> wo_tasks w !! j = Some u \/ u = t).
  { intros j u [Hj|[_ Hj]]%lookup_app_Some; [by left|]. right. by apply list_lookup_singleton_Some in Hj as [_ <-]. }
  split; cbn; rewrite ?Hz; try done.
  - intros j u g [Hj| ->]%Hnew; [by apply (Hc j)|]. by destruct Ht as [[_ [-> | ->]]| ->].
  - intros j u g [Hj| ->]%Hnew; [by apply (Hfo j)|]. by destruct Ht as [[_ [-> | ->]]| ->].
  - intros j g e [Hj|Hj]%Hnew; [by apply (Hp j g e)|]. by destruct Ht as [[_ [-> | ->]]| ->].
  - unfold registered. cbn. by rewrite Hz.
  - unfold registered. cbn. rewrite Hz. intros E E'. apply Ha; [done|]. intros j (u & Hj & Hu). apply (E' j). exists u. split; [by apply lookup_app_l_Some|done].
Qed.
Lemma step_sound w w' : step w w' -> sound w -> sound w'.
Proof.
  intros Hs Hw. destruct Hs as [w' Hs| |t Hreg Ht|i Hi].
  - by apply (own_step_sound w).
  - apply sound_add; [done|by right].
  - apply sound_add; [done|by left].
  - assert (locks_ok (set_task i Answered w)) as Hl'.
    { pose proof (so_locks w Hw) as Hl. locks_solve Hl. }
    by sound_solve Hw.
Qed.
Lemma reachable_sound w0 w : sound w0 -> rtc step w0 w -> sound w.
Proof. intros Hs Hr. revert Hs. induction Hr as [|w w1 w2 H1' _ IH]; [done|]. intros Hs. by apply IH, (step_sound w). Qed.

(** ** Atomicity *)

(** The proxy as [New] leaves it, before [wirePolicyReload]: the watcher may be
    in its first reloads already, and may have published another policy than
    the configured one. *)
Record constructed (pid now : Z) (c : LaunchConfig) (n : nat) (w : World) : Prop := {
  co_runtime : wo_runtime w = New pid now c;
  co_cli : lc_CapabilityEval c = cli;
  co_policy : configured_policy c = g_policy configured;
  co_engine : match lc_Engine c with
    | Some e => e_registry e = PolicyRegistry.NewRegistry (e_policy e) /\ (wo_id w = g_id configured -> e_policy e = g_policy configured)
    | None => wo_id w = g_id configured
    end;
  co_committer : wo_committer w = false;
  co_mu : wo_mu w = None;
  co_rw : wo_rw w = unlocked;
  co_tasks : wo_tasks w = Registering :: replicate n Loading
}.

Lemma New_engine pid now c : e_policy (px_engine (ru_proxy (New pid now c))) = e_policy (default (Engine.NewEngine (Some (configured_policy c))) (lc_Engine c)) /\
  e_registry (px_engine (ru_proxy (New pid now c))) = e_registry (default (Engine.NewEngine (Some (configured_policy c))) (lc_Engine c)).
Proof.
  unfold New. change (lc_Policy (named pid c)) with (Some (configured_policy c)). set (p := {| px_engine := _ |}).
  destruct (sync_authorize_frame (configured_policy c) p) as (E & _). cbn -[syncInstructionAuthorize]. by rewrite E.
Qed.
Lemma constructed_sound pid now c n w : constructed pid now c n w -> sound w.
Proof.
  intros [Hr Hcli Hp He Hc Hm Hrw Ht]. destruct (New_follows pid now c) as [Hid Hf]. destruct (New_engine pid now c) as [Ep Er].
  rewrite Hcli, Hp in Hf.
  assert (Hl : forall i t, wo_tasks w !! i = Some t -> i = 0%nat /\ t = Registering \/ t = Loading).
  { intros i t. rewrite Ht. destruct i as [|i]; cbn; [intros [= <-]; by left|]. intros [-> _]%lookup_replicate. by right. }
  assert (Hat : forall P j, P Registering = false -> P Loading = false -> ~ at_ P (wo_tasks w) j).
  { intros P j E1 E2 (t & [[_ ->]| ->]%Hl & Hp'); congruence. }
  split; rewrite ?Hr, ?Hc, ?Ht; try done.
  - split; rewrite ?Hm, ?Hrw; try done.
    + rewrite Ht. eexists. split; [done|by left].
    + intros i (t & [[-> _]| ->]%Hl & Hp'); done.
    + intros _ i t Hi [[? _]| ->]%Hl; done.
    + intros j. split; [done|]. by intros ?%Hat.
    + intros j. split; [done|]. by intros ?%Hat.
    + intros j. split; [by intros ?%not_elem_of_empty|]. by intros ?%Hat.
    + by intros j ?%Hat.
  - rewrite Ep, Er. destruct (lc_Engine c); [apply He|done].
  - by intros _.
  - intros E. cbn [g_id g_policy] in *. rewrite Ep. destruct (lc_Engine c); [by apply He|exact Hp].
  - rewrite <- Ht. by intros i t g [[_ ->]| ->]%Hl.
  - rewrite <- Ht. by intros i t g [[_ ->]| ->]%Hl.
  - rewrite <- Ht. by intros i g e [[_ ?]|?]%Hl.
  - unfold registered. by rewrite Ht.
Qed.
(** Whoever is inside its barrier is a reader that no writer disturbs. *)
Lemma inside_barrier w i t : sound w -> wo_tasks w !! i = Some t -> reads t = true -> registered w /\ rw_held (wo_rw w) = false.
Proof.
  intros Hw Hi Ht. pose proof (so_locks w Hw) as Hl. split; [by apply (late_registered w i t); destruct t|].
  destruct (rw_held (wo_rw w)) eqn:E; [|done]. apply (lk_exclusive w Hl) in E as [E _].
  assert (i ∈ rw_readers (wo_rw w)) as Hin by (apply (lk_readers w Hl); by exists t). rewrite E in Hin. set_solver.
Qed.

(** C7.  However reloads, the registration, calls and a kinetic stop interleave,
    whoever takes [runtimeMu] once the committer is registered finds one
    generation: the policy of the snapshot, the registry of that policy, and
    every surface — redaction of calls and of records, approval timeout,
    capability accounting, authority continuity and its keys — as that policy
    sets it. *)
Theorem reload_consistent pid now c n w0 w serverName :
  constructed pid now c n w0 -> rtc step w0 w ->
  (registered w /\ rw_held (wo_rw w) = false) \/ (exists i t, wo_tasks w !! i = Some t /\ reads t = true) ->
  let snapshot := runtimeSnapshotLocked cfg (ru_proxy (wo_runtime w)) serverName in
  follows cli (rt_policy snapshot) (wo_runtime w) /\
  e_registry (px_engine (ru_proxy (wo_runtime w))) = PolicyRegistry.NewRegistry (rt_policy snapshot) /\
  rt_redactor snapshot = Redaction.NewEngine (p_Redaction (rt_policy snapshot)) /\
  rt_approvalTimeout snapshot = Approval.ap_timeout (ru_approval (wo_runtime w)) /\
  rt_authorize snapshot = st_InstructionAuthorityContinuity (p_Settings (rt_policy snapshot)) /\
  rt_identity snapshot = identityEvidence cfg (rt_policy snapshot) serverName.
Proof.
  intros Hc Hr Hlock. pose proof (reachable_sound w0 w (constructed_sound _ _ _ _ _ Hc) Hr) as Hw.
  assert (registered w /\ rw_held (wo_rw w) = false) as [Hreg Hheld].
  { destruct Hlock as [?|(i & t & Hi & Ht)]; [done|by eapply inside_barrier]. }
  assert (Hf : follows cli (published w) (wo_runtime w)).
  { apply (so_after w Hw Hreg). intros j (t & Hj & Ht). enough (rw_held (wo_rw w) = true) by congruence.
    apply (lk_held w (so_locks w Hw) j). exists t. split; [done|by destruct t]. }
  cbn. split_and!; [done|apply Hw| | |apply Hf|done].
  - apply (fo_redactor _ _ _ Hf).
  - by rewrite (fo_timeout _ _ _ Hf).
Qed.

(** ** Progress *)

(** The steps of its own a task has ahead, at most. *)
Definition ahead (t : Task) : nat :=
  match t with
  | Loading => 7 | Loaded _ => 6 | Committing _ _ => 5 | Announced _ _ => 4 | Holding _ _ => 3 | Publishing _ _ => 2 | Forwarding _ => 1
  | Registering => 3 | Installed _ => 2 | Reconciling _ => 1
  | Calling => 4 | Reading => 3 | Judging => 2 | Judged | Answered => 1 | Waiting => 0
  | Stopping => 2 | StopAnnounced => 1 | Done => 0
  end.
Definition work (w : World) : nat := sum_list_with ahead (wo_tasks w).

Lemma sum_insert (ts : list Task) i t t' : ts !! i = Some t -> (ahead t' < ahead t)%nat ->
  (sum_list_with ahead (<[i := t']> ts) < sum_list_with ahead ts)%nat.
Proof.
  revert i. induction ts as [|u ts IH]; intros [|i]; [done|done| |].
  - intros [= ->]. change (<[0%nat := t']> (t :: ts)) with (t' :: ts). cbn [sum_list_with]. lia.
  - intros Hi Ht. change (<[S i := t']> (u :: ts)) with (u :: <[i := t']> ts). cbn [sum_list_with]. specialize (IH i Hi Ht). lia.
Qed.
Lemma own_step_works w w' : own_step w w' -> (work w' < work w)%nat.
Proof.
  unfold work. intros [i w1 []|i w1 []|i w1 []]; cbn; eapply sum_insert; try done; cbn; lia.
Qed.
Lemma work_le w : (work w <= 7 * length (wo_tasks w))%nat.
Proof. unfold work. induction (wo_tasks w) as [|t ts IH]; [done|]. cbn [sum_list_with length]. destruct t; cbn [ahead]; lia. Qed.

(** While the watcher's lock is held, its holder can go on. *)
Lemma holder_moves w j : sound w -> wo_mu w = Some j -> exists w', own_step w w'.
Proof.
  intros Hw Hm. pose proof (so_locks w Hw) as Hl. apply (lk_mu w Hl) in Hm as (t & Hj & Ht).
  assert (registering t = true) as Hreg by by destruct t. pose proof (register_first w j t Hl Hj Hreg) as ->.
  assert (~ registered w) as Hn by (unfold registered; rewrite Hj; by destruct t).
  assert (Hothers : forall P i, P Loading = false -> (forall g, P (Loaded g) = false) -> P Done = false -> at_ P (wo_tasks w) i -> i = 0%nat).
  { intros P i E1 E2 E3 (u & Hi & Hu). destruct (decide (i = 0%nat)) as [->|Hi0]; [done|].
    pose proof (lk_early w Hl Hn i u Hi0 Hi). destruct u as [|g| | | | | | | | | | | | | | | | |]; try done; congruence. }
  destruct t; try done.
  - destruct (decide (g_id g = g_id configured)) as [E|E].
    { eexists. eapply step_register. by apply step_same. }
    assert (rw_writer (wo_rw w) = None) as Ew.
    { destruct (rw_writer (wo_rw w)) as [k|] eqn:E'; [|done]. pose proof E' as Hk. apply (lk_writer w Hl) in Hk.
      pose proof (Hothers writes k eq_refl (fun _ => eq_refl) eq_refl Hk) as ->. destruct Hk as (u & Hu & Hw'). rewrite Hj in Hu. by injection Hu as <-. }
    eexists. eapply step_register, step_reconcile; [done..|]. unfold Lock_begin. by rewrite Ew.
  - assert (rw_readers (wo_rw w) = ∅) as Er.
    { apply set_eq. intros k. split; [|set_solver]. intros Hk%(lk_readers w Hl).
      pose proof (Hothers reads k eq_refl (fun _ => eq_refl) eq_refl Hk) as ->. destruct Hk as (u & Hu & Hr). rewrite Hj in Hu. by injection Hu as <-. }
    eexists. eapply step_register, step_refresh; [done|]. unfold Lock_end. by rewrite decide_True.
Qed.
(** While nobody holds it, a reader of [runtimeMu] can. *)
Lemma reader_moves w k : sound w -> wo_mu w = None -> k ∈ rw_readers (wo_rw w) -> exists w', own_step w w'.
Proof.
  intros Hw Hm (t & Hk & Ht)%(lk_readers w (so_locks w Hw)). destruct t; try done; eexists; eapply step_call.
  - by apply (step_snapshot k).
  - by apply (step_judge k w (wo_runtime w)).
  - by apply (step_leave k).
Qed.
(** So can its writer, or a reader it waits for. *)
Lemma writer_moves w j : sound w -> wo_mu w = None -> rw_writer (wo_rw w) = Some j -> exists w', own_step w w'.
Proof.
  intros Hw Hm (t & Hj & Ht)%(lk_writer w (so_locks w Hw)).
  destruct (decide (rw_readers (wo_rw w) = ∅)) as [E|[k Hk]%set_choose_L]; [|by eapply reader_moves].
  assert (exists rw, Lock_end (wo_rw w) = Some rw) as [rw Hrw] by (unfold Lock_end; rewrite decide_True by done; eauto).
  destruct t; try done.
  - eexists. eapply step_reload. by eapply (step_lock cfg cli configured j).
  - eexists. eapply step_reload. by eapply (step_swap cfg cli configured j).
  - eexists. eapply step_reload. by eapply (step_commit cfg cli configured j w g e 0 {| wo_n := 0; wo_err := true |}).
  - assert (wo_mu w = Some j) by (apply (lk_mu w (so_locks w Hw)); by eexists). congruence.
  - eexists. eapply step_call. by eapply (step_stopped j w (wo_runtime w)).
Qed.
(** No task but one that waits for the operator waits for ever. *)
Lemma task_moves w i t : sound w -> wo_tasks w !! i = Some t -> t <> Done -> t <> Waiting -> exists w', own_step w w'.
Proof.
  intros Hw Hi Hd Hwait. destruct (wo_mu w) as [j|] eqn:Hm; [by eapply holder_moves|].
  destruct (rw_writer (wo_rw w)) as [j|] eqn:Ew; [by eapply writer_moves|].
  pose proof (lk_mu w (so_locks w Hw) i) as Hmi. pose proof (lk_writer w (so_locks w Hw) i) as Hwi.
  rewrite Hm, (at_here _ _ _ _ Hi) in Hmi. rewrite Ew, (at_here _ _ _ _ Hi) in Hwi.
  assert (in_mu t = false) as Em by (destruct (in_mu t); naive_solver). assert (writes t = false) as Et by (destruct (writes t); naive_solver).
  destruct t; try done.
  - eexists. eapply step_reload. by apply (step_load_error _ _ _ i).
  - destruct (wo_committer w) eqn:E; eexists; eapply step_reload; [by apply (step_choose _ _ _ i)|by apply (step_publish _ _ _ i)].
  - eexists. eapply step_reload, step_announce; [done|]. unfold Lock_begin. by rewrite Ew.
  - eexists. eapply step_reload. by eapply (step_forward _ _ _ i).
  - eexists. eapply step_register. by apply (step_install _ _ i).
  - eexists. eapply step_call, step_enter; [done|]. unfold RLock. by rewrite Ew.
  - eapply (reader_moves w i); [done..|]. apply (lk_readers w (so_locks w Hw)). by eexists.
  - eapply (reader_moves w i); [done..|]. apply (lk_readers w (so_locks w Hw)). by eexists.
  - eapply (reader_moves w i); [done..|]. apply (lk_readers w (so_locks w Hw)). by eexists.
  - eexists. eapply step_call. by apply (step_finish i w (wo_runtime w)).
  - eexists. eapply step_call, step_stop; [done|]. unfold Lock_begin. by rewrite Ew.
Qed.

(** C15.  No lock stops the proxy: from any state that reloads, the registration,
    calls and a kinetic stop can reach, the tasks under way take at most seven
    steps each, and when none can take another, every one has returned but the
    calls that wait for the operator — and those hold neither [runtimeMu] nor
    the watcher's lock, so a policy reloads while an approval is pending. *)
Theorem reloads_finish pid now c n w0 w w' k :
  constructed pid now c n w0 -> rtc step w0 w -> nsteps own_step k w w' ->
  (k <= 7 * length (wo_tasks w))%nat /\
  ((forall w'', ~ own_step w' w'') ->
    (forall i t, wo_tasks w' !! i = Some t -> t = Done \/ t = Waiting) /\
    wo_mu w' = None /\ rw_writer (wo_rw w') = None /\ rw_readers (wo_rw w') = ∅).
Proof.
  intros Hc Hr Hk. pose proof (reachable_sound w0 w (constructed_sound _ _ _ _ _ Hc) Hr) as Hw. clear Hc Hr. split.
  - pose proof (work_le w) as Hl. enough (k + work w' <= work w)%nat by lia. clear Hl Hw.
    induction Hk as [|k w w1 w2 H1' _ IH]; [lia|]. apply own_step_works in H1'. lia.
  - assert (sound w') as Hw'.
    { revert Hw. induction Hk as [|k w w1 w2 H1' _ IH]; [done|]. intros Hw. by apply IH, (own_step_sound w). }
    intros Hstuck. assert (Ht : forall i t, wo_tasks w' !! i = Some t -> t = Done \/ t = Waiting).
    { intros i t Hi. destruct (decide (ahead t = 0%nat)) as [E|E]; [destruct t; auto; done|].
      destruct (task_moves w' i t Hw' Hi) as [w'' Hs]; [by intros ->|by intros ->|by destruct (Hstuck w'')]. }
    assert (Hat : forall P j, P Done = false -> P Waiting = false -> ~ at_ P (wo_tasks w') j).
    { intros P j E1 E2 (t & [-> | ->]%Ht & Hp); congruence. }
    destruct (so_locks w' Hw') as [_ _ _ Hm Hwr Hrd _ _]. split_and!; [done|..].
    + destruct (wo_mu w') as [j|]; [|done]. by destruct (Hat in_mu j eq_refl eq_refl (proj1 (Hm j) eq_refl)).
    + destruct (rw_writer (wo_rw w')) as [j|]; [|done]. by destruct (Hat writes j eq_refl eq_refl (proj1 (Hwr j) eq_refl)).
    + apply set_eq. intros j. rewrite Hrd. split; [by intros ?%Hat|set_solver].
Qed.
End worlds.

(** ** Attestation *)

Section attestation.
Context `{GoCrypto, GoFmt}.

(** The configuration of a proxy that was launched. *)
Definition launched (h : ServerIdentity.Host) (c : LaunchConfig) (pol0 : Policy) (cfg : Config) : Prop :=
  cf_Resolved cfg = ServerIdentity.rv_Digest <$> la_resolved (resolveLaunchedIdentity h c pol0) /\
  cf_LaunchShape cfg = la_shape (resolveLaunchedIdentity h c pol0).

(** C14.  Reloads cannot attest anything but the launch: whatever policy has been
    published since, a server is attested only if the policy at the launch
    pinned one, and the digest of the pin in force is that of the bytes the
    host had at the launch — the executable, the arguments and the contents of
    the entry files at the very positions the pin in force declares. *)
Theorem attested_means_measured h c pol0 cfg pol serverName :
  launched h c pol0 cfg -> lc_ResolvedIdentity c = None ->
  se_attested (identityEvidence cfg pol serverName) = true ->
  exists srv pin v, findServerByName pol serverName = Some srv /\ s_Attestation srv = Some pin /\
    (exists srv0 pin0, findServerByName pol0 (lc_ServerName c) = Some srv0 /\ s_Attestation srv0 = Some pin0 /\ sa_Kind pin0 = sa_Kind pin) /\
    lc_ServerURL c = "" /\
    ServerIdentity.invokes h (lc_ServerCommand c) (lc_ServerArgs c) (sa_EntryArgPositions pin) v /\
    sa_Digest pin = "sha256:" +:+ sha256_hex (ServerIdentity.encode v).
Proof.
  intros [Hr Hs] Hn. unfold identityEvidence. destruct (findServerByName pol serverName) as [srv|] eqn:Esrv; [|done].
  destruct (s_Attestation srv) as [pin|] eqn:Epin; [|done]. destruct (cf_Resolved cfg) as [digest|]; [|done].
  destruct (attestationShapeMatches cfg pin) eqn:Em; [|done]. cbn [negb]. destruct (digest <>s? sa_Digest pin) eqn:Ed; [done|].
  intros _. bools. unfold attestationShapeMatches in Em. rewrite Hs in Em. unfold resolveLaunchedIdentity, prepareIdentity in *. cbn in *.
  destruct (findServerByName pol0 (lc_ServerName c)) as [srv0|] eqn:E0; [|done].
  destruct (s_Attestation srv0) as [pin0|] eqn:Epin0; [|done]. rewrite Hn in Hr. cbn in Em.
  destruct ((lc_ServerURL c <>s? "") || (lc_ServerCommand c =s? "")) eqn:Eu; [done|].
  apply orb_false_iff in Eu as [Eu _]. apply str_neqb_false in Eu. apply andb_true_iff in Em as [Ek Ep].
  apply str_eqb_true in Ek. apply bool_decide_eq_true in Ep.
  destruct (ServerIdentity.ResolveStdioInvocation _ _ _ _) as [r|] eqn:Er; [|done]. injection Hr as Hr.
  assert (forall pos, pos ∈ sa_EntryArgPositions pin0 <-> pos ∈ sa_EntryArgPositions pin) as Hpos.
  { intros pos. by rewrite <- (merge_sort_Permutation Z.le (sa_EntryArgPositions pin0)), <- Ep, merge_sort_Permutation. }
  pose proof (ServerIdentity.positions_are_a_set h (lc_ServerCommand c) (lc_ServerArgs c) _ _ Hpos) as Hset. rewrite Er in Hset.
  destruct (ServerIdentity.ResolveStdioInvocation _ _ _ (sa_EntryArgPositions pin)) as [r'|] eqn:Er'; [|done]. subst r'.
  apply ServerIdentity.Resolve_invokes in Er' as (v & Hv & Hd & _ & _).
  exists srv, pin, v. split_and!; try done; [by exists srv0, pin0|congruence].
Qed.
End attestation.

(** ** The loop *)

(** Whether a change has come since the timer last fired. *)
Fixpoint unreloaded (seen : bool) (inputs : list LoopInput) : bool :=
  match inputs with
  | [] => seen
  | OnEvent e :: inputs => unreloaded (seen || changes e) inputs
  | OnError :: inputs => unreloaded seen inputs
  | OnTimer :: inputs => unreloaded false inputs
  end.
Definition coherent (s : LoopState) : Prop := lo_pending s = lo_armed s /\ lo_needsReload s = lo_armed s.

Lemma loop_step_coherent s i s' r : coherent s -> loop_step s i = Some (s', r) ->
  coherent s' /\ lo_armed s' = unreloaded (lo_armed s) [i] /\ r = match i with OnTimer => true | _ => false end.
Proof.
  intros [Hp Hn]. destruct i as [e| |]; cbn; rewrite ?Hp, ?Hn.
  - destruct (changes e), (lo_armed s) eqn:E; intros [= <- <-]; unfold coherent; cbn; rewrite ?Hp, ?Hn, ?E; done.
  - intros [= <- <-]. by unfold coherent.
  - destruct (lo_armed s); [|done]. by intros [= <- <-].
Qed.
Lemma loop_coherent s inputs s' rs : coherent s -> loop s inputs = Some (s', rs) ->
  coherent s' /\ lo_armed s' = unreloaded (lo_armed s) inputs /\ rs = (fun i => match i with OnTimer => true | _ => false end) <$> inputs.
Proof.
  revert s rs. induction inputs as [|i inputs IH]; intros s rs Hs; cbn [loop].
  { by intros [= <- <-]. }
  destruct (loop_step s i) as [[s1 r]|] eqn:E1; [|done]. destruct (loop s1 inputs) as [[s2 rs']|] eqn:E2; [|done]. intros [= <- <-].
  apply (loop_step_coherent _ _ _ _ Hs) in E1 as (Hs1 & Ha1 & ->). apply (IH _ _ Hs1) in E2 as (Hs2 & Ha2 & ->).
  split_and!; [done| |by destruct i]. rewrite Ha2, Ha1. by destruct i.
Qed.

(** Debouncing loses no change: the timer runs exactly while a change is
    waiting, so a change is followed by a reload as soon as the timer fires,
    whatever events come in between, and a reload happens only then. *)
Theorem change_reloaded inputs s rs : loop loop_start inputs = Some (s, rs) ->
  lo_armed s = unreloaded false inputs /\
  rs = (fun i => match i with OnTimer => true | _ => false end) <$> inputs /\
  loop_step s OnTimer = if unreloaded false inputs then Some (loop_start, true) else None.
Proof.
  intros (Hs & Ha & ->)%loop_coherent; [|done]. split_and!; [done..|]. cbn in *. destruct Hs as [_ Hn]. rewrite Hn, Ha.
  by destruct (unreloaded false inputs).
Qed.
(** The removal of the file is no change, so a file that is replaced by
    removing it and renaming another one into place is not reloaded: of the
    two, the watch on the file only sees the removal. *)
Lemma removal_not_reloaded n s rs :
  loop loop_start (replicate n (OnEvent {| fe_Write := false; fe_Create := false; fe_Rename := false; fe_Remove := true |})) = Some (s, rs) ->
  lo_armed s = false.
Proof.
  intros (_ & -> & _)%loop_coherent; [|done]. cbn. induction n as [|n IH]; [done|]. by cbn.
Qed.
Lemma change_reloaded_witness : exists inputs s rs, loop loop_start inputs = Some (s, rs) /\ unreloaded false inputs = true /\
  loop_step s OnTimer = Some (loop_start, true).
Proof.
  pose (e := {| fe_Write := true; fe_Create := false; fe_Rename := false; fe_Remove := false |}).
  destruct (change_reloaded [OnEvent e; OnTimer; OnError; OnEvent e; OnEvent e] _ _ eq_refl) as (_ & _ & E).
  exists [OnEvent e; OnTimer; OnError; OnEvent e; OnEvent e]. do 2 eexists. split_and!; [reflexivity|reflexivity|exact E].
Defined.

(** ** A reload that turns accounting on *)

Module ReloadWitness.
Import CallWitness.
#[local] Existing Instances ascii_unicode amd64 decimal_time plain_quote coded_snapshot
  EngineSpec.EngineWitness.anchored LedgerSpec.AuditWitness.no_patterns CapabilitySpec.CapabilityWitness.netip
  CapabilitySpec.CapabilityWitness.fs CapabilitySpec.CapabilityWitness.json LedgerSpec.AuditWitness.no_read digest arguments.

Definition config : LaunchConfig := {|
  lc_SessionID := ""; lc_ClientID := ""; lc_ServerName := "mail"; lc_ServerCommand := "python"; lc_ServerArgs := ServerIdentity.script_args;
  lc_ServerURL := ""; lc_Policy := Some (policy []); lc_Engine := None; lc_VerifiedActor := None; lc_Logger := LedgerSpec.AuditWitness.empty;
  lc_ApprovalCLI := true; lc_ApprovalDir := ""; lc_CapabilityEval := false; lc_TrajectoryAdvisor := false; lc_ResolvedIdentity := None |}.
Definition first : Gen := {| g_id := 1; g_policy := policy [] |}.
Definition accounting (p : Policy) : Policy := {|
  p_Version := p_Version p; p_Description := p_Description p; p_DefaultAction := p_DefaultAction p;
  p_Settings := {| st_MaxArgumentSizeBytes := 0; st_MaxOutputSizeBytes := 0; st_SessionMaxTools := 1;
    st_SessionTimeoutSecs := 0; st_ApprovalTimeoutSecs := 7; st_MaxSpawnDepth := 0; st_ChainWindowSize := 0;
    st_LogLevel := ""; st_CapabilityEval := true; st_InstructionAuthorityContinuity := true;
    st_InstructionAuthorityKeys := []; st_RequireVerifiedActor := false |};
  p_Servers := p_Servers p; p_ToolChains := p_ToolChains p; p_Taints := []; p_EgressControls := []; p_Identities := [];
  p_TimeRestrictions := []; p_Redaction := p_Redaction p; p_CapabilityOwnership := None; p_Identity := None; p_Trajectories := [] |}.
Definition second : Gen := {| g_id := 2; g_policy := accounting (policy []) |}.
(** Constructed while a reload is under way. *)
Definition begun : World := {| wo_id := 1; wo_committer := false; wo_runtime := New 42 0 config; wo_mu := None; wo_rw := unlocked;
  wo_tasks := [Registering; Loading] |}.
Definition written : WriteOut := {| wo_n := 0; wo_err := true |}.
Definition event : Event := reloadEvent cfg (g_policy second) (ru_proxy (New 42 0 config)).
(** The registration is over, and a call waits for the operator. *)
Definition asked : World := {| wo_id := 1; wo_committer := true; wo_runtime := New 42 0 config; wo_mu := None; wo_rw := unlocked;
  wo_tasks := [Done; Loading; Waiting] |}.
(** The reload commits meanwhile. *)
Definition reloaded : World := {| wo_id := 2; wo_committer := true;
  wo_runtime := commit_surfaces false (g_policy second) event 0 written (publish (g_policy second) (New 42 0 config));
  wo_mu := None; wo_rw := unlocked; wo_tasks := [Done; Forwarding event; Waiting] |}.
Definition returned : World := set_task 1 Done (set_runtime (forward_reload event (wo_runtime reloaded)) reloaded).
Lemma begun_constructed : constructed false first 42 0 config 1 begun.
Proof. by split. Qed.
Ltac own t := eapply rtc_l; [apply step_own; t; reflexivity|cbn].
Lemma begun_asked : rtc (step cfg false first) begun asked.
Proof.
  own ltac:(eapply step_register, (step_install _ _ 0)). own ltac:(eapply step_register, (step_same _ _ 0)).
  eapply rtc_l; [apply (step_arrive _ _ _ _ Calling); [reflexivity|by left]|cbn].
  own ltac:(eapply step_call, (step_enter 2)). own ltac:(eapply step_call, (step_snapshot 2)).
  own ltac:(eapply step_call, (step_judge 2 _ (New 42 0 config)); [| |by split_and!]).
  own ltac:(eapply step_call, (step_ask 2)). apply rtc_refl.
Qed.
Lemma asked_reloaded : rtc (step cfg false first) asked reloaded.
Proof.
  own ltac:(eapply step_reload, (step_load _ _ _ 1 _ second); [|done]).
  own ltac:(eapply step_reload, (step_choose _ _ _ 1)). own ltac:(eapply step_reload, (step_announce _ _ _ 1)).
  own ltac:(eapply step_reload, (step_lock _ _ _ 1)). own ltac:(eapply step_reload, (step_swap _ _ _ 1)).
  own ltac:(eapply step_reload, (step_commit _ _ _ 1 _ second event 0 written)). apply rtc_refl.
Qed.
Lemma begun_reloaded : rtc (step cfg false first) begun reloaded.
Proof. transitivity asked; [apply begun_asked|apply asked_reloaded]. Qed.
Lemma reloaded_returned : own_step cfg false first reloaded returned.
Proof. eapply step_reload. by apply (step_forward _ _ _ 1). Qed.
Lemma returned_rests w : ~ own_step cfg false first returned w.
Proof. intros Hs%own_step_works. cbn in Hs. lia. Qed.

(** The server of [ServerIdentity], pinned. *)
Definition pinned : Policy :=
  let s := PolicyRegistry.RegistryWitness.server "mail" [] in
  PolicyRegistry.RegistryWitness.policy [{| s_Name := "mail"; s_Transport := s_Transport s; s_Allowed := true; s_AllowedDestinations := [];
    s_DeniedDestinations := []; s_WorkspaceRoot := ""; s_Tools := [];
    s_Attestation := Some {| sa_Kind := "k"; sa_EntryArgPositions := [0];
      sa_Digest := ServerIdentity.rv_Digest (ServerIdentity.ok_or (ServerIdentity.ResolveStdioInvocation ServerIdentity.files "python"
        ServerIdentity.script_args [0])) |} |}].
Definition pinned_cfg : Config :=
  let l := resolveLaunchedIdentity ServerIdentity.files config pinned in {|
  cf_ClientID := "c"; cf_ServerName := "mail"; cf_VerifiedActor := None; cf_KillSwitchDir := "/k"; cf_SessionID := "s";
  cf_SessionEpoch := 0; cf_Signer := None; cf_Approval := None; cf_Resolved := ServerIdentity.rv_Digest <$> la_resolved l;
  cf_LaunchShape := la_shape l; cf_ClaimedName := ""; cf_ClaimedVersion := "" |}.
End ReloadWitness.

Section reload_witness.
Import CallWitness ReloadWitness.
#[local] Existing Instances ascii_unicode amd64 decimal_time plain_quote coded_snapshot
  EngineSpec.EngineWitness.anchored LedgerSpec.AuditWitness.no_patterns CapabilitySpec.CapabilityWitness.netip
  CapabilitySpec.CapabilityWitness.fs CapabilitySpec.CapabilityWitness.json LedgerSpec.AuditWitness.no_read digest arguments.

Lemma reload_consistent_witness : exists w, rtc (step cfg false first) begun w /\
  st_CapabilityEval (p_Settings (e_policy (px_engine (ru_proxy (wo_runtime begun))))) = false /\
  is_Some (px_capEval (ru_proxy (wo_runtime w))) /\ px_authorize (ru_proxy (wo_runtime w)) = true.
Proof.
  destruct (reload_consistent cfg false first 42 0 config 1 begun reloaded "mail" begun_constructed begun_reloaded (or_introl (conj eq_refl eq_refl)))
    as (Hf & _). exists reloaded. split_and!; [apply begun_reloaded|reflexivity| |exact (fo_authorize _ _ _ Hf)].
  apply (fo_capEval _ _ _ Hf). split; [by right|]. by vm_compute.
Defined.
(** The reload returns while the call waits, and nothing is held. *)
Lemma reloads_finish_witness : wo_tasks returned = [Done; Done; Waiting] /\ (1 <= 7 * length (wo_tasks reloaded))%nat /\
  (forall i t, wo_tasks returned !! i = Some t -> t = Done \/ t = Waiting) /\ rw_readers (wo_rw returned) = ∅.
Proof.
  destruct (reloads_finish cfg false first 42 0 config 1 begun reloaded returned 1 begun_constructed begun_reloaded
    (nsteps_once _ _ reloaded_returned)) as [Hle Hrest].
  destruct (Hrest returned_rests) as (Ht & _ & _ & Hr). by split_and!.
Defined.
Lemma attested_means_measured_witness : exists pin v, ServerIdentity.invokes ServerIdentity.files "python" ServerIdentity.script_args
    (sa_EntryArgPositions pin) v /\ sa_Digest pin = "sha256:" +:+ sha256_hex (ServerIdentity.encode v).
Proof.
  destruct (attested_means_measured ServerIdentity.files config pinned pinned_cfg pinned "mail" (conj eq_refl eq_refl) eq_refl)
    as (srv & pin & v & _ & _ & _ & _ & Hv & Hd); [by vm_compute|]. by exists pin, v.
Defined.
End reload_witness.
