(* ===== verification/ServerRelay.v ===== *)
(** What reaches the client, and the handshake: [redactServerResponse],
    [logServerMessage], [relayServerToClient] and [runHandshake] of
    [internal/proxy/proxy.go], with their remote forms in [remote.go], and
    [relayHandshakeClientMessage] of [client_envelope.go].

    JSON is read and written by parameters ([ResponseJSON]). *)
From stdpp Require Import base strings gmap list.
From Stdlib Require Import ZArith Lia Ascii.
From S2P Require Import Prelude GoStrings GoLib Lineage LineageRegistry ActorContext.
From S2P Require Import PolicyTypes PolicyRegistry Slots Engine OwnershipGate Session Taint Redaction.
From S2P Require Import Ledger InstructionAuthority InstructionAuth Trajectory.
From S2P Require Import GoPath Capability CapabilityEval CallArgs Proxy ToolsCall Envelope.
From S2P Require Approval Receipt.
#[local] Open Scope Z_scope.

Record Content := { nt_Type : string; nt_Text : string; nt_MimeType : string; nt_Data : string }.
Record ToolsCallResult := { ts_Content : list Content; ts_IsError : bool }.
(** The response as [redactServerResponse] decodes it; [None] is an absent
    member. *)
Record ServerResponse := {
  sv_JSONRPC : string;
  sv_ID : any;
  sv_Result : option string;
  sv_Error : option string
}.
(** [mcp.Response], as far as it is read: whether it holds an error, and the
    result, empty when absent. *)
Record Response := { ps_Error : bool; ps_Result : string }.
Record Implementation := { im_Name : string; im_Version : string }.

Class ResponseJSON := {
  unmarshal_server : string -> option ServerResponse;
  unmarshal_result : string -> option ToolsCallResult;
  marshal_result : ToolsCallResult -> option string;
  marshal_server : ServerResponse -> option string;
  unmarshal_response : string -> option Response;
  (** [json.Unmarshal] into an [InitializeRequest] and an [InitializeResult]:
      the client's and the server's name and version *)
  unmarshal_init_request : string -> option Implementation;
  unmarshal_init_result : string -> option Implementation
}.

Definition MethodInitialize : string := "initialize".
Definition truncation_note (max : Z) : string :=
  String LF "" +:+ "[TRUNCATED: output exceeded " +:+ Itoa max +:+ " bytes]".

Section client.
Context `{GoUnicode, GoPatterns, GoReplace, GoArch, GoTime, GoFmt, GoJSON, GoCrypto, SnapshotJSON, CapJSON}.
Context `{GoNetip, GoFS, EventJSON, GateJSON, AssertionCrypto, RawJSON, Receipt.DecisionJSON, Approval.GoDuration, WireJSON, ResponseJSON}.

(** ** Responses *)

(** The text of a content item, redacted and cut. *)
Definition limited (redactor : RedactionEngine) (maxOutput : Z) (text : string) : string :=
  if text =s? "" then text
  else
    let redacted := RedactOutput redactor text in
    if (0 <? maxOutput) && (maxOutput <? Z.of_nat (String.length redacted))
    then take_bytes (Z.to_nat maxOutput) redacted +:+ truncation_note maxOutput
    else redacted.
Definition with_text (c : Content) (text : string) : Content := {|
  nt_Type := nt_Type c; nt_Text := text; nt_MimeType := nt_MimeType c; nt_Data := nt_Data c |}.
(** The loop over [result.Content], and [modified]. *)
Fixpoint redact_contents (redactor : RedactionEngine) (maxOutput : Z) (l : list Content) : list Content * bool :=
  match l with
  | [] => ([], false)
  | c :: l =>
      let '(l, modified) := redact_contents redactor maxOutput l in
      let text := limited redactor maxOutput (nt_Text c) in
      if text <>s? nt_Text c then (with_text c text :: l, true) else (c :: l, modified)
  end.

Definition redactServerResponse (p : Proxy) (raw : string) : string :=
  match unmarshal_server raw with
  | None => raw
  | Some resp =>
      match sv_Result resp with
      | None => raw
      | Some data =>
          match unmarshal_result data with
          | None => raw
          | Some result =>
              let pol := e_policy (px_engine p) in
              let '(contents, modified) := redact_contents (px_redactor p) (st_MaxOutputSizeBytes (p_Settings pol)) (ts_Content result) in
              if negb modified then raw
              else match marshal_result {| ts_Content := contents; ts_IsError := ts_IsError result |} with
              | None => raw
              | Some newResult =>
                  match marshal_server {| sv_JSONRPC := sv_JSONRPC resp; sv_ID := sv_ID resp; sv_Result := Some newResult;
                                          sv_Error := sv_Error resp |} with
                  | None => raw
                  | Some newRaw => newRaw +:+ String LF ""
                  end
              end
          end
      end
  end.

(** The result of the last recorded call. *)
Definition set_result (preview : string) (l : list ToolCallRecord) : list ToolCallRecord :=
  match last l with
  | None => l
  | Some c => removelast l ++ [{| tr_Timestamp := tr_Timestamp c; tr_ServerName := tr_ServerName c; tr_ToolName := tr_ToolName c;
                                  tr_Arguments := tr_Arguments c; tr_Result := preview |}]
  end.
Definition preview_of (result : ToolsCallResult) : string :=
  let preview := match List.find (fun c => nt_Text c <>s? "") (ts_Content result) with Some c => nt_Text c | None => "" end in
  if (200 <? String.length preview)%nat then take_bytes 200 preview +:+ "..." else preview.
Definition logServerMessage (raw : string) (p : Proxy) : Proxy :=
  match unmarshal_response raw with
  | None => p
  | Some resp =>
      if ps_Error resp then p
      else match unmarshal_result (ps_Result resp) with
      | None => p
      | Some result =>
          set_session (with_calls (px_session p) (set_result (preview_of result) (ss_ToolCalls (px_session p)))) p
      end
  end.

(** A message of the server; before it the others act, and after it the client
    took it or not. *)
Record ServerTurn := { su_others : Proxy -> Proxy; su_raw : string; su_written : bool }.
(** [relayServerToClient] and [relayRemoteServerToClient]: what is written. *)
Fixpoint relayServerToClient (turns : list ServerTurn) (p : Proxy) : list string :=
  match turns with
  | [] => []
  | t :: turns =>
      let p := su_others t p in
      let raw := redactServerResponse p (su_raw t) in
      let p := logServerMessage raw p in
      raw :: (if su_written t then relayServerToClient turns p else [])
  end.

(** ** The handshake *)

(** What the peers do: the lines read ([None] is an error), whether each write
    succeeds, and what other goroutines do before each write. *)
Record Handshake := {
  hk_client1 : option string;
  hk_others1 : Proxy -> Proxy;
  hk_written1 : bool;
  hk_server : option string;
  hk_others2 : Proxy -> Proxy;
  hk_written2 : bool;
  hk_client2 : option string;
  hk_others3 : Proxy -> Proxy;
  hk_written3 : bool
}.
(** What came of it: the messages written to each side, the claims stored,
    and the error. *)
Record Shaken := {
  sk_proxy : Proxy;
  sk_server : list string;
  sk_client : list string;
  sk_claimed : option Implementation;
  sk_error : error
}.
Definition failed (p : Proxy) (server client : list string) (claimed : option Implementation) (e : string) : Shaken :=
  {| sk_proxy := p; sk_server := server; sk_client := client; sk_claimed := claimed; sk_error := Some e |}.

Context (cfg : Config) (env : Env) (serverName : string) (remote : bool).

(** The remote transport is written to without [encodeIfNotRevoked]: the kill
    switch is refused with a server URL. *)
Definition refused (p : Proxy) : bool := negb remote && encode_refused cfg p.

Definition relayHandshakeClientMessage (raw : string) (others : Proxy -> Proxy) (written : bool) (p : Proxy)
    : Proxy * (option string * error) :=
  match interceptClientToServerEnvelope cfg env serverName raw p with
  | (p, inr _) => (p, (None, Some "unreachable"))
  | (p, inl (forward, action)) =>
      if action =s? "denied" then (p, (None, Some "post-initialize message denied"))
      else
        let p := others p in
        if refused p then (p, (None, Some "kinetic stop: encode refused"))
        else (p, (Some forward, if written then None else Some "write"))
  end.

(** [runHandshake] and [runRemoteHandshake]. *)
Definition runHandshake (h : Handshake) (p : Proxy) : Shaken :=
  match hk_client1 h with
  | None => failed p [] [] None "read initialize"
  | Some raw =>
      match DecodeRequest raw with
      | None => failed p [] [] None "decode initialize"
      | Some req =>
          if rq_Method req <>s? MethodInitialize then failed p [] [] None ("expected initialize, got " +:+ rq_Method req)
          else if bool_decide (unmarshal_init_request (rq_Params req) = None) then failed p [] [] None "decode initialize params"
          else
            let p := hk_others1 h p in
            if refused p then failed p [] [] None "forward initialize to server"
            else if negb (hk_written1 h) then failed p [raw] [] None "forward initialize to server"
            else match hk_server h with
            | None => failed p [raw] [] None "read initialize response"
            | Some reply =>
                match unmarshal_response reply with
                | None => failed p [raw] [] None "decode initialize response"
                | Some resp =>
                    let claimed := if remote then None else unmarshal_init_result (ps_Result resp) in
                    let p := hk_others2 h p in
                    if refused p then failed p [raw] [] claimed "return initialize response"
                    else if negb (hk_written2 h) then failed p [raw] [reply] claimed "return initialize response"
                    else match hk_client2 h with
                    | None => failed p [raw] [reply] claimed "read initialized notification"
                    | Some raw2 =>
                        let '(p, (out, err)) := relayHandshakeClientMessage raw2 (hk_others3 h) (hk_written3 h) p in
                        {| sk_proxy := p; sk_server := raw :: option_list out; sk_client := [reply]; sk_claimed := claimed; sk_error := err |}
                    end
                end
            end
      end
  end.
End client.
