(* ===== verification/ServerRelaySpec.v ===== *)
(** What a client is shown of the server's results: every text is redacted and
    cut; what the handshake lets through. *)
From stdpp Require Import base strings gmap list.
From Stdlib Require Import ZArith Lia Ascii.
From S2P Require Import Prelude GoStrings GoLib Lineage LineageRegistry ActorContext.
From S2P Require Import PolicyTypes PolicyRegistry Slots Engine OwnershipGate Session Taint Redaction.
From S2P Require Import Ledger InstructionAuthority InstructionAuth Trajectory.
From S2P Require Import GoPath Capability CapabilityEval CallArgs Proxy ToolsCall Envelope.
From S2P Require Approval Receipt RelaySpec LedgerSpec EngineSpec CapabilitySpec.
From S2P Require Import ToolsCallSpec ServerRelay.
#[local] Open Scope Z_scope.

(** What [encoding/json] does with strings: both directions replace what is not
    UTF-8 ([coerce]); apart from that a value that is written reads back, with
    the line end after it. *)
Definition coerced (coerce : string -> string) (r : ToolsCallResult) : ToolsCallResult := {|
  ts_Content := (fun c => {| nt_Type := coerce (nt_Type c); nt_Text := coerce (nt_Text c); nt_MimeType := coerce (nt_MimeType c);
                             nt_Data := coerce (nt_Data c) |}) <$> ts_Content r;
  ts_IsError := ts_IsError r |}.
Class ResponseLaws `{ResponseJSON} (coerce : string -> string) := {
  result_coerced data r : unmarshal_result data = Some r -> coerced coerce r = r;
  result_back r : exists data, marshal_result r = Some data /\ unmarshal_result data = Some (coerced coerce r);
  server_back raw resp r data : unmarshal_server raw = Some resp -> marshal_result r = Some data ->
    exists out resp', marshal_server {| sv_JSONRPC := sv_JSONRPC resp; sv_ID := sv_ID resp; sv_Result := Some data; sv_Error := sv_Error resp |} = Some out /\
      unmarshal_server (out +:+ String LF "") = Some resp' /\ sv_Result resp' = Some data /\ sv_Error resp' = sv_Error resp
}.

Section spec.
Context `{GoUnicode, GoPatterns, GoReplace, GoArch, GoTime, GoFmt, GoJSON, GoCrypto, SnapshotJSON, CapJSON}.
Context `{GoNetip, GoFS, EventJSON, GateJSON, AssertionCrypto, RawJSON, Receipt.DecisionJSON, Approval.GoDuration, WireJSON}.
Context `{Hlaws : ResponseLaws coerce}.

Lemma take_bytes_length n s : (String.length (take_bytes n s) <= n)%nat.
Proof. revert n. induction s as [|c s IH]; intros [|n]; cbn; [lia..|]. specialize (IH n). unfold take_bytes in IH. cbn in *. lia. Qed.
(** A limit bounds what is shown, up to the note. *)
Lemma limited_bound redactor max text : 0 < max ->
  Z.of_nat (String.length (limited redactor max text)) <= max + Z.of_nat (String.length (truncation_note max)).
Proof.
  intros Hm. unfold limited. destruct (text =s? "") eqn:E; [bools; cbn; lia|].
  destruct ((0 <? max) && (max <? Z.of_nat (String.length (RedactOutput redactor text)))) eqn:El.
  - rewrite str_length_app. pose proof (take_bytes_length (Z.to_nat max) (RedactOutput redactor text)). lia.
  - apply andb_false_iff in El as [El|El]; bools; lia.
Qed.

Lemma redact_contents_spec redactor max l l' modified : redact_contents redactor max l = (l', modified) ->
  l' = (fun c => with_text c (limited redactor max (nt_Text c))) <$> l /\ (modified = false -> l' = l).
Proof.
  revert l' modified. induction l as [|c l IH]; intros l' modified; cbn [redact_contents]; [by intros [= <- <-]|].
  destruct (redact_contents redactor max l) as [m b]. destruct (IH _ _ eq_refl) as [Em Hb].
  destruct (limited redactor max (nt_Text c) <>s? nt_Text c) eqn:E; intros [= <- <-].
  - rewrite Em. split; [done|]. done.
  - apply str_neqb_false in E. cbn. rewrite Em, E. split; [by destruct c|]. intros Hf. rewrite <- Em. by rewrite Hb.
Qed.

(** What has been decoded holds no stray byte. *)
Lemma decoded_coerced data r i c : unmarshal_result data = Some r -> ts_Content r !! i = Some c ->
  coerce (nt_Type c) = nt_Type c /\ coerce (nt_Text c) = nt_Text c /\ coerce (nt_MimeType c) = nt_MimeType c /\ coerce (nt_Data c) = nt_Data c.
Proof.
  intros Hr Hi. apply result_coerced in Hr. apply (f_equal (fun r => ts_Content r !! i)) in Hr. cbn in Hr.
  rewrite list_lookup_fmap, Hi in Hr. cbn in Hr. destruct c as [t x m d]. cbn. by injection Hr as E1 E2 E3 E4.
Qed.

(** Whatever the server answers, if what the client is sent decodes as a tool
    result then every text in it is the redaction, cut to the limit, of the
    text at its place in the server's own result, under the engine and the
    limit in force; and nothing else of the result has changed. *)
Lemma response_redacted p raw resp data r :
  unmarshal_server (redactServerResponse p raw) = Some resp -> sv_Result resp = Some data -> unmarshal_result data = Some r ->
  exists resp0 data0 r0, unmarshal_server raw = Some resp0 /\ sv_Result resp0 = Some data0 /\ unmarshal_result data0 = Some r0 /\
    sv_Error resp = sv_Error resp0 /\ ts_IsError r = ts_IsError r0 /\
    ts_Content r = (fun c => with_text c (coerce (limited (px_redactor p) (st_MaxOutputSizeBytes (p_Settings (e_policy (px_engine p)))) (nt_Text c))))
                     <$> ts_Content r0.
Proof.
  set (max := st_MaxOutputSizeBytes _). unfold redactServerResponse.
  destruct (unmarshal_server raw) as [resp0|] eqn:E0; [|congruence].
  destruct (sv_Result resp0) as [data0|] eqn:E1; [|congruence]. destruct (unmarshal_result data0) as [r0|] eqn:E2; [|congruence].
  fold max. destruct (redact_contents (px_redactor p) max (ts_Content r0)) as [l modified] eqn:Er.
  apply redact_contents_spec in Er as [El Hm]. pose proof (fun i c => decoded_coerced data0 r0 i c E2) as Hc0. destruct modified; cbn [negb].
  - destruct (result_back {| ts_Content := l; ts_IsError := ts_IsError r0 |}) as (data1 & Em & Eb). rewrite Em.
    destruct (server_back raw resp0 _ data1 E0 Em) as (out & resp1 & Eo & Ed & Es & Ee). rewrite Eo, Ed. intros [= <-] Es'.
    rewrite Es in Es'. injection Es' as <-. rewrite Eb. intros [= <-]. exists resp0, data0, r0. split_and!; try done.
    cbn. rewrite El, <- list_fmap_compose. apply list_fmap_ext. intros i c Hi.
    destruct (Hc0 i c Hi) as (Et & _ & Emt & Ed'). cbn. by rewrite Et, Emt, Ed'.
  - rewrite E0. intros [= <-] E1'. rewrite E1 in E1'. injection E1' as <-. rewrite E2. intros [= <-].
    exists resp0, data0, r0. split_and!; try done. specialize (Hm eq_refl). rewrite <- Hm at 1. rewrite El. apply list_fmap_ext.
    intros i c Hi. destruct (Hc0 i c Hi) as (_ & Ex & _). f_equal.
    rewrite El in Hm. apply (f_equal (fun l => l !! i)) in Hm. rewrite list_lookup_fmap, Hi in Hm. injection Hm as Ht.
    apply (f_equal nt_Text) in Ht. cbn in Ht. by rewrite Ht, Ex.
Qed.

(** The proxy as the [n]-th message finds it, after what the others did before
    it: the state it is redacted in and sent from. *)
Fixpoint state_at (turns : list ServerTurn) (n : nat) (p : Proxy) : Proxy :=
  match turns, n with
  | [], _ => p
  | t :: _, 0%nat => su_others t p
  | t :: turns, S n => let q := su_others t p in state_at turns n (logServerMessage (redactServerResponse q (su_raw t)) q)
  end.
Lemma relayed_at turns n p w : relayServerToClient turns p !! n = Some w ->
  exists t, turns !! n = Some t /\ w = redactServerResponse (state_at turns n p) (su_raw t).
Proof.
  revert n p. induction turns as [|t turns IH]; intros n p; [done|]. cbn [relayServerToClient state_at].
  destruct n as [|n]; cbn; [intros [= <-]; by exists t|]. destruct (su_written t); [|done]. apply IH.
Qed.

End spec.

(** ** The handshake *)

Section handshake.
Context `{GoUnicode, GoPatterns, GoReplace, GoArch, GoTime, GoFmt, GoJSON, GoCrypto, SnapshotJSON, CapJSON}.
Context `{GoNetip, GoFS, EventJSON, GateJSON, AssertionCrypto, RawJSON, Receipt.DecisionJSON, Approval.GoDuration, WireJSON, ResponseJSON}.
Context (cfg : Config) (env : Env) (serverName : string) (remote : bool).
Abbreviation run := (runHandshake cfg env serverName remote).

(** The client's second message as it passes the gate. *)
Definition gated (h : Handshake) (forward : string) : Prop := exists raw p p' action,
  hk_client2 h = Some raw /\ interceptClientToServerEnvelope cfg env serverName raw p = (p', inl (forward, action)) /\
  action <> "denied" /\ refused cfg remote (hk_others3 h p') = false.

Lemma relayHandshake_cases raw others written p p' out err :
  relayHandshakeClientMessage cfg env serverName remote raw others written p = (p', (out, err)) ->
  (out = None /\ err <> None) \/
  exists forward p1 action, out = Some forward /\ interceptClientToServerEnvelope cfg env serverName raw p = (p1, inl (forward, action)) /\
    action <> "denied" /\ refused cfg remote (others p1) = false /\ (err = None <-> written = true).
Proof.
  unfold relayHandshakeClientMessage. destruct (interceptClientToServerEnvelope _ _ _ raw p) as [p1 [[forward action]|]]; [|intros [= <- <- <-]; by left].
  destruct (action =s? "denied") eqn:Ea; [intros [= <- <- <-]; by left|].
  destruct (refused cfg remote (others p1)) eqn:Er; intros [= <- <- <-]; [by left|]. right. exists forward, p1, action.
  apply str_eqb_false in Ea. by destruct written.
Qed.

(** Two messages at most reach the server during the handshake, the client's
    initialize as it is and then one that has passed the gate, and one at most
    the client, after the first; the handshake succeeds exactly when all three
    were written. *)
Theorem handshake_relays (h : Handshake) (p : Proxy) :
  (sk_server (run h p) = [] \/
   exists raw req, hk_client1 h = Some raw /\ DecodeRequest raw = Some req /\ rq_Method req = MethodInitialize /\
     (sk_server (run h p) = [raw] \/ exists forward, gated h forward /\ sk_server (run h p) = [raw; forward])) /\
  (sk_client (run h p) = [] \/ sk_client (run h p) = option_list (hk_server h) /\ sk_server (run h p) <> []) /\
  (sk_error (run h p) = None <-> length (sk_server (run h p)) = 2%nat /\ hk_written3 h = true).
Proof.
  unfold runHandshake. destruct (hk_client1 h) as [raw|]; [|cbn; naive_solver].
  destruct (DecodeRequest raw) as [req|] eqn:Ed; [|cbn; naive_solver].
  destruct (rq_Method req <>s? MethodInitialize) eqn:Em; [cbn; naive_solver|]. apply str_neqb_false in Em.
  destruct (bool_decide _); [cbn; naive_solver|]. cbv zeta. set (p1 := hk_others1 h p).
  destruct (refused _ _ p1); [cbn; naive_solver|]. destruct (hk_written1 h); cbn [negb].
  2:{ cbn. split_and!; [right; exists raw, req; by auto|by left|split; [done|by intros [? ?]]]. }
  assert (forall q client claimed e, client = [] \/ client = option_list (hk_server h) -> let s := failed q [raw] client claimed e in
    (sk_server s = [] \/ exists raw0 req0, Some raw = Some raw0 /\ DecodeRequest raw0 = Some req0 /\ rq_Method req0 = MethodInitialize /\
       (sk_server s = [raw0] \/ exists forward, gated h forward /\ sk_server s = [raw0; forward])) /\
    (sk_client s = [] \/ sk_client s = option_list (hk_server h) /\ sk_server s <> []) /\
    (sk_error s = None <-> length (sk_server s) = 2%nat /\ hk_written3 h = true)) as Hfail.
  { intros q client claimed e Hc s. subst s. cbn. split_and!; [right; exists raw, req; by auto| |split; [done|by intros [? ?]]].
    destruct Hc as [->|Hc]; [by left|by right]. }
  destruct (hk_server h) as [reply|]; [|by apply Hfail; left].
  destruct (unmarshal_response reply) as [resp|]; [|by apply Hfail; left]. set (claimed := if remote then None else _).
  cbv zeta. set (p2 := hk_others2 h p1). destruct (refused _ _ p2); [by apply Hfail; left|]. destruct (hk_written2 h); cbn [negb]; [|by apply Hfail; right].
  destruct (hk_client2 h) as [raw2|] eqn:E2; [|by apply Hfail; right].
  destruct (relayHandshakeClientMessage _ _ _ _ _ _ _ _) as [p' [out err]] eqn:Er. clear Hfail.
  apply relayHandshake_cases in Er as [[-> He]|(forward & p3 & action & -> & Hi & Ha & Hr & Hw)]; cbn.
  - split_and!; [right; exists raw, req; by auto|by right|split; [done|by intros [? ?]]].
  - split_and!; [right; exists raw, req; split_and!; try done; right; exists forward; split; [by exists raw2, p2, p3, action|done]|by right|].
    rewrite Hw. naive_solver.
Qed.

(** The first message is not looked at as the others are: one that decodes as
    initialize is relayed as it is, even when its members spell a tools/call. *)
Lemma first_message_unchecked raw req init reply resp h p :
  hk_client1 h = Some raw -> DecodeRequest raw = Some req -> rq_Method req = MethodInitialize ->
  unmarshal_init_request (rq_Params req) = Some init -> hk_written1 h = true -> refused cfg remote (hk_others1 h p) = false ->
  hk_server h = Some reply -> unmarshal_response reply = Some resp ->
  exists rest, sk_server (run h p) = raw :: rest.
Proof.
  intros E1 Ed Em Ei Ew Er Es Eu. unfold runHandshake. rewrite E1, Ed, Em, Ei. cbv zeta.
  rewrite bool_decide_eq_false_2 by done. destruct (MethodInitialize <>s? MethodInitialize) eqn:E; [by apply str_neqb_true in E|].
  rewrite Er, Ew, Es, Eu. cbn [negb]. destruct (refused _ _ (hk_others2 h _)); [by eexists|]. destruct (hk_written2 h); cbn [negb]; [|by eexists].
  destruct (hk_client2 h); [|by eexists]. destruct (relayHandshakeClientMessage _ _ _ _ _ _ _ _) as [p' [out err]]. by eexists.
Qed.
End handshake.

(** ** Witnesses *)

Module ServerWitness.
Import CallWitness.
#[local] Existing Instances ascii_unicode amd64 decimal_time plain_quote coded_snapshot
  EngineSpec.EngineWitness.anchored LedgerSpec.AuditWitness.no_patterns CapabilitySpec.CapabilityWitness.netip
  CapabilitySpec.CapabilityWitness.fs CapabilitySpec.CapabilityWitness.json LedgerSpec.AuditWitness.no_read
  GateWitness.json AssertionWitness.crypto Receipt.ReceiptWitness.json digest arguments opaque duration.

(** A result is written as the bits of its code, and a response as its result,
    whatever its line ends. *)
Fixpoint bits (p : positive) : string :=
  match p with xH => "" | xO p => String "0" (bits p) | xI p => String "1" (bits p) end.
Fixpoint unbits (s : string) : option positive :=
  match s with
  | "" => Some xH
  | String c s =>
      match unbits s with
      | None => None
      | Some p => if Ascii.eqb c "0" then Some (xO p) else if Ascii.eqb c "1" then Some (xI p) else None
      end
  end.
Lemma unbits_bits p : unbits (bits p) = Some p.
Proof. induction p as [p IH|p IH|]; cbn; [by rewrite IH..|done]. Qed.
Fixpoint no_ends (s : string) : string :=
  match s with "" => "" | String c s => if Ascii.eqb c LF then no_ends s else String c (no_ends s) end.
Lemma no_ends_app s t : no_ends (s +:+ t) = no_ends s +:+ no_ends t.
Proof. induction s as [|c s IH]; [done|]. change (String c s +:+ t) with (String c (s +:+ t)). cbn. rewrite IH. by destruct (Ascii.eqb c LF). Qed.
Lemma no_ends_bits p : no_ends (bits p) = bits p.
Proof. induction p as [p IH|p IH|]; cbn; [by rewrite IH..|done]. Qed.

#[local] Instance Content_eq : EqDecision Content.
Proof. solve_decision. Defined.
#[local] Instance Content_countable : Countable Content := inj_countable' (fun c => (nt_Type c, nt_Text c, nt_MimeType c, nt_Data c))
  (fun '(t, x, m, d) => {| nt_Type := t; nt_Text := x; nt_MimeType := m; nt_Data := d |}) ltac:(by intros []).
#[local] Instance Result_eq : EqDecision ToolsCallResult.
Proof. solve_decision. Defined.
#[local] Instance Result_countable : Countable ToolsCallResult := inj_countable' (fun r => (ts_Content r, ts_IsError r))
  (fun '(l, e) => {| ts_Content := l; ts_IsError := e |}) ltac:(by intros []).
#[local] Instance bitwise : ResponseJSON := {|
  unmarshal_server := fun s => Some {| sv_JSONRPC := "2.0"; sv_ID := ANil; sv_Result := Some (no_ends s); sv_Error := None |};
  unmarshal_result := fun s => match unbits s with Some p => countable.decode p | None => None end; marshal_result := fun r => Some (bits (countable.encode r));
  marshal_server := sv_Result; unmarshal_response := fun s => Some {| ps_Error := false; ps_Result := s |};
  unmarshal_init_request := fun _ => Some {| im_Name := "c"; im_Version := "1" |}; unmarshal_init_result := fun _ => None |}.
#[local] Instance bitwise_laws : ResponseLaws id.
Proof.
  assert (forall r, coerced id r = r) as Hid by (intros [l e]; unfold coerced; f_equal; by induction l as [|[] l IH]; cbn; f_equal).
  split.
  - intros data r _. apply Hid.
  - intros r. eexists. split; [reflexivity|]. cbn. rewrite unbits_bits. cbn. by rewrite countable.decode_encode, Hid.
  - intros raw resp r data [= <-] [= <-]. eexists _, _. split_and!; [reflexivity|reflexivity|cbn|reflexivity].
    rewrite no_ends_app, no_ends_bits. f_equal. apply append_nil_r.
Qed.

(** A server answers with an address the policy redacts, under a limit of
    eight bytes. *)
Definition session : Proxy :=
  let s := start [] [] in
  let pol := e_policy (px_engine s) in {|
  px_engine := Engine.NewEngine (Some {| p_Version := p_Version pol; p_Description := p_Description pol; p_DefaultAction := p_DefaultAction pol;
    p_Settings := {| st_MaxArgumentSizeBytes := 0; st_MaxOutputSizeBytes := 8; st_SessionMaxTools := 1;
      st_SessionTimeoutSecs := 0; st_ApprovalTimeoutSecs := 0; st_MaxSpawnDepth := 0; st_ChainWindowSize := 0;
      st_LogLevel := ""; st_CapabilityEval := false; st_InstructionAuthorityContinuity := false;
      st_InstructionAuthorityKeys := []; st_RequireVerifiedActor := false |};
    p_Servers := []; p_ToolChains := []; p_Taints := []; p_EgressControls := []; p_Identities := []; p_TimeRestrictions := [];
    p_Redaction := p_Redaction pol; p_CapabilityOwnership := None; p_Identity := None; p_Trajectories := [] |});
  px_redactor := px_redactor s; px_session := px_session s; px_audit := px_audit s; px_metrics := px_metrics s; px_advisor := None;
  px_authorize := false; px_keys := ∅; px_capEval := None; px_capStepID := 0; px_capLastHash := ""; px_revoked := false;
  px_responses := []; px_forwarded := [] |}.
Definition long : Content := {| nt_Type := "text"; nt_Text := "more than eight bytes"; nt_MimeType := ""; nt_Data := "" |}.
Definition answer : string := bits (countable.encode {| ts_Content := [long]; ts_IsError := false |}).
Definition cut : Content := with_text long ("more tha" +:+ truncation_note 8).
Definition shown : string := bits (countable.encode {| ts_Content := [cut]; ts_IsError := false |}).
Definition turn : ServerTurn := {| su_others := fun p => p; su_raw := answer; su_written := true |}.
Lemma answer_shown : relayServerToClient [turn] session = [shown +:+ String LF ""].
Proof. vm_compute. reflexivity. Qed.

(** A message that a decoder which takes the last member of any case reads as
    initialize, and one that compares names reads as a tools/call. *)
Definition both : string := "{method: tools/call, Method: initialize}".
#[local] Instance lenient : WireJSON := {|
  unmarshal_request := fun data => if data =s? both then Some {| rq_JSONRPC := JSONRPCVersion; rq_ID := AString "1"; rq_Method := MethodInitialize;
    rq_Params := "params" |} else None;
  object_members := fun data => if data =s? both then Some [("method", MethodToolsCall); ("Method", MethodInitialize)] else None;
  array_elements := fun _ => None; unmarshal_string := Some; unmarshal_any := fun _ => Some (AString "1"); unmarshal_call := fun _ => Some call;
  unmarshal_name := fun _ => Some "send"; recode := Some |}.
Definition hands : Handshake := {| hk_client1 := Some both; hk_others1 := fun p => p; hk_written1 := true; hk_server := Some "hello";
  hk_others2 := fun p => p; hk_written2 := true; hk_client2 := Some "initialized"; hk_others3 := fun p => p; hk_written3 := true |}.
(** In the relay the same message is refused; as the first of the handshake it
    reaches the server. *)
Example handshake_smuggles :
  cv_Kind (ClassifyClientEnvelope both) = EnvelopeToolsCallNotification /\
  sk_server (runHandshake cfg (env "no") "mail" false hands (start [] [])) = [both; "initialized"].
Proof. vm_compute. by split. Qed.
End ServerWitness.

Section server_witness.
Import CallWitness ServerWitness.
#[local] Existing Instances ascii_unicode amd64 decimal_time plain_quote coded_snapshot
  EngineSpec.EngineWitness.anchored LedgerSpec.AuditWitness.no_patterns CapabilitySpec.CapabilityWitness.netip
  CapabilitySpec.CapabilityWitness.fs CapabilitySpec.CapabilityWitness.json LedgerSpec.AuditWitness.no_read
  GateWitness.json AssertionWitness.crypto Receipt.ReceiptWitness.json digest arguments opaque duration bitwise bitwise_laws lenient.

End server_witness.
