(* ===== verification/Brake.v ===== *)
(** The brake metrics, [internal/observability/brake.go]: counts over the
    records of the audit ledger.  A Go map of counters is a [gmap] where an
    absent key counts 0. *)
From stdpp Require Import base strings gmap list sorting.
From Stdlib Require Import ZArith Lia Ascii.
From S2P Require Import Prelude GoStrings GoLib Lineage LineageRegistry ActorContext.
From S2P Require Import PolicyTypes Redaction Ledger.
#[local] Open Scope Z_scope.

(** ** The contract *)

Definition MetricDeniedTotal : string := "brake.denied_total".
Definition MetricDeniedByRule : string := "brake.denied_by_rule".
Definition MetricDeniedNoRule : string := "brake.denied_no_rule".
Definition MetricApprovalGatesTotal : string := "brake.approval_gates_total".
Definition MetricApprovalGrantsTotal : string := "brake.approval_grants_total".
Definition MetricApprovalOverridesTotal : string := "brake.approval_overrides_total".
Definition MetricChainInterceptsTotal : string := "brake.chain_intercepts_total".
Definition MetricTaintBlocksTotal : string := "brake.taint_blocks_total".
Definition MetricUnloggedDenialsTotal : string := "brake.unlogged_denials_total".
Definition MetricUnjoinableTotal : string := "brake.unjoinable_total".

Inductive Computability := ComputableToday | NeedsNewField.
Record MetricDef := {
  md_Name : string;
  md_Definition : string;
  md_SourceEvent : string;
  md_SourceField : string;
  md_Computability : Computability;
  md_Gap : string
}.
Definition Contract : list MetricDef := [
  {| md_Name := MetricDeniedTotal;
     md_Definition := "Terminal policy denials at the tools/call boundary per log scope.";
     md_SourceEvent := EventToolDenied; md_SourceField := "event_type";
     md_Computability := ComputableToday;
     md_Gap := "" |};
  {| md_Name := MetricDeniedByRule;
     md_Definition := "Denials grouped by recorded policy rule; rule-less denials ride the separate denied_no_rule counter (no in-band sentinel can collide with a legal rule name, and free-form reasons are never folded in).";
     md_SourceEvent := EventToolDenied; md_SourceField := "policy_rule";
     md_Computability := ComputableToday;
     md_Gap := "Open refinement: a stable rule identifier on every deny path so denied_no_rule shrinks to zero." |};
  {| md_Name := MetricDeniedNoRule;
     md_Definition := "Denials recorded without a policy rule (separate counter; see denied_by_rule).";
     md_SourceEvent := EventToolDenied; md_SourceField := "(absence of policy_rule)";
     md_Computability := ComputableToday;
     md_Gap := "" |};
  {| md_Name := MetricApprovalGatesTotal;
     md_Definition := "Calls held for human approval.";
     md_SourceEvent := EventToolApprovalRequired; md_SourceField := "event_type";
     md_Computability := ComputableToday;
     md_Gap := "" |};
  {| md_Name := MetricApprovalGrantsTotal;
     md_Definition := "Holds resolved by human grant: allowed with a receipt hash whose request hash matches a preceding hold in the same session, each hold consumed once, and whose receipt map identifies a human approve decision (approver_id set, decision approve).";
     md_SourceEvent := EventToolAllowed +:+ " + " +:+ EventToolApprovalRequired +:+ " (hold)"; md_SourceField := "approval_receipt_hash + request_hash + session_id + approval_receipt.decision/approver_id + hold:tool_call_approval_required/request_hash/session_id";
     md_Computability := ComputableToday;
     md_Gap := "" |};
  {| md_Name := MetricApprovalOverridesTotal;
     md_Definition := "Holds resolved without a grant receipt (bypassed or decided off-record).";
     md_SourceEvent := "none: no bypass/override outcome event exists"; md_SourceField := "approval_outcome";
     md_Computability := NeedsNewField;
     md_Gap := "Emit tool_call_approved / tool_call_approval_overridden with outcome + receipt hash; see docs/brake-metrics.md." |};
  {| md_Name := MetricChainInterceptsTotal;
     md_Definition := "Dangerous-sequence interceptions fired by chain rules.";
     md_SourceEvent := EventToolChainDetected; md_SourceField := "event_type";
     md_Computability := ComputableToday;
     md_Gap := "" |};
  {| md_Name := MetricTaintBlocksTotal;
     md_Definition := "Taint-triggered egress denials: the control recorded session taints. Narrow by construction — only the taint-egress branch populates session_taints today.";
     md_SourceEvent := EventToolDenied; md_SourceField := "session_taints";
     md_Computability := ComputableToday;
     md_Gap := "Open refinement: session-taint presence on every denial so the metric can widen to all tainted-session denials." |};
  {| md_Name := MetricUnloggedDenialsTotal;
     md_Definition := "Declared terminal denials (decision deny) with no matching deny event on the same (session, hash) key; declarations missing any of decision, session, or hash report as unjoinable, never silently as matched or missing. Mechanism only: most deny paths emit no request hash today, so production use stays a gap until they do.";
     md_SourceEvent := "reconciliation of declared decisions vs tool_call_denied by (session_id, request_hash)"; md_SourceField := "decision + session_id + request_hash";
     md_Computability := NeedsNewField;
     md_Gap := "Emit request_hash on all terminal deny events; without join keys the metric cannot run on production logs." |};
  {| md_Name := MetricUnjoinableTotal;
     md_Definition := "Declared decisions missing decision, session, or request hash: reported, never silently matched or missed.";
     md_SourceEvent := "reconciliation input validation (no log event involved)"; md_SourceField := "decision + session_id + request_hash (presence)";
     md_Computability := ComputableToday;
     md_Gap := "" |}
].

(** ** Reading the ledger *)

Definition isJSONSpace (c : ascii) : bool :=
  Ascii.eqb c " " || Ascii.eqb c TAB || Ascii.eqb c CR || Ascii.eqb c LF.
Definition isBlankLine (line : string) : bool := all_bytes isJSONSpace line.

(** What [ReadBytes] yields until the end of the data: the lines, each with
    its newline, and what is left without one. *)
Fixpoint framed (data : string) : list string * string :=
  match data with
  | "" => ([], "")
  | String c data =>
      let '(lines, rest) := framed data in
      if Ascii.eqb c LF then (String c "" :: lines, rest)
      else match lines with
           | [] => ([], String c rest)
           | line :: lines => (String c line :: lines, rest)
           end
  end.

Section brake.
Context `{EventJSON}.

Fixpoint load_lines (lines : list string) : result (list Event) :=
  match lines with
  | [] => Ok []
  | line :: lines =>
      if isBlankLine line then load_lines lines
      else match unmarshal_event line with
      | None => Err "malformed record"
      | Some ev =>
          if ae_EventType ev =s? "" then Err "record missing event_type"
          else match load_lines lines with Ok evs => Ok (ev :: evs) | Err err => Err err end
      end
  end.
(** [readErr] is what reading ends with, when not the end of the file. *)
Definition LoadEvents (data : string) (readErr : error) : result (list Event) :=
  let '(lines, rest) := framed data in
  match load_lines lines with
  | Err err => Err err
  | Ok events =>
      match readErr with
      | Some err => Err err
      | None => if isBlankLine rest then Ok events else Err "truncated tail: final record lacks terminating newline"
      end
  end.
End brake.

(** ** Counting *)

Record Report := {
  bp_DeniedTotal : Z;
  bp_DeniedByRule : gmap string Z;
  bp_DeniedNoRule : Z;
  bp_ApprovalGates : Z;
  bp_ApprovalGrants : Z;
  bp_ChainIntercepts : Z;
  bp_TaintBlocks : Z;
  bp_UnloggedDenials : Z;
  bp_UnloggedDetail : list string;
  bp_Unjoinable : Z
}.
Definition eta_Report (r : Report) : Report := {|
  bp_DeniedTotal := bp_DeniedTotal r; bp_DeniedByRule := bp_DeniedByRule r; bp_DeniedNoRule := bp_DeniedNoRule r;
  bp_ApprovalGates := bp_ApprovalGates r; bp_ApprovalGrants := bp_ApprovalGrants r; bp_ChainIntercepts := bp_ChainIntercepts r;
  bp_TaintBlocks := bp_TaintBlocks r; bp_UnloggedDenials := bp_UnloggedDenials r; bp_UnloggedDetail := bp_UnloggedDetail r;
  bp_Unjoinable := bp_Unjoinable r |}.
Definition emptyReport : Report := {|
  bp_DeniedTotal := 0; bp_DeniedByRule := ∅; bp_DeniedNoRule := 0; bp_ApprovalGates := 0; bp_ApprovalGrants := 0;
  bp_ChainIntercepts := 0; bp_TaintBlocks := 0; bp_UnloggedDenials := 0; bp_UnloggedDetail := []; bp_Unjoinable := 0 |}.
Definition counter (m : gmap string Z) (key : string) : Z := default 0 (m !! key).
Definition increment (key : string) (m : gmap string Z) : gmap string Z := <[key := counter m key + 1]> m.

(** [holdKey] and [joinKey] *)
Definition holdKey (session hash : string) : string := hash +:+ String NUL "" +:+ session.

Definition isHumanApproveReceipt (rec : args) : bool :=
  match rec with
  | None => false
  | Some rec =>
      match assoc "approver_id" rec, assoc "decision" rec with
      | Some (AString approver), Some (AString decision) => (approver <>s? "") && (decision =s? "approve")
      | _, _ => false
      end
  end.

Definition add_DeniedTotal (r : Report) : Report := ltac:(with_field eta_Report bp_DeniedTotal r (bp_DeniedTotal r + 1)).
Definition add_DeniedByRule (rule : string) (r : Report) : Report :=
  ltac:(with_field eta_Report bp_DeniedByRule r (increment rule (bp_DeniedByRule r))).
Definition add_DeniedNoRule (r : Report) : Report := ltac:(with_field eta_Report bp_DeniedNoRule r (bp_DeniedNoRule r + 1)).
Definition add_ApprovalGates (r : Report) : Report := ltac:(with_field eta_Report bp_ApprovalGates r (bp_ApprovalGates r + 1)).
Definition add_ApprovalGrants (r : Report) : Report := ltac:(with_field eta_Report bp_ApprovalGrants r (bp_ApprovalGrants r + 1)).
Definition add_ChainIntercepts (r : Report) : Report := ltac:(with_field eta_Report bp_ChainIntercepts r (bp_ChainIntercepts r + 1)).
Definition add_TaintBlocks (r : Report) : Report := ltac:(with_field eta_Report bp_TaintBlocks r (bp_TaintBlocks r + 1)).
Definition add_Unjoinable (r : Report) : Report := ltac:(with_field eta_Report bp_Unjoinable r (bp_Unjoinable r + 1)).
Definition add_Unlogged (key : string) (r : Report) : Report :=
  let r := ltac:(with_field eta_Report bp_UnloggedDenials r (bp_UnloggedDenials r + 1)) in
  ltac:(with_field eta_Report bp_UnloggedDetail r (bp_UnloggedDetail r ++ [key])).
Definition set_UnloggedDetail (v : list string) (r : Report) : Report := ltac:(with_field eta_Report bp_UnloggedDetail r v).

(** A turn of the loop of [Compute], on the report and the holds. *)
Definition compute_denied (rep : Report) (holds : gmap string Z) (ev : Event) : Report * gmap string Z :=
  let rep := add_DeniedTotal rep in
  let rep := if ae_PolicyRule ev =s? "" then add_DeniedNoRule rep else add_DeniedByRule (ae_PolicyRule ev) rep in
  let rep := if (0 <? length (ae_SessionTaints ev))%nat then add_TaintBlocks rep else rep in
  (rep, if ae_RequestHash ev <>s? "" then
          let key := holdKey (ae_SessionID ev) (ae_RequestHash ev) in
          if counter holds key <=? 1 then delete key holds else <[key := counter holds key - 1]> holds
        else holds).
Definition compute_event (acc : Report * gmap string Z) (ev : Event) : Report * gmap string Z :=
  let '(rep, holds) := acc in
  if ae_EventType ev =s? EventToolDenied then compute_denied rep holds ev
  else if ae_EventType ev =s? EventToolAllowed then
    if (ae_ApprovalReceiptHash ev <>s? "") && (ae_RequestHash ev <>s? "") && isHumanApproveReceipt (ae_ApprovalReceipt ev) then
      let key := holdKey (ae_SessionID ev) (ae_RequestHash ev) in
      if 0 <? counter holds key then (add_ApprovalGrants rep, <[key := counter holds key - 1]> holds) else (rep, holds)
    else (rep, holds)
  else if ae_EventType ev =s? EventToolApprovalRequired then
    (add_ApprovalGates rep,
     if ae_RequestHash ev <>s? "" then increment (holdKey (ae_SessionID ev) (ae_RequestHash ev)) holds else holds)
  else if ae_EventType ev =s? EventToolChainDetected then (add_ChainIntercepts rep, holds)
  else (rep, holds).
Definition Compute (events : list Event) : Report := (foldl compute_event (emptyReport, ∅) events).1.

(** ** Reconciling *)

Record DecisionRef := { dr_RequestHash : string; dr_SessionID : string; dr_Decision : string }.

Definition index_denied (byKey : gmap string Z) (ev : Event) : gmap string Z :=
  if (ae_EventType ev <>s? EventToolDenied) || (ae_RequestHash ev =s? "") then byKey
  else increment (holdKey (ae_SessionID ev) (ae_RequestHash ev)) byKey.
Definition reconcile_decision (acc : Report * gmap string Z) (d : DecisionRef) : Report * gmap string Z :=
  let '(rep, byKey) := acc in
  if dr_Decision d =s? "" then (add_Unjoinable rep, byKey)
  else if dr_Decision d <>s? "deny" then (rep, byKey)
  else if (dr_RequestHash d =s? "") || (dr_SessionID d =s? "") then (add_Unjoinable rep, byKey)
  else
    let key := holdKey (dr_SessionID d) (dr_RequestHash d) in
    if counter byKey key =? 0 then (add_Unlogged key rep, byKey) else (rep, <[key := counter byKey key - 1]> byKey).
Definition Reconcile (rep : Report) (decisions : list DecisionRef) (events : list Event) : Report :=
  let rep := (foldl reconcile_decision (rep, foldl index_denied ∅ events) decisions).1 in
  set_UnloggedDetail (merge_sort String.le (bp_UnloggedDetail rep)) rep.
