(* ===== verification/BrakeSpec.v ===== *)
(** The brake metrics are exact: each number is what it is documented to
    count, sessions do not mix, and the loader reads back the ledger the audit
    logger writes. *)
From stdpp Require Import base strings gmap list sorting.
From Stdlib Require Import ZArith Lia Ascii.
From S2P Require Import Prelude GoStrings GoLib Lineage LineageRegistry ActorContext.
From S2P Require Import PolicyTypes Redaction Ledger LedgerSpec Brake.
From S2P Require Proxy.
#[local] Open Scope Z_scope.

(** ** Sums and counts *)

Definition zsum {A} (f : A -> Z) (l : list A) : Z := foldr (fun a s => f a + s) 0 l.
Definition zcount {A} (p : A -> bool) (l : list A) : Z := zsum (fun a => if p a then 1 else 0) l.

Lemma zsum_app {A} (f : A -> Z) l l' : zsum f (l ++ l') = zsum f l + zsum f l'.
Proof. induction l as [|a l IH]; cbn; [done|]. fold (zsum f (l ++ l')) (zsum f l). lia. Qed.
Lemma zcount_snoc {A} (p : A -> bool) l a : zcount p (l ++ [a]) = zcount p l + if p a then 1 else 0.
Proof. unfold zcount. rewrite zsum_app. cbn. lia. Qed.
Lemma zcount_nonneg {A} (p : A -> bool) l : 0 <= zcount p l.
Proof. unfold zcount. induction l as [|a l IH]; cbn; [lia|]. destruct (p a); fold (zsum (fun a => if p a then 1 else 0) l); lia. Qed.
Lemma zcount_perm {A} (p : A -> bool) l l' : l ≡ₚ l' -> zcount p l = zcount p l'.
Proof. unfold zcount, zsum. induction 1; cbn; lia. Qed.
Lemma zsum_ext {A} (f g : A -> Z) l : (forall a, a ∈ l -> f a = g a) -> zsum f l = zsum g l.
Proof.
  induction l as [|a l IH]; intros E; [done|]. cbn. fold (zsum f l) (zsum g l). rewrite (E a) by left.
  rewrite IH; [done|]. intros b Hb. apply E. by right.
Qed.
(** One term of a sum changes. *)
Lemma zsum_change {A} `{EqDecision A} (f g : A -> Z) (l : list A) k : NoDup l -> k ∈ l -> (forall a, a <> k -> f a = g a) ->
  zsum f l = zsum g l + (f k - g k).
Proof.
  intros Hn Hk E. induction Hn as [|a l Ha Hn IH]; [by apply not_elem_of_nil in Hk|]. cbn. fold (zsum f l) (zsum g l).
  apply elem_of_cons in Hk as [->|Hk].
  - rewrite (zsum_ext f g l); [lia|]. intros b Hb. apply E. by intros ->.
  - rewrite IH by done. rewrite (E a); [lia|]. by intros ->.
Qed.

Lemma zsum_plus {A} (f g : A -> Z) l : zsum (fun a => f a + g a) l = zsum f l + zsum g l.
Proof. induction l as [|a l IH]; cbn; [done|]. fold (zsum (fun a => f a + g a) l) (zsum f l) (zsum g l). lia. Qed.
Lemma zsum_le {A} (f g : A -> Z) l : (forall a, f a <= g a) -> zsum f l <= zsum g l.
Proof. intros Hle. induction l as [|a l IH]; cbn; [lia|]. fold (zsum f l) (zsum g l). specialize (Hle a). lia. Qed.
Lemma zsum_zero {A} (l : list A) : zsum (fun _ => 0) l = 0.
Proof. by induction l. Qed.
(** At most one class counts for each element. *)
Lemma zcount_classes {A B} (p : A -> bool) (q : B -> A -> bool) (K : list B) l : NoDup K ->
  (forall a k k', q k a = true -> q k' a = true -> k = k') ->
  zsum (fun k => zcount (fun a => p a && q k a) l) K <= zcount p l.
Proof.
  intros Hn Hq. induction l as [|a l IH]; [unfold zcount; cbn; by rewrite zsum_zero|].
  change (zsum (fun k => (if p a && q k a then 1 else 0) + zcount (fun a => p a && q k a) l) K <= (if p a then 1 else 0) + zcount p l).
  rewrite zsum_plus. enough (zsum (fun k => if p a && q k a then 1 else 0) K <= if p a then 1 else 0) by lia. clear IH.
  destruct (p a); cbn [andb]; [|by rewrite zsum_zero]. induction Hn as [|k K Hk Hn IH]; [done|]. cbn.
  fold (zsum (fun k => if q k a then 1 else 0) K). destruct (q k a) eqn:E; [|lia].
  rewrite (zsum_ext _ (fun _ => 0)); [rewrite zsum_zero; lia|]. intros k' Hk'. destruct (q k' a) eqn:E'; [|done].
  by rewrite (Hq a k k' E E') in Hk.
Qed.

(** ** Keys *)

Definition nul_free (s : string) : Prop := any_byte (Ascii.eqb NUL) s = false.
Lemma holdKey_inj s h s' h' : nul_free h -> nul_free h' -> holdKey s h = holdKey s' h' -> s = s' /\ h = h'.
Proof.
  unfold holdKey, nul_free. revert h'. induction h as [|c h IH]; intros [|c' h']; cbn; intros Hn Hn' E.
  - change (String NUL s = String NUL s') in E. by injection E as ->.
  - change (String NUL s = String c' (h' +:+ String NUL "" +:+ s')) in E. injection E as <- _. by vm_compute in Hn'.
  - change (String c (h +:+ String NUL "" +:+ s) = String NUL s') in E. injection E as -> _. by vm_compute in Hn.
  - change (String c (h +:+ String NUL "" +:+ s) = String c' (h' +:+ String NUL "" +:+ s')) in E.
    apply orb_false_iff in Hn as [_ Hn], Hn' as [_ Hn']. injection E as -> E. by destruct (IH h' Hn Hn' E) as [-> ->].
Qed.

Lemma counter_insert m key v key' : counter (<[key := v]> m) key' = if decide (key = key') then v else counter m key'.
Proof. unfold counter. destruct (decide (key = key')) as [->|Hne]; [by rewrite lookup_insert_eq|by rewrite lookup_insert_ne]. Qed.
Lemma counter_delete m key key' : counter (delete key m) key' = if decide (key = key') then 0 else counter m key'.
Proof. unfold counter. destruct (decide (key = key')) as [->|Hne]; [by rewrite lookup_delete_eq|by rewrite lookup_delete_ne]. Qed.
Lemma counter_increment m key key' : counter (increment key m) key' = counter m key' + if decide (key = key') then 1 else 0.
Proof. unfold increment. rewrite counter_insert. destruct (decide (key = key')) as [->|]; lia. Qed.

(** A session's request. *)
Definition key : Type := string * string.
Definition key_of (ev : Event) : key := (ae_SessionID ev, ae_RequestHash ev).
Definition mapped (k : key) : string := holdKey k.1 k.2.
Definition is_denied (ev : Event) : bool := ae_EventType ev =s? EventToolDenied.
Definition is_hold (ev : Event) : bool := ae_EventType ev =s? EventToolApprovalRequired.
Definition is_chain (ev : Event) : bool := ae_EventType ev =s? EventToolChainDetected.
Definition is_grant (ev : Event) : bool :=
  (ae_EventType ev =s? EventToolAllowed) && (ae_ApprovalReceiptHash ev <>s? "") && isHumanApproveReceipt (ae_ApprovalReceipt ev).
Definition joins (k : key) (ev : Event) : bool := (ae_RequestHash ev <>s? "") && bool_decide (key_of ev = k).
(** The records of a ledger, none of whose request hashes holds a NUL byte. *)
Definition clean (events : list Event) : Prop := Forall (fun ev => nul_free (ae_RequestHash ev)) events.

Lemma mapped_decide k ev : nul_free k.2 -> nul_free (ae_RequestHash ev) ->
  (if decide (holdKey (ae_SessionID ev) (ae_RequestHash ev) = mapped k) then true else false) = bool_decide (key_of ev = k).
Proof.
  intros Hk He. destruct k as [s h]. cbn in Hk. destruct (decide _) as [E|Hne].
  - apply holdKey_inj in E as [Es Eh]; [|done..]. symmetry. apply bool_decide_eq_true. unfold key_of. by rewrite Es, Eh.
  - symmetry. apply bool_decide_eq_false. unfold key_of. intros [= Es Eh]. apply Hne. by rewrite Es, Eh.
Qed.

(** ** Holds and grants *)

(** What the records of one request of one session amount to: how many holds
    are open, and how many were granted.  A denial retires a hold, and so does
    a grant by a human, which counts only against an open one. *)
Definition own_step (s : Z * Z) (ev : Event) : Z * Z :=
  let '(opened, granted) := s in
  if is_hold ev then (opened + 1, granted)
  else if is_denied ev then (Z.max 0 (opened - 1), granted)
  else if is_grant ev && (0 <? opened) then (opened - 1, granted + 1)
  else s.
Definition own (events : list Event) (k : key) : Z * Z := foldl own_step (0, 0) (List.filter (joins k) events).

Lemma own_snoc events ev k : own (events ++ [ev]) k = if joins k ev then own_step (own events k) ev else own events k.
Proof. unfold own. rewrite List.filter_app, foldl_app. cbn. by destruct (joins k ev). Qed.
(** Every grant has a hold of its own: grants and open holds are never more
    than the holds of the request. *)
Lemma own_bound events k : 0 <= (own events k).1 /\ 0 <= (own events k).2 /\
  (own events k).1 + (own events k).2 <= zcount (fun ev => is_hold ev && joins k ev) events.
Proof.
  induction events as [|ev events IH] using rev_ind; [done|]. rewrite own_snoc, zcount_snoc.
  destruct (joins k ev); [|rewrite andb_false_r; lia]. destruct (own events k) as [o g]. cbn in IH. unfold own_step. rewrite andb_true_r.
  destruct (is_hold ev); cbn; [lia|]. destruct (is_denied ev); cbn; [lia|]. destruct (is_grant ev); cbn; [|lia].
  destruct (0 <? o) eqn:E; bools; cbn; lia.
Qed.

Lemma event_type_cases ev :
  is_denied ev = (ae_EventType ev =s? EventToolDenied) /\
  (is_denied ev = true -> is_hold ev = false /\ is_chain ev = false /\ is_grant ev = false) /\
  (is_hold ev = true -> is_denied ev = false /\ is_chain ev = false /\ is_grant ev = false) /\
  (is_chain ev = true -> is_denied ev = false /\ is_hold ev = false /\ is_grant ev = false) /\
  (ae_EventType ev = EventToolAllowed -> is_denied ev = false /\ is_hold ev = false /\ is_chain ev = false).
Proof.
  unfold is_denied, is_hold, is_chain, is_grant. split; [done|].
  split_and!; intros E; try (apply (proj1 (str_eqb_true _ _)) in E); rewrite E; by split_and!.
Qed.

(** What the loop of [Compute] holds after [events]. *)
Record computed (K : list key) (events : list Event) (rep : Report) (holds : gmap string Z) : Prop := {
  cp_holds : forall k, nul_free k.2 -> counter holds (mapped k) = (own events k).1;
  cp_denied : bp_DeniedTotal rep = zcount is_denied events;
  cp_rules : forall rule, counter (bp_DeniedByRule rep) rule =
    zcount (fun ev => is_denied ev && (ae_PolicyRule ev =s? rule) && (rule <>s? "")) events;
  cp_norule : bp_DeniedNoRule rep = zcount (fun ev => is_denied ev && (ae_PolicyRule ev =s? "")) events;
  cp_taints : bp_TaintBlocks rep = zcount (fun ev => is_denied ev && (0 <? length (ae_SessionTaints ev))%nat) events;
  cp_gates : bp_ApprovalGates rep = zcount is_hold events;
  cp_grants : bp_ApprovalGrants rep = zsum (fun k => (own events k).2) K;
  cp_chains : bp_ChainIntercepts rep = zcount is_chain events;
  cp_rest : bp_UnloggedDenials rep = 0 /\ bp_UnloggedDetail rep = [] /\ bp_Unjoinable rep = 0
}.

Lemma joins_key k ev : joins k ev = true -> key_of ev = k.
Proof. unfold joins. rewrite andb_true_iff, bool_decide_eq_true. tauto. Qed.
Lemma own_other events ev k : key_of ev <> k -> own (events ++ [ev]) k = own events k.
Proof. intros Hne. rewrite own_snoc. destruct (joins k ev) eqn:E; [|done]. by apply joins_key in E. Qed.

(** Only the grants of the key of the last record change. *)
Lemma grants_snoc K events ev : NoDup K -> key_of ev ∈ K ->
  zsum (fun k => (own (events ++ [ev]) k).2) K =
  zsum (fun k => (own events k).2) K + ((own (events ++ [ev]) (key_of ev)).2 - (own events (key_of ev)).2).
Proof.
  intros Hn Hk. apply (zsum_change (fun k => (own (events ++ [ev]) k).2) (fun k => (own events k).2) K (key_of ev) Hn Hk).
  intros k Hne. by rewrite own_other.
Qed.

Lemma joins_own ev : joins (key_of ev) ev = (ae_RequestHash ev <>s? "").
Proof. unfold joins. rewrite bool_decide_eq_true_2 by done. apply andb_true_r. Qed.


(** The counter of a key after an update at the record's own key. *)
Lemma mapped_case k ev (a b : Z) : nul_free k.2 -> nul_free (ae_RequestHash ev) ->
  (if decide (holdKey (ae_SessionID ev) (ae_RequestHash ev) = mapped k) then a else b) = if bool_decide (key_of ev = k) then a else b.
Proof. intros Hk He. rewrite <- (mapped_decide k ev Hk He). by destruct (decide _). Qed.

(** A record moves the holds of its own key only, as [own_step] does. *)
Lemma compute_holds rep holds ev k (g : Z) : nul_free k.2 -> nul_free (ae_RequestHash ev) -> 0 <= counter holds (mapped k) ->
  counter (compute_event (rep, holds) ev).2 (mapped k) =
  if joins k ev then (own_step (counter holds (mapped k), g) ev).1 else counter holds (mapped k).
Proof.
  intros Hk He Hpos. destruct (event_type_cases ev) as (_ & Hd & Hh & Hc & Ha). unfold joins, compute_event, compute_denied.
  assert (holdKey (ae_SessionID ev) (ae_RequestHash ev) = mapped k -> counter holds (holdKey (ae_SessionID ev) (ae_RequestHash ev)) = counter holds (mapped k)) as Hsame by congruence.
  destruct (ae_EventType ev =s? EventToolDenied) eqn:E1; [|destruct (ae_EventType ev =s? EventToolAllowed) eqn:E2;
    [|destruct (ae_EventType ev =s? EventToolApprovalRequired) eqn:E3; [|destruct (ae_EventType ev =s? EventToolChainDetected) eqn:E4]]].
  - destruct (Hd E1) as (Hh' & _ & Hg'). unfold own_step. rewrite Hh'. change (is_denied ev) with (ae_EventType ev =s? EventToolDenied). rewrite E1. cbn [fst snd].
    destruct (ae_RequestHash ev <>s? ""); cbn [andb]; [|done].
    destruct (_ <=? 1) eqn:El; bools; rewrite ?counter_delete, ?counter_insert, mapped_case by done;
      (destruct (bool_decide (key_of ev = k)) eqn:Ek; [|done]); apply bool_decide_eq_true in Ek as <-; cbn in El |- *; unfold mapped in *; cbn in *; lia.
  - apply str_eqb_true in E2. destruct (Ha E2) as (Hd' & Hh' & _). unfold own_step, is_grant. rewrite Hh', Hd', E2. cbn [fst snd].
    change (EventToolAllowed =s? EventToolAllowed) with true. cbn [andb].
    destruct (ae_RequestHash ev <>s? ""); [|by rewrite andb_false_r]. rewrite andb_true_r. cbn [andb].
    destruct (_ && isHumanApproveReceipt _); [|by destruct (bool_decide _)]. cbn [andb].
    destruct (0 <? counter holds (holdKey _ _)) eqn:El; cbn [snd]; rewrite ?counter_insert, ?mapped_case by done;
      (destruct (bool_decide (key_of ev = k)) eqn:Ek; [|done]); apply bool_decide_eq_true in Ek as <-; unfold mapped in *; cbn in *; by rewrite El.
  - change (is_hold ev = true) in E3. destruct (Hh E3) as (Hd' & _). unfold own_step. rewrite E3. cbn [fst snd].
    destruct (ae_RequestHash ev <>s? ""); cbn [andb]; [|done]. rewrite counter_increment, mapped_case by done.
    destruct (bool_decide _); lia.
  - change (is_chain ev = true) in E4. destruct (Hc E4) as (Hd' & Hh' & Hg'). unfold own_step. rewrite Hh', Hd', Hg'. cbn. by destruct (_ && _).
  - unfold own_step. change (is_hold ev = false) in E3. change (is_denied ev = false) in E1. rewrite E3, E1.
    assert (is_grant ev = false) as -> by (unfold is_grant; by rewrite E2). cbn. by destruct (_ && _).
Qed.
(** Grants: one more when the record is a grant against an open hold. *)
Lemma compute_grants rep holds ev o : counter holds (mapped (key_of ev)) = o ->
  bp_ApprovalGrants (compute_event (rep, holds) ev).1 =
  bp_ApprovalGrants rep + if joins (key_of ev) ev then (own_step (o, 0) ev).2 else 0.
Proof.
  intros <-. rewrite joins_own. destruct (event_type_cases ev) as (_ & Hd & Hh & Hc & Ha). unfold compute_event, compute_denied, own_step.
  destruct (ae_EventType ev =s? EventToolDenied) eqn:E1; [|destruct (ae_EventType ev =s? EventToolAllowed) eqn:E2;
    [|destruct (ae_EventType ev =s? EventToolApprovalRequired) eqn:E3; [|destruct (ae_EventType ev =s? EventToolChainDetected) eqn:E4]]].
  - destruct (Hd E1) as (-> & _ & _). change (is_denied ev) with (ae_EventType ev =s? EventToolDenied). rewrite E1. cbn [fst snd].
    destruct (ae_PolicyRule ev =s? ""), (0 <? length (ae_SessionTaints ev))%nat, (ae_RequestHash ev <>s? ""); cbn; lia.
  - apply str_eqb_true in E2. destruct (Ha E2) as (-> & -> & _). unfold is_grant. rewrite E2. change (EventToolAllowed =s? EventToolAllowed) with true.
    cbn [andb]. destruct (ae_RequestHash ev <>s? ""); rewrite ?andb_false_r, ?andb_true_r; cbn [andb]; [|cbn; lia].
    destruct (_ && isHumanApproveReceipt _); cbn [andb]; [|cbn; lia]. unfold mapped, key_of. cbn [fst snd].
    destruct (0 <? counter holds _); cbn; lia.
  - change (is_hold ev = true) in E3. rewrite E3. cbn. destruct (_ <>s? ""); lia.
  - change (is_chain ev = true) in E4. destruct (Hc E4) as (-> & -> & ->). cbn. destruct (_ <>s? ""); lia.
  - change (is_hold ev = false) in E3. change (is_denied ev = false) in E1. rewrite E3, E1. assert (is_grant ev = false) as -> by (unfold is_grant; by rewrite E2).
    cbn. destruct (_ <>s? ""); lia.
Qed.
(** The plain counters. *)
Lemma compute_counts rep holds ev : let rep' := (compute_event (rep, holds) ev).1 in
  bp_DeniedTotal rep' = bp_DeniedTotal rep + (if is_denied ev then 1 else 0) /\
  (forall rule, counter (bp_DeniedByRule rep') rule = counter (bp_DeniedByRule rep) rule +
     if is_denied ev && (ae_PolicyRule ev =s? rule) && (rule <>s? "") then 1 else 0) /\
  bp_DeniedNoRule rep' = bp_DeniedNoRule rep + (if is_denied ev && (ae_PolicyRule ev =s? "") then 1 else 0) /\
  bp_TaintBlocks rep' = bp_TaintBlocks rep + (if is_denied ev && (0 <? length (ae_SessionTaints ev))%nat then 1 else 0) /\
  bp_ApprovalGates rep' = bp_ApprovalGates rep + (if is_hold ev then 1 else 0) /\
  bp_ChainIntercepts rep' = bp_ChainIntercepts rep + (if is_chain ev then 1 else 0) /\
  bp_UnloggedDenials rep' = bp_UnloggedDenials rep /\ bp_UnloggedDetail rep' = bp_UnloggedDetail rep /\ bp_Unjoinable rep' = bp_Unjoinable rep.
Proof.
  destruct (event_type_cases ev) as (_ & Hd & Hh & Hc & Ha). unfold compute_event, compute_denied.
  destruct (ae_EventType ev =s? EventToolDenied) eqn:E1; [|destruct (ae_EventType ev =s? EventToolAllowed) eqn:E2;
    [|destruct (ae_EventType ev =s? EventToolApprovalRequired) eqn:E3; [|destruct (ae_EventType ev =s? EventToolChainDetected) eqn:E4]]].
  - destruct (Hd E1) as (-> & -> & _). change (is_denied ev) with (ae_EventType ev =s? EventToolDenied). rewrite E1. cbn [fst snd andb].
    destruct (ae_PolicyRule ev =s? "") eqn:Er, (0 <? length (ae_SessionTaints ev))%nat; bools; cbn; split_and!; try lia; try done; intros rule.
    1,2: rewrite Er; destruct ("" =s? rule) eqn:E; bools; cbn; lia.
    all: rewrite counter_increment; destruct (decide _) as [<-|Hne]; [rewrite String.eqb_refl, (proj2 (str_neqb_true _ _) Er); cbn; lia|].
    all: rewrite (proj2 (str_eqb_false _ _) Hne); cbn; lia.
  - apply str_eqb_true in E2. destruct (Ha E2) as (-> & -> & ->). cbn [andb]. destruct (_ && isHumanApproveReceipt _); [|cbn; split_and!; intros; lia || done].
    destruct (0 <? _); cbn; split_and!; intros; lia || done.
  - change (is_hold ev = true) in E3. destruct (Hh E3) as (-> & -> & _). rewrite E3. cbn. split_and!; intros; lia || done.
  - change (is_chain ev = true) in E4. destruct (Hc E4) as (-> & -> & _). rewrite E4. cbn. split_and!; intros; lia || done.
  - change (is_hold ev = false) in E3. change (is_denied ev = false) in E1. change (is_chain ev = false) in E4. rewrite E1, E3, E4. cbn. split_and!; intros; lia || done.
Qed.

Lemma Compute_snoc K events ev rep holds : NoDup K -> key_of ev ∈ K -> nul_free (ae_RequestHash ev) ->
  computed K events rep holds -> computed K (events ++ [ev]) (compute_event (rep, holds) ev).1 (compute_event (rep, holds) ev).2.
Proof.
  intros Hn Hk Hf [Ch Cd Cr Cn Ct Cg Cgr Cc Crest].
  destruct (compute_counts rep holds ev) as (Ed & Er & En & Et & Eg & Ec & Eu). destruct Crest as (-> & -> & ->) in Eu.
  split; rewrite ?zcount_snoc, ?Ed, ?En, ?Et, ?Eg, ?Ec, ?Cd, ?Cn, ?Ct, ?Cg, ?Cc; try done.
  - intros k Hkf. pose proof (own_bound events k) as Hb. rewrite (compute_holds rep holds ev k (own events k).2) by (rewrite ?Ch; done || lia).
    rewrite own_snoc, Ch by done. destruct (joins k ev); [|done]. by destruct (own events k).
  - intros rule. by rewrite zcount_snoc, Er, Cr.
  - rewrite (compute_grants rep holds ev (own events (key_of ev)).1) by by apply Ch. rewrite Cgr, (grants_snoc K events ev Hn Hk), own_snoc.
    destruct (joins (key_of ev) ev); [|lia]. destruct (own events (key_of ev)) as [o g]. unfold own_step. cbn.
    destruct (is_hold ev); cbn; [lia|]. destruct (is_denied ev); cbn; [lia|]. destruct (is_grant ev && _); cbn; lia.
Qed.

(** [Compute] counts exactly: every denial, its rule or the lack of one, every
    denial of a tainted session, every hold and every chain interception; and
    as grants, over the requests of each session apart, those that a human
    granted against a hold of that very request of that very session which no
    denial had retired — so never more than the holds. *)
Theorem Compute_exact (events : list Event) (K : list key) :
  clean events -> NoDup K -> (forall ev, ev ∈ events -> key_of ev ∈ K) ->
  let rep := Compute events in
  bp_DeniedTotal rep = zcount is_denied events /\
  (forall rule, rule <> "" -> counter (bp_DeniedByRule rep) rule = zcount (fun ev => is_denied ev && (ae_PolicyRule ev =s? rule)) events) /\
  bp_DeniedNoRule rep = zcount (fun ev => is_denied ev && (ae_PolicyRule ev =s? "")) events /\
  bp_TaintBlocks rep = zcount (fun ev => is_denied ev && (0 <? length (ae_SessionTaints ev))%nat) events /\
  bp_ApprovalGates rep = zcount is_hold events /\ bp_ChainIntercepts rep = zcount is_chain events /\
  bp_ApprovalGrants rep = zsum (fun k => (own events k).2) K /\ bp_ApprovalGrants rep <= bp_ApprovalGates rep.
Proof.
  intros Hc Hn HK. unfold Compute. assert (computed K events (foldl compute_event (emptyReport, ∅) events).1 (foldl compute_event (emptyReport, ∅) events).2) as Hcp.
  { induction events as [|ev events IH] using rev_ind.
    - split; try done. cbn. induction K as [|k K IHK]; [done|]. apply NoDup_cons in Hn as [_ Hn]. cbn. apply IHK; [done|]. by intros ev ?%not_elem_of_nil.
    - rewrite foldl_app. cbn [foldl]. apply Forall_app in Hc as [Hc [Hev _]%Forall_cons].
      destruct (foldl compute_event (emptyReport, ∅) events) as [rep holds]. apply Compute_snoc; [done| |done|].
      + apply HK. set_solver.
      + apply IH; [done|]. intros ev' Hev'. apply HK. set_solver. }
  destruct Hcp as [Ch Cd Cr Cn Ct Cg Cgr Cc _]. split_and!; try done.
  - intros rule Hr. rewrite Cr. unfold zcount. apply zsum_ext. intros ev _. by rewrite (proj2 (str_neqb_true _ _) Hr), andb_true_r.
  - rewrite Cgr, Cg. transitivity (zsum (fun k => zcount (fun ev => is_hold ev && joins k ev) events) K).
    + apply zsum_le. intros k. pose proof (own_bound events k). lia.
    + apply zcount_classes; [done|]. by intros ev k k' <-%joins_key <-%joins_key.
Qed.

(** ** Reconciliation *)

(** A declared denial that can be joined, and one that cannot. *)
Definition declares (k : key) (d : DecisionRef) : bool :=
  (dr_Decision d =s? "deny") && (dr_RequestHash d <>s? "") && (dr_SessionID d <>s? "") && bool_decide ((dr_SessionID d, dr_RequestHash d) = k).
Definition unjoinable (d : DecisionRef) : bool :=
  (dr_Decision d =s? "") || ((dr_Decision d =s? "deny") && ((dr_RequestHash d =s? "") || (dr_SessionID d =s? ""))).
Definition declared (decisions : list DecisionRef) (k : key) : Z := zcount (declares k) decisions.
Definition logged (events : list Event) (k : key) : Z := zcount (fun ev => is_denied ev && joins k ev) events.
(** The declared denials of a key the ledger has no record for. *)
Definition missing (decisions : list DecisionRef) (events : list Event) (k : key) : Z :=
  Z.max 0 (declared decisions k - logged events k).

Lemma index_denied_counts events k : clean events -> nul_free k.2 ->
  counter (foldl index_denied ∅ events) (mapped k) = logged events k.
Proof.
  intros Hc Hk. induction events as [|ev events IH] using rev_ind; [done|]. apply Forall_app in Hc as [Hc [Hev _]%Forall_cons].
  unfold logged. rewrite foldl_app, zcount_snoc. cbn [foldl]. unfold index_denied at 1, joins, is_denied.
  destruct (ae_EventType ev =s? EventToolDenied); cbn [negb orb andb]; [|rewrite IH by done; unfold logged, joins, is_denied; lia].
  destruct (ae_RequestHash ev =s? ""); cbn [negb andb]; [rewrite IH by done; unfold logged, joins, is_denied; lia|].
  rewrite counter_increment, mapped_case, IH by done. unfold logged, joins, is_denied. by destruct (bool_decide _).
Qed.

(** What the loop of [Reconcile] holds after [decisions]. *)
Record reconciled (K : list key) (rep0 : Report) (events : list Event) (decisions : list DecisionRef) (rep : Report) (byKey : gmap string Z) : Prop := {
  rc_left : forall k, nul_free k.2 -> counter byKey (mapped k) = Z.max 0 (logged events k - declared decisions k);
  rc_unlogged : bp_UnloggedDenials rep = bp_UnloggedDenials rep0 + zsum (missing decisions events) K;
  rc_detail : exists detail, bp_UnloggedDetail rep = bp_UnloggedDetail rep0 ++ detail /\
    forall k, nul_free k.2 -> zcount (fun s => bool_decide (s = mapped k)) detail = missing decisions events k;
  rc_unjoinable : bp_Unjoinable rep = bp_Unjoinable rep0 + zcount unjoinable decisions;
  rc_rest : bp_DeniedTotal rep = bp_DeniedTotal rep0 /\ bp_DeniedByRule rep = bp_DeniedByRule rep0 /\ bp_DeniedNoRule rep = bp_DeniedNoRule rep0 /\
    bp_ApprovalGates rep = bp_ApprovalGates rep0 /\ bp_ApprovalGrants rep = bp_ApprovalGrants rep0 /\
    bp_ChainIntercepts rep = bp_ChainIntercepts rep0 /\ bp_TaintBlocks rep = bp_TaintBlocks rep0
}.
Definition ref_key (d : DecisionRef) : key := (dr_SessionID d, dr_RequestHash d).
Lemma declared_snoc ds d k : declared (ds ++ [d]) k = declared ds k + if declares k d then 1 else 0.
Proof. apply zcount_snoc. Qed.
Lemma declares_key k d : declares k d = true -> ref_key d = k.
Proof. unfold declares. rewrite !andb_true_iff, bool_decide_eq_true. tauto. Qed.
Lemma logged_nonneg events k : 0 <= logged events k. Proof. apply zcount_nonneg. Qed.
Lemma declared_nonneg ds k : 0 <= declared ds k. Proof. apply zcount_nonneg. Qed.

(** A decision that declares nothing changes no count but the unjoinable. *)
Lemma reconciled_other K rep0 events ds d rep rep' byKey : (forall k, declares k d = false) ->
  bp_UnloggedDenials rep' = bp_UnloggedDenials rep -> bp_UnloggedDetail rep' = bp_UnloggedDetail rep ->
  bp_Unjoinable rep' = bp_Unjoinable rep + (if unjoinable d then 1 else 0) ->
  bp_DeniedTotal rep' = bp_DeniedTotal rep /\ bp_DeniedByRule rep' = bp_DeniedByRule rep /\ bp_DeniedNoRule rep' = bp_DeniedNoRule rep /\
    bp_ApprovalGates rep' = bp_ApprovalGates rep /\ bp_ApprovalGrants rep' = bp_ApprovalGrants rep /\
    bp_ChainIntercepts rep' = bp_ChainIntercepts rep /\ bp_TaintBlocks rep' = bp_TaintBlocks rep ->
  reconciled K rep0 events ds rep byKey -> reconciled K rep0 events (ds ++ [d]) rep' byKey.
Proof.
  intros Hd E1 E2 E3 (F1 & F2 & F3 & F4 & F5 & F6 & F7) [Hl Hu (detail & Hdt & Hm) Hj Hr].
  assert (forall k, declared (ds ++ [d]) k = declared ds k) as Hsame by (intros k; rewrite declared_snoc, Hd; lia).
  split.
  - intros k Hk. by rewrite Hsame, Hl.
  - rewrite E1, Hu. f_equal. apply zsum_ext. intros k _. unfold missing. by rewrite Hsame.
  - exists detail. rewrite E2. split; [done|]. intros k Hk. unfold missing. rewrite Hsame. by apply Hm.
  - rewrite zcount_snoc, E3, Hj. lia.
  - rewrite F1, F2, F3, F4, F5, F6, F7. done.
Qed.

Lemma reconcile_snoc K rep0 events ds d rep byKey : NoDup K -> ref_key d ∈ K -> nul_free (dr_RequestHash d) ->
  reconciled K rep0 events ds rep byKey ->
  reconciled K rep0 events (ds ++ [d]) (reconcile_decision (rep, byKey) d).1 (reconcile_decision (rep, byKey) d).2.
Proof.
  intros Hn HK Hf Hrec. unfold reconcile_decision. destruct (dr_Decision d =s? "") eqn:E1.
  { apply (reconciled_other _ _ _ _ _ rep); try done.
    - intros k. unfold declares. bools. by rewrite E1.
    - unfold unjoinable. by rewrite E1. }
  destruct (dr_Decision d <>s? "deny") eqn:E2.
  { apply (reconciled_other _ _ _ _ _ rep); try done.
    - intros k. unfold declares. apply negb_true_iff in E2. by rewrite E2.
    - unfold unjoinable. apply negb_true_iff in E2. rewrite E1, E2. cbn. lia. }
  apply negb_false_iff in E2. destruct ((dr_RequestHash d =s? "") || (dr_SessionID d =s? "")) eqn:E3.
  { apply (reconciled_other _ _ _ _ _ rep); try done.
    - intros k. unfold declares. rewrite E2. apply orb_true_iff in E3 as [->| ->]; cbn [negb andb]; rewrite ?andb_false_r; done.
    - unfold unjoinable. by rewrite E1, E2, E3. }
  assert (forall k, declares k d = bool_decide (ref_key d = k)) as Hd.
  { intros k. unfold declares. apply orb_false_iff in E3 as [-> ->]. by rewrite E2. }
  assert (unjoinable d = false) as Huj by (unfold unjoinable; by rewrite E1, E2, E3).
  set (me := ref_key d) in *. change (holdKey (dr_SessionID d) (dr_RequestHash d)) with (mapped me).
  destruct Hrec as [Hl Hu (detail & Hdt & Hm) Hj Hr].
  assert (declared (ds ++ [d]) me = declared ds me + 1) as Hme by (rewrite declared_snoc, Hd, bool_decide_eq_true_2; done).
  assert (forall k, k <> me -> declared (ds ++ [d]) k = declared ds k) as Hother.
  { intros k Hne. rewrite declared_snoc, Hd, bool_decide_eq_false_2 by done. lia. }
  assert (forall k, nul_free k.2 -> (if decide (mapped me = mapped k) then true else false) = bool_decide (me = k)) as Hmap.
  { intros [s h] Hk. destruct (decide _) as [E|Hne].
    - apply holdKey_inj in E as [Es Eh]; [|done..]. symmetry. apply bool_decide_eq_true. cbn in Es, Eh. unfold me, ref_key. by rewrite Es, Eh.
    - symmetry. apply bool_decide_eq_false. intros E. by rewrite E in Hne. }
  pose proof (Hl me Hf) as Hlm. pose proof (logged_nonneg events me). pose proof (declared_nonneg ds me).
  assert (zsum (missing (ds ++ [d]) events) K = zsum (missing ds events) K + (missing (ds ++ [d]) events me - missing ds events me)) as Hsum.
  { apply zsum_change; [done..|]. intros k Hne. unfold missing. by rewrite Hother. }
  destruct (counter byKey (mapped me) =? 0) eqn:E4; cbn [fst snd]; bools.
  - assert (missing (ds ++ [d]) events me = missing ds events me + 1) as Hmiss by (unfold missing; rewrite Hme; lia). split.
    + intros k Hk. rewrite Hl by done. destruct (decide (k = me)) as [->|Hne]; [rewrite Hme; lia|by rewrite Hother].
    + cbn. rewrite Hu, Hsum. lia.
    + exists (detail ++ [mapped me]). cbn. rewrite Hdt, app_assoc. split; [done|]. intros k Hk. rewrite zcount_snoc, Hm by done.
      specialize (Hmap k Hk). destruct (decide (k = me)) as [->|Hne].
      * rewrite bool_decide_eq_true_2 by done. lia.
      * rewrite bool_decide_eq_false_2 in Hmap by done. rewrite bool_decide_eq_false_2 by (by destruct (decide _)).
        unfold missing. rewrite Hother by done. lia.
    + cbn. rewrite zcount_snoc, Huj. lia.
    + done.
  - assert (missing (ds ++ [d]) events me = missing ds events me) as Hmiss by (unfold missing; rewrite Hme; lia). split.
    + intros k Hk. rewrite counter_insert. specialize (Hmap k Hk). destruct (decide (k = me)) as [->|Hne].
      * rewrite decide_True, Hme by done. lia.
      * rewrite bool_decide_eq_false_2 in Hmap by done. destruct (decide _); [done|]. by rewrite Hl, Hother.
    + rewrite Hu, Hsum. lia.
    + exists detail. split; [done|]. intros k Hk. rewrite Hm by done. destruct (decide (k = me)) as [->|Hne]; [done|].
      unfold missing. by rewrite Hother.
    + rewrite zcount_snoc, Huj, Hj. lia.
    + done.
Qed.

(** Reconciliation is exact: of the denials declared, those missing from the
    ledger are, for each request of each session, as many as are declared beyond
    those the ledger records — in whatever order either comes; each is listed
    under its key, in order; and the declarations that cannot be joined are
    counted apart.  The other numbers stay. *)
Theorem Reconcile_exact (rep : Report) (decisions : list DecisionRef) (events : list Event) (K : list key) :
  clean events -> Forall (fun d => nul_free (dr_RequestHash d)) decisions ->
  NoDup K -> (forall d, d ∈ decisions -> ref_key d ∈ K) ->
  let rep' := Reconcile rep decisions events in
  bp_UnloggedDenials rep' = bp_UnloggedDenials rep + zsum (missing decisions events) K /\
  bp_Unjoinable rep' = bp_Unjoinable rep + zcount unjoinable decisions /\
  Sorted String.le (bp_UnloggedDetail rep') /\
  (forall k, nul_free k.2 -> zcount (fun s => bool_decide (s = mapped k)) (bp_UnloggedDetail rep') =
     zcount (fun s => bool_decide (s = mapped k)) (bp_UnloggedDetail rep) + missing decisions events k) /\
  bp_DeniedTotal rep' = bp_DeniedTotal rep /\ bp_ApprovalGates rep' = bp_ApprovalGates rep /\ bp_ApprovalGrants rep' = bp_ApprovalGrants rep.
Proof.
  intros Hc Hf Hn HK. cbn. unfold Reconcile.
  assert (reconciled K rep events decisions (foldl reconcile_decision (rep, foldl index_denied ∅ events) decisions).1
    (foldl reconcile_decision (rep, foldl index_denied ∅ events) decisions).2) as [Hl Hu (detail & Hd & Hm) Hj (F1 & _ & _ & F4 & F5 & _)].
  { induction decisions as [|d ds IH] using rev_ind.
    - split; cbn [foldl fst snd].
      + intros k Hk. rewrite index_denied_counts by done. pose proof (logged_nonneg events k). unfold declared, zcount. cbn. lia.
      + rewrite (zsum_ext _ (fun _ => 0)); [rewrite zsum_zero; lia|]. intros k _. unfold missing, declared, zcount. cbn. pose proof (logged_nonneg events k). lia.
      + exists []. rewrite app_nil_r. split; [done|]. intros k _. unfold missing, declared, zcount. cbn. pose proof (logged_nonneg events k). lia.
      + cbn. lia.
      + done.
    - rewrite foldl_app. cbn [foldl]. apply Forall_app in Hf as [Hf [Hfd _]%Forall_cons].
      destruct (foldl reconcile_decision (rep, foldl index_denied ∅ events) ds) as [rep' byKey]. apply reconcile_snoc; [done| |done|].
      + apply HK. set_solver.
      + apply IH; [done|]. intros d' Hd'. apply HK. set_solver. }
  set (r := (foldl _ _ decisions).1) in *. cbn. split_and!; try done.
  - apply (Sorted_merge_sort String.le).
  - intros k Hk. transitivity (zcount (fun s => bool_decide (s = mapped k)) (bp_UnloggedDetail r)); [apply zcount_perm, merge_sort_Permutation|].
    rewrite Hd. unfold zcount at 1. rewrite zsum_app. fold (zcount (fun s => bool_decide (s = mapped k)) (bp_UnloggedDetail rep)).
    f_equal. by apply Hm.
Qed.

(** ** Loading *)

Section load.
Context `{EventJSON}.

Lemma framed_line line s : any_byte (Ascii.eqb LF) line = false ->
  framed (line +:+ String LF s) = ((line +:+ String LF "") :: (framed s).1, (framed s).2).
Proof.
  induction line as [|c line IH]; intros Hl.
  - change ("" +:+ String LF s) with (String LF s). cbn. by destruct (framed s).
  - cbn in Hl. apply orb_false_iff in Hl as [Hc Hl]. change (String c line +:+ String LF s) with (String c (line +:+ String LF s)).
    cbn [framed]. rewrite (IH Hl). assert (Ascii.eqb c LF = false) as -> by (by rewrite Ascii.eqb_sym). done.
Qed.
Lemma framed_rest s : any_byte (Ascii.eqb LF) s = false -> framed s = ([], s).
Proof.
  induction s as [|c s IH]; [done|]. cbn. intros [Hc Hs]%orb_false_iff. rewrite (IH Hs).
  assert (Ascii.eqb c LF = false) as -> by (by rewrite Ascii.eqb_sym). done.
Qed.

(** A record that the loader takes: one line, not blank, which decodes, with
    its newline, to an event with a type. *)
Definition loads (en : entry) (ev : Event) : Prop :=
  any_byte (Ascii.eqb LF) (en_line en) = false /\ isBlankLine (en_line en +:+ String LF "") = false /\
  unmarshal_event (en_line en +:+ String LF "") = Some ev /\ ae_EventType ev <> "".

(** The loader reads the ledger the logger writes, record by record; after a
    torn record it reads nothing. *)
Theorem LoadEvents_ledger (es : list entry) (evs : list Event) (torn : string) :
  Forall2 loads es evs -> any_byte (Ascii.eqb LF) torn = false ->
  LoadEvents (ledger es +:+ torn) None =
    if isBlankLine torn then Ok evs else Err "truncated tail: final record lacks terminating newline".
Proof.
  intros Hl Ht. unfold LoadEvents. assert (framed (ledger es +:+ torn) = ((fun en => en_line en +:+ String LF "") <$> es, torn) /\
    load_lines ((fun en => en_line en +:+ String LF "") <$> es) = Ok evs) as [-> ->]; [|done].
  induction Hl as [|en ev es evs (Hn & Hb & Hu & Ht') _ [IHf IHl]]; [by rewrite framed_rest|]. split.
  - cbn [ledger foldr]. fold (ledger es). rewrite append_assoc. change (String LF (ledger es) +:+ torn) with (String LF (ledger es +:+ torn)).
    rewrite framed_line, IHf by done. done.
  - change (((fun en => en_line en +:+ String LF "") <$> en :: es)) with ((en_line en +:+ String LF "") :: ((fun en => en_line en +:+ String LF "") <$> es)). cbn [load_lines]. rewrite Hb, Hu, (proj2 (str_eqb_false _ _) Ht'). by rewrite IHl.
Qed.
End load.

(** ** One request in two sessions *)

Module BrakeWitness.
Definition record (type session : string) (grant : bool) : Event :=
  Proxy.ev_EventType type (Proxy.ev_SessionID session (Proxy.ev_RequestHash "h"
    (Proxy.ev_ApprovalReceiptHash (if grant then "r" else "")
    (Proxy.ev_ApprovalReceipt (if grant then Some [("approver_id", AString "op"); ("decision", AString "approve")] else None) zeroEvent)))).
Definition events : list Event := [record EventToolApprovalRequired "a" false; record EventToolApprovalRequired "a" false;
  record EventToolDenied "a" false; record EventToolAllowed "b" true; record EventToolAllowed "a" true; record EventToolAllowed "a" true].
Definition deny (session : string) : DecisionRef := {| dr_RequestHash := "h"; dr_SessionID := session; dr_Decision := "deny" |}.
Definition keys : list key := [("a", "h"); ("b", "h")].
Lemma events_clean : clean events. Proof. repeat constructor. Qed.
Lemma keys_once : NoDup keys. Proof. apply (bool_decide_unpack _). by vm_compute. Qed.
Definition line : entry := {| en_event := record EventToolDenied "a" false; en_line := "x" |}.
#[local] Instance one_record : EventJSON := {| marshal_event := fun _ => Some "x"; unmarshal_event := fun _ => Some (record EventToolDenied "a" false) |}.
End BrakeWitness.
Import BrakeWitness.

(** Of two holds one is denied and one granted; the second grant, and the one
    of the other session, have no hold left. *)
Lemma Compute_exact_witness : bp_ApprovalGrants (Compute events) = 1 /\ bp_ApprovalGates (Compute events) = 2 /\ clean events.
Proof.
  destruct (Compute_exact events keys events_clean keys_once) as (_ & _ & _ & _ & Hg & _ & Hs & _).
  { intros ev Hev. unfold events in Hev. rewrite !elem_of_cons in Hev. unfold keys.
    destruct Hev as [->|[->|[->|[->|[->|[->|Hev]]]]]]; [left|left|left|right; left|left|left|by apply not_elem_of_nil in Hev]. }
  split_and!; [rewrite Hs; by vm_compute|rewrite Hg; by vm_compute|exact events_clean].
Defined.
Lemma Reconcile_exact_witness : bp_UnloggedDenials (Reconcile emptyReport [deny "a"; deny "a"; deny "b"] events) = 2.
Proof.
  destruct (Reconcile_exact emptyReport [deny "a"; deny "a"; deny "b"] events keys events_clean) as (Hu & _).
  - repeat constructor.
  - exact keys_once.
  - intros d Hd. rewrite !elem_of_cons in Hd. destruct Hd as [->|[->|[->|Hd]]]; [left|left|right; left|by apply not_elem_of_nil in Hd].
  - rewrite Hu. by vm_compute.
Defined.
Lemma LoadEvents_ledger_witness : exists H : EventJSON, LoadEvents (H := H) (ledger [line; line] +:+ "x") None =
  Err "truncated tail: final record lacks terminating newline".
Proof.
  exists one_record. refine (LoadEvents_ledger (H := one_record) [line; line] [record EventToolDenied "a" false; record EventToolDenied "a" false] "x" _ eq_refl).
  repeat constructor; done.
Defined.
