(* ===== verification/IncidentBundle.v ===== *)
(** Incident bundles, [internal/incidentbundle/bundle.go]: the sealed record
    of one episode, its construction, its verification and its strict reading.

    What the caller's [build] does is a function on the event.  A payload is
    what [Decode] with [UseNumber] yields; it is a value, so a payload changed
    after [Append] through another reference is not modelled.  [encoding/json]
    is a class argument. *)
From stdpp Require Import base strings gmap list.
From Stdlib Require Import ZArith Lia Ascii.
From S2P Require Import Prelude GoStrings GoLib OwnershipGate Receipt KillSwitch.
#[local] Open Scope Z_scope.

Definition SpecVersion : string := "0.1".
Definition KindRequestedAction : string := "requested_action".
Definition KindPolicyDecision : string := "policy_decision".
Definition KindRuntimeAttempt : string := "runtime_attempt".
Definition KindExternalEffect : string := "external_effect".
Definition KindStateDelta : string := "state_delta".
Definition KindPropagation : string := "propagation".
Definition ConfirmationUnconfirmed : string := "unconfirmed".
Definition ConfirmationConfirmed : string := "confirmed".

(** [any], with the numbers that keep their text. *)
#[warnings="-register-all"]
Inductive Value : Type :=
| VNil
| VBool (b : bool)
| VNumber (text : string)
| VFloat64 (f : float64)
| VInt (z : Z)
| VString (s : string)
| VArray (l : list Value)
| VMap (m : list (string * Value)).

Record Event := {
  be_Seq : Z;
  be_PrevHash : string;
  be_Kind : string;
  be_Timestamp : Z;
  be_Principal : string;
  be_Delegation : list string;
  be_AuthorityRef : string;
  be_Payload : option (list (string * Value));
  be_PayloadHash : string;
  be_RedactionNote : string;
  be_Confirmation : string;
  be_EvidenceSource : string;
  be_Supersedes : option Z;
  be_Hash : string
}.
Definition eta_Event (e : Event) : Event := {|
  be_Seq := be_Seq e; be_PrevHash := be_PrevHash e; be_Kind := be_Kind e; be_Timestamp := be_Timestamp e;
  be_Principal := be_Principal e; be_Delegation := be_Delegation e; be_AuthorityRef := be_AuthorityRef e;
  be_Payload := be_Payload e; be_PayloadHash := be_PayloadHash e; be_RedactionNote := be_RedactionNote e;
  be_Confirmation := be_Confirmation e; be_EvidenceSource := be_EvidenceSource e; be_Supersedes := be_Supersedes e;
  be_Hash := be_Hash e |}.
Definition set_PayloadHash (v : string) (e : Event) : Event := ltac:(with_field eta_Event be_PayloadHash e v).
Definition set_Hash (v : string) (e : Event) : Event := ltac:(with_field eta_Event be_Hash e v).
(** The fields of an event that [Append] owns. *)
Definition set_framing (seq : Z) (prev kind : string) (ts : Z) (e : Event) : Event := {|
  be_Seq := seq; be_PrevHash := prev; be_Kind := kind; be_Timestamp := ts;
  be_Principal := be_Principal e; be_Delegation := be_Delegation e; be_AuthorityRef := be_AuthorityRef e;
  be_Payload := be_Payload e; be_PayloadHash := be_PayloadHash e; be_RedactionNote := be_RedactionNote e;
  be_Confirmation := be_Confirmation e; be_EvidenceSource := be_EvidenceSource e; be_Supersedes := be_Supersedes e;
  be_Hash := be_Hash e |}.
Definition zeroEvent : Event := {|
  be_Seq := 0; be_PrevHash := ""; be_Kind := ""; be_Timestamp := 0; be_Principal := ""; be_Delegation := [];
  be_AuthorityRef := ""; be_Payload := None; be_PayloadHash := ""; be_RedactionNote := ""; be_Confirmation := "";
  be_EvidenceSource := ""; be_Supersedes := None; be_Hash := "" |}.

Record Manifest := {
  mf_BundleID : string;
  mf_SpecVersion : string;
  mf_CreatedAt : Z;
  mf_EventCount : Z;
  mf_HeadHash : string;
  mf_PolicyHash : string;
  mf_PolicyID : string;
  mf_KeyID : string;
  mf_Algorithm : string;
  mf_PublicKey : string;
  mf_Signature : string
}.
Definition eta_Manifest (m : Manifest) : Manifest := {|
  mf_BundleID := mf_BundleID m; mf_SpecVersion := mf_SpecVersion m; mf_CreatedAt := mf_CreatedAt m;
  mf_EventCount := mf_EventCount m; mf_HeadHash := mf_HeadHash m; mf_PolicyHash := mf_PolicyHash m;
  mf_PolicyID := mf_PolicyID m; mf_KeyID := mf_KeyID m; mf_Algorithm := mf_Algorithm m;
  mf_PublicKey := mf_PublicKey m; mf_Signature := mf_Signature m |}.
Definition set_EventCount (v : Z) (m : Manifest) : Manifest := ltac:(with_field eta_Manifest mf_EventCount m v).
Definition set_HeadHash (v : string) (m : Manifest) : Manifest := ltac:(with_field eta_Manifest mf_HeadHash m v).
Definition set_KeyID (v : string) (m : Manifest) : Manifest := ltac:(with_field eta_Manifest mf_KeyID m v).
Definition set_Algorithm (v : string) (m : Manifest) : Manifest := ltac:(with_field eta_Manifest mf_Algorithm m v).
Definition set_PublicKey (v : string) (m : Manifest) : Manifest := ltac:(with_field eta_Manifest mf_PublicKey m v).
Definition set_Signature (v : string) (m : Manifest) : Manifest := ltac:(with_field eta_Manifest mf_Signature m v).

Record Bundle := { bu_Manifest : Manifest; bu_Events : list Event }.

(** A [VerifyingKey]: [bk_Algorithm] is [Some] when the key also reports its
    algorithm, [bk_PublicKey] when it is an Ed25519 key; [bk_Verify] is [None]
    when the signature is good. *)
Record BundleKey := {
  bk_KeyID : string;
  bk_Algorithm : option string;
  bk_PublicKey : option string;
  bk_Verify : string -> string -> error
}.

Class BundleJSON := {
  marshal_bundle_event : Event -> option string;
  marshal_manifest : Manifest -> option string;
  marshal_payload : list (string * Value) -> option string;
  marshal_bundle : Bundle -> option string;
  (** the first value, unknown fields refused *)
  decode_bundle : string -> option Bundle;
  (** nothing but space follows the first value *)
  decode_ends : string -> bool;
  (** the tokens, and the error that ends them when it is not [io.EOF] *)
  scan_tokens : string -> list Token * error;
  (** [Unmarshal] into [map[string]json.RawMessage], [[]json.RawMessage], [any] *)
  raw_members : string -> option (list (string * string));
  raw_elements : string -> option (list string);
  raw_value : string -> option Value
}.

(** [New]; [now] is [time.Now().Unix()]. *)
Definition New (bundleID policyHash : string) (createdAt now : Z) : Bundle := {|
  bu_Manifest := {| mf_BundleID := bundleID; mf_SpecVersion := SpecVersion;
    mf_CreatedAt := if createdAt =? 0 then now else createdAt; mf_EventCount := 0; mf_HeadHash := "";
    mf_PolicyHash := policyHash; mf_PolicyID := ""; mf_KeyID := ""; mf_Algorithm := ""; mf_PublicKey := "";
    mf_Signature := "" |};
  bu_Events := [] |}.

(** [uint64(n)] of a length. *)
Definition uint64 (n : nat) : Z := Z.of_nat n mod 2^64.
Definition validDigest (s : string) : bool :=
  if negb (String.length s =? 64)%nat then false
  else match hex_decode s with Some raw => (String.length raw =? 32)%nat | None => false end.

(** ** Episodes *)

Definition requiredStages : list string :=
  [KindRequestedAction; KindPolicyDecision; KindRuntimeAttempt; KindExternalEffect].
Definition knownKinds : list string := requiredStages ++ [KindStateDelta; KindPropagation].

(** The first position of [k], the [rank] of its loop. *)
Fixpoint rank_of (k : string) (stages : list string) : option nat :=
  match stages with
  | [] => None
  | s :: stages => if k =s? s then Some 0%nat else S <$> rank_of k stages
  end.
Definition valid_confirmation (c : string) : bool := (c =s? ConfirmationConfirmed) || (c =s? ConfirmationUnconfirmed).
Definition validUpgradeTarget (events : list Event) (i : nat) (ev : Event) (consumed : gset Z) : bool :=
  match be_Supersedes ev with
  | None => false
  | Some target =>
      if uint64 i <=? target then false
      else if bool_decide (target ∈ consumed) then false
      else match events !! Z.to_nat target with
      | None => false
      | Some prev =>
          if negb (be_Seq prev =? target) then false
          else (be_Kind prev =s? KindExternalEffect) && (be_Confirmation prev =s? ConfirmationUnconfirmed)
      end
  end.
Definition needs_no_target (ev : Event) : error :=
  fail_if (bool_decide (is_Some (be_Supersedes ev))) "supersedes is only valid on a confirmation upgrade".
(** The confirmation an event may carry. *)
Definition check_confirmation (ev : Event) : error :=
  if be_Kind ev =s? KindExternalEffect
  then fail_if (negb (valid_confirmation (be_Confirmation ev))) "external_effect requires confirmation"
  else fail_if ((be_Confirmation ev <>s? "") && negb (valid_confirmation (be_Confirmation ev))) "confirmation is not a valid value".
Fixpoint episode_loop (events : list Event) (i need : nat) (consumed : gset Z) (rest : list Event) : error :=
  match rest with
  | [] => fail_if (need <? length requiredStages)%nat "episode incomplete"
  | ev :: rest =>
      if negb (str_in (be_Kind ev) knownKinds) then Some "unknown event kind"
      else match rank_of (be_Kind ev) requiredStages with
      | None => needs_no_target ev;;? check_confirmation ev;;? episode_loop events (S i) need consumed rest
      | Some rank =>
          check_confirmation ev;;?
          if negb (rank =? need)%nat then
            if (need =? length requiredStages)%nat && (be_Kind ev =s? KindExternalEffect) &&
               (be_Confirmation ev =s? ConfirmationConfirmed) && validUpgradeTarget events i ev consumed
            then episode_loop events (S i) need ({[default 0 (be_Supersedes ev)]} ∪ consumed) rest
            else if (length requiredStages <=? need)%nat then Some "episode already complete"
            else Some "episode out of order"
          else needs_no_target ev;;? episode_loop events (S i) (S need) consumed rest
      end
  end.
Definition checkEpisode (events : list Event) : error := episode_loop events 0 0 ∅ events.

Section bundle.
Context `{GoCrypto} `{BundleJSON}.

Definition canonicalHash (payload : list (string * Value)) : option string := sha256_hex <$> marshal_payload payload.
Definition eventHash (ev : Event) : option string := sha256_hex <$> marshal_bundle_event (set_Hash "" ev).
Definition manifestPayload (m : Manifest) : string := default "" (marshal_manifest (set_Signature "" m)).

(** ** Building a bundle *)

Definition last_hash (events : list Event) : string := default "" (be_Hash <$> last events).
(** The event with the hash of its payload, or the refusal of [Append]. *)
Definition bind_payload (ev : Event) : result Event :=
  match be_Payload ev with
  | Some payload =>
      match canonicalHash payload with
      | None => Err "hash payload"
      | Some sum =>
          if (be_PayloadHash ev <>s? "") && (be_PayloadHash ev <>s? sum) then Err "payload_hash mismatch"
          else Ok (set_PayloadHash sum ev)
      end
  | None =>
      if be_PayloadHash ev =s? "" then Err "event carries neither payload nor payload_hash"
      else if negb (validDigest (be_PayloadHash ev)) then Err "payload_hash is not a sha256 hex digest"
      else Ok ev
  end.
(** [Append]; [build] is [id] for the nil callback. *)
Definition Append (b : Bundle) (kind : string) (timestamp now : Z) (build : Event -> Event) : Bundle * error :=
  if negb (str_in kind knownKinds) then (b, Some "unknown event kind")
  else
    let timestamp := if timestamp =? 0 then now else timestamp in
    let prev := last_hash (bu_Events b) in
    let frame := set_framing (uint64 (length (bu_Events b))) prev kind timestamp in
    match bind_payload (frame (build (frame zeroEvent))) with
    | Err err => (b, Some err)
    | Ok ev =>
        match eventHash ev with
        | None => (b, Some "hash event")
        | Some h =>
            let events := bu_Events b ++ [set_Hash h ev] in
            ({| bu_Manifest := set_HeadHash h (set_EventCount (uint64 (length events)) (bu_Manifest b)); bu_Events := events |}, None)
        end
    end.

Definition ed25519_label (alg : string) : bool := (alg =s? "ed25519") || HasPrefix alg "ed25519-".
(** [Seal]; a key that refuses to sign leaves the manifest labelled and
    unsigned. *)
Definition Seal (b : Bundle) (key : option Signer) : Bundle * error :=
  match key with
  | None => (b, Some "signing key is nil")
  | Some key =>
      if bool_decide (bu_Events b = []) then (b, Some "cannot seal an empty bundle")
      else if negb (ed25519_label (sg_Algorithm key)) then (b, Some "unsupported signature algorithm")
      else
        let m := set_Algorithm (sg_Algorithm key) (set_KeyID (sg_KeyID key) (bu_Manifest b)) in
        let m := match sg_PublicKey key with Some pub => set_PublicKey (hex_encode pub) m | None => m end in
        let m := set_Signature "" m in
        match sg_Sign key (manifestPayload m) with
        | None => ({| bu_Manifest := m; bu_Events := bu_Events b |}, Some "sign manifest")
        | Some sig => ({| bu_Manifest := set_Signature (hex_encode sig) m; bu_Events := bu_Events b |}, None)
        end
  end.

(** ** Verification *)

Definition verify_event (i : nat) (prev : string) (ev : Event) : error :=
  fail_if (negb (be_Seq ev =? uint64 i)) "event has another seq";;?
  (if bool_decide (be_Payload ev = None) then
     fail_if (be_PayloadHash ev =s? "") "event carries neither payload nor payload_hash";;?
     fail_if (negb (validDigest (be_PayloadHash ev))) "payload_hash is not a sha256 hex digest"
   else None);;?
  fail_if (be_PrevHash ev <>s? prev) "event breaks the hash chain";;?
  match be_Payload ev with
  | None => None
  | Some payload =>
      match canonicalHash payload with
      | None => Some "hash payload"
      | Some sum => fail_if (be_PayloadHash ev <>s? sum) "payload does not match payload_hash"
      end
  end;;?
  match eventHash ev with
  | None => Some "hash event"
  | Some h => fail_if (be_Hash ev <>s? h) "hash mismatch"
  end.
Fixpoint verify_events (i : nat) (prev : string) (events : list Event) : error :=
  match events with
  | [] => None
  | ev :: events => verify_event i prev ev;;? verify_events (S i) (be_Hash ev) events
  end.
(** The labels of the manifest agree with the key's. *)
Definition check_algorithm (m : Manifest) (key : BundleKey) : error :=
  match bk_Algorithm key with
  | Some alg =>
      if alg <>s? "" then
        fail_if (mf_Algorithm m <>s? alg) "manifest algorithm does not match verifier";;?
        fail_if (negb (ed25519_label (mf_Algorithm m))) "unsupported signature algorithm"
      else fail_if (mf_Algorithm m <>s? "ed25519") "unsupported signature algorithm"
  | None => fail_if (mf_Algorithm m <>s? "ed25519") "unsupported signature algorithm"
  end.
Definition verify_signature (m : Manifest) (key : BundleKey) : error :=
  fail_if (mf_KeyID m =s? "") "manifest key id is empty";;?
  fail_if (bk_KeyID key =s? "") "verifier key id is empty";;?
  check_algorithm m key;;?
  fail_if (bk_KeyID key <>s? mf_KeyID m) "verifier key id does not match manifest";;?
  match bk_PublicKey key with
  | None => Some "verifier key is not ed25519"
  | Some keyPub =>
      fail_if (negb (bool_decide (hex_decode (mf_PublicKey m) = Some keyPub))) "manifest public key does not match verifier"
  end;;?
  match hex_decode (mf_Signature m) with
  | None => Some "decode manifest signature"
  | Some sig => bk_Verify key (manifestPayload m) sig
  end.
Definition Verify (b : Bundle) (key : option BundleKey) : error :=
  let m := bu_Manifest b in
  fail_if (mf_SpecVersion m <>s? SpecVersion) "unsupported spec version";;?
  fail_if (negb (uint64 (length (bu_Events b)) =? mf_EventCount m)) "event count does not match manifest";;?
  fail_if (mf_BundleID m =s? "") "bundle id is empty";;?
  fail_if (mf_PolicyHash m =s? "") "policy hash is empty";;?
  checkEpisode (bu_Events b);;?
  verify_events 0 "" (bu_Events b);;?
  match last (bu_Events b) with
  | None => None
  | Some ev => fail_if (mf_HeadHash m <>s? be_Hash ev) "manifest head hash does not match tip event"
  end;;?
  fail_if (mf_Signature m =s? "") "manifest is not signed";;?
  match key with None => Some "verifying key is nil" | Some key => verify_signature m key end.
End bundle.

(** ** Reading a bundle *)

(** The loop over the four digits: the value and [ok]. *)
Definition hex4 (s : list ascii) : Z * bool :=
  foldl (fun '(v, ok) c =>
    match hex_value c with
    | Some d => (Z.lor (Z.shiftl v 4) (Z.of_N d), ok)
    | None => (Z.shiftl v 4, false)
    end) (0, true) s.
Fixpoint rejectSurrogateEscapes (data : string) : error :=
  match data with
  | "" => None
  | String c rest =>
      if negb (Ascii.eqb c "\") then rejectSurrogateEscapes rest
      else match rest with
      | "" => None
      | String next rest =>
          if negb (Ascii.eqb next "u") then rejectSurrogateEscapes rest
          else match rest with
          | String a (String b (String c (String d rest))) =>
              let '(v, ok) := hex4 [a; b; c; d] in
              if ok && (55296 <=? v) && (v <=? 57343) then Some "surrogate escape" else rejectSurrogateEscapes rest
          | _ => None
          end
      end
  end.

Record frame := { fr_object : bool; fr_expectKey : bool; fr_keys : gset string }.
Definition afterValue (stack : list frame) : list frame :=
  match stack with
  | top :: stack =>
      if fr_object top then {| fr_object := true; fr_expectKey := true; fr_keys := fr_keys top |} :: stack else top :: stack
  | [] => []
  end.
(** [ScanPanic] is the slice of an empty stack. *)
Inductive scanned := ScanOk | ScanErr (msg : string) | ScanPanic.
Fixpoint scan (stack : list frame) (ts : list Token) (last : error) : scanned :=
  match ts with
  | [] => match last with None => ScanOk | Some _ => ScanErr "scan bundle" end
  | TDelim c :: ts =>
      if Ascii.eqb c "{" then scan ({| fr_object := true; fr_expectKey := true; fr_keys := ∅ |} :: stack) ts last
      else if Ascii.eqb c "[" then scan ({| fr_object := false; fr_expectKey := false; fr_keys := ∅ |} :: stack) ts last
      else if Ascii.eqb c "]" || Ascii.eqb c "}" then
        match stack with
        | [] => ScanPanic
        | _ :: stack => scan (afterValue stack) ts last
        end
      else scan stack ts last
  | TString t :: ts =>
      match stack with
      | top :: below =>
          if fr_object top && fr_expectKey top then
            if bool_decide (t ∈ fr_keys top) then ScanErr "duplicate member"
            else scan ({| fr_object := true; fr_expectKey := false; fr_keys := {[t]} ∪ fr_keys top |} :: below) ts last
          else scan (afterValue stack) ts last
      | [] => scan (afterValue stack) ts last
      end
  | TOther :: ts => scan (afterValue stack) ts last
  end.

(** The [json] tags of the three structs. *)
Definition Bundle_tags : list string := ["manifest"; "events"].
Definition Manifest_tags : list string :=
  ["bundle_id"; "spec_version"; "created_at"; "event_count"; "head_hash"; "policy_hash"; "policy_id,omitempty"; "key_id";
   "algorithm"; "public_key,omitempty"; "signature,omitempty"].
Definition Event_tags : list string :=
  ["seq"; "prev_hash"; "kind"; "timestamp"; "principal,omitempty"; "delegation,omitempty"; "authority_ref,omitempty";
   "payload,omitempty"; "payload_hash"; "redaction_note,omitempty"; "confirmation,omitempty"; "evidence_source,omitempty";
   "supersedes,omitempty"; "hash"].
(** [strings.Cut(tag, ",")] *)
Definition tag_name (tag : string) : string * string := match cut "," tag with Some p => p | None => (tag, "") end.
Definition exactKeys (tags : list string) : list string :=
  List.filter (fun name => (name <>s? "") && (name <>s? "-")) ((fun tag => (tag_name tag).1) <$> tags).
Definition requiredKeys (tags : list string) : list string :=
  exactKeys (List.filter (fun tag => negb (Contains (tag_name tag).2 "omitempty")) tags).

Section reading.
Context `{BundleJSON}.

Definition rejectDuplicateKeys (data : string) : scanned := let '(ts, last) := scan_tokens data in scan [] ts last.

Definition empty_value (v : Value) : bool :=
  match v with VString t => t =s? "" | VArray t => bool_decide (t = []) | VMap t => bool_decide (t = []) | _ => false end.
Definition checkMember (exact required : list string) (k raw : string) : error :=
  fail_if (negb (str_in k exact)) "non-canonical member";;?
  fail_if (TrimSpace raw =s? "null") "member is null";;?
  if negb (str_in k required) then
    match raw_value raw with
    | Some v => fail_if (empty_value v) "member is empty"
    | None => None
    end
  else None.
Definition checkMembers (got : list (string * string)) (exact required : list string) : error :=
  each_err (fun kv => checkMember exact required kv.1 kv.2) got;;?
  each_err (fun k => fail_if (negb (str_in k (fst <$> got))) "missing required member") required.
(** [checkMembers] over the members of a raw value. *)
Definition check_object (raw : string) (tags : list string) : error :=
  match raw_members raw with
  | None => Some "unmarshal envelope"
  | Some members => checkMembers members (exactKeys tags) (requiredKeys tags)
  end.
Definition checkExactShape (data : string) : error :=
  match raw_members data with
  | None => Some "unmarshal bundle envelope"
  | Some top =>
      checkMembers top (exactKeys Bundle_tags) (requiredKeys Bundle_tags);;?
      match assoc "manifest" top with Some raw => check_object raw Manifest_tags | None => None end;;?
      match assoc "events" top with
      | None => None
      | Some raw =>
          match raw_elements raw with
          | None => Some "unmarshal events envelope"
          | Some events => each_err (fun eraw => check_object eraw Event_tags) events
          end
      end
  end.
Definition Marshal (b : Bundle) : option string := marshal_bundle b.
(** [None] is a panic. *)
Definition Unmarshal (data : string) : option (result Bundle) :=
  if negb (ValidString data) then Some (Err "bundle is not valid UTF-8")
  else match rejectSurrogateEscapes data with
  | Some err => Some (Err err)
  | None =>
      match decode_bundle data with
      | None => Some (Err "unmarshal bundle")
      | Some b =>
          if negb (decode_ends data) then Some (Err "trailing data after bundle")
          else match rejectDuplicateKeys data with
          | ScanPanic => None
          | ScanErr err => Some (Err err)
          | ScanOk => match checkExactShape data with Some err => Some (Err err) | None => Some (Ok b) end
          end
      end
  end.
End reading.
