(* ===== verification/IncidentBundleSpec.v ===== *)
(** What incident bundles guarantee: an episode is accepted exactly when its
    stages are complete, in order and followed by honest confirmation
    upgrades; what [Append] and [Seal] build is what [Verify] accepts; the
    head hash of a verified bundle binds every event; and a document is read
    only when nothing in it escapes the hashes. *)
From stdpp Require Import base strings gmap list.
From Stdlib Require Import ZArith Lia Ascii.
From S2P Require Import Prelude GoStrings GoLib Framing OwnershipGate Receipt KillSwitch KillSwitchSpec IncidentBundle.
#[local] Open Scope Z_scope.

(** ** Episodes *)

(** The events of the required stages, with their positions. *)
Fixpoint staged (i : nat) (events : list Event) : list (nat * Event) :=
  match events with
  | [] => []
  | ev :: events => if str_in (be_Kind ev) requiredStages then (i, ev) :: staged (S i) events else staged (S i) events
  end.
Definition untargeted (ev : Event) : Prop := be_Supersedes ev = None.
(** A confirmed effect that names an earlier unconfirmed one. *)
Definition upgrade (events : list Event) (x : nat * Event) : Prop :=
  be_Kind x.2 = KindExternalEffect /\ be_Confirmation x.2 = ConfirmationConfirmed /\
  exists t prev, be_Supersedes x.2 = Some t /\ t < uint64 x.1 /\ events !! Z.to_nat t = Some prev /\ be_Seq prev = t /\
    be_Kind prev = KindExternalEffect /\ be_Confirmation prev = ConfirmationUnconfirmed.
(** What one event may be on its own. *)
Definition admissible (ev : Event) : Prop :=
  In (be_Kind ev) knownKinds /\
  (be_Kind ev = KindExternalEffect -> valid_confirmation (be_Confirmation ev) = true) /\
  (be_Confirmation ev = "" \/ valid_confirmation (be_Confirmation ev) = true) /\
  (~ In (be_Kind ev) requiredStages -> untargeted ev).
(** The stages from [need] on, then upgrades of effects not consumed yet. *)
Definition completes (events : list Event) (need : nat) (consumed : gset Z) (l : list (nat * Event)) : Prop :=
  exists stages upgrades, l = stages ++ upgrades /\
    (fun x => be_Kind x.2) <$> stages = drop need requiredStages /\ Forall (fun x => untargeted x.2) stages /\
    Forall (upgrade events) upgrades /\
    NoDup ((fun x => be_Supersedes x.2) <$> upgrades) /\ Forall (fun x => default 0 (be_Supersedes x.2) ∉ consumed) upgrades.

Lemma check_confirmation_None ev : check_confirmation ev = None <->
  (be_Kind ev = KindExternalEffect -> valid_confirmation (be_Confirmation ev) = true) /\
  (be_Confirmation ev = "" \/ valid_confirmation (be_Confirmation ev) = true).
Proof.
  unfold check_confirmation. destruct (be_Kind ev =s? KindExternalEffect) eqn:E; rewrite fail_if_None; bools.
  - rewrite negb_false_iff. tauto.
  - rewrite andb_false_iff, str_neqb_false, negb_false_iff. tauto.
Qed.
Lemma needs_no_target_None ev : needs_no_target ev = None <-> untargeted ev.
Proof. unfold needs_no_target. rewrite fail_if_None, bool_decide_eq_false. symmetry. apply eq_None_not_Some. Qed.
Lemma rank_of_None k stages : rank_of k stages = None <-> ~ In k stages.
Proof.
  induction stages as [|s stages IH]; cbn; [naive_solver|]. destruct (k =s? s) eqn:E; bools; [naive_solver|].
  rewrite fmap_None, IH. naive_solver.
Qed.
Lemma rank_of_Some k stages r : NoDup stages -> rank_of k stages = Some r <-> stages !! r = Some k.
Proof.
  revert r. induction stages as [|s stages IH]; intros r Hnd; [done|]. apply NoDup_cons in Hnd as [Hn Hnd]. cbn.
  destruct (k =s? s) eqn:E; bools.
  - split; [by intros [= <-]|]. destruct r as [|r]; [done|]. cbn. by intros Hr%list_elem_of_lookup_2.
  - rewrite fmap_Some. destruct r as [|r]; cbn.
    + split; [by intros (? & _ & ?)|]. congruence.
    + rewrite <- IH by done. naive_solver.
Qed.
Lemma requiredStages_NoDup : NoDup requiredStages.
Proof. apply (bool_decide_unpack _). vm_compute. exact I. Qed.
Lemma stage_known k : In k requiredStages -> In k knownKinds.
Proof. intros. apply in_or_app. by left. Qed.

Lemma validUpgradeTarget_spec events i ev consumed :
  be_Kind ev = KindExternalEffect -> be_Confirmation ev = ConfirmationConfirmed ->
  validUpgradeTarget events i ev consumed = true <->
  upgrade events (i, ev) /\ default 0 (be_Supersedes ev) ∉ consumed.
Proof.
  intros Hk Hc. unfold validUpgradeTarget, upgrade. cbn [fst snd]. destruct (be_Supersedes ev) as [t|] eqn:Es; cbn [default from_option id]; [|naive_solver].
  destruct (uint64 i <=? t) eqn:E1; bools.
  { split; [done|]. intros [(_ & _ & t' & prev & [= <-] & ? & _) _]. lia. }
  case_bool_decide as Hin; [naive_solver|].
  destruct (events !! Z.to_nat t) as [prev|] eqn:Ep.
  2: { split; [done|]. intros [(_ & _ & t' & prev & [= <-] & _ & ? & _) _]. congruence. }
  destruct (be_Seq prev =? t) eqn:E2; cbn [negb]; bools; [|naive_solver].
  rewrite andb_true_iff, (str_eqb_true (be_Kind prev)), (str_eqb_true (be_Confirmation prev)). split.
  - intros [? ?]. split; [|done]. split_and!; [done..|]. by exists (be_Seq prev), prev.
  - intros [(_ & _ & t' & prev' & [= <-] & _ & Ep' & _ & ? & ?) _]. by simplify_eq.
Qed.

(** One event before the episode is complete, and after it is. *)
Lemma completes_stage events need consumed i ev l :
  (need < length requiredStages)%nat ->
  completes events need consumed ((i, ev) :: l) <->
  requiredStages !! need = Some (be_Kind ev) /\ untargeted ev /\ completes events (S need) consumed l.
Proof.
  intros Hn. destruct (lookup_lt_is_Some_2 requiredStages need Hn) as [k Hk]. rewrite Hk. unfold completes.
  rewrite (drop_S _ _ _ Hk). split.
  - intros ([|[j ev'] stages] & upgrades & E & Hs & Hu & Hup); [done|]. cbn in E, Hs. injection E as <- <- ->. injection Hs as <- Hs.
    apply Forall_cons in Hu as [Hu0 Hu]. split; [done|]. split; [done|]. by exists stages, upgrades.
  - intros ([= ->] & Hu & stages & upgrades & -> & Hs & Hus & Hup). exists ((i, ev) :: stages), upgrades. cbn. rewrite Hs.
    do 2 (split; [done|]). split; [by constructor|exact Hup].
Qed.
Lemma completes_upgrade events consumed i ev l :
  completes events (length requiredStages) consumed ((i, ev) :: l) <->
  (upgrade events (i, ev) /\ default 0 (be_Supersedes ev) ∉ consumed) /\
  completes events (length requiredStages) ({[default 0 (be_Supersedes ev)]} ∪ consumed) l.
Proof.
  unfold completes. rewrite drop_all. split.
  - intros (stages & upgrades & E & ->%fmap_nil_inv & _ & Hup & Hnd & Hc). cbn in E. subst upgrades.
    apply Forall_cons in Hup as [Hu Hup]. apply Forall_cons in Hc as [Hc0 Hc]. apply NoDup_cons in Hnd as [Hni Hnd].
    split; [done|]. exists [], l. split_and!; [done|done|constructor|done|done|].
    rewrite Forall_forall in Hup, Hc |- *. intros x Hx. apply not_elem_of_union. split; [|by apply Hc].
    destruct Hu as (_ & _ & t & _ & Hs & _), (Hup x Hx) as (_ & _ & t' & _ & Hs' & _). cbn in Hs. rewrite Hs, Hs'. cbn.
    intros ->%elem_of_singleton. apply Hni. cbn. rewrite Hs, <- Hs'. by apply (list_elem_of_fmap_2 (fun x => be_Supersedes x.2)).
  - intros ([Hu Hc0] & stages & upgrades & -> & ->%fmap_nil_inv & _ & Hup & Hnd & Hc).
    exists [], ((i, ev) :: upgrades). rewrite Forall_forall in Hc. split_and!; [done|done|constructor|by constructor| |].
    + cbn. apply NoDup_cons. split; [|done]. intros (x & Hs & Hx)%list_elem_of_fmap. apply (Hc x Hx), elem_of_union_l, elem_of_singleton.
      by rewrite <- Hs.
    + constructor; [done|]. apply Forall_forall. intros x Hx Hin. by apply (Hc x Hx), elem_of_union_r.
Qed.
Lemma completes_nil events need consumed : completes events need consumed [] <-> (length requiredStages <= need)%nat.
Proof.
  unfold completes. split.
  - intros (stages & upgrades & [-> ->]%eq_sym%app_nil & Hs & _). cbn in Hs. apply (f_equal length) in Hs. rewrite length_drop in Hs. cbn in *. lia.
  - intros Hn. exists [], []. rewrite drop_ge by done. split_and!; by constructor.
Qed.

Lemma episode_loop_None events rest i need consumed : (need <= length requiredStages)%nat ->
  episode_loop events i need consumed rest = None <-> Forall admissible rest /\ completes events need consumed (staged i rest).
Proof.
  revert i need consumed. induction rest as [|ev rest IH]; intros i need consumed Hn.
  - cbn [episode_loop staged]. rewrite fail_if_None, completes_nil, Nat.ltb_ge. split; [by split|tauto].
  - cbn [episode_loop staged]. rewrite Forall_cons. unfold admissible at 1. rewrite <- str_in_In.
    destruct (str_in (be_Kind ev) knownKinds) eqn:Ek; cbn [negb]; [|naive_solver].
    destruct (rank_of (be_Kind ev) requiredStages) as [rank|] eqn:Er.
    + assert (In (be_Kind ev) requiredStages) as Hin.
      { apply rank_of_Some in Er; [|apply requiredStages_NoDup]. by apply list_elem_of_lookup_2, list_elem_of_In in Er. }
      rewrite (proj2 (str_in_In _ _) Hin), err_then_None, check_confirmation_None.
      apply rank_of_Some in Er; [|apply requiredStages_NoDup]. pose proof (lookup_lt_Some _ _ _ Er) as Hr.
      destruct (rank =? need)%nat eqn:E; cbn [negb]; bools.
      * rewrite err_then_None, needs_no_target_None, IH, completes_stage by done. rewrite Er. tauto.
      * destruct (decide (need = length requiredStages)) as [->|Hne].
        -- rewrite completes_upgrade. rewrite Nat.eqb_refl, Nat.leb_refl. cbn [andb].
           destruct (be_Kind ev =s? KindExternalEffect) eqn:E1, (be_Confirmation ev =s? ConfirmationConfirmed) eqn:E2; cbn [andb]; bools;
             try (split; [by intros [_ ?]|]; intros (_ & [(? & ? & _) _] & _); done).
           pose proof (validUpgradeTarget_spec events i ev consumed ltac:(done) ltac:(done)) as Hv.
           destruct (validUpgradeTarget _ _ _ _); [rewrite IH by done; rewrite <- Hv; tauto|naive_solver].
        -- rewrite completes_stage by lia. rewrite (proj2 (Nat.eqb_neq _ _) Hne). cbn [andb].
           split; [by intros [_ ?]; case_match|]. intros (_ & Hk & _). exfalso. apply E.
           by apply (NoDup_lookup requiredStages _ _ (be_Kind ev)); [apply requiredStages_NoDup| |].
    + apply rank_of_None in Er. rewrite (proj2 (str_in_false _ _) Er), !err_then_None, needs_no_target_None, check_confirmation_None, IH by done.
      tauto.
Qed.

Lemma checkEpisode_None events :
  checkEpisode events = None <-> Forall admissible events /\ completes events 0 ∅ (staged 0 events).
Proof. apply episode_loop_None. lia. Qed.

(** C36.  [checkEpisode] accepts exactly the events of known kinds with valid
    confirmations whose required stages are, in order, one of each kind, and
    then confirmed effects only, each upgrading another earlier effect that is
    unconfirmed; no other event claims to supersede one. *)
Theorem checkEpisode_iff (events : list Event) :
  checkEpisode events = None <-> Forall admissible events /\ completes events 0 ∅ (staged 0 events).
Proof. apply episode_loop_None. lia. Qed.

(** ** Verification *)

Section verified.
Context `{GoCrypto} `{BundleJSON}.

(** The payload evidence of an event: an inline payload with its hash, or the
    digest of one kept elsewhere. *)
Definition evidenced (ev : Event) : Prop :=
  match be_Payload ev with
  | Some payload => canonicalHash payload = Some (be_PayloadHash ev)
  | None => validDigest (be_PayloadHash ev) = true
  end.
(** The events from position [i] on, after an event whose hash is [prev]. *)
Fixpoint linked (i : nat) (prev : string) (events : list Event) : Prop :=
  match events with
  | [] => True
  | ev :: events =>
      be_Seq ev = uint64 i /\ be_PrevHash ev = prev /\ evidenced ev /\ eventHash ev = Some (be_Hash ev) /\
      linked (S i) (be_Hash ev) events
  end.

Lemma validDigest_nonempty s : validDigest s = true -> s <> "".
Proof. by intros Hv ->. Qed.
Lemma verify_event_None i prev ev : verify_event i prev ev = None <->
  be_Seq ev = uint64 i /\ be_PrevHash ev = prev /\ evidenced ev /\ eventHash ev = Some (be_Hash ev).
Proof.
  unfold verify_event, evidenced. rewrite !err_then_None, !fail_if_None, negb_false_iff, Z.eqb_eq, str_neqb_false.
  assert (match eventHash ev with Some h => fail_if (be_Hash ev <>s? h) "hash mismatch" | None => Some "hash event" end = None
          <-> eventHash ev = Some (be_Hash ev)) as ->.
  { destruct (eventHash ev); [rewrite fail_if_None, str_neqb_false|]; naive_solver congruence. }
  destruct (be_Payload ev) as [payload|]; cbn [bool_decide decide_rel].
  - destruct (canonicalHash payload); [rewrite fail_if_None, str_neqb_false|]; naive_solver congruence.
  - rewrite bool_decide_eq_true_2, err_then_None, !fail_if_None, negb_false_iff by done.
    pose proof (validDigest_nonempty (be_PayloadHash ev)). rewrite (str_eqb_false (be_PayloadHash ev)). tauto.
Qed.
Lemma verify_events_None i prev events : verify_events i prev events = None <-> linked i prev events.
Proof.
  revert i prev. induction events as [|ev events IH]; intros i prev; cbn; [done|].
  rewrite err_then_None, verify_event_None, IH. tauto.
Qed.
Lemma linked_app i prev l l' : linked i prev (l ++ l') <->
  linked i prev l /\ linked (i + length l) (default prev (be_Hash <$> last l)) l'.
Proof.
  revert i prev. induction l as [|ev l IH]; intros i prev.
  - cbn. rewrite Nat.add_0_r. tauto.
  - cbn [app linked length]. rewrite IH, last_cons, Nat.add_succ_r. cbn [Nat.add].
    destruct (last l); cbn; tauto.
Qed.

(** The labels under which the signature is checked. *)
Definition bound_to (m : Manifest) (key : BundleKey) : Prop :=
  mf_KeyID m <> "" /\ bk_KeyID key = mf_KeyID m /\
  (exists pub, bk_PublicKey key = Some pub /\ hex_decode (mf_PublicKey m) = Some pub) /\
  (bk_Algorithm key = Some (mf_Algorithm m) /\ ed25519_label (mf_Algorithm m) = true \/
   (bk_Algorithm key = None \/ bk_Algorithm key = Some "") /\ mf_Algorithm m = "ed25519") /\
  (exists sig, hex_decode (mf_Signature m) = Some sig /\ bk_Verify key (manifestPayload m) sig = None).

Lemma check_algorithm_None m key : check_algorithm m key = None <->
  bk_Algorithm key = Some (mf_Algorithm m) /\ ed25519_label (mf_Algorithm m) = true \/
  (bk_Algorithm key = None \/ bk_Algorithm key = Some "") /\ mf_Algorithm m = "ed25519".
Proof.
  unfold check_algorithm. destruct (bk_Algorithm key) as [alg|].
  2: { rewrite fail_if_None, str_neqb_false. naive_solver. }
  destruct (alg =s? "") eqn:E; cbn [negb]; bools.
  - rewrite fail_if_None, str_neqb_false. split; [by right; split; [right|]|].
    intros [[[= <-] Hl]|[_ ->]]; [by cbn in Hl|done].
  - rewrite err_then_None, !fail_if_None, str_neqb_false, negb_false_iff. naive_solver.
Qed.
Lemma verify_signature_None m key : verify_signature m key = None <-> bound_to m key.
Proof.
  unfold verify_signature, bound_to. rewrite !err_then_None, !fail_if_None, check_algorithm_None, !str_eqb_false, str_neqb_false.
  assert (match bk_PublicKey key with None => Some "verifier key is not ed25519" | Some keyPub =>
      fail_if (negb (bool_decide (hex_decode (mf_PublicKey m) = Some keyPub))) "manifest public key does not match verifier" end = None <->
    exists pub, bk_PublicKey key = Some pub /\ hex_decode (mf_PublicKey m) = Some pub) as ->.
  { destruct (bk_PublicKey key) as [pub|]; [rewrite fail_if_None, negb_false_iff, bool_decide_eq_true|]; naive_solver. }
  assert (match hex_decode (mf_Signature m) with None => Some "decode manifest signature"
      | Some sig => bk_Verify key (manifestPayload m) sig end = None <->
    exists sig, hex_decode (mf_Signature m) = Some sig /\ bk_Verify key (manifestPayload m) sig = None) as ->.
  { destruct (hex_decode (mf_Signature m)); naive_solver. }
  split; [tauto|]. intros (Hk & E & Hrest). rewrite E. tauto.
Qed.

(** What a verified bundle is. *)
Record verified (b : Bundle) (key : BundleKey) : Prop := {
  vd_spec : mf_SpecVersion (bu_Manifest b) = SpecVersion;
  vd_count : mf_EventCount (bu_Manifest b) = uint64 (length (bu_Events b));
  vd_id : mf_BundleID (bu_Manifest b) <> "";
  vd_policy : mf_PolicyHash (bu_Manifest b) <> "";
  vd_episode : Forall admissible (bu_Events b) /\ completes (bu_Events b) 0 ∅ (staged 0 (bu_Events b));
  vd_chain : linked 0 "" (bu_Events b);
  vd_head : mf_HeadHash (bu_Manifest b) = last_hash (bu_Events b);
  vd_signed : mf_Signature (bu_Manifest b) <> "";
  vd_key : bound_to (bu_Manifest b) key
}.
Lemma complete_nonempty events : completes events 0 ∅ (staged 0 events) -> events <> [].
Proof. intros Hc ->. by apply completes_nil in Hc; cbn in Hc; lia. Qed.
Lemma Verify_None b key : Verify b (Some key) = None <-> verified b key.
Proof.
  unfold Verify. rewrite !err_then_None, !fail_if_None, checkEpisode_None, verify_events_None, verify_signature_None.
  rewrite !str_eqb_false, str_neqb_false, negb_false_iff, Z.eqb_eq.
  assert (completes (bu_Events b) 0 ∅ (staged 0 (bu_Events b)) ->
    match last (bu_Events b) with None => None | Some ev =>
      fail_if (mf_HeadHash (bu_Manifest b) <>s? be_Hash ev) "manifest head hash does not match tip event" end = None <->
    mf_HeadHash (bu_Manifest b) = last_hash (bu_Events b)) as Hh.
  { intros Hc%complete_nonempty. unfold last_hash. destruct (last (bu_Events b)) as [ev|] eqn:El; [|by apply last_None in El].
    cbn. by rewrite fail_if_None, str_neqb_false. }
  split.
  - intros (? & ? & ? & ? & [? ?] & ? & ? & ? & ?). split; by try apply Hh.
  - intros [? ? ? ? [? ?] ? ? ? ?]. split_and!; try done. by apply Hh.
Qed.

(** *** What the head hash binds *)

(** The bytes whose hash an event carries. *)
Definition sealed_bytes (events : list Event) : list (option string) := (fun ev => marshal_bundle_event (set_Hash "" ev)) <$> events.
Definition sha_collision : Prop := exists x y : string, x <> y /\ sha256_hex x = sha256_hex y.
Lemma eventHash_inj ev ev' h : eventHash ev = Some h -> eventHash ev' = Some h ->
  marshal_bundle_event (set_Hash "" ev) = marshal_bundle_event (set_Hash "" ev') \/ sha_collision.
Proof.
  unfold eventHash. intros (x & -> & ->)%fmap_Some (y & -> & E)%fmap_Some.
  destruct (decide (x = y)) as [->|Hn]; [by left|]. right. by exists x, y.
Qed.

(** Two bundles that verify, under whatever keys, with the same head hash and
    count have the same events, as the bytes that are hashed, or two inputs
    with one SHA-256 are at hand.  (The JSON of an event determines the link to
    the event before it.) *)
Theorem head_binds_events (b b' : Bundle) (key key' : BundleKey)
    (Hjson : forall ev ev', In ev (bu_Events b) -> In ev' (bu_Events b') ->
       is_Some (marshal_bundle_event (set_Hash "" ev)) ->
       marshal_bundle_event (set_Hash "" ev) = marshal_bundle_event (set_Hash "" ev') -> be_PrevHash ev = be_PrevHash ev')
    (Hlen : Z.of_nat (length (bu_Events b)) < 2^64) (Hlen' : Z.of_nat (length (bu_Events b')) < 2^64)
    (Hv : Verify b (Some key) = None) (Hv' : Verify b' (Some key') = None)
    (Hhead : mf_HeadHash (bu_Manifest b) = mf_HeadHash (bu_Manifest b'))
    (Hcount : mf_EventCount (bu_Manifest b) = mf_EventCount (bu_Manifest b')) :
  sealed_bytes (bu_Events b) = sealed_bytes (bu_Events b') \/ sha_collision.
Proof.
  apply Verify_None in Hv as [_ Hc _ _ _ Hl Hh _ _], Hv' as [_ Hc' _ _ _ Hl' Hh' _ _].
  rewrite Hh, Hh' in Hhead. rewrite Hc, Hc' in Hcount. unfold uint64 in Hcount. rewrite !Z.mod_small in Hcount by lia.
  apply Nat2Z.inj in Hcount. clear Hc Hc' Hh Hh' Hlen Hlen'.
  revert Hjson Hl Hl' Hhead Hcount. generalize (bu_Events b) as l, (bu_Events b') as l'. clear b b'.
  induction l as [|ev l IH] using rev_ind; intros l' Hjson Hl Hl' Hhead Hcount.
  { destruct l'; [by left|done]. }
  destruct l' as [|ev' l' _] using rev_ind; [rewrite length_app in Hcount; cbn in Hcount; lia|].
  unfold last_hash in Hhead. rewrite !last_snoc in Hhead. cbn in Hhead. rewrite !length_app in Hcount. cbn in Hcount.
  apply linked_app in Hl as [Hl (_ & Hp & _ & He & _)], Hl' as [Hl' (_ & Hp' & _ & He' & _)]. rewrite Hhead in He.
  destruct (eventHash_inj _ _ _ He He') as [Em|]; [|by right].
  assert (be_PrevHash ev = be_PrevHash ev') as Epp.
  { apply Hjson; [by apply in_or_app; right; left..| |done]. apply (fmap_is_Some sha256_hex). exact (mk_is_Some _ _ He). }
  rewrite Hp, Hp' in Epp.
  destruct (IH l') as [E|]; [|done..|lia| |by right].
  - intros x y Hx Hy. apply Hjson; apply in_or_app; by left.
  - left. unfold sealed_bytes in *. rewrite !fmap_app, E. cbn. by rewrite Em.
Qed.

(** *** Building and sealing *)

(** A call of [Append]. *)
Record append_call := { ac_kind : string; ac_timestamp : Z; ac_now : Z; ac_build : Event -> Event }.
Definition appended (b : Bundle) (c : append_call) : Bundle := (Append b (ac_kind c) (ac_timestamp c) (ac_now c) (ac_build c)).1.

(** A bundle under construction. *)
Record building (id policyHash : string) (b : Bundle) : Prop := {
  bg_spec : mf_SpecVersion (bu_Manifest b) = SpecVersion;
  bg_id : mf_BundleID (bu_Manifest b) = id;
  bg_policy : mf_PolicyHash (bu_Manifest b) = policyHash;
  bg_count : mf_EventCount (bu_Manifest b) = uint64 (length (bu_Events b));
  bg_head : mf_HeadHash (bu_Manifest b) = last_hash (bu_Events b);
  bg_chain : linked 0 "" (bu_Events b)
}.
Lemma set_Hash_twice h h' ev : set_Hash h (set_Hash h' ev) = set_Hash h ev.
Proof. done. Qed.
Lemma eventHash_set_Hash h ev : eventHash (set_Hash h ev) = eventHash ev.
Proof. done. Qed.
(** An accepted payload changes only the hash of the payload. *)
Lemma bind_payload_Ok ev ev' : bind_payload ev = Ok ev' ->
  (ev' = ev \/ exists sum, ev' = set_PayloadHash sum ev) /\ evidenced ev'.
Proof.
  unfold bind_payload, evidenced. destruct (be_Payload ev) as [payload|] eqn:Ep.
  - destruct (canonicalHash payload) as [sum|] eqn:Ec; [|done]. destruct (_ && _); [done|]. intros [= <-].
    split; [right; by exists sum|]. cbn. by rewrite Ep.
  - destruct (_ =s? _); [done|]. destruct (validDigest _) eqn:Ev; [|done]. intros [= <-]. split; [by left|]. by rewrite Ep.
Qed.
(** [Append] refuses and changes nothing, or adds one event at the end of the
    chain, with the position, link, kind and time it was given whatever the
    builder did. *)
Lemma Append_cases b c :
  appended b c = b \/
  exists ev, appended b c = {| bu_Manifest := set_HeadHash (be_Hash ev) (set_EventCount (uint64 (length (bu_Events b ++ [ev]))) (bu_Manifest b));
                               bu_Events := bu_Events b ++ [ev] |} /\
    be_Kind ev = ac_kind c /\ be_Timestamp ev = (if ac_timestamp c =? 0 then ac_now c else ac_timestamp c) /\
    be_Seq ev = uint64 (length (bu_Events b)) /\ be_PrevHash ev = last_hash (bu_Events b) /\ evidenced ev /\
    eventHash ev = Some (be_Hash ev).
Proof.
  unfold appended, Append. destruct (str_in _ _); [|by left]. cbn [negb]. destruct (bind_payload _) as [ev|] eqn:Eb; [|by left].
  apply bind_payload_Ok in Eb as [Hev He]. destruct (eventHash ev) as [h|] eqn:Eh; [|by left]. right. exists (set_Hash h ev).
  split; [done|]. rewrite eventHash_set_Hash. by destruct Hev as [->|[sum ->]].
Qed.
Lemma append_building id ph b c : building id ph b -> building id ph (appended b c).
Proof.
  intros [Hs Hi Hp Hc Hh Hl]. destruct (Append_cases b c) as [->|(ev & -> & _ & _ & Hseq & Hprev & He & Hhash)]; [done|].
  split; cbn; [done..|unfold last_hash; by rewrite last_snoc|].
  apply linked_app. cbn. by split_and!.
Qed.
Lemma New_building id ph created now : building id ph (New id ph created now).
Proof. done. Qed.
Lemma appends_building id ph b calls : building id ph b -> building id ph (foldl appended b calls).
Proof. revert b. induction calls as [|c calls IH]; [done|]. intros b Hb. by apply IH, append_building. Qed.

(** A verifying key for a signing key: same name and public key, a label it
    agrees with, and it accepts what the other signs. *)
Record matches (key : Signer) (vkey : BundleKey) : Prop := {
  mt_id : bk_KeyID vkey = sg_KeyID key;
  mt_pub : is_Some (sg_PublicKey key) /\ bk_PublicKey vkey = sg_PublicKey key;
  mt_alg : bk_Algorithm vkey = Some (sg_Algorithm key) \/ bk_Algorithm vkey = None /\ sg_Algorithm key = "ed25519";
  mt_sig : forall data sig, sg_Sign key data = Some sig -> sig <> "" /\ bk_Verify vkey data sig = None
}.
Lemma manifestPayload_unsigned s m : manifestPayload (set_Signature s m) = manifestPayload m.
Proof. done. Qed.
Lemma Seal_Ok b key b' : Seal b (Some key) = (b', None) ->
  bu_Events b' = bu_Events b /\ bu_Events b <> [] /\ ed25519_label (sg_Algorithm key) = true /\
  exists sig, sg_Sign key (manifestPayload (bu_Manifest b')) = Some sig /\
    bu_Manifest b' = set_Signature (hex_encode sig) (set_Algorithm (sg_Algorithm key) (set_KeyID (sg_KeyID key)
      (match sg_PublicKey key with Some pub => set_PublicKey (hex_encode pub) (bu_Manifest b) | None => bu_Manifest b end))).
Proof.
  unfold Seal. case_bool_decide as He; [done|]. destruct (ed25519_label _) eqn:El; [|done]. cbn [negb].
  destruct (sg_Sign key _) as [sig|] eqn:Es; [|done]. intros [= <-]. cbn. split_and!; try done. exists sig.
  rewrite manifestPayload_unsigned in *. by destruct (sg_PublicKey key).
Qed.

(** C35.  Whatever is appended to a new bundle, once sealed it verifies under the
    key that matches the one that sealed it exactly when its events are a
    complete episode and the identifiers are not empty: the positions, links
    and hashes are always right. *)
Theorem sealed_bundle_verifies (id policyHash : string) (created now : Z) (calls : list append_call)
    (key : Signer) (vkey : BundleKey) (b : Bundle) :
  matches key vkey ->
  Seal (foldl appended (New id policyHash created now) calls) (Some key) = (b, None) ->
  Verify b (Some vkey) = None <->
  id <> "" /\ policyHash <> "" /\ sg_KeyID key <> "" /\ checkEpisode (bu_Events b) = None.
Proof.
  intros [Mi [[pub Mp] Mp'] Ma Ms] Hs. apply Seal_Ok in Hs as (He & Hne & Hl & sig & Hsig & Hm).
  pose proof (appends_building id policyHash _ calls (New_building id policyHash created now)) as [Gs Gi Gp Gc Gh Gl].
  rewrite <- He in *. rewrite Mp in Hm. apply Ms in Hsig as [Hsn Hv]. rewrite Verify_None, checkEpisode_None.
  pose proof (f_equal mf_SpecVersion Hm) as Es. pose proof (f_equal mf_EventCount Hm) as Ec.
  pose proof (f_equal mf_BundleID Hm) as Ei. pose proof (f_equal mf_PolicyHash Hm) as Ep.
  pose proof (f_equal mf_HeadHash Hm) as Eh. pose proof (f_equal mf_KeyID Hm) as Ek.
  pose proof (f_equal mf_Algorithm Hm) as Ea. pose proof (f_equal mf_PublicKey Hm) as Epub.
  pose proof (f_equal mf_Signature Hm) as Esig. cbn in *.
  split.
  - intros [_ _ Hi Hp Hep _ _ _ [Hk _]]. by rewrite Ei, Gi in Hi; rewrite Ep, Gp in Hp; rewrite Ek in Hk.
  - intros (Hi & Hp & Hk & Hep). split; try congruence; try done; [rewrite Esig; by apply hex_encode_nonempty|].
    unfold bound_to. rewrite Ek, Ea, Epub, Esig, !hex_decode_encode. split_and!; [done|done| | |by exists sig].
    + exists pub. split; [congruence|done].
    + destruct Ma as [->|[-> ->]]; [by left|right; split; [by left|done]].
Qed.
End verified.

(** ** Reading *)

(** *** Duplicate members *)

(** The stack before a value: no object there waits for a key. *)
Definition at_value (stack : list frame) : Prop :=
  match stack with top :: _ => fr_object top && fr_expectKey top = false | [] => True end.
Definition frame_of (obj key : bool) (keys : gset string) : frame := {| fr_object := obj; fr_expectKey := key; fr_keys := keys |}.
Definition scans (t : jtree) (rest : list Token) : Prop := forall stack last, at_value stack ->
  scan stack (tokens t ++ rest) last = if unique_keys t then scan (afterValue stack) rest last else ScanErr "duplicate member".

Lemma scan_elements l rest stack last :
  Forall (fun t => forall rest, scans t rest) l ->
  scan (frame_of false false ∅ :: stack) (flat_map tokens l ++ TDelim "]" :: rest) last =
    if forallb unique_keys l then scan (afterValue stack) rest last else ScanErr "duplicate member".
Proof.
  induction 1 as [|t l Ht Hl IH]; [done|]. cbn [flat_map forallb]. rewrite <- app_assoc, Ht by done.
  by destruct (unique_keys t).
Qed.
Lemma scan_members l keys (seen : list string) rest stack last :
  Forall (fun kv => forall rest, scans kv.2 rest) l -> (forall k, k ∈ keys <-> In k seen) ->
  scan (frame_of true true keys :: stack) (flat_map (fun kv => TString kv.1 :: tokens kv.2) l ++ TDelim "}" :: rest) last =
    if fresh seen (map fst l) && forallb (fun kv => unique_keys kv.2) l then scan (afterValue stack) rest last
    else ScanErr "duplicate member".
Proof.
  intros Hl. revert keys seen. induction Hl as [|[k t] l Ht Hl IH]; intros keys seen Hk; [done|].
  cbn [flat_map forallb map fresh fst snd app]. cbn [scan fr_object fr_expectKey frame_of andb fr_keys].
  assert (bool_decide (k ∈ keys) = str_in k seen) as -> by (apply eq_true_iff_eq; by rewrite bool_decide_eq_true, str_in_In, Hk).
  destruct (str_in k seen); [done|]. cbn [negb andb]. rewrite <- app_assoc. rewrite Ht by done.
  cbn [snd]. destruct (unique_keys t); [|by rewrite andb_false_r]. cbn [andb afterValue fr_object].
  apply (IH ({[k]} ∪ keys) (k :: seen)). intros k'. cbn. rewrite elem_of_union, elem_of_singleton, Hk. naive_solver.
Qed.
Lemma scan_tree t : forall rest, scans t rest.
Proof.
  induction t as [s|l IH|l IH] using jtree_induction; intros rest stack last Hs.
  - destruct s as [s|]; [|done]. cbn. destruct stack as [|top stack]; [done|]. cbn in Hs. by rewrite Hs.
  - cbn [tokens app unique_keys]. rewrite <- app_assoc. by apply (scan_elements l rest stack last).
  - cbn [tokens app unique_keys]. rewrite <- app_assoc. by apply (scan_members l ∅ [] rest stack last).
Qed.
(** The scan of one document. *)
Lemma scan_document t : scan [] (tokens t) None = if unique_keys t then ScanOk else ScanErr "duplicate member".
Proof. rewrite <- (app_nil_r (tokens t)). by rewrite (scan_tree t [] [] None). Qed.

(** *** Surrogate escapes *)

(** The bytes of a document, escape by escape. *)
Inductive piece := Plain (c : ascii) | Escape (c : ascii) | Unicode (a b c d : ascii).
Definition render_piece (p : piece) : string :=
  match p with
  | Plain c => String c ""
  | Escape c => String "\" (String c "")
  | Unicode a b c d => String "\" (String "u" (String a (String b (String c (String d "")))))
  end.
Definition render (ps : list piece) : string := foldr (fun p s => render_piece p +:+ s) "" ps.
(** The pieces that a scanner of escapes makes of a document. *)
Definition proper (p : piece) : Prop := match p with Plain c => c <> "\"%char | Escape c => c <> "u"%char | Unicode _ _ _ _ => True end.
(** Four hexadecimal digits of a value from D800 to DFFF. *)
Definition surrogate (p : piece) : Prop :=
  match p with
  | Unicode a b c d => exists va vb vc vd, hex_value a = Some va /\ hex_value b = Some vb /\ hex_value c = Some vc /\ hex_value d = Some vd /\
      (0xD800 <= 4096 * va + 256 * vb + 16 * vc + vd <= 0xDFFF)%N
  | _ => False
  end.
Lemma hex_value_range c v : hex_value c = Some v -> (v < 16)%N.
Proof. destruct c as [[] [] [] [] [] [] [] []]; vm_compute; by intros [= <-]. Qed.
Lemma shift4 v d : 0 <= v -> 0 <= d < 16 -> Z.lor (Z.shiftl v 4) d = 16 * v + d.
Proof.
  intros Hv Hd. pose proof (Z.add_lor_land (Z.shiftl v 4) d) as E. rewrite Z.shiftl_mul_pow2 in E at 3 by lia.
  enough (Z.land (Z.shiftl v 4) d = 0) by lia. apply Z.bits_inj'. intros n Hn. rewrite Z.land_spec, Z.bits_0. destruct (Z.ltb_spec n 4) as [Hlt|Hge].
  - by rewrite Z.shiftl_spec_low.
  - rewrite (Z.bits_above_log2 d n), andb_false_r; [done|lia|]. destruct (decide (d = 0)) as [->|Hnz]; [cbn; lia|].
    apply Z.log2_lt_pow2; [lia|]. apply Z.lt_le_trans with (2^4); [lia|]. apply Z.pow_le_mono_r; lia.
Qed.
Lemma hex4_surrogate a b c d :
  (let '(v, ok) := hex4 [a; b; c; d] in ok && (55296 <=? v) && (v <=? 57343)) = true <-> surrogate (Unicode a b c d).
Proof.
  unfold hex4, surrogate. cbn [foldl].
  destruct (hex_value a) as [va|] eqn:Ea; [|destruct (hex_value b), (hex_value c), (hex_value d); cbn; naive_solver].
  destruct (hex_value b) as [vb|] eqn:Eb; [|destruct (hex_value c), (hex_value d); cbn; naive_solver].
  destruct (hex_value c) as [vc|] eqn:Ec; [|destruct (hex_value d); cbn; naive_solver].
  destruct (hex_value d) as [vd|] eqn:Ed; [|naive_solver].
  apply hex_value_range in Ea, Eb, Ec, Ed. change (Z.shiftl 0 4) with 0. rewrite Z.lor_0_l.
  rewrite (shift4 (Z.of_N va)), (shift4 (16 * _ + _)), (shift4 (16 * (16 * _ + _) + _)) by lia.
  rewrite !andb_true_iff, !Z.leb_le. split.
  - intros [[_ ?] ?]. exists va, vb, vc, vd. split_and!; try done; lia.
  - intros (? & ? & ? & ? & [= <-] & [= <-] & [= <-] & [= <-] & ? & ?). lia.
Qed.
(** The scan refuses a document exactly when one of its escapes denotes a
    surrogate; an escaped backslash before a [u] is not one. *)
Lemma rejectSurrogateEscapes_None ps : Forall proper ps ->
  rejectSurrogateEscapes (render ps) = None <-> Forall (fun p => ~ surrogate p) ps.
Proof.
  induction 1 as [|p ps Hp Hps IH]; [done|]. rewrite Forall_cons, <- IH. cbn [render foldr]. fold (render ps).
  destruct p as [c|c|a b c d]; cbn [render_piece String.append proper] in *.
  - change (String c "" +:+ render ps) with (String c (render ps)). cbn [rejectSurrogateEscapes].
    rewrite (proj2 (Ascii.eqb_neq c "\") Hp). cbn. tauto.
  - change (String "\" (String c "") +:+ render ps) with (String "\" (String c (render ps))). cbn [rejectSurrogateEscapes].
    rewrite (proj2 (Ascii.eqb_neq c "u") Hp). cbn. tauto.
  - change (String "\" _ +:+ render ps) with (String "\" (String "u" (String a (String b (String c (String d (render ps))))))).
    cbn [rejectSurrogateEscapes]. cbn [Ascii.eqb negb Bool.eqb]. rewrite <- hex4_surrogate. destruct (hex4 [a; b; c; d]) as [v ok].
    destruct (ok && _ && _).
    + split; [done|]. by intros [? _].
    + naive_solver.
Qed.

(** *** Shape *)

Section reading.
Context `{BundleJSON}.

(** The members of an object of the schema: its names only, all the mandatory
    ones, nothing null, and no optional one that the encoder would drop. *)
Definition shaped (tags : list string) (got : list (string * string)) : Prop :=
  (forall k raw, In (k, raw) got -> In k (exactKeys tags) /\ TrimSpace raw <> "null" /\
     (~ In k (requiredKeys tags) -> forall v, raw_value raw = Some v -> empty_value v = false)) /\
  (forall k, In k (requiredKeys tags) -> In k (fst <$> got)).
Definition shaped_raw (tags : list string) (raw : string) : Prop := exists got, raw_members raw = Some got /\ shaped tags got.
Definition shaped_document (data : string) : Prop :=
  exists top, raw_members data = Some top /\ shaped Bundle_tags top /\
    (exists m, assoc "manifest" top = Some m /\ shaped_raw Manifest_tags m) /\
    (exists raw evs, assoc "events" top = Some raw /\ raw_elements raw = Some evs /\ Forall (shaped_raw Event_tags) evs).

Lemma checkMembers_None tags got : checkMembers got (exactKeys tags) (requiredKeys tags) = None <-> shaped tags got.
Proof.
  unfold checkMembers, shaped. rewrite err_then_None, !each_err_None, !List.Forall_forall.
  assert ((forall kv, In kv got -> checkMember (exactKeys tags) (requiredKeys tags) kv.1 kv.2 = None) <->
    (forall k raw, In (k, raw) got -> In k (exactKeys tags) /\ TrimSpace raw <> "null" /\
     (~ In k (requiredKeys tags) -> forall v, raw_value raw = Some v -> empty_value v = false))) as ->.
  { assert (forall k raw, checkMember (exactKeys tags) (requiredKeys tags) k raw = None <->
      In k (exactKeys tags) /\ TrimSpace raw <> "null" /\
      (~ In k (requiredKeys tags) -> forall v, raw_value raw = Some v -> empty_value v = false)) as Hm.
    { intros k raw. unfold checkMember. rewrite !err_then_None, !fail_if_None, negb_false_iff, str_in_In, str_eqb_false.
      destruct (str_in k (requiredKeys tags)) eqn:E; cbn [negb].
      - apply str_in_In in E. tauto.
      - apply str_in_false in E. destruct (raw_value raw) as [v|]; [rewrite fail_if_None|]; naive_solver. }
    split; [intros Hf k raw Hin; apply Hm, (Hf (k, raw) Hin)|]. intros Hf [k raw] Hin. apply Hm. by apply Hf. }
  assert (forall k, fail_if (negb (str_in k (fst <$> got))) "missing required member" = None <-> In k (fst <$> got)) as Hr.
  { intros k. by rewrite fail_if_None, negb_false_iff, str_in_In. }
  split; (intros [? Hk]; split; [done|]; intros k Hin; by apply Hr, Hk).
Qed.
Lemma check_object_None raw tags : check_object raw tags = None <-> shaped_raw tags raw.
Proof. unfold check_object, shaped_raw. destruct (raw_members raw) as [got|]; [rewrite checkMembers_None|]; naive_solver. Qed.
Lemma In_fst_assoc {A} k (m : list (string * A)) : In k (fst <$> m) -> exists v, assoc k m = Some v.
Proof. induction m as [|[k' v] m IH]; cbn; [done|]. destruct (k' =s? k) eqn:E; bools; naive_solver. Qed.
Lemma checkExactShape_None data : checkExactShape data = None <-> shaped_document data.
Proof.
  unfold checkExactShape, shaped_document. destruct (raw_members data) as [top|]; [|naive_solver].
  rewrite !err_then_None, checkMembers_None. split.
  - intros (Ht & Hm & He). exists top. split_and!; [done|done| |].
    + destruct (In_fst_assoc "manifest" top) as [m Em]; [by apply Ht; left|]. exists m. rewrite Em in Hm.
      split; [done|by apply check_object_None].
    + destruct (In_fst_assoc "events" top) as [raw Ee]; [by apply Ht; right; left|]. rewrite Ee in He. exists raw.
      destruct (raw_elements raw) as [evs|]; [|done]. exists evs. split_and!; [done..|]. apply each_err_None in He.
      eapply Forall_impl; [exact He|]. intros eraw. apply check_object_None.
  - intros (top' & [= <-] & Ht & (m & Em & Hm) & (raw & evs & Ee & Er & Hev)). rewrite Em, Ee, Er.
    split_and!; [done|by apply check_object_None|]. apply each_err_None. eapply Forall_impl; [exact Hev|].
    intros eraw. apply check_object_None.
Qed.

(** C37.  A document is read exactly when it is valid UTF-8 without surrogate
    escapes, it is one value that decodes, no object in it repeats a member,
    and its objects have exactly the members of the schema; and reading never
    panics.  (The tokens of a document that decodes are those of its value.) *)
Theorem Unmarshal_exact (data : string) (ps : list piece)
    (Hps : data = render ps /\ Forall proper ps)
    (Htok : forall b, decode_bundle data = Some b -> decode_ends data = true -> exists t, scan_tokens data = (tokens t, None)) :
  Unmarshal data <> None /\
  forall b, Unmarshal data = Some (Ok b) <->
    ValidString data = true /\ Forall (fun p => ~ surrogate p) ps /\ decode_bundle data = Some b /\ decode_ends data = true /\
    (exists t, scan_tokens data = (tokens t, None) /\ well_named t) /\ shaped_document data.
Proof.
  destruct Hps as [-> Hps]. pose proof (rejectSurrogateEscapes_None ps Hps) as Hsur. unfold Unmarshal. setoid_rewrite <- Hsur. clear Hsur.
  set (data := render ps) in *. destruct (ValidString data); [|naive_solver]. cbn [negb].
  destruct (rejectSurrogateEscapes data); [naive_solver|]. destruct (decode_bundle data) as [b0|] eqn:Ed; [|naive_solver].
  destruct (decode_ends data); [|naive_solver]. cbn [negb]. destruct (Htok b0) as [t Et]; [done..|].
  unfold rejectDuplicateKeys. rewrite Et, scan_document. destruct (unique_keys t) eqn:Eu.
  - apply unique_keys_spec in Eu. setoid_rewrite <- checkExactShape_None. destruct (checkExactShape data); [naive_solver|].
    split; [done|]. intros b. split; [intros [= <-]; split_and!; try done; by exists t|]. by intros (_ & _ & [= ->] & _).
  - split; [done|]. intros b. split; [done|]. intros (_ & _ & _ & _ & (t' & [= Et'] & Hw) & _). exfalso.
    pose proof (scan_document t) as E1. rewrite Et', scan_document, Eu, (proj2 (unique_keys_spec t') Hw) in E1. done.
Qed.
End reading.

(** ** Witnesses *)

Module BundleWitness.
#[local] Instance digest : GoCrypto := {| sha256_hex := fun s => "h" +:+ s |}.
Definition doc : string := "{.manifest.:M,.events.:[V],\\u+\u0041}".
Definition doc_pieces : list piece :=
  (Plain <$> String.list_ascii_of_string "{.manifest.:M,.events.:[V],") ++
  [Escape "\"; Plain "u"; Plain "+"; Unicode "0" "0" "4" "1"; Plain "}"].
Definition doc_tree : jtree := JObj [("manifest", JObj [("key_id", JScalar (Some "k"))]); ("events", JArr [JScalar None])].
#[local] Instance json : BundleJSON := {|
  marshal_bundle_event := fun ev => Some (mac_field (be_PrevHash ev) +:+ be_Kind ev +:+ be_Confirmation ev);
  marshal_manifest := fun m => Some (mac_field (mf_BundleID m) +:+ mf_HeadHash m);
  marshal_payload := fun _ => Some "p";
  marshal_bundle := fun _ => Some "b";
  decode_bundle := fun _ => Some (New "b" "p" 1 0);
  decode_ends := fun _ => true;
  scan_tokens := fun _ => (tokens doc_tree, None);
  raw_members := fun raw =>
    if raw =s? "M" then Some ((., "1") <$> requiredKeys Manifest_tags)
    else if raw =s? "V" then Some ((., "1") <$> exactKeys Event_tags)
    else Some [("events", "[V]"); ("manifest", "M")];
  raw_elements := fun _ => Some ["V"];
  raw_value := fun _ => Some (VNumber "1")
|}.
Definition content (who conf : string) (target : option Z) (ev : Event) : Event := {|
  be_Seq := 99; be_PrevHash := "forged"; be_Kind := "forged"; be_Timestamp := 0; be_Principal := who; be_Delegation := [];
  be_AuthorityRef := ""; be_Payload := Some [("x", VBool true)]; be_PayloadHash := ""; be_RedactionNote := "";
  be_Confirmation := conf; be_EvidenceSource := ""; be_Supersedes := target; be_Hash := "forged" |}.
Definition call (kind who conf : string) (target : option Z) : append_call :=
  {| ac_kind := kind; ac_timestamp := 5; ac_now := 9; ac_build := content who conf target |}.
Definition calls (who : string) : list append_call := [
  call KindRequestedAction who "" None; call KindPolicyDecision who "" None; call "no such kind" who "" None;
  call KindRuntimeAttempt who "" None; call KindPropagation who "" None;
  call KindExternalEffect who ConfirmationUnconfirmed None; call KindExternalEffect who ConfirmationConfirmed (Some 4)].
Definition signer : Signer :=
  {| sg_KeyID := "k"; sg_Algorithm := "ed25519"; sg_PublicKey := Some "pub"; sg_Sign := fun data => Some ("s" +:+ data) |}.
Definition verifier : BundleKey := {| bk_KeyID := "k"; bk_Algorithm := None; bk_PublicKey := Some "pub";
  bk_Verify := fun data sig => fail_if (sig <>s? "s" +:+ data) "bad" |}.
Lemma keys_match : matches signer verifier.
Proof.
  split; [done|by split; [eexists|]|by right|]. intros data sig [= <-]. split; [done|]. cbn [bk_Verify verifier].
  by rewrite fail_if_None, str_neqb_false.
Qed.
Definition built (calls : list append_call) : Bundle := foldl appended (New "b" "p" 1 0) calls.
Definition sealed (calls : list append_call) : Bundle := (Seal (built calls) (Some signer)).1.
(** The refused kind adds nothing; the bundle verifies, and no longer does
    when the effect is upgraded a second time or an event is dropped. *)
Example bundle_verifies : length (bu_Events (sealed (calls "a"))) = 6%nat /\ Verify (sealed (calls "a")) (Some verifier) = None.
Proof. vm_compute. by split. Qed.
Example upgraded_twice :
  Verify (sealed (calls "a" ++ [call KindExternalEffect "a" ConfirmationConfirmed (Some 4)])) (Some verifier)
  = Some "episode already complete".
Proof. vm_compute. reflexivity. Qed.
Example dropped_event :
  Verify {| bu_Manifest := set_EventCount 5 (bu_Manifest (sealed (calls "a")));
            bu_Events := List.tl (bu_Events (sealed (calls "a"))) |} (Some verifier) = Some "episode out of order".
Proof. vm_compute. reflexivity. Qed.
Example document_read : Unmarshal doc = Some (Ok (New "b" "p" 1 0)).
Proof. vm_compute. reflexivity. Qed.
(** The link of an event can be told from its bytes. *)
Definition told (ev ev' : Event) : bool :=
  bool_decide (be_PrevHash ev = be_PrevHash ev' \/ marshal_bundle_event (set_Hash "" ev) <> marshal_bundle_event (set_Hash "" ev')).
Lemma links_all_told :
  forallb (fun ev => forallb (told ev) (bu_Events (sealed (calls "z")))) (bu_Events (sealed (calls "a"))) = true.
Proof. vm_compute. reflexivity. Qed.
Lemma links_told ev ev' : In ev (bu_Events (sealed (calls "a"))) -> In ev' (bu_Events (sealed (calls "z"))) ->
  marshal_bundle_event (set_Hash "" ev) = marshal_bundle_event (set_Hash "" ev') -> be_PrevHash ev = be_PrevHash ev'.
Proof.
  intros Hin Hin' E. pose proof links_all_told as Ht. rewrite forallb_forall in Ht. specialize (Ht _ Hin). rewrite forallb_forall in Ht.
  specialize (Ht _ Hin'). apply bool_decide_eq_true in Ht. by destruct Ht.
Qed.
(** A digest in upper case is accepted. *)
Example upper_digest : validDigest "ABCDEF0123456789ABCDEF0123456789ABCDEF0123456789ABCDEF0123456789" = true.
Proof. vm_compute. reflexivity. Qed.
End BundleWitness.

Section bundle_witness.
Import BundleWitness.
#[local] Existing Instances digest json.
Lemma sealed_bundle_verifies_witness :
  Verify (sealed (calls "a")) (Some verifier) = None <->
  "b" <> "" /\ "p" <> "" /\ "k" <> "" /\ checkEpisode (bu_Events (sealed (calls "a"))) = None.
Proof.
  apply (sealed_bundle_verifies "b" "p" 1 0 (calls "a") signer verifier (sealed (calls "a"))); [exact keys_match|].
  vm_compute. reflexivity.
Defined.
Lemma head_binds_events_witness :
  bu_Events (sealed (calls "a")) <> bu_Events (sealed (calls "z")) /\
  (sealed_bytes (bu_Events (sealed (calls "a"))) = sealed_bytes (bu_Events (sealed (calls "z"))) \/ sha_collision).
Proof.
  split; [vm_compute; discriminate|].
  apply (head_binds_events (sealed (calls "a")) (sealed (calls "z")) verifier verifier); [|vm_compute; reflexivity..].
  intros ev ev' Hin Hin' _ E. by apply (links_told ev ev').
Defined.
Lemma Unmarshal_exact_witness : Unmarshal doc <> None.
Proof.
  apply (Unmarshal_exact doc doc_pieces).
  - split; [vm_compute; reflexivity|]. repeat constructor; discriminate.
  - intros b _ _. by exists doc_tree.
Defined.
End bundle_witness.
