(* ===== verification/CapReceipts.v ===== *)
(** Stored capability receipts: encoding, strict decoding and validation, the
    second half of [internal/capability/receipt.go].  What [encoding/json]
    decodes is a class argument; the scan for repeated keys is the code's own
    byte scanner. *)
From stdpp Require Import base strings gmap list.
From Stdlib Require Import ZArith Lia Ascii.
From S2P Require Import Prelude GoStrings GoLib Capability CapabilityEval.
#[local] Open Scope Z_scope.

Class ReceiptDecode := {
  (** [Decode] of the first value with unknown fields refused *)
  decode_cap_receipt : string -> option CapReceipt;
  (** the reader gave every byte and no token follows the value *)
  receipt_at_eof : string -> bool
}.

(** ** Keys *)

(** Where the scan is: between tokens, in a string with the bytes read since
    its quote, or after a backslash in one. *)
Inductive KeyMode := KTop | KString (key : string) | KEscape (key : string).
Definition json_space (c : ascii) : bool := Ascii.eqb c " " || Ascii.eqb c TAB || Ascii.eqb c LF || Ascii.eqb c CR.
(** The string just read is a key. *)
Fixpoint colon_follows (data : string) : bool :=
  match data with
  | "" => false
  | String c data => if json_space c then colon_follows data else Ascii.eqb c ":"
  end.
Definition quoted (key : string) : string := String DQUOTE (key +:+ String DQUOTE "").
(** Any other byte is of a literal, which the scan leaves at the next
    structural byte. *)
Fixpoint scan_keys (mode : KeyMode) (stack : list (gset string)) (data : string) : error :=
  match data with
  | "" =>
      match mode with
      | KTop => fail_if (negb (bool_decide (stack = []))) "unclosed object"
      | _ => Some "unterminated string"
      end
  | String c data =>
      match mode with
      | KEscape key => scan_keys (KString (key +:+ String c "")) stack data
      | KString key =>
          if Ascii.eqb c DQUOTE then
            if colon_follows data then
              match stack with
              | [] => Some "key outside object"
              | top :: below =>
                  if bool_decide (quoted key ∈ top) then Some "duplicate key"
                  else scan_keys KTop (({[quoted key]} ∪ top) :: below) data
              end
            else scan_keys KTop stack data
          else if Ascii.eqb c "\" then scan_keys (KEscape (key +:+ String c "")) stack data
          else scan_keys (KString (key +:+ String c "")) stack data
      | KTop =>
          if Ascii.eqb c "{" then scan_keys KTop (∅ :: stack) data
          else if Ascii.eqb c "}" then
            match stack with [] => Some "unbalanced object" | _ :: stack => scan_keys KTop stack data end
          else if Ascii.eqb c DQUOTE then scan_keys (KString "") stack data
          else scan_keys KTop stack data
      end
  end.
Definition checkNoDuplicateKeys (data : string) : error := scan_keys KTop [] data.

(** ** Lines *)

Definition first_byte_is (c : ascii) (s : string) : bool := match s with String d _ => Ascii.eqb c d | "" => false end.
Fixpoint final_byte (s : string) : option ascii :=
  match s with "" => None | String c "" => Some c | String _ s => final_byte s end.
(** [data[:len(data)-1]] when the last byte is a newline. *)
Fixpoint drop_newline (s : string) : string :=
  match s with
  | "" => ""
  | String c "" => if Ascii.eqb c LF then "" else String c ""
  | String c s => String c (drop_newline s)
  end.
Definition isCanonicalLine (data : string) : bool :=
  if data =s? "" then false
  else
    let data := drop_newline data in
    if data =s? "" then false
    else if negb (first_byte_is "{" data) then false
    else bool_decide (final_byte data = Some "}"%char).

Section receipts.
Context `{GoCrypto, CapJSON, ReceiptDecode}.

Definition Encode (r : CapReceipt) : outcome string :=
  match marshal_cap_receipt r with Some data => Val (data +:+ String LF "") | None => Bad ErrOther end.

(** [Receipt.Validate] *)
Definition ValidateReceipt (r : CapReceipt) : outcome unit :=
  let! _ := require (cr_ReceiptVersion r =? ReceiptVersion) in
  let! _ := require (cr_SessionID r <>s? "") in
  let! _ := require (0 <? cr_StepID r) in
  let! _ := require ((cr_Decision r =s? DecisionAllow) || (cr_Decision r =s? DecisionPauseRequireProof)) in
  let! _ := require ((cr_PrevHash r <>s? "") && (cr_Hash r <>s? "")) in
  let! want := HashReceipt r in
  require (cr_Hash r =s? want).

Definition Decode (data : string) : outcome CapReceipt :=
  let! _ := require (data <>s? "") in
  let data := drop_newline data in
  let! _ := require (data <>s? "") in
  let! _ := require (first_byte_is "{" data) in
  let! _ := require (isCanonicalLine data) in
  let! _ := require (bool_decide (checkNoDuplicateKeys data = None)) in
  let! r := or_invalid (decode_cap_receipt data) in
  let! _ := require (receipt_at_eof data) in
  let! _ := ValidateReceipt r in
  match Encode r with
  | Bad _ => Bad ErrInvalidStep
  | Val canon =>
      let! _ := require (drop_newline canon =s? data) in
      Val r
  end.
End receipts.
