(* ===== verification/CapReceiptsSpec.v ===== *)
(** Stored receipts: the key scanner accepts exactly the compact documents no
    object of which repeats a key; a line is accepted exactly when it is the
    encoding of the valid receipt it decodes to, so no two lines are one
    receipt; and what the evaluator seals is accepted back. *)
From stdpp Require Import base strings gmap list.
From Stdlib Require Import ZArith Lia Ascii.
From S2P Require Import Prelude GoStrings GoLib Framing KillSwitch KillSwitchSpec Capability CapabilityEval CapReceipts.
#[local] Open Scope Z_scope.

(** ** Documents as text *)

(** A byte of a string, or a backslash and the byte after it. *)
Inductive spart := SByte (c : ascii) | SEscape (c : ascii).
Inductive doc := DLit (s : string) | DStr (s : list spart) | DArr (l : list doc) | DObj (l : list (list spart * doc)).

Section doc_ind.
Context (P : doc -> Prop) (Hlit : forall s, P (DLit s)) (Hstr : forall s, P (DStr s)) (Harr : forall l, Forall P l -> P (DArr l))
  (Hobj : forall l, Forall (fun kv => P kv.2) l -> P (DObj l)).
Fixpoint doc_induction (d : doc) : P d :=
  match d with
  | DLit s => Hlit s
  | DStr s => Hstr s
  | DArr l => Harr l ((fix go l := match l return Forall P l with
                                   | [] => Forall_nil_2 _ | d :: l => Forall_cons_2 _ _ _ (doc_induction d) (go l) end) l)
  | DObj l => Hobj l ((fix go l := match l return Forall (fun kv => P kv.2) l with
                                   | [] => Forall_nil_2 _
                                   | (k, d) :: l => Forall_cons_2 (fun kv => P kv.2) (k, d) l (doc_induction d) (go l) end) l)
  end.
End doc_ind.

Definition part_text (p : spart) : string := match p with SByte c => String c "" | SEscape c => String "\" (String c "") end.
Definition string_text (s : list spart) : string := foldr (fun p t => part_text p +:+ t) "" s.
Definition part_ok (p : spart) : Prop := match p with SByte c => c <> DQUOTE /\ c <> "\"%char | SEscape _ => True end.
Definition literal_byte (c : ascii) : bool := negb (byte_in "{}[],:" c || Ascii.eqb c DQUOTE || json_space c).

(** The compact text. *)
Fixpoint text (d : doc) : string :=
  match d with
  | DLit s => s
  | DStr s => quoted (string_text s)
  | DArr l => "[" +:+ String.concat "," (map text l) +:+ "]"
  | DObj l => "{" +:+ String.concat "," (map (fun kv => quoted (string_text kv.1) +:+ ":" +:+ text kv.2) l) +:+ "}"
  end.
Fixpoint doc_ok (d : doc) : Prop :=
  match d with
  | DLit s => all_bytes literal_byte s = true
  | DStr s => Forall part_ok s
  | DArr l => foldr and True (map doc_ok l)
  | DObj l => foldr and True (map (fun kv => Forall part_ok kv.1 /\ doc_ok kv.2) l)
  end.
(** No object, at any depth, has two members whose names are written alike. *)
Fixpoint keys_once (d : doc) : bool :=
  match d with
  | DLit _ | DStr _ => true
  | DArr l => forallb keys_once l
  | DObj l => fresh [] (map (fun kv => string_text kv.1) l) && forallb (fun kv => keys_once kv.2) l
  end.

Lemma foldr_and_Forall {A} (P : A -> Prop) (l : list A) : foldr and True (map P l) <-> Forall P l.
Proof. induction l as [|x l IH]; cbn; [by split; [constructor|]|]. by rewrite IH, Forall_cons. Qed.
Lemma quoted_app k t : quoted k +:+ t = String DQUOTE (k +:+ String DQUOTE t).
Proof. change (String DQUOTE ((k +:+ String DQUOTE "") +:+ t) = String DQUOTE (k +:+ String DQUOTE t)). by rewrite append_assoc. Qed.
Lemma quoted_inj k k' : quoted k = quoted k' -> k = k'.
Proof. unfold quoted. intros E. injection E as E. by apply append_inj_r in E. Qed.

(** ** The scanner *)

Lemma scan_quote stack data : scan_keys KTop stack (String DQUOTE data) = scan_keys (KString "") stack data.
Proof. reflexivity. Qed.
Lemma scan_colon stack data : scan_keys KTop stack (String ":" data) = scan_keys KTop stack data.
Proof. reflexivity. Qed.
Lemma scan_unquote key stack data : scan_keys (KString key) stack (String DQUOTE data) =
  if colon_follows data then
    match stack with
    | [] => Some "key outside object"
    | top :: below => if bool_decide (quoted key ∈ top) then Some "duplicate key"
                      else scan_keys KTop (({[quoted key]} ∪ top) :: below) data
    end
  else scan_keys KTop stack data.
Proof. reflexivity. Qed.
Lemma scan_escape key stack c data :
  scan_keys (KString key) stack (String "\" (String c data)) = scan_keys (KString ((key +:+ "\") +:+ String c "")) stack data.
Proof. reflexivity. Qed.
Lemma scan_string s stack key data : Forall part_ok s ->
  scan_keys (KString key) stack (string_text s +:+ data) = scan_keys (KString (key +:+ string_text s)) stack data.
Proof.
  intros Hs. revert key. induction Hs as [|p s Hp Hs IH]; intros key.
  - change (string_text []) with "". by rewrite append_nil_r.
  - change (string_text (p :: s)) with (part_text p +:+ string_text s). rewrite append_assoc. destruct p as [c|c]; cbn [part_text].
    + destruct Hp as [H1' H2']. change (String c "" +:+ ?t) with (String c t). cbn [scan_keys].
      rewrite (proj2 (Ascii.eqb_neq c DQUOTE) H1'), (proj2 (Ascii.eqb_neq c "\") H2'), IH.
      by rewrite append_assoc.
    + change (String "\" (String c "") +:+ ?t) with (String "\" (String c t)). rewrite scan_escape, IH. by rewrite !append_assoc.
Qed.
Lemma scan_literal s stack data : all_bytes literal_byte s = true -> scan_keys KTop stack (s +:+ data) = scan_keys KTop stack data.
Proof.
  induction s as [|c s IH]; [done|]. intros [Hc Hs]%andb_true_iff. change (String c s +:+ data) with (String c (s +:+ data)). cbn [scan_keys].
  unfold literal_byte in Hc. apply negb_true_iff in Hc. apply orb_false_iff in Hc as [[Hc Hq]%orb_false_iff _]. rewrite Hq.
  cbn in Hc. destruct (Ascii.eqb c "{"), (Ascii.eqb c "}"); try done. by apply IH.
Qed.

Definition scans_doc (d : doc) : Prop := forall stack data, colon_follows data = false ->
  scan_keys KTop stack (text d +:+ data) = if keys_once d then scan_keys KTop stack data else Some "duplicate key".

Lemma scan_items l stack data : Forall scans_doc l ->
  scan_keys KTop stack (String.concat "," (map text l) +:+ String "]" data) =
    if forallb keys_once l then scan_keys KTop stack data else Some "duplicate key".
Proof.
  induction 1 as [|d l Hd Hl IH]; [done|]. cbn [map forallb]. destruct l as [|d' l].
  - cbn [map String.concat]. rewrite Hd by done. by destruct (keys_once d).
  - change (String.concat "," (text d :: map text (d' :: l))) with (text d +:+ "," +:+ String.concat "," (map text (d' :: l))).
    rewrite !append_assoc, Hd by done. destruct (keys_once d); [|done]. cbn [andb]. apply IH.
Qed.
Definition member (kv : list spart * doc) : string := quoted (string_text kv.1) +:+ ":" +:+ text kv.2.
Lemma scan_member kv keys seen stack data : Forall part_ok kv.1 -> scans_doc kv.2 -> colon_follows data = false ->
  (forall k, quoted k ∈ keys <-> In k seen) ->
  scan_keys KTop (keys :: stack) (member kv +:+ data) =
    if str_in (string_text kv.1) seen then Some "duplicate key"
    else if keys_once kv.2 then scan_keys KTop (({[quoted (string_text kv.1)]} ∪ keys) :: stack) data else Some "duplicate key".
Proof.
  intros Hk Hd Hdata Hseen. unfold member. rewrite append_assoc, quoted_app, scan_quote, scan_string, scan_unquote by done.
  change (colon_follows ((":" +:+ text kv.2) +:+ data)) with true. change ("" +:+ string_text kv.1) with (string_text kv.1). cbv iota.
  assert (bool_decide (quoted (string_text kv.1) ∈ keys) = str_in (string_text kv.1) seen) as ->
    by (apply eq_true_iff_eq; by rewrite bool_decide_eq_true, str_in_In, Hseen).
  destruct (str_in _ _); [done|]. change ((":" +:+ text kv.2) +:+ data) with (String ":" (text kv.2 +:+ data)).
  by rewrite scan_colon, Hd.
Qed.
Lemma scan_fields l keys seen stack data :
  Forall (fun kv => Forall part_ok kv.1 /\ scans_doc kv.2) l -> (forall k, quoted k ∈ keys <-> In k seen) ->
  scan_keys KTop (keys :: stack) (String.concat "," (map member l) +:+ String "}" data) =
    if fresh seen (map (fun kv => string_text kv.1) l) && forallb (fun kv => keys_once kv.2) l
    then scan_keys KTop stack data else Some "duplicate key".
Proof.
  intros Hl. revert keys seen. induction Hl as [|kv l [Hk Hd] Hl IH]; intros keys seen Hseen; [done|].
  assert (forall k, quoted k ∈ {[quoted (string_text kv.1)]} ∪ keys <-> In k (string_text kv.1 :: seen)) as Hseen'.
  { intros k. cbn. rewrite elem_of_union, elem_of_singleton, Hseen. split; [intros [->%quoted_inj|]; tauto|intros [->|]; tauto]. }
  cbn [map forallb fresh]. destruct l as [|kv' l].
  - cbn [map String.concat forallb fresh]. rewrite (scan_member kv keys seen) by done.
    destruct (str_in _ _); [done|]. cbn [negb andb]. by destruct (keys_once kv.2).
  - change (String.concat "," (member kv :: map member (kv' :: l))) with (member kv +:+ "," +:+ String.concat "," (map member (kv' :: l))).
    rewrite !append_assoc, (scan_member kv keys seen) by done. destruct (str_in _ _); [done|]. cbn [negb andb].
    destruct (keys_once kv.2); [|by rewrite andb_false_r]. cbn [andb]. exact (IH _ _ Hseen').
Qed.
Lemma scan_doc d : doc_ok d -> scans_doc d.
Proof.
  induction d as [s|s|l IH|l IH] using doc_induction; cbn [doc_ok]; intros Hok stack data Hdata.
  - by apply scan_literal.
  - cbn [text keys_once]. by rewrite quoted_app, scan_quote, scan_string, scan_unquote, Hdata.
  - apply foldr_and_Forall in Hok. cbn [text keys_once]. rewrite !append_assoc. apply (scan_items l stack data).
    eapply Forall_impl; [apply Forall_and; split; [exact IH|exact Hok]|]. cbn. naive_solver.
  - apply (foldr_and_Forall (fun kv => Forall part_ok kv.1 /\ doc_ok kv.2)) in Hok. cbn [text keys_once]. rewrite !append_assoc.
    apply (scan_fields l ∅ [] stack data); [|intros k; cbn; set_solver].
    eapply Forall_impl; [apply Forall_and; split; [exact IH|exact Hok]|]. cbn. naive_solver.
Qed.

(** The scan of the bytes accepts a compact document exactly when no object
    in it, at any depth, has two members whose names are written alike. *)
Theorem checkNoDuplicateKeys_iff (d : doc) : doc_ok d ->
  (checkNoDuplicateKeys (text d) = None <-> keys_once d = true).
Proof.
  intros Hd. unfold checkNoDuplicateKeys. rewrite <- (append_nil_r (text d)), (scan_doc d Hd [] "") by done. by destruct (keys_once d).
Qed.

(** ** Lines *)

Lemma final_byte_app s c : final_byte (s +:+ String c "") = Some c.
Proof.
  induction s as [|d s IH]; [done|]. change (String d s +:+ String c "") with (String d (s +:+ String c "")).
  rewrite <- IH. by destruct s.
Qed.
Lemma drop_newline_app s : drop_newline (s +:+ String LF "") = s.
Proof.
  induction s as [|d s IH]; [done|]. change (String d s +:+ String LF "") with (String d (s +:+ String LF "")).
  transitivity (String d (drop_newline (s +:+ String LF ""))); [by destruct s|by rewrite IH].
Qed.
Lemma drop_newline_id s c : final_byte s = Some c -> c <> LF -> drop_newline s = s.
Proof.
  intros Hf Hc. induction s as [|d s IH]; [done|]. destruct s as [|e s].
  - injection Hf as ->. cbn. by rewrite (proj2 (Ascii.eqb_neq c LF) Hc).
  - change (String d (drop_newline (String e s)) = String d (String e s)). by rewrite IH.
Qed.
Lemma drop_newline_cases s : s = drop_newline s \/ s = drop_newline s +:+ String LF "".
Proof.
  induction s as [|c s IH]; [by left|]. destruct s as [|d s].
  - cbn. destruct (Ascii.eqb c LF) eqn:E; [right|by left]. by apply Ascii.eqb_eq in E as ->.
  - change (drop_newline (String c (String d s))) with (String c (drop_newline (String d s))).
    destruct IH as [E|E]; [left|right]; rewrite E at 1; [done|reflexivity].
Qed.

Lemma require_bind {A} b (k : outcome A) a : (let! _ := require b in k) = Val a <-> b = true /\ k = Val a.
Proof. destruct b; cbn; naive_solver. Qed.

Section receipts.
Context `{GoCrypto, CapJSON, ReceiptDecode}.

(** [json.Marshal] of a receipt is the compact text of an object that names
    each member once. *)
Definition object_text (line : string) : Prop := exists l, line = text (DObj l) /\ doc_ok (DObj l) /\ keys_once (DObj l) = true.
Context (Htext : forall r line, marshal_cap_receipt r = Some line -> object_text line).

Lemma object_text_line line : object_text line ->
  line <> "" /\ first_byte_is "{" line = true /\ final_byte line = Some "}"%char /\ checkNoDuplicateKeys line = None /\
  isCanonicalLine line = true /\ drop_newline line = line.
Proof.
  intros (l & -> & Hok & Hone).
  assert (final_byte (text (DObj l)) = Some "}"%char) as Hf by (cbn [text]; rewrite <- append_assoc; apply final_byte_app).
  assert (drop_newline (text (DObj l)) = text (DObj l)) as Hd by (by eapply drop_newline_id).
  split_and!; try done.
  - unfold checkNoDuplicateKeys. rewrite <- (append_nil_r (text _)), (scan_doc _ Hok [] "") by done. by rewrite Hone.
  - unfold isCanonicalLine. rewrite Hd. case_match eqn:E; [by apply str_eqb_true in E|]. by rewrite bool_decide_eq_true_2.
Qed.

(** C33.  A line is accepted exactly when it is the encoding of the receipt it
    decodes to, with or without its newline, and that receipt is valid: so
    two accepted lines of one receipt are one line. *)
Theorem Decode_exact (data : string) (r : CapReceipt) :
  Decode data = Val r <->
  exists line, (data = line \/ data = line +:+ String LF "") /\ marshal_cap_receipt r = Some line /\
    decode_cap_receipt line = Some r /\ receipt_at_eof line = true /\ ValidateReceipt r = Val tt.
Proof.
  unfold Decode. rewrite !require_bind. split.
  - intros (_ & _ & _ & _ & _ & Hd). exists (drop_newline data). split; [destruct (drop_newline_cases data); auto|].
    destruct (decode_cap_receipt (drop_newline data)) as [r'|]; [|done]. cbn [or_invalid outcome_bind] in Hd.
    apply require_bind in Hd as [He Hd]. destruct (ValidateReceipt r') as [[]|] eqn:Ev; [|done]. cbn [outcome_bind] in Hd.
    unfold Encode in Hd. destruct (marshal_cap_receipt r') as [canon|] eqn:Em; [|done].
    apply require_bind in Hd as [Hc [= ->]]. rewrite drop_newline_app in Hc. apply str_eqb_true in Hc as ->. by split_and!.
  - intros (line & Hdata & Hm & Hd & He & Hv). destruct (object_text_line line (Htext r line Hm)) as (Hne & Hfirst & Hfinal & Hk & Hcan & Hdrop).
    assert (drop_newline data = line) as -> by (destruct Hdata as [->| ->]; [done|apply drop_newline_app]).
    rewrite Hd, Hk. cbn [or_invalid outcome_bind]. rewrite He, Hv. cbn [require outcome_bind]. unfold Encode. rewrite Hm, drop_newline_app, str_eqb_refl.
    split_and!; try done; apply str_neqb_true; [|done]. destruct Hdata as [->| ->]; [done|by destruct line].
Qed.

(** What [Seal] seals is valid when the fields it was made with are. *)
Lemma Seal_valid r prev r' : Seal r prev = Val r' ->
  cr_ReceiptVersion r = ReceiptVersion -> cr_SessionID r <> "" -> 0 < cr_StepID r ->
  cr_Decision r = DecisionAllow \/ cr_Decision r = DecisionPauseRequireProof -> cr_Hash r' <> "" ->
  ValidateReceipt r' = Val tt.
Proof.
  unfold Seal. rewrite require_bind, str_neqb_true. intros [Hp Hs] Hv Hsid Hstep Hdec Hh.
  destruct (HashReceipt (with_receipt_hash r prev (cr_Hash r))) as [h|] eqn:Eh; [|done]. injection Hs as <-.
  unfold ValidateReceipt. rewrite !require_bind. cbn [with_receipt_hash cr_ReceiptVersion cr_SessionID cr_StepID cr_Decision cr_PrevHash cr_Hash] in *.
  split_and!; rewrite ?Z.eqb_eq, ?Z.ltb_lt, ?str_neqb_true, ?andb_true_iff, ?str_neqb_true; try done.
  - by destruct Hdec as [->| ->].
  - change (HashReceipt (with_receipt_hash r prev h)) with (HashReceipt (with_receipt_hash r prev (cr_Hash r))). rewrite Eh. cbn.
    by rewrite str_eqb_refl.
Qed.
End receipts.

(** ** Witnesses *)

Module ReceiptsWitness.
#[local] Instance digest : GoCrypto := {| sha256_hex := fun _ => "d" |}.
Definition hash : string := digestOf "".
Definition receipt : CapReceipt := {|
  cr_ReceiptVersion := 1; cr_SessionID := "s"; cr_StepID := 1;
  cr_DeclaredAuthority := {| da_Target := ""; da_Network := []; da_Host := ""; da_WorkspaceRoot := "/"; da_DeclaredExecutables := []; da_Intent := "" |};
  cr_Signals := []; cr_CapabilityBefore := []; cr_CapabilityDelta := []; cr_CapabilityAfter := []; cr_ObservedCapability := "";
  cr_NominalPermissionsChanged := false; cr_EffectiveAuthorityChanged := false; cr_EnvelopeBefore := ""; cr_EnvelopeAfter := "";
  cr_EnvelopeTransition := ""; cr_Decision := "ALLOW"; cr_Reason := ""; cr_RequiredProof := None; cr_PrevHash := GenesisPrevHash; cr_Hash := hash;
  cr_ProvisionalCapability := None; cr_CapabilityConfirmation := "" |}.
Definition key (s : string) : list spart := SByte <$> String.list_ascii_of_string s.
(** An object in another may repeat a name of the outer one; an escaped quote
    does not end a string. *)
Definition members : list (list spart * doc) :=
  [(key "v", DArr [DLit "1"; DObj [(key "v", DStr [SByte ":"; SEscape DQUOTE; SByte "{"])]]); (key "w", DLit "true")].
Definition line : string := text (DObj members).
#[local] Instance json : CapJSON := {| marshal_cap_receipt := fun _ => Some line; marshal_pause_receipt := fun _ => None |}.
#[local] Instance decoder : ReceiptDecode := {| decode_cap_receipt := fun _ => Some receipt; receipt_at_eof := fun _ => true |}.
Lemma members_ok : doc_ok (DObj members).
Proof.
  assert (forall b, bool_decide (b = true) = true -> b = true) as Hb by (by intros b ?%bool_decide_eq_true).
  cbn [members doc_ok map foldr fst snd]. split_and!; try done; repeat constructor; discriminate.
Qed.
Lemma json_objects r l : marshal_cap_receipt r = Some l -> object_text l.
Proof. intros [= <-]. exists members. split; [done|]. split; [exact members_ok|vm_compute; reflexivity]. Qed.
Example repeated_key : checkNoDuplicateKeys (text (DObj (members ++ [(key "w", DLit "2")]))) = Some "duplicate key".
Proof. vm_compute. reflexivity. Qed.
Example spaced_line_refused : Decode (line +:+ " ") = Bad ErrInvalidStep.
Proof. vm_compute. reflexivity. Qed.
End ReceiptsWitness.

Section receipts_witness.
Import ReceiptsWitness.
#[local] Existing Instances digest json decoder.
Lemma checkNoDuplicateKeys_iff_witness : checkNoDuplicateKeys line = None <-> keys_once (DObj members) = true.
Proof. apply (checkNoDuplicateKeys_iff (DObj members) members_ok). Defined.
Lemma Decode_exact_witness : Decode (line +:+ String LF "") = Val receipt.
Proof.
  apply (Decode_exact json_objects). exists line. split; [by right|]. split; [reflexivity|]. split; [reflexivity|].
  split; [reflexivity|]. vm_compute. reflexivity.
Defined.
End receipts_witness.
