(* ===== verification/Evaluators.v ===== *)
(** What the proof evaluators of [internal/*/evaluator.go] share: each decides
    one proposed action against a root the caller holds, without any effect of
    its own.  The verdicts, the helpers that the packages repeat, and the lists
    of checks of which the first that fails gives the reason. *)
From stdpp Require Import base strings gmap list.
From Stdlib Require Import ZArith Lia.
From S2P Require Import Prelude.
#[local] Open Scope Z_scope.

Definition ProofValid : string := "VALID".
Definition ProofInvalid : string := "INVALID".
Definition ProofDisabled : string := "DISABLED".
Definition VerdictAllow : string := "ALLOW".
Definition VerdictDeny : string := "DENY".

Definition has (xs : list string) (s : string) : bool := str_in s xs.
Definition pick (ok : bool) (yes no : string) : string := if ok then yes else no.
(** [strconv.FormatBool] *)
Definition FormatBool (b : bool) : string := if b then "true" else "false".

(** The loops that check each element and refuse a key seen before. *)
Fixpoint unique_by {A K} `{Countable K} (ok : A -> bool) (key : A -> K) (seen : gset K) (xs : list A) : bool :=
  match xs with
  | [] => true
  | x :: xs =>
      if negb (ok x) then false
      else if bool_decide (key x ∈ seen) then false
      else unique_by ok key ({[key x]} ∪ seen) xs
  end.
Definition uniqueFilled (xs : list string) : bool := unique_by (fun x => x <>s? "") id ∅ xs.

(** [switch { case !c1: reason = r1; ... }] *)
Fixpoint first_failure (steps : list (bool * string)) : option string :=
  match steps with
  | [] => None
  | (ok, reason) :: steps => if ok then first_failure steps else Some reason
  end.

(** Trust classes and the authority they give: what comes from outside gets
    [zero], an unknown class is refused. *)
Definition AuthorityUser : string := "USER".
Definition AuthorityDeveloper : string := "DEVELOPER".
Definition AuthoritySystem : string := "SYSTEM".
Definition authority_table (untrusted zero class : string) : option string :=
  if class =s? untrusted then Some zero
  else if class =s? "TRUSTED_USER" then Some AuthorityUser
  else if class =s? "TRUSTED_DEVELOPER" then Some AuthorityDeveloper
  else if class =s? "TRUSTED_SYSTEM" then Some AuthoritySystem
  else None.
Definition atLeastUser (a : string) : bool := (a =s? AuthorityUser) || (a =s? AuthorityDeveloper) || (a =s? AuthoritySystem).

(** ** Lemmas *)

Definition trusted_class (class : string) : Prop :=
  class = "TRUSTED_USER" \/ class = "TRUSTED_DEVELOPER" \/ class = "TRUSTED_SYSTEM".
Lemma authority_table_user untrusted zero class : ~ trusted_class untrusted -> atLeastUser zero = false ->
  (exists a, authority_table untrusted zero class = Some a /\ atLeastUser a = true) <-> trusted_class class.
Proof.
  intros Hu Hz. unfold authority_table, trusted_class. repeat setoid_rewrite <- str_eqb_true.
  destruct (class =s? untrusted) eqn:Eu.
  { bools. setoid_rewrite str_eqb_true. split; [intros (? & [= <-] & ?); congruence|done]. }
  destruct (class =s? "TRUSTED_USER"), (class =s? "TRUSTED_DEVELOPER"), (class =s? "TRUSTED_SYSTEM"); naive_solver.
Qed.
Lemma pick_allow b : pick b VerdictAllow VerdictDeny = VerdictAllow <-> b = true.
Proof. by destruct b. Qed.
Lemma failure_allow (o : option string) : (match o with None => VerdictAllow | Some _ => VerdictDeny end) = VerdictAllow <-> o = None.
Proof. by destruct o. Qed.

Lemma unique_by_seen {A K} `{Countable K} (ok : A -> bool) (key : A -> K) seen xs :
  unique_by ok key seen xs = true <->
  Forall (fun x => ok x = true) xs /\ NoDup (key <$> xs) /\ Forall (fun x => key x ∉ seen) xs.
Proof.
  revert seen. induction xs as [|x xs IH]; intros seen; cbn [unique_by].
  - split; [intros _; split_and!; constructor|done].
  - rewrite fmap_cons, NoDup_cons, !Forall_cons. destruct (ok x); cbn [negb]; [|naive_solver].
    case_bool_decide as Hs; [naive_solver|]. rewrite IH.
    assert (Forall (fun y => key y ∉ {[key x]} ∪ seen) xs <-> (key x ∉ (key <$> xs)) /\ Forall (fun y => key y ∉ seen) xs) as ->.
    { rewrite !Forall_forall. split.
      - intros Hf. split; [|set_solver]. intros (y & E & Hy)%list_elem_of_fmap. specialize (Hf y Hy). set_solver.
      - intros [Hn Hf] y Hy. apply not_elem_of_union. split; [|by apply Hf]. intros E%elem_of_singleton. apply Hn.
        rewrite <- E. by apply list_elem_of_fmap_2. }
    tauto.
Qed.
Lemma unique_by_spec {A K} `{Countable K} (ok : A -> bool) (key : A -> K) xs :
  unique_by ok key ∅ xs = true <-> Forall (fun x => ok x = true) xs /\ NoDup (key <$> xs).
Proof.
  rewrite unique_by_seen. assert (Forall (fun x => key x ∉ (∅ : gset K)) xs) by (apply Forall_forall; set_solver). tauto.
Qed.
Lemma uniqueFilled_spec xs : uniqueFilled xs = true <-> ~ In "" xs /\ NoDup xs.
Proof.
  unfold uniqueFilled. rewrite unique_by_spec, list_fmap_id, Forall_forall.
  assert ((forall x, x ∈ xs -> (x <>s? "") = true) <-> ~ In "" xs) as ->; [|done].
  split; [intros Hf Hin|intros Hn x Hx].
  - apply list_elem_of_In in Hin. by specialize (Hf "" Hin).
  - apply str_neqb_true. intros ->. by apply Hn, list_elem_of_In.
Qed.
Lemma has_In xs s : has xs s = true <-> In s xs.
Proof. apply str_in_In. Qed.
Lemma first_failure_None steps : first_failure steps = None <-> Forall (fun s => s.1 = true) steps.
Proof.
  induction steps as [|[[] r] steps IH]; cbn; rewrite ?Forall_cons, ?IH; cbn; [by split; [constructor|]|naive_solver..].
Qed.
(** A list of checks passes: each of them, as propositions. *)
Ltac checks :=
  rewrite ?failure_allow, first_failure_None, ?Forall_cons, ?Forall_nil; cbn [fst];
  rewrite ?andb_true_iff, ?negb_true_iff, ?str_neqb_true, ?str_eqb_true, ?str_eqb_false, ?has_In.
