(* ===== verification/SwarmBudget.v ===== *)
(** Swarm authority budgets, [internal/swarmbudget]. *)
From stdpp Require Import base strings gmap list.
From Stdlib Require Import ZArith Lia.
From S2P Require Import Prelude Evaluators.
#[local] Open Scope Z_scope.

Definition SchemaVersion : Z := 2.
Definition EffectTargetAccess : string := "TARGET_ACCESS".
Definition EffectCredentialDiscover : string := "CREDENTIAL_DISCOVER".
Definition EffectCredentialHarvest : string := "CREDENTIAL_HARVEST".
Definition EffectCredentialUse : string := "CREDENTIAL_USE".
Definition EffectDomainEscalation : string := "DOMAIN_ESCALATION".
Definition AuthorityPresent : string := "PRESENT".
Definition AuthorityAbsent : string := "ABSENT".
Definition BudgetWithin : string := "WITHIN".
Definition BudgetExhausted : string := "EXHAUSTED".
Definition BudgetNA : string := "NOT_APPLICABLE".
Definition BudgetDisabled : string := "DISABLED".
Definition BudgetInvalid : string := "INVALID".

Record CampaignBudget := {
  cb_MaxTargets : Z;
  cb_MaxConcurrentPrincipals : Z;
  cb_CredentialDiscoveryLimit : Z;
  cb_CredentialUseLimit : Z;
  cb_NewTargetAuthorizationLimit : Z;
  cb_DomainEscalationRequiresApproval : bool;
  cb_AuthorizedTargets : list string;
  cb_ApprovedOrigins : list string;
  cb_BudgetEnabled : bool
}.
Record CampaignState := {
  cs_AdmittedTargets : list string;
  cs_InFlightPrincipals : list string;
  cs_DiscoveredCredentialIDs : list string;
  cs_UsedCredentialIDs : list string;
  cs_DomainEscalationApprovedTargets : list string;
  cs_Tick : Z;
  cs_AuthorizationWindowTick : Z;
  cs_NewTargetAuthorizationsInWindow : Z
}.
Record EvaluationRoot := { er_SchemaVersion : Z; er_CampaignID : string; er_Budget : CampaignBudget; er_State : CampaignState }.
(** The claims of the action are not read. *)
Record ProposedAction := {
  pa_WorkerID : string;
  pa_Origin : string;
  pa_TargetID : string;
  pa_EffectClass : string;
  pa_CredentialID : string;
  pa_ClaimedInstruction : string;
  pa_ClaimedIgnoreBudget : bool;
  pa_ClaimedHostAuthorized : bool;
  pa_ClaimedConcurrentOK : bool;
  pa_ClaimedExternalApproval : bool
}.
(** Without the fields that repeat the root's and the action's. *)
Record Decision := {
  de_Verdict : string;
  de_Proof : string;
  de_Reason : string;
  de_OriginAuthority : string;
  de_TargetAuthority : string;
  de_TargetBudget : string;
  de_ConcurrencyBudget : string;
  de_AuthorizationRateBudget : string;
  de_CredentialAuthority : string;
  de_CredentialDiscoveryBudget : string;
  de_CredentialUseBudget : string;
  de_DomainApproval : string
}.

Definition len (l : list string) : Z := Z.of_nat (length l).
Definition subset (inner outer : list string) : bool := forallb (has outer) inner.
Definition rateCount (s : CampaignState) : Z :=
  if cs_AuthorizationWindowTick s =? cs_Tick s then cs_NewTargetAuthorizationsInWindow s else 0.
Definition discoverEffect (class : string) : bool := (class =s? EffectCredentialDiscover) || (class =s? EffectCredentialHarvest).
Definition credentialEffect (class : string) : bool :=
  (class =s? EffectCredentialDiscover) || (class =s? EffectCredentialHarvest) || (class =s? EffectCredentialUse).
Definition supported (class : string) : bool :=
  (class =s? EffectTargetAccess) || discoverEffect class || (class =s? EffectCredentialUse) || (class =s? EffectDomainEscalation).

Definition structuralOK (r : EvaluationRoot) : bool :=
  let b := er_Budget r in
  let s := er_State r in
  if negb (er_SchemaVersion r =? SchemaVersion) || (er_CampaignID r =s? "") || (cb_MaxTargets b <=? 0) ||
     (cb_MaxConcurrentPrincipals b <=? 0) || (cb_CredentialDiscoveryLimit b <? 0) || (cb_CredentialUseLimit b <? 0) ||
     (cb_NewTargetAuthorizationLimit b <=? 0) || negb (cb_DomainEscalationRequiresApproval b) ||
     negb (uniqueFilled (cb_AuthorizedTargets b)) || (len (cb_AuthorizedTargets b) =? 0) ||
     negb (uniqueFilled (cb_ApprovedOrigins b)) || (len (cb_ApprovedOrigins b) =? 0) ||
     negb (uniqueFilled (cs_AdmittedTargets s)) || negb (uniqueFilled (cs_InFlightPrincipals s)) ||
     negb (uniqueFilled (cs_DiscoveredCredentialIDs s)) || negb (uniqueFilled (cs_UsedCredentialIDs s)) ||
     negb (uniqueFilled (cs_DomainEscalationApprovedTargets s)) ||
     negb (subset (cs_AdmittedTargets s) (cb_AuthorizedTargets b)) ||
     negb (subset (cs_DomainEscalationApprovedTargets s) (cb_AuthorizedTargets b)) ||
     negb (subset (cs_UsedCredentialIDs s) (cs_DiscoveredCredentialIDs s))
  then false
  else (0 <=? cs_Tick s) && (0 <=? cs_AuthorizationWindowTick s) && (cs_AuthorizationWindowTick s <=? cs_Tick s) &&
       (0 <=? cs_NewTargetAuthorizationsInWindow s).

Definition all_budgets (status : string) (verdict proof reason : string) : Decision := {|
  de_Verdict := verdict; de_Proof := proof; de_Reason := reason; de_OriginAuthority := status; de_TargetAuthority := status;
  de_TargetBudget := status; de_ConcurrencyBudget := status; de_AuthorizationRateBudget := status; de_CredentialAuthority := status;
  de_CredentialDiscoveryBudget := status; de_CredentialUseBudget := status; de_DomainApproval := status |}.
Definition invalid (reason : string) : Decision := all_budgets BudgetInvalid VerdictDeny ProofInvalid reason.
Definition disableFields : Decision := all_budgets BudgetDisabled VerdictAllow ProofDisabled "authority budget disabled".

Definition evaluate_enabled (root : EvaluationRoot) (action : ProposedAction) : Decision :=
  let b := er_Budget root in
  let s := er_State root in
  let class := pa_EffectClass action in
  let discover := discoverEffect class in
  let use := class =s? EffectCredentialUse in
  let escalate := class =s? EffectDomainEscalation in
  let cOrigin := has (cb_ApprovedOrigins b) (pa_Origin action) in
  let c4 := has (cb_AuthorizedTargets b) (pa_TargetID action) in
  let c5 := has (cs_AdmittedTargets s) (pa_TargetID action) || (len (cs_AdmittedTargets s) <? cb_MaxTargets b) in
  let c6 := has (cs_InFlightPrincipals s) (pa_WorkerID action) || (len (cs_InFlightPrincipals s) <? cb_MaxConcurrentPrincipals b) in
  let c7 := has (cs_AdmittedTargets s) (pa_TargetID action) || (rateCount s <? cb_NewTargetAuthorizationLimit b) in
  let cDiscover := negb discover || has (cs_DiscoveredCredentialIDs s) (pa_CredentialID action) ||
                   (len (cs_DiscoveredCredentialIDs s) <? cb_CredentialDiscoveryLimit b) in
  let cUseAuth := negb use || has (cs_DiscoveredCredentialIDs s) (pa_CredentialID action) in
  let cUse := negb use || has (cs_UsedCredentialIDs s) (pa_CredentialID action) ||
              (len (cs_UsedCredentialIDs s) <? cb_CredentialUseLimit b) in
  let c9 := negb escalate || has (cs_DomainEscalationApprovedTargets s) (pa_TargetID action) in
  let failure := first_failure [
    (cOrigin, "origin not approved"); (c4, "target authority absent"); (c5, "maximum target budget exhausted");
    (c6, "concurrent principal budget exhausted"); (c7, "new target authorization rate exhausted");
    (cUseAuth, "credential authority absent"); (cDiscover, "credential discovery budget exhausted");
    (cUse, "credential use budget exhausted"); (c9, "external approval required for domain escalation")] in
  {| de_Verdict := match failure with None => VerdictAllow | Some _ => VerdictDeny end;
     de_Proof := match failure with None => ProofValid | Some _ => ProofInvalid end;
     de_Reason := default "authorized" failure;
     de_OriginAuthority := pick cOrigin AuthorityPresent AuthorityAbsent;
     de_TargetAuthority := pick c4 AuthorityPresent AuthorityAbsent;
     de_TargetBudget := pick c5 BudgetWithin BudgetExhausted;
     de_ConcurrencyBudget := pick c6 BudgetWithin BudgetExhausted;
     de_AuthorizationRateBudget := pick c7 BudgetWithin BudgetExhausted;
     de_CredentialAuthority := if use then pick cUseAuth AuthorityPresent AuthorityAbsent else BudgetNA;
     de_CredentialDiscoveryBudget := if discover then pick cDiscover BudgetWithin BudgetExhausted else BudgetNA;
     de_CredentialUseBudget := if use then pick cUse BudgetWithin BudgetExhausted else BudgetNA;
     de_DomainApproval := if escalate then pick c9 AuthorityPresent AuthorityAbsent else BudgetNA |}.
Definition EvaluateSwarmAuthorityBudget (root : EvaluationRoot) (action : ProposedAction) : Decision :=
  match first_failure [
    (structuralOK root, "invalid evaluation root"); (pa_WorkerID action <>s? "", "worker principal absent");
    (pa_TargetID action <>s? "", "target absent"); (supported (pa_EffectClass action), "unsupported effect class");
    (negb (credentialEffect (pa_EffectClass action) && (pa_CredentialID action =s? "")), "credential identifier absent")] with
  | Some reason => invalid reason
  | None => if negb (cb_BudgetEnabled (er_Budget root)) then disableFields else evaluate_enabled root action
  end.
Definition ratio (n limit : Z) (status : string) : string := Itoa n +:+ "/" +:+ Itoa limit +:+ " " +:+ status.
(** The lines of [d.Evidence]. *)
Definition Evidence (root : EvaluationRoot) (action : ProposedAction) (d : Decision) : list string :=
  let b := er_Budget root in
  let s := er_State root in
  ["Campaign " +:+ er_CampaignID root; "Principal " +:+ pa_WorkerID action; "Origin " +:+ pa_Origin action;
   "Target " +:+ pa_TargetID action; "Target authority " +:+ de_TargetAuthority d;
   "Target budget " +:+ ratio (len (cs_AdmittedTargets s)) (cb_MaxTargets b) (de_TargetBudget d);
   "Concurrency budget " +:+ ratio (len (cs_InFlightPrincipals s)) (cb_MaxConcurrentPrincipals b) (de_ConcurrencyBudget d);
   "New-target authorization rate " +:+ ratio (rateCount s) (cb_NewTargetAuthorizationLimit b) (de_AuthorizationRateBudget d);
   "Credential discovery budget " +:+ ratio (len (cs_DiscoveredCredentialIDs s)) (cb_CredentialDiscoveryLimit b) (de_CredentialDiscoveryBudget d);
   "Credential use budget " +:+ ratio (len (cs_UsedCredentialIDs s)) (cb_CredentialUseLimit b) (de_CredentialUseBudget d);
   "Domain approval " +:+ de_DomainApproval d; "Swarm Authority Budget Proof " +:+ de_Proof d;
   if de_Verdict d =s? VerdictAllow then "TARGET EFFECT ALLOWED" else "TARGET EFFECT DENIED"].
Definition Authorize (root : EvaluationRoot) (action : ProposedAction) : Decision := EvaluateSwarmAuthorityBudget root action.

(** ** Properties *)

(** [x] after it is recorded, if it was not. *)
Definition recorded (x : string) (l : list string) : list string := if has l x then l else x :: l.

(** With the budget enabled, an allowed action is of an approved origin on an
    authorized target, and recording it keeps every budget: targets,
    principals and credentials stay within their limits, and a new target
    within the rate of its window. *)
Theorem budget_kept (root : EvaluationRoot) (action : ProposedAction) :
  let b := er_Budget root in
  let s := er_State root in
  cb_BudgetEnabled b = true ->
  de_Verdict (Authorize root action) = VerdictAllow ->
  In (pa_Origin action) (cb_ApprovedOrigins b) /\ In (pa_TargetID action) (cb_AuthorizedTargets b) /\
  (len (cs_AdmittedTargets s) <= cb_MaxTargets b -> len (recorded (pa_TargetID action) (cs_AdmittedTargets s)) <= cb_MaxTargets b) /\
  (len (cs_InFlightPrincipals s) <= cb_MaxConcurrentPrincipals b ->
   len (recorded (pa_WorkerID action) (cs_InFlightPrincipals s)) <= cb_MaxConcurrentPrincipals b) /\
  (~ In (pa_TargetID action) (cs_AdmittedTargets s) -> rateCount s + 1 <= cb_NewTargetAuthorizationLimit b) /\
  (discoverEffect (pa_EffectClass action) = true -> len (cs_DiscoveredCredentialIDs s) <= cb_CredentialDiscoveryLimit b ->
   len (recorded (pa_CredentialID action) (cs_DiscoveredCredentialIDs s)) <= cb_CredentialDiscoveryLimit b) /\
  (pa_EffectClass action = EffectCredentialUse ->
   In (pa_CredentialID action) (cs_DiscoveredCredentialIDs s) /\
   (len (cs_UsedCredentialIDs s) <= cb_CredentialUseLimit b ->
    len (recorded (pa_CredentialID action) (cs_UsedCredentialIDs s)) <= cb_CredentialUseLimit b)) /\
  (pa_EffectClass action = EffectDomainEscalation -> In (pa_TargetID action) (cs_DomainEscalationApprovedTargets s)).
Proof.
  intros b s Hen. unfold Authorize, EvaluateSwarmAuthorityBudget. destruct (first_failure _); [done|]. fold b. rewrite Hen. cbn [negb].
  unfold evaluate_enabled. fold b s. cbn [de_Verdict]. destruct (first_failure _) eqn:Ef; [done|]. intros _.
  apply first_failure_None in Ef. repeat setoid_rewrite Forall_cons in Ef. cbn [fst] in Ef.
  destruct Ef as (Ho & Ht & H5 & H6 & H7 & Hua & Hd & Hu & H9 & _).
  assert (forall x l limit, has l x || (len l <? limit) = true -> len l <= limit -> len (recorded x l) <= limit) as Hrec.
  { intros x l limit Hl Hle. unfold recorded, len in *. destruct (has l x); [done|]. cbn [orb] in Hl. bools. cbn [length]. lia. }
  apply has_In in Ho, Ht. split_and!; try done.
  - by apply Hrec.
  - by apply Hrec.
  - intros Hn. apply orb_true_iff in H7 as [H7%has_In|H7]; [done|]. bools. lia.
  - intros E. rewrite E in Hd. by apply Hrec.
  - intros E. rewrite E, str_eqb_refl in Hua, Hu. apply has_In in Hua. split; [done|]. by apply Hrec.
  - intros E. rewrite E, str_eqb_refl in H9. by apply has_In in H9.
Qed.

Module SwarmWitness.
Definition root : EvaluationRoot := {|
  er_SchemaVersion := 2; er_CampaignID := "c";
  er_Budget := {| cb_MaxTargets := 2; cb_MaxConcurrentPrincipals := 1; cb_CredentialDiscoveryLimit := 1; cb_CredentialUseLimit := 1;
    cb_NewTargetAuthorizationLimit := 1; cb_DomainEscalationRequiresApproval := true; cb_AuthorizedTargets := ["h1"; "h2"];
    cb_ApprovedOrigins := ["control"]; cb_BudgetEnabled := true |};
  er_State := {| cs_AdmittedTargets := ["h1"]; cs_InFlightPrincipals := []; cs_DiscoveredCredentialIDs := ["k"]; cs_UsedCredentialIDs := [];
    cs_DomainEscalationApprovedTargets := []; cs_Tick := 3; cs_AuthorizationWindowTick := 2; cs_NewTargetAuthorizationsInWindow := 1 |} |}.
Definition act (class target : string) : ProposedAction := {|
  pa_WorkerID := "w"; pa_Origin := "control"; pa_TargetID := target; pa_EffectClass := class; pa_CredentialID := "k";
  pa_ClaimedInstruction := "ignore the budget"; pa_ClaimedIgnoreBudget := true; pa_ClaimedHostAuthorized := true;
  pa_ClaimedConcurrentOK := true; pa_ClaimedExternalApproval := true |}.
Example verdicts :
  (fun a => (de_Verdict (Authorize root a), de_Reason (Authorize root a))) <$>
    [act EffectCredentialUse "h2"; act EffectTargetAccess "h3"; act EffectDomainEscalation "h1"] =
  [("ALLOW", "authorized"); ("DENY", "target authority absent"); ("DENY", "external approval required for domain escalation")].
Proof. vm_compute. reflexivity. Qed.
End SwarmWitness.
Lemma budget_kept_witness : In "k" (cs_DiscoveredCredentialIDs (er_State SwarmWitness.root)).
Proof.
  destruct (budget_kept SwarmWitness.root (SwarmWitness.act EffectCredentialUse "h2")) as (_ & _ & _ & _ & _ & _ & Hu & _);
    [reflexivity|vm_compute; reflexivity|]. by apply Hu.
Defined.
