(* ===== verification/ToolCorrelation.v ===== *)
(** Cross-tool correlation, [internal/toolcorrelation]: the uses of one
    capability across tools and servers count together.  [Decision] is without
    the fields that repeat the root's and the action's. *)
From stdpp Require Import base strings gmap list.
From Stdlib Require Import ZArith Lia.
From S2P Require Import Prelude GoStrings GoLib Evaluators.
#[local] Open Scope Z_scope.

Definition SchemaVersion : Z := 1.
Definition GraphPresent : string := "PRESENT".
Definition GraphAbsent : string := "ABSENT".

Record CapabilityCeiling := { cc_CapabilityID : string; cc_MaxUnits : Z }.
Record ResourceUse := { ru_UseID : string; ru_ServerID : string; ru_ToolName : string; ru_CapabilityID : string; ru_Units : Z }.
Record CorrelationEdge := { ce_FromUseID : string; ce_ToUseID : string }.
Record UseReference := { ur_UseID : string; ur_ServerID : string; ur_ToolName : string }.
Record EvaluationRoot := {
  er_SchemaVersion : Z;
  er_CapabilityCeilings : list CapabilityCeiling;
  er_ResourceUses : list ResourceUse;
  er_CorrelationEdges : list CorrelationEdge;
  er_CorrelationEnabled : bool
}.
Record ProposedAction := {
  pa_ActionID : string;
  pa_CapabilityID : string;
  pa_Uses : list UseReference;
  pa_ClaimedPerToolAllow : bool;
  pa_ClaimedServerHopInnocent : bool;
  pa_ClaimedAuthorized : bool;
  pa_ClaimedRemainingQuota : Z
}.
Record Decision := {
  de_ServerCount : Z;
  de_ToolCount : Z;
  de_TotalUnits : Z;
  de_CeilingUnits : Z;
  de_Verdict : string;
  de_Proof : string;
  de_Reason : string;
  de_GraphStatus : string;
  de_TrajectoryStatus : string;
  de_CapabilityStatus : string;
  de_CeilingStatus : string;
  de_UsageStatus : string;
  de_CorrelationStatus : string
}.

(** Every field but the counts is [status]. *)
Definition uniform (status proof reason : string) : Decision := {|
  de_ServerCount := 0; de_ToolCount := 0; de_TotalUnits := 0; de_CeilingUnits := 0; de_Verdict := VerdictDeny; de_Proof := proof;
  de_Reason := reason; de_GraphStatus := status; de_TrajectoryStatus := status; de_CapabilityStatus := status;
  de_CeilingStatus := status; de_UsageStatus := status; de_CorrelationStatus := status |}.

Definition edge_ok (uids : list string) (e : CorrelationEdge) : bool :=
  negb ((ce_FromUseID e =s? "") || (ce_ToUseID e =s? "") || (ce_FromUseID e =s? ce_ToUseID e)) &&
  has uids (ce_FromUseID e) && has uids (ce_ToUseID e).
Definition structuralOK (r : EvaluationRoot) : bool :=
  if negb (er_SchemaVersion r =? SchemaVersion) || bool_decide (er_CapabilityCeilings r = []) ||
     bool_decide (er_ResourceUses r = []) || bool_decide (er_CorrelationEdges r = [])
  then false
  else
    unique_by (fun c => negb ((cc_CapabilityID c =s? "") || (cc_MaxUnits c <=? 0))) cc_CapabilityID ∅ (er_CapabilityCeilings r) &&
    unique_by (fun u => negb ((ru_UseID u =s? "") || (ru_ServerID u =s? "") || (ru_ToolName u =s? "") ||
                              (ru_CapabilityID u =s? "") || (ru_Units u <=? 0))) ru_UseID ∅ (er_ResourceUses r) &&
    unique_by (edge_ok (ru_UseID <$> er_ResourceUses r)) (fun e => (ce_FromUseID e, ce_ToUseID e)) ∅ (er_CorrelationEdges r).

Definition refers (ref : UseReference) (u : ResourceUse) : bool :=
  (ur_UseID ref =s? ru_UseID u) && (ur_ServerID ref =s? ru_ServerID u) && (ur_ToolName ref =s? ru_ToolName u).
Definition linked (root : EvaluationRoot) (u v : ResourceUse) : bool :=
  existsb (fun e => (ce_FromUseID e =s? ru_UseID u) && (ce_ToUseID e =s? ru_UseID v)) (er_CorrelationEdges root).
(** The loop over [action.Uses]: [resolved], [c5], [c6], [c7]; [prev] is the
    use before. *)
Fixpoint resolve (root : EvaluationRoot) (capability : string) (prev : option ResourceUse) (refs : list UseReference)
    : list ResourceUse * bool * bool * bool :=
  match refs with
  | [] => ([], true, true, true)
  | ref :: refs =>
      match List.find (refers ref) (er_ResourceUses root) with
      | None => ([], false, false, false)
      | Some u =>
          let '(us, c5, c6, c7) := resolve root capability (Some u) refs in
          (u :: us, c5, match prev with None => c6 | Some p => linked root p u && c6 end, (ru_CapabilityID u =s? capability) && c7)
      end
  end.
Definition maxInt : Z := 2^63 - 1.
(** The loop over the resolved uses: [ss], [ts], [sum] and [over]; the
    arithmetic is that of a 64-bit [int]. *)
Fixpoint add_up (us : list ResourceUse) (ss : gset string) (ts : gset (string * string)) (sum : Z)
    : gset string * gset (string * string) * Z * bool :=
  match us with
  | [] => (ss, ts, sum, false)
  | u :: us =>
      let ss := {[ru_ServerID u]} ∪ ss in
      let ts := {[(ru_ServerID u, ru_ToolName u)]} ∪ ts in
      if (0 <? ru_Units u) && (wrap64 (maxInt - ru_Units u) <? sum) then (ss, ts, sum, true)
      else add_up us ss ts (wrap64 (sum + ru_Units u))
  end.
Definition evaluate_enabled (root : EvaluationRoot) (action : ProposedAction) : Decision :=
  let '(resolved, c5, c6, c7) := resolve root (pa_CapabilityID action) None (pa_Uses action) in
  let found := List.find (fun c => cc_CapabilityID c =s? pa_CapabilityID action) (er_CapabilityCeilings root) in
  let c8 := bool_decide (is_Some found) in
  let ceil := match found with Some c => cc_MaxUnits c | None => 0 end in
  let '(ss, ts, sum, over) := if c5 then add_up resolved ∅ ∅ 0 else (∅, ∅, 0, false) in
  let within := negb over && (sum <=? ceil) in
  let ok := c5 && c6 && c7 && c8 && within in
  {| de_ServerCount := Z.of_nat (size ss); de_ToolCount := Z.of_nat (size ts); de_TotalUnits := sum; de_CeilingUnits := ceil;
     de_Verdict := pick ok VerdictAllow VerdictDeny; de_Proof := pick ok ProofValid ProofInvalid;
     de_Reason := if ok then "authorized" else if negb c5 then "referenced resource use absent" else if negb c6 then "correlation edge absent"
                  else if negb c7 then "trajectory capability mismatch" else if negb c8 then "capability ceiling absent"
                  else "correlated capability ceiling exceeded";
     de_GraphStatus := pick (c5 && c6) GraphPresent GraphAbsent; de_TrajectoryStatus := pick (c5 && c6) "VALID" "INVALID";
     de_CapabilityStatus := if c5 then pick c7 "PRESENT" "ABSENT" else "INVALID";
     de_CeilingStatus := if c5 && c6 && c7 then pick c8 "PRESENT" "ABSENT" else "INVALID";
     de_UsageStatus := if c5 && c6 && c7 && c8 then pick within "WITHIN" "EXCEEDED" else "INVALID";
     de_CorrelationStatus := pick ok "VALID" "INVALID" |}.
Definition Authorize (root : EvaluationRoot) (action : ProposedAction) : Decision :=
  match first_failure [
    (structuralOK root, "invalid evaluation root"); (pa_ActionID action <>s? "", "action identifier absent");
    (pa_CapabilityID action <>s? "", "capability identifier absent");
    (negb (bool_decide (pa_Uses action = [])), "resource-use trajectory absent")] with
  | Some reason => uniform "INVALID" ProofInvalid reason
  | None => if negb (er_CorrelationEnabled root) then uniform "DISABLED" ProofDisabled "tool correlation disabled"
            else evaluate_enabled root action
  end.
Definition pathStr (uses : list UseReference) : string :=
  String.concat ">" ((fun u => ur_UseID u +:+ "@" +:+ ur_ServerID u +:+ "/" +:+ ur_ToolName u) <$> uses).
Definition count {A} (l : list A) : string := Itoa (Z.of_nat (length l)).
(** The lines of [d.Evidence]. *)
Definition Evidence (root : EvaluationRoot) (action : ProposedAction) (d : Decision) : list string :=
  ["Correlation root ceilings=" +:+ count (er_CapabilityCeilings root) +:+ " uses=" +:+ count (er_ResourceUses root) +:+
     " edges=" +:+ count (er_CorrelationEdges root);
   "Requested capability " +:+ pa_CapabilityID action +:+ " total_units=" +:+ Itoa (de_TotalUnits d) +:+ " ceiling_units=" +:+ Itoa (de_CeilingUnits d);
   "Requested uses " +:+ pathStr (pa_Uses action);
   "Claims per_tool_allow=" +:+ FormatBool (pa_ClaimedPerToolAllow action) +:+ " server_hop_innocent=" +:+
     FormatBool (pa_ClaimedServerHopInnocent action) +:+ " remaining_quota=" +:+ Itoa (pa_ClaimedRemainingQuota action) +:+
     " authorized=" +:+ FormatBool (pa_ClaimedAuthorized action);
   "Authority graph=" +:+ de_GraphStatus d +:+ " trajectory=" +:+ de_TrajectoryStatus d +:+ " capability=" +:+ de_CapabilityStatus d +:+
     " ceiling=" +:+ de_CeilingStatus d +:+ " usage=" +:+ de_UsageStatus d +:+ " correlation=" +:+ de_CorrelationStatus d;
   "Cross-Tool Correlation Proof " +:+ de_Proof d; "reason " +:+ de_Reason d;
   pick (de_Verdict d =s? VerdictAllow) "ACTION ALLOWED" "ACTION DENIED"].

(** ** Properties *)

Definition total (us : list ResourceUse) : Z := foldr (fun u n => ru_Units u + n) 0 us.
(** [us] are registered uses that the references name. *)
Definition named_by (root : EvaluationRoot) (refs : list UseReference) (us : list ResourceUse) : Prop :=
  Forall2 (fun ref u => In u (er_ResourceUses root) /\ refers ref u = true) refs us.
Fixpoint chained (root : EvaluationRoot) (us : list ResourceUse) : Prop :=
  match us with
  | u :: (v :: _) as rest => (exists e, In e (er_CorrelationEdges root) /\ ce_FromUseID e = ru_UseID u /\ ce_ToUseID e = ru_UseID v) /\ chained root rest
  | _ => True
  end.

Lemma linked_iff root u v : linked root u v = true <->
  exists e, In e (er_CorrelationEdges root) /\ ce_FromUseID e = ru_UseID u /\ ce_ToUseID e = ru_UseID v.
Proof. unfold linked. rewrite existsb_exists. setoid_rewrite andb_true_iff. by setoid_rewrite str_eqb_true. Qed.
Lemma refers_unique root ref u v : NoDup (ru_UseID <$> er_ResourceUses root) -> In u (er_ResourceUses root) -> In v (er_ResourceUses root) ->
  refers ref u = true -> refers ref v = true -> u = v.
Proof. intros Hnd Hu Hv Eu Ev. unfold refers in *. bools. eapply NoDup_fmap_inj; [exact Hnd|done..|congruence]. Qed.
Lemma find_refers root ref u : NoDup (ru_UseID <$> er_ResourceUses root) ->
  List.find (refers ref) (er_ResourceUses root) = Some u <-> In u (er_ResourceUses root) /\ refers ref u = true.
Proof.
  intros Hnd. split; [apply find_some|]. intros [Hin Hr]. destruct (List.find _ _) as [v|] eqn:Ef.
  - apply find_some in Ef as [Hv Hr']. f_equal. by eapply refers_unique.
  - by rewrite (find_none _ _ Ef u Hin) in Hr.
Qed.
Lemma resolve_spec root capability refs prev us : NoDup (ru_UseID <$> er_ResourceUses root) ->
  resolve root capability prev refs = (us, true, true, true) <->
  named_by root refs us /\ chained root (option_list prev ++ us) /\ Forall (fun u => ru_CapabilityID u = capability) us.
Proof.
  intros Hnd. revert prev us. induction refs as [|ref refs IH]; intros prev us; cbn [resolve].
  - split; [intros [= <-]; split_and!; [constructor| |constructor]; by destruct prev|]. intros (Hn & _). inversion Hn. by subst.
  - destruct (List.find (refers ref) (er_ResourceUses root)) as [u|] eqn:Ef.
    2: { split; [done|]. intros (Hn & _). inversion Hn as [|? u ? us' Hu Hn']. subst. by apply find_refers in Hu; [congruence|]. }
    apply find_refers in Ef; [|done]. destruct (resolve root capability (Some u) refs) as [[[us' c5] c6] c7] eqn:Er.
    split.
    + intros E. assert (us = u :: us' /\ c5 = true /\ c6 = true /\ c7 = true /\ ru_CapabilityID u = capability /\
        match prev with Some p => linked root p u = true | None => True end) as (-> & -> & -> & -> & Hc & Hl).
      { destruct prev; injection E as <- -> Hc6 Hc7; bools; split_and!; try done; by apply andb_true_iff in Hc6 as [? ?]. }
      destruct (proj1 (IH (Some u) us') Er) as (Hn & Hch & Hcap). split_and!; [by constructor| |by constructor].
      destruct prev as [p|]; [|exact Hch]. split; [by apply linked_iff|exact Hch].
    + intros (Hn & Hch & Hcap). inversion Hn as [|? v ? us'' Hv Hn']. subst.
      assert (v = u) as -> by (destruct Ef, Hv; by eapply refers_unique). apply Forall_cons in Hcap as [Hc Hcap].
      assert (chained root (option_list (Some u) ++ us'') /\ match prev with Some p => linked root p u = true | None => True end) as [Hch' Hl].
      { destruct prev as [p|]; [|by split]. destruct Hch as [Hl Hch]. split; [exact Hch|by apply linked_iff]. }
      rewrite (proj2 (IH (Some u) us'')) in Er by done. injection Er as <- <- <- <-.
      destruct prev; rewrite ?Hl; by subst; rewrite str_eqb_refl.
Qed.

(** The sum never wraps: it is the true one, or the loop has stopped. *)
Lemma add_up_total us ss ts sum : Forall (fun u => 0 < ru_Units u <= maxInt) us -> 0 <= sum <= maxInt ->
  (add_up us ss ts sum).2 = bool_decide (maxInt < sum + total us) /\
  (sum + total us <= maxInt -> (add_up us ss ts sum).1.2 = sum + total us).
Proof.
  intros Hpos. revert ss ts sum. induction Hpos as [|u us Hu Hpos IH]; intros ss ts sum Hs; cbn [add_up total foldr].
  - cbn. rewrite bool_decide_eq_false_2 by lia. split; [done|lia].
  - fold (total us). assert (0 <= total us) as Ht.
    { clear -Hpos. induction Hpos as [|u us Hu Hpos IH]; cbn; [lia|]. fold (total us). lia. }
    destruct (0 <? ru_Units u) eqn:E1; bools; [|lia]. cbn [andb]. rewrite (wrap64_id (maxInt - ru_Units u)) by (unfold maxInt in *; lia). destruct (maxInt - ru_Units u <? sum) eqn:E2; bools.
    + cbn. rewrite bool_decide_eq_true_2 by lia. split; [done|lia].
    + rewrite wrap64_id by (unfold maxInt in *; lia). destruct (IH ({[ru_ServerID u]} ∪ ss) ({[(ru_ServerID u, ru_ToolName u)]} ∪ ts) (sum + ru_Units u) ltac:(lia)) as [-> Hsum].
      split; [by rewrite Z.add_assoc|]. intros. rewrite Hsum by lia. lia.
Qed.

(** The roots the evaluator takes. *)
Lemma structuralOK_uses r : structuralOK r = true ->
  NoDup (ru_UseID <$> er_ResourceUses r) /\ Forall (fun u => 0 < ru_Units u) (er_ResourceUses r) /\ NoDup (cc_CapabilityID <$> er_CapabilityCeilings r) /\ Forall (fun c => 0 < cc_MaxUnits c) (er_CapabilityCeilings r).
Proof.
  unfold structuralOK. destruct (_ || _); [done|]. rewrite !andb_true_iff, !unique_by_spec. intros [[[Hc Hcn] [Hu Hun]] _].
  split_and!; try done; (eapply Forall_impl; [eassumption|]); cbn; intros x Hx; bools; lia.
Qed.

(** The numbers of a root are [int]s. *)
Definition machine_ints (root : EvaluationRoot) : Prop :=
  Forall (fun c => cc_MaxUnits c <= maxInt) (er_CapabilityCeilings root) /\ Forall (fun u => ru_Units u <= maxInt) (er_ResourceUses root).
Lemma named_units root refs us : machine_ints root -> Forall (fun u => 0 < ru_Units u) (er_ResourceUses root) -> named_by root refs us ->
  Forall (fun u => 0 < ru_Units u <= maxInt) us.
Proof.
  intros [_ Hint] Hpos Hn. rewrite List.Forall_forall in Hpos, Hint. induction Hn as [|ref u refs us [Hu _] Hn IH]; [constructor|].
  constructor; [split|]; auto.
Qed.

(** C31.  An action is allowed exactly when it is a trajectory of registered uses of
    its capability, each linked to the next by a declared edge, whose units,
    summed over all tools and servers as numbers and not as [int]s that wrap
    around, are within the capability's declared ceiling. *)
Theorem correlation_allow_iff (root : EvaluationRoot) (action : ProposedAction)
    (Hint : machine_ints root) :
  de_Verdict (Authorize root action) = VerdictAllow <->
  structuralOK root = true /\ pa_ActionID action <> "" /\ pa_CapabilityID action <> "" /\ pa_Uses action <> [] /\ er_CorrelationEnabled root = true /\
  exists us c, named_by root (pa_Uses action) us /\ chained root us /\
  Forall (fun u => ru_CapabilityID u = pa_CapabilityID action) us /\
  In c (er_CapabilityCeilings root) /\ cc_CapabilityID c = pa_CapabilityID action /\ total us <= cc_MaxUnits c.
Proof.
  unfold Authorize. destruct (first_failure _) eqn:Ef.
  { split; [done|]. intros (H1' & H2' & H3' & H4' & _). exfalso. cbn in Ef.
    rewrite H1', (proj2 (str_neqb_true _ _) H2'), (proj2 (str_neqb_true _ _) H3'), bool_decide_eq_false_2 in Ef by done. done. }
  apply first_failure_None in Ef. repeat setoid_rewrite Forall_cons in Ef. cbn [fst] in Ef.
  destruct Ef as (Hok & Ha & Hc & Hu & _). rewrite negb_true_iff, bool_decide_eq_false in Hu. apply str_neqb_true in Ha, Hc.
  destruct (er_CorrelationEnabled root); cbn [negb]; [|naive_solver].
  pose proof (structuralOK_uses root Hok) as (Hnd & Hpos & Hcnd & Hcpos).
  unfold evaluate_enabled. destruct (resolve root (pa_CapabilityID action) None (pa_Uses action)) as [[[us c5] c6] c7] eqn:Er.
  set (found := List.find (fun c => cc_CapabilityID c =s? pa_CapabilityID action) (er_CapabilityCeilings root)).
  assert (forall c, found = Some c <-> In c (er_CapabilityCeilings root) /\ cc_CapabilityID c = pa_CapabilityID action) as Hfound
    by (intros c; by apply find_key).
  destruct (if c5 then add_up us ∅ ∅ 0 else _) as [[[ss ts] sum] over] eqn:Es. cbn [de_Verdict].
  set (within := negb over && _). rewrite pick_allow.
  rewrite !andb_true_iff, bool_decide_eq_true. split.
  - intros [[[[-> ->] ->] [c Hf]] Hw]. apply resolve_spec in Er as (Hn & Hch & Hcap); [|done]. do 5 (split; [done|]).
    exists us, c. apply Hfound in Hf as Hc'. destruct Hc' as [Hc1 Hc2]. split_and!; try done.
    destruct (add_up_total us ∅ ∅ 0 (named_units root _ us Hint Hpos Hn) ltac:(unfold maxInt; lia)) as [Ho Hsum]. rewrite Es in Ho, Hsum. cbn in Ho, Hsum.
    unfold within in Hw. rewrite Hf, andb_true_iff, negb_true_iff, Z.leb_le in Hw. destruct Hw as [Hover Hle].
    rewrite Ho, bool_decide_eq_false in Hover. lia.
  - intros (_ & _ & _ & _ & _ & us' & c & Hn & Hch & Hcap & Hc' & Hid & Hle).
    rewrite (proj2 (resolve_spec root _ _ None us' Hnd)) in Er by done. injection Er as <- <- <- <-.
    assert (found = Some c) as Hf by (by apply Hfound). split_and!; try done.
    pose proof (proj1 Hint) as Hceil. rewrite List.Forall_forall in Hceil. specialize (Hceil c Hc').
    destruct (add_up_total us' ∅ ∅ 0 (named_units root _ us' Hint Hpos Hn) ltac:(unfold maxInt; lia)) as [Ho Hsum]. rewrite Es in Ho, Hsum. cbn in Ho, Hsum.
    unfold within. rewrite Hf, Ho, bool_decide_eq_false_2 by lia. cbn [negb andb]. rewrite Z.leb_le. lia.
Qed.

Module CorrelationWitness.
Definition use (i server tool : string) (units : Z) : ResourceUse :=
  {| ru_UseID := i; ru_ServerID := server; ru_ToolName := tool; ru_CapabilityID := "read"; ru_Units := units |}.
Definition root : EvaluationRoot := {|
  er_SchemaVersion := 1; er_CapabilityCeilings := [{| cc_CapabilityID := "read"; cc_MaxUnits := 3 |}];
  er_ResourceUses := [use "g" "github" "search" 1; use "d" "drive" "search" 2; use "n" "notion" "search" 1];
  er_CorrelationEdges := [{| ce_FromUseID := "g"; ce_ToUseID := "d" |}; {| ce_FromUseID := "d"; ce_ToUseID := "n" |}];
  er_CorrelationEnabled := true |}.
Definition act (uses : list UseReference) : ProposedAction := {|
  pa_ActionID := "a"; pa_CapabilityID := "read"; pa_Uses := uses; pa_ClaimedPerToolAllow := true; pa_ClaimedServerHopInnocent := true;
  pa_ClaimedAuthorized := true; pa_ClaimedRemainingQuota := 9 |}.
Definition ref (u : ResourceUse) : UseReference := {| ur_UseID := ru_UseID u; ur_ServerID := ru_ServerID u; ur_ToolName := ru_ToolName u |}.
(** Two servers are within the ceiling, the sweep over three is not. *)
Example sweep : (fun n => de_Reason (Authorize root (act (take n (ref <$> er_ResourceUses root))))) <$> [2%nat; 3%nat] =
  ["authorized"; "correlated capability ceiling exceeded"].
Proof. vm_compute. reflexivity. Qed.
(** Two uses whose units wrap around to less than nothing are refused. *)
Definition large : EvaluationRoot := {|
  er_SchemaVersion := 1; er_CapabilityCeilings := er_CapabilityCeilings root;
  er_ResourceUses := [use "g" "github" "search" maxInt; use "d" "drive" "search" 2];
  er_CorrelationEdges := [{| ce_FromUseID := "g"; ce_ToUseID := "d" |}]; er_CorrelationEnabled := true |}.
Example wrapped : wrap64 (maxInt + 2) <= 3 /\ de_Reason (Authorize large (act (ref <$> er_ResourceUses large))) =
  "correlated capability ceiling exceeded".
Proof. split; [vm_compute; discriminate|vm_compute; reflexivity]. Qed.
End CorrelationWitness.
Lemma correlation_allow_iff_witness :
  exists us, total us <= 3 /\ named_by CorrelationWitness.root (take 2 (CorrelationWitness.ref <$> er_ResourceUses CorrelationWitness.root)) us.
Proof.
  destruct (proj1 (correlation_allow_iff CorrelationWitness.root
      (CorrelationWitness.act (take 2 (CorrelationWitness.ref <$> er_ResourceUses CorrelationWitness.root)))
      ltac:(split; repeat constructor; vm_compute; discriminate)) ltac:(vm_compute; reflexivity))
    as (_ & _ & _ & _ & _ & us & c & Hn & _ & _ & Hc & _ & Hle).
  exists us. split; [|exact Hn]. destruct Hc as [<-|[]]. exact Hle.
Defined.
