(* ===== verification/CompositionGraph.v ===== *)
(** Capability composition, [internal/compositiongraph]: a path through the
    declared edges of installed skills, judged as one flow.  [Decision] is
    without the fields that repeat the root's and the action's. *)
From stdpp Require Import base strings gmap list.
From Stdlib Require Import ZArith Lia.
From S2P Require Import Prelude Evaluators.
#[local] Open Scope Z_scope.

Definition SchemaVersion : Z := 1.
Definition EffectRead : string := "READ".
Definition EffectTransform : string := "TRANSFORM".
Definition EffectSend : string := "SEND".

Record CapabilityMandate := {
  cm_MandateID : string;
  cm_AllowedEffects : list string;
  cm_AllowedDestinations : list string;
  cm_AllowedArtifactClasses : list string
}.
Record CapabilityEdge := {
  ed_EdgeID : string;
  ed_FromArtifactClass : string;
  ed_ToArtifactClass : string;
  ed_EffectClass : string;
  ed_Destination : string
}.
Record InstalledSkill := { is_SkillID : string; is_Edges : list CapabilityEdge }.
Record StepReference := { sr_SkillID : string; sr_EdgeID : string }.
Record EvaluationRoot := {
  er_SchemaVersion : Z;
  er_Mandate : CapabilityMandate;
  er_InstalledSkills : list InstalledSkill;
  er_CompositionEnabled : bool
}.
Record ProposedAction := {
  pa_ActionID : string;
  pa_StartArtifactClass : string;
  pa_FinalArtifactClass : string;
  pa_Destination : string;
  pa_Steps : list StepReference;
  pa_ClaimedSignaturesValid : bool;
  pa_ClaimedIndividualAllow : bool;
  pa_ClaimedCompositionValid : bool;
  pa_ClaimedAuthorized : bool
}.
Record Decision := {
  de_Verdict : string;
  de_Proof : string;
  de_Reason : string;
  de_GraphStatus : string;
  de_PathContinuity : string;
  de_EffectAuthority : string;
  de_DestinationAuthority : string;
  de_ArtifactAuthority : string;
  de_CompositionStatus : string
}.
Definition uniform (status proof reason : string) : Decision := {|
  de_Verdict := VerdictDeny; de_Proof := proof; de_Reason := reason; de_GraphStatus := status; de_PathContinuity := status;
  de_EffectAuthority := status; de_DestinationAuthority := status; de_ArtifactAuthority := status; de_CompositionStatus := status |}.

Definition uniq (xs : list string) : bool := uniqueFilled xs && negb (bool_decide (xs = [])).
Definition okEff (e : string) : bool := (e =s? EffectRead) || (e =s? EffectTransform) || (e =s? EffectSend).
Definition edge_ok (e : CapabilityEdge) : bool :=
  negb ((ed_EdgeID e =s? "") || (ed_FromArtifactClass e =s? "") || (ed_ToArtifactClass e =s? "") || negb (okEff (ed_EffectClass e)) ||
        negb (eqb (ed_EffectClass e =s? EffectSend) (ed_Destination e <>s? ""))).
(** [eids] is shared by the skills: an edge is declared once over all. *)
Definition structuralOK (r : EvaluationRoot) : bool :=
  let m := er_Mandate r in
  if negb (er_SchemaVersion r =? SchemaVersion) || (cm_MandateID m =s? "") || negb (uniq (cm_AllowedEffects m)) ||
     negb (uniq (cm_AllowedDestinations m)) || negb (uniq (cm_AllowedArtifactClasses m)) || bool_decide (er_InstalledSkills r = [])
  then false
  else
    forallb okEff (cm_AllowedEffects m) &&
    unique_by (fun s => negb ((is_SkillID s =s? "") || bool_decide (is_Edges s = []))) is_SkillID ∅ (er_InstalledSkills r) &&
    unique_by edge_ok ed_EdgeID ∅ (flat_map is_Edges (er_InstalledSkills r)).

(** The edges, and which step failed: no skill or no edge. *)
Fixpoint resolve (skills : list InstalledSkill) (steps : list StepReference) : list CapabilityEdge * bool * bool :=
  match steps with
  | [] => ([], false, false)
  | st :: steps =>
      match List.find (fun s => is_SkillID s =s? sr_SkillID st) skills with
      | None => ([], true, false)
      | Some s =>
          match List.find (fun e => ed_EdgeID e =s? sr_EdgeID st) (is_Edges s) with
          | None => ([], false, true)
          | Some e => let '(edges, missSk, missEd) := resolve skills steps in (e :: edges, missSk, missEd)
          end
      end
  end.
(** The loop of [inspect] from the second edge on: [c9], [c11], [c12] and
    [early], and the last edge. *)
Fixpoint inspect_rest (allowedE allowedA : list string) (prev : CapabilityEdge) (edges : list CapabilityEdge)
    : bool * bool * bool * bool * CapabilityEdge :=
  match edges with
  | [] => (true, true, true, false, prev)
  | e :: edges =>
      let '(c9, c11, c12, early, last) := inspect_rest allowedE allowedA e edges in
      ((ed_ToArtifactClass prev =s? ed_FromArtifactClass e) && c9, has allowedE (ed_EffectClass e) && c11,
       has allowedA (ed_ToArtifactClass e) && c12, (ed_Destination prev <>s? "") || early, last)
  end.
Definition inspect (start final dest : string) (allowedE allowedA : list string) (edges : list CapabilityEdge) : bool * bool * bool * bool :=
  match edges with
  | [] => (false, false, false, false)
  | e :: edges =>
      let '(c9, c11, c12, early, last) := inspect_rest allowedE allowedA e edges in
      ((ed_FromArtifactClass e =s? start) && c9,
       (ed_ToArtifactClass last =s? final) && (ed_Destination last =s? dest) && negb early,
       has allowedE (ed_EffectClass e) && c11,
       has allowedA (ed_FromArtifactClass e) && has allowedA (ed_ToArtifactClass e) && c12)
  end.
Definition evaluate_enabled (root : EvaluationRoot) (action : ProposedAction) : Decision :=
  let m := er_Mandate root in
  let '(edges, missSk, missEd) := resolve (er_InstalledSkills root) (pa_Steps action) in
  let resolved := negb missSk && negb missEd && (length edges =? length (pa_Steps action))%nat in
  let '(c9, c10, c11, c12) := inspect (pa_StartArtifactClass action) (pa_FinalArtifactClass action) (pa_Destination action)
                                (cm_AllowedEffects m) (cm_AllowedArtifactClasses m) edges in
  let c13 := has (cm_AllowedDestinations m) (pa_Destination action) in
  let '(c9, c10, c11, c12) := if resolved then (c9, c10, c11, c12) else (false, false, false, false) in
  let ok := resolved && c9 && c10 && c11 && c12 && c13 in
  {| de_Verdict := pick ok VerdictAllow VerdictDeny; de_Proof := pick ok ProofValid ProofInvalid;
     de_Reason := if ok then "authorized" else if missSk then "referenced skill absent" else if missEd then "declared capability edge absent"
                  else if negb c9 then "capability path not contiguous" else if negb c10 then "capability path endpoint mismatch"
                  else if negb c11 then "composed effect outside mandate" else if negb c12 then "composed artifact trajectory outside mandate"
                  else "composition destination outside mandate";
     de_GraphStatus := pick resolved "PRESENT" "ABSENT";
     de_PathContinuity := pick (resolved && c9 && c10) "VALID" "INVALID";
     de_EffectAuthority := if resolved then pick c11 "PRESENT" "ABSENT" else "INVALID";
     de_DestinationAuthority := pick c13 "PRESENT" "ABSENT";
     de_ArtifactAuthority := if resolved then pick c12 "PRESENT" "ABSENT" else "INVALID";
     de_CompositionStatus := pick ok "VALID" "INVALID" |}.
Definition Authorize (root : EvaluationRoot) (action : ProposedAction) : Decision :=
  match first_failure [
    (structuralOK root, "invalid evaluation root"); (pa_ActionID action <>s? "", "action identifier absent");
    (pa_StartArtifactClass action <>s? "", "start artifact class absent"); (pa_FinalArtifactClass action <>s? "", "final artifact class absent");
    (pa_Destination action <>s? "", "destination absent"); (negb (bool_decide (pa_Steps action = [])), "capability path absent")] with
  | Some reason => uniform "INVALID" ProofInvalid reason
  | None => if negb (er_CompositionEnabled root) then uniform "DISABLED" ProofDisabled "capability composition disabled"
            else evaluate_enabled root action
  end.
Definition pathStr (steps : list StepReference) : string :=
  String.concat ">" ((fun st => sr_SkillID st +:+ "/" +:+ sr_EdgeID st) <$> steps).
(** The lines of [d.Evidence]. *)
Definition Evidence (root : EvaluationRoot) (action : ProposedAction) (d : Decision) : list string :=
  ["Composition root mandate=" +:+ cm_MandateID (er_Mandate root) +:+ " skills=" +:+ Itoa (Z.of_nat (length (er_InstalledSkills root))) +:+
     " edges=" +:+ Itoa (Z.of_nat (length (flat_map is_Edges (er_InstalledSkills root))));
   "Requested flow " +:+ pa_StartArtifactClass action +:+ "|" +:+ pa_FinalArtifactClass action +:+ " destination=" +:+ pa_Destination action;
   "Declared path " +:+ pathStr (pa_Steps action);
   "Claims signatures=" +:+ FormatBool (pa_ClaimedSignaturesValid action) +:+ " individual_allow=" +:+ FormatBool (pa_ClaimedIndividualAllow action) +:+
     " composition_valid=" +:+ FormatBool (pa_ClaimedCompositionValid action) +:+ " authorized=" +:+ FormatBool (pa_ClaimedAuthorized action);
   "Authority graph=" +:+ de_GraphStatus d +:+ " continuity=" +:+ de_PathContinuity d +:+ " effects=" +:+ de_EffectAuthority d +:+
     " destination=" +:+ de_DestinationAuthority d +:+ " artifacts=" +:+ de_ArtifactAuthority d +:+ " composition=" +:+ de_CompositionStatus d;
   "Capability Composition Proof " +:+ de_Proof d; "reason " +:+ de_Reason d;
   pick (de_Verdict d =s? VerdictAllow) "ACTION ALLOWED" "ACTION DENIED"].

(** ** Properties *)

(** [edges] are the declared edges the steps name, in order. *)
Definition declared (root : EvaluationRoot) (steps : list StepReference) (edges : list CapabilityEdge) : Prop :=
  Forall2 (fun st e => exists s, In s (er_InstalledSkills root) /\ is_SkillID s = sr_SkillID st /\ In e (is_Edges s) /\ ed_EdgeID e = sr_EdgeID st)
    steps edges.
(** A flow of artifacts from class to class that sends once, at its end. *)
Inductive flow (dest : string) : string -> string -> list CapabilityEdge -> Prop :=
| flow_send e : ed_Destination e = dest -> flow dest (ed_FromArtifactClass e) (ed_ToArtifactClass e) [e]
| flow_step e final edges : ed_Destination e = "" -> flow dest (ed_ToArtifactClass e) final edges ->
    flow dest (ed_FromArtifactClass e) final (e :: edges).

Lemma steps_resolved root steps edges : NoDup (is_SkillID <$> er_InstalledSkills root) ->
  Forall (fun s => NoDup (ed_EdgeID <$> is_Edges s)) (er_InstalledSkills root) ->
  resolve (er_InstalledSkills root) steps = (edges, false, false) <-> declared root steps edges.
Proof.
  intros Hs He. rewrite List.Forall_forall in He. revert edges. induction steps as [|st steps IH]; intros edges; cbn [resolve].
  - split; [intros [= <-]; constructor|]. inversion 1. done.
  - destruct (List.find _ (er_InstalledSkills root)) as [s|] eqn:Ef.
    2: { split; [done|]. inversion 1 as [|? e ? ? (s & Hin & Hid & _) Hd]; subst.
         assert (List.find (fun s => is_SkillID s =s? sr_SkillID st) (er_InstalledSkills root) = Some s) by (by apply find_key). congruence. }
    apply find_key in Ef as [Hin Hid]; [|done]. destruct (List.find _ (is_Edges s)) as [e|] eqn:Ee.
    2: { split; [done|]. inversion 1 as [|? e ? ? (s' & Hin' & Hid' & Hine & Hide) Hd]; subst.
         assert (s' = s) as -> by (eapply NoDup_fmap_inj; [exact Hs|done..|congruence]).
         assert (List.find (fun e => ed_EdgeID e =s? sr_EdgeID st) (is_Edges s) = Some e) by (apply find_key; [by apply He|done]). congruence. }
    apply find_key in Ee as [Hine Hide]; [|by apply He]. destruct (resolve _ steps) as [[edges' sk] ee] eqn:Er. split.
    + intros [= <- -> ->]. constructor; [by exists s|]. by apply IH.
    + inversion 1 as [|? e' ? edges'' (s' & Hin' & Hid' & Hine' & Hide') Hd]; subst.
      assert (s' = s) as -> by (eapply NoDup_fmap_inj; [exact Hs|done..|congruence]).
      assert (e' = e) as -> by (eapply NoDup_fmap_inj; [by apply He|done..|congruence]).
      apply IH in Hd. by simplify_eq.
Qed.
Lemma flow_from dest a final e edges : flow dest a final (e :: edges) -> a = ed_FromArtifactClass e.
Proof. by inversion 1. Qed.
Lemma inspect_rest_spec dest final allowedE allowedA prev edges : forall c9 c11 c12 early last,
  inspect_rest allowedE allowedA prev edges = (c9, c11, c12, early, last) ->
  (c9 = true /\ early = false /\ ed_ToArtifactClass last = final /\ ed_Destination last = dest <->
   flow dest (ed_FromArtifactClass prev) final (prev :: edges)) /\
  (c11 = true <-> Forall (fun e => In (ed_EffectClass e) allowedE) edges) /\
  (c12 = true <-> Forall (fun e => In (ed_ToArtifactClass e) allowedA) edges).
Proof.
  revert prev. induction edges as [|e edges IH]; intros prev c9 c11 c12 early last; cbn [inspect_rest].
  - intros [= <- <- <- <- <-]. split_and!; [|by split; [constructor|]..]. split.
    + intros (_ & _ & <- & Hd). by constructor.
    + inversion 1; subst; [done|]. match goal with Hf : flow _ _ _ [] |- _ => inversion Hf end.
  - destruct (inspect_rest allowedE allowedA e edges) as [[[[d9 d11] d12] dearly] dlast] eqn:Er. intros [= <- <- <- <- <-].
    destruct (IH e _ _ _ _ _ Er) as (H9 & H11 & H12). rewrite !andb_true_iff, !has_In, !Forall_cons, H11, H12. split_and!; try done.
    rewrite orb_false_iff, str_eqb_true, str_neqb_false. split.
    + intros ([Ec ->] & [Hd ->] & Hf & Hl). apply flow_step; [done|]. rewrite Ec. by apply H9.
    + inversion 1 as [|? ? ? Hd Hf]; subst. pose proof (flow_from _ _ _ _ _ Hf) as Ec. rewrite Ec in Hf.
      by apply H9 in Hf as (-> & -> & -> & ->).
Qed.
Lemma inspect_spec start final dest allowedE allowedA edges c9 c10 c11 c12 :
  inspect start final dest allowedE allowedA edges = (c9, c10, c11, c12) -> edges <> [] ->
  (c9 && c10 && c11 && c12 = true <->
   flow dest start final edges /\ Forall (fun e => In (ed_EffectClass e) allowedE) edges /\
   In start allowedA /\ Forall (fun e => In (ed_ToArtifactClass e) allowedA) edges).
Proof.
  destruct edges as [|e edges]; [done|]. cbn [inspect]. destruct (inspect_rest allowedE allowedA e edges) as [[[[d9 d11] d12] early] last] eqn:Er.
  intros [= <- <- <- <-] _. destruct (inspect_rest_spec dest final _ _ _ _ _ _ _ _ _ Er) as (H9 & H11 & H12).
  rewrite !andb_true_iff, negb_true_iff, !str_eqb_true, !has_In, !Forall_cons, H11, H12. split.
  - intros ((([<- Hd9] & [[Hl Hd] Hearly]) & Hef) & [Hfrom Hto] & Hrest). split; [by apply H9|]. tauto.
  - intros (Hf & Hef & Hstart & Hto & Hrest). pose proof (flow_from _ _ _ _ _ Hf) as ->. apply H9 in Hf. tauto.
Qed.
Lemma structuralOK_ids r : structuralOK r = true ->
  NoDup (is_SkillID <$> er_InstalledSkills r) /\ Forall (fun s => NoDup (ed_EdgeID <$> is_Edges s)) (er_InstalledSkills r).
Proof.
  unfold structuralOK. destruct (_ || _); [done|]. rewrite !andb_true_iff, !unique_by_spec. intros [[_ [_ Hs]] [_ He]]. split; [done|].
  clear Hs. induction (er_InstalledSkills r) as [|s l IH]; [constructor|]. cbn [flat_map] in He. rewrite fmap_app, NoDup_app in He.
  destruct He as (He & _ & Hl). constructor; auto.
Qed.

(** C32.  An action is allowed exactly when its steps name declared edges of
    installed skills that, one after the other, lead from its first artifact
    class to its last and send once, at the end, to its destination, and every
    effect, artifact class and the destination are in the mandate: the path is
    judged as a whole, whatever each step alone may do. *)
Theorem composition_allow_iff (root : EvaluationRoot) (action : ProposedAction) :
  de_Verdict (Authorize root action) = VerdictAllow <->
  structuralOK root = true /\ pa_ActionID action <> "" /\ pa_StartArtifactClass action <> "" /\ pa_FinalArtifactClass action <> "" /\
  pa_Destination action <> "" /\ er_CompositionEnabled root = true /\ In (pa_Destination action) (cm_AllowedDestinations (er_Mandate root)) /\
  exists edges, declared root (pa_Steps action) edges /\
    flow (pa_Destination action) (pa_StartArtifactClass action) (pa_FinalArtifactClass action) edges /\
    Forall (fun e => In (ed_EffectClass e) (cm_AllowedEffects (er_Mandate root))) edges /\
    In (pa_StartArtifactClass action) (cm_AllowedArtifactClasses (er_Mandate root)) /\
    Forall (fun e => In (ed_ToArtifactClass e) (cm_AllowedArtifactClasses (er_Mandate root))) edges.
Proof.
  unfold Authorize. destruct (first_failure _) eqn:Ef.
  { split; [done|]. intros (H1' & H2' & H3' & H4' & H5' & _ & _ & edges & Hd & Hf & _). exfalso. cbn in Ef.
    rewrite H1' in Ef. rewrite <- str_neqb_true in H2', H3', H4', H5'. rewrite H2', H3', H4', H5', bool_decide_eq_false_2 in Ef; [done|].
    intros E. rewrite E in Hd. inversion Hd; subst. inversion Hf. }
  apply first_failure_None in Ef. repeat setoid_rewrite Forall_cons in Ef. cbn [fst] in Ef.
  destruct Ef as (Hok & Ha & Hs & Hf & Hd & Hst & _). rewrite negb_true_iff, bool_decide_eq_false in Hst.
  destruct (er_CompositionEnabled root); cbn [negb]; [|naive_solver].
  pose proof (structuralOK_ids root Hok) as [Hsn Hen]. unfold evaluate_enabled.
  destruct (resolve _ _) as [[edges sk] ee] eqn:Er. destruct (inspect _ _ _ _ _ edges) as [[[c9 c10] c11] c12] eqn:Ei.
  destruct (if negb sk && negb ee && _ then _ else _) as [[[d9 d10] d11] d12] eqn:Ed. cbn [de_Verdict].
  rewrite pick_allow.
  rewrite !str_neqb_true in *. split.
  - rewrite !andb_true_iff, !negb_true_iff, has_In. intros ((((([[-> ->] Hlen] & ->) & ->) & ->) & ->) & Hdest). cbn [negb andb] in Ed.
    rewrite Hlen in Ed. injection Ed as -> -> -> ->. do 7 (split; [done|]). exists edges. apply steps_resolved in Er; [|done..].
    split; [done|]. apply (inspect_spec _ _ _ _ _ _ _ _ _ _ Ei); [|done]. intros ->. by inversion Er; subst.
  - intros (_ & _ & _ & _ & _ & _ & Hdest & edges' & Hdec & Hflow). pose proof (Forall2_length _ _ _ Hdec) as Hlen.
    rewrite (proj2 (steps_resolved root _ edges' Hsn Hen) Hdec) in Er. injection Er as <- <- <-. cbn [negb andb] in *.
    rewrite (proj2 (Nat.eqb_eq _ _) (eq_sym Hlen)) in *. injection Ed as <- <- <- <-. cbn [andb].
    rewrite (proj2 (inspect_spec _ _ _ _ _ _ _ _ _ _ Ei ltac:(by intros ->; inversion Hdec; subst)) Hflow). by apply has_In.
Qed.

Module CompositionWitness.
Definition edge (i a b eff dest : string) : CapabilityEdge :=
  {| ed_EdgeID := i; ed_FromArtifactClass := a; ed_ToArtifactClass := b; ed_EffectClass := eff; ed_Destination := dest |}.
Definition root : EvaluationRoot := {|
  er_SchemaVersion := 1;
  er_Mandate := {| cm_MandateID := "m"; cm_AllowedEffects := ["READ"; "SEND"]; cm_AllowedDestinations := ["ext"];
                   cm_AllowedArtifactClasses := ["source"; "report"; "delivery"] |};
  er_InstalledSkills := [{| is_SkillID := "reader"; is_Edges := [edge "r" "source" "report" "READ" ""; edge "c" "source" "credential" "READ" ""] |};
                         {| is_SkillID := "sender"; is_Edges := [edge "s" "report" "delivery" "SEND" "ext"; edge "t" "credential" "delivery" "SEND" "ext"] |}];
  er_CompositionEnabled := true |}.
Definition act (steps : list (string * string)) : ProposedAction := {|
  pa_ActionID := "a"; pa_StartArtifactClass := "source"; pa_FinalArtifactClass := "delivery"; pa_Destination := "ext";
  pa_Steps := (fun p => {| sr_SkillID := p.1; sr_EdgeID := p.2 |}) <$> steps; pa_ClaimedSignaturesValid := true;
  pa_ClaimedIndividualAllow := true; pa_ClaimedCompositionValid := true; pa_ClaimedAuthorized := true |}.
(** Through the credential each step is declared and the whole is refused. *)
Example composed : (fun steps => de_Reason (Authorize root (act steps))) <$>
    [[("reader", "r"); ("sender", "s")]; [("reader", "c"); ("sender", "t")]; [("reader", "r"); ("sender", "t")]] =
  ["authorized"; "composed artifact trajectory outside mandate"; "capability path not contiguous"].
Proof. vm_compute. reflexivity. Qed.
End CompositionWitness.
