(* ===== verification/AuthState.v ===== *)
(** Authorization-state fidelity, [internal/authstatefidelity]: what is
    authorized is recomputed from the log of grants and revocations, not read
    from anybody's memory of it.  [Decision] is without the fields that repeat
    the root's and the action's. *)
From stdpp Require Import base strings gmap list sorting.
From Stdlib Require Import ZArith Lia.
From S2P Require Import Prelude GoStrings Evaluators.
#[local] Open Scope Z_scope.

Definition SchemaVersion : Z := 1.
Definition EventGrant : string := "GRANT".
Definition EventRevoke : string := "REVOKE".

Record GrantPrincipal := { gp_PrincipalID : string; gp_GrantablePermissions : list string }.
Record AuthorizationEvent := {
  ev_EventID : string;
  ev_Kind : string;
  ev_PrincipalID : string;
  ev_SubjectID : string;
  ev_Permission : string;
  ev_GrantEventID : string;
  ev_Tick : Z
}.
Record EvaluationRoot := {
  er_SchemaVersion : Z;
  er_EventLog : list AuthorizationEvent;
  er_GrantPrincipals : list GrantPrincipal;
  er_CurrentTick : Z;
  er_AuthorizationStateEnabled : bool
}.
Record ProposedAction := {
  pa_ActionID : string;
  pa_SubjectID : string;
  pa_Permission : string;
  pa_CitedGrantEventID : string;
  pa_ClaimedMemoryPermission : bool;
  pa_ClaimedGrantPrincipalID : string;
  pa_ClaimedGrantValid : bool;
  pa_ClaimedProofValid : bool;
  pa_ClaimedExactStateValid : bool;
  pa_ClaimedAuthorized : bool
}.
Record AuthorizationBinding := {
  ab_SubjectID : string;
  ab_Permission : string;
  ab_SourceEventID : string;
  ab_PrincipalID : string;
  ab_GrantTick : Z
}.
Record Decision := {
  de_SourcePrincipalID : string;
  de_Verdict : string;
  de_Proof : string;
  de_Reason : string;
  de_SourceEventStatus : string;
  de_PrincipalAuthority : string;
  de_ExactState : string
}.
Definition uniform (principal status proof reason : string) : Decision := {|
  de_SourcePrincipalID := principal; de_Verdict := VerdictDeny; de_Proof := proof; de_Reason := reason;
  de_SourceEventStatus := status; de_PrincipalAuthority := status; de_ExactState := status |}.

Definition canGrant (root : EvaluationRoot) (principal perm : string) : bool :=
  existsb (fun gp => (gp_PrincipalID gp =s? principal) && has (gp_GrantablePermissions gp) perm) (er_GrantPrincipals root).

(** [last] is the tick of the event before. *)
Fixpoint events_ok (eids : gset string) (last : Z) (log : list AuthorizationEvent) : bool :=
  match log with
  | [] => true
  | e :: log =>
      if (ev_EventID e =s? "") || (ev_PrincipalID e =s? "") || (ev_SubjectID e =s? "") || (ev_Permission e =s? "") ||
         (ev_Tick e <? 0) || (ev_Tick e <? last) then false
      else if bool_decide (ev_EventID e ∈ eids) then false
      else if ((ev_Kind e <>s? EventGrant) || (ev_GrantEventID e <>s? "")) && ((ev_Kind e <>s? EventRevoke) || (ev_GrantEventID e =s? ""))
      then false
      else events_ok ({[ev_EventID e]} ∪ eids) (ev_Tick e) log
  end.
Definition structuralOK (r : EvaluationRoot) : bool :=
  if negb (er_SchemaVersion r =? SchemaVersion) || (er_CurrentTick r <? 0) || bool_decide (er_EventLog r = []) ||
     bool_decide (er_GrantPrincipals r = []) then false
  else
    events_ok ∅ (-1) (er_EventLog r) &&
    unique_by (fun gp => gp_PrincipalID gp <>s? "") gp_PrincipalID ∅ (er_GrantPrincipals r) &&
    forallb (fun gp => uniqueFilled (gp_GrantablePermissions gp)) (er_GrantPrincipals r).

(** A turn of the loop of [reduce]. *)
Definition apply_event (root : EvaluationRoot) (active : gmap string AuthorizationBinding) (e : AuthorizationEvent)
    : gmap string AuthorizationBinding :=
  if er_CurrentTick root <? ev_Tick e then active
  else if ev_Kind e =s? EventGrant then
    if canGrant root (ev_PrincipalID e) (ev_Permission e)
    then <[ev_EventID e := {| ab_SubjectID := ev_SubjectID e; ab_Permission := ev_Permission e; ab_SourceEventID := ev_EventID e;
                              ab_PrincipalID := ev_PrincipalID e; ab_GrantTick := ev_Tick e |}]> active
    else active
  else match active !! ev_GrantEventID e with
  | Some g =>
      if (ab_PrincipalID g =s? ev_PrincipalID e) && (ab_SubjectID g =s? ev_SubjectID e) && (ab_Permission g =s? ev_Permission e) &&
         canGrant root (ev_PrincipalID e) (ev_Permission e)
      then delete (ev_GrantEventID e) active else active
  | None => active
  end.
Definition active_bindings (root : EvaluationRoot) : gmap string AuthorizationBinding := foldl (apply_event root) ∅ (er_EventLog root).
Definition sort_key (b : AuthorizationBinding) : string :=
  ab_SubjectID b +:+ String NUL "" +:+ ab_Permission b +:+ String NUL "" +:+ ab_SourceEventID b +:+ String NUL "" +:+ ab_PrincipalID b.
(** The bindings in the order of their keys.  Keys can only be equal when a
    field holds a NUL; Go then keeps the map's order, which is not fixed. *)
Definition binding_le (a b : AuthorizationBinding) : Prop := String.le (sort_key a) (sort_key b).
#[export] Instance binding_le_dec : RelDecision binding_le := fun a b => decide (String.le (sort_key a) (sort_key b)).
Definition reduce (root : EvaluationRoot) : list AuthorizationBinding := merge_sort binding_le ((map_to_list (active_bindings root)).*2).
Definition RecomputeAuthorizationState (root : EvaluationRoot) : result (list AuthorizationBinding) :=
  if negb (structuralOK root) then Err "invalid evaluation root"
  else if negb (er_AuthorizationStateEnabled root) then Err "authorization state disabled"
  else Ok (reduce root).

Definition zero_event : AuthorizationEvent := {|
  ev_EventID := ""; ev_Kind := ""; ev_PrincipalID := ""; ev_SubjectID := ""; ev_Permission := ""; ev_GrantEventID := ""; ev_Tick := 0 |}.
(** [ev] and [found] *)
Definition cited (root : EvaluationRoot) (action : ProposedAction) : AuthorizationEvent * bool :=
  match List.find (fun e => ev_EventID e =s? pa_CitedGrantEventID action) (er_EventLog root) with
  | Some e => (e, true)
  | None => (zero_event, false)
  end.
Definition binds (action : ProposedAction) (b : AuthorizationBinding) : bool :=
  (ab_SourceEventID b =s? pa_CitedGrantEventID action) && (ab_SubjectID b =s? pa_SubjectID action) && (ab_Permission b =s? pa_Permission action).
Definition evaluate_enabled (root : EvaluationRoot) (action : ProposedAction) : Decision :=
  let '(ev, found) := cited root action in
  let grant := ev_Kind ev =s? EventGrant in
  let okP := found && grant && canGrant root (ev_PrincipalID ev) (ev_Permission ev) in
  let on := existsb (binds action) (reduce root) in
  let pair := found && (ev_SubjectID ev =s? pa_SubjectID action) && (ev_Permission ev =s? pa_Permission action) in
  let failure := first_failure [
    (found, "cited source event absent"); (grant, "cited source event is not a grant"); (ev_Tick ev <=? er_CurrentTick root, "cited grant not yet effective");
    (pair, "cited grant does not match requested pair"); (okP, "grant principal not authorized"); (on, "cited grant revoked")] in
  {| de_SourcePrincipalID := if found then ev_PrincipalID ev else "";
     de_Verdict := match failure with None => VerdictAllow | Some _ => VerdictDeny end;
     de_Proof := match failure with None => ProofValid | Some _ => ProofInvalid end;
     de_Reason := default "authorized" failure;
     de_SourceEventStatus := if negb found then "ABSENT" else if negb grant || negb pair || negb okP then "INVALID"
                             else if er_CurrentTick root <? ev_Tick ev then "NOT_YET_EFFECTIVE" else if negb on then "REVOKED" else "VALID";
     de_PrincipalAuthority := if okP then "PRESENT" else if found && grant then "ABSENT" else "INVALID";
     de_ExactState := pick on "AUTHORIZED" "UNAUTHORIZED" |}.
Definition Authorize (root : EvaluationRoot) (action : ProposedAction) : Decision :=
  let '(ev, found) := cited root action in
  let principal := if found then ev_PrincipalID ev else "" in
  match first_failure [
    (structuralOK root, "invalid evaluation root"); (pa_ActionID action <>s? "", "action identifier absent");
    (pa_SubjectID action <>s? "", "subject identifier absent"); (pa_Permission action <>s? "", "permission absent");
    (pa_CitedGrantEventID action <>s? "", "source grant citation absent")] with
  | Some reason => uniform principal "INVALID" ProofInvalid reason
  | None => if negb (er_AuthorizationStateEnabled root) then uniform principal "DISABLED" ProofDisabled "authorization state disabled"
            else evaluate_enabled root action
  end.
(** The lines of [d.Evidence]. *)
Definition Evidence (root : EvaluationRoot) (action : ProposedAction) (d : Decision) : list string :=
  ["Authorization root tick=" +:+ Itoa (er_CurrentTick root) +:+ " events=" +:+ Itoa (Z.of_nat (length (er_EventLog root)));
   "Requested pair " +:+ pa_SubjectID action +:+ "|" +:+ pa_Permission action;
   "Memory claim permission=" +:+ pick (pa_ClaimedMemoryPermission action) "PRESENT" "ABSENT" +:+ " grant=" +:+ pa_CitedGrantEventID action;
   "Source event " +:+ pa_CitedGrantEventID action +:+ " principal=" +:+ de_SourcePrincipalID d +:+ " status=" +:+ de_SourceEventStatus d;
   "Authority principal=" +:+ de_PrincipalAuthority d +:+ " exact_state=" +:+ de_ExactState d;
   "Authorization-State Fidelity Proof " +:+ de_Proof d; "reason " +:+ de_Reason d;
   pick (de_Verdict d =s? VerdictAllow) "ACTION ALLOWED" "ACTION DENIED"].

(** ** Properties *)

(** An event in force that takes back the grant [g]: only the principal that
    granted revokes, for the same subject and permission. *)
Definition revokes (root : EvaluationRoot) (g e : AuthorizationEvent) : Prop :=
  ev_Kind e = EventRevoke /\ ev_GrantEventID e = ev_EventID g /\ ev_PrincipalID e = ev_PrincipalID g /\
  ev_SubjectID e = ev_SubjectID g /\ ev_Permission e = ev_Permission g /\ ev_Tick e <= er_CurrentTick root.
Definition in_force (root : EvaluationRoot) (g : AuthorizationEvent) : Prop :=
  ev_Kind g = EventGrant /\ ev_Tick g <= er_CurrentTick root /\ canGrant root (ev_PrincipalID g) (ev_Permission g) = true.
Definition binding_of (g : AuthorizationEvent) : AuthorizationBinding := {|
  ab_SubjectID := ev_SubjectID g; ab_Permission := ev_Permission g; ab_SourceEventID := ev_EventID g;
  ab_PrincipalID := ev_PrincipalID g; ab_GrantTick := ev_Tick g |}.
Definition kind_ok (e : AuthorizationEvent) : Prop := ev_Kind e = EventGrant \/ ev_Kind e = EventRevoke.

Lemma events_ok_spec eids last log : events_ok eids last log = true ->
  NoDup (ev_EventID <$> log) /\ Forall (fun e => ev_EventID e ∉ eids) log /\ Forall kind_ok log.
Proof.
  revert eids last. induction log as [|e log IH]; intros eids last; cbn [events_ok]; [intros _; split; [constructor|split; constructor]|].
  destruct (_ || _); [done|]. case_bool_decide as Hin; [done|]. destruct (_ && _) eqn:Ek; [done|]. intros (Hnd & Hn & Hk)%IH.
  rewrite fmap_cons, NoDup_cons, !Forall_cons. split_and!; try done.
  - intros (e' & E & He')%list_elem_of_fmap. rewrite Forall_forall in Hn. apply (Hn e' He'). set_solver.
  - eapply Forall_impl; [exact Hn|]. cbn. set_solver.
  - apply andb_false_iff in Ek as [Ek|Ek]; apply orb_false_iff in Ek as [Ek _]; apply str_neqb_false in Ek; [by left|by right].
Qed.
(** [g] is a grant of the log with identifier [i], in force and not revoked
    by a later event. *)
Definition live (root : EvaluationRoot) (log : list AuthorizationEvent) (i : string) (g : AuthorizationEvent) : Prop :=
  exists pre post, log = pre ++ g :: post /\ ev_EventID g = i /\ in_force root g /\ Forall (fun e => ~ revokes root g e) post.

Lemma live_snoc root log e i g : live root (log ++ [e]) i g <->
  (ev_EventID e = i /\ g = e /\ in_force root e) \/ (live root log i g /\ ~ revokes root g e).
Proof.
  split.
  - intros (pre & post & E & Hi & Hf & Hr). destruct post as [|x post _] using rev_ind.
    + apply app_inj_tail in E as [-> ->]. by left.
    + rewrite app_comm_cons, app_assoc in E. apply app_inj_tail in E as [-> ->]. apply Forall_app in Hr as [Hr Hre].
      rewrite Forall_singleton in Hre. right. split; [by exists pre, post|exact Hre].
  - intros [(Hi & -> & Hf)|[(pre & post & -> & Hi & Hf & Hr) Hre]]; [by exists log, []|]. exists pre, (post ++ [e]).
    rewrite <- app_assoc. do 3 (split; [done|]). apply Forall_app. split; [done|]. by apply Forall_singleton.
Qed.
Lemma live_in root log i g : live root log i g -> g ∈ log /\ ev_EventID g = i.
Proof. intros (pre & post & -> & Hi & _). split; [set_solver|done]. Qed.
Lemma live_unique root log i g g' : NoDup (ev_EventID <$> log) -> live root log i g -> live root log i g' -> g = g'.
Proof.
  intros Hnd [H1' E1]%live_in [H2' E2]%live_in. eapply NoDup_fmap_inj; [exact Hnd|by apply list_elem_of_In..|congruence].
Qed.

(** A grant is active exactly when it is live. *)
Lemma active_spec root log : NoDup (ev_EventID <$> log) -> Forall kind_ok log -> forall i b,
  foldl (apply_event root) ∅ log !! i = Some b <-> exists g, live root log i g /\ b = binding_of g.
Proof.
  induction log as [|e log IH] using rev_ind; intros Hnd Hk i b.
  { cbn. rewrite lookup_empty. split; [done|]. intros (g & (pre & post & E & _) & _). by destruct pre. }
  rewrite fmap_app, NoDup_app in Hnd. destruct Hnd as (Hnd & Hnew & _). apply Forall_app in Hk as [Hk Hke]. rewrite Forall_singleton in Hke.
  specialize (IH Hnd Hk). rewrite foldl_app. cbn [foldl]. set (active := foldl (apply_event root) ∅ log) in *. setoid_rewrite live_snoc.
  assert (forall g, ~ live root log (ev_EventID e) g) as Hfresh.
  { intros g [Hg Eg]%live_in. apply (Hnew (ev_EventID e)); [rewrite <- Eg; by apply list_elem_of_fmap_2|set_solver]. }
  assert ((forall g, live root log i g -> ~ revokes root g e) -> ~ (ev_EventID e = i /\ in_force root e) ->
    active !! i = Some b <-> exists g, (ev_EventID e = i /\ g = e /\ in_force root e \/ live root log i g /\ ~ revokes root g e) /\ b = binding_of g) as Hsame.
  { intros Hr Hf. rewrite IH. split; [intros (g & Hl & ->); exists g; split; [right; split; [done|by apply Hr]|done]|].
    intros (g & [(? & _ & ?)|[Hl _]] & ->); [by destruct Hf|by exists g]. }
  unfold apply_event. destruct (er_CurrentTick root <? ev_Tick e) eqn:Et; bools.
  { apply Hsame; unfold revokes, in_force; intros; lia. }
  destruct (ev_Kind e =s? EventGrant) eqn:Ek; bools.
  - assert (forall g, ~ revokes root g e) as Hnr by (intros g (Hrk & _); by rewrite Ek in Hrk).
    destruct (canGrant root (ev_PrincipalID e) (ev_Permission e)) eqn:Ec.
    2: { apply Hsame; [by intros|]. intros (_ & _ & _ & ?). congruence. }
    destruct (decide (ev_EventID e = i)) as [<-|Hne].
    + rewrite lookup_insert_eq. split.
      * intros [= <-]. exists e. split; [|done]. left. by split_and!.
      * intros (g & [(_ & -> & _)|[Hl _]] & ->); [done|by apply Hfresh in Hl].
    + rewrite lookup_insert_ne by done. apply Hsame; [auto|]. by intros [].
  - assert (ev_Kind e = EventRevoke) as Hrk by (by destruct Hke). assert (~ in_force root e) as Hnf by (intros (? & _); congruence).
    destruct (active !! ev_GrantEventID e) as [b'|] eqn:Ea.
    + pose proof (proj1 (IH _ _) Ea) as (g' & Hl' & ->). destruct (live_in _ _ _ _ Hl') as [_ Eg'].
      pose proof Hl' as (pre & post & _ & _ & (_ & _ & Hcan) & _). cbn [ab_PrincipalID ab_SubjectID ab_Permission binding_of].
      destruct (_ && canGrant _ _ _) eqn:Ec.
      * rewrite !andb_true_iff, !str_eqb_true in Ec. destruct Ec as [[[Ep Es] Epm] Ecan]. assert (revokes root g' e) as Hrv by (by split_and!).
        destruct (decide (ev_GrantEventID e = i)) as [<-|Hne].
        -- rewrite lookup_delete_eq. split; [done|]. intros (g & [(_ & -> & Hf)|[Hl Hr]] & ->); [done|].
           destruct Hr. by rewrite (live_unique _ _ _ _ _ Hnd Hl Hl').
        -- rewrite lookup_delete_ne by done. apply Hsame; [|by intros []].
           intros g [_ Eg]%live_in (_ & Er & _). congruence.
      * apply Hsame; [|by intros []]. intros g Hl (_ & Er & Ep & Es & Epm & _). destruct (live_in _ _ _ _ Hl) as [_ Eg].
        assert (g = g') as -> by (apply (live_unique root log i); [done..|]; by rewrite <- Eg, <- Er).
        rewrite Ep, Es, Epm, !str_eqb_refl, Hcan in Ec. done.
    + apply Hsame; [|by intros []]. intros g Hl (_ & Er & _). destruct (live_in _ _ _ _ Hl) as [_ Eg].
      rewrite Er, Eg in Ea. assert (active !! i = Some (binding_of g)) by (apply IH; by exists g). congruence.
Qed.
Lemma reduce_spec root : structuralOK root = true -> forall b,
  b ∈ reduce root <-> exists i g, live root (er_EventLog root) i g /\ b = binding_of g.
Proof.
  unfold structuralOK. destruct (_ || _); [done|]. rewrite !andb_true_iff. intros [[(Hnd & _ & Hk)%events_ok_spec _] _] b.
  unfold reduce. rewrite merge_sort_Permutation, list_elem_of_fmap. setoid_rewrite <- (active_spec root _ Hnd Hk). split.
  - intros ([i b'] & -> & Hi%elem_of_map_to_list). by exists i.
  - intros (i & Hi). exists (i, b). split; [done|]. by apply elem_of_map_to_list.
Qed.
Lemma cited_live root action g : structuralOK root = true -> live root (er_EventLog root) (pa_CitedGrantEventID action) g ->
  cited root action = (g, true).
Proof.
  unfold structuralOK. destruct (_ || _); [done|]. rewrite !andb_true_iff. intros [[(Hnd & _)%events_ok_spec _] _] [Hg Ei]%live_in.
  unfold cited. assert (List.find (fun e => ev_EventID e =s? pa_CitedGrantEventID action) (er_EventLog root) = Some g) as ->; [|done].
  apply find_key; [done|]. by rewrite <- list_elem_of_In.
Qed.

(** C29.  An action is allowed exactly when the log holds the grant it cites, of this
    permission to this subject, given by a principal that may grant it, in
    effect by now, and no later event in effect of the same principal takes it
    back.  The claims of the action, and what anybody remembers, count for
    nothing. *)
Theorem authorization_allow_iff (root : EvaluationRoot) (action : ProposedAction) :
  de_Verdict (Authorize root action) = VerdictAllow <->
  structuralOK root = true /\ pa_ActionID action <> "" /\ pa_SubjectID action <> "" /\ pa_Permission action <> "" /\
  pa_CitedGrantEventID action <> "" /\ er_AuthorizationStateEnabled root = true /\
  exists pre g post, er_EventLog root = pre ++ g :: post /\ ev_EventID g = pa_CitedGrantEventID action /\
    ev_SubjectID g = pa_SubjectID action /\ ev_Permission g = pa_Permission action /\
    in_force root g /\ Forall (fun e => ~ revokes root g e) post.
Proof.
  unfold Authorize. destruct (cited root action) as [ev found] eqn:Ec. destruct (first_failure _) eqn:Ef.
  { split; [done|]. intros (H1' & H2' & H3' & H4' & H5' & _). exfalso. cbn in Ef.
    rewrite <- str_neqb_true in H2', H3', H4', H5'. by rewrite H1', H2', H3', H4', H5' in Ef. }
  apply first_failure_None in Ef. repeat setoid_rewrite Forall_cons in Ef. cbn [fst] in Ef. destruct Ef as (Hok & Ha & Hs & Hp & Hc & _).
  apply str_neqb_true in Ha, Hs, Hp, Hc. destruct (er_AuthorizationStateEnabled root); cbn [negb]; [|naive_solver].
  pose proof (reduce_spec root Hok) as Hred. unfold evaluate_enabled. rewrite Ec. cbn [de_Verdict].
  destruct (first_failure _) eqn:Ef; split; try done.
  - intros (_ & _ & _ & _ & _ & _ & pre & g & post & El & Ei & Es & Ep & (Hk & Ht & Hcan) & Hr). exfalso.
    assert (live root (er_EventLog root) (pa_CitedGrantEventID action) g) as Hl by (exists pre, post; by split_and!).
    rewrite (cited_live _ _ _ Hok Hl) in Ec. injection Ec as <- <-.
    assert (existsb (binds action) (reduce root) = true) as Hon.
    { apply existsb_exists. exists (binding_of g). split; [apply list_elem_of_In, Hred; by eexists _, _|].
      unfold binds, binding_of. cbn. by rewrite Ei, Es, Ep, !str_eqb_refl. }
    rewrite Hon, Hk, Hcan, Es, Ep, !str_eqb_refl, (proj2 (Z.leb_le _ _) Ht) in Ef. done.
  - intros _. do 6 (split; [done|]). apply first_failure_None in Ef. repeat setoid_rewrite Forall_cons in Ef. cbn [fst] in Ef.
    destruct Ef as (_ & _ & _ & _ & _ & Hon & _). apply existsb_exists in Hon as (b & Hb%list_elem_of_In & Hbind).
    apply Hred in Hb as (i & g & (pre & post & El & Ei & Hf & Hr) & ->). unfold binds, binding_of in Hbind. cbn in Hbind.
    rewrite !andb_true_iff, !str_eqb_true in Hbind. destruct Hbind as [[E1 E2] E3]. exists pre, g, post. by split_and!.
Qed.

Module AuthStateExample.
Definition event (i kind grant : string) (tick : Z) : AuthorizationEvent := {|
  ev_EventID := i; ev_Kind := kind; ev_PrincipalID := "owner"; ev_SubjectID := "agent"; ev_Permission := "deploy";
  ev_GrantEventID := grant; ev_Tick := tick |}.
Definition root (now : Z) : EvaluationRoot := {|
  er_SchemaVersion := 1; er_EventLog := [event "g1" "GRANT" "" 1; event "r1" "REVOKE" "g1" 5; event "g2" "GRANT" "" 7];
  er_GrantPrincipals := [{| gp_PrincipalID := "owner"; gp_GrantablePermissions := ["deploy"] |}];
  er_CurrentTick := now; er_AuthorizationStateEnabled := true |}.
Definition act (grant : string) : ProposedAction := {|
  pa_ActionID := "a"; pa_SubjectID := "agent"; pa_Permission := "deploy"; pa_CitedGrantEventID := grant;
  pa_ClaimedMemoryPermission := true; pa_ClaimedGrantPrincipalID := "owner"; pa_ClaimedGrantValid := true;
  pa_ClaimedProofValid := true; pa_ClaimedExactStateValid := true; pa_ClaimedAuthorized := true |}.
(** The remembered grant is worth nothing once it is revoked. *)
Example over_time : (fun p => de_Reason (Authorize (root p.1) (act p.2))) <$> [(4, "g1"); (5, "g1"); (5, "g2"); (7, "g2"); (7, "r1")] =
  ["authorized"; "cited grant revoked"; "cited grant not yet effective"; "authorized"; "cited source event is not a grant"].
Proof. vm_compute. reflexivity. Qed.
Example recomputed : RecomputeAuthorizationState (root 9) = Ok [binding_of (event "g2" "GRANT" "" 7)].
Proof. vm_compute. reflexivity. Qed.
End AuthStateExample.
