(* ===== verification/ResourceIdentity.v ===== *)
(** Resource identity, [internal/resourceidentity]: a write is allowed to the
    object that was authorized, if it is still the object at the time of the
    effect and a principal with authority named it.  Paths and symbolic links
    are observed, and not asked. *)
From stdpp Require Import base strings list.
From Stdlib Require Import ZArith Lia.
From S2P Require Import Prelude Evaluators.
#[local] Open Scope Z_scope.

Definition SchemaVersion : Z := 1.
Record EvaluationRoot := {
  er_SchemaVersion : Z;
  er_IdentityAuthorized : string;
  er_IdentityAtEffect : string;
  er_MandatingPrincipal : string;
  er_MandatingTrustClass : string;
  er_MandatedIdentity : string;
  er_PathPermissionValid : bool;
  er_EffectClassWrite : bool
}.
Record ClaimedProof := {
  cp_Verdict : string;
  cp_Proof : string;
  cp_Reason : string;
  cp_IdentityAuthorized : string;
  cp_IdentityAtEffect : string;
  cp_MandatedIdentity : string
}.
Record ObservedArtifact := {
  oa_RequestedPath : string;
  oa_ResolvedPath : string;
  oa_PresentationName : string;
  oa_SymlinkTarget : string;
  oa_IsSymlink : bool;
  oa_VisibleRole : string;
  oa_ClaimedProof : ClaimedProof
}.
Record Decision := { de_Verdict : string; de_Proof : string; de_Reason : string; de_Evidence : list string }.

Definition authorityForTrust : string -> option string := authority_table "UNTRUSTED_EXTERNAL" "ZERO".

Definition evidence (root : EvaluationRoot) (structuralOK : bool) (verdict proof : string) : list string := [
  pick (er_PathPermissionValid root) "Path permission VALID" "Path permission INVALID";
  pick (er_EffectClassWrite root) "Effect class WRITE" "Effect class NOT WRITE";
  "Authorized resource identity " +:+ er_IdentityAuthorized root;
  "Effect-time resource identity " +:+ er_IdentityAtEffect root;
  pick (structuralOK && (er_IdentityAuthorized root <>s? "") && (er_IdentityAuthorized root =s? er_IdentityAtEffect root))
    "Identity continuity PRESERVED" "Identity continuity FAILED";
  pick (structuralOK && (er_MandatedIdentity root <>s? "") && (er_MandatedIdentity root =s? er_IdentityAtEffect root))
    "Mandate for effect-time identity PRESENT" "Mandate for effect-time identity ABSENT";
  if structuralOK then "Resource Identity Proof " +:+ proof else "Resource Identity Proof INVALID";
  pick (structuralOK && (verdict =s? VerdictAllow)) "WRITE ALLOWED" "WRITE DENIED"].
Definition finish (root : EvaluationRoot) (structuralOK : bool) (verdict proof reason : string) : Decision := {|
  de_Verdict := verdict; de_Proof := proof; de_Reason := reason; de_Evidence := evidence root structuralOK verdict proof |}.

Definition EvaluateResourceIdentityProof (root : EvaluationRoot) : Decision :=
  let refused := finish root false VerdictDeny ProofInvalid "invalid evaluation root" in
  if negb (er_SchemaVersion root =? SchemaVersion) then refused
  else match authorityForTrust (er_MandatingTrustClass root) with
  | None => refused
  | Some mandAuth =>
      let proof_steps := [
        (er_IdentityAuthorized root <>s? "", "authorized resource identity absent");
        (er_IdentityAtEffect root <>s? "", "effect-time resource identity absent");
        (er_IdentityAuthorized root =s? er_IdentityAtEffect root, "identity continuity failed");
        (er_MandatingPrincipal root <>s? "", "mandating principal absent");
        (er_MandatedIdentity root <>s? "", "mandated resource identity absent");
        (atLeastUser mandAuth, "mandating principal lacks authority");
        (er_MandatedIdentity root =s? er_IdentityAtEffect root, "mandate for effect-time identity absent")] in
      let proof := match first_failure proof_steps with None => ProofValid | Some _ => ProofInvalid end in
      match first_failure (proof_steps ++ [(er_PathPermissionValid root, "path permission invalid"); (er_EffectClassWrite root, "effect class is not WRITE")]) with
      | Some reason => finish root true VerdictDeny proof reason
      | None => finish root true VerdictAllow proof "authorized"
      end
  end.
Definition Authorize (root : EvaluationRoot) (_ : ObservedArtifact) : Decision := EvaluateResourceIdentityProof root.

(** ** Properties *)

(** A write is allowed exactly when the object authorized is the object at the
    time of the effect and the object mandated, a named principal of a trusted
    class mandated it, and path and effect class are in order: what is observed
    of paths and links makes no difference. *)
Theorem write_allow_iff (root : EvaluationRoot) (seen : ObservedArtifact) :
  de_Verdict (Authorize root seen) = VerdictAllow <->
  er_SchemaVersion root = SchemaVersion /\ trusted_class (er_MandatingTrustClass root) /\
  er_IdentityAtEffect root <> "" /\ er_IdentityAuthorized root = er_IdentityAtEffect root /\
  er_MandatedIdentity root = er_IdentityAtEffect root /\ er_MandatingPrincipal root <> "" /\
  er_PathPermissionValid root = true /\ er_EffectClassWrite root = true.
Proof.
  rewrite <- (authority_table_user "UNTRUSTED_EXTERNAL" "ZERO") by (first [done|unfold trusted_class; naive_solver]).
  unfold Authorize, EvaluateResourceIdentityProof, authorityForTrust. destruct (er_SchemaVersion root =? SchemaVersion) eqn:Es; cbn [negb].
  2: { bools. split; [done|]. by intros (? & _). }
  destruct (authority_table _ _ _) as [a|]; [|split; [done|]; naive_solver]. cbn [app].
  destruct (first_failure (_ :: _ :: _ :: _ :: _ :: _ :: _ :: _ :: _)) as [r|] eqn:Ef; cbn [de_Verdict finish].
  - split; [done|]. intros (_ & (a' & [= <-] & Ha) & He & Hc & Hm & Hp & Hpath & Heff). exfalso.
    assert (Some r = None) as [=]. rewrite <- Ef. apply first_failure_None. rewrite <- str_neqb_true in He, Hp.
    rewrite Hc, Hm. repeat constructor; cbn [fst]; rewrite ?str_eqb_refl; done.
  - apply first_failure_None in Ef. repeat setoid_rewrite Forall_cons in Ef. cbn [fst] in Ef. rewrite !str_neqb_true, !str_eqb_true in Ef.
    split; [|done]. bools. naive_solver.
Qed.

Module ResourceExample.
Definition root (at_effect : string) : EvaluationRoot := {|
  er_SchemaVersion := 1; er_IdentityAuthorized := "object:A"; er_IdentityAtEffect := at_effect; er_MandatingPrincipal := "user:alice";
  er_MandatingTrustClass := "TRUSTED_USER"; er_MandatedIdentity := "object:A"; er_PathPermissionValid := true; er_EffectClassWrite := true |}.
(** The path is the same; the object behind it was swapped. *)
Example swapped : (fun o => de_Reason (EvaluateResourceIdentityProof (root o))) <$> ["object:A"; "object:B"] =
  ["authorized"; "identity continuity failed"].
Proof. vm_compute. reflexivity. Qed.
End ResourceExample.
