(* ===== verification/AuthorityContext.v ===== *)
(** Authority context, [internal/authoritycontext]: the context one principal
    executes in is not inherited by another.  [Decision] is without the fields
    that repeat the root's and the action's. *)
From stdpp Require Import base strings list.
From Stdlib Require Import ZArith Lia.
From S2P Require Import Prelude Evaluators.
#[local] Open Scope Z_scope.

Definition SchemaVersion : Z := 1.
Definition EffectExecute : string := "EXECUTE".

Record AuthorityMandate := { am_MandateID : string; am_PrincipalID : string; am_AuthorizedDomains : list string }.
Record EvaluationRoot := {
  er_SchemaVersion : Z;
  er_HeldPrincipalID : string;
  er_HeldExecutionDomain : string;
  er_Mandate : AuthorityMandate;
  er_AuthorityContextEnabled : bool
}.
Record ProposedAction := {
  pa_ActionID : string;
  pa_EffectClass : string;
  pa_RequestedPrincipalID : string;
  pa_RequestedDomain : string;
  pa_ObservedPrincipalID : string;
  pa_ObservedDomain : string;
  pa_ClaimedPrincipalID : string;
  pa_ClaimedDomain : string;
  pa_ClaimedInheritedPrincipalID : string;
  pa_ClaimedInheritedDomain : string;
  pa_ClaimedContextValid : bool;
  pa_ClaimedProofValid : bool;
  pa_ClaimedAuthorized : bool;
  pa_ClaimedCachedInitialization : bool
}.
Record Decision := {
  de_Verdict : string;
  de_Proof : string;
  de_Reason : string;
  de_PrincipalBinding : string;
  de_DomainAuthority : string;
  de_ContextBinding : string
}.
Definition uniform (status proof reason : string) : Decision := {|
  de_Verdict := VerdictDeny; de_Proof := proof; de_Reason := reason;
  de_PrincipalBinding := status; de_DomainAuthority := status; de_ContextBinding := status |}.

(** [uniqueFilled] of this package refuses the empty list. *)
Definition uniqueFilledSome (xs : list string) : bool := negb (bool_decide (xs = [])) && uniqueFilled xs.
Definition structuralOK (r : EvaluationRoot) : bool :=
  let m := er_Mandate r in
  (er_SchemaVersion r =? SchemaVersion) && (er_HeldPrincipalID r <>s? "") && (er_HeldExecutionDomain r <>s? "") &&
  (am_MandateID m <>s? "") && (am_PrincipalID m <>s? "") && (am_PrincipalID m =s? er_HeldPrincipalID r) && uniqueFilledSome (am_AuthorizedDomains m).

Definition evaluate_enabled (root : EvaluationRoot) (action : ProposedAction) : Decision :=
  let c8 := pa_RequestedPrincipalID action =s? er_HeldPrincipalID root in
  let c9 := pa_ObservedPrincipalID action =s? pa_RequestedPrincipalID action in
  let c10 := pa_ObservedDomain action =s? pa_RequestedDomain action in
  let c11 := has (am_AuthorizedDomains (er_Mandate root)) (pa_ObservedDomain action) in
  let c12 := pa_ObservedDomain action =s? er_HeldExecutionDomain root in
  let failure := first_failure [
    (c8, "requested principal does not match held principal"); (c9, "observed principal does not match requested principal");
    (c10, "observed domain does not match requested domain"); (c11, "observed domain outside mandate");
    (c12, "observed domain does not match held execution context")] in
  {| de_Verdict := match failure with None => VerdictAllow | Some _ => VerdictDeny end;
     de_Proof := match failure with None => ProofValid | Some _ => ProofInvalid end;
     de_Reason := default "authorized" failure;
     de_PrincipalBinding := pick (c8 && c9) "VALID" "INVALID";
     de_DomainAuthority := pick c11 "PRESENT" "ABSENT";
     de_ContextBinding := pick (c10 && c12) "VALID" "INVALID" |}.
Definition EvaluateAuthorityContextIntegrity (root : EvaluationRoot) (action : ProposedAction) : Decision :=
  match first_failure [
    (structuralOK root, "invalid evaluation root"); (pa_ActionID action <>s? "", "action identifier absent");
    (pa_EffectClass action =s? EffectExecute, "unsupported effect class");
    (pa_RequestedPrincipalID action <>s? "", "requested principal absent"); (pa_RequestedDomain action <>s? "", "requested domain absent");
    (pa_ObservedPrincipalID action <>s? "", "observed principal absent"); (pa_ObservedDomain action <>s? "", "observed domain absent")] with
  | Some reason => uniform "INVALID" ProofInvalid reason
  | None => if negb (er_AuthorityContextEnabled root) then uniform "DISABLED" ProofDisabled "authority context disabled"
            else evaluate_enabled root action
  end.
Definition Authorize (root : EvaluationRoot) (action : ProposedAction) : Decision := EvaluateAuthorityContextIntegrity root action.
(** The lines of [d.Evidence]. *)
Definition Evidence (root : EvaluationRoot) (action : ProposedAction) (d : Decision) : list string := [
  "Mandate " +:+ am_MandateID (er_Mandate root); "Held principal " +:+ er_HeldPrincipalID root;
  "Requested context " +:+ pa_RequestedPrincipalID action +:+ "@" +:+ pa_RequestedDomain action;
  "Observed context " +:+ pa_ObservedPrincipalID action +:+ "@" +:+ pa_ObservedDomain action;
  "Principal binding " +:+ de_PrincipalBinding d; "Observed-domain authority " +:+ de_DomainAuthority d;
  "Authority-Context Integrity Proof " +:+ de_Proof d;
  pick (de_Verdict d =s? VerdictAllow) "CONTEXT EFFECT ALLOWED" "CONTEXT EFFECT DENIED"].

(** ** Properties *)

(** Principal and domain are those held, requested and observed alike, and the
    mandate is the held principal's and has the domain. *)
Theorem context_allow_iff (root : EvaluationRoot) (action : ProposedAction) :
  de_Verdict (Authorize root action) = VerdictAllow <->
  structuralOK root = true /\ er_AuthorityContextEnabled root = true /\ pa_ActionID action <> "" /\ pa_EffectClass action = EffectExecute /\
  pa_RequestedPrincipalID action = er_HeldPrincipalID root /\ pa_ObservedPrincipalID action = er_HeldPrincipalID root /\
  pa_RequestedDomain action = er_HeldExecutionDomain root /\ pa_ObservedDomain action = er_HeldExecutionDomain root /\
  In (er_HeldExecutionDomain root) (am_AuthorizedDomains (er_Mandate root)).
Proof.
  unfold Authorize, EvaluateAuthorityContextIntegrity. destruct (first_failure _) as [r|] eqn:Ef.
  - split; [done|]. intros (Hok & _ & Ha & He & Hp & Hop & Hd & Hod & _). exfalso. assert (Some r = None) as [=].
    rewrite <- Ef. checks. rewrite Hp, Hop, Hd, Hod. split; [done|]. unfold structuralOK in Hok.
    rewrite !andb_true_iff, !str_neqb_true in Hok. tauto.
  - revert Ef. checks. intros (Hok & Ha & He & _). destruct (er_AuthorityContextEnabled root); cbn [negb]; [|naive_solver].
    unfold evaluate_enabled. cbn [de_Verdict]. checks. split; [intros (Hp & Hop & Hod & Hin & Hh & _)|intros (_ & _ & _ & _ & Hp & Hop & Hd & Hod & Hin)].
    + rewrite Hp in Hop. rewrite Hh in Hod, Hin. by split_and!.
    + rewrite Hp, Hop, Hd, Hod. by split_and!.
Qed.
