(* ===== verification/SelfEscalation.v ===== *)
(** Self-escalation, [internal/selfescalation]: an agent that may write does
    not for that reason change its own authority; this takes a grant of the
    other proof type.  [Decision] is without the fields that repeat the root's
    and the action's. *)
From stdpp Require Import base strings gmap list.
From Stdlib Require Import ZArith Lia.
From S2P Require Import Prelude GoStrings Evaluators.
#[local] Open Scope Z_scope.

Definition SchemaVersion : Z := 1.
Definition AuthorityModifySelf : string := "authority.modify(self)".
Definition ProofTypeMetaAuthority : string := "META_AUTHORITY".
Definition ProofTypeOrdinaryAction : string := "ORDINARY_ACTION".
Definition ProofMissing : string := "MISSING".

Record ParentDelegation := { pd_DelegationID : string; pd_ChildPrincipal : string; pd_AllowedAuthorities : list string }.
Record MetaAuthorityGrant := { mg_GrantID : string; mg_GranteePrincipal : string; mg_Authority : string; mg_ProofType : string }.
Record EvaluationRoot := {
  er_SchemaVersion : Z;
  er_ParentDelegation : ParentDelegation;
  er_MetaAuthorityGrants : list MetaAuthorityGrant;
  er_MetaAuthorityEnabled : bool;
  er_ManagementSurfaces : list string
}.
Record ProposedAction := {
  pa_ActionID : string;
  pa_ActorPrincipal : string;
  pa_RequestedAuthority : string;
  pa_ManagementSurface : string;
  pa_ClaimedHostHeader : string;
  pa_ClaimedUserAttribution : string;
  pa_ClaimedDangerFullAccess : bool;
  pa_ClaimedPolicyRewrite : bool;
  pa_ClaimedAuthorized : bool
}.
Record Decision := {
  de_Verdict : string;
  de_Proof : string;
  de_Reason : string;
  de_DelegationAuthority : string;
  de_MetaAuthority : string;
  de_SurfaceReachability : string;
  de_Attribution : string
}.

Definition uniq (xs : list string) : bool := uniqueFilled xs && negb (bool_decide (xs = [])).
Definition grant_ok (g : MetaAuthorityGrant) : bool :=
  (mg_GrantID g <>s? "") && (mg_GranteePrincipal g <>s? "") && (mg_Authority g <>s? "") &&
  ((mg_ProofType g =s? ProofTypeMetaAuthority) || (mg_ProofType g =s? ProofTypeOrdinaryAction)).
Definition structuralOK (r : EvaluationRoot) : bool :=
  let d := er_ParentDelegation r in
  if negb (er_SchemaVersion r =? SchemaVersion) || (pd_DelegationID d =s? "") || (pd_ChildPrincipal d =s? "") ||
     negb (uniq (pd_AllowedAuthorities d)) || negb (uniq (er_ManagementSurfaces r)) then false
  else unique_by grant_ok mg_GrantID ∅ (er_MetaAuthorityGrants r).
Definition metaOK (r : EvaluationRoot) (actor auth : string) : bool :=
  existsb (fun g => (mg_GranteePrincipal g =s? actor) && (mg_Authority g =s? auth) && (mg_ProofType g =s? ProofTypeMetaAuthority))
          (er_MetaAuthorityGrants r).
Definition none (s : string) : string := if s =s? "" then "<none>" else s.
Definition proofLine (p auth : string) : string :=
  if p =s? ProofMissing then "Missing proof " +:+ auth
  else if p =s? ProofValid then "Authority Proof VALID " +:+ auth
  else if p =s? ProofDisabled then "Self-Escalation Proof DISABLED " +:+ auth
  else "Authority Proof INVALID " +:+ auth.
Definition reach (ok : bool) : string := pick ok "PRESENT" "ABSENT".

Definition invalid (reason : string) : Decision := {|
  de_Verdict := VerdictDeny; de_Proof := ProofInvalid; de_Reason := reason; de_DelegationAuthority := "INVALID";
  de_MetaAuthority := "INVALID"; de_SurfaceReachability := "INVALID"; de_Attribution := "INVALID" |}.
Definition denied (proof reason delegation meta surface attribution : string) : Decision := {|
  de_Verdict := VerdictDeny; de_Proof := proof; de_Reason := reason; de_DelegationAuthority := delegation;
  de_MetaAuthority := meta; de_SurfaceReachability := surface; de_Attribution := attribution |}.
Definition Authorize (root : EvaluationRoot) (action : ProposedAction) : Decision :=
  let self := pa_RequestedAuthority action =s? AuthorityModifySelf in
  let c4 := pa_ActorPrincipal action =s? pd_ChildPrincipal (er_ParentDelegation root) in
  let c5 := has (pd_AllowedAuthorities (er_ParentDelegation root)) (pa_RequestedAuthority action) in
  let granted := metaOK root (pa_ActorPrincipal action) (pa_RequestedAuthority action) in
  let surf := (pa_ManagementSurface action <>s? "") && has (er_ManagementSurfaces root) (pa_ManagementSurface action) in
  match first_failure [
    (structuralOK root, "invalid evaluation root"); (pa_ActionID action <>s? "", "action identifier absent");
    (pa_ActorPrincipal action <>s? "", "actor principal absent"); (pa_RequestedAuthority action <>s? "", "requested authority absent")] with
  | Some reason => invalid reason
  | None =>
      if negb c4 then
        denied ProofInvalid "actor outside parent delegation" "INVALID" (pick (self && er_MetaAuthorityEnabled root) "MISSING" "NOT_REQUIRED")
               (reach surf) "INVALID"
      else if self && negb (er_MetaAuthorityEnabled root) then
        denied ProofDisabled "meta-authority enforcement disabled" (pick c5 "PRESENT" "ABSENT") "DISABLED" "DISABLED" "DISABLED"
      else if self && negb granted then
        denied ProofMissing "meta-authority proof missing" (pick c5 "PRESENT" "ABSENT") "MISSING" (reach surf) "AGENT"
      else if negb c5 then
        denied ProofInvalid "requested authority outside parent delegation" "ABSENT" "NOT_REQUIRED" (reach surf) "AGENT"
      else {|
        de_Verdict := VerdictAllow; de_Proof := ProofValid; de_Reason := "authorized"; de_DelegationAuthority := "PRESENT";
        de_MetaAuthority := pick self "PRESENT" "NOT_REQUIRED"; de_SurfaceReachability := reach surf; de_Attribution := "AGENT" |}
  end.
Definition count {A} (l : list A) : string := Itoa (Z.of_nat (length l)).
(** The lines of [d.Evidence]. *)
Definition Evidence (root : EvaluationRoot) (action : ProposedAction) (d : Decision) : list string :=
  let p := er_ParentDelegation root in [
  "Authority root delegation=" +:+ pd_DelegationID p +:+ " child=" +:+ pd_ChildPrincipal p +:+ " allowed=" +:+ count (pd_AllowedAuthorities p) +:+
    " meta_grants=" +:+ count (er_MetaAuthorityGrants root) +:+ " surfaces=" +:+ count (er_ManagementSurfaces root);
  "Requested action " +:+ pa_ActionID action +:+ " actor=" +:+ pa_ActorPrincipal action +:+ " authority=" +:+ pa_RequestedAuthority action;
  "Management surface " +:+ none (pa_ManagementSurface action) +:+ " reachability=" +:+ de_SurfaceReachability d;
  "Claims host=" +:+ none (pa_ClaimedHostHeader action) +:+ " attribution=" +:+ none (pa_ClaimedUserAttribution action) +:+
    " danger_full_access=" +:+ FormatBool (pa_ClaimedDangerFullAccess action) +:+ " policy_rewrite=" +:+ FormatBool (pa_ClaimedPolicyRewrite action) +:+
    " authorized=" +:+ FormatBool (pa_ClaimedAuthorized action);
  "Authority delegation=" +:+ de_DelegationAuthority d +:+ " meta=" +:+ de_MetaAuthority d +:+ " attribution=" +:+ de_Attribution d;
  proofLine (de_Proof d) (pa_RequestedAuthority action); "reason " +:+ de_Reason d;
  pick (de_Verdict d =s? VerdictAllow) "ACTION ALLOWED" "ACTION DENIED"].

(** ** Properties *)

(** The child of the delegation does what the delegation allows; to modify
    itself it needs, besides, a grant of meta-authority, and the enforcement on. *)
Theorem escalation_allow_iff (root : EvaluationRoot) (action : ProposedAction) :
  de_Verdict (Authorize root action) = VerdictAllow <->
  structuralOK root = true /\ pa_ActionID action <> "" /\ pa_RequestedAuthority action <> "" /\
  pa_ActorPrincipal action = pd_ChildPrincipal (er_ParentDelegation root) /\
  In (pa_RequestedAuthority action) (pd_AllowedAuthorities (er_ParentDelegation root)) /\
  (pa_RequestedAuthority action = AuthorityModifySelf ->
   er_MetaAuthorityEnabled root = true /\
   exists g, In g (er_MetaAuthorityGrants root) /\ mg_GranteePrincipal g = pa_ActorPrincipal action /\
     mg_Authority g = AuthorityModifySelf /\ mg_ProofType g = ProofTypeMetaAuthority).
Proof.
  assert (metaOK root (pa_ActorPrincipal action) (pa_RequestedAuthority action) = true <->
    exists g, In g (er_MetaAuthorityGrants root) /\ mg_GranteePrincipal g = pa_ActorPrincipal action /\
      mg_Authority g = pa_RequestedAuthority action /\ mg_ProofType g = ProofTypeMetaAuthority) as Hm.
  { unfold metaOK. rewrite existsb_exists. repeat setoid_rewrite andb_true_iff. repeat setoid_rewrite str_eqb_true. naive_solver. }
  assert (structuralOK root = true -> pd_ChildPrincipal (er_ParentDelegation root) <> "") as Hc.
  { unfold structuralOK. destruct (_ || _) eqn:E; [done|]. bools. tauto. }
  unfold Authorize. destruct (first_failure _) as [r|] eqn:Ef.
  - split; [done|]. intros (Hok & Ha & Hr & Hact & _). exfalso. assert (Some r = None) as [=]. rewrite <- Ef. checks. rewrite Hact.
    do 2 (split; [done|]). split; [by apply Hc|done].
  - revert Ef. checks. intros (Hok & Ha & _ & Hr & _).
    destruct (pa_ActorPrincipal action =s? _) eqn:E4; cbn [negb]; bools; [|by naive_solver].
    rewrite <- has_In. destruct (pa_RequestedAuthority action =s? AuthorityModifySelf) eqn:Es; cbn [andb]; bools.
    + rewrite Es in Hm |- *. rewrite <- Hm. destruct (er_MetaAuthorityEnabled root); cbn [negb]; [|naive_solver].
      destruct (metaOK _ _ _); cbn [negb]; [|naive_solver]. destruct (has _ _); cbn; naive_solver.
    + destruct (has _ _); cbn; naive_solver.
Qed.

Module EscalationExample.
Definition root (grants : list MetaAuthorityGrant) : EvaluationRoot := {|
  er_SchemaVersion := 1;
  er_ParentDelegation := {| pd_DelegationID := "d"; pd_ChildPrincipal := "agent"; pd_AllowedAuthorities := ["workspace.write"; AuthorityModifySelf] |};
  er_MetaAuthorityGrants := grants; er_MetaAuthorityEnabled := true; er_ManagementSurfaces := ["api"] |}.
Definition grant (proof : string) : MetaAuthorityGrant :=
  {| mg_GrantID := "g"; mg_GranteePrincipal := "agent"; mg_Authority := AuthorityModifySelf; mg_ProofType := proof |}.
Definition act (auth : string) : ProposedAction := {|
  pa_ActionID := "a"; pa_ActorPrincipal := "agent"; pa_RequestedAuthority := auth; pa_ManagementSurface := "api"; pa_ClaimedHostHeader := "localhost";
  pa_ClaimedUserAttribution := "user"; pa_ClaimedDangerFullAccess := true; pa_ClaimedPolicyRewrite := true; pa_ClaimedAuthorized := true |}.
Example escalations :
  de_Reason <$> [Authorize (root []) (act "workspace.write"); Authorize (root [grant ProofTypeOrdinaryAction]) (act AuthorityModifySelf);
                 Authorize (root [grant ProofTypeMetaAuthority]) (act AuthorityModifySelf)] =
  ["authorized"; "meta-authority proof missing"; "authorized"].
Proof. vm_compute. reflexivity. Qed.
End EscalationExample.
