(* ===== verification/PrincipalDerivation.v ===== *)
(** Principal derivation, [internal/principalderivation]: authority comes down
    a chain of transport, session, agent and mandate, each bound to the one
    before.  Addresses, sockets, names and headers are observed, and not asked. *)
From stdpp Require Import base strings list.
From Stdlib Require Import ZArith Lia.
From S2P Require Import Prelude Evaluators.
#[local] Open Scope Z_scope.

Definition SchemaVersion : Z := 1.
Definition TransportUnattested : string := "UNATTESTED".
Definition TransportAttested : string := "ATTESTED".
Definition AuthorityZero : string := "ZERO".

Record EvaluationRoot := {
  er_SchemaVersion : Z;
  er_TransportTrustClass : string;
  er_TransportPrincipal : string;
  er_SessionIdentityBound : bool;
  er_SessionPrincipal : string;
  er_AgentAuthenticated : bool;
  er_AgentPrincipal : string;
  er_DelegationFromUser : bool;
  er_MandatingPrincipal : string;
  er_MandatingTrustClass : string;
  er_MandatedAgentPrincipal : string;
  er_ToolCapabilityAvailable : bool
}.
Record ClaimedProof := { cp_Verdict : string; cp_Proof : string; cp_CallerAuthority : string; cp_Principal : string; cp_Reason : string }.
Record ObservedArtifact := {
  oa_Destination : string;
  oa_Host : string;
  oa_Origin : string;
  oa_XForwardedProto : string;
  oa_XForwardedHost : string;
  oa_DNSAnswer : string;
  oa_SocketLocality : string;
  oa_TransportKind : string;
  oa_ClaimedPrincipal : string;
  oa_VisibleRole : string;
  oa_WebpageBytes : string;
  oa_ClaimedProof : ClaimedProof
}.
Record Decision := {
  de_Verdict : string;
  de_Proof : string;
  de_Reason : string;
  de_CallerAuthority : string;
  de_Evidence : list string
}.

Definition authorityForTrust : string -> option string := authority_table "UNTRUSTED_EXTERNAL" AuthorityZero.

Definition evidence (root : EvaluationRoot) (structuralOK proofValid : bool) (verdict proof caller : string) : list string :=
  let attested := structuralOK && (er_TransportTrustClass root =s? TransportAttested) in
  let sessionOK := attested && er_SessionIdentityBound root && (er_SessionPrincipal root <>s? "") &&
                   (er_SessionPrincipal root =s? er_TransportPrincipal root) in
  let agentOK := sessionOK && er_AgentAuthenticated root && (er_AgentPrincipal root <>s? "") &&
                 (er_AgentPrincipal root =s? er_SessionPrincipal root) in [
  if attested then "Transport identity ATTESTED" +:+ (if er_TransportPrincipal root <>s? "" then " " +:+ er_TransportPrincipal root else "")
  else "Transport identity UNATTESTED";
  if sessionOK then "Transport identity -> session identity JUSTIFIED " +:+ er_SessionPrincipal root
  else "Transport identity -> session identity DENIED (session identity ABSENT)";
  if agentOK then "Session identity -> agent identity JUSTIFIED " +:+ er_AgentPrincipal root
  else "Session identity -> agent identity DENIED (authenticated MCP principal ABSENT)";
  if proofValid then "Agent identity -> mandate JUSTIFIED " +:+ er_MandatingPrincipal root +:+ "=>" +:+ er_AgentPrincipal root
  else "Agent identity -> mandate DENIED (delegation from user ABSENT)";
  pick (er_ToolCapabilityAvailable root) "Tool capability AVAILABLE" "Tool capability UNAVAILABLE";
  if structuralOK then "Caller authority " +:+ caller else "Caller authority ZERO";
  if structuralOK then "Principal Derivation Proof " +:+ proof else "Principal Derivation Proof INVALID";
  if structuralOK then "Request " +:+ verdict else "Request DENY"].
Definition finish (root : EvaluationRoot) (structuralOK proofValid : bool) (verdict proof reason caller : string) : Decision := {|
  de_Verdict := verdict; de_Proof := proof; de_Reason := reason; de_CallerAuthority := caller;
  de_Evidence := evidence root structuralOK proofValid verdict proof caller |}.

Definition EvaluatePrincipalDerivationProof (root : EvaluationRoot) : Decision :=
  let refused := finish root false false VerdictDeny ProofInvalid "invalid evaluation root" AuthorityZero in
  if negb (er_SchemaVersion root =? SchemaVersion) ||
     ((er_TransportTrustClass root <>s? TransportUnattested) && (er_TransportTrustClass root <>s? TransportAttested)) then refused
  else match authorityForTrust (er_MandatingTrustClass root) with
  | None => refused
  | Some mandAuth =>
      let steps := [
        (er_TransportTrustClass root =s? TransportAttested, "transport identity unattested");
        (er_TransportPrincipal root <>s? "", "transport principal absent");
        (er_SessionIdentityBound root, "session identity unbound");
        ((er_SessionPrincipal root <>s? "") && (er_SessionPrincipal root =s? er_TransportPrincipal root), "transport and session principals differ");
        (er_AgentAuthenticated root, "MCP principal unauthenticated");
        ((er_AgentPrincipal root <>s? "") && (er_AgentPrincipal root =s? er_SessionPrincipal root), "session and agent principals differ");
        (er_DelegationFromUser root, "delegation from user absent");
        (er_MandatingPrincipal root <>s? "", "mandating principal absent");
        (atLeastUser mandAuth, "mandating principal lacks authority");
        ((er_MandatedAgentPrincipal root <>s? "") && (er_MandatedAgentPrincipal root =s? er_AgentPrincipal root), "mandate targets another principal")] in
      match first_failure steps with
      | Some reason => finish root true false VerdictDeny ProofInvalid reason AuthorityZero
      | None =>
          if negb (er_ToolCapabilityAvailable root) then finish root true true VerdictDeny ProofValid "tool capability unavailable" mandAuth
          else finish root true true VerdictAllow ProofValid "authorized" mandAuth
      end
  end.
Definition Authorize (root : EvaluationRoot) (_ : ObservedArtifact) : Decision := EvaluatePrincipalDerivationProof root.

(** ** Properties *)

(** One principal all the way: attested by the transport, bound to the session,
    authenticated as the agent and named in the mandate of a trusted principal. *)
Theorem derivation_allow_iff (root : EvaluationRoot) (seen : ObservedArtifact) :
  de_Verdict (Authorize root seen) = VerdictAllow <->
  er_SchemaVersion root = SchemaVersion /\ er_TransportTrustClass root = TransportAttested /\
  er_SessionIdentityBound root = true /\ er_AgentAuthenticated root = true /\ er_DelegationFromUser root = true /\
  er_ToolCapabilityAvailable root = true /\ er_MandatingPrincipal root <> "" /\ trusted_class (er_MandatingTrustClass root) /\
  exists p, p <> "" /\ er_TransportPrincipal root = p /\ er_SessionPrincipal root = p /\ er_AgentPrincipal root = p /\
    er_MandatedAgentPrincipal root = p.
Proof.
  rewrite <- (authority_table_user "UNTRUSTED_EXTERNAL" AuthorityZero) by (first [done|unfold trusted_class; naive_solver]).
  unfold Authorize, EvaluatePrincipalDerivationProof, authorityForTrust. destruct (_ || _) eqn:Es.
  { split; [done|]. intros (Hs & Ht & _). by rewrite Hs, Ht in Es. }
  apply orb_false_iff in Es as [Es _]. apply negb_false_iff, Z.eqb_eq in Es.
  destruct (authority_table _ _ _) as [a|]; [|split; [done|]; naive_solver].
  destruct (first_failure _) as [r|] eqn:Ef; cbn [de_Verdict finish].
  - split; [done|]. intros (_ & Ht & Hb & Ha & Hd & _ & Hm & (a' & [= <-] & Hu) & p & Hp & E1 & E2 & E3 & E4). exfalso.
    assert (Some r = None) as [=]. rewrite <- Ef. checks. rewrite E1, E2, E3, E4. by split_and!.
  - revert Ef. checks. intros (Ht & Hp & Hb & [_ E2] & Ha & [_ E3] & Hd & Hm & Hu & [_ E4] & _).
    destruct (er_ToolCapabilityAvailable root); cbn; [|naive_solver]. split; [|done]. intros _. split_and!; try done; [by exists a|].
    exists (er_TransportPrincipal root). split_and!; try done; congruence.
Qed.
