(* ===== verification/CausalAuthority.v ===== *)
(** Causal authority, [internal/causalauthority]: a shell effect is allowed
    when its immediate source is the principal that mandated exactly it.
    Content from outside stays data, whatever proof it claims. *)
From stdpp Require Import base strings list.
From Stdlib Require Import ZArith Lia.
From S2P Require Import Prelude Evaluators.
#[local] Open Scope Z_scope.

Definition SchemaVersion : Z := 1.
Definition EffectShellExecution : string := "SHELL_EXECUTION".
Definition TrustUntrustedExternalContent : string := "UNTRUSTED_EXTERNAL_CONTENT".

Record EvaluationRoot := {
  er_SchemaVersion : Z;
  er_MandateText : string;
  er_MandatingPrincipal : string;
  er_MandatingTrustClass : string;
  er_MandatedEffect : string;
  er_ImmediateSourcePrincipal : string;
  er_ImmediateSourceTrustClass : string;
  er_RequestedEffect : string;
  er_ToolPermissionValid : bool;
  er_CommandSyntacticallyValid : bool;
  er_AgentAuthenticated : bool
}.
Record ClaimedProof := {
  cp_Verdict : string;
  cp_Proof : string;
  cp_Reason : string;
  cp_Authority : string;
  cp_MandateDerivation : string;
  cp_Principal : string;
  cp_TrustClass : string;
  cp_InstructionSource : string
}.
Record ObservedArtifact := { oa_Content : string; oa_VisibleRole : string; oa_ClaimedProof : ClaimedProof }.
Record Decision := { de_Verdict : string; de_Proof : string; de_Reason : string; de_Evidence : list string }.

Definition authorityForTrust : string -> option string := authority_table TrustUntrustedExternalContent "DATA_ONLY".
Definition instructionSource (root : EvaluationRoot) (structuralOK : bool) : string :=
  if negb structuralOK then "untrusted external content"
  else if er_ImmediateSourceTrustClass root =s? TrustUntrustedExternalContent then "untrusted external content"
  else if er_ImmediateSourceTrustClass root =s? "TRUSTED_USER" then "trusted user mandate"
  else if er_ImmediateSourceTrustClass root =s? "TRUSTED_DEVELOPER" then "trusted developer mandate"
  else if er_ImmediateSourceTrustClass root =s? "TRUSTED_SYSTEM" then "trusted system mandate"
  else "untrusted external content".
Definition evidence (root : EvaluationRoot) (structuralOK causalValid : bool) (verdict proof : string) : list string := [
  "Tool permission " +:+ pick (er_ToolPermissionValid root) "VALID" "INVALID";
  "Command syntactically valid " +:+ pick (er_CommandSyntacticallyValid root) "YES" "NO";
  "Agent authenticated " +:+ pick (er_AgentAuthenticated root) "YES" "NO";
  "Instruction source " +:+ instructionSource root structuralOK;
  "Source authorized to invoke shell " +:+ pick (structuralOK && causalValid) "YES" "NO";
  "Mandate-derived reason for shell execution " +:+ pick (structuralOK && causalValid) "PRESENT" "ABSENT";
  "Causal Authority Proof " +:+ (if structuralOK then proof else ProofInvalid);
  "Execution " +:+ (if structuralOK then verdict else VerdictDeny)].
Definition finish (root : EvaluationRoot) (structuralOK causalValid : bool) (verdict proof reason : string) : Decision := {|
  de_Verdict := verdict; de_Proof := proof; de_Reason := reason; de_Evidence := evidence root structuralOK causalValid verdict proof |}.

Definition causal (root : EvaluationRoot) (mandAuth srcAuth : string) : bool :=
  atLeastUser mandAuth && (er_MandatedEffect root =s? EffectShellExecution) && (er_RequestedEffect root =s? er_MandatedEffect root) &&
  (er_ImmediateSourcePrincipal root =s? er_MandatingPrincipal root) && atLeastUser srcAuth.
Definition EvaluateCausalProof (root : EvaluationRoot) : Decision :=
  let refused := finish root false false VerdictDeny ProofInvalid "invalid evaluation root" in
  if negb (er_SchemaVersion root =? SchemaVersion) || (er_MandateText root =s? "") || (er_MandatingPrincipal root =s? "") ||
     (er_ImmediateSourcePrincipal root =s? "") then refused
  else if (er_MandatedEffect root =s? "") || (er_RequestedEffect root =s? "") then refused
  else match authorityForTrust (er_MandatingTrustClass root), authorityForTrust (er_ImmediateSourceTrustClass root) with
  | Some mandAuth, Some srcAuth =>
      let causalValid := causal root mandAuth srcAuth in
      let proof := pick causalValid ProofValid ProofInvalid in
      match first_failure [
        (er_AgentAuthenticated root, "agent unauthenticated"); (er_ToolPermissionValid root, "tool permission invalid");
        (er_CommandSyntacticallyValid root, "command syntax invalid"); (causalValid, "causal authority proof invalid")] with
      | Some reason => finish root true causalValid VerdictDeny proof reason
      | None => finish root true true VerdictAllow proof "authorized"
      end
  | _, _ => refused
  end.
Definition Authorize (root : EvaluationRoot) (_ : ObservedArtifact) : Decision := EvaluateCausalProof root.

(** ** Properties *)

(** A shell effect is allowed exactly when it is the mandated effect, its
    source is the mandating principal and both are of a trusted class, and the
    three ordinary checks pass.  With a source from outside it never is. *)
Theorem causal_allow_iff (root : EvaluationRoot) (seen : ObservedArtifact) :
  de_Verdict (Authorize root seen) = VerdictAllow <->
  er_SchemaVersion root = SchemaVersion /\ er_MandateText root <> "" /\ er_MandatingPrincipal root <> "" /\
  er_MandatedEffect root = EffectShellExecution /\ er_RequestedEffect root = EffectShellExecution /\
  er_ImmediateSourcePrincipal root = er_MandatingPrincipal root /\
  trusted_class (er_MandatingTrustClass root) /\ trusted_class (er_ImmediateSourceTrustClass root) /\
  er_AgentAuthenticated root = true /\ er_ToolPermissionValid root = true /\ er_CommandSyntacticallyValid root = true.
Proof.
  rewrite <- !(authority_table_user TrustUntrustedExternalContent "DATA_ONLY") by (first [done|unfold trusted_class; naive_solver]).
  unfold Authorize, EvaluateCausalProof, authorityForTrust. destruct (negb _ || _ || _ || _) eqn:Es.
  { split; [done|]. intros (E1 & E2 & E3 & _ & _ & E4 & _). exfalso.
    rewrite <- str_eqb_false in E2, E3. by rewrite E4, E1, E2, E3 in Es. }
  destruct ((er_MandatedEffect root =s? "") || _) eqn:Ee.
  { split; [done|]. intros (_ & _ & _ & E1 & E2 & _). by rewrite E1, E2 in Ee. }
  rewrite !orb_false_iff, negb_false_iff, Z.eqb_eq, !str_eqb_false in Es. destruct Es as [[[Es Et] Em] _].
  destruct (authority_table _ _ (er_MandatingTrustClass root)) as [a|]; [|split; [done|]; naive_solver].
  destruct (authority_table _ _ (er_ImmediateSourceTrustClass root)) as [b|]; [|split; [done|]; naive_solver].
  destruct (first_failure _) as [r|] eqn:Ef; cbn [de_Verdict finish].
  - split; [done|]. intros (_ & _ & _ & E1 & E2 & E3 & (a' & [= <-] & Ha) & (b' & [= <-] & Hb) & E4 & E5 & E6). exfalso.
    assert (Some r = None) as [=]. rewrite <- Ef. checks. unfold causal. rewrite E1, E2, E3, !str_eqb_refl, Ha, Hb. by split_and!.
  - revert Ef. unfold causal. checks. intros (Ha & Ht & Hc & [[[[E1 E2] E3] E4] E5] & _). split; [|done]. intros _.
    split_and!; try done; [congruence|by exists a|by exists b].
Qed.
