(* ===== verification/ControlPlane.v ===== *)
(** Control plane, [internal/controlplaneintegrity]: a valid mandate and the
    policy's consent count only when the four parts of the control plane run
    builds of the catalog that are trusted and not known as critical. *)
From stdpp Require Import base strings gmap list.
From Stdlib Require Import ZArith Lia.
From S2P Require Import Prelude Evaluators.
#[local] Open Scope Z_scope.

Definition SchemaVersion : Z := 1.
Definition IntegrityValid : string := "VALID".
Definition IntegrityUnproven : string := "UNPROVEN".
Definition IntegrityInvalid : string := "INVALID".

(** [CatalogTuple] and [Attestation], which convert into each other. *)
Record CatalogTuple := { ct_Kind : string; ct_Product : string; ct_Build : string; ct_Measurement : string }.
#[export] Instance CatalogTuple_dec : EqDecision CatalogTuple.
Proof. solve_decision. Defined.
Definition tuple (t : CatalogTuple) : string * string * string * string := (ct_Kind t, ct_Product t, ct_Build t, ct_Measurement t).
Record Catalog := { ca_TrustedBuilds : list CatalogTuple; ca_KnownCriticalBuilds : list CatalogTuple }.
Record EvaluationRoot := {
  er_SchemaVersion : Z;
  er_MandateStructurallyValid : bool;
  er_PolicyEngineAllow : bool;
  er_IdentityStore : CatalogTuple;
  er_PolicyStore : CatalogTuple;
  er_ExecutionRuntime : CatalogTuple;
  er_ResourceRegistry : CatalogTuple;
  er_Catalog : Catalog
}.
Record ClaimedProof := { cp_Verdict : string; cp_Proof : string; cp_Reason : string; cp_ControlPlane : string }.
Record ObservedArtifact := {
  oa_ClaimedPolicyBytes : string;
  oa_ClaimedPolicyAllow : bool;
  oa_ClaimedIdentity : CatalogTuple;
  oa_ClaimedPolicy : CatalogTuple;
  oa_ClaimedRuntime : CatalogTuple;
  oa_ClaimedRegistry : CatalogTuple;
  oa_VisibleRole : string;
  oa_ClaimedProof : ClaimedProof
}.
Record Decision := {
  de_Verdict : string;
  de_ControlPlane : string;
  de_Proof : string;
  de_Reason : string;
  de_IdentityIntegrity : string;
  de_PolicyIntegrity : string;
  de_RuntimeIntegrity : string;
  de_RegistryIntegrity : string
}.

Definition filled (t : CatalogTuple) : bool :=
  (ct_Kind t <>s? "") && (ct_Product t <>s? "") && (ct_Build t <>s? "") && (ct_Measurement t <>s? "").
Definition catalogOK (c : Catalog) : bool :=
  unique_by filled tuple ∅ (ca_TrustedBuilds c) &&
  unique_by (fun t => filled t && negb (bool_decide (t ∈ ca_TrustedBuilds c))) tuple ∅ (ca_KnownCriticalBuilds c).
Definition classify (a : CatalogTuple) (want : string) (c : Catalog) : string :=
  if negb (filled a) || (ct_Kind a <>s? want) then IntegrityInvalid
  else if bool_decide (a ∈ ca_KnownCriticalBuilds c) then IntegrityUnproven
  else if bool_decide (a ∈ ca_TrustedBuilds c) then IntegrityValid
  else IntegrityUnproven.

(** The two cases of one part, in the order of the code. *)
Definition part_steps (name status : string) : list (bool * string) :=
  [(status <>s? IntegrityInvalid, name +:+ " integrity invalid"); (status <>s? IntegrityUnproven, name +:+ " integrity unproven")].
Definition EvaluateControlPlaneIntegrityProof (root : EvaluationRoot) : Decision :=
  if negb (er_SchemaVersion root =? SchemaVersion) || negb (catalogOK (er_Catalog root)) then {|
    de_Verdict := VerdictDeny; de_ControlPlane := "INVALID"; de_Proof := ProofInvalid; de_Reason := "invalid evaluation root";
    de_IdentityIntegrity := IntegrityInvalid; de_PolicyIntegrity := IntegrityInvalid; de_RuntimeIntegrity := IntegrityInvalid;
    de_RegistryIntegrity := IntegrityInvalid |}
  else
    let c := er_Catalog root in
    let id := classify (er_IdentityStore root) "identity-store" c in
    let pol := classify (er_PolicyStore root) "policy-store" c in
    let rt := classify (er_ExecutionRuntime root) "execution-runtime" c in
    let reg := classify (er_ResourceRegistry root) "resource-registry" c in
    let valid := (id =s? IntegrityValid) && (pol =s? IntegrityValid) && (rt =s? IntegrityValid) && (reg =s? IntegrityValid) in
    let failure := first_failure (part_steps "identity-store" id ++ part_steps "policy-store" pol ++ part_steps "execution-runtime" rt ++
      part_steps "resource-registry" reg ++
      [(er_MandateStructurallyValid root, "mandate structurally invalid"); (er_PolicyEngineAllow root, "conventional policy denied")]) in
    {| de_Verdict := match failure with None => VerdictAllow | Some _ => VerdictDeny end;
       de_ControlPlane := pick valid "VALID" "INVALID"; de_Proof := pick valid ProofValid ProofInvalid; de_Reason := default "authorized" failure;
       de_IdentityIntegrity := id; de_PolicyIntegrity := pol; de_RuntimeIntegrity := rt; de_RegistryIntegrity := reg |}.
Definition Authorize (root : EvaluationRoot) (_ : ObservedArtifact) : Decision := EvaluateControlPlaneIntegrityProof root.
(** The lines of [d.Evidence]. *)
Definition evidence (root : EvaluationRoot) (d : Decision) : list string := [
  pick (er_MandateStructurallyValid root) "Mandate structurally VALID" "Mandate structurally INVALID";
  pick (er_PolicyEngineAllow root) "Conventional policy result ALLOW" "Conventional policy result DENY";
  "identity-store integrity " +:+ de_IdentityIntegrity d; "policy-store integrity " +:+ de_PolicyIntegrity d;
  "execution-runtime integrity " +:+ de_RuntimeIntegrity d; "resource-registry integrity " +:+ de_RegistryIntegrity d;
  "Control-Plane Integrity Proof " +:+ de_Proof d;
  pick (de_Verdict d =s? VerdictAllow) "CONTROL-PLANE EFFECT ALLOWED" "CONTROL-PLANE EFFECT DENIED"].

(** ** Properties *)

(** A part is in order: of its kind, and of a build that is trusted. *)
Definition proven (c : Catalog) (kind : string) (a : CatalogTuple) : Prop := ct_Kind a = kind /\ a ∈ ca_TrustedBuilds c.

Lemma classify_valid a want c : catalogOK c = true -> classify a want c = IntegrityValid <-> proven c want a.
Proof.
  unfold catalogOK. rewrite andb_true_iff, !unique_by_spec, !Forall_forall. intros [[Hf _] [Hc _]]. unfold classify, proven.
  destruct (ct_Kind a =s? want) eqn:Ek; bools; [|rewrite orb_true_r; naive_solver]. rewrite orb_false_r.
  destruct (decide (a ∈ ca_TrustedBuilds c)) as [Ht|Hn].
  - rewrite (Hf a Ht). cbn [negb]. rewrite bool_decide_eq_false_2, bool_decide_eq_true_2 by (try done; intros [_ Hk%negb_true_iff]%Hc%andb_true_iff; by apply bool_decide_eq_false in Hk). naive_solver.
  - rewrite (bool_decide_eq_false_2 (a ∈ ca_TrustedBuilds c)) by done. destruct (filled a); cbn [negb]; [|naive_solver]. case_bool_decide; naive_solver.
Qed.
Lemma classify_steps a want c name :
  Forall (fun s => s.1 = true) (part_steps name (classify a want c)) <-> classify a want c = IntegrityValid.
Proof. unfold part_steps, classify. repeat case_match; rewrite !Forall_cons, Forall_nil; naive_solver. Qed.

(** The mandate and the policy are obeyed exactly when all four parts of the
    control plane are of builds the catalog trusts. *)
Theorem control_plane_allow_iff (root : EvaluationRoot) (seen : ObservedArtifact) :
  de_Verdict (Authorize root seen) = VerdictAllow <->
  er_SchemaVersion root = SchemaVersion /\ catalogOK (er_Catalog root) = true /\
  proven (er_Catalog root) "identity-store" (er_IdentityStore root) /\ proven (er_Catalog root) "policy-store" (er_PolicyStore root) /\
  proven (er_Catalog root) "execution-runtime" (er_ExecutionRuntime root) /\
  proven (er_Catalog root) "resource-registry" (er_ResourceRegistry root) /\
  er_MandateStructurallyValid root = true /\ er_PolicyEngineAllow root = true.
Proof.
  unfold Authorize, EvaluateControlPlaneIntegrityProof. destruct (_ || _) eqn:Es.
  { split; [done|]. intros (E1 & E2 & _). by rewrite E1, E2 in Es. }
  rewrite orb_false_iff, !negb_false_iff, Z.eqb_eq in Es. destruct Es as [Es Hc]. cbn [de_Verdict]. rewrite failure_allow, first_failure_None, !Forall_app, !classify_steps, !classify_valid by done.
  rewrite !Forall_cons, Forall_nil. tauto.
Qed.
