(* ===== verification/HostTransitivity.v ===== *)
(** Host authority, [internal/hosttransitivity]: a grant holds for the
    principal, host and domain it is bound to, and does not travel with what
    is sent to another host.  [Decision] is without the fields that repeat the
    root's and the action's. *)
From stdpp Require Import base strings list.
From Stdlib Require Import ZArith Lia.
From S2P Require Import Prelude Evaluators.
#[local] Open Scope Z_scope.

Definition SchemaVersion : Z := 1.
Definition EffectTransfer : string := "TRANSFER".
Definition EffectCredentialRead : string := "CREDENTIAL_READ".
Definition EffectRemoteExec : string := "REMOTE_EXEC".
Definition EffectBulkEgress : string := "BULK_EGRESS".
Definition EffectPackageInstall : string := "PACKAGE_INSTALL".
Definition EffectPersistentListener : string := "PERSISTENT_LISTENER".
Definition EffectReplicaBootstrap : string := "REPLICA_BOOTSTRAP".

Record HostGrant := {
  hg_GrantID : string;
  hg_PrincipalID : string;
  hg_BoundHostID : string;
  hg_BoundExecutionDomain : string;
  hg_DeclaredHosts : list string;
  hg_CredentialReadPaths : list string;
  hg_BulkEgressPaths : list string;
  hg_AllowPackageInstall : bool;
  hg_AllowPersistentListener : bool;
  hg_AllowReplicaBootstrap : bool
}.
Record EvaluationRoot := {
  er_SchemaVersion : Z;
  er_HeldPrincipalID : string;
  er_HeldHostID : string;
  er_HeldExecutionDomain : string;
  er_Grant : HostGrant;
  er_HostAuthorityEnabled : bool
}.
Record ProposedAction := {
  pa_ActionID : string;
  pa_EffectClass : string;
  pa_RequestedPrincipalID : string;
  pa_RequestedHostID : string;
  pa_RequestedExecutionDomain : string;
  pa_ObservedPrincipalID : string;
  pa_ObservedHostID : string;
  pa_ObservedExecutionDomain : string;
  pa_TargetHostID : string;
  pa_ResourcePath : string;
  pa_EgressPath : string;
  pa_ClaimedInheritedGrantID : string;
  pa_ClaimedReplicaPrincipalID : string;
  pa_ClaimedHostAuthorized : bool;
  pa_ClaimedGrantValid : bool;
  pa_ClaimedProofValid : bool;
  pa_ClaimedAuthorized : bool
}.
Record Decision := {
  de_Verdict : string;
  de_Proof : string;
  de_Reason : string;
  de_LocalGrantBinding : string;
  de_TargetHostAuthority : string;
  de_PathAuthority : string;
  de_EdgeAuthority : string
}.
Definition uniform (status proof reason : string) : Decision := {|
  de_Verdict := VerdictDeny; de_Proof := proof; de_Reason := reason; de_LocalGrantBinding := status;
  de_TargetHostAuthority := status; de_PathAuthority := status; de_EdgeAuthority := status |}.

Definition knownEffect (e : string) : bool :=
  (e =s? EffectTransfer) || (e =s? EffectCredentialRead) || (e =s? EffectRemoteExec) || (e =s? EffectBulkEgress) ||
  (e =s? EffectPackageInstall) || (e =s? EffectPersistentListener) || (e =s? EffectReplicaBootstrap).
Definition structuralOK (r : EvaluationRoot) : bool :=
  let g := er_Grant r in
  (er_SchemaVersion r =? SchemaVersion) && (er_HeldPrincipalID r <>s? "") && (er_HeldHostID r <>s? "") && (er_HeldExecutionDomain r <>s? "") &&
  (hg_GrantID g <>s? "") && (hg_PrincipalID g =s? er_HeldPrincipalID r) && (hg_BoundHostID g =s? er_HeldHostID r) &&
  (hg_BoundExecutionDomain g =s? er_HeldExecutionDomain r) && negb (bool_decide (hg_DeclaredHosts g = [])) &&
  uniqueFilled (hg_DeclaredHosts g) && has (hg_DeclaredHosts g) (hg_BoundHostID g) &&
  uniqueFilled (hg_CredentialReadPaths g) && uniqueFilled (hg_BulkEgressPaths g).
Definition hostComp (e target : string) (g : HostGrant) (held : string) : bool :=
  if (e =s? EffectCredentialRead) || (e =s? EffectPackageInstall) || (e =s? EffectPersistentListener) || (e =s? EffectReplicaBootstrap)
  then target =s? hg_BoundHostID g
  else if (e =s? EffectRemoteExec) || (e =s? EffectBulkEgress) then has (hg_DeclaredHosts g) target
  else if e =s? EffectTransfer then has (hg_DeclaredHosts g) held && has (hg_DeclaredHosts g) target
  else false.

(** [c13] to [c19] *)
Definition edge_steps (root : EvaluationRoot) (action : ProposedAction) : list (bool * string) :=
  let g := er_Grant root in
  let e := pa_EffectClass action in
  let local := pa_TargetHostID action =s? hg_BoundHostID g in
  let declared := has (hg_DeclaredHosts g) (pa_TargetHostID action) in [
  ((e <>s? EffectCredentialRead) || local && has (hg_CredentialReadPaths g) (pa_ResourcePath action), "credential read outside grant");
  ((e <>s? EffectRemoteExec) || declared, "remote-exec target host undeclared");
  ((e <>s? EffectBulkEgress) || declared && has (hg_BulkEgressPaths g) (pa_EgressPath action), "bulk egress outside declared paths");
  ((e <>s? EffectPackageInstall) || local && hg_AllowPackageInstall g, "package install not granted on bound host");
  ((e <>s? EffectPersistentListener) || local && hg_AllowPersistentListener g, "persistent listener not granted");
  ((e <>s? EffectReplicaBootstrap) || local && hg_AllowReplicaBootstrap g, "replica bootstrap lacks fresh local grant");
  ((e <>s? EffectTransfer) || has (hg_DeclaredHosts g) (er_HeldHostID root) && declared, "transfer host undeclared")].
Definition evaluate_enabled (root : EvaluationRoot) (action : ProposedAction) : Decision :=
  let g := er_Grant root in
  let e := pa_EffectClass action in
  let c11 := (pa_RequestedPrincipalID action =s? er_HeldPrincipalID root) && (pa_RequestedHostID action =s? er_HeldHostID root) &&
             (pa_RequestedExecutionDomain action =s? er_HeldExecutionDomain root) in
  let c12 := (pa_ObservedPrincipalID action =s? pa_RequestedPrincipalID action) && (pa_ObservedHostID action =s? pa_RequestedHostID action) &&
             (pa_ObservedExecutionDomain action =s? pa_RequestedExecutionDomain action) in
  let failure := first_failure ([(c11, "requested binding does not match held grant binding");
    (c12, "observed binding does not match requested binding")] ++ edge_steps root action) in
  {| de_Verdict := match failure with None => VerdictAllow | Some _ => VerdictDeny end;
     de_Proof := match failure with None => ProofValid | Some _ => ProofInvalid end;
     de_Reason := default "authorized" failure;
     de_LocalGrantBinding := pick (c11 && c12) "VALID" "INVALID";
     de_TargetHostAuthority := pick (hostComp e (pa_TargetHostID action) g (er_HeldHostID root)) "PRESENT" "ABSENT";
     de_PathAuthority := if e =s? EffectBulkEgress then pick (has (hg_BulkEgressPaths g) (pa_EgressPath action)) "PRESENT" "ABSENT"
                         else if e =s? EffectCredentialRead then pick (has (hg_CredentialReadPaths g) (pa_ResourcePath action)) "PRESENT" "ABSENT"
                         else "NOT_APPLICABLE";
     de_EdgeAuthority := pick (bool_decide (first_failure (edge_steps root action) = None)) "PRESENT" "ABSENT" |}.
Definition EvaluateHostTransitivity (root : EvaluationRoot) (action : ProposedAction) : Decision :=
  match first_failure [
    (structuralOK root, "invalid evaluation root"); (pa_ActionID action <>s? "", "action identifier absent");
    (knownEffect (pa_EffectClass action), "unsupported effect class");
    (pa_RequestedPrincipalID action <>s? "", "requested principal absent"); (pa_RequestedHostID action <>s? "", "requested host absent");
    (pa_RequestedExecutionDomain action <>s? "", "requested execution domain absent");
    (pa_ObservedPrincipalID action <>s? "", "observed principal absent"); (pa_ObservedHostID action <>s? "", "observed host absent");
    (pa_ObservedExecutionDomain action <>s? "", "observed execution domain absent"); (pa_TargetHostID action <>s? "", "target host absent")] with
  | Some reason => uniform "INVALID" ProofInvalid reason
  | None => if negb (er_HostAuthorityEnabled root) then uniform "DISABLED" ProofDisabled "host authority disabled"
            else evaluate_enabled root action
  end.
Definition Authorize (root : EvaluationRoot) (action : ProposedAction) : Decision := EvaluateHostTransitivity root action.
Definition binding (principal host domain : string) : string := principal +:+ "@" +:+ host +:+ "/" +:+ domain.
(** The lines of [d.Evidence]. *)
Definition evidence (root : EvaluationRoot) (action : ProposedAction) (d : Decision) : list string := [
  "Grant " +:+ hg_GrantID (er_Grant root);
  "Held binding " +:+ binding (er_HeldPrincipalID root) (er_HeldHostID root) (er_HeldExecutionDomain root);
  "Requested binding " +:+ binding (pa_RequestedPrincipalID action) (pa_RequestedHostID action) (pa_RequestedExecutionDomain action);
  "Observed binding " +:+ binding (pa_ObservedPrincipalID action) (pa_ObservedHostID action) (pa_ObservedExecutionDomain action);
  "Target host " +:+ pa_TargetHostID action;
  "Authority local=" +:+ de_LocalGrantBinding d +:+ " target=" +:+ de_TargetHostAuthority d +:+ " path=" +:+ de_PathAuthority d +:+
    " edge=" +:+ de_EdgeAuthority d;
  "Host Transitivity Proof " +:+ de_Proof d; pick (de_Verdict d =s? VerdictAllow) "HOST EFFECT ALLOWED" "HOST EFFECT DENIED"].

(** ** Properties *)

(** What the grant [g] lets an effect do at a target. *)
Inductive granted (g : HostGrant) (action : ProposedAction) : Prop :=
  | granted_transfer : pa_EffectClass action = EffectTransfer -> In (pa_TargetHostID action) (hg_DeclaredHosts g) -> granted g action
  | granted_exec : pa_EffectClass action = EffectRemoteExec -> In (pa_TargetHostID action) (hg_DeclaredHosts g) -> granted g action
  | granted_egress : pa_EffectClass action = EffectBulkEgress -> In (pa_TargetHostID action) (hg_DeclaredHosts g) ->
      In (pa_EgressPath action) (hg_BulkEgressPaths g) -> granted g action
  | granted_read : pa_EffectClass action = EffectCredentialRead -> pa_TargetHostID action = hg_BoundHostID g ->
      In (pa_ResourcePath action) (hg_CredentialReadPaths g) -> granted g action
  | granted_install : pa_EffectClass action = EffectPackageInstall -> pa_TargetHostID action = hg_BoundHostID g ->
      hg_AllowPackageInstall g = true -> granted g action
  | granted_listener : pa_EffectClass action = EffectPersistentListener -> pa_TargetHostID action = hg_BoundHostID g ->
      hg_AllowPersistentListener g = true -> granted g action
  | granted_replica : pa_EffectClass action = EffectReplicaBootstrap -> pa_TargetHostID action = hg_BoundHostID g ->
      hg_AllowReplicaBootstrap g = true -> granted g action.

Lemma knownEffect_cases e : knownEffect e = true <->
  e = EffectTransfer \/ e = EffectCredentialRead \/ e = EffectRemoteExec \/ e = EffectBulkEgress \/ e = EffectPackageInstall \/
  e = EffectPersistentListener \/ e = EffectReplicaBootstrap.
Proof. unfold knownEffect. rewrite !orb_true_iff, !str_eqb_true. tauto. Qed.
Lemma edges_granted root action : structuralOK root = true ->
  knownEffect (pa_EffectClass action) = true /\ Forall (fun s => s.1 = true) (edge_steps root action) <-> granted (er_Grant root) action.
Proof.
  intros Hok. assert (In (er_HeldHostID root) (hg_DeclaredHosts (er_Grant root))) as Hheld.
  { unfold structuralOK in Hok. rewrite !andb_true_iff, !str_eqb_true, has_In in Hok. decompose [and] Hok. congruence. }
  apply has_In in Hheld. rewrite knownEffect_cases. unfold edge_steps. rewrite Hheld. split.
  - intros [Hk Hf]. revert Hf. rewrite !Forall_cons. cbn [fst].
    destruct Hk as [E|[E|[E|[E|[E|[E|E]]]]]]; rewrite E; cbn; rewrite ?andb_true_iff, ?str_eqb_true, ?has_In; intros Hf; decompose [and] Hf;
      [eapply granted_transfer|eapply granted_read|eapply granted_exec|eapply granted_egress|eapply granted_install|eapply granted_listener|eapply granted_replica]; done.
  - intros Hg. split; [destruct Hg; tauto|]. destruct Hg as [E Ht|E Ht|E Ht Hp|E Ht Hp|E Ht Hp|E Ht Hp|E Ht Hp]; rewrite E;
      try (apply has_In in Ht; rewrite Ht); try (rewrite Ht, !str_eqb_refl); try (apply has_In in Hp); try rewrite Hp; rewrite !Forall_cons, Forall_nil; cbn; rewrite ?orb_true_r; by split_and!.
Qed.

(** An effect is allowed exactly when principal, host and domain are the held
    ones, as requested and as observed, and the grant bound to them covers the
    effect at its target.  A grant another host claims to have inherited covers
    nothing. *)
Theorem host_allow_iff (root : EvaluationRoot) (action : ProposedAction) :
  de_Verdict (Authorize root action) = VerdictAllow <->
  structuralOK root = true /\ er_HostAuthorityEnabled root = true /\ pa_ActionID action <> "" /\ pa_TargetHostID action <> "" /\
  pa_RequestedPrincipalID action = er_HeldPrincipalID root /\ pa_RequestedHostID action = er_HeldHostID root /\
  pa_RequestedExecutionDomain action = er_HeldExecutionDomain root /\ pa_ObservedPrincipalID action = er_HeldPrincipalID root /\
  pa_ObservedHostID action = er_HeldHostID root /\ pa_ObservedExecutionDomain action = er_HeldExecutionDomain root /\
  granted (er_Grant root) action.
Proof.
  unfold Authorize, EvaluateHostTransitivity. destruct (first_failure _) as [r|] eqn:Ef.
  - split; [done|]. intros (Hok & _ & Ha & Ht & E1 & E2 & E3 & E4 & E5 & E6 & Hg). exfalso. assert (Some r = None) as [=]. rewrite <- Ef.
    checks. rewrite E1, E2, E3, E4, E5, E6. apply edges_granted in Hg as [Hk _]; [|done]. split; [done|]. unfold structuralOK in Hok.
    rewrite !andb_true_iff, !str_neqb_true in Hok. tauto.
  - revert Ef. checks. intros (Hok & Ha & Hk & _ & _ & _ & _ & _ & _ & Ht & _). destruct (er_HostAuthorityEnabled root); cbn [negb]; [|naive_solver].
    rewrite <- edges_granted by done. unfold evaluate_enabled. cbn [de_Verdict].
    rewrite failure_allow, first_failure_None, Forall_app, !Forall_cons, Forall_nil. cbn [fst]. rewrite !andb_true_iff, !str_eqb_true. split.
    + intros [([[E1 E2] E3] & [[E4 E5] E6] & _) Hf]. split_and!; try done; congruence.
    + intros (_ & _ & _ & _ & E1 & E2 & E3 & E4 & E5 & E6 & _ & Hf). split; [|done]. by split_and!; first [done|congruence].
Qed.
