(* ===== verification/AoepState.v ===== *)
(** Persistent state, [internal/aoepstate]: the oracle that judges an action
    at its boundary against held taints, the permission epoch, the side effects
    completed under an idempotency key and the authority of fragments.
    [Decision] is without the fields that repeat the root's and the action's;
    [MatchedTaint] is the action's taint on every path. *)
From stdpp Require Import base strings gmap list.
From Stdlib Require Import ZArith Lia.
From S2P Require Import Prelude GoStrings Evaluators.
#[local] Open Scope Z_scope.

Definition SchemaVersion : Z := 1.
Definition KindSensitiveRead : string := "SENSITIVE_READ".
Definition KindEgressSend : string := "EGRESS_SEND".
Definition KindPrivilegedAction : string := "PRIVILEGED_ACTION".
Definition KindSideEffect : string := "SIDE_EFFECT".
Definition KindAuthoritySink : string := "AUTHORITY_SINK".
Definition DispositionObserve : string := "OBSERVE".
Definition DispositionExecute : string := "EXECUTE".
Definition DispositionReplay : string := "REPLAY".
Definition DispositionBlock : string := "BLOCK".
Definition AuthorityDataOnly : string := "DATA_ONLY".

Record CompletedRecord := { cr_Key : string; cr_Operation : string; cr_RequestDigest : string; cr_ResultDigest : string }.
Record FragmentRecord := { fr_FragmentID : string; fr_Authority : string }.
Record EvaluationRoot := {
  er_SchemaVersion : Z;
  er_EnforcementEnabled : bool;
  er_Taints : list string;
  er_CurrentPermissionEpoch : Z;
  er_Completed : list CompletedRecord;
  er_Fragments : list FragmentRecord
}.
Record ProposedAction := {
  pa_ActionID : string;
  pa_Kind : string;
  pa_TaintID : string;
  pa_PermissionEpoch : Z;
  pa_Operation : string;
  pa_RequestDigest : string;
  pa_IdempotencyKey : string;
  pa_RequiredAuthority : string;
  pa_FragmentIDs : list string;
  pa_ClaimedAuthorization : string;
  pa_ClaimedAuthority : string;
  pa_ClaimedCurrentEpoch : Z;
  pa_ClaimedReplay : bool;
  pa_ClaimedResultDigest : string
}.
Record Decision := {
  de_Verdict : string;
  de_Disposition : string;
  de_Proof : string;
  de_Reason : string;
  de_ResultDigest : string
}.
(** [evidenceFacts], with what [populateFacts] writes into the decision. *)
Record evidenceFacts := {
  f_taintPresent : bool;
  f_completedPresent : bool;
  f_operationEqual : bool;
  f_requestEqual : bool;
  f_RecordedOperation : string;
  f_RecordedRequestDigest : string;
  f_resolvedFragments : Z;
  f_EffectiveAuthority : string
}.

(** ** The root and the action *)

Definition record_ok (rec : CompletedRecord) : bool :=
  (cr_Key rec <>s? "") && (cr_Operation rec <>s? "") && (cr_RequestDigest rec <>s? "") && (cr_ResultDigest rec <>s? "").
Definition fragment_ok (frag : FragmentRecord) : bool :=
  (fr_FragmentID frag <>s? "") && ((fr_Authority frag =s? AuthorityDataOnly) || (fr_Authority frag =s? AuthorityUser)).
Definition rootOK (r : EvaluationRoot) : bool :=
  if negb (er_SchemaVersion r =? SchemaVersion) || (er_CurrentPermissionEpoch r <=? 0) then false
  else if negb (uniqueFilled (er_Taints r)) then false
  else unique_by record_ok cr_Key ∅ (er_Completed r) && unique_by fragment_ok fr_FragmentID ∅ (er_Fragments r).

Definition no_fragments (a : ProposedAction) : bool := bool_decide (pa_FragmentIDs a = []).
Definition taintKindExtras (a : ProposedAction) : bool :=
  negb (pa_PermissionEpoch a =? 0) || (pa_Operation a <>s? "") || (pa_RequestDigest a <>s? "") || (pa_IdempotencyKey a <>s? "") ||
  (pa_RequiredAuthority a <>s? "") || negb (no_fragments a).
Definition privilegedExtras (a : ProposedAction) : bool :=
  (pa_TaintID a <>s? "") || (pa_Operation a <>s? "") || (pa_RequestDigest a <>s? "") || (pa_IdempotencyKey a <>s? "") ||
  (pa_RequiredAuthority a <>s? "") || negb (no_fragments a).
Definition sideEffectExtras (a : ProposedAction) : bool :=
  (pa_TaintID a <>s? "") || negb (pa_PermissionEpoch a =? 0) || (pa_RequiredAuthority a <>s? "") || negb (no_fragments a).
Definition sinkExtras (a : ProposedAction) : bool :=
  (pa_TaintID a <>s? "") || negb (pa_PermissionEpoch a =? 0) || (pa_Operation a <>s? "") || (pa_RequestDigest a <>s? "") ||
  (pa_IdempotencyKey a <>s? "").
Definition hasTaint (root : EvaluationRoot) (id : string) : bool := has (er_Taints root) id.
Definition findCompleted (root : EvaluationRoot) (key : string) : option CompletedRecord :=
  if key =s? "" then None else List.find (fun rec => cr_Key rec =s? key) (er_Completed root).
Definition fragmentAuthority (root : EvaluationRoot) (id : string) : option string :=
  fr_Authority <$> List.find (fun frag => fr_FragmentID frag =s? id) (er_Fragments root).
(** The loop of [resolveFragments] from [effective] and [n]: the authority,
    how many are resolved and whether all are. *)
Fixpoint resolve_from (root : EvaluationRoot) (effective : string) (n : Z) (ids : list string) : string * Z * bool :=
  match ids with
  | [] => (effective, n, true)
  | id :: ids =>
      match fragmentAuthority root id with
      | None => ("", n, false)
      | Some auth => resolve_from root (if auth =s? AuthorityDataOnly then AuthorityDataOnly else effective) (n + 1) ids
      end
  end.
Definition resolveFragments (root : EvaluationRoot) (ids : list string) : string * Z * bool := resolve_from root AuthorityUser 0 ids.
Definition actionOK (root : EvaluationRoot) (a : ProposedAction) : bool :=
  let kind := pa_Kind a in
  if pa_ActionID a =s? "" then false
  else if (kind =s? KindSensitiveRead) || (kind =s? KindEgressSend) then (pa_TaintID a <>s? "") && negb (taintKindExtras a)
  else if kind =s? KindPrivilegedAction then (0 <? pa_PermissionEpoch a) && negb (privilegedExtras a)
  else if kind =s? KindSideEffect then (pa_Operation a <>s? "") && (pa_RequestDigest a <>s? "") && negb (sideEffectExtras a)
  else if kind =s? KindAuthoritySink then
    if (pa_RequiredAuthority a <>s? AuthorityUser) || no_fragments a || negb (uniqueFilled (pa_FragmentIDs a)) || sinkExtras a then false
    else (resolveFragments root (pa_FragmentIDs a)).2
  else false.

(** ** The decision *)

Definition populateFacts (root : EvaluationRoot) (action : ProposedAction) : evidenceFacts :=
  let rec := findCompleted root (pa_IdempotencyKey action) in
  let side := pa_Kind action =s? KindSideEffect in
  let '(eff, n, ok) := if no_fragments action then ("", 0, false) else resolveFragments root (pa_FragmentIDs action) in
  {| f_taintPresent := (pa_TaintID action <>s? "") && hasTaint root (pa_TaintID action);
     f_completedPresent := bool_decide (is_Some rec);
     f_operationEqual := match rec with Some rec => cr_Operation rec =s? pa_Operation action | None => false end;
     f_requestEqual := match rec with Some rec => cr_RequestDigest rec =s? pa_RequestDigest action | None => false end;
     f_RecordedOperation := match rec with Some rec => cr_Operation rec | None => if side then pa_Operation action else "" end;
     f_RecordedRequestDigest := match rec with Some rec => cr_RequestDigest rec | None => if side then pa_RequestDigest action else "" end;
     f_resolvedFragments := n;
     f_EffectiveAuthority := if ok then eff else "" |}.
Definition blocked (reason : string) : Decision := {|
  de_Verdict := VerdictDeny; de_Disposition := DispositionBlock; de_Proof := ProofInvalid; de_Reason := reason; de_ResultDigest := "" |}.
Definition allowed (disposition reason result : string) : Decision := {|
  de_Verdict := VerdictAllow; de_Disposition := disposition; de_Proof := ProofValid; de_Reason := reason; de_ResultDigest := result |}.
Definition applyEnabled (root : EvaluationRoot) (action : ProposedAction) (f : evidenceFacts) : Decision :=
  let kind := pa_Kind action in
  if kind =s? KindSensitiveRead then allowed DispositionObserve "sensitive source observed" ""
  else if kind =s? KindEgressSend then
    if f_taintPresent f then blocked "sensitive taint blocks egress" else allowed DispositionExecute "" ""
  else if kind =s? KindPrivilegedAction then
    if negb (pa_PermissionEpoch action =? er_CurrentPermissionEpoch root) then blocked "permission epoch stale"
    else allowed DispositionExecute "permission epoch current" ""
  else if kind =s? KindSideEffect then
    if pa_IdempotencyKey action =s? "" then blocked "idempotency key required"
    else match findCompleted root (pa_IdempotencyKey action) with
    | None => allowed DispositionExecute "first side effect authorized" ""
    | Some rec =>
        if (cr_Operation rec =s? pa_Operation action) && (cr_RequestDigest rec =s? pa_RequestDigest action)
        then allowed DispositionReplay "completed result replayed" (cr_ResultDigest rec)
        else blocked "idempotency key collision"
    end
  else if kind =s? KindAuthoritySink then
    if f_EffectiveAuthority f <>s? AuthorityUser then blocked "untrusted fragment cannot authorize sink"
    else allowed DispositionExecute "fragment authority sufficient" ""
  else blocked "invalid evaluation root".
Definition Authorize (root : EvaluationRoot) (action : ProposedAction) : Decision :=
  let f := populateFacts root action in
  if negb (rootOK root) then blocked "invalid evaluation root"
  else if negb (actionOK root action) then blocked "invalid proposed action"
  else if negb (er_EnforcementEnabled root) then {|
    de_Verdict := VerdictAllow; de_Disposition := if pa_Kind action =s? KindSensitiveRead then DispositionObserve else DispositionExecute;
    de_Proof := ProofDisabled; de_Reason := "enforcement disabled"; de_ResultDigest := "" |}
  else applyEnabled root action f.

Definition actionWord (disp : string) : string :=
  if disp =s? DispositionObserve then "OBSERVED" else if disp =s? DispositionExecute then "EXECUTED"
  else if disp =s? DispositionReplay then "REPLAYED" else "BLOCKED".
(** [selector], [match] and [binding] *)
Definition evidence_lines (root : EvaluationRoot) (action : ProposedAction) (f : evidenceFacts) : list string :=
  let kind := pa_Kind action in
  let epoch := pa_PermissionEpoch action in
  if (kind =s? KindSensitiveRead) || (kind =s? KindEgressSend) then
    ["taint=" +:+ pa_TaintID action; "taint_present=" +:+ FormatBool (f_taintPresent f); "taint_id=" +:+ pa_TaintID action]
  else if kind =s? KindPrivilegedAction then
    ["epoch=" +:+ Itoa epoch; "current_epoch=" +:+ Itoa (er_CurrentPermissionEpoch root);
     "epoch_equal=" +:+ FormatBool ((epoch =? er_CurrentPermissionEpoch root) && (0 <? epoch))]
  else if kind =s? KindSideEffect then
    ["idempotency_key=" +:+ pa_IdempotencyKey action; "completed=" +:+ pick (f_completedPresent f) "present" "absent";
     "operation_equal=" +:+ FormatBool (f_operationEqual f) +:+ " request_equal=" +:+ FormatBool (f_requestEqual f) +:+
     (if (f_RecordedOperation f <>s? "") || (f_RecordedRequestDigest f <>s? "")
      then " operation=" +:+ f_RecordedOperation f +:+ " request=" +:+ f_RecordedRequestDigest f else "")]
  else if kind =s? KindAuthoritySink then
    ["fragments=" +:+ String.concat "," (pa_FragmentIDs action); "resolved_fragments=" +:+ Itoa (f_resolvedFragments f);
     "required=" +:+ pa_RequiredAuthority action +:+ " effective=" +:+ f_EffectiveAuthority f]
  else ["selector="; "state="; "binding="].
Definition renderEvidence (root : EvaluationRoot) (action : ProposedAction) (d : Decision) : list string :=
  let f := populateFacts root action in
  ["schema=" +:+ Itoa (er_SchemaVersion root) +:+ " enforcement=" +:+ pick (er_EnforcementEnabled root) "enabled" "disabled" +:+
     " action=" +:+ pa_ActionID action;
   "kind=" +:+ pa_Kind action +:+ " verdict=" +:+ de_Verdict d +:+ " disposition=" +:+ de_Disposition d] ++
  evidence_lines root action f ++
  ["AOEP Persistent-State Proof " +:+ de_Proof d; "reason " +:+ de_Reason d; "ACTION " +:+ actionWord (de_Disposition d)].

(** ** Properties *)

(** What the held state lets an action do. *)
Inductive permitted (root : EvaluationRoot) (a : ProposedAction) : string -> Prop :=
  | permitted_read : pa_Kind a = KindSensitiveRead -> permitted root a DispositionObserve
  | permitted_send : pa_Kind a = KindEgressSend -> ~ In (pa_TaintID a) (er_Taints root) -> permitted root a DispositionExecute
  | permitted_epoch : pa_Kind a = KindPrivilegedAction -> pa_PermissionEpoch a = er_CurrentPermissionEpoch root ->
      permitted root a DispositionExecute
  | permitted_first : pa_Kind a = KindSideEffect -> pa_IdempotencyKey a <> "" ->
      (forall rec, In rec (er_Completed root) -> cr_Key rec <> pa_IdempotencyKey a) -> permitted root a DispositionExecute
  | permitted_replay rec : pa_Kind a = KindSideEffect -> In rec (er_Completed root) -> cr_Key rec = pa_IdempotencyKey a ->
      cr_Operation rec = pa_Operation a -> cr_RequestDigest rec = pa_RequestDigest a -> permitted root a DispositionReplay
  | permitted_sink : pa_Kind a = KindAuthoritySink ->
      Forall (fun id => In {| fr_FragmentID := id; fr_Authority := AuthorityUser |} (er_Fragments root)) (pa_FragmentIDs a) ->
      permitted root a DispositionExecute.

Lemma rootOK_spec r : rootOK r = true ->
  Forall (fun rec => record_ok rec = true) (er_Completed r) /\ NoDup (cr_Key <$> er_Completed r) /\
  Forall (fun frag => fragment_ok frag = true) (er_Fragments r) /\ NoDup (fr_FragmentID <$> er_Fragments r).
Proof.
  unfold rootOK. destruct (_ || _); [done|]. destruct (negb (uniqueFilled _)); [done|]. rewrite andb_true_iff, !unique_by_spec. tauto.
Qed.
Lemma findCompleted_Some root key rec : rootOK root = true ->
  findCompleted root key = Some rec <-> In rec (er_Completed root) /\ cr_Key rec = key.
Proof.
  intros (Hrec & Hnd & _)%rootOK_spec. rewrite Forall_forall in Hrec. unfold findCompleted. destruct (key =s? "") eqn:Ek; bools.
  - split; [done|]. intros [Hin%list_elem_of_In Hk]. apply Hrec in Hin. unfold record_ok in Hin. by rewrite Hk in Hin.
  - by apply find_key.
Qed.
Lemma findCompleted_None root key : rootOK root = true ->
  findCompleted root key = None <-> forall rec, In rec (er_Completed root) -> cr_Key rec <> key.
Proof.
  intros Hok. split.
  - intros E rec Hin Hk. by rewrite (proj2 (findCompleted_Some root key rec Hok)) in E.
  - intros Hn. destruct (findCompleted root key) as [rec|] eqn:E; [|done]. apply findCompleted_Some in E as [Hin Hk]; [|done]. by destruct (Hn rec Hin).
Qed.
Lemma fragmentAuthority_spec root id auth : rootOK root = true ->
  fragmentAuthority root id = Some auth <-> In {| fr_FragmentID := id; fr_Authority := auth |} (er_Fragments root).
Proof.
  intros (_ & _ & _ & Hnd)%rootOK_spec. unfold fragmentAuthority. rewrite fmap_Some. setoid_rewrite (find_key fr_FragmentID _ _ _ Hnd). split.
  - intros ([i a] & [Hin <-] & ->). exact Hin.
  - intros Hin. by exists {| fr_FragmentID := id; fr_Authority := auth |}.
Qed.
Lemma fragmentAuthority_kind root id auth : rootOK root = true -> fragmentAuthority root id = Some auth ->
  auth = AuthorityDataOnly \/ auth = AuthorityUser.
Proof.
  intros Hok Hf. apply fragmentAuthority_spec in Hf; [|done]. apply rootOK_spec in Hok as (_ & _ & Hf' & _).
  rewrite Forall_forall in Hf'. apply list_elem_of_In, Hf' in Hf. unfold fragment_ok in Hf.
  cbn in Hf. rewrite andb_true_iff, orb_true_iff, !str_eqb_true in Hf. tauto.
Qed.
Lemma resolve_user root effective n ids : rootOK root = true -> (resolve_from root effective n ids).2 = true ->
  (resolve_from root effective n ids).1.1 = AuthorityUser <->
  effective = AuthorityUser /\ Forall (fun id => fragmentAuthority root id = Some AuthorityUser) ids.
Proof.
  intros Hok. revert effective n. induction ids as [|id ids IH]; intros effective n; cbn [resolve_from].
  - intros _. cbn. rewrite Forall_nil. tauto.
  - destruct (fragmentAuthority root id) as [auth|] eqn:Ea; [|done]. intros Hr. rewrite IH by done. rewrite Forall_cons, Ea.
    destruct (fragmentAuthority_kind root id auth Hok Ea) as [-> | ->]; cbn.
    + split; [by intros [? _]|by intros (_ & ? & _)].
    + tauto.
Qed.

Lemma no_taint_send root a : pa_TaintID a <> "" ->
  f_taintPresent (populateFacts root a) = false <-> ~ In (pa_TaintID a) (er_Taints root).
Proof.
  intros Ht%str_neqb_true. unfold populateFacts. destruct (if no_fragments a then _ else _) as [[eff n] ok]. cbn [f_taintPresent].
  rewrite Ht. cbn [andb]. unfold hasTaint. by rewrite <- not_true_iff_false, has_In.
Qed.
Lemma sink_authority root a : rootOK root = true -> no_fragments a = false -> (resolveFragments root (pa_FragmentIDs a)).2 = true ->
  f_EffectiveAuthority (populateFacts root a) = AuthorityUser <->
  Forall (fun id => In {| fr_FragmentID := id; fr_Authority := AuthorityUser |} (er_Fragments root)) (pa_FragmentIDs a).
Proof.
  intros Hok Hno Hr. unfold populateFacts. rewrite Hno. pose proof (resolve_user root AuthorityUser 0 _ Hok Hr) as Hu. unfold resolveFragments in *.
  destruct (resolve_from root AuthorityUser 0 (pa_FragmentIDs a)) as [[eff n] ok]. cbn in Hu, Hr |- *. subst ok. rewrite Hu.
  setoid_rewrite (fragmentAuthority_spec root _ _ Hok). tauto.
Qed.
Lemma allowed_inv disp disp' reason result :
  (de_Verdict (allowed disp reason result) = VerdictAllow /\ de_Disposition (allowed disp reason result) = disp') <-> disp' = disp.
Proof. unfold allowed. cbn. naive_solver. Qed.
Lemma blocked_inv reason disp :
  (de_Verdict (blocked reason) = VerdictAllow /\ de_Disposition (blocked reason) = disp) <-> False.
Proof. split; [by intros [? _]|done]. Qed.

(** The five kinds of action that pass [actionOK], with what it checks. *)
Inductive well_formed (root : EvaluationRoot) (a : ProposedAction) : Prop :=
  | wf_read : pa_Kind a = KindSensitiveRead -> pa_TaintID a <> "" -> well_formed root a
  | wf_send : pa_Kind a = KindEgressSend -> pa_TaintID a <> "" -> well_formed root a
  | wf_epoch : pa_Kind a = KindPrivilegedAction -> 0 < pa_PermissionEpoch a -> well_formed root a
  | wf_effect : pa_Kind a = KindSideEffect -> pa_Operation a <> "" -> pa_RequestDigest a <> "" -> well_formed root a
  | wf_sink : pa_Kind a = KindAuthoritySink -> no_fragments a = false -> (resolveFragments root (pa_FragmentIDs a)).2 = true ->
      well_formed root a.
Lemma actionOK_wf root a : actionOK root a = true -> well_formed root a.
Proof.
  unfold actionOK. destruct (pa_ActionID a =s? ""); [done|].
  destruct (pa_Kind a =s? KindSensitiveRead) eqn:E1; cbn [orb].
  { rewrite andb_true_iff, str_neqb_true. intros [? _]. apply str_eqb_true in E1. by apply wf_read. }
  destruct (pa_Kind a =s? KindEgressSend) eqn:E2.
  { rewrite andb_true_iff, str_neqb_true. intros [? _]. apply str_eqb_true in E2. by apply wf_send. }
  destruct (pa_Kind a =s? KindPrivilegedAction) eqn:E3.
  { rewrite andb_true_iff, Z.ltb_lt. intros [? _]. apply str_eqb_true in E3. by apply wf_epoch. }
  destruct (pa_Kind a =s? KindSideEffect) eqn:E4.
  { rewrite !andb_true_iff, !str_neqb_true. intros [[? ?] _]. apply str_eqb_true in E4. by apply wf_effect. }
  destruct (pa_Kind a =s? KindAuthoritySink) eqn:E5; [|done]. destruct (_ || _) eqn:Eo; [done|]. intros Hr. apply str_eqb_true in E5.
  rewrite !orb_false_iff in Eo. apply wf_sink; [done|tauto|done].
Qed.

(** Of the ways an action is permitted, those of its kind. *)
Ltac by_kind Hp := inversion Hp; try match goal with
  E : pa_Kind ?a = _, E' : pa_Kind ?a = _ |- _ => exfalso; rewrite E in E'; discriminate E' end.

(** C30.  Under enforcement an action is let through with a disposition exactly when
    root and action are in form and the held state permits it: no egress of a
    held taint, no stale epoch, a side effect once under its key and afterwards
    only the recorded result of the same request, and no sink fed by a fragment
    that is mere data. *)
Theorem disposition_iff (root : EvaluationRoot) (action : ProposedAction) (disp : string)
    (Henf : er_EnforcementEnabled root = true) :
  de_Verdict (Authorize root action) = VerdictAllow /\ de_Disposition (Authorize root action) = disp <->
  rootOK root = true /\ actionOK root action = true /\ permitted root action disp.
Proof.
  unfold Authorize. rewrite Henf. destruct (rootOK root) eqn:Hok; cbn [negb]; [|rewrite blocked_inv; naive_solver].
  destruct (actionOK root action) eqn:Ha; cbn [negb]; [|rewrite blocked_inv; naive_solver].
  assert (de_Verdict (applyEnabled root action (populateFacts root action)) = VerdictAllow /\
    de_Disposition (applyEnabled root action (populateFacts root action)) = disp <-> permitted root action disp) as ->; [|tauto].
  unfold applyEnabled. destruct (actionOK_wf root action Ha) as [E Ht|E Ht|E He|E Ho Hd|E Hn Hr]; rewrite E; cbn -[allowed blocked].
  - rewrite allowed_inv. split; [intros ->; by apply permitted_read|]. intros Hp. by by_kind Hp.
  - pose proof (no_taint_send root action Ht) as Hs. destruct (f_taintPresent _).
    + rewrite blocked_inv. split; [done|]. intros Hp. by_kind Hp. assert (true = false) by (by apply Hs). done.
    + rewrite allowed_inv. split; [intros ->; apply permitted_send; [done|by apply Hs]|]. intros Hp. by by_kind Hp.
  - destruct (pa_PermissionEpoch action =? er_CurrentPermissionEpoch root) eqn:Ee; cbn [negb].
    + apply Z.eqb_eq in Ee. rewrite allowed_inv. split; [intros ->; by apply permitted_epoch|]. intros Hp. by by_kind Hp.
    + apply Z.eqb_neq in Ee. rewrite blocked_inv. split; [done|]. intros Hp. by by_kind Hp.
  - destruct (pa_IdempotencyKey action =s? "") eqn:Ek.
    { apply str_eqb_true in Ek. rewrite blocked_inv. split; [done|]. intros Hp. by_kind Hp; [done|].
      apply rootOK_spec in Hok as (Hrec & _). rewrite Forall_forall in Hrec. assert (record_ok rec = true) as Hr by (by apply Hrec, list_elem_of_In).
      unfold record_ok in Hr. rewrite !andb_true_iff, !str_neqb_true in Hr. destruct Hr as [[[Hk _] _] _]. congruence. }
    apply str_eqb_false in Ek. destruct (findCompleted root (pa_IdempotencyKey action)) as [rec|] eqn:Ef.
    + apply findCompleted_Some in Ef as [Hin Hk]; [|done].
      assert (forall rec', In rec' (er_Completed root) -> cr_Key rec' = pa_IdempotencyKey action -> rec' = rec) as Huniq.
      { intros rec' Hin' Hk'. apply rootOK_spec in Hok as (_ & Hnd & _). eapply NoDup_fmap_inj; [exact Hnd|done..|congruence]. }
      destruct (_ && _) eqn:Em.
      * rewrite andb_true_iff, !str_eqb_true in Em. destruct Em. rewrite allowed_inv. split; [intros ->; by apply (permitted_replay root action rec)|].
        intros Hp. by_kind Hp; [exfalso; naive_solver|done].
      * rewrite blocked_inv. split; [done|]. intros Hp. by_kind Hp; [naive_solver|]. rewrite <- not_true_iff_false, andb_true_iff, !str_eqb_true in Em.
        apply Em. by rewrite <- (Huniq rec0).
    + rewrite findCompleted_None in Ef by done. rewrite allowed_inv. split; [intros ->; by apply permitted_first|]. intros Hp. by_kind Hp; [done|].
      exfalso. naive_solver.
  - pose proof (sink_authority root action Hok Hn Hr) as Hs. destruct (f_EffectiveAuthority _ =s? AuthorityUser) eqn:Eu; cbn [negb].
    + apply str_eqb_true in Eu. rewrite allowed_inv. split; [intros ->; apply permitted_sink; tauto|]. intros Hp. by by_kind Hp.
    + apply str_eqb_false in Eu. rewrite blocked_inv. split; [done|]. intros Hp. by_kind Hp. exfalso. apply Eu. tauto.
Qed.

Module AoepExample.
Definition root (taints : list string) (completed : list CompletedRecord) : EvaluationRoot := {|
  er_SchemaVersion := 1; er_EnforcementEnabled := true; er_Taints := taints; er_CurrentPermissionEpoch := 3; er_Completed := completed;
  er_Fragments := [{| fr_FragmentID := "u"; fr_Authority := "USER" |}; {| fr_FragmentID := "w"; fr_Authority := "DATA_ONLY" |}] |}.
Definition act (kind taint : string) (epoch : Z) (op req key authority : string) (frags : list string) : ProposedAction := {|
  pa_ActionID := "a"; pa_Kind := kind; pa_TaintID := taint; pa_PermissionEpoch := epoch; pa_Operation := op; pa_RequestDigest := req;
  pa_IdempotencyKey := key; pa_RequiredAuthority := authority; pa_FragmentIDs := frags; pa_ClaimedAuthorization := "yes"; pa_ClaimedAuthority := "USER";
  pa_ClaimedCurrentEpoch := 3; pa_ClaimedReplay := true; pa_ClaimedResultDigest := "r" |}.
Definition pay (req : string) : ProposedAction := act KindSideEffect "" 0 "pay" req "k" "" [].
Definition paid : CompletedRecord := {| cr_Key := "k"; cr_Operation := "pay"; cr_RequestDigest := "ten"; cr_ResultDigest := "done" |}.
Example dispositions :
  (fun d => (de_Disposition d, de_Reason d)) <$> [
    Authorize (root [] []) (act KindEgressSend "t" 0 "" "" "" "" []); Authorize (root ["t"] []) (act KindEgressSend "t" 0 "" "" "" "" []);
    Authorize (root [] []) (act KindPrivilegedAction "" 2 "" "" "" "" []); Authorize (root [] []) (pay "ten"); Authorize (root [] [paid]) (pay "ten");
    Authorize (root [] [paid]) (pay "twenty"); Authorize (root [] []) (act KindAuthoritySink "" 0 "" "" "" "USER" ["u"; "w"])] =
  [("EXECUTE", ""); ("BLOCK", "sensitive taint blocks egress"); ("BLOCK", "permission epoch stale"); ("EXECUTE", "first side effect authorized");
   ("REPLAY", "completed result replayed"); ("BLOCK", "idempotency key collision"); ("BLOCK", "untrusted fragment cannot authorize sink")].
Proof. vm_compute. reflexivity. Qed.
End AoepExample.
Lemma disposition_iff_witness :
  permitted (AoepExample.root [] [AoepExample.paid]) (AoepExample.pay "ten") DispositionReplay.
Proof. apply (disposition_iff (AoepExample.root [] [AoepExample.paid]) (AoepExample.pay "ten") DispositionReplay eq_refl). split; vm_compute; reflexivity. Defined.
