(* ===== verification/ContextProvenance.v ===== *)
(** Context provenance, [internal/contextprovenance]: a message counts as an
    instruction only as far as every fragment it is derived from is trusted.
    The recursive closures of the code take fuel here; the fuel given is more
    than the number of fragments.  Go's iteration over a map has no fixed order;
    here it is the map's, and what is decided does not depend on it.  The properties: the search for cycles ends
    and finds exactly the graphs without an order of derivation, a ceiling is the
    least trust among the ancestors, and what a message's authority comes to. *)
From stdpp Require Import base strings gmap list sorting relations.
From Stdlib Require Import ZArith Lia.
From S2P Require Import Prelude GoStrings Evaluators.
#[local] Open Scope Z_scope.

Definition SchemaVersion : Z := 1.
Definition TrustUntrusted : string := "UNTRUSTED".
Definition TrustUser : string := "USER_TRUSTED".
Definition TrustDeveloper : string := "DEVELOPER_TRUSTED".
Definition TrustSystem : string := "SYSTEM_TRUSTED".
Definition EscalationNone : string := "NONE".
Definition EscalationFound : string := "DETECTED".
Definition Authoritative : string := "AUTHORITATIVE".
Definition NonAuthoritative : string := "NON-AUTHORITATIVE".

Record ContextFragment := {
  cf_FragmentID : string;
  cf_Origin : string;
  cf_Principal : string;
  cf_Trust : string;
  cf_Scope : string;
  cf_IntroducedAt : Z;
  cf_DerivedFrom : list string
}.
Record EvaluationRoot := {
  er_SchemaVersion : Z;
  er_CurrentTick : Z;
  er_RequiredInstructionTrust : string;
  er_Fragments : list ContextFragment
}.
Record MessageClaims := {
  mc_VisibleRole : string;
  mc_ReconstructedFromRole : string;
  mc_ClaimedOrigin : string;
  mc_ClaimedPrincipal : string;
  mc_ClaimedTrust : string;
  mc_ClaimedAuthoritative : bool
}.
Record CandidateMessage := { cm_FragmentID : string; cm_Content : string; cm_Claims : MessageClaims }.
Record Decision := {
  de_Proof : string;
  de_Escalation : string;
  de_InstructionAuthority : string;
  de_EffectiveTrust : string;
  de_Reason : string;
  de_Evidence : list string
}.
Abbreviation Graph := (gmap string ContextFragment).
(** Indexing a Go map without the key. *)
Definition zeroFragment : ContextFragment := {|
  cf_FragmentID := ""; cf_Origin := ""; cf_Principal := ""; cf_Trust := ""; cf_Scope := ""; cf_IntroducedAt := 0; cf_DerivedFrom := [] |}.
Definition at_ (g : Graph) (id : string) : ContextFragment := default zeroFragment (g !! id).
Definition parents (g : Graph) (id : string) : list string := cf_DerivedFrom (at_ g id).

(** ** Trust *)

Definition trustRank (t : string) : Z * bool :=
  if t =s? TrustUntrusted then (0, true)
  else if t =s? TrustUser then (1, true)
  else if t =s? TrustDeveloper then (2, true)
  else if t =s? TrustSystem then (3, true)
  else (0, false).
Definition minTrust (a b : string) : string := if (trustRank b).1 <? (trustRank a).1 then b else a.
Definition dominates (have need : string) : bool :=
  let '(h, okh) := trustRank have in
  let '(n, okn) := trustRank need in
  okh && okn && (n <=? h).

(** ** The graph *)

(** [indexFragments] from the map [out]; [None] when it refuses. *)
Fixpoint index_from (out : Graph) (frags : list ContextFragment) : option Graph :=
  match frags with
  | [] => Some out
  | f :: frags =>
      if (cf_FragmentID f =s? "") || (cf_Origin f =s? "") || (cf_Principal f =s? "") || (cf_Scope f =s? "") then None
      else if negb (trustRank (cf_Trust f)).2 then None
      else if bool_decide (is_Some (out !! cf_FragmentID f)) then None
      else index_from (<[cf_FragmentID f := f]> out) frags
  end.
Definition indexFragments (frags : list ContextFragment) : option Graph := index_from ∅ frags.

Inductive Color := Gray | Black.
(** A white fragment has no color. *)
Abbreviation Colors := (gmap string Color).
(** The loop of [dfs] over the parents: whether a cycle is found. *)
Fixpoint visit_parents (dfs : Colors -> string -> option (bool * Colors)) (color : Colors) (ps : list string) : option (bool * Colors) :=
  match ps with
  | [] => Some (false, color)
  | p :: ps =>
      match color !! p with
      | Some Gray => Some (true, color)
      | Some Black => visit_parents dfs color ps
      | None =>
          match dfs color p with
          | Some (false, color) => visit_parents dfs color ps
          | r => r
          end
      end
  end.
Fixpoint dfs (fuel : nat) (g : Graph) (color : Colors) (id : string) : option (bool * Colors) :=
  match fuel with
  | O => None
  | S fuel =>
      match visit_parents (dfs fuel g) (<[id := Gray]> color) (parents g id) with
      | Some (false, color) => Some (false, <[id := Black]> color)
      | r => r
      end
  end.
(** The loop of [cyclic] over the identifiers. *)
Fixpoint cyclic_from (fuel : nat) (g : Graph) (color : Colors) (ids : list string) : option bool :=
  match ids with
  | [] => Some false
  | id :: ids =>
      match color !! id with
      | Some _ => cyclic_from fuel g color ids
      | None =>
          match dfs fuel g color id with
          | Some (false, color) => cyclic_from fuel g color ids
          | Some (true, _) => Some true
          | None => None
          end
      end
  end.
Definition graph_fuel (g : Graph) : nat := S (size g).
Definition ids_of (g : Graph) : list string := (map_to_list g).*1.
Definition cyclic (g : Graph) : option bool := cyclic_from (graph_fuel g) g ∅ (ids_of g).

Definition fragment_ok (root : EvaluationRoot) (g : Graph) (f : ContextFragment) : bool :=
  negb ((cf_IntroducedAt f <? 0) || (er_CurrentTick root <? cf_IntroducedAt f)) &&
  forallb (fun p => match g !! p with
                    | None => false
                    | Some parent => negb (cf_IntroducedAt f <? cf_IntroducedAt parent)
                    end) (cf_DerivedFrom f).
Definition structuralOK (root : EvaluationRoot) (g : Graph) : option bool :=
  if negb (er_SchemaVersion root =? SchemaVersion) then Some false
  else if negb (forallb (fragment_ok root g) (map_to_list g).*2) then Some false
  else negb <$> cyclic g.

(** ** Ceilings and ancestry *)

(** [ceil], with the map [out] of what is known; the loop over the parents
    keeps [c]. *)
Fixpoint ceil_parents (ceil : gmap string string -> string -> option (string * gmap string string)) (out : gmap string string)
    (c : string) (ps : list string) : option (string * gmap string string) :=
  match ps with
  | [] => Some (c, out)
  | p :: ps =>
      match ceil out p with
      | Some (v, out) => ceil_parents ceil out (minTrust c v) ps
      | None => None
      end
  end.
Fixpoint ceil_ (fuel : nat) (g : Graph) (out : gmap string string) (id : string) : option (string * gmap string string) :=
  match out !! id with
  | Some v => Some (v, out)
  | None =>
      match fuel with
      | O => None
      | S fuel =>
          match ceil_parents (ceil_ fuel g) out (cf_Trust (at_ g id)) (parents g id) with
          | Some (c, out) => Some (c, <[id := c]> out)
          | None => None
          end
      end
  end.
Fixpoint ceilings_from (fuel : nat) (g : Graph) (out : gmap string string) (ids : list string) : option (gmap string string) :=
  match ids with
  | [] => Some out
  | id :: ids => match ceil_ fuel g out id with Some (_, out) => ceilings_from fuel g out ids | None => None end
  end.
Definition ceilings (g : Graph) : option (gmap string string) := ceilings_from (graph_fuel g) g ∅ (ids_of g).
(** [ceil[id]] *)
Definition ceil_of (ceil : gmap string string) (id : string) : string := default "" (ceil !! id).

(** A walk over the ancestors that visits each once: [before] looks at a
    fragment on the way in and may end the walk, [after] notes it on the way
    out. *)
Fixpoint walk_parents {S} (walk : gset string * S -> string -> option (bool * (gset string * S))) (st : gset string * S) (ps : list string)
    : option (bool * (gset string * S)) :=
  match ps with
  | [] => Some (false, st)
  | p :: ps => match walk st p with Some (false, st) => walk_parents walk st ps | r => r end
  end.
Fixpoint walk_ {S} (fuel : nat) (g : Graph) (before : string -> bool) (after : string -> S -> S) (st : gset string * S) (id : string)
    : option (bool * (gset string * S)) :=
  match fuel with
  | O => None
  | Datatypes.S fuel =>
      if bool_decide (id ∈ st.1) then Some (false, st)
      else if before id then Some (true, ({[id]} ∪ st.1, st.2))
      else match walk_parents (walk_ fuel g before after) ({[id]} ∪ st.1, st.2) (parents g id) with
      | Some (false, st) => Some (false, (st.1, after id st.2))
      | r => r
      end
  end.
Definition ancestryIDs (g : Graph) (id : string) : option (list string) :=
  (fun r => r.2.2) <$> walk_ (graph_fuel g) g (fun _ => false) (fun cur ids => ids ++ [cur]) (∅, []) id.
(** A fragment that claims more trust than the fragments it is derived from. *)
Definition breaches (g : Graph) (ceil : gmap string string) (id : string) : bool :=
  match parents g id with
  | [] => false
  | p :: ps =>
      let parentMin := foldl (fun m p => minTrust m (ceil_of ceil p)) (ceil_of ceil p) ps in
      (trustRank parentMin).1 <? (trustRank (cf_Trust (at_ g id))).1
  end.
Definition ancestryBreach (g : Graph) (ceil : gmap string string) (target : string) : option bool :=
  fst <$> walk_ (graph_fuel g) g (breaches g ceil) (fun _ u => u) (∅, tt) target.

(** ** Evidence *)

Definition token_rune (r : Z) : bool :=
  ((65 <=? r) && (r <=? 90)) || ((97 <=? r) && (r <=? 122)) || ((48 <=? r) && (r <=? 57)) || (r =? 95) || (r =? 45).
Definition token (s : string) : string := encode_runes ((fun r => if token_rune r then r else 95) <$> runes s).
Definition derivedPath (g : Graph) (ids : list string) : string :=
  if negb (existsb (fun id => (1 <? length (parents g id))%nat) ids) then String.concat "->" ids
  else String.concat "," (merge_sort String.le (flat_map (fun id => (fun p => p +:+ "->" +:+ id) <$> parents g id) ids)).
(** A turn of the loop of [sourceFragment]. *)
Definition better_source (g : Graph) (ceil : gmap string string) (src : option ContextFragment) (id : string) : option ContextFragment :=
  let f := at_ g id in
  if negb (bool_decide (cf_DerivedFrom f = [])) then src
  else match src with
  | None => Some f
  | Some s =>
      let cr := (trustRank (ceil_of ceil id)).1 in
      let sr := (trustRank (ceil_of ceil (cf_FragmentID s))).1 in
      if (cr <? sr) || ((cr =? sr) && String.ltb id (cf_FragmentID s)) then Some f else Some s
  end.
Definition sourceFragment (g : Graph) (ceil : gmap string string) (ids : list string) : ContextFragment :=
  default zeroFragment (foldl (better_source g ceil) None ids).
Definition evidence (c : CandidateMessage) (origin principal scope path declared effective ceiling required proof escalation authority : string)
    : list string := [
  "Context route Agent A -> MCP web tool -> Agent B";
  "Visible role " +:+ token (mc_VisibleRole (cm_Claims c)) +:+ " reconstructed_from " +:+ token (mc_ReconstructedFromRole (cm_Claims c));
  "Original origin " +:+ origin +:+ " principal " +:+ principal +:+ " scope " +:+ scope;
  "Derived path " +:+ path;
  "Declared trust " +:+ declared +:+ " effective trust " +:+ effective;
  "Trust ceiling " +:+ ceiling +:+ " required " +:+ required;
  "Context Provenance Proof " +:+ proof;
  "Context Authority Escalation " +:+ escalation +:+ "; Instruction " +:+ authority].

(** ** The decision *)

(** [closed], with [fill]. *)
Definition closed (root : EvaluationRoot) (candidate : CandidateMessage) (reason : string) : Decision := {|
  de_Proof := ProofInvalid; de_Escalation := EscalationFound; de_InstructionAuthority := NonAuthoritative; de_EffectiveTrust := "";
  de_Reason := reason;
  de_Evidence := evidence candidate "" "" "" "" "" "" "" (er_RequiredInstructionTrust root) ProofInvalid EscalationFound NonAuthoritative |}.
Definition judged (root : EvaluationRoot) (candidate : CandidateMessage) (g : Graph) (target : ContextFragment)
    (ceil : gmap string string) (ids : list string) (breach : bool) : Decision :=
  let eff := ceil_of ceil (cm_FragmentID candidate) in
  let path := derivedPath g ids in
  let src := sourceFragment g ceil ids in
  let '(proof, escalation, authority, reason) :=
    if breach then (ProofInvalid, EscalationFound, NonAuthoritative, "context authority escalation")
    else if negb (dominates eff (er_RequiredInstructionTrust root)) then (ProofValid, EscalationNone, NonAuthoritative, "insufficient instruction trust")
    else (ProofValid, EscalationNone, Authoritative, "authorized") in
  {| de_Proof := proof; de_Escalation := escalation; de_InstructionAuthority := authority; de_EffectiveTrust := eff; de_Reason := reason;
     de_Evidence := if cf_FragmentID src <>s? ""
       then evidence candidate (cf_Origin src) (cf_Principal src) (cf_Scope src) path (cf_Trust target) eff eff (er_RequiredInstructionTrust root) proof escalation authority
       else evidence candidate "" "" "" path (cf_Trust target) eff eff (er_RequiredInstructionTrust root) proof escalation authority |}.
Definition Authorize (root : EvaluationRoot) (candidate : CandidateMessage) : option Decision :=
  let refused reason := Some (closed root candidate reason) in
  match indexFragments (er_Fragments root) with
  | None => refused "invalid evaluation root"
  | Some g =>
      structural ← structuralOK root g;
      if negb structural then refused "invalid evaluation root"
      else if negb (trustRank (er_RequiredInstructionTrust root)).2 then refused "unknown required trust"
      else match g !! cm_FragmentID candidate with
      | None => refused "target fragment missing"
      | Some target =>
          ceil ← ceilings g;
          ids ← ancestryIDs g (cm_FragmentID candidate);
          breach ← ancestryBreach g ceil (cm_FragmentID candidate);
          Some (judged root candidate g target ceil ids breach)
      end
  end.

Module ProvenanceExample.
Definition frag (i trust : string) (t : Z) (from : list string) : ContextFragment := {|
  cf_FragmentID := i; cf_Origin := "origin:" +:+ i; cf_Principal := "p"; cf_Trust := trust; cf_Scope := "s"; cf_IntroducedAt := t; cf_DerivedFrom := from |}.
Definition root (frags : list ContextFragment) : EvaluationRoot := {|
  er_SchemaVersion := 1; er_CurrentTick := 9; er_RequiredInstructionTrust := TrustUser; er_Fragments := frags |}.
Definition message (i : string) : CandidateMessage := {| cm_FragmentID := i; cm_Content := "do it";
  cm_Claims := {| mc_VisibleRole := "system"; mc_ReconstructedFromRole := "tool out"; mc_ClaimedOrigin := ""; mc_ClaimedPrincipal := "";
                  mc_ClaimedTrust := TrustSystem; mc_ClaimedAuthoritative := true |} |}.
Definition web : list ContextFragment := [frag "web" TrustUntrusted 1 []; frag "user" TrustUser 1 []].
Example decisions : (fun r => option_map (fun d => (de_Reason d, de_EffectiveTrust d)) (Authorize (root r.1) (message r.2))) <$> [
    (web, "user"); (web ++ [frag "mix" TrustUntrusted 2 ["user"; "web"]], "mix"); (web ++ [frag "mix" TrustUser 2 ["user"; "web"]], "mix");
    ([frag "a" TrustUser 1 ["b"]; frag "b" TrustUser 1 ["a"]], "a"); (web, "x")] =
  [Some ("authorized", TrustUser); Some ("insufficient instruction trust", TrustUntrusted); Some ("context authority escalation", TrustUntrusted);
   Some ("invalid evaluation root", ""); Some ("target fragment missing", "")].
Proof. vm_compute. reflexivity. Qed.
Example shown : option_map (fun d => take 4 (de_Evidence d)) (Authorize (root (web ++ [frag "mix" TrustUntrusted 2 ["user"; "web"]])) (message "mix")) =
  Some ["Context route Agent A -> MCP web tool -> Agent B"; "Visible role system reconstructed_from tool_out";
        "Original origin origin:web principal p scope s"; "Derived path user->mix,web->mix"].
Proof. vm_compute. reflexivity. Qed.
End ProvenanceExample.

(** ** Properties *)

Definition derives (g : Graph) (id p : string) : Prop := p ∈ parents g id.
(** [a] is [id] or one of the fragments it is derived from, at any distance. *)
Definition ancestor (g : Graph) : string -> string -> Prop := rtc (derives g).
(** An order of derivation. *)
Definition ranked (g : Graph) (rank : string -> nat) : Prop := forall id p, derives g id p -> (rank p < rank id)%nat.
Definition acyclic (g : Graph) : Prop := exists rank, ranked g rank.
Definition parents_known (g : Graph) : Prop := forall id p, derives g id p -> is_Some (g !! p).
Definition trust_of (g : Graph) (id : string) : Z := (trustRank (cf_Trust (at_ g id))).1.

(** ** The search for cycles *)

(** The finished fragments, each after those it is derived from. *)
Inductive topo (g : Graph) : list string -> Prop :=
  | topo_nil : topo g []
  | topo_cons x l : x ∉ l -> (forall p, derives g x p -> p ∈ l) -> topo g l -> topo g (x :: l).

Lemma topo_NoDup g l : topo g l -> NoDup l.
Proof. induction 1; [constructor|by constructor]. Qed.
Lemma topo_split g l1 x l2 : topo g (l1 ++ x :: l2) -> forall p, derives g x p -> p ∈ l2.
Proof. induction l1 as [|y l1 IH]; cbn; inversion 1; subst; [done|by apply IH]. Qed.
(** The place of [x] from the end. *)
Fixpoint place (l : list string) (x : string) : nat :=
  match l with [] => 0%nat | y :: l => if decide (x = y) then S (length l) else place l x end.
Lemma place_le l x : (place l x <= length l)%nat.
Proof. induction l as [|y l IH]; cbn; [done|]. destruct (decide _); lia. Qed.
Lemma place_0 l x : x ∉ l -> place l x = 0%nat.
Proof. induction l as [|y l IH]; cbn; [done|]. intros Hn. rewrite decide_False by set_solver. apply IH. set_solver. Qed.
Lemma topo_ranked g l : topo g l -> (forall x, is_Some (g !! x) -> x ∈ l) -> ranked g (place l).
Proof.
  intros Ht Hall id p Hp. assert (id ∈ l) as Hid.
  { apply Hall. unfold derives, parents, at_ in Hp. destruct (g !! id); [done|]. cbn in Hp. set_solver. }
  clear Hall. induction Ht as [|x l Hx Hps Ht IH]; [set_solver|]. cbn. destruct (decide (id = x)) as [->|Hne].
  - apply Hps in Hp as Hin. rewrite decide_False by (by intros ->). pose proof (place_le l p). lia.
  - assert (id ∈ l) as Hl by set_solver. apply list_elem_of_split in Hl as (l1 & l2 & ->).
    assert (p ∈ l1 ++ id :: l2) as Hin by (pose proof (topo_split g l1 id l2 Ht p Hp); set_solver).
    rewrite decide_False by (by intros ->). apply IH; set_solver.
Qed.

Section dfs.
Context (g : Graph).
Implicit Types (color : Colors) (l : list string).

Definition blacks color l : Prop := forall x, color !! x = Some Black <-> x ∈ l.
(** The state after a search that found no cycle. *)
Definition finished color l color' l' : Prop :=
  topo g l' /\ blacks color' l' /\ (forall x, x ∈ l -> x ∈ l') /\
  (forall x, color' !! x = Some Gray <-> color !! x = Some Gray) /\ dom color ⊆ dom color'.
(** What a visit of a white fragment does, below [rank]. *)
Definition visit_ok (visit : Colors -> string -> option (bool * Colors)) : Prop :=
  forall color l id color', topo g l -> blacks color l -> color !! id = None -> visit color id = Some (false, color') ->
  exists l', finished color l color' l' /\ id ∈ l'.

Lemma visit_parents_ok visit : visit_ok visit -> forall ps color l color',
  topo g l -> blacks color l -> visit_parents visit color ps = Some (false, color') ->
  exists l', finished color l color' l' /\ forall p, p ∈ ps -> p ∈ l'.
Proof.
  intros Hv. induction ps as [|p ps IH]; intros color l color' Ht Hb; cbn [visit_parents].
  { intros [= <-]. exists l. split; [by split_and!|set_solver]. }
  destruct (color !! p) as [[]|] eqn:Ep; [done|..].
  - intros (l' & Hf & Hps)%(IH _ l); [|done..]. exists l'. split; [done|]. intros q [->|Hq]%elem_of_cons; [|by apply Hps].
    destruct Hf as (_ & _ & Hl & _). by apply Hl, Hb.
  - destruct (visit color p) as [[[] color1]|] eqn:Ev; [done| |done].
    apply (Hv _ l) in Ev as (l1 & (Ht1 & Hb1 & Hl1 & Hg1 & Hd1) & Hp1); [|done..].
    intros (l' & (Ht' & Hb' & Hl' & Hg' & Hd') & Hps)%(IH _ l1); [|done..]. exists l'. split.
    + split_and!; [done|done|auto|intros x; by rewrite Hg'|set_solver].
    + intros q [->|Hq]%elem_of_cons; auto.
Qed.
Lemma dfs_ok fuel : visit_ok (dfs fuel g).
Proof.
  induction fuel as [|fuel IH]; intros color l id color' Ht Hb Hid; [done|]. cbn [dfs].
  destruct (visit_parents _ _ _) as [[[] color1]|] eqn:Ev; [done| |done]. intros [= <-].
  assert (blacks (<[id := Gray]> color) l) as Hb0.
  { intros x. destruct (decide (x = id)) as [->|Hne]; [|by rewrite lookup_insert_ne].
    rewrite lookup_insert_eq. split; [done|]. intros Hx%Hb. congruence. }
  apply (visit_parents_ok _ IH _ _ l) in Ev as (l1 & (Ht1 & Hb1 & Hl1 & Hg1 & Hd1) & Hps); [|done..].
  assert (color1 !! id = Some Gray) as Hgray by (apply Hg1; by rewrite lookup_insert_eq).
  exists (id :: l1). split; [split_and!|by left].
  - constructor; [|done..]. intros Hin%Hb1. congruence.
  - intros x. rewrite elem_of_cons. destruct (decide (x = id)) as [->|Hne]; [rewrite lookup_insert_eq; naive_solver|].
    rewrite lookup_insert_ne by done. specialize (Hb1 x). naive_solver.
  - intros x Hx. right. auto.
  - intros x. destruct (decide (x = id)) as [->|Hne]; [rewrite lookup_insert_eq; naive_solver|].
    rewrite lookup_insert_ne, Hg1, lookup_insert_ne by done. done.
  - set_solver.
Qed.

(** No cycle is found where there is an order. *)
Definition visit_none (rank : string -> nat) (visit : Colors -> string -> option (bool * Colors)) : Prop :=
  forall color l id r color', topo g l -> blacks color l -> color !! id = None ->
  (forall q, color !! q = Some Gray -> (rank id < rank q)%nat) -> visit color id = Some (r, color') -> r = false.
Lemma visit_parents_none rank visit n : visit_ok visit -> visit_none rank visit -> forall ps color l r color',
  topo g l -> blacks color l -> (forall p, p ∈ ps -> (rank p < n)%nat) -> (forall q, color !! q = Some Gray -> (n <= rank q)%nat) ->
  visit_parents visit color ps = Some (r, color') -> r = false.
Proof.
  intros Hok Hv. induction ps as [|p ps IH]; intros color l r color' Ht Hb Hps Hgr; cbn [visit_parents]; [by intros [= <- _]|].
  assert (rank p < n)%nat as Hp by (apply Hps; set_solver).
  destruct (color !! p) as [[]|] eqn:Ep.
  - apply Hgr in Ep. lia.
  - apply IH with (l := l); [done|done|set_solver|done].
  - destruct (visit color p) as [[r1 color1]|] eqn:Ev; [|done].
    assert (r1 = false) as -> by (eapply (Hv color l p r1 color1); [done..| |done]; intros q Hq%Hgr; lia).
    apply (Hok _ l) in Ev as (l1 & (Ht1 & Hb1 & _ & Hg1 & _) & _); [|done..]. apply IH with (l := l1); [done|done|set_solver|].
    intros q Hq%Hg1. auto.
Qed.
Lemma dfs_none rank fuel : ranked g rank -> visit_none rank (dfs fuel g).
Proof.
  intros Hr. induction fuel as [|fuel IH]; intros color l id r color' Ht Hb Hid Hgr; [done|]. cbn [dfs].
  destruct (visit_parents _ _ _) as [[r1 color1]|] eqn:Ev; [|done].
  assert (r1 = false) as ->; [|by intros [= <- _]].
  eapply (visit_parents_none rank _ (rank id) (dfs_ok fuel) IH _ _ l); [done| | | |exact Ev].
  - intros x. destruct (decide (x = id)) as [->|Hne]; [|by rewrite lookup_insert_ne].
    rewrite lookup_insert_eq. split; [done|]. intros Hx%Hb. congruence.
  - intros p Hp. by apply Hr.
  - intros q. destruct (decide (q = id)) as [->|Hne]; [lia|]. rewrite lookup_insert_ne by done. intros Hq%Hgr. lia.
Qed.
End dfs.

(** ** The search ends *)

Section total.
Context (g : Graph) (Hknown : parents_known g).
Implicit Types (color : Colors).

(** How many fragments have no color yet. *)
Definition whites color : nat := size (dom g ∖ dom color).
Definition visit_total (n : nat) (visit : Colors -> string -> option (bool * Colors)) : Prop :=
  forall color id, is_Some (g !! id) -> color !! id = None -> (whites color <= n)%nat ->
  exists r color', visit color id = Some (r, color') /\ dom color ⊆ dom color'.

Lemma whites_mono color color' : dom color ⊆ dom color' -> (whites color' <= whites color)%nat.
Proof. intros Hd. unfold whites. apply subseteq_size. set_solver. Qed.
Lemma whites_less color id c : is_Some (g !! id) -> color !! id = None -> (whites (<[id := c]> color) < whites color)%nat.
Proof.
  intros Hid%elem_of_dom Hc%not_elem_of_dom. unfold whites. apply subset_size. rewrite dom_insert_L. set_solver.
Qed.
Lemma visit_parents_total n visit : visit_total n visit -> forall ps color,
  (forall p, p ∈ ps -> is_Some (g !! p)) -> (whites color <= n)%nat ->
  exists r color', visit_parents visit color ps = Some (r, color') /\ dom color ⊆ dom color'.
Proof.
  intros Hv. induction ps as [|p ps IH]; intros color Hps Hw; cbn [visit_parents]; [by eexists _, _|].
  destruct (color !! p) as [[]|] eqn:Ep; [by eexists _, _|apply IH; set_solver|].
  destruct (Hv color p) as (r & color1 & -> & Hd); [apply Hps; set_solver|done..|]. destruct r; [by eexists _, _|].
  destruct (IH color1) as (r & color2 & -> & Hd2); [set_solver|pose proof (whites_mono _ _ Hd); lia|].
  eexists _, _. split; [done|set_solver].
Qed.
Lemma dfs_total n : visit_total n (dfs (S n) g).
Proof.
  induction n as [|n IH]; intros color id Hid Hc Hw; cbn [dfs];
    pose proof (whites_less color id Gray Hid Hc) as Hless; [lia|].
  destruct (visit_parents_total n _ IH (parents g id) (<[id := Gray]> color)) as (r & color1 & E & Hd); [by apply Hknown|lia|].
  cbn [dfs] in E. rewrite E, dom_insert_L in *. destruct r; eexists _, _; (split; [done|]); rewrite ?dom_insert_L; set_solver.
Qed.
End total.

Lemma whites_bound g color : (whites g color <= size g)%nat.
Proof. unfold whites. rewrite <- size_dom. apply subseteq_size. set_solver. Qed.
Lemma cyclic_from_spec g ids : parents_known g -> (forall x, x ∈ ids -> is_Some (g !! x)) -> forall color l,
  topo g l -> blacks color l -> (forall x, color !! x <> Some Gray) ->
  exists b, cyclic_from (graph_fuel g) g color ids = Some b /\
    (b = false -> exists l', topo g l' /\ (forall x, x ∈ l -> x ∈ l') /\ forall x, x ∈ ids -> x ∈ l') /\
    (acyclic g -> b = false).
Proof.
  intros Hknown. induction ids as [|id ids IH]; intros Hids color l Ht Hb Hgr; cbn [cyclic_from].
  { exists false. split_and!; [done| |done]. intros _. exists l. split_and!; [done..|set_solver]. }
  destruct (color !! id) as [c|] eqn:Ec.
  - destruct (IH ltac:(set_solver) color l Ht Hb Hgr) as (b & -> & Hn & Ha). exists b. split_and!; [done| |done].
    intros (l' & Ht' & Hl' & Hall)%Hn. exists l'. split_and!; [done..|]. intros x [->|Hx]%elem_of_cons; [|by apply Hall].
    apply Hl', Hb. destruct c; [by apply Hgr in Ec|done].
  - destruct (dfs_total g Hknown (size g) color id) as (r & color1 & E & _); [apply Hids; set_solver|done|apply whites_bound|].
    unfold graph_fuel. rewrite E. destruct r.
    + exists true. split_and!; [done..|]. intros [rank Hr].
      by apply (dfs_none g rank _ Hr color l id true color1 Ht Hb Ec ltac:(by intros q ?%Hgr)) in E.
    + apply (dfs_ok g _ color l) in E as (l1 & (Ht1 & Hb1 & Hl1 & Hg1 & _) & Hid); [|done..].
      destruct (IH ltac:(set_solver) color1 l1 Ht1 Hb1 ltac:(intros x ?%Hg1; by eapply Hgr)) as (b & Eb & Hn & Ha). unfold graph_fuel in Eb.
      exists b. split_and!; [done| |done]. intros (l' & Ht' & Hl' & Hall)%Hn. exists l'. split_and!; [done|auto|].
      intros x [->|Hx]%elem_of_cons; auto.
Qed.
Lemma ids_of_spec g x : x ∈ ids_of g <-> is_Some (g !! x).
Proof.
  unfold ids_of. rewrite list_elem_of_fmap. split.
  - intros ([y f] & -> & Hy%elem_of_map_to_list). by exists f.
  - intros [f Hf]. exists (x, f). split; [done|]. by apply elem_of_map_to_list.
Qed.
Lemma topo_known g l : parents_known g -> topo g l -> topo g (filter (fun x => x ∈ dom g) l).
Proof.
  intros Hknown. induction 1 as [|x l Hx Hps Ht IH]; [constructor|]. rewrite filter_cons. case_decide; [|done]. constructor; [|..|done].
  - rewrite list_elem_of_filter. tauto.
  - intros p Hp. apply list_elem_of_filter. split; [|by apply Hps]. by apply elem_of_dom, (Hknown x).
Qed.
(** An order of derivation that fits the fuel. *)
Definition fits (g : Graph) (rank : string -> nat) : Prop := ranked g rank /\ forall id, (rank id < graph_fuel g)%nat.
Lemma cyclic_spec g : parents_known g ->
  exists b, cyclic g = Some b /\ (b = false -> exists rank, fits g rank) /\ (acyclic g -> b = false).
Proof.
  intros Hknown. destruct (cyclic_from_spec g (ids_of g) Hknown) with (color := ∅ : Colors) (l := @nil string) as (b & E & Hn & Ha).
  - by intros x Hx%ids_of_spec.
  - constructor.
  - intros x. rewrite lookup_empty. set_solver.
  - intros x. by rewrite lookup_empty.
  - exists b. split_and!; [exact E| |done]. intros (l & Ht & _ & Hall)%Hn.
    apply (topo_known g l Hknown) in Ht. exists (place (filter (fun x => x ∈ dom g) l)). split.
    + apply topo_ranked; [done|]. intros x Hx. apply list_elem_of_filter. split; [by apply elem_of_dom|]. by apply Hall, ids_of_spec.
    + intros x. unfold graph_fuel. eapply Nat.le_lt_trans; [apply place_le|]. apply Nat.lt_succ_r.
      rewrite <- size_dom, <- (size_list_to_set (C := gset string)) by (by eapply topo_NoDup). apply subseteq_size. intros y Hy%elem_of_list_to_set.
      by apply list_elem_of_filter in Hy as [? _].
Qed.

(** ** Ceilings *)

(** [c] is the least trust among the ancestors of [id]. *)
Definition Ceiling (g : Graph) (id c : string) : Prop :=
  (exists a, ancestor g id a /\ cf_Trust (at_ g a) = c) /\ forall a, ancestor g id a -> (trustRank c).1 <= trust_of g a.
Definition sound (g : Graph) (out : gmap string string) : Prop := forall k v, out !! k = Some v -> Ceiling g k v.

Lemma minTrust_spec a b : (minTrust a b = a \/ minTrust a b = b) /\
  (trustRank (minTrust a b)).1 <= (trustRank a).1 /\ (trustRank (minTrust a b)).1 <= (trustRank b).1.
Proof. unfold minTrust. destruct (_ <? _) eqn:E; bools; lia || (split; [by auto|lia]). Qed.

Definition ceil_ok (g : Graph) (n : nat) (rank : string -> nat) (ceil : gmap string string -> string -> option (string * gmap string string)) : Prop :=
  forall out id, sound g out -> (rank id < n)%nat -> exists v out', ceil out id = Some (v, out') /\ Ceiling g id v /\ sound g out' /\
    dom out ⊆ dom out' /\ id ∈ dom out'.
Lemma ceil_parents_ok g n rank ceil : ceil_ok g n rank ceil -> forall ps out c, sound g out -> (forall p, p ∈ ps -> (rank p < n)%nat) ->
  exists c' out', ceil_parents ceil out c ps = Some (c', out') /\ sound g out' /\ dom out ⊆ dom out' /\
    (c' = c \/ exists p, p ∈ ps /\ Ceiling g p c') /\ (trustRank c').1 <= (trustRank c).1 /\
    forall p, p ∈ ps -> exists v, Ceiling g p v /\ (trustRank c').1 <= (trustRank v).1.
Proof.
  intros Hc. induction ps as [|p ps IH]; intros out c Hs Hps; cbn [ceil_parents].
  { exists c, out. split_and!; [done|done|done|by left|lia|set_solver]. }
  destruct (Hc out p Hs ltac:(apply Hps; set_solver)) as (v & out1 & -> & Hv & Hs1 & Hd1 & _).
  destruct (IH out1 (minTrust c v) Hs1 ltac:(set_solver)) as (c' & out' & -> & Hs' & Hd' & Hor & Hle & Hall).
  destruct (minTrust_spec c v) as (Hm & Hmc & Hmv). exists c', out'. split_and!; [done|done|set_solver| |lia|].
  - destruct Hor as [->|(q & Hq & Hcq)]; [|right; exists q; split; [by right|done]].
    destruct Hm as [-> | ->]; [by left|right; exists p; split; [by left|done]].
  - intros q [->|Hq]%elem_of_cons; [|by apply Hall]. exists v. split; [done|lia].
Qed.
Lemma ceil_ok_fuel g rank n : ranked g rank -> ceil_ok g n rank (ceil_ n g).
Proof.
  intros Hr. induction n as [|n IH]; intros out id Hs Hlt; [lia|]. cbn [ceil_]. destruct (out !! id) as [v|] eqn:Eo.
  { exists v, out. split_and!; [done|by apply Hs|done|done|]. apply elem_of_dom. by exists v. }
  destruct (ceil_parents_ok g n rank _ IH (parents g id) out (cf_Trust (at_ g id)) Hs) as (c & out1 & -> & Hs1 & Hd1 & Hor & Hle & Hall).
  { intros p Hp. specialize (Hr id p Hp). lia. }
  assert (Ceiling g id c) as Hc.
  { split.
    - destruct Hor as [->|(p & Hp & (a & Ha & Ea) & _)]; [by exists id; split; [constructor|]|].
      exists a. split; [|done]. by eapply rtc_l.
    - intros a Ha. apply rtc_inv in Ha as [<-|(p & Hp & Ha)]; [done|]. destruct (Hall p Hp) as (v & [_ Hv] & Hcv). specialize (Hv a Ha). lia. }
  exists c, (<[id := c]> out1). split_and!; [done|done| |set_solver|set_solver].
  intros k v. destruct (decide (k = id)) as [->|Hne]; [|rewrite lookup_insert_ne by done; apply Hs1]. rewrite lookup_insert_eq. by intros [= <-].
Qed.
Lemma ceilings_spec g rank : fits g rank -> exists ceil, ceilings g = Some ceil /\ forall id, is_Some (g !! id) -> Ceiling g id (ceil_of ceil id).
Proof.
  intros [Hr Hb]. assert (forall ids out, sound g out -> exists ceil, ceilings_from (graph_fuel g) g out ids = Some ceil /\ sound g ceil /\
    dom out ⊆ dom ceil /\ forall id, id ∈ ids -> id ∈ dom ceil) as Hall.
  { induction ids as [|id ids IH]; intros out Hs; cbn [ceilings_from]; [exists out; split_and!; [done..|set_solver]|].
    destruct (ceil_ok_fuel g rank _ Hr out id Hs (Hb id)) as (v & out1 & -> & _ & Hs1 & Hd1 & Hid).
    destruct (IH out1 Hs1) as (ceil & -> & Hs' & Hd' & Hids). exists ceil. split_and!; [done|done|set_solver|].
    intros x [->|Hx]%elem_of_cons; [set_solver|auto]. }
  destruct (Hall (ids_of g) ∅ ltac:(intros k v; by rewrite lookup_empty)) as (ceil & E & Hs & _ & Hd). exists ceil. split; [done|].
  intros id Hid. unfold ceil_of. apply ids_of_spec, Hd, elem_of_dom in Hid as [v Hv]. rewrite Hv. by apply Hs.
Qed.

(** ** Walks over the ancestors *)

Section walk.
Context (g : Graph) (rank : string -> nat) {S : Type} (before : string -> bool) (after : string -> S -> S).

(** What a walk from below [n] does: it ends at a fragment [before] accepts, or
    has seen [id] and, of all it saw newly, the parents. *)
Definition newly (seen seen' : gset string) : Prop :=
  seen ⊆ seen' /\ forall x, x ∈ seen' -> x ∉ seen -> before x = false /\ forall p, derives g x p -> p ∈ seen'.
Definition walk_ok (n : nat) (walk : gset string * S -> string -> option (bool * (gset string * S))) : Prop :=
  forall st id, (rank id < n)%nat -> exists r st', walk st id = Some (r, st') /\
    (r = true -> exists x, ancestor g id x /\ before x = true) /\ (r = false -> newly st.1 st'.1 /\ id ∈ st'.1).

Lemma walk_parents_ok n walk : walk_ok n walk -> forall ps st, (forall p, p ∈ ps -> (rank p < n)%nat) ->
  exists r st', walk_parents walk st ps = Some (r, st') /\
    (r = true -> exists p x, p ∈ ps /\ ancestor g p x /\ before x = true) /\
    (r = false -> newly st.1 st'.1 /\ forall p, p ∈ ps -> p ∈ st'.1).
Proof.
  intros Hw. induction ps as [|p ps IH]; intros st Hps; cbn [walk_parents].
  { exists false, st. split_and!; [done..|]. intros _. split; [split; set_solver|set_solver]. }
  destruct (Hw st p ltac:(apply Hps; set_solver)) as (r & st1 & -> & Ht & Hf). destruct r.
  { exists true, st1. split_and!; [done| |done]. intros (x & Hx)%Ht. exists p, x. split; [by left|done]. }
  destruct Hf as [[Hs1 Hn1] Hp]; [done|]. destruct (IH st1 ltac:(set_solver)) as (r & st2 & -> & Ht2 & Hf2).
  exists r, st2. split_and!; [done| |].
  - intros (q & x & Hq & Hx)%Ht2. exists q, x. split; [by right|done].
  - intros [[Hs2 Hn2] Hall]%Hf2. split; [split; [set_solver|]|].
    + intros x Hx Hnew. destruct (decide (x ∈ st1.1)) as [Hin|Hout]; [|by apply Hn2]. destruct (Hn1 x Hin Hnew) as [? Hps1]. split; [done|].
      intros q Hq. by apply Hs2, Hps1.
    + intros q [->|Hq]%elem_of_cons; [by apply Hs2|by apply Hall].
Qed.
Lemma walk_ok_fuel n : ranked g rank -> walk_ok n (walk_ n g before after).
Proof.
  intros Hr. induction n as [|n IH]; intros st id Hlt; [lia|]. cbn [walk_]. case_bool_decide as Hin.
  { exists false, st. split_and!; [done..|]. intros _. split; [split; set_solver|done]. }
  destruct (before id) eqn:Eb.
  { eexists true, _. split_and!; [done| |done]. intros _. exists id. split; [constructor|done]. }
  destruct (walk_parents_ok n _ IH (parents g id) ({[id]} ∪ st.1, st.2)) as (r & st1 & -> & Ht & Hf).
  { intros p Hp. specialize (Hr id p Hp). lia. }
  destruct r.
  - exists true, st1. split_and!; [done| |done]. intros _. destruct Ht as (p & x & Hp & Ha & Hx); [done|]. exists x. split; [|done].
    by eapply rtc_l.
  - exists false, (st1.1, after id st1.2). destruct Hf as [[Hs Hn] Hall]; [done|]. cbn [fst] in *. split_and!; [done..|]. intros _.
    split; [split; [set_solver|]|set_solver]. intros x Hx Hnew. destruct (decide (x = id)) as [->|Hne]; [by split|]. apply Hn; set_solver.
Qed.
End walk.

(** A walk of the whole ancestry ends, and accepts exactly when [before] accepts
    an ancestor. *)
Lemma walk_ancestors {S} (g : Graph) (rank : string -> nat) (before : string -> bool) (after : string -> S -> S) (s : S) id : fits g rank ->
  exists r st, walk_ (graph_fuel g) g before after (∅, s) id = Some (r, st) /\ (r = false <-> forall x, ancestor g id x -> before x = false).
Proof.
  intros [Hr Hb]. destruct (walk_ok_fuel g rank before after (graph_fuel g) Hr (∅, s) id (Hb id)) as (r & st & E & Ht & Hf).
  exists r, st. split; [done|]. split.
  - intros Er. destruct (Hf Er) as [[_ Hn] Hid]. cbn [fst] in Hn. assert (forall x, ancestor g id x -> x ∈ st.1) as Hall.
    { intros x Hx. clear E Ht Hf. induction Hx as [|a b c Hab _ IH]; [done|]. apply IH. apply (Hn a); [done|set_solver|done]. }
    intros x Hx. apply Hn; [by apply Hall|set_solver].
  - intros Hall. destruct r; [|done]. destruct Ht as (x & Hx & Hbx); [done|]. by rewrite Hall in Hbx.
Qed.
Lemma breaches_spec g ceil id : breaches g ceil id = false <->
  forall p, derives g id p -> trust_of g id <= (trustRank (ceil_of ceil p)).1.
Proof.
  assert (forall t ps m, t <= (trustRank (foldl (fun m p => minTrust m (ceil_of ceil p)) m ps)).1 <->
    t <= (trustRank m).1 /\ forall p, p ∈ ps -> t <= (trustRank (ceil_of ceil p)).1) as Hfold.
  { intros t ps. induction ps as [|q ps IH]; intros m; cbn [foldl]; [set_solver|]. rewrite IH.
    destruct (minTrust_spec m (ceil_of ceil q)) as (Hor & Hl & Hr). split.
    - intros [Hm Hps]. split; [lia|]. intros x [->|Hx]%elem_of_cons; [lia|by apply Hps].
    - intros [Hm Hps]. split; [|set_solver]. specialize (Hps q ltac:(set_solver)). by destruct Hor as [-> | ->]. }
  unfold breaches, derives, trust_of. destruct (parents g id) as [|p ps]; [split; [set_solver|done]|].
  rewrite Z.ltb_ge, Hfold. set_solver.
Qed.

(** ** The decision *)

Lemma trustRank_known t : (trustRank t).2 = true -> 0 <= (trustRank t).1.
Proof. unfold trustRank. repeat case_match; done. Qed.
Lemma index_known frags g id f : indexFragments frags = Some g -> g !! id = Some f -> (trustRank (cf_Trust f)).2 = true.
Proof.
  unfold indexFragments. assert (forall out, (forall k x, out !! k = Some x -> (trustRank (cf_Trust x)).2 = true) ->
    index_from out frags = Some g -> forall k x, g !! k = Some x -> (trustRank (cf_Trust x)).2 = true) as Hall.
  { induction frags as [|x frags IH]; intros out Hout; cbn [index_from]; [by intros [= <-]|].
    destruct (_ || _); [done|]. destruct (trustRank (cf_Trust x)).2 eqn:Et; [|done]. cbn [negb]. case_bool_decide; [done|].
    apply IH. intros k y. destruct (decide (k = cf_FragmentID x)) as [->|Hne]; [rewrite lookup_insert_eq; by intros [= <-]|].
    rewrite lookup_insert_ne by done. apply Hout. }
  intros E. by apply (Hall ∅ ltac:(intros ??; by rewrite lookup_empty) E).
Qed.
(** The fragments are in form: introduced by now and not before those they are
    derived from, which exist, and not derived from themselves. *)
Definition in_form (root : EvaluationRoot) (g : Graph) : Prop :=
  er_SchemaVersion root = SchemaVersion /\
  (forall id f, g !! id = Some f -> 0 <= cf_IntroducedAt f <= er_CurrentTick root) /\
  (forall id p, derives g id p -> exists parent, g !! p = Some parent /\ cf_IntroducedAt parent <= cf_IntroducedAt (at_ g id)) /\
  acyclic g.
Lemma fragments_ok root g : forallb (fragment_ok root g) (map_to_list g).*2 = true <->
  (forall id f, g !! id = Some f -> 0 <= cf_IntroducedAt f <= er_CurrentTick root) /\
  (forall id p, derives g id p -> exists parent, g !! p = Some parent /\ cf_IntroducedAt parent <= cf_IntroducedAt (at_ g id)).
Proof.
  assert (forall f, fragment_ok root g f = true <-> 0 <= cf_IntroducedAt f <= er_CurrentTick root /\
    forall p, p ∈ cf_DerivedFrom f -> exists parent, g !! p = Some parent /\ cf_IntroducedAt parent <= cf_IntroducedAt f) as Hf.
  { intros f. unfold fragment_ok. rewrite andb_true_iff, negb_true_iff, orb_false_iff, !Z.ltb_ge, forallb_forall. setoid_rewrite <- list_elem_of_In.
    assert (forall p, (match g !! p with None => false | Some parent => negb (cf_IntroducedAt f <? cf_IntroducedAt parent) end) = true <->
      exists parent, g !! p = Some parent /\ cf_IntroducedAt parent <= cf_IntroducedAt f) as Hp; [|by setoid_rewrite Hp].
    intros p. destruct (g !! p); [rewrite negb_true_iff, Z.ltb_ge|]; naive_solver. }
  rewrite forallb_forall. setoid_rewrite <- list_elem_of_In. setoid_rewrite list_elem_of_fmap. setoid_rewrite Hf. split.
  - intros Hall. assert (forall id f, g !! id = Some f -> 0 <= cf_IntroducedAt f <= er_CurrentTick root /\
      forall p, p ∈ cf_DerivedFrom f -> exists parent, g !! p = Some parent /\ cf_IntroducedAt parent <= cf_IntroducedAt f) as Hg.
    { intros id f Hid. apply Hall. exists (id, f). split; [done|]. by apply elem_of_map_to_list. }
    split; [intros id f Hid; by apply (Hg id)|]. intros id p Hp. unfold derives, parents, at_ in *. destruct (g !! id) as [f|] eqn:Eid; cbn in *; [|set_solver].
    by apply (Hg id).
  - intros [Ht Hp] f ([id f'] & -> & Hid%elem_of_map_to_list). cbn. split; [by apply (Ht id)|]. intros p Hin.
    specialize (Hp id p). unfold derives, parents, at_ in Hp. rewrite Hid in Hp. by apply Hp.
Qed.
Lemma structuralOK_spec root g : exists b, structuralOK root g = Some b /\ (b = true <-> in_form root g) /\
  (b = true -> parents_known g /\ exists rank, fits g rank).
Proof.
  unfold structuralOK, in_form. destruct (er_SchemaVersion root =? SchemaVersion) eqn:Es; cbn [negb].
  2: { exists false. apply Z.eqb_neq in Es. split_and!; [done|naive_solver|done]. }
  apply Z.eqb_eq in Es. destruct (forallb _ _) eqn:Ef; cbn [negb].
  2: { exists false. apply not_true_iff_false in Ef. rewrite fragments_ok in Ef. split_and!; [done|naive_solver|done]. }
  apply fragments_ok in Ef as [Ht Hp]. assert (parents_known g) as Hk by (intros id p (parent & ? & _)%Hp; by exists parent).
  destruct (cyclic_spec g Hk) as (b & -> & Hn & Ha). exists (negb b). cbn. split; [done|]. rewrite negb_true_iff. split; [|by auto].
  split; [|naive_solver]. intros (rank & Hr & _)%Hn. split_and!; try done. by exists rank.
Qed.

Lemma ancestor_known g id a : parents_known g -> is_Some (g !! id) -> ancestor g id a -> is_Some (g !! a).
Proof. intros Hk Hid Ha. induction Ha as [|x y z Hxy _ IH]; [done|]. by apply IH, (Hk x). Qed.
(** A bound on the ceiling is a bound on every ancestor. *)
Lemma ceiling_bound g id c t : Ceiling g id c -> t <= (trustRank c).1 <-> forall a, ancestor g id a -> t <= trust_of g a.
Proof.
  intros [(a & Ha & <-) Hmin]. split; [|intros Hall; by apply Hall]. intros Ht x Hx. specialize (Hmin x Hx). lia.
Qed.
Lemma breach_spec g rank ceil id : fits g rank -> parents_known g -> (forall x, is_Some (g !! x) -> Ceiling g x (ceil_of ceil x)) ->
  exists b, ancestryBreach g ceil id = Some b /\
    (b = false <-> forall x a, ancestor g id x -> ancestor g x a -> trust_of g x <= trust_of g a).
Proof.
  intros Hfit Hk Hc. unfold ancestryBreach. destruct (walk_ancestors g rank (breaches g ceil) (fun _ u => u) tt id Hfit) as (r & st & -> & Hr).
  exists r. split; [done|]. rewrite Hr. setoid_rewrite breaches_spec. split.
  - intros Hall x a Hx Ha. apply rtc_inv in Ha as [<-|(p & Hp & Ha)]; [lia|].
    by apply (proj1 (ceiling_bound g p _ _ (Hc p (Hk x p Hp))) (Hall x Hx p Hp)).
  - intros Hall x Hx p Hp. apply (ceiling_bound g p); [by apply Hc, (Hk x)|]. intros a Ha. apply Hall; [done|]. by eapply rtc_l.
Qed.
Lemma ancestryIDs_total g rank id : fits g rank -> exists ids, ancestryIDs g id = Some ids.
Proof.
  intros Hfit. unfold ancestryIDs.
  destruct (walk_ancestors g rank (fun _ => false) (fun cur ids => ids ++ [cur]) [] id Hfit) as (r & st & -> & _). by eexists.
Qed.
Lemma dominates_spec g frags ceil id need : indexFragments frags = Some g -> parents_known g -> is_Some (g !! id) ->
  Ceiling g id (ceil_of ceil id) -> (trustRank need).2 = true ->
  dominates (ceil_of ceil id) need = true <-> forall a, ancestor g id a -> (trustRank need).1 <= trust_of g a.
Proof.
  intros Hi Hk Hid Hc Hn. rewrite <- (ceiling_bound g id _ _ Hc). destruct Hc as [(a & Ha & Ea) _].
  destruct (ancestor_known g id a Hk Hid Ha) as [f Hf]. pose proof (index_known _ _ _ _ Hi Hf) as Hknown.
  unfold at_ in Ea. rewrite Hf in Ea. cbn in Ea. rewrite <- Ea. unfold dominates.
  destruct (trustRank (cf_Trust f)) as [h okh], (trustRank need) as [n okn]. cbn in *. subst. cbn. apply Z.leb_le.
Qed.
Lemma judged_authority root candidate g target ceil ids breach :
  de_InstructionAuthority (judged root candidate g target ceil ids breach) = Authoritative <->
  breach = false /\ dominates (ceil_of ceil (cm_FragmentID candidate)) (er_RequiredInstructionTrust root) = true.
Proof. unfold judged. destruct breach, (dominates _ _); cbn; naive_solver. Qed.

(** C28.  Authorize always decides.  A message is authoritative exactly when the
    fragments are in form, its fragment exists, trust nowhere rises along its
    derivation (no ancestor is trusted more than a fragment it comes from) and
    every ancestor has the required trust: neither the visible role nor any
    claim of the message counts. *)
Theorem authoritative_iff (root : EvaluationRoot) (candidate : CandidateMessage) :
  exists d, Authorize root candidate = Some d /\
  (de_InstructionAuthority d = Authoritative <->
   exists g, indexFragments (er_Fragments root) = Some g /\ in_form root g /\
     (trustRank (er_RequiredInstructionTrust root)).2 = true /\ is_Some (g !! cm_FragmentID candidate) /\
     (forall x a, ancestor g (cm_FragmentID candidate) x -> ancestor g x a -> trust_of g x <= trust_of g a) /\
     (forall a, ancestor g (cm_FragmentID candidate) a -> (trustRank (er_RequiredInstructionTrust root)).1 <= trust_of g a)).
Proof.
  unfold Authorize. destruct (indexFragments _) as [g|] eqn:Ei; [|eexists; split; [done|split; [done|naive_solver]]].
  destruct (structuralOK_spec root g) as (b & -> & Hb & Hfit). cbn [mbind option_bind]. destruct b; cbn [negb].
  2: { eexists. split; [done|]. split; [done|]. intros (g' & [= <-] & Hf & _). apply Hb in Hf. done. }
  destruct (trustRank (er_RequiredInstructionTrust root)).2 eqn:Er; cbn [negb]; [|eexists; split; [done|split; [done|naive_solver]]].
  set (id := cm_FragmentID candidate). destruct (g !! id) as [target|] eqn:Et; [|eexists; split; [done|split; [done|]]; intros (g' & [= <-] & _ & _ & [? ?] & _); congruence].
  destruct (Hfit eq_refl) as [Hk [rank Hrank]]. destruct (ceilings_spec g rank Hrank) as (ceil & -> & Hc). cbn [mbind option_bind].
  destruct (ancestryIDs_total g rank id Hrank) as [ids ->]. cbn [mbind option_bind].
  destruct (breach_spec g rank ceil id Hrank Hk Hc) as (breach & -> & Hbr). cbn [mbind option_bind].
  eexists. split; [done|]. rewrite judged_authority, Hbr. fold id. assert (is_Some (g !! id)) as Hid by (by exists target).
  rewrite (dominates_spec g _ ceil id _ Ei Hk Hid (Hc id Hid) Er). split.
  - intros [Hrise Hreq]. exists g. split_and!; try done. by apply Hb.
  - intros (g' & [= <-] & _ & _ & _ & Hrise & Hreq). done.
Qed.
