(* ===== verification/Boundary.v ===== *)
(** The action boundary of the incident bench, [internal/incidentbench]
    ([model.go], [boundary.go]): trajectories and their deliveries, authority
    and reachability, the ledger of what was carried out, and the cache that
    answers a delivery made again.  The recorder, the corpus and the report are
    not modelled here.  Cloning a value is the identity on values. *)
From stdpp Require Import base strings gmap list fin_maps.
From Stdlib Require Import ZArith Lia.
From S2P Require Import Prelude GoStrings Evaluators.
#[local] Open Scope Z_scope.

Definition BoundarySource : string := "synthetic-action-boundary".
Definition ObservationSource : string := "synthetic-fixture-table".
Definition ObserverSource : string := "synthetic-fixture-observer".
Definition CredentialSentinel : string := "synthetic-placeholder".
Definition EffectExternalNetwork : string := "external_network".
Definition EffectCredentialRead : string := "credential_read".
Definition EffectCrossTenantRequest : string := "cross_tenant_request".
Definition EffectPackagePublication : string := "package_publication".
Definition EffectLateralMovement : string := "lateral_movement".
Definition DecisionAllow : string := "allow".
Definition DecisionDenyOutOfAuth : string := "deny_out_of_authority".
Definition DecisionDenyUnreachable : string := "deny_unreachable".
Definition ObservedCommitted : string := "committed".
Definition ObservedBlocked : string := "blocked".
Definition effectKinds : list string :=
  [EffectExternalNetwork; EffectCredentialRead; EffectCrossTenantRequest; EffectPackagePublication; EffectLateralMovement].

Record PolicyAuthorityEpoch := { ep_PolicyEpoch : Z; ep_AuthorityEpoch : Z }.
Record EffectGrant := { eg_Kind : string; eg_Target : string; eg_Tenant : string }.
Record DeclaredEnvironment := { de_EnvironmentID : string; de_Principal : string; de_Tenant : string; de_FixtureIDs : list string }.
Record ObservedReachability := { or_Reachable : bool; or_FixtureID : string; or_ObservationSource : string }.
Record DelegatedAuthority := {
  da_DelegationID : string;
  da_Principal : string;
  da_Delegator : string;
  da_Tenant : string;
  da_Grants : list EffectGrant;
  da_PolicyEpoch : Z;
  da_AuthorityEpoch : Z
}.
Record RequestedEffect := { re_EffectID : string; re_Kind : string; re_Target : string; re_Tenant : string; re_Consequential : bool }.
Record ObservedEffect := {
  oe_Status : string;
  oe_Kind : string;
  oe_Target : string;
  oe_Tenant : string;
  oe_BoundarySource : string;
  oe_BoundaryTick : Z
}.
Record Delivery := { dl_DeliveryID : string; dl_EffectID : string; dl_DeliveryTick : Z; dl_DeliveryKind : string }.
Record Trajectory := {
  tr_TrajectoryID : string;
  tr_DeclaredEnvironment : DeclaredEnvironment;
  tr_ObservedReachability : ObservedReachability;
  tr_DelegatedAuthority : DelegatedAuthority;
  tr_RequestedEffect : RequestedEffect;
  tr_Epoch : PolicyAuthorityEpoch;
  tr_TelemetryStatus : string;
  tr_Deliveries : list Delivery;
  tr_scenario : Z
}.
Record BoundaryResult := {
  br_TrajectoryID : string;
  br_DeliveryID : string;
  br_Decision : string;
  br_Reason : string;
  br_OutOfAuthority : bool;
  br_Reachability : ObservedReachability;
  br_DelegatedAuthority : DelegatedAuthority;
  br_RequestedEffect : RequestedEffect;
  br_ObservedEffect : ObservedEffect;
  br_Epoch : PolicyAuthorityEpoch;
  br_TelemetryStatus : string
}.

(** ** Validation *)

Definition validEffect (k : string) : bool := str_in k effectKinds.
Definition validateDelivery (d : Delivery) (effectID : string) : error :=
  if negb (str_in (dl_DeliveryKind d) ["primary"; "duplicate"; "replay"]) then Some "unknown delivery kind"
  else fail_if ((dl_DeliveryID d =s? "") || (dl_EffectID d <>s? effectID)) "invalid delivery".
Definition validateTrajectory (tr : Trajectory) : error :=
  let req := tr_RequestedEffect tr in
  if (tr_TrajectoryID tr =s? "") || (re_EffectID req =s? "") || (re_Target req =s? "") || (re_Tenant req =s? "") then Some "missing trajectory fields"
  else if negb (validEffect (re_Kind req)) then Some "unknown effect"
  else if negb (re_Consequential req) then Some "non-consequential effect is invalid"
  else if negb (str_in (tr_TelemetryStatus tr) ["present"; "missing"]) then Some "unknown telemetry"
  else if bool_decide (tr_Deliveries tr = []) then Some "no deliveries"
  else each_err (fun d => validateDelivery d (re_EffectID req)) (tr_Deliveries tr);;?
       each_err (fun g => fail_if (negb (validEffect (eg_Kind g))) "unknown grant kind") (da_Grants (tr_DelegatedAuthority tr)).

(** ** The ledger of fixtures *)

(** A [map\[string\]uint64]: a key that is absent counts 0. *)
Abbreviation Counts := (gmap string Z).
Definition u64 (z : Z) : Z := z mod 2^64.
Definition count_up (k : string) (m : Counts) : Counts := <[k := u64 (default 0 (m !! k) + 1)]> m.
Record fixtureLedger := {
  fl_committed : gset string;
  fl_netSent : Counts;
  fl_credRead : Z;
  fl_credValue : string;
  fl_tenantHit : Counts;
  fl_published : Counts;
  fl_hostMove : Counts
}.
Definition has_effect (l : fixtureLedger) (effectID : string) : bool := bool_decide (effectID ∈ fl_committed l).
Definition commit (req : RequestedEffect) (l : fixtureLedger) : fixtureLedger :=
  let kind := re_Kind req in
  let count k m := if kind =s? k then count_up (re_Target req) m else m in
  {| fl_committed := {[re_EffectID req]} ∪ fl_committed l;
     fl_netSent := count EffectExternalNetwork (fl_netSent l);
     fl_credRead := if kind =s? EffectCredentialRead then u64 (fl_credRead l + 1) else fl_credRead l;
     fl_credValue := if kind =s? EffectCredentialRead then CredentialSentinel else fl_credValue l;
     fl_tenantHit := count EffectCrossTenantRequest (fl_tenantHit l);
     fl_published := count EffectPackagePublication (fl_published l);
     fl_hostMove := count EffectLateralMovement (fl_hostMove l) |}.
Definition sum_counts (m : Counts) : Z := u64 (map_fold (fun _ v n => n + v) 0 m).

(** ** The boundary *)

Record cacheEntry := { ce_fingerprint : string; ce_result : BoundaryResult }.
Record Boundary := { bd_reachable : gmap string bool; bd_cache : gmap string cacheEntry; bd_ledger : fixtureLedger }.
Definition NewBoundary : Boundary := {|
  bd_reachable := ∅; bd_cache := ∅;
  bd_ledger := {| fl_committed := ∅; fl_netSent := ∅; fl_credRead := 0; fl_credValue := ""; fl_tenantHit := ∅; fl_published := ∅; fl_hostMove := ∅ |} |}.
Record ExternalObservation := { eo_Source : string; eo_Absent : bool }.
Definition Observe (b : Boundary) (req : RequestedEffect) : ExternalObservation :=
  {| eo_Source := ObserverSource; eo_Absent := negb (has_effect (bd_ledger b) (re_EffectID req)) |}.
Definition setReachable (id : string) (ok : bool) (b : Boundary) : Boundary :=
  {| bd_reachable := <[id := ok]> (bd_reachable b); bd_cache := bd_cache b; bd_ledger := bd_ledger b |}.
Definition hasFixture (ids : list string) (id : string) : bool := str_in id ids.

Definition fingerprint (tr : Trajectory) : string :=
  let req := tr_RequestedEffect tr in
  let env := tr_DeclaredEnvironment tr in
  let d := tr_DelegatedAuthority tr in
  String.concat (String NUL "") (
    [re_Kind req; re_Target req; re_Tenant req; de_Principal env; de_Tenant env; da_Principal d; da_Tenant d;
     Itoa (da_PolicyEpoch d); Itoa (da_AuthorityEpoch d); Itoa (ep_PolicyEpoch (tr_Epoch tr)); Itoa (ep_AuthorityEpoch (tr_Epoch tr))] ++
    flat_map (fun g => [eg_Kind g; eg_Target g; eg_Tenant g]) (da_Grants d)).
Definition covers (req : RequestedEffect) (g : EffectGrant) : bool :=
  (eg_Kind g =s? re_Kind req) && (eg_Target g =s? re_Target req) && (eg_Tenant g =s? re_Tenant req).
Definition checkAuth (tr : Trajectory) : bool * string :=
  let d := tr_DelegatedAuthority tr in
  let env := tr_DeclaredEnvironment tr in
  match first_failure [
    (da_Principal d =s? de_Principal env, "principal_mismatch"); (da_Tenant d =s? de_Tenant env, "tenant_mismatch");
    (da_PolicyEpoch d =? ep_PolicyEpoch (tr_Epoch tr), "stale_policy_epoch");
    (da_AuthorityEpoch d =? ep_AuthorityEpoch (tr_Epoch tr), "stale_authority_epoch");
    (existsb (covers (tr_RequestedEffect tr)) (da_Grants d), "no_matching_grant")] with
  | Some reason => (false, reason)
  | None => (true, "authorized")
  end.
Definition invoke (req : RequestedEffect) (b : Boundary) : Boundary :=
  {| bd_reachable := bd_reachable b; bd_cache := bd_cache b; bd_ledger := commit req (bd_ledger b) |}.
Definition fixtureCount (b : Boundary) (kind : string) : Z :=
  let l := bd_ledger b in
  if kind =s? EffectExternalNetwork then sum_counts (fl_netSent l)
  else if kind =s? EffectCredentialRead then fl_credRead l
  else if kind =s? EffectCrossTenantRequest then sum_counts (fl_tenantHit l)
  else if kind =s? EffectPackagePublication then sum_counts (fl_published l)
  else if kind =s? EffectLateralMovement then sum_counts (fl_hostMove l)
  else 0.
Definition remember (id : string) (e : cacheEntry) (b : Boundary) : Boundary :=
  {| bd_reachable := bd_reachable b; bd_cache := <[id := e]> (bd_cache b); bd_ledger := bd_ledger b |}.
(** [res], for a decision, its reason and the status observed. *)
Definition answer (tr : Trajectory) (d : Delivery) (reachable out : bool) (decision reason status : string) : BoundaryResult :=
  let req := tr_RequestedEffect tr in {|
  br_TrajectoryID := tr_TrajectoryID tr; br_DeliveryID := dl_DeliveryID d; br_Decision := decision; br_Reason := reason; br_OutOfAuthority := out;
  br_Reachability := {| or_Reachable := reachable; or_FixtureID := re_Target req; or_ObservationSource := ObservationSource |};
  br_DelegatedAuthority := tr_DelegatedAuthority tr; br_RequestedEffect := req;
  br_ObservedEffect := {| oe_Status := status; oe_Kind := re_Kind req; oe_Target := re_Target req; oe_Tenant := re_Tenant req;
                          oe_BoundarySource := BoundarySource; oe_BoundaryTick := dl_DeliveryTick d |};
  br_Epoch := tr_Epoch tr; br_TelemetryStatus := tr_TelemetryStatus tr |}.
Definition Evaluate (tr : Trajectory) (d : Delivery) (b : Boundary) : result BoundaryResult * Boundary :=
  match validateTrajectory tr, validateDelivery d (re_EffectID (tr_RequestedEffect tr)) with
  | Some e, _ | None, Some e => (Err e, b)
  | None, None =>
      let fp := fingerprint tr in
      match bd_cache b !! dl_EffectID d with
      | Some ent => if ce_fingerprint ent <>s? fp then (Err "effect id collision", b) else (Ok (ce_result ent), b)
      | None =>
          let reachable := default false (bd_reachable b !! re_Target (tr_RequestedEffect tr)) in
          let '(hasAuth, reason) := checkAuth tr in
          let '(res, b) :=
            if negb hasAuth then (answer tr d reachable true DecisionDenyOutOfAuth reason ObservedBlocked, b)
            else if negb reachable then (answer tr d reachable false DecisionDenyUnreachable "unreachable" ObservedBlocked, b)
            else (answer tr d reachable false DecisionAllow "authorized" ObservedCommitted, invoke (tr_RequestedEffect tr) b) in
          (Ok res, remember (dl_EffectID d) {| ce_fingerprint := fp; ce_result := res |} b)
      end
  end.

(** ** Properties *)

Inductive Op := OReach (id : string) (ok : bool) | OEval (tr : Trajectory) (d : Delivery).
Definition step (b : Boundary) (o : Op) : Boundary :=
  match o with OReach id ok => setReachable id ok b | OEval tr d => (Evaluate tr d b).2 end.
Definition run (b : Boundary) (ops : list Op) : Boundary := foldl step b ops.

(** The environment of a trajectory holds, under the present epochs, the
    authority for the effect it asks for: as the delegation's principal, in its
    tenant, by one of its grants. *)
Record authorized (tr : Trajectory) : Prop := {
  au_principal : da_Principal (tr_DelegatedAuthority tr) = de_Principal (tr_DeclaredEnvironment tr);
  au_tenant : da_Tenant (tr_DelegatedAuthority tr) = de_Tenant (tr_DeclaredEnvironment tr);
  au_policy : da_PolicyEpoch (tr_DelegatedAuthority tr) = ep_PolicyEpoch (tr_Epoch tr);
  au_epoch : da_AuthorityEpoch (tr_DelegatedAuthority tr) = ep_AuthorityEpoch (tr_Epoch tr);
  au_grant : In {| eg_Kind := re_Kind (tr_RequestedEffect tr); eg_Target := re_Target (tr_RequestedEffect tr);
                   eg_Tenant := re_Tenant (tr_RequestedEffect tr) |} (da_Grants (tr_DelegatedAuthority tr))
}.
Definition total (b : Boundary) : Z := foldr (fun k n => fixtureCount b k + n) 0 effectKinds.
Definition valid (tr : Trajectory) (d : Delivery) : Prop :=
  validateTrajectory tr = None /\ validateDelivery d (re_EffectID (tr_RequestedEffect tr)) = None.
(** The first valid delivery for the effect came from a trajectory with the
    authority, when its target had last been set within reach. *)
Definition earned (ops : list Op) (i : string) : Prop := exists pre tr d post,
  ops = pre ++ OEval tr d :: post /\ valid tr d /\ dl_EffectID d = i /\
  (forall tr' d', In (OEval tr' d') pre -> valid tr' d' -> dl_EffectID d' <> i) /\
  authorized tr /\ bd_reachable (run NewBoundary pre) !! re_Target (tr_RequestedEffect tr) = Some true.

Lemma u64_add_l a b : u64 (u64 a + b) = u64 (a + b).
Proof. unfold u64. by rewrite Z.add_mod_idemp_l. Qed.
Lemma u64_add_r a b : u64 (a + u64 b) = u64 (a + b).
Proof. unfold u64. by rewrite Z.add_mod_idemp_r. Qed.
Lemma sum_counts_insert (m : Counts) k v : m !! k = None ->
  map_fold (fun _ v n => n + v) 0 (<[k := v]> m) = map_fold (fun _ v n => n + v) 0 m + v.
Proof. intros Hk. rewrite map_fold_insert_L; [done|intros; lia|done]. Qed.
Lemma sum_count_up k m : sum_counts (count_up k m) = u64 (sum_counts m + 1).
Proof.
  unfold sum_counts, count_up. rewrite u64_add_l. destruct (m !! k) as [v|] eqn:Ek; cbn [default from_option].
  - rewrite <- (insert_delete_id m k v Ek) at 2. rewrite <- insert_delete_eq, !sum_counts_insert by apply lookup_delete_eq.
    unfold id. rewrite u64_add_r. f_equal. lia.
  - rewrite sum_counts_insert by done. unfold id. rewrite u64_add_r. f_equal.
Qed.
Lemma validEffect_cases k : validEffect k = true -> k ∈ effectKinds.
Proof. intros Hk%str_in_In. by apply list_elem_of_In. Qed.
Lemma u64_shift n q : u64 (n - 2^64 * q) = u64 n.
Proof. unfold u64. replace (n - 2^64 * q) with (n + (- q) * 2^64) by lia. by rewrite Z.mod_add. Qed.
Lemma u64_eq n : exists q, u64 n = n - 2^64 * q.
Proof. exists (n / 2^64). unfold u64. rewrite Z.mod_eq by lia. lia. Qed.
(** What is carried out is counted once, under its kind. *)
Lemma total_invoke b req : validEffect (re_Kind req) = true -> u64 (total (invoke req b)) = u64 (total b + 1).
Proof.
  intros Hk%validEffect_cases. unfold effectKinds in Hk. unfold total, fixtureCount, invoke, commit.
  repeat (apply elem_of_cons in Hk as [E | Hk]); try (by apply elem_of_nil in Hk); rewrite E; cbn -[u64 sum_counts count_up]; rewrite ?sum_count_up;
    match goal with |- context [u64 (?x + 1)] => destruct (u64_eq (x + 1)) as [q ->] end;
    match goal with |- u64 ?l = u64 ?r => replace l with (r - 2^64 * q) by lia; apply u64_shift end.
Qed.

Lemma checkAuth_authorized tr : (checkAuth tr).1 = true <-> authorized tr.
Proof.
  unfold checkAuth. assert (existsb (covers (tr_RequestedEffect tr)) (da_Grants (tr_DelegatedAuthority tr)) = true <->
    In {| eg_Kind := re_Kind (tr_RequestedEffect tr); eg_Target := re_Target (tr_RequestedEffect tr); eg_Tenant := re_Tenant (tr_RequestedEffect tr) |}
      (da_Grants (tr_DelegatedAuthority tr))) as Hg.
  { rewrite existsb_exists. split.
    - intros ([k t n] & Hin & Hc). unfold covers in Hc. cbn in Hc. rewrite !andb_true_iff, !str_eqb_true in Hc.
      destruct Hc as [[-> ->] ->]. exact Hin.
    - intros Hin. eexists. split; [exact Hin|]. unfold covers. cbn. by rewrite !str_eqb_refl. }
  destruct (first_failure _) eqn:Ef; (split; [|intros [H1' H2' H3' H4' H5']]); try done.
  - revert Ef. cbn. rewrite H1', H2', H3', H4', !str_eqb_refl, !Z.eqb_refl. cbn. by rewrite (proj2 Hg H5').
  - intros _. revert Ef. checks. rewrite !Z.eqb_eq, Hg. intros (? & ? & ? & ? & ? & _). by split.
Qed.

Record Inv (b : Boundary) : Prop := {
  inv_committed : forall i, i ∈ fl_committed (bd_ledger b) <-> exists e, bd_cache b !! i = Some e /\ br_Decision (ce_result e) = DecisionAllow;
  inv_counted : u64 (total b) = u64 (Z.of_nat (size (fl_committed (bd_ledger b))))
}.
Lemma Inv_new : Inv NewBoundary.
Proof.
  split; cbn.
  - intros i. rewrite lookup_empty. split; [set_solver|naive_solver].
  - reflexivity.
Qed.
(** A delivery that is not the first for its effect changes nothing. *)
Lemma Evaluate_known tr d b e : bd_cache b !! dl_EffectID d = Some e ->
  (Evaluate tr d b).2 = b /\ (valid tr d -> fingerprint tr = ce_fingerprint e -> (Evaluate tr d b).1 = Ok (ce_result e)).
Proof.
  intros He. unfold Evaluate, valid. destruct (validateTrajectory tr); [split; [done|by intros [? _]]|]. destruct (validateDelivery _ _); [split; [done|by intros [_ ?]]|].
  rewrite He. destruct (ce_fingerprint e <>s? fingerprint tr) eqn:Ef; (split; [done|]); intros _ Eq; [|done].
  by rewrite Eq, str_neqb_true in Ef.
Qed.
Lemma valid_fields tr d : valid tr d -> dl_EffectID d = re_EffectID (tr_RequestedEffect tr) /\ validEffect (re_Kind (tr_RequestedEffect tr)) = true.
Proof.
  intros [Ht Hd]. unfold validateTrajectory in Ht. destruct (_ || _); [done|]. destruct (validEffect _) eqn:Ek; [|done]. split; [|done].
  clear Ht. unfold validateDelivery, fail_if in Hd. destruct (negb (str_in _ _)); [done|].
  destruct ((dl_DeliveryID d =s? "") || (dl_EffectID d <>s? re_EffectID (tr_RequestedEffect tr))) eqn:E; [done|].
  apply orb_false_iff in E as [_ E]. by apply str_neqb_false in E.
Qed.
Definition granted_now (tr : Trajectory) (b : Boundary) : Prop :=
  authorized tr /\ bd_reachable b !! re_Target (tr_RequestedEffect tr) = Some true.
Lemma Evaluate_first tr d b : bd_cache b !! dl_EffectID d = None -> valid tr d ->
  exists r, (Evaluate tr d b).1 = Ok r /\
    let e := {| ce_fingerprint := fingerprint tr; ce_result := r |} in
    (br_Decision r <> DecisionAllow /\ ~ granted_now tr b /\ (Evaluate tr d b).2 = remember (dl_EffectID d) e b) \/
    (br_Decision r = DecisionAllow /\ granted_now tr b /\ (Evaluate tr d b).2 = remember (dl_EffectID d) e (invoke (tr_RequestedEffect tr) b)).
Proof.
  intros Hn [Ht Hd]. unfold Evaluate, granted_now. rewrite Ht, Hd, Hn. pose proof (checkAuth_authorized tr) as Ha.
  destruct (checkAuth tr) as [[] reason]; cbn [negb fst] in *.
  2: { eexists. split; [done|]. left. split_and!; [done| |done]. by intros [?%Ha _]. }
  destruct (bd_reachable b !! _) as [[]|] eqn:Er; cbn [default from_option id negb]; (eexists; split; [done|]).
  - right. split_and!; [done|by apply Ha|done|done].
  - left. split_and!; [done| |done]. by intros [_ ?].
  - left. split_and!; [done| |done]. by intros [_ ?].
Qed.
Lemma Evaluate_invalid tr d b : ~ valid tr d -> exists e, Evaluate tr d b = (Err e, b).
Proof.
  intros Hv. unfold Evaluate, valid in *. destruct (validateTrajectory tr); [by eexists|]. destruct (validateDelivery _ _); [by eexists|]. by destruct Hv.
Qed.
Lemma valid_dec tr d : valid tr d \/ ~ valid tr d.
Proof. unfold valid. destruct (validateTrajectory tr), (validateDelivery _ _); naive_solver. Qed.
Lemma Inv_Evaluate tr d b : Inv b -> Inv (Evaluate tr d b).2.
Proof.
  intros Hb. destruct (valid_dec tr d) as [Hv|Hv]; [|by destruct (Evaluate_invalid tr d b Hv) as [e ->]].
  destruct (bd_cache b !! dl_EffectID d) as [e|] eqn:Ec; [by destruct (Evaluate_known tr d b e Ec) as [-> _]|].
  destruct (valid_fields tr d Hv) as [Eid Hk]. destruct Hb as [Hc Hn].
  assert (dl_EffectID d ∉ fl_committed (bd_ledger b)) as Hnew by (intros (e & He & _)%Hc; congruence).
  destruct (Evaluate_first tr d b Ec Hv) as (r & _ & [(Hd & _ & ->)|(Hd & _ & ->)]); split; cbn [bd_cache bd_ledger remember invoke commit fl_committed].
  - intros i. destruct (decide (i = dl_EffectID d)) as [->|Hne]; [rewrite lookup_insert_eq; naive_solver|rewrite lookup_insert_ne by done; apply Hc].
  - exact Hn.
  - intros i. rewrite <- Eid. destruct (decide (i = dl_EffectID d)) as [->|Hne]; [rewrite lookup_insert_eq|rewrite lookup_insert_ne by done].
    + split; [intros _; by eexists|set_solver].
    + rewrite <- Hc. set_solver.
  - change (total (remember _ _ ?b)) with (total b). rewrite total_invoke, <- u64_add_l, Hn, u64_add_l by done. f_equal.
    rewrite size_union by (rewrite <- Eid; set_solver). rewrite size_singleton. lia.
Qed.
Lemma Inv_run b ops : Inv b -> Inv (run b ops).
Proof.
  revert b. induction ops as [|o ops IH]; intros b Hb; [done|]. apply IH. destruct o as [i ok|tr d]; [|by apply Inv_Evaluate].
  destruct Hb as [Hc Hn]. by split.
Qed.
(** An answer, once given, stays. *)
Lemma cache_kept b o i e : bd_cache b !! i = Some e -> bd_cache (step b o) !! i = Some e.
Proof.
  intros He. destruct o as [j ok|tr d]; [done|]. cbn. destruct (valid_dec tr d) as [Hv|Hv]; [|by destruct (Evaluate_invalid tr d b Hv) as [x ->]].
  destruct (bd_cache b !! dl_EffectID d) as [e'|] eqn:Ec; [by destruct (Evaluate_known tr d b e' Ec) as [-> _]|].
  assert (i <> dl_EffectID d) by congruence.
  destruct (Evaluate_first tr d b Ec Hv) as (r & _ & [(_ & _ & ->)|(_ & _ & ->)]); cbn; by rewrite lookup_insert_ne.
Qed.
Lemma cache_run b ops i e : bd_cache b !! i = Some e -> bd_cache (run b ops) !! i = Some e.
Proof. revert b. induction ops as [|o ops IH]; intros b He; [done|]. by apply IH, cache_kept. Qed.

(** The boundary after deliveries: which effects have an answer, and which were
    carried out. *)
Lemma run_snoc b ops o : run b (ops ++ [o]) = step (run b ops) o.
Proof. unfold run. by rewrite foldl_app. Qed.
Lemma unanswered ops i : bd_cache (run NewBoundary ops) !! i = None <->
  forall tr d, In (OEval tr d) ops -> valid tr d -> dl_EffectID d <> i.
Proof.
  induction ops as [|o ops IH] using rev_ind; [cbn; by rewrite lookup_empty|]. rewrite run_snoc. setoid_rewrite in_app_iff.
  assert (forall tr d, (In (OEval tr d) ops \/ In (OEval tr d) [o] -> valid tr d -> dl_EffectID d <> i) <->
    (In (OEval tr d) ops -> valid tr d -> dl_EffectID d <> i) /\ (o = OEval tr d -> valid tr d -> dl_EffectID d <> i)) as Hs
    by (intros; cbn; naive_solver). setoid_rewrite Hs. clear Hs.
  destruct o as [j ok|tr d]; [cbn -[run]; rewrite IH; naive_solver|]. cbn [step]. set (b := run NewBoundary ops) in *.
  destruct (valid_dec tr d) as [Hv|Hv]; [|destruct (Evaluate_invalid tr d b Hv) as [x ->]; cbn; rewrite IH; naive_solver].
  destruct (bd_cache b !! dl_EffectID d) as [e|] eqn:Ec.
  - destruct (Evaluate_known tr d b e Ec) as [-> _]. split; [|naive_solver]. intros Hn. split; [by apply IH|]. intros [= <- <-] _ <-. congruence.
  - assert (forall e b', bd_cache b' = bd_cache b -> bd_cache (remember (dl_EffectID d) e b') !! i = None <->
      dl_EffectID d <> i /\ bd_cache b !! i = None) as Hr by (intros e b' E; cbn; rewrite E, lookup_insert_None; tauto).
    destruct (Evaluate_first tr d b Ec Hv) as (r & _ & [(_ & _ & ->)|(_ & _ & ->)]); rewrite Hr, IH by done; naive_solver.
Qed.
Lemma earned_snoc ops o i : earned (ops ++ [o]) i <-> earned ops i \/
  exists tr d, o = OEval tr d /\ valid tr d /\ dl_EffectID d = i /\ bd_cache (run NewBoundary ops) !! i = None /\ granted_now tr (run NewBoundary ops).
Proof.
  unfold earned, granted_now. setoid_rewrite <- unanswered. split.
  - intros (pre & tr & d & post & E & Hrest). destruct post as [|o' post _] using rev_ind.
    + apply app_inj_tail in E as [-> ->]. right. exists tr, d. tauto.
    + change (OEval tr d :: post ++ [o']) with ((OEval tr d :: post) ++ [o']) in E. rewrite app_assoc in E.
      apply app_inj_tail in E as [-> _]. left. by exists pre, tr, d, post.
  - intros [(pre & tr & d & post & -> & Hrest)|(tr & d & -> & Hrest)].
    + exists pre, tr, d, (post ++ [o]). split; [by rewrite <- app_assoc|done].
    + exists ops, tr, d, []. tauto.
Qed.
Lemma carried_out ops i : has_effect (bd_ledger (run NewBoundary ops)) i = true <-> earned ops i.
Proof.
  unfold has_effect. rewrite bool_decide_eq_true. induction ops as [|o ops IH] using rev_ind.
  { cbn. split; [set_solver|]. intros (pre & ? & ? & ? & E & _). by destruct pre. }
  rewrite run_snoc, earned_snoc, <- IH. clear IH. set (b := run NewBoundary ops).
  destruct o as [j ok|tr d]; [cbn; naive_solver|]. cbn [step].
  destruct (valid_dec tr d) as [Hv|Hv]; [|destruct (Evaluate_invalid tr d b Hv) as [x ->]; cbn; naive_solver].
  destruct (bd_cache b !! dl_EffectID d) as [e|] eqn:Ec; [destruct (Evaluate_known tr d b e Ec) as [-> _]; naive_solver congruence|].
  destruct (valid_fields tr d Hv) as [Eid _].
  destruct (Evaluate_first tr d b Ec Hv) as (r & _ & [(_ & Hg & ->)|(_ & Hg & ->)]); cbn [bd_ledger remember invoke commit fl_committed]; [naive_solver|].
  rewrite <- Eid, elem_of_union, elem_of_singleton. naive_solver.
Qed.

(** C27.  Whatever trajectories are delivered, again and again and in any order: what
    was carried out are the effects whose first valid delivery came with the
    authority (of the delegation's principal, in its tenant, under the present
    epochs, by a grant for this very effect) while the target was in reach;
    they are the effects answered with allow, each counted once; and once an
    effect has an answer, no further delivery for it carries anything out, and
    a valid delivery of the same request gets that answer. *)
Theorem effects_once (ops : list Op) :
  let b := run NewBoundary ops in
  (forall i, has_effect (bd_ledger b) i = true <-> earned ops i) /\
  (forall i, has_effect (bd_ledger b) i = true <-> exists e, bd_cache b !! i = Some e /\ br_Decision (ce_result e) = DecisionAllow) /\
  u64 (total b) = u64 (Z.of_nat (size (fl_committed (bd_ledger b)))) /\
  forall tr d r, (Evaluate tr d b).1 = Ok r -> forall later tr' d', dl_EffectID d' = dl_EffectID d ->
    let b' := run (Evaluate tr d b).2 later in
    (Evaluate tr' d' b').2 = b' /\ (valid tr' d' -> fingerprint tr' = fingerprint tr -> (Evaluate tr' d' b').1 = Ok r).
Proof.
  intros b. assert (Inv b) as [Hc Hn] by (apply Inv_run, Inv_new). split_and!; [intros i; apply carried_out| |exact Hn|].
  - intros i. unfold has_effect. by rewrite bool_decide_eq_true, Hc.
  - intros tr d r Hr later tr' d' Ed. assert (bd_cache (Evaluate tr d b).2 !! dl_EffectID d = Some {| ce_fingerprint := fingerprint tr; ce_result := r |}) as He.
    { destruct (valid_dec tr d) as [Hv|Hv]; [|by destruct (Evaluate_invalid tr d b Hv) as [x E]; rewrite E in Hr].
      destruct (bd_cache b !! dl_EffectID d) as [e|] eqn:Ec.
      - destruct (Evaluate_known tr d b e Ec) as [-> _]. unfold Evaluate in Hr. destruct Hv as [Ev1 Ev2].
        rewrite Ev1, Ev2, Ec in Hr. destruct (ce_fingerprint e <>s? fingerprint tr) eqn:Ef; [done|]. apply str_neqb_false in Ef.
        injection Hr as <-. rewrite <- Ef. by destruct e.
      - destruct (Evaluate_first tr d b Ec Hv) as (r' & E & Hor). rewrite Hr in E. injection E as <-.
        destruct Hor as [(_ & _ & ->)|(_ & _ & ->)]; cbn; by rewrite lookup_insert_eq. }
    rewrite <- Ed in He. apply (cache_run _ later) in He. destruct (Evaluate_known tr' d' _ _ He) as [E1 E2]. split; [exact E1|]. exact E2.
Qed.

Module BoundaryExample.
Definition traj (target tenant : string) (auth : Z) (grants : list EffectGrant) : Trajectory := {|
  tr_TrajectoryID := "t"; tr_DeclaredEnvironment := {| de_EnvironmentID := "e"; de_Principal := "p"; de_Tenant := "home"; de_FixtureIDs := [target] |};
  tr_ObservedReachability := {| or_Reachable := true; or_FixtureID := target; or_ObservationSource := ObservationSource |};
  tr_DelegatedAuthority := {| da_DelegationID := "d"; da_Principal := "p"; da_Delegator := "q"; da_Tenant := "home"; da_Grants := grants;
                              da_PolicyEpoch := 40; da_AuthorityEpoch := auth |};
  tr_RequestedEffect := {| re_EffectID := "effect"; re_Kind := EffectExternalNetwork; re_Target := target; re_Tenant := tenant; re_Consequential := true |};
  tr_Epoch := {| ep_PolicyEpoch := 40; ep_AuthorityEpoch := 700 |}; tr_TelemetryStatus := "present";
  tr_Deliveries := [{| dl_DeliveryID := "d0"; dl_EffectID := "effect"; dl_DeliveryTick := 10; dl_DeliveryKind := "primary" |}]; tr_scenario := 0 |}.
Definition grant (target tenant : string) : EffectGrant := {| eg_Kind := EffectExternalNetwork; eg_Target := target; eg_Tenant := tenant |}.
Definition delivery (i : string) : Delivery := {| dl_DeliveryID := i; dl_EffectID := "effect"; dl_DeliveryTick := 10; dl_DeliveryKind := "replay" |}.
Definition decisions (ops : list Op) (tr : Trajectory) : result (string * string) * Z :=
  let r := Evaluate tr (delivery "d1") (run NewBoundary ops) in
  (match r.1 with Ok x => Ok (br_Decision x, br_Reason x) | Err e => Err e end, fixtureCount r.2 EffectExternalNetwork).
Definition good : Trajectory := traj "host" "home" 700 [grant "host" "home"].
Example deliveries : (fun r => decisions r.1 r.2) <$> [
    ([], good); ([OReach "host" true], good); ([OReach "host" true; OEval good (delivery "d0")], good);
    ([OReach "host" true], traj "host" "home" 699 [grant "host" "home"]);
    ([OReach "host" true; OEval good (delivery "d0")], traj "host" "home" 699 [grant "host" "home"])] =
  [(Ok ("deny_unreachable", "unreachable"), 0); (Ok ("allow", "authorized"), 1); (Ok ("allow", "authorized"), 1);
   (Ok ("deny_out_of_authority", "stale_authority_epoch"), 0); (Err "effect id collision", 1)].
Proof. vm_compute. reflexivity. Qed.
(** The parts of a fingerprint are joined by NUL without their lengths: two
    requests that cut the same bytes differently share it, and the second,
    which no grant covers, is answered with the allow of the first. *)
Definition nul (a b : string) : string := a +:+ String NUL b.
Definition granted : Trajectory := traj (nul "x" "y") "z" 700 [grant (nul "x" "y") "z"].
Definition other : Trajectory := traj "x" (nul "y" "z") 700 [grant (nul "x" "y") "z"].
Example shared_fingerprint :
  checkAuth other = (false, "no_matching_grant") /\ fingerprint other = fingerprint granted /\
  decisions [OReach (nul "x" "y") true; OEval granted (delivery "d0")] other = (Ok ("allow", "authorized"), 1).
Proof. vm_compute. done. Qed.
End BoundaryExample.
